(* ===== verification/_CoqProject ===== *)
-Q . S2P
Prelude.v
Rlp.v
RlpProofs.v
Config.v
Objects.v
Interfaces.v
Receipts.v
Trie.v
TrieNibbles.v
TrieTree.v
TrieCode.v
TrieStore.v
TrieLookup.v
TrieInsert.v
TrieRemove.v
TrieMap.v
TrieProps.v
TrieHash.v
TrieHashProofs.v
TrieRoots.v
Account.v
ChainState.v
StateOps.v
Exdb.v
Operations.v
Codec.v
Transaction.v
CodecProofs.v
TransactionProofs.v
Wire.v
BlockHeader.v
BlockHeaderProofs.v
Blocks.v
TxQueue.v
TxQueueProofs.v
TxQueueOps.v
Pool.v
Mempool.v
BookProofs.v
Exchange.v
Vote.v
Income.v
Miner.v
Verify.v
Executive.v
BlockVerify.v
BlockVerifyProofs.v
Turns.v
BlockChain.v
ChainCodec.v
ChainMemo.v
ChainTree.v
ChainBlooms.v
ChainInsert.v
ChainInv.v
ChainGrow.v
ChainImport.v
ChainProps.v
LogFilter.v
BlockQueue.v
BlockQueueProofs.v
BlockPipeline.v
BlockPurge.v
Scenario.v
VoteProofs.v
Rollback.v
Undoable.v
Commit.v
Atomic.v
Supply.v
StateProofs.v
ExecutiveProofs.v
Sealing.v
Transactions.v
Market.v
Ledger.v
Payments.v
Persistence.v
Dpos.v
Findings.v
