(* ===== verification/Prelude.v ===== *)
(** * Verification of the BaerChain node core

    The node (src/) keeps a chain of blocks of signed transactions.  A transaction either moves
    BRC, calls or creates a contract, or carries a batch of operations: transfers, votes and
    ballots, orders on the built-in BRC/cookie exchange, income, miner and gas price changes.
    "Cookies" pay for gas; a block producer earns them and shares them with its voters.

    ** Parts and how they interact

    - Bytes arrive as RLP (libdevcore/RLP) and become a transaction (libbrccore/TransactionBase),
      which waits in the queue (libbrcdchain/TransactionQueue) until a block takes it.
    - Blocks arrive as RLP as well: the block queue (libbrcdchain/BlockQueue) holds them until
      their parent and their time have come, has verifier threads check them
      (BlockChain::verifyBlock: libbrccore/BlockHeader, SealEngine, the transactions), and hands
      them to the chain in order.
    - The chain (libbrcdchain/BlockChain, BlockDetails) checks whose turn it was to seal
      (Verify), executes the block, stores it with its receipts (TransactionReceipt, LogEntry),
      and switches to its branch when that is the better one; it answers queries by hash, number,
      transaction and log filter through caches in front of its databases.
    - The executive (libbrcdchain/Executive) checks a transaction, reads the batch it carries,
      has the batch checked (libbrcdchain/BRCTranscation, DposVote), executes it on the state,
      charges the sender and credits the producer.
    - The state (libbrcdchain/State) caches accounts over the state trie and logs every change;
      a failed transaction is rolled back entry by entry; [commit] writes the cache back.
    - Tries (libdevcore/TrieDB, TrieCommon) file their nodes by hash in a database with reference
      counts (StateCacheDB, OverlayDB); libdevcore/TrieHash computes the roots in a block header
      without a database.
    - The exchange (libbrcdchain/ExdbState and the account that stores the book) matches orders;
      State settles the fills.  Votes, snapshots and elections live in special accounts.

    ** Files

    Shared: Prelude (integers, the monad [ST] of state and outcomes, record fields, ordered
    maps), Config (libbrccore/config.cpp, system addresses), Interfaces (hash, signature
    recovery, storage trie, random eviction), Scenario (small chains for witnesses).

    Models, one per component, definitions named as in the source:
    - Rlp: RLPStream and RLP.  Objects: orders and the indices of the book
      (indexDb/database/include/brc).  Account: Account.h/.cpp.
    - Trie: nibbles and hex-prefix keys, the node database, lookup, insertion and removal in
      GenericTrieDB.  TrieHash: TrieHash.cpp.
    - ChainState: the members of State, cache, change log, [rollback], [commit],
      [executeTransaction].  StateOps: balances, BRC, ballots, nonces, storage, code.
    - Exdb: ExdbState.cpp.  Exchange: orders and settlement in State.cpp.  Vote, Income, Miner:
      delegation, elections, fee income, miners and gas prices in State.cpp and Block.cpp.
    - Operations, Codec: the operations of a batch (Transaction.h) and the account record.
    - Transaction: TransactionBase.  TxQueue: TransactionQueue.  Verify: the checks and the
      dispatch of a batch.  Executive: Executive.cpp, SealEngineFace::verifyTransaction,
      State::execute and executeBlockTransactions.
    - BlockHeader: BlockHeader.cpp and SealEngineFace::verify.  BlockVerify:
      BlockChain::verifyBlock and the threads it uses.  BlockQueue: BlockQueue.cpp and .h; the
      two critical sections of a verifier thread are two operations.
    - Receipts: TransactionReceipt and LogEntry.  Turns: Verify.cpp.  BlockChain: BlockDetails
      and the rest of BlockChain.cpp: the databases and caches, routes, the Bloom index,
      insertion, the choice between branches, import, rewinding, rescue, opening.  LogFilter:
      LogFilter.cpp.  Sealing: when SHDpos and SHDposClient seal, and the time they write.

    Proofs: RlpProofs, CodecProofs, TransactionProofs, Wire (formats, and what can be read from
    any bytes); TrieNibbles, TrieTree (the tree behind the nodes), TrieCode, TrieStore,
    TrieLookup, TrieInsert, TrieRemove, TrieMap, TrieHashProofs; TxQueueProofs, TxQueueOps, Pool
    (representation, operations and interleavings of the queue); BlockHeaderProofs,
    BlockVerifyProofs, BlockQueueProofs; ChainCodec (receipts and stored entries), ChainMemo
    (caches as memos of the databases), ChainTree (ancestors and routes), ChainBlooms (the index),
    ChainInsert, ChainInv, ChainGrow (insertion and the invariant of the databases), ChainImport
    (imports, collection, opening); BookProofs (the book); Rollback, Undoable, Commit,
    Atomic (the change log); Supply, Ledger, StateProofs (totals and double entry); VoteProofs;
    ExecutiveProofs.

    ** What the theorems show

    - Transactions: a transaction that fails leaves no trace; one that succeeds keeps the totals
      of BRC and costs the sender exactly the fee of its receipt; it cannot be replayed in any
      later state or block; a block takes the sum of the fees; the rules of batches.
    - Mempool, Pool: under every interleaving of clients and verifiers the transaction queue stays
      consistent, bounded and free of undefined behaviour, as long as the signers can be
      recovered (and breaks if one cannot); importing refines an insertion into a
      map from senders and nonces; waiting transactions become ready; peers are answered in order.
    - TrieProps: histories of insertions and removals refine a finite map; equal content gives an
      equal root; committing keeps every trie that is in use, and only frees what is not.
      TrieRoots: the root without a database is the same root.
    - Blocks: every header that can be read is well typed; the checks accept exactly the headers
      that obey the rules; the header hash fixes transactions and uncles; a signed header passes
      the check wherever it is read.  BlockVerifyProofs: the checks the verifier threads make
      accept exactly the blocks that are well formed and signed, however the transactions are
      spread over threads.
    - BlockPipeline: under every interleaving of imports, verifiers, drains and retries the sets
      of the block queue are exact, parents come before children, and every ready block is
      verified in the end, as long as no queued block has to be condemned.  BlockPurge:
      condemning ends, what it leaves behind, and what it gets wrong.
    - ChainProps: whatever imports, queries, collections and restarts a chain goes through, its
      caches (but for that of the places of transactions, which can go stale), tree of blocks,
      numbers and Bloom index stay consistent; an import exchanges the
      upper end of the branch for the blocks it reports; only authors whose turn it was get a
      block in; numbers, routes and log filters lead to exactly the blocks they should; caches
      change no answer; the databases can be opened again at any time.  LogFilter: a filter with
      one topic per position finds every log it wants.  Sealing: a block that a node seals in
      its slot passes the check of its author on the other nodes.
    - Market: matching refines a reference matcher, keeps the book well formed, respects price,
      time and the limits of both orders; a limit order that ends in a partial fill is
      undefined behaviour, since the code reads through an erased iterator.
    - Payments: transfers, settlement, cancellation and ballots are double entry.
    - Persistence: RLP, accounts and transactions are read back as written; reading ends on every
      input; [commit] writes what the cache shows.
    - Dpos: delegation turns ballots into votes and back; elections, snapshots, shares, rounds,
      gas prices.
    - Findings (and the ends of Mempool, Blocks, BlockPurge, LogFilter and Sealing): behaviour the
      code does not mean to have.

    ** Conventions and bounds

    Numbers are [Z] with the wrap-around of their width written out ([w256], [u32]).  Outcomes
    are values: [Ok], [Throw], [Exit], [Undef] for undefined behaviour, [OutOfFuel].  Fuel
    bounds the recursion of the automatic orders of the system account (a round that places no
    new order ends it); the theorems about transactions hold for every fuel, for the outcomes
    they name.  Assertions of the source are left out, as in release builds, but for those of
    treeRoute and of the log entries, which are modelled as [Exit].  The loops of RLP and of the queues get the length of their data, operations on
    a trie twice the length of the key plus 8 ([fuel_of]), [hash256] the longest key plus one;
    all are proved to need no more.  Two states are equivalent when every address reads the
    same: cache flags, the code cache and balances modulo 2^256 are abstracted from.

    Hash collisions are not excluded anywhere: where a theorem needs distinct hashes it is about
    a set of strings without collisions ([collision_free]), which has to contain the nodes or
    blocks it speaks of; reference counts have to stay below 2^32 ([room]).  The block queue sees
    the chain through [ChainFace]; [ChainFaceOk] is what it relies on, and [chain_face_ok] shows
    it of verifyBlock, but for the assumption that no block has the hash of another's uncles.

    The chain sees the execution of blocks through [BlockFace]: the state after a block, and
    the receipts of executing one, both arbitrary but for [BlockFaceLaws] (they query the chain
    and do not change its databases, and receipts are well typed).  The theorems about chains
    start from empty databases and a genesis block that can be read ([GenesisOk]); an imported
    block has been verified, is shorter than 2^32 bytes and its hash is not zero ([handed]);
    numbers stay below 2^32 - 1 and a block has fewer than 2^50 children ([room_left]).  Writes
    to the databases succeed.  The loop of [treeRoute] that climbs from both blocks gets the
    number of the lower one plus one, which is proved to be enough.

    ** Not modelled

    - The EVM interpreter and the precompiled contracts: an interface ([Machine]) that may do
      anything; conservation is stated for transactions that run no code.
    - The state over the tries: State reads a map of accounts and the laws of [StorageTrie]; that
      the trie is such a map is proved apart from it.  Iterators over tries and debug scans.
    - Cryptography: [sha3] and [recover] are arbitrary functions.  The containers of the standard
      library behind the transaction queue are an interface ([Containers]); its law
      [emplace_total] goes beyond the standard where the order of the queue has changed under its
      elements (see the finding on the stale order).
    - Assembling and enacting whole blocks (Block::sync, enact) is behind [BlockFace], for it
      needs the interpreter and the world state; the parts of it that are this chain's own, the
      work at the start of a block and the execution of its transactions, are modelled.  Of the
      seal engine the lists of bad blocks and punishments are left out: nothing that is reached
      fills them.
    - Chains after [rewind], [rescue], [insert] and [insertWithoutParent] are modelled but
      outside [reachable], for the invariant does not hold of them: rewinding leaves entries
      above the head behind (see the findings), the insertions store blocks above the head or
      without a parent.  rebuild and the export of the chain are loops over database files.
    - In the block queue, steps that condemn queued blocks are outside the interleavings of
      BlockPipeline: the code condemns the wrong ones (BlockPurge).
    - The network, the client and JSON-RPC: input and output.
    - Genesis data, replaced miners and corrected votes are tables passed as arguments. *)
From stdpp Require Import base gmap sets list strings sorting.
From Stdlib Require Import ZArith Lia.
Open Scope Z_scope.

(** ** Machine integers

    [u256], [h256], [Address] (160 bit) and [int64_t] are all carried by [Z];
    every operation of the source that can leave the 256-bit range is written
    with its wrap-around, as boost's fixed-width [unchecked] backend does. *)
Abbreviation u256 := Z (only parsing).
Abbreviation h256 := Z (only parsing).
Abbreviation Address := Z (only parsing).
Abbreviation int64 := Z (only parsing).
Abbreviation uint32 := Z (only parsing).
Abbreviation bytes := (list Z) (only parsing).

Definition M256 : Z := 2 ^ 256.
Definition INT64_MAX : Z := 2 ^ 63 - 1.
Definition w256 (x : Z) : Z := x mod M256.
Definition in256 (x : Z) : Prop := 0 <= x < M256.
(** Arithmetic on [unsigned]. *)
Definition u32 (x : Z) : uint32 := x mod 2 ^ 32.

Declare Scope u256_scope.
Delimit Scope u256_scope with u256.
Notation "a [+] b" := (w256 (a + b)) (at level 50, left associativity) : u256_scope.
Notation "a [-] b" := (w256 (a - b)) (at level 50, left associativity) : u256_scope.
Notation "a [*] b" := (w256 (a * b)) (at level 40, left associativity) : u256_scope.
Open Scope u256_scope.

Lemma M256_pos : 0 < M256.
Proof. reflexivity. Qed.

Lemma u32_small x : 0 <= x < 2 ^ 32 → u32 x = x.
Proof. apply Z.mod_small. Qed.

Lemma w256_in x : in256 (w256 x).
Proof. apply Z.mod_pos_bound, M256_pos. Qed.

Lemma w256_small x : in256 x → w256 x = x.
Proof. intros. by apply Z.mod_small. Qed.

Lemma w256_idem x : w256 (w256 x) = w256 x.
Proof. apply w256_small, w256_in. Qed.

Lemma w256_add_l x y : w256 (w256 x + y) = w256 (x + y).
Proof. apply Zplus_mod_idemp_l. Qed.

Lemma w256_add_r x y : w256 (x + w256 y) = w256 (x + y).
Proof. apply Zplus_mod_idemp_r. Qed.

Lemma w256_sub_r x y : w256 (x - w256 y) = w256 (x - y).
Proof. apply Zminus_mod_idemp_r. Qed.

Lemma w256_sub_l x y : w256 (w256 x - y) = w256 (x - y).
Proof. apply Zminus_mod_idemp_l. Qed.

(** Adding a value and then its 256-bit negation is the identity: the
    arithmetic fact behind every "fall back to add" and every rollback entry. *)
Lemma w256_undo b v : in256 b → (b [+] v) [+] (0 [-] v) = b.
Proof.
  intros Hb. rewrite w256_add_l, w256_add_r.
  replace (b + v + (0 - v)) with b by lia. by apply w256_small.
Qed.

Lemma w256_sub_exact b v : in256 b → 0 <= v <= b → b [+] (0 [-] v) = b - v.
Proof.
  intros [??] ?. rewrite w256_add_r. replace (b + (0 - v)) with (b - v) by lia.
  apply w256_small. unfold in256. lia.
Qed.

Lemma w256_cong x y : w256 x = w256 y ↔ (x - y) mod M256 = 0.
Proof.
  unfold w256. pose proof M256_pos. split; intros E.
  - rewrite Zminus_mod, E, Z.sub_diag. by apply Z.mod_0_l; lia.
  - apply Z.mod_divide in E as [k Hk]; [|lia].
    replace x with (y + k * M256) by lia. apply Z_mod_plus_full.
Qed.

Create HintDb u256.
Create Rewrite HintDb u256.
#[export] Hint Resolve w256_in M256_pos : u256.
#[export] Hint Rewrite w256_idem w256_add_l w256_add_r w256_sub_l w256_sub_r : u256.

(** Normalises nested wrap-arounds and closes the remaining linear goal. *)
Ltac u256_norm := autorewrite with u256.
Ltac u256_solve := u256_norm; solve [ f_equal; lia | lia | eauto with u256 ].

(** ** Outcomes and the state monad

    A C++ call returns, throws, calls [exit], or does something the language
    leaves undefined (dereferencing a null pointer or an end iterator).  A
    throw does not undo the writes made before it, so a computation is a
    function from a state to an outcome and the state it leaves behind. *)
Inductive exn :=
  | NotEnoughCash | NotEnoughBallot | NotEnoughPoll | NotEnoughVoteLog
  | InvalidAddress | InvalidAddressAddr | InvalidSysAddress | InvalidDynamic
  | InvalidFunction | InvalidMinner | InvalidAutor | UnknownAccount
  | InvalidAccountStartNonceInState | IncorrectAccountStartNonceInState
  | ExdbChangeFailed | SuccessExChangeFailed
  | order_price_num_equal_zero_error | all_price_operation_error
  | find_order_trxid_error | pendingorderAllPriceFiled
  | CancelPendingOrderFiled | receivingincomeFiled | ChangeMinerFailed
  | VerifyVoteField | VerifyPendingOrderFiled | BrcTranscationField
  | transferAutoExFailed | modifyminergaspriceFailed | ExecutiveFailed | DefaultError
  | InvalidNonce | InvalidGasPrice | InvalidSignature | InvalidZeroSignatureTransaction
  | InvalidTransactionFormat | TransactionIsUnsigned | OutOfGasIntrinsic | BlockGasLimitReached
  | InternalVMError
  | BadCast | BadRLP | UndersizeRLP | OversizeRLP | RLPException | RootNotFound | BadRoot
  | InvalidBlockFormat | InvalidBlockSignature | InvalidNumber | TooMuchGasUsed | InvalidParentHash
  | InvalidTimestamp | InvalidTransactionsRoot | InvalidUnclesHash | InvalidDifficulty
  | InvalidGasLimit | ExtraDataTooBig | TooMuchTransaction | InvalidUncleParentHash
  | AlreadyHaveBlock | EUnknownParent | FutureTime | TransientError | UnknownBlockNumber | BlockNotFound
  | InvalidStateRoot | InvalidReceiptsStateRoot | InvalidLogBloom | InvalidGasUsed | TooManyUncles
  | UncleInChain | UncleTooOld | UncleIsBrother | UncleParentNotInChain | InvalidTransactionReceiptFormat
  | TransactionReceiptVersionError | InvalidOperationOnSealedBlock
  | overflow_error  (** boost::multiprecision division by zero *).

(** [catch (Exception const&)] sees the exceptions derived from
    [dev::Exception]; [std::overflow_error] is not one of them. *)
Definition is_dev_exception (e : exn) : bool :=
  match e with overflow_error => false | _ => true end.

#[export] Instance exn_eq_dec : EqDecision exn.
Proof. solve_decision. Defined.

Inductive outcome (A : Type) :=
  | Ok (a : A)
  | Throw (e : exn)
  | Exit      (** exit(1) *)
  | OutOfFuel (** a bounded model of a recursion was not given enough fuel *)
  | Undef     (** undefined behaviour *).
Arguments Ok {A} a.
Arguments Throw {A} e.
Arguments Exit {A}.
Arguments OutOfFuel {A}.
Arguments Undef {A}.

Definition ST (S A : Type) : Type := S → outcome A * S.

#[export] Instance ST_ret S : MRet (ST S) := λ A a s, (Ok a, s).
#[export] Instance ST_bind S : MBind (ST S) := λ A B k m s,
  match m s with
  | (Ok a, s') => k a s'
  | (Throw e, s') => (Throw e, s')
  | (Exit, s') => (Exit, s')
  | (OutOfFuel, s') => (OutOfFuel, s')
  | (Undef, s') => (Undef, s')
  end.

#[export] Instance outcome_ret : MRet outcome := λ A a, Ok a.
#[export] Instance outcome_bind : MBind outcome := λ A B k m,
  match m with
  | Ok a => k a
  | Throw e => Throw e
  | Exit => Exit
  | OutOfFuel => OutOfFuel
  | Undef => Undef
  end.
(** A computation that reads no state. *)
Definition lift {S A} (m : outcome A) : ST S A := λ s, (m, s).

Definition throw {S A} (e : exn) : ST S A := λ s, (Throw e, s).
Definition undef {S A} : ST S A := λ s, (Undef, s).
Definition out_of_fuel {S A} : ST S A := λ s, (OutOfFuel, s).
Definition exit1 {S A} : ST S A := λ s, (Exit, s).
Definition getS {S} : ST S S := λ s, (Ok s, s).
Definition modS {S} (f : S → S) : ST S unit := λ s, (Ok tt, f s).
Definition try_catch {S A} (m : ST S A) (handles : exn → bool) (h : exn → ST S A) : ST S A :=
  λ s, match m s with
       | (Throw e, s') => if handles e then h e s' else (Throw e, s')
       | r => r
       end.
Definition when {S} (b : bool) (m : ST S unit) : ST S unit :=
  if b then m else mret tt.

Lemma bind_ok {S A B} (m : ST S A) (k : A → ST S B) s x s1 :
  m s = (Ok x, s1) → (m ≫= k) s = k x s1.
Proof. intros E. unfold mbind, ST_bind. by rewrite E. Qed.
Lemma bind_inv {S A B} (m : ST S A) (k : A → ST S B) s y t :
  (m ≫= k) s = (Ok y, t) → ∃ x s1, m s = (Ok x, s1) ∧ k x s1 = (Ok y, t).
Proof. unfold mbind, ST_bind. destruct (m s) as [[x|e| | |] s1]; try done. eauto. Qed.
Lemma bind_throw {S A B} (m : ST S A) (k : A → ST S B) s e s1 :
  m s = (Throw e, s1) → (m ≫= k) s = (Throw e, s1).
Proof. intros E. unfold mbind, ST_bind. by rewrite E. Qed.
Lemma bind_throw_inv {S A B} (m : ST S A) (k : A → ST S B) s e t :
  (m ≫= k) s = (Throw e, t) → m s = (Throw e, t) ∨ ∃ x s1, m s = (Ok x, s1) ∧ k x s1 = (Throw e, t).
Proof. unfold mbind, ST_bind. destruct (m s) as [[x|e'| | |] s1]; try done; [by eauto|]. intros [= -> ->]. by left. Qed.
Lemma bind_assoc {S A B C} (m : ST S A) (k : A → ST S B) (h : B → ST S C) s :
  ((m ≫= k) ≫= h) s = (m ≫= λ x, k x ≫= h) s.
Proof. unfold mbind, ST_bind. by destruct (m s) as [[x|e| | |] s1]. Qed.

Lemma bind_Ok_r {A} (m : outcome A) : (x ← m; Ok x) = m.
Proof. by destruct m. Qed.

(** u256 division: boost throws on a zero divisor. *)
Definition u256_div {S} (a b : u256) : ST S u256 :=
  if bool_decide (b = 0) then throw overflow_error else mret (a / b).
Definition u256_mod {S} (a b : u256) : ST S u256 :=
  if bool_decide (b = 0) then throw overflow_error else mret (a mod b).

(** [for (auto x : xs) f(x)] and the accumulating form of it. *)
Fixpoint forM {S A} (xs : list A) (f : A → ST S unit) : ST S unit :=
  match xs with
  | [] => mret tt
  | x :: xs => f x ;; forM xs f
  end.
Fixpoint foldM {S A B} (f : B → A → ST S B) (b : B) (xs : list A) : ST S B :=
  match xs with
  | [] => mret b
  | x :: xs => b' ← f b x; foldM f b' xs
  end.

(** ** Record fields

    [Reshape R] holds a record's eta-expansion through its projections; from
    it [field_setter] derives, field by field, the function that rewrites one
    projection.  [r <| f := v |>] assigns, [r <| f ::= g |>] updates. *)
Class Reshape (R : Type) := reshape : R → R.
Class Field {R T : Type} (get : R → T) := upd : (T → T) → R → R.
Arguments upd {R T} get {_} _ _.

Ltac term_head t := lazymatch t with ?f _ => term_head f | _ => t end.
Ltac field_setter :=
  lazymatch goal with
  | |- @Field ?R ?T ?get =>
      let call := constr:(@reshape R _) in
      let inst := lazymatch call with @reshape _ ?i => i end in
      let h := term_head inst in
      exact (fun (g : T → T) (r : R) => ltac:(
        let body := eval cbv beta delta [h] in (inst r) in
        let pat := eval pattern (get r) in body in
        lazymatch pat with
        | ?F ?x => let t := eval cbv beta in (F (g x)) in exact t
        end))
  end.

Notation "r <| f := v |>" := (upd f (λ _, v) r)
  (at level 1, f at level 200, format "r  <| f  :=  v |>").
Notation "r <| f ::= g |>" := (upd f g r)
  (at level 1, f at level 200, format "r  <| f  ::=  g |>").

(** ** [std::map]

    A [std::map] is a [gmap]; iterating over it visits the keys in ascending
    order. *)
Definition key_le {V} (p q : Z * V) : Prop := p.1 <= q.1.
#[export] Instance key_le_dec {V} : RelDecision (@key_le V).
Proof. intros p q. unfold key_le. apply _. Defined.

Definition map_iter {V} (m : gmap Z V) : list (Z * V) := merge_sort key_le (map_to_list m).

(** [std::map::find(k)] followed by [++it] until [end()]. *)
Definition map_from {V} (k : Z) (m : gmap Z V) : list (Z * V) :=
  match m !! k with
  | None => []
  | Some _ => filter (λ p : Z * V, k <= p.1) (map_iter m)
  end.

Definition map_count {V} (m : gmap Z V) (k : Z) : bool :=
  bool_decide (is_Some (m !! k)).

Lemma map_iter_perm {V} (m : gmap Z V) : map_iter m ≡ₚ map_to_list m.
Proof. apply merge_sort_Permutation. Qed.

Lemma map_iter_elem {V} (m : gmap Z V) k v : (k, v) ∈ map_iter m ↔ m !! k = Some v.
Proof. rewrite map_iter_perm. apply elem_of_map_to_list. Qed.

Lemma filter_sorted {A} (R : A → A → Prop) (P : A → Prop) `{∀ x, Decision (P x)} l :
  StronglySorted R l → StronglySorted R (filter P l).
Proof.
  induction 1 as [|x l Hl IH Hx]; [constructor|]. rewrite filter_cons. case_decide; [|done].
  constructor; [done|]. rewrite Forall_forall in *. intros y [_ Hy]%list_elem_of_filter. auto.
Qed.

Lemma filter_ext_in {A} (P R : A → Prop) `{∀ x, Decision (P x), ∀ x, Decision (R x)} (l : list A) :
  (∀ x, x ∈ l → P x ↔ R x) → filter P l = filter R l.
Proof.
  induction l as [|x l IH]; intros H1; [done|]. rewrite !filter_cons, IH by (intros; apply H1; by right).
  pose proof (H1 x ltac:(left)). repeat case_decide; tauto.
Qed.

(** ** Stable insertion by key

    boost's [ordered_non_unique] index inserts a new element after the elements
    with an equivalent key: the iteration order of an index is the stable sort
    of the container's elements in the order of their insertion. *)
Section StableSort.
Context {A : Type} (lt : A → A → bool).

Fixpoint insert_upper (x : A) (l : list A) : list A :=
  match l with
  | [] => [x]
  | y :: l' => if lt x y then x :: l else y :: insert_upper x l'
  end.

Definition stable_sort (l : list A) : list A := foldl (λ acc x, insert_upper x acc) [] l.

Lemma insert_upper_perm x l : insert_upper x l ≡ₚ x :: l.
Proof.
  induction l as [|y l IH]; simpl; [done|].
  destruct (lt x y); [done|]. rewrite IH. apply Permutation_swap.
Qed.

Lemma stable_sort_perm l : stable_sort l ≡ₚ l.
Proof.
  unfold stable_sort. enough (∀ acc, foldl (λ acc x, insert_upper x acc) acc l ≡ₚ l ++ acc) as H
    by by rewrite H, app_nil_r.
  induction l as [|x l IH]; intros acc; simpl; [done|].
  rewrite IH, insert_upper_perm. by rewrite Permutation_middle.
Qed.

Context (lt_asym : ∀ x y, lt x y = true → lt y x = false).
Context (lt_total : ∀ x y z, lt y x = false → lt z y = false → lt z x = false).

(** [nlt] ("not greater than") is the order the index iterates in. *)
Definition nlt (x y : A) : Prop := lt y x = false.

Lemma insert_upper_sorted x l :
  StronglySorted nlt l → StronglySorted nlt (insert_upper x l).
Proof using lt_asym lt_total.
  induction 1 as [|y l Hl IH Hy]; simpl; [repeat constructor|].
  destruct (lt x y) eqn:E.
  - constructor; [by constructor|]. constructor; [by apply lt_asym|].
    eapply Forall_impl; [exact Hy|]. intros z Hz. eapply lt_total; [|exact Hz].
    by apply lt_asym.
  - constructor; [done|]. rewrite insert_upper_perm. constructor; done.
Qed.

Lemma stable_sort_sorted l : StronglySorted nlt (stable_sort l).
Proof using lt_asym lt_total.
  unfold stable_sort. assert (StronglySorted nlt []) as H by constructor.
  revert H. generalize (@nil A). induction l as [|x l IH]; simpl; auto.
  intros acc H. by apply IH, insert_upper_sorted.
Qed.
End StableSort.

(** ** Sums *)
Definition sumZ {A} (f : A → Z) (l : list A) : Z := foldr (λ x acc, f x + acc) 0 l.
Arguments sumZ : simpl never.

Lemma sumZ_nil {A} (f : A → Z) : sumZ f [] = 0.
Proof. done. Qed.
Lemma sumZ_cons {A} (f : A → Z) x l : sumZ f (x :: l) = f x + sumZ f l.
Proof. done. Qed.
Lemma sumZ_app {A} (f : A → Z) l1 l2 : sumZ f (l1 ++ l2) = sumZ f l1 + sumZ f l2.
Proof. induction l1; cbn [app]; rewrite ?sumZ_cons; [done|lia]. Qed.

#[export] Instance sumZ_perm {A} (f : A → Z) : Proper ((≡ₚ) ==> eq) (sumZ f).
Proof. induction 1; rewrite ?sumZ_cons; lia. Qed.

Lemma sumZ_nonneg {A} (f : A → Z) l : (∀ x, x ∈ l → 0 <= f x) → 0 <= sumZ f l.
Proof.
  induction l as [|x l IH]; intros H; [done|]. rewrite sumZ_cons.
  pose proof (H x ltac:(left)). enough (0 <= sumZ f l) by lia.
  apply IH. intros. apply H. by right.
Qed.

Lemma sumZ_ext {A} (f g : A → Z) l : (∀ x, x ∈ l → f x = g x) → sumZ f l = sumZ g l.
Proof.
  induction l as [|x l IH]; intros H; [done|]. rewrite !sumZ_cons.
  rewrite (H x) by left. f_equal. apply IH. intros. apply H. by right.
Qed.
