(* ===== verification/Rlp.v ===== *)
(** * RLP (libdevcore/RLP.h, RLP.cpp)

    [RLPStream] writes a byte stream, keeping a stack of the lists that are
    still open; [RLP] reads one.  [encode] is the format both implement. *)
From stdpp Require Import base list.
From Stdlib Require Import ZArith Lia.
From S2P Require Import Prelude.
Open Scope Z_scope.

Abbreviation len l := (Z.of_nat (length l)).

(** ** Constants *)
Definition c_rlpMaxLengthBytes : Z := 8.
Definition c_rlpDataImmLenStart : Z := 0x80.
Definition c_rlpListStart : Z := 0xc0.
Definition c_rlpDataImmLenCount : Z := c_rlpListStart - c_rlpDataImmLenStart - c_rlpMaxLengthBytes.
Definition c_rlpDataIndLenZero : Z := c_rlpDataImmLenStart + c_rlpDataImmLenCount - 1.
Definition c_rlpListImmLenCount : Z := 256 - c_rlpListStart - c_rlpMaxLengthBytes.
Definition c_rlpListIndLenZero : Z := c_rlpListStart + c_rlpListImmLenCount - 1.
(** [numeric_limits<size_t>::max()] *)
Definition SIZE_MAX : Z := 2 ^ 64 - 1.

(** ** Big-endian integers *)

(** [pushInt]: the bytes of [i], most significant first. *)
Fixpoint push_int (fuel : nat) (i : Z) (acc : bytes) : bytes :=
  match fuel with
  | O => acc
  | S fuel => if i =? 0 then acc else push_int fuel (i / 256) (i mod 256 :: acc)
  end.
Definition toBE (i : Z) : bytes := push_int (Z.to_nat (Z.log2 i + 1)) i [].
Definition bytesRequired (i : Z) : Z := len (toBE i).
Definition fromBE (b : bytes) : Z := foldl (λ r x, r * 256 + x) 0 b.
(** [toBigEndian] into a buffer of [n] bytes. *)
Fixpoint toBE_n (n : nat) (i : Z) : bytes :=
  match n with O => [] | S n => toBE_n n (i / 256) ++ [i mod 256] end.

(** ** The format *)
Inductive rlp_item := Data (b : bytes) | Items (l : list rlp_item).

(** The length prefix of a payload of [s] bytes, for data ([start] = 0x80) and
    lists ([start] = 0xc0). *)
Definition header (start s : Z) : bytes :=
  if s <? 56 then [start + s] else (start + 55 + bytesRequired s) :: toBE s.

Definition encode_data (b : bytes) : bytes :=
  match b with
  | [x] => if x <? 0x80 then [x] else header 0x80 1 ++ b
  | _ => header 0x80 (len b) ++ b
  end.
Fixpoint encode (x : rlp_item) : bytes :=
  match x with
  | Data b => encode_data b
  | Items l => let p := concat (encode <$> l) in header 0xc0 (len p) ++ p
  end.

(** The item [append] writes for an integer, a fixed hash of [n] bytes, a byte string. *)
Definition rlp_int (i : Z) : rlp_item := Data (toBE i).
Definition rlp_hash (n : nat) (h : Z) : rlp_item := Data (toBE_n n h).
Definition rlp_bytes (b : bytes) : rlp_item := Data b.
Definition rlp_pair (x y : rlp_item) : rlp_item := Items [x; y].
(** [append(unsigned)], the overload an [int64_t] or [size_t] argument selects. *)
Definition rlp_unsigned (i : Z) : rlp_item := rlp_int (i mod 2 ^ 32).

(** ** [RLPStream] *)
Record RLPStream := mkStream { m_out : bytes; m_listStack : list (Z * nat) }.
Definition stream_empty : RLPStream := mkStream [] [].

(** [noteAppended]: close every list that is complete, from the innermost. *)
Fixpoint note_loop (_itemCount : Z) (out : bytes) (stack : list (Z * nat)) : outcome RLPStream :=
  match stack with
  | [] => Ok (mkStream out [])
  | (first, p) :: stack' =>
      if first <? _itemCount then Throw RLPException
      else if bool_decide (first - _itemCount ≠ 0) then Ok (mkStream out ((first - _itemCount, p) :: stack'))
      else
        let s := len out - Z.of_nat p in
        let brs := bytesRequired s in
        if s <? c_rlpListImmLenCount then
          note_loop 1 (take p out ++ [c_rlpListStart + s] ++ drop p out) stack'
        else if c_rlpListIndLenZero + brs <=? 0xff then
          note_loop 1 (take p out ++ ((c_rlpListIndLenZero + brs) :: toBE s) ++ drop p out) stack'
        else Throw RLPException
  end.
Definition noteAppended (_itemCount : Z) (s : RLPStream) : outcome RLPStream :=
  if _itemCount =? 0 then Ok s else note_loop _itemCount (m_out s) (m_listStack s).
Definition push (b : bytes) (s : RLPStream) : RLPStream := mkStream (m_out s ++ b) (m_listStack s).
Definition appendRaw (b : bytes) (_itemCount : Z) (s : RLPStream) : outcome RLPStream :=
  noteAppended _itemCount (push b s).
Definition pushCount (_count _base : Z) (s : RLPStream) : outcome RLPStream :=
  let br := bytesRequired _count in
  if 0xff <? br + _base then Throw RLPException
  else Ok (push ((br + _base) :: toBE _count) s).
Definition appendList_bytes (b : bytes) (s : RLPStream) : outcome RLPStream :=
  s1 ← (if len b <? c_rlpListImmLenCount then Ok (push [len b + c_rlpListStart] s)
        else pushCount (len b) c_rlpListIndLenZero s);
  appendRaw b 1 s1.
Definition appendList (_items : Z) (s : RLPStream) : outcome RLPStream :=
  if bool_decide (_items ≠ 0) then Ok (mkStream (m_out s) ((_items, length (m_out s)) :: m_listStack s))
  else appendList_bytes [] s.
Definition append_bytes (b : bytes) (s : RLPStream) : outcome RLPStream :=
  let prefixed :=
    s1 ← (if len b <? c_rlpDataImmLenCount then Ok (push [len b + c_rlpDataImmLenStart] s)
          else pushCount (len b) c_rlpDataIndLenZero s);
    appendRaw b 0 s1 in
  s2 ← match b with
       | [d] => if d <? c_rlpDataImmLenStart then Ok (push [d] s) else prefixed
       | _ => prefixed
       end;
  noteAppended 1 s2.
Definition append_int (i : Z) (s : RLPStream) : outcome RLPStream :=
  s2 ← (if i =? 0 then Ok (push [c_rlpDataImmLenStart] s)
        else if i <? c_rlpDataImmLenStart then Ok (push [i] s)
        else
          let br := bytesRequired i in
          s1 ← (if br <? c_rlpDataImmLenCount then Ok (push [br + c_rlpDataImmLenStart] s)
                else
                  let brbr := bytesRequired br in
                  if 0xff <? c_rlpDataIndLenZero + brbr then Throw RLPException
                  else Ok (push ((c_rlpDataIndLenZero + brbr) :: toBE br) s));
          Ok (push (toBE i) s1));
  noteAppended 1 s2.
Definition out (s : RLPStream) : outcome bytes :=
  if bool_decide (m_listStack s ≠ []) then Throw RLPException else Ok (m_out s).

(** ** [RLP]: a view [m_data] of the bytes of one item *)

(** [vector_ref::cropped], with and without a count: an empty view when out of range. *)
Definition cropped (d : bytes) (_begin _count : Z) : bytes :=
  if _begin + _count <=? len d then take (Z.to_nat _count) (drop (Z.to_nat _begin) d) else [].
Definition cropped_from (d : bytes) (_begin : Z) : bytes := drop (Z.to_nat _begin) d.
Definition byte_at (d : bytes) (i : Z) : Z := nth (Z.to_nat i) d 0.

Definition isNull (d : bytes) : bool := bool_decide (d = []).
Definition isData (d : bytes) : bool := negb (isNull d) && (byte_at d 0 <? c_rlpListStart).
Definition isList (d : bytes) : bool := negb (isNull d) && (c_rlpListStart <=? byte_at d 0).
Definition isSingleByte (d : bytes) : bool := negb (isNull d) && (byte_at d 0 <? c_rlpDataImmLenStart).

(** [RLP::isEmpty]: a zero-length string or list. *)
Definition rlp_isEmpty (d : bytes) : bool :=
  negb (isNull d) && ((byte_at d 0 =? c_rlpDataImmLenStart) || (byte_at d 0 =? c_rlpListStart)).

Definition requireGood (d : bytes) : outcome unit :=
  if isNull d then Throw BadRLP
  else if bool_decide (byte_at d 0 ≠ c_rlpDataImmLenStart + 1) then Ok tt
  else if len d <? 2 then Throw BadRLP
  else if byte_at d 1 <? c_rlpDataImmLenStart then Throw BadRLP
  else Ok tt.

Definition isInt (d : bytes) : outcome bool :=
  if isNull d then Ok false
  else
    requireGood d ;;
    let n := byte_at d 0 in
    if n <? c_rlpDataImmLenStart then Ok (negb (n =? 0))
    else if n =? c_rlpDataImmLenStart then Ok true
    else if n <=? c_rlpDataIndLenZero then
      if len d <=? 1 then Throw BadRLP else Ok (negb (byte_at d 1 =? 0))
    else if n <? c_rlpListStart then
      if len d <=? 1 + n - c_rlpDataIndLenZero then Throw BadRLP
      else Ok (negb (byte_at d (1 + n - c_rlpDataIndLenZero) =? 0))
    else Ok false.

(** The long form of [length()]: [lengthSize] bytes of length, at least [limit]. *)
Definition long_length (d : bytes) (lengthSize limit : Z) : outcome Z :=
  if len d <=? lengthSize then Throw BadRLP
  else if (1 <? len d) && (byte_at d 1 =? 0) then Throw BadRLP
  else if 8 <? lengthSize then Throw UndersizeRLP
  else
    let ret := fromBE (take (Z.to_nat lengthSize) (drop 1 d)) in
    if ret <? limit then Throw BadRLP
    else if SIZE_MAX - 0x100 <=? ret then Throw UndersizeRLP
    else Ok ret.
Definition rlp_length (d : bytes) : outcome Z :=
  if isNull d then Ok 0
  else
    requireGood d ;;
    let n := byte_at d 0 in
    if n <? c_rlpDataImmLenStart then Ok 1
    else if n <=? c_rlpDataIndLenZero then Ok (n - c_rlpDataImmLenStart)
    else if n <? c_rlpListStart then
      long_length d (n - c_rlpDataIndLenZero)
        (c_rlpListStart - c_rlpDataImmLenStart - c_rlpMaxLengthBytes)
    else if n <=? c_rlpListIndLenZero then Ok (n - c_rlpListStart)
    else long_length d (n - c_rlpListIndLenZero) (0x100 - c_rlpListStart - c_rlpMaxLengthBytes).

Definition lengthSize (d : bytes) : Z :=
  if isData d && (c_rlpDataIndLenZero <? byte_at d 0) then byte_at d 0 - c_rlpDataIndLenZero
  else if isList d && (c_rlpListIndLenZero <? byte_at d 0) then byte_at d 0 - c_rlpListIndLenZero
  else 0.
Definition payloadOffset (d : bytes) : Z := if isSingleByte d then 0 else 1 + lengthSize d.
Definition payload (d : bytes) : outcome bytes :=
  l ← rlp_length d;
  if len d <? l then Throw BadRLP else Ok (cropped d (payloadOffset d) l).
Definition actualSize (d : bytes) : outcome Z :=
  if isNull d then Ok 0
  else if isSingleByte d then Ok 1
  else l ← rlp_length d; Ok (payloadOffset d + l).

(** The constructor with [VeryStrict], and with [ThrowOnFail | FailIfTooSmall]. *)
Definition RLP_ge (d : bytes) : outcome bytes :=
  n ← actualSize d; if len d <? n then Throw UndersizeRLP else Ok d.
Definition RLP (d : bytes) : outcome bytes :=
  n ← actualSize d; if n <? len d then Throw OversizeRLP else RLP_ge d.
Definition sizeAsEncoded (d : bytes) : outcome Z := r ← RLP_ge d; actualSize r.

(** The items of a list payload, as [items()], the iterators and [operator[]]
    walk them: an item is never empty, so the walk is bounded by the length. *)
Fixpoint split_items (fuel : nat) (d : bytes) : outcome (list bytes) :=
  if isNull d then Ok []
  else match fuel with
  | O => OutOfFuel
  | S fuel =>
      n ← sizeAsEncoded d;
      rest ← split_items fuel (cropped_from d n);
      Ok (take (Z.to_nat n) d :: rest)
  end.
Definition rlp_list (d : bytes) : outcome (list bytes) :=
  if isList d then p ← payload d; split_items (length p) p else Ok [].
Definition itemCount (d : bytes) : outcome Z := l ← rlp_list d; Ok (len l).
(** [operator[]]: walks only as far as the item asked for; null past the end. *)
Fixpoint walk (i : nat) (d : bytes) : outcome bytes :=
  n ← sizeAsEncoded d;
  match i with
  | O => Ok (cropped d 0 n)
  | S i => if n =? 0 then Ok [] else walk i (cropped_from d n)
  end.
Definition item (d : bytes) (i : nat) : outcome bytes := p ← payload d; x ← walk i p; RLP_ge x.

(** [toInt<T>()] with [Strict] flags, [maxSize] bytes wide; [convert<T>(LaissezFaire)]. *)
Definition toInt (maxSize : Z) (d : bytes) : outcome Z :=
  requireGood d ;;
  b ← isInt d;
  if negb b || isList d || isNull d then Throw BadCast
  else p ← payload d; if maxSize <? len p then Throw BadCast else Ok (fromBE p).
Definition toInt_lax (maxSize : Z) (d : bytes) : outcome Z :=
  requireGood d ;;
  _ ← isInt d;
  if isList d || isNull d then Ok 0
  else p ← payload d; Ok (fromBE p mod 2 ^ (8 * maxSize)).
Definition toHash (size : Z) (d : bytes) : outcome Z :=
  requireGood d ;;
  p ← payload d;
  if negb (isData d) || (size <? len p) then Throw BadCast else Ok (fromBE p).
Definition toHash_lax (size : Z) (d : bytes) : outcome Z :=
  requireGood d ;;
  p ← payload d;
  if negb (isData d) then Ok 0 else Ok (fromBE (take (Z.to_nat size) p)).
(** [toHash<N>(VeryStrict)] *)
Definition toHash_strict (size : Z) (d : bytes) : outcome Z :=
  requireGood d ;;
  p ← payload d;
  if negb (isData d) || bool_decide (len p ≠ size) then Throw BadCast else Ok (fromBE p).
Definition toBytes (d : bytes) : outcome bytes := if isData d then payload d else Ok [].
Definition toBytes_strict (d : bytes) : outcome bytes := if isData d then payload d else Throw BadCast.

Fixpoint mapO {A B} (f : A → outcome B) (l : list A) : outcome (list B) :=
  match l with [] => Ok [] | x :: l => y ← f x; ys ← mapO f l; Ok (y :: ys) end.
(** [toVector<T>()] (not a list: empty) and [toPair<T, U>()] (strict). *)
Definition toVector {A} (conv : bytes → outcome A) (d : bytes) : outcome (list A) :=
  l ← rlp_list d; mapO conv l.
Definition toPair {A B} (f : bytes → outcome A) (g : bytes → outcome B) (d : bytes) : outcome (A * B) :=
  if isList d then
    n ← itemCount d;
    if bool_decide (n ≠ 2) then Throw BadCast
    else x ← item d 0; a ← f x; y ← item d 1; b ← g y; Ok (a, b)
  else Throw BadCast.
