(* ===== verification/RlpProofs.v ===== *)
(** * RLP: what is written is what is read

    Big-endian integers, the header of an item, and the round trip of every kind
    of item through the decoder of [Rlp]; and the streaming writer against the
    format [encode]. *)
From stdpp Require Import base list.
From Stdlib Require Import ZArith Lia.
From S2P Require Import Prelude Rlp.
Open Scope Z_scope.

Definition is_byte (b : Z) : Prop := 0 <= b < 256.

(** ** Big-endian integers *)
Lemma push_int_fuel f g i acc :
  0 <= i < 2 ^ Z.of_nat f → i < 2 ^ Z.of_nat g → push_int f i acc = push_int g i acc.
Proof.
  revert g i acc. induction f as [|f IH]; intros [|g] i acc Hi Hg; simpl; try done.
  - by assert (i = 0) as -> by lia.
  - by assert (i = 0) as -> by lia.
  - destruct (i =? 0) eqn:E; [done|]. rewrite Nat2Z.inj_succ, Z.pow_succ_r in Hi, Hg by lia.
    pose proof (Z.div_pos i 256). apply IH; [split; [lia|]|]; apply Z.div_lt_upper_bound; lia.
Qed.

Lemma push_int_acc f i acc : push_int f i acc = push_int f i [] ++ acc.
Proof.
  revert i acc. induction f as [|f IH]; intros i acc; simpl; [done|].
  destruct (i =? 0); [done|]. rewrite IH, (IH _ [_]). by rewrite <-app_assoc.
Qed.

Lemma toBE_0 : toBE 0 = [].
Proof. done. Qed.

Lemma log2_fuel i : 0 < i → i < 2 ^ Z.of_nat (Z.to_nat (Z.log2 i + 1)).
Proof.
  intros Hi. pose proof (Z.log2_nonneg i). rewrite Z2Nat.id by lia.
  rewrite Z.add_1_r. by apply Z.log2_spec.
Qed.

Lemma toBE_rec i : 0 < i → toBE i = toBE (i / 256) ++ [i mod 256].
Proof.
  intros Hi. unfold toBE. pose proof (Z.log2_nonneg i).
  replace (Z.to_nat (Z.log2 i + 1)) with (S (Z.to_nat (Z.log2 i))) by lia. simpl.
  destruct (i =? 0) eqn:E; [lia|]. rewrite push_int_acc. f_equal.
  destruct (decide (i / 256 = 0)) as [->|Hq]; [by destruct (Z.to_nat (Z.log2 i))|].
  pose proof (Z.div_pos i 256). apply push_int_fuel; [|apply log2_fuel; lia].
  split; [lia|]. rewrite Z2Nat.id by lia.
  pose proof (Z.log2_spec i Hi) as [_ Hl]. rewrite Z.pow_succ_r in Hl by lia.
  apply Z.div_lt_upper_bound; lia.
Qed.

(** Induction along the bytes of an integer. *)
Lemma toBE_ind (P : Z → Prop) :
  P 0 → (∀ i, 0 < i → P (i / 256) → P i) → ∀ i, 0 <= i → P i.
Proof.
  intros H0 Hs i. induction i as [i IH] using (well_founded_induction (Z.lt_wf 0)). intros Hi.
  destruct (decide (i = 0)) as [->|]; [done|]. apply Hs; [lia|]. apply IH; [|apply Z.div_pos; lia].
  split; [apply Z.div_pos; lia|]. apply Z.div_lt; lia.
Qed.

Lemma fromBE_snoc b x : fromBE (b ++ [x]) = fromBE b * 256 + x.
Proof. unfold fromBE. by rewrite foldl_app. Qed.

Lemma fromBE_toBE i : 0 <= i → fromBE (toBE i) = i.
Proof.
  revert i. apply toBE_ind; [done|]. intros i Hi IH. rewrite toBE_rec, fromBE_snoc, IH by done.
  rewrite Z.mul_comm, <-Z.div_mod; lia.
Qed.

Lemma toBE_bytes i : 0 <= i → Forall is_byte (toBE i).
Proof.
  revert i. apply toBE_ind; [constructor|]. intros i Hi IH. rewrite toBE_rec by done.
  apply Forall_app. split; [done|]. repeat constructor; apply Z.mod_pos_bound; lia.
Qed.

Lemma toBE_len i k : 0 <= i < 256 ^ Z.of_nat k → (length (toBE i) <= k)%nat.
Proof.
  revert i. induction k as [|k IH]; intros i Hi; [by assert (i = 0) as -> by lia|].
  destruct (decide (i = 0)) as [->|]; [simpl; lia|].
  rewrite toBE_rec, length_app by lia. simpl.
  assert (length (toBE (i / 256)) <= k)%nat; [|lia]. apply IH.
  rewrite Nat2Z.inj_succ, Z.pow_succ_r in Hi by lia. split; [apply Z.div_pos; lia|].
  apply Z.div_lt_upper_bound; lia.
Qed.

(** No leading zero. *)
Lemma toBE_head i : 0 < i → ∃ b l, toBE i = b :: l ∧ 0 < b.
Proof.
  intros Hi. assert (0 <= i) as Hi' by lia. revert i Hi' Hi.
  apply (toBE_ind (λ i, 0 < i → _)); [done|]. intros i _ IH Hi. rewrite toBE_rec by done.
  destruct (decide (i / 256 = 0)) as [E|E].
  - rewrite E, toBE_0. eexists _, _. split; [done|].
    apply Z.div_small_iff in E; [|lia]. rewrite Z.mod_small; lia.
  - destruct IH as (b&l&->&?); [pose proof (Z.div_pos i 256); lia|]. simpl. eauto.
Qed.

Lemma length_toBE_n n i : length (toBE_n n i) = n.
Proof. revert i. induction n as [|n IH]; intros i; simpl; [done|]. rewrite length_app, IH. simpl. lia. Qed.
Lemma toBE_n_bytes n i : Forall is_byte (toBE_n n i).
Proof.
  revert i. induction n as [|n IH]; intros i; simpl; [constructor|]. apply Forall_app. split; [done|].
  repeat constructor; apply Z.mod_pos_bound; lia.
Qed.
Lemma fromBE_toBE_n n i : 0 <= i < 256 ^ Z.of_nat n → fromBE (toBE_n n i) = i.
Proof.
  revert i. induction n as [|n IH]; intros i Hi; simpl; [by assert (i = 0) as -> by lia|].
  rewrite fromBE_snoc, IH; [rewrite Z.mul_comm, <-Z.div_mod; lia|].
  rewrite Nat2Z.inj_succ, Z.pow_succ_r in Hi by lia. split; [apply Z.div_pos; lia|].
  apply Z.div_lt_upper_bound; lia.
Qed.
Lemma fromBE_zeros b x : fromBE (0 :: x :: b) = fromBE (x :: b).
Proof. done. Qed.

Lemma bytesRequired_bounds s : 56 <= s < SIZE_MAX → 1 <= bytesRequired s <= 8.
Proof.
  intros Hs. unfold bytesRequired. destruct (toBE_head s) as (b&l&E&_); [lia|].
  pose proof (toBE_len s 8) as Hl. unfold SIZE_MAX in Hs.
  rewrite E in *. cbn [length] in *. lia.
Qed.

(** ** The decoder's view of an item followed by anything *)

(** [d] starts with an item of [n] bytes whose payload is [p]; [lst]: a list. *)
Record reads (d : bytes) (lst : bool) (p : bytes) (n : Z) : Prop := mk_reads {
  rd_null : isNull d = false;
  rd_list : isList d = lst;
  rd_data : isData d = negb lst;
  rd_good : requireGood d = Ok tt;
  rd_payload : payload d = Ok p;
  rd_size : actualSize d = Ok n;
}.

Lemma take_len {A} (p r : list A) : take (Z.to_nat (len p)) (p ++ r) = p.
Proof. rewrite Nat2Z.id. by rewrite take_app_length. Qed.
Lemma drop_len {A} (p r : list A) : drop (Z.to_nat (len p)) (p ++ r) = r.
Proof. rewrite Nat2Z.id. by rewrite drop_app_length. Qed.

Lemma cropped_payload h p r : cropped (h ++ p ++ r) (len h) (len p) = p.
Proof.
  unfold cropped. rewrite !length_app, drop_len, take_len.
  destruct (Z.leb_spec (len h + len p) (Z.of_nat (length h + (length p + length r)))); [done|lia].
Qed.

(** An item is known once its length, and the size of its header, are. *)
Lemma reads_of d h p r lst :
  d = h ++ p ++ r → isNull d = false → isList d = lst → isData d = negb lst →
  isSingleByte d = false → requireGood d = Ok tt →
  rlp_length d = Ok (len p) → 1 + lengthSize d = len h → reads d lst p (len h + len p).
Proof.
  intros Hd Hn Hl Hda Hs Hg Hr Ho. split; try done.
  - unfold payload, payloadOffset. rewrite Hr, Hs, Ho. cbn.
    rewrite Hd, cropped_payload, !length_app.
    destruct (Z.ltb_spec (Z.of_nat (length h + (length p + length r))) (len p)); [lia|done].
  - unfold actualSize, payloadOffset. by rewrite Hn, Hs, Hr, Ho.
Qed.

Lemma isNull_cons x l : isNull (x :: l) = false.
Proof. by apply bool_decide_eq_false. Qed.

(** Decides every comparison that linear arithmetic decides. *)
Ltac zcases :=
  repeat match goal with
  | |- context [?a <? ?b] => destruct (Z.ltb_spec a b); try lia
  | |- context [?a <=? ?b] => destruct (Z.leb_spec a b); try lia
  | |- context [?a =? ?b] => destruct (Z.eqb_spec a b); try lia
  end.
Ltac rlp_consts :=
  unfold c_rlpListIndLenZero, c_rlpDataIndLenZero, c_rlpListImmLenCount, c_rlpDataImmLenCount,
    c_rlpListStart, c_rlpDataImmLenStart, c_rlpMaxLengthBytes in *.

Lemma byte_at_0 x l : byte_at (x :: l) 0 = x.
Proof. done. Qed.
Lemma isList_cons x l : isList (x :: l) = (0xc0 <=? x).
Proof. unfold isList. by rewrite isNull_cons, byte_at_0. Qed.
Lemma isData_cons x l : isData (x :: l) = (x <? 0xc0).
Proof. unfold isData. by rewrite isNull_cons, byte_at_0. Qed.
Lemma isSingleByte_cons x l : isSingleByte (x :: l) = (x <? 0x80).
Proof. unfold isSingleByte. by rewrite isNull_cons, byte_at_0. Qed.
Lemma lengthSize_cons x l :
  lengthSize (x :: l) =
    if (x <? 0xc0) && (0xb7 <? x) then x - 0xb7 else if (0xc0 <=? x) && (0xf7 <? x) then x - 0xf7 else 0.
Proof. unfold lengthSize. by rewrite isList_cons, isData_cons, byte_at_0. Qed.

Lemma requireGood_cons x l : x ≠ 0x81 → requireGood (x :: l) = Ok tt.
Proof.
  intros Hx. unfold requireGood. rewrite isNull_cons, byte_at_0. by rewrite bool_decide_eq_true_2.
Qed.
Lemma requireGood_one x y l : 0x80 <= y → requireGood (x :: y :: l) = Ok tt.
Proof.
  intros Hy. unfold requireGood. rewrite isNull_cons. case_bool_decide; [done|].
  change (byte_at (x :: y :: l) 1) with y. rlp_consts. cbn [length]. by zcases.
Qed.

Lemma rlp_length_cons x l :
  requireGood (x :: l) = Ok tt →
  rlp_length (x :: l) =
    (if x <? 0x80 then Ok 1
     else if x <=? 0xb7 then Ok (x - 0x80)
     else if x <? 0xc0 then long_length (x :: l) (x - 0xb7) 56
     else if x <=? 0xf7 then Ok (x - 0xc0)
     else long_length (x :: l) (x - 0xf7) 56).
Proof. intros Hg. unfold rlp_length. by rewrite isNull_cons, Hg, byte_at_0. Qed.

(** A single byte is its own encoding. *)
Lemma reads_single x r : 0 <= x < 0x80 → reads (x :: r) false [x] 1.
Proof.
  intros Hx. assert (requireGood (x :: r) = Ok tt) as Hg by (apply requireGood_cons; lia).
  split; try done.
  - rewrite isList_cons. by zcases.
  - rewrite isData_cons. by zcases.
  - unfold payload, payloadOffset. rewrite rlp_length_cons, isSingleByte_cons by done.
    zcases. cbn -[cropped Z.of_nat]. zcases. f_equal. apply (cropped_payload [] [x] r).
  - unfold actualSize. rewrite isNull_cons, isSingleByte_cons. by zcases.
Qed.

(** The short form: the length is in the first byte. *)
Lemma reads_short start p r :
  start = 0x80 ∨ start = 0xc0 → len p < 56 →
  (start = 0x80 → len p = 1 → 0x80 <= byte_at p 0) →
  reads ((start + len p) :: p ++ r) (start =? 0xc0) p (1 + len p).
Proof.
  intros Hst Hp H1. assert (requireGood ((start + len p) :: p ++ r) = Ok tt) as Hg.
  { destruct (decide (start + len p = 0x81)) as [E|E]; [|by apply requireGood_cons].
    destruct p as [|y p]; cbn [length] in *; [lia|]. apply requireGood_one.
    change y with (byte_at (y :: p) 0). apply H1; lia. }
  apply (reads_of _ [start + len p] p r); try done.
  - rewrite isList_cons. by zcases.
  - rewrite isData_cons. by zcases.
  - rewrite isSingleByte_cons. by zcases.
  - rewrite rlp_length_cons by done. zcases; f_equal; lia.
  - rewrite lengthSize_cons. by zcases.
Qed.

(** The long form: the first byte holds the length of the length. *)
Lemma long_length_ok x s r :
  56 <= s < SIZE_MAX - 0x100 → long_length (x :: toBE s ++ r) (bytesRequired s) 56 = Ok s.
Proof.
  intros Hs. pose proof (bytesRequired_bounds s) as Hb. unfold bytesRequired in *.
  assert (byte_at (x :: toBE s ++ r) 1 ≠ 0) as H1.
  { destruct (toBE_head s) as (b&l&->&?); [lia|]. change (b ≠ 0). lia. }
  unfold long_length. cbn [length]. rewrite length_app.
  replace (byte_at (x :: toBE s ++ r) 1 =? 0) with false by (symmetry; by apply Z.eqb_neq).
  rewrite andb_false_r. cbn [skipn]. rewrite drop_0, take_len, fromBE_toBE by lia. by zcases.
Qed.

Lemma reads_long start p r :
  start = 0x80 ∨ start = 0xc0 → 56 <= len p < SIZE_MAX - 0x100 →
  reads ((start + 55 + bytesRequired (len p)) :: toBE (len p) ++ p ++ r) (start =? 0xc0) p
    (1 + bytesRequired (len p) + len p).
Proof.
  intros Hst Hp. pose proof (bytesRequired_bounds (len p)) as Hb.
  set (s := len p) in *. set (x := start + 55 + bytesRequired s).
  assert (requireGood (x :: toBE s ++ p ++ r) = Ok tt) as Hg by (apply requireGood_cons; lia).
  replace (1 + bytesRequired s) with (len (x :: toBE s)) by (unfold bytesRequired; cbn [length]; lia).
  apply (reads_of _ (x :: toBE s) p r); try done.
  - rewrite isList_cons. unfold x. by zcases.
  - rewrite isData_cons. unfold x. by zcases.
  - rewrite isSingleByte_cons. unfold x. by zcases.
  - rewrite rlp_length_cons by done. unfold x. zcases;
      match goal with |- long_length _ ?b _ = _ => replace b with (bytesRequired s) by lia end;
      apply long_length_ok; lia.
  - rewrite lengthSize_cons. unfold x, bytesRequired in *. cbn [length].
    zcases; cbn [andb]; lia.
Qed.

Lemma reads_header start p r :
  start = 0x80 ∨ start = 0xc0 → len p < SIZE_MAX - 0x100 →
  (start = 0x80 → len p = 1 → 0x80 <= byte_at p 0) →
  reads (header start (len p) ++ p ++ r) (start =? 0xc0) p (len (header start (len p)) + len p).
Proof.
  intros Hst Hp H1. unfold header. destruct (Z.ltb_spec (len p) 56).
  - by apply (reads_short start p r).
  - cbn [length]. replace (Z.of_nat (S (length (toBE (len p))))) with (1 + bytesRequired (len p))
      by (unfold bytesRequired; lia). apply reads_long; [done|lia].
Qed.

(** ** Items *)

(** The items a node can hold: bytes are bytes, and sizes fit a [size_t] with room for a header. *)
Fixpoint item_bytes (x : rlp_item) : Prop :=
  match x with
  | Data b => Forall is_byte b
  | Items l => foldr and True (item_bytes <$> l)
  end.
Definition item_ok (x : rlp_item) : Prop := item_bytes x ∧ len (encode x) < SIZE_MAX - 0x100.

Definition payload_of (x : rlp_item) : bytes :=
  match x with Data b => b | Items l => concat (encode <$> l) end.
Definition is_items (x : rlp_item) : bool := match x with Data _ => false | Items _ => true end.

Lemma item_bytes_items l : item_bytes (Items l) ↔ Forall item_bytes l.
Proof.
  cbn. induction l as [|x l IH]; cbn; [done|]. rewrite IH. by rewrite Forall_cons.
Qed.

Lemma length_encode_items l : len (encode (Items l)) =
  len (header 0xc0 (len (concat (encode <$> l)))) + len (concat (encode <$> l)).
Proof. cbn [encode]. rewrite length_app. lia. Qed.

Lemma item_ok_items l : item_ok (Items l) → Forall item_ok l.
Proof.
  intros [Hb Hl]. apply item_bytes_items in Hb. rewrite length_encode_items in Hl.
  assert (len (concat (encode <$> l)) < SIZE_MAX - 0x100) as H by lia. clear Hl.
  induction Hb as [|x l Hx Hl IH]; [constructor|]. cbn in H. rewrite length_app in H.
  constructor; [split; [done|lia]|]. apply IH. lia.
Qed.

Lemma encode_data_cases b :
  (∃ x, b = [x] ∧ x < 0x80 ∧ encode_data b = [x]) ∨
  (encode_data b = header 0x80 (len b) ++ b ∧ (len b = 1 → 0x80 <= byte_at b 0)).
Proof.
  destruct b as [|x [|y b]]; cbn -[header Z.of_nat].
  - right. by split.
  - destruct (Z.ltb_spec x 0x80); [left; eauto|right; by split].
  - right. split; [done|]. cbn [length]. lia.
Qed.

Lemma encode_reads x r : item_ok x → reads (encode x ++ r) (is_items x) (payload_of x) (len (encode x)).
Proof.
  intros [Hb Hl]. destruct x as [b|l].
  - cbn [encode is_items payload_of] in *. destruct (encode_data_cases b) as [(x&->&Hx&E)|[E H1]]; rewrite E in *.
    + cbn in Hb. apply reads_single. inversion Hb; subst. unfold is_byte in *. lia.
    + rewrite length_app in *. rewrite <-app_assoc, Nat2Z.inj_add.
      apply (reads_header 0x80 b r); [by left|lia|by intros _].
  - rewrite length_encode_items in *. cbn [encode is_items payload_of]. rewrite <-app_assoc.
    apply (reads_header 0xc0); [by right|lia|done].
Qed.

Lemma RLP_ge_ok x r : item_ok x → RLP_ge (encode x ++ r) = Ok (encode x ++ r).
Proof.
  intros Hx. unfold RLP_ge. rewrite (rd_size _ _ _ _ (encode_reads x r Hx)). cbn.
  rewrite length_app. by zcases.
Qed.
Lemma sizeAsEncoded_ok x r : item_ok x → sizeAsEncoded (encode x ++ r) = Ok (len (encode x)).
Proof.
  intros Hx. unfold sizeAsEncoded. rewrite RLP_ge_ok by done. cbn.
  apply (rd_size _ _ _ _ (encode_reads x r Hx)).
Qed.
Lemma RLP_ok x : item_ok x → RLP (encode x) = Ok (encode x).
Proof.
  intros Hx. pose proof (encode_reads x [] Hx) as H. pose proof (RLP_ge_ok x [] Hx) as H'.
  rewrite app_nil_r in *. unfold RLP. rewrite (rd_size _ _ _ _ H). cbn. by zcases.
Qed.
Lemma encode_nonempty x : item_ok x → encode x ≠ [].
Proof.
  intros Hx E. pose proof (rd_null _ _ _ _ (encode_reads x [] Hx)) as H. by rewrite E in H.
Qed.

Lemma split_items_ok l fuel :
  Forall item_ok l → (length (concat (encode <$> l)) <= fuel)%nat →
  split_items fuel (concat (encode <$> l)) = Ok (encode <$> l).
Proof.
  intros Hl. revert fuel. induction Hl as [|x l Hx Hl IH]; intros fuel Hf; [by destruct fuel|].
  cbn [fmap list_fmap concat] in *. pose proof (encode_nonempty x Hx) as Hn.
  pose proof (rd_null _ _ _ _ (encode_reads x (concat (encode <$> l)) Hx)) as Hnull.
  rewrite length_app in Hf. destruct (encode x) as [|b bs] eqn:Ex; [done|]. rewrite <-Ex in *.
  destruct fuel as [|fuel]; [rewrite Ex in Hf; cbn in Hf; lia|].
  cbn [split_items]. rewrite Hnull, sizeAsEncoded_ok by done. cbn -[take drop Z.to_nat].
  unfold cropped_from. rewrite drop_len, take_len, IH; [done|]. rewrite Ex in Hf. cbn in Hf. lia.
Qed.

Lemma payload_ok x : item_ok x → payload (encode x) = Ok (payload_of x).
Proof.
  intros Hx. pose proof (rd_payload _ _ _ _ (encode_reads x [] Hx)) as H. by rewrite app_nil_r in H.
Qed.
Lemma isList_ok x : item_ok x → isList (encode x) = is_items x.
Proof.
  intros Hx. pose proof (rd_list _ _ _ _ (encode_reads x [] Hx)) as H. by rewrite app_nil_r in H.
Qed.
Lemma isData_ok x : item_ok x → isData (encode x) = negb (is_items x).
Proof.
  intros Hx. pose proof (rd_data _ _ _ _ (encode_reads x [] Hx)) as H. by rewrite app_nil_r in H.
Qed.
Lemma requireGood_ok x : item_ok x → requireGood (encode x) = Ok tt.
Proof.
  intros Hx. pose proof (rd_good _ _ _ _ (encode_reads x [] Hx)) as H. by rewrite app_nil_r in H.
Qed.
Lemma isNull_ok x : item_ok x → isNull (encode x) = false.
Proof.
  intros Hx. pose proof (rd_null _ _ _ _ (encode_reads x [] Hx)) as H. by rewrite app_nil_r in H.
Qed.

Lemma rlp_list_ok l : item_ok (Items l) → rlp_list (encode (Items l)) = Ok (encode <$> l).
Proof.
  intros Hl. unfold rlp_list. rewrite isList_ok, payload_ok by done. cbn -[split_items].
  apply split_items_ok; [by apply item_ok_items|done].
Qed.
Lemma itemCount_ok l : item_ok (Items l) → itemCount (encode (Items l)) = Ok (len l).
Proof. intros Hl. unfold itemCount. rewrite rlp_list_ok by done. cbn. by rewrite length_fmap. Qed.

Lemma walk_ok l i x r :
  Forall item_ok l → l !! i = Some x → walk i (concat (encode <$> l) ++ r) = Ok (encode x).
Proof.
  intros Hl. revert i. induction Hl as [|y l Hy Hl IH]; intros i Hi; [done|].
  cbn [fmap list_fmap concat]. rewrite <-app_assoc.
  destruct i as [|i]; cbn [walk]; rewrite sizeAsEncoded_ok by done; cbn -[cropped Z.of_nat].
  - simplify_eq/=. f_equal. apply (cropped_payload []).
  - destruct (Z.eqb_spec (len (encode y)) 0) as [E|_].
    + by destruct (encode_nonempty y Hy), (encode y).
    + unfold cropped_from. rewrite drop_len. by apply IH.
Qed.
Lemma item_lookup l i x : item_ok (Items l) → l !! i = Some x → item (encode (Items l)) i = Ok (encode x).
Proof.
  intros Hl Hi. pose proof (item_ok_items l Hl) as Hs. unfold item. rewrite payload_ok by done. cbn.
  pose proof (walk_ok l i x [] Hs Hi) as Hw. rewrite app_nil_r in Hw. rewrite Hw. cbn.
  pose proof (RLP_ge_ok x []) as Hr. rewrite app_nil_r in Hr. apply Hr.
  rewrite Forall_lookup in Hs. eauto.
Qed.

(** ** Conversions *)
Lemma item_ok_small b : Forall is_byte b → (length b < 56)%nat → item_ok (Data b).
Proof.
  intros Hb Hl. split; [done|]. cbn [encode].
  destruct (encode_data_cases b) as [(x&->&_&E)|[E _]]; rewrite E; [by cbn|].
  unfold header. rewrite length_app. zcases. cbn [length]. unfold SIZE_MAX. lia.
Qed.
Lemma item_ok_int i : in256 i → item_ok (rlp_int i).
Proof.
  intros Hi. apply item_ok_small; [apply toBE_bytes; unfold in256 in Hi; lia|].
  pose proof (toBE_len i 32). unfold in256, M256 in Hi. lia.
Qed.
Lemma item_ok_hash n h : (n < 56)%nat → item_ok (rlp_hash n h).
Proof. intros Hn. apply item_ok_small; [apply toBE_n_bytes|by rewrite length_toBE_n]. Qed.

Lemma isInt_ok i : in256 i → isInt (encode (rlp_int i)) = Ok true.
Proof.
  intros Hi. pose proof (item_ok_int i Hi) as Ho. unfold isInt.
  rewrite (isNull_ok _ Ho), (requireGood_ok _ Ho). cbn [mbind outcome_bind]. rlp_consts.
  destruct (decide (i = 0)) as [->|Hz]; [done|].
  destruct (toBE_head i) as (b&l&E&Hb); [unfold in256 in *; lia|].
  pose proof (toBE_len i 32) as Hl. unfold in256, M256 in Hi. rewrite E in Hl. cbn [length] in Hl.
  unfold rlp_int. rewrite E. cbn [encode].
  destruct (encode_data_cases (b :: l)) as [(x&Hx&Hx'&Ed)|[Ed _]]; rewrite Ed.
  - simplify_eq. rewrite byte_at_0. zcases. done.
  - unfold header. destruct (Z.ltb_spec (len (b :: l)) 56); cbn [length] in *; [|lia]. cbn [app]. rewrite byte_at_0.
    change (byte_at (_ :: b :: l) 1) with b. cbn [length]. zcases. done.
Qed.

Lemma toInt_ok i k : 0 <= i < 256 ^ Z.of_nat k → in256 i → toInt (Z.of_nat k) (encode (rlp_int i)) = Ok i.
Proof.
  intros Hi Hi'. pose proof (item_ok_int i Hi') as Ho. unfold toInt.
  rewrite (requireGood_ok _ Ho), isInt_ok, (isList_ok _ Ho), (isNull_ok _ Ho), (payload_ok _ Ho) by done.
  cbn -[toBE Z.of_nat]. pose proof (toBE_len i k Hi). zcases. by rewrite fromBE_toBE by lia.
Qed.
Lemma toInt_lax_ok i k : 0 <= i < 2 ^ (8 * k) → in256 i → toInt_lax k (encode (rlp_int i)) = Ok i.
Proof.
  intros Hi Hi'. pose proof (item_ok_int i Hi') as Ho. unfold toInt_lax.
  rewrite (requireGood_ok _ Ho), isInt_ok, (isList_ok _ Ho), (isNull_ok _ Ho), (payload_ok _ Ho) by done.
  cbn -[toBE Z.of_nat Z.mul]. rewrite fromBE_toBE by lia. by rewrite Z.mod_small.
Qed.
Lemma toHash_ok n h :
  (n < 56)%nat → 0 <= h < 256 ^ Z.of_nat n → toHash (Z.of_nat n) (encode (rlp_hash n h)) = Ok h.
Proof.
  intros Hn Hh. pose proof (item_ok_hash n h Hn) as Ho. unfold toHash.
  rewrite (requireGood_ok _ Ho), (isData_ok _ Ho), (payload_ok _ Ho).
  cbn -[toBE_n Z.of_nat]. rewrite length_toBE_n. zcases. by rewrite fromBE_toBE_n.
Qed.
Lemma toHash_strict_ok n h : item_ok (rlp_hash n h) → 0 <= h < 256 ^ Z.of_nat n →
  toHash_strict (Z.of_nat n) (encode (rlp_hash n h)) = Ok h.
Proof.
  intros Ho Hh. unfold toHash_strict. rewrite (requireGood_ok _ Ho), (isData_ok _ Ho), (payload_ok _ Ho).
  cbn [mbind outcome_bind payload_of rlp_hash is_items negb orb]. rewrite length_toBE_n.
  rewrite bool_decide_eq_false_2 by (intros H; by apply H). by rewrite fromBE_toBE_n.
Qed.
Lemma toHash_lax_ok n h :
  (n < 56)%nat → 0 <= h < 256 ^ Z.of_nat n → toHash_lax (Z.of_nat n) (encode (rlp_hash n h)) = Ok h.
Proof.
  intros Hn Hh. pose proof (item_ok_hash n h Hn) as Ho. unfold toHash_lax.
  rewrite (requireGood_ok _ Ho), (isData_ok _ Ho), (payload_ok _ Ho).
  cbn -[toBE_n Z.of_nat]. rewrite Nat2Z.id, take_ge by (by rewrite length_toBE_n). by rewrite fromBE_toBE_n.
Qed.
Lemma toBytes_ok b : item_ok (rlp_bytes b) → toBytes (encode (rlp_bytes b)) = Ok b.
Proof. intros Ho. unfold toBytes. by rewrite isData_ok, payload_ok. Qed.
Lemma toBytes_strict_ok b : item_ok (rlp_bytes b) → toBytes_strict (encode (rlp_bytes b)) = Ok b.
Proof. intros Ho. unfold toBytes_strict. by rewrite isData_ok, payload_ok. Qed.

(** [conv] reads [y] where [enc] wrote [x]; in a round trip, [x] itself. *)
Definition reads_as {A B} (enc : A → rlp_item) (conv : bytes → outcome B) (x : A) (y : B) : Prop :=
  item_ok (enc x) → conv (encode (enc x)) = Ok y.
Definition reads_back {A} (enc : A → rlp_item) (conv : bytes → outcome A) (x : A) : Prop :=
  reads_as enc conv x x.

Lemma mapO_ok {A B} (enc : A → rlp_item) (conv : bytes → outcome B) (h : A → B) l :
  Forall (λ x, item_ok (enc x)) l → Forall (λ x, reads_as enc conv x (h x)) l →
  mapO conv (encode <$> (enc <$> l)) = Ok (h <$> l).
Proof.
  intros Ho. induction Ho as [|x l Hx Ho IH]; [done|]. intros [Hb Hl]%Forall_cons. cbn.
  rewrite (Hb Hx). cbn. by rewrite IH.
Qed.
Lemma toVector_ok {A} (enc : A → rlp_item) conv l :
  item_ok (Items (enc <$> l)) → Forall (reads_back enc conv) l →
  toVector conv (encode (Items (enc <$> l))) = Ok l.
Proof.
  intros Ho Hb. unfold toVector. rewrite rlp_list_ok by done. cbn [mbind outcome_bind].
  rewrite (mapO_ok enc conv id); [by rewrite list_fmap_id| |done].
  apply item_ok_items in Ho. by rewrite Forall_fmap in Ho.
Qed.
Lemma toPair_ok {A B A' B'} (f : A → rlp_item) (g : B → rlp_item) cf cg a b (a' : A') (b' : B') :
  item_ok (rlp_pair (f a) (g b)) → reads_as f cf a a' → reads_as g cg b b' →
  toPair cf cg (encode (rlp_pair (f a) (g b))) = Ok (a', b').
Proof.
  intros Ho Ha Hb. pose proof (item_ok_items _ Ho) as [Hfa [Hgb _]%Forall_cons]%Forall_cons.
  unfold toPair, rlp_pair in *. rewrite isList_ok, itemCount_ok by done. cbn [mbind outcome_bind is_items].
  rewrite bool_decide_eq_false_2 by (cbn; lia).
  rewrite (item_lookup _ 0 (f a)), (item_lookup _ 1 (g b)) by done. cbn.
  rewrite (Ha Hfa). cbn. by rewrite (Hb Hgb).
Qed.

(** ** The streaming writer writes the format *)

Fixpoint item_ind' (P : rlp_item → Prop) (HD : ∀ b, P (Data b))
    (HI : ∀ l, Forall P l → P (Items l)) (x : rlp_item) : P x :=
  match x with
  | Data b => HD b
  | Items l => HI l ((fix go l : Forall P l :=
      match l with [] => Forall_nil_2 _ | y :: l => Forall_cons_2 _ _ _ (item_ind' P HD HI y) (go l) end) l)
  end.

(** The sequence of calls that writes an item: [append] for data, [appendList(n)]
    followed by the items for a list. *)
Fixpoint append_all (f : rlp_item → RLPStream → outcome RLPStream) (l : list rlp_item) (s : RLPStream) :
    outcome RLPStream :=
  match l with [] => Ok s | x :: l => s' ← f x s; append_all f l s' end.
Fixpoint append_item (x : rlp_item) (s : RLPStream) : outcome RLPStream :=
  match x with
  | Data b => append_bytes b s
  | Items l => s' ← appendList (len l) s; append_all append_item l s'
  end.

(** What appending a complete item to a stream must do. *)
Definition appended (x : rlp_item) (s : RLPStream) : outcome RLPStream :=
  noteAppended 1 (push (encode x) s).

Lemma push_push a b s : push a (push b s) = push (b ++ a) s.
Proof. unfold push. cbn. by rewrite app_assoc. Qed.

Lemma appendRaw_0 b s : appendRaw b 0 s = Ok (push b s).
Proof. done. Qed.

Lemma pushCount_ok c base s :
  56 <= c < SIZE_MAX → 0 <= base <= 0xf7 → pushCount c base s = Ok (push ((bytesRequired c + base) :: toBE c) s).
Proof. intros Hc Hb. unfold pushCount. pose proof (bytesRequired_bounds c Hc). by zcases. Qed.

Lemma append_bytes_encode b s : item_ok (Data b) → append_bytes b s = appended (Data b) s.
Proof.
  intros [_ Hl]. unfold append_bytes, appended. cbn [encode] in *. rlp_consts.
  set (k := _ ≫= λ s1, appendRaw b 0 s1).
  assert (encode_data b = header 128 (len b) ++ b → k = Ok (push (encode_data b) s)) as Hk.
  { intros E. rewrite E in *. rewrite length_app in Hl. unfold k, header.
    destruct (Z.ltb_spec (len b) 56); zcases; cbn [mbind outcome_bind].
    - rewrite appendRaw_0, push_push. do 3 f_equal. cbn. f_equal. lia.
    - rewrite pushCount_ok by lia. cbn [mbind outcome_bind]. rewrite appendRaw_0, push_push.
      do 3 f_equal. cbn. f_equal. lia. }
  destruct (encode_data_cases b) as [(x&->&Hx&E)|[E H1]].
  - rewrite E. by zcases.
  - rewrite (Hk E). destruct b as [|x [|y b]]; try done.
    specialize (H1 eq_refl). rewrite byte_at_0 in H1. by zcases.
Qed.

(** The integer overload writes what the byte-string overload writes for its bytes. *)
Lemma append_int_bytes i s : in256 i → append_int i s = append_bytes (toBE i) s.
Proof.
  intros Hi. unfold append_int, append_bytes. rlp_consts.
  destruct (Z.eqb_spec i 0) as [->|Hz].
  { rewrite toBE_0. cbn [length]. zcases. cbn [mbind outcome_bind]. by rewrite appendRaw_0, push_push. }
  pose proof (toBE_len i 32) as Hl. unfold in256, M256 in Hi. unfold bytesRequired.
  destruct (Z.ltb_spec i 128).
  - rewrite toBE_rec, (Z.div_small i 256), (Z.mod_small i 256) by lia.
    rewrite toBE_0. cbn [app]. by zcases.
  - destruct (Z.ltb_spec (len (toBE i)) (192 - 128 - 8)); [|lia]. cbn [mbind outcome_bind].
    rewrite appendRaw_0. pose proof (fromBE_toBE i) as Hf.
    destruct (toBE i) as [|x [|y b]] eqn:E; try done. cbn in Hf. zcases. done.
Qed.

(** Closing a list: the header goes where the list started. *)
Lemma note_loop_close out0 p st :
  len p < SIZE_MAX →
  note_loop 1 (out0 ++ p) ((1, length out0) :: st) = note_loop 1 (out0 ++ header 0xc0 (len p) ++ p) st.
Proof.
  intros Hp. cbn [note_loop]. rewrite bool_decide_eq_false_2 by lia.
  rewrite length_app, take_app_length, drop_app_length.
  replace (Z.of_nat (length out0 + length p) - len out0) with (len p) by lia.
  pose proof (bytesRequired_bounds (len p)). unfold header. rlp_consts.
  destruct (Z.ltb_spec (len p) 56); zcases; done.
Qed.

Lemma append_all_items l out0 p st :
  Forall (λ x, ∀ s, append_item x s = appended x s) l → l ≠ [] →
  len p + len (concat (encode <$> l)) < SIZE_MAX →
  append_all append_item l (mkStream (out0 ++ p) ((len l, length out0) :: st)) =
    note_loop 1 (out0 ++ header 0xc0 (len (p ++ concat (encode <$> l))) ++ p ++ concat (encode <$> l)) st.
Proof.
  intros Hl. revert p. induction Hl as [|x l Hx Hl IH]; intros p Hn Hs; [done|].
  cbn [append_all]. rewrite Hx. unfold appended, noteAppended, push. cbn [m_out m_listStack Z.eqb].
  rewrite <-app_assoc. destruct l as [|y l].
  - cbn [length fmap list_fmap concat] in *. rewrite app_nil_r in *.
    rewrite note_loop_close by (rewrite length_app; lia). cbn [append_all].
    by destruct (note_loop 1 _ st).
  - cbn [note_loop]. cbn [length]. rewrite bool_decide_eq_true_2 by lia. zcases.
    cbn [mbind outcome_bind]. cbn [fmap list_fmap concat length] in *.
    replace (Z.of_nat (S (S (length l))) - 1) with (Z.of_nat (S (length l))) by lia.
    rewrite IH; [|done|]; [|rewrite !length_app in *; lia].
    by rewrite <-!app_assoc.
Qed.

Lemma append_item_appended x s : item_ok x → append_item x s = appended x s.
Proof.
  revert s. induction x as [b|l IH] using item_ind'; intros s Hx.
  - by apply append_bytes_encode.
  - pose proof (item_ok_items l Hx) as Hl. destruct Hx as [_ Hs]. rewrite length_encode_items in Hs.
    cbn [append_item]. destruct (decide (l = [])) as [->|Hn].
    { change (appendList (len []) s) with (noteAppended 1 (push [] (push [192] s))).
      rewrite push_push. unfold appended. cbn [encode fmap list_fmap concat app]. cbn [append_all].
      by destruct (noteAppended 1 _). }
    unfold appendList. rewrite bool_decide_eq_true_2 by (by destruct l).
    cbn [mbind outcome_bind]. rewrite <-(app_nil_r (m_out s)) at 1.
    rewrite append_all_items; [done| |done|cbn; lia].
    apply Forall_forall. intros y Hy t. rewrite Forall_forall in IH, Hl. auto.
Qed.

(** A list opened for as many items as are then appended. *)
Lemma append_list_ok l s : item_ok (Items l) → l ≠ [] →
  (s' ← appendList (len l) s; append_all appended l s') = appended (Items l) s.
Proof.
  intros Hok Hl. rewrite <-append_item_appended by done. cbn [append_item].
  destruct (appendList (len l) s) as [s'| | | |]; cbn [mbind outcome_bind]; try done.
  pose proof (item_ok_items _ Hok) as Hall. clear Hok Hl. revert s'. induction Hall as [|x l Hx _ IH]; intros s'; [done|].
  cbn [append_all]. rewrite append_item_appended by done. destruct (appended x s'); cbn; [apply IH|done..].
Qed.
Lemma append_all_app f a b s : append_all f (a ++ b) s = (s' ← append_all f a s; append_all f b s').
Proof. revert s. induction a as [|x a IH]; intros s; cbn; [done|]. destruct (f x s); cbn; [apply IH|done..]. Qed.

(** Writing an item to an empty stream leaves its encoding, and no list open. *)
Lemma append_item_out x : item_ok x → (append_item x stream_empty ≫= out) = Ok (encode x).
Proof. intros Hx. by rewrite append_item_appended. Qed.

(** The encoding is injective, and no encoding is a prefix of another. *)
Lemma encode_inj x : ∀ y, item_ok x → item_ok y → encode x = encode y → x = y.
Proof.
  induction x as [b|l IH] using item_ind'; intros y Hx Hy E; pose proof (isList_ok _ Hx) as Lx; rewrite E, isList_ok in Lx by done;
    destruct y as [b'|l']; try done.
  - pose proof (payload_ok _ Hx) as Px. rewrite E, payload_ok in Px by done. by injection Px as ->.
  - f_equal. pose proof (rlp_list_ok _ Hx) as El. rewrite E, rlp_list_ok in El by done. injection El as El.
    apply item_ok_items in Hx, Hy. clear E Lx. revert l' Hy El. induction IH as [|x l Hxx _ IHl]; intros [|y l'] Hy El; try done.
    apply Forall_cons in Hx as [Hx Hl], Hy as [Hy Hl']. injection El as El1 El2. f_equal; [by apply Hxx|by apply IHl].
Qed.
Lemma encode_prefix x y : item_ok x → item_ok y → encode x `prefix_of` encode y → encode x = encode y.
Proof.
  intros Hx Hy [r E]. pose proof (sizeAsEncoded_ok y [] Hy) as Sy. rewrite app_nil_r, E, sizeAsEncoded_ok in Sy by done.
  injection Sy as Sy. rewrite length_app in Sy. destruct r as [|b r]; [by rewrite app_nil_r in E|]. cbn [length] in Sy. lia.
Qed.

(** The bytes of an encoding are bytes. *)
Lemma header_bytes start s :
  start = 0x80 ∨ start = 0xc0 → 0 <= s < SIZE_MAX → Forall is_byte (header start s).
Proof.
  intros Hst Hs. unfold header. destruct (Z.ltb_spec s 56).
  - repeat constructor; lia.
  - pose proof (bytesRequired_bounds s). constructor; [unfold is_byte; lia|].
    apply toBE_bytes. lia.
Qed.

Lemma encode_bytes x : item_ok x → Forall is_byte (encode x).
Proof.
  induction x as [b|l IH] using item_ind'; intros Hx.
  - destruct Hx as [Hb Hl]. cbn in Hb. cbn [encode] in *.
    destruct (encode_data_cases b) as [(x&->&_&E)|[E _]]; rewrite E in *; [done|].
    rewrite length_app in Hl. apply Forall_app. split; [|done]. apply header_bytes; [by left|lia].
  - pose proof (item_ok_items l Hx) as Hl. destruct Hx as [_ Hs]. rewrite length_encode_items in Hs.
    cbn [encode]. apply Forall_app. split; [apply header_bytes; [by right|lia]|].
    clear Hs. induction Hl as [|x l Hx Hl IHl]; [constructor|]. apply Forall_cons in IH as [IHx IH].
    cbn. apply Forall_app. auto.
Qed.
