(* ===== verification/Config.v ===== *)
(** * Chain configuration (libbrccore/config.h, libbrccore/config.cpp)

    The singleton [config::getInstance()] is a record passed as a class
    argument; the static functions that read it are definitions over it.  The
    well-known system addresses of libdevcore/Address.cpp are here too. *)
From stdpp Require Import base gmap list.
From Stdlib Require Import ZArith Lia.
From S2P Require Import Prelude.
Open Scope Z_scope.

Definition PRICEPRECISION : Z := 100000000.
Definition MATCHINGFEERATIO : Z := 2000.
Definition SELLCOOKIE : Z := 100000000.
Definition BUYCOOKIE : Z := 99000000.
Definition MAINCHAINID : Z := 11.
Definition TESTCHAINID : Z := 1.
Definition FIRSTROUND : Z := 1.
Definition DIVIDENDNUM : Z := 10000000000000000.
Definition BALLOTPRICE : Z := 500000000.

Inductive Votingstage := VOTE | RECEIVINGINCOME | ERRORSTAGE.
#[export] Instance Votingstage_eq_dec : EqDecision Votingstage.
Proof. solve_decision. Defined.

Record ChangeMiner := mkChangeMiner {
  before_addr : Address; new_addr : Address; cm_height : int64 }.

Class Config := {
  varlitor_num : Z;
  standby_num : Z;
  min_cycel : Z;
  m_chainId : Z
}.

(** The values [getInstance] starts with. *)
Definition default_config : Config :=
  {| varlitor_num := 21; standby_num := 30; min_cycel := 3; m_chainId := 1 |}.

(** [getInstance(true, v, s, m, c)]: the initialisation overwrites all four fields. *)
Definition getInstance (cur : Config) (_init : bool) (v s m c : Z) : Config :=
  if _init then {| varlitor_num := v; standby_num := s; min_cycel := m; m_chainId := c |}
  else cur.

Section Config.
Context {cfg : Config}.

(** The three-way choice every height function makes. *)
Definition by_chain {A} (main test other : A) : A :=
  if m_chainId =? MAINCHAINID then main
  else if m_chainId =? TESTCHAINID then test
  else other.

Definition one_year : Z := by_chain (31536000 * 5) 31536000 31536000.
Definition one_month : Z := 60 * 60 * 24 * 30.

Definition getVotingCycle (_blockNum : int64) : uint32 * Votingstage :=
  if _blockNum =? 0 then (1, VOTE)
  else if (0 <? _blockNum) && (_blockNum <? one_year) then
    if (0 <? _blockNum) && (_blockNum <? one_year - one_month) then (2, RECEIVINGINCOME)
    else if (one_year - one_month <=? _blockNum) && (_blockNum <? one_year) then (2, VOTE)
    else (3, RECEIVINGINCOME)
  else (3, RECEIVINGINCOME).

Definition varlitorNum : Z := varlitor_num.
Definition standbyNum : Z := standby_num.
Definition minimum_cycle : Z := min_cycel.
Definition chainId : Z := m_chainId.
Definition max_message_num : Z := 50.
Definition minner_rank_num : Z := 7.

Definition getvoteRound (_numberofrounds : u256) : u256 :=
  if _numberofrounds =? 0 then 2 else _numberofrounds.

Definition getChainMiner (height : int64) : bool * ChangeMiner :=
  let none := (false, mkChangeMiner 0 0 0) in
  if m_chainId =? MAINCHAINID then
    if height =? 884102 then
      (true, mkChangeMiner 0xfe1986a69f6a73ad1050e48b9f9809e1e399b6a2
                           0xa71e748cfe35fb519a85eb277b698e2d5659a614 500)
    else none
  else none.

Definition changeVoteHeight : Z := by_chain 884100 884100 2.
Definition replaceMinerHeight : Z := by_chain 10681001 8759577 2.
Definition initSysAddressHeight : Z := by_chain 100 100 100.
Definition newChangeHeight : Z := by_chain 10681000 8759580 2.
Definition gasPriceHeight : Z := by_chain 23814700 19650000 3.
Definition initialGasPrice : u256 := 30.
Definition autoExHeight : Z := by_chain 14524000 14524000 4.
Definition autoExTestNetHeight : Z := 4072941.
Definition newBifurcationBvmHeight : Z := by_chain 37920000 32089000 10.
Definition dividendHeight : Z := by_chain 29875800 INT64_MAX 10.
Definition cancelAutoPendingOrderHeight : Z := by_chain 29875700 INT64_MAX 15.
Definition getPrecompiled : Z := by_chain 40409000 34436000 1.
Definition modifyReciptGasHeight : Z := by_chain 40409000 34436000 1.

Lemma one_month_lt_year : 0 < one_month < one_year.
Proof. unfold one_year, by_chain. repeat case_match; split; reflexivity. Qed.
End Config.

(** ** System addresses (libdevcore/Address.cpp) *)
Definition ZeroAddress : Address := 0.
Definition MaxAddress : Address := 0xffffffffffffffffffffffffffffffffffffffff.
Definition SystemAddress : Address := 0xfffffffffffffffffffffffffffffffffffffffe.
Definition VoteAddress : Address := 0x00000000000000000000000000000000766f7465.
Definition systemAddress : Address := 0x000000000000000000000042616572436861696e.
Definition PdSystemAddress : Address := 0x00000000000000000045786368616e6765466565.
Definition RecycelSystemAddress : Address := 0x000000000000000000000000007265637963656c.
Definition ExdbSystemAddress : Address := 0x0000000000000000006578646241646472657373.
Definition SysBlockCreateRecordAddress : Address := 0x000000537973425265636f726441646472657373.
Definition SysElectorAddress : Address := 0x000000000000456c6563746f7241646472657373.
Definition SysVarlitorAddress : Address := 0x000000000067656e657369735661726c69746f72.
Definition SysCanlitorAddress : Address := 0x0000000067656e6573697343616e646964617465.
Definition SysMinerSnapshotAddress : Address := 0x00000000005379734d696e657241646472657373.
Definition GaspriceAddress : Address := 0x0000000000676173707269636541646472657373.
Definition TestNetBalanceAddress : Address := 0xcd44c21f022cc7ac432c3eb370c0fdaf5a26b386.

(** [getMasterNodeInfo]: the dividend of each master node, a [std::map] built
    from its initialiser list. *)
Definition getMasterNodeInfo : gmap Address u256 := list_to_map [
  (0x6ad984cc22f0fbed8cfc5b41ea6855ac704bd59e, 1572757713040000);
  (0xd5efe84a060b41f17083139a4eafc770de094079, 758983173400000);
  (0x0c49741d907aa2ec579c454c4e2ba58c756e6829, 558465657200000);
  (0x0fb86cda6c29430b7f883d5bd7173b37ca4c8582, 551835279000000);
  (0x26e0e85302db7d8907ea79c4e16a74c3c6a6b55a, 544597616000000);
  (0x1436e9b7069339f57d7c075d32341daf5cb744e5, 543456430000000);
  (0x944bca7e6bf23b1b72d71196ad041ecdeffb188f, 543444615000000);
  (0xcd7401e6cb6864d3c9c247992518c0a5daf61c12, 487772121800000);
  (0x8a6e14d9a8e2fdf8971c3996f14cb66f949f4970, 376080959600000);
  (0x067a972a98851f00313ce5de08e3a4c8f67f74d2, 369756718000000);
  (0x0252fcd7cd7c154e6028fb501f8e630848d26c86, 366843431600000);
  (0x7dbd4f7878e844b908016d7eb8f68a57d80cec0a, 348590757600000);
  (0x662c52ee941a1112bde8f7477c52d2d42c4808de, 344939304000000);
  (0xcfe1985086fb87a364f9f6344674275befd2a510, 305045580400000);
  (0x6d0e7d50e7b1e468f7a97e0429f97b8465585935, 287848762800000);
  (0x502381b4c9a727278fecd9a1cd8ba208bb63ad4a, 285230454600000);
  (0x8305a7c4381b35592aadca063704c5413aca7b92, 283634527000000);
  (0x20b9d014d5926c8aa758b766ff3699ac2480d5e1, 283225469800000);
  (0x15643fc8ead0f9aa46d50d48d722c686a303b1c0, 280702993200000);
  (0xf78b86783c5b39d81b04a61e2c90fb5bfdbd047b, 279488423800000);
  (0xa71e748cfe35fb519a85eb277b698e2d5659a614, 279227052400000);
  (0x150452f690d2424cf366062d9aabafec075c4e77, 446112102600000);
  (0x37111fb7174bafc173af4e3fd989423ee04da34a, 372141800200000);
  (0x84ae0404cbd02d5f339b3de67f0c2f48437c4b7f, 291060972200000);
  (0xf76529f84d8ff60ba90c8a3cbd43792f76cddb00, 279523676600000);
  (0xc670beb4f50f58e22e76705ca1f1e35cb5b52791, 240513991800000);
  (0x0caab777158abc1985a1cc0c878e55f888c72f74, 239237727200000);
  (0xcdbbfc1b67a67723fdb0330f6d2ec905950ad35b, 216984794000000);
  (0x71544ebeb05af0f4430ac89e17ea540dfe16a68f, 176099590320000);
  (0xf9328355833e277e6d01b3f42e60f5740577ad05, 152116424740000);
  (0x273e65c98ad345d6de3b5b2acc0a2b86b5859c8c, 140812610320000);
  (0x03d283a848fadc4361ac1ea568b2ab76ea5a2918, 140388680000000);
  (0xb2428a150210f5403e1ea9cfee488fdc259132ee, 120675920060000);
  (0x2fe8768398e489e93c2ca2cdae85a086607866a7, 118828521180000);
  (0xc0d97ccaca83c69e31c2a81625eebf03ed6721cb, 85564690060000);
  (0x12008d9141fcdb92ab8805e7f5e39b4e12dfecca, 85478838840000);
  (0x58d72fb9f1048b3ad4082f06bea68edd503831b5, 75730784780000);
  (0x27b2a2da79d24df3bcd6d8ef6f141621a366e06c, 74719103840000);
  (0xe39984086a55dcc55c4edb3d6369d530c4c0081f, 72350419780000);
  (0x602e65642c52d4fcf4060235f5b51b9936edd2fb, 68967711460000);
  (0x53ef7c91df1580bb0d96102d15c8764c08ac9297, 68896346300000);
  (0x6e8a9cb007409cd63d6e3d417966ed6943621c3c, 67777511100000);
  (0x51efce1fc1cb794e97ba92d8eaa96b993415b3f4, 67228105940000);
  (0x7d35696ee255ba2cef1f5e496dfadeaa4d5f5c34, 67211276540000);
  (0x8a7111a1e869934f6981cd5e6dd3d9b6d98e5603, 67168457440000);
  (0xc84eaee9d79f92d9d1d598968c4283fe0dfa5c5a, 67131390160000);
  (0xac94ad70351ec72329c1da4a0400923fe17dbde8, 67047456220000);
  (0xf10762d64bb661691b6ee6ebafd399e5a131563e, 66963948340000);
  (0x8e7f14bb4cb837fd5947dc99691dca5e802c187d, 66948823200000);
  (0x9c4aa479eaebae43e8284f03806c9d5131da1067, 66463327120000);
  (0x6c89959351d710131ee9c789d8f725eb9b6ebef9, 66395157420000)].
