(* ===== verification/Objects.v ===== *)
(** * Exchange objects (indexDb/database/include/brc/types.hpp, objects.hpp)

    The order enums, [order], [ex_order], [result_order] and [exchange_order],
    and the two boost [multi_index_container]s built from them.  A container is
    the list of its elements in insertion order; an ordered index is the stable
    sort of that list under the index's composite key. *)
From stdpp Require Import base list sorting.
From Stdlib Require Import ZArith Lia.
From S2P Require Import Prelude.
Open Scope Z_scope.

(** ** Enums (uint8_t each; [_raw n] is any other byte value) *)
Inductive order_type := null_type | sell | buy | order_type_raw (n : Z).
Inductive order_token_type := BRC_token | FUEL | order_token_raw (n : Z).
Inductive order_buy_type := all_price | only_price | order_buy_raw (n : Z).

#[export] Instance order_type_eq_dec : EqDecision order_type.
Proof. solve_decision. Defined.
#[export] Instance order_token_type_eq_dec : EqDecision order_token_type.
Proof. solve_decision. Defined.
#[export] Instance order_buy_type_eq_dec : EqDecision order_buy_type.
Proof. solve_decision. Defined.

Definition order_type_code (t : order_type) : Z :=
  match t with null_type => 0 | sell => 1 | buy => 2 | order_type_raw n => n end.
Definition order_token_code (t : order_token_type) : Z :=
  match t with BRC_token => 0 | FUEL => 1 | order_token_raw n => n end.
Definition order_buy_code (t : order_buy_type) : Z :=
  match t with all_price => 0 | only_price => 1 | order_buy_raw n => n end.

Definition order_type_of (n : Z) : order_type :=
  if n =? 0 then null_type else if n =? 1 then sell else if n =? 2 then buy else order_type_raw n.
Definition order_token_of (n : Z) : order_token_type :=
  if n =? 0 then BRC_token else if n =? 1 then FUEL else order_token_raw n.
Definition order_buy_of (n : Z) : order_buy_type :=
  if n =? 0 then all_price else if n =? 1 then only_price else order_buy_raw n.

(** ** Records *)
Record order := mkOrder {
  o_trxid : h256;
  o_sender : Address;
  o_buy_type : order_buy_type;
  o_token_type : order_token_type;
  o_type : order_type;
  o_price_token : u256 * u256;
  o_time : int64
}.

Record ex_order := mkExOrder {
  trxid : h256;
  sender : Address;
  price : u256;
  token_amount : u256;
  source_amount : u256;
  create_time : int64;
  type : order_type;
  token_type : order_token_type;
  buy_type : order_buy_type
}.

#[export] Instance ex_order_eq_dec : EqDecision ex_order.
Proof. solve_decision. Defined.

#[export] Instance ex_order_reshape : Reshape ex_order := λ o,
  mkExOrder (trxid o) (sender o) (price o) (token_amount o) (source_amount o)
            (create_time o) (type o) (token_type o) (buy_type o).
#[export] Instance token_amount_field : Field token_amount := ltac:(field_setter).

Record result_order := mkResultOrder {
  r_sender : Address;
  r_acceptor : Address;
  r_type : order_type;
  r_token_type : order_token_type;
  r_buy_type : order_buy_type;
  r_create_time : int64;
  r_send_trxid : h256;
  r_to_trxid : h256;
  r_amount : u256;
  r_price : u256;
  r_old_price : u256
}.

#[export] Instance result_order_eq_dec : EqDecision result_order.
Proof. solve_decision. Defined.

#[export] Instance result_order_reshape : Reshape result_order := λ r,
  mkResultOrder (r_sender r) (r_acceptor r) (r_type r) (r_token_type r) (r_buy_type r)
    (r_create_time r) (r_send_trxid r) (r_to_trxid r) (r_amount r) (r_price r) (r_old_price r).
#[export] Instance r_old_price_field : Field r_old_price := ltac:(field_setter).

(** A value-initialised [result_order ret;] followed by [ret.set_data(itr1, itr2, ..)];
    [set_data] leaves [old_price] alone (u256 default: 0). *)
Definition set_data (itr1 itr2 : ex_order) (_amount _price : u256) : result_order :=
  mkResultOrder (sender itr1) (sender itr2) (type itr1) (token_type itr1) (buy_type itr1)
    (create_time itr1) (trxid itr1) (trxid itr2) _amount _price 0.

Record exchange_order := mkExchangeOrder {
  e_trxid : h256;
  e_sender : Address;
  e_price : u256;
  e_token_amount : u256;
  e_source_amount : u256;
  e_create_time : int64;
  e_type : order_type;
  e_token_type : order_token_type
}.

Definition exchange_order_of (o : ex_order) : exchange_order :=
  mkExchangeOrder (trxid o) (sender o) (price o) (token_amount o) (source_amount o)
    (create_time o) (type o) (token_type o).

(** ** Composite keys

    [lexb] is the strict lexicographic order boost's [composite_key_compare]
    uses; a component compared with [std::greater] is stored negated. *)
Fixpoint lexb (a b : list Z) : bool :=
  match a, b with
  | x :: a', y :: b' => (x <? y) || ((x =? y) && lexb a' b')
  | _, _ => false
  end.

Lemma lexb_asym a b : lexb a b = true → lexb b a = false.
Proof.
  revert b; induction a as [|x a IH]; intros [|y b]; simpl; try done.
  intros [H|[H1 H2]%andb_true_iff]%orb_true_iff.
  - apply orb_false_iff; split; [lia|]. apply andb_false_iff; left; lia.
  - apply orb_false_iff; split; [lia|]. apply andb_false_iff; right; auto.
Qed.

Lemma lexb_cons_false x y a b :
  lexb (x :: a) (y :: b) = false ↔ y < x ∨ (x = y ∧ lexb a b = false).
Proof.
  simpl. rewrite orb_false_iff, andb_false_iff, Z.ltb_ge, Z.eqb_neq.
  destruct (Z.eq_dec x y) as [->|]; intuition lia.
Qed.

Lemma lexb_total n a b c :
  length a = n → length b = n → length c = n →
  lexb b a = false → lexb c b = false → lexb c a = false.
Proof.
  revert a b c; induction n as [|n IH]; intros [|x a] [|y b] [|z c]; try done.
  intros [= Ha] [= Hb] [= Hc]. rewrite !lexb_cons_false.
  intros [?|[-> ?]] [?|[-> ?]]; try (left; lia). right; eauto.
Qed.

(** ** [ExOrderMulti] *)
Definition key_price_less (o : ex_order) : list Z :=
  [order_type_code (type o); order_token_code (token_type o); price o; create_time o].
Definition key_price_greater (o : ex_order) : list Z :=
  [order_type_code (type o); order_token_code (token_type o); - price o; create_time o].
Definition key_address (o : ex_order) : list Z := [sender o; - create_time o].
Definition key_trx_id (o : ex_order) : list Z := [- trxid o].

Section Index.
Context {A : Type} (key : A → list Z).

Definition key_lt (x y : A) : bool := lexb (key x) (key y).

(** The elements an index visits, in its order. *)
Definition index (l : list A) : list A := stable_sort key_lt l.

(** The range from [lower_bound(lo)] to [upper_bound(hi)]. *)
Definition index_range (lo hi : list Z) (l : list A) : list A :=
  filter (λ x, lexb (key x) lo = false ∧ lexb hi (key x) = false) (index l).

Lemma index_perm l : index l ≡ₚ l.
Proof. apply stable_sort_perm. Qed.

Lemma elem_of_index_range lo hi l x :
  x ∈ index_range lo hi l ↔ x ∈ l ∧ lexb (key x) lo = false ∧ lexb hi (key x) = false.
Proof. unfold index_range. rewrite list_elem_of_filter, index_perm. tauto. Qed.

Lemma index_sorted (n : nat) l : (∀ x, length (key x) = n) → StronglySorted (nlt key_lt) (index l).
Proof.
  intros Hn. apply stable_sort_sorted; unfold key_lt.
  - intros x y. apply lexb_asym.
  - intros x y z. eapply lexb_total with (n := n); auto.
Qed.
End Index.

(** [m_exChangeOrder.insert(o)]: refused when the unique [ex_by_trx_id] index
    already holds the key. *)
Definition multi_find (t : h256) (l : list ex_order) : option ex_order :=
  list_find (λ o, trxid o = t) l ≫= λ p, Some p.2.
Definition multi_erase (t : h256) (l : list ex_order) : list ex_order :=
  filter (λ o, trxid o ≠ t) l.
Definition multi_insert (o : ex_order) (l : list ex_order) : list ex_order :=
  match multi_find (trxid o) l with Some _ => l | None => l ++ [o] end.

(** ** [ExResultOrder]: [ex_by_time] is unique, so a second result with the same
    time is refused. *)
Definition key_r_sender (r : result_order) : list Z := [r_sender r; r_create_time r].
Definition key_r_acceptor (r : result_order) : list Z := [r_acceptor r; r_create_time r].
Definition key_r_time (r : result_order) : list Z := [r_create_time r].
Definition result_insert (r : result_order) (l : list result_order) : list result_order :=
  match list_find (λ x, r_create_time x = r_create_time r) l with
  | Some _ => l
  | None => l ++ [r]
  end.

(** ** Facts about the unique index *)
Lemma multi_find_Some t l o : multi_find t l = Some o → o ∈ l ∧ trxid o = t.
Proof.
  unfold multi_find. destruct (list_find _ l) as [[i x]|] eqn:E; simpl; [|done].
  intros [= <-]. apply list_find_Some in E as (?&?&?). eauto using list_elem_of_lookup_2.
Qed.

Lemma multi_find_None t l : multi_find t l = None ↔ ∀ o, o ∈ l → trxid o ≠ t.
Proof.
  unfold multi_find. destruct (list_find _ l) as [[i x]|] eqn:E; simpl.
  - apply list_find_Some in E as (?&?&?). split; [done|].
    intros Hall. exfalso. eapply (Hall x); eauto using list_elem_of_lookup_2.
  - apply list_find_None in E. rewrite Forall_forall in E. split; [|done].
    intros _ o Ho. by apply E.
Qed.

Lemma elem_of_multi_erase t l o : o ∈ multi_erase t l ↔ o ∈ l ∧ trxid o ≠ t.
Proof. unfold multi_erase. rewrite list_elem_of_filter. tauto. Qed.

Lemma multi_erase_NoDup t l : NoDup (trxid <$> l) → NoDup (trxid <$> multi_erase t l).
Proof.
  unfold multi_erase. induction l as [|o l IH]; csimpl; [done|].
  rewrite NoDup_cons. intros [Hn Hd]. rewrite filter_cons. case_decide; auto.
  csimpl. apply NoDup_cons. split; auto. contradict Hn.
  apply list_elem_of_fmap in Hn as (o'&E&Ho'). apply list_elem_of_filter in Ho' as [_ ?].
  apply list_elem_of_fmap. eauto.
Qed.

Lemma multi_find_erase t l : multi_find t (multi_erase t l) = None.
Proof. apply multi_find_None. intros o [_ Ho]%elem_of_multi_erase. done. Qed.

Lemma multi_find_unique l o :
  NoDup (trxid <$> l) → o ∈ l → multi_find (trxid o) l = Some o.
Proof.
  intros Hnd Ho. destruct (multi_find (trxid o) l) as [o'|] eqn:E.
  - apply multi_find_Some in E as [Ho' Eq]. f_equal.
    apply list_elem_of_lookup in Ho as [i Hi]. apply list_elem_of_lookup in Ho' as [j Hj].
    assert (i = j) as ->; [|congruence].
    apply (NoDup_lookup (trxid <$> l) i j (trxid o) Hnd).
    + by rewrite list_lookup_fmap, Hi.
    + rewrite list_lookup_fmap, Hj. simpl. congruence.
  - rewrite multi_find_None in E. by destruct (E o).
Qed.
