(* ===== verification/Interfaces.v ===== *)
(** * What the state layer relies on

    The state layer calls a hash and a per-account storage trie.  Both are
    stated here as classes: theorems about the state are proved against the
    classes, and [simple_crypto] / [simple_storage] show the laws have a model. *)
From stdpp Require Import base gmap list countable.
From Stdlib Require Import ZArith Lia.
From S2P Require Import Prelude.
Open Scope Z_scope.

(** [dev::sha3], and [dev::recover]: the public key (512 bits, 0 for none) behind a
    signature [r], [s], [v] of a hash.  No property of either is assumed. *)
Class Crypto := { sha3 : bytes → h256; recover : u256 → u256 → Z → h256 → Z }.

(** The RLP of nothing, and its hash: the root of the empty trie (TrieCommon.cpp). *)
Definition RLPNull : bytes := [0x80].
Definition EmptyTrie `{Crypto} : h256 := sha3 RLPNull.

(** [SecureTrieDB<h256, OverlayDB>] as the storage of a contract: a root names
    a finite map from keys to non-zero words; [at] reads it ([0] when absent),
    [commit_overlay] writes an overlay (a zero removes the key) and returns the
    new root. *)
Class StorageTrie `{Crypto} := {
  storage_at : h256 → u256 → u256;
  storage_commit : h256 → gmap u256 u256 → h256;
  storage_empty : ∀ k, storage_at EmptyTrie k = 0;
  storage_commit_at : ∀ r o k,
    storage_at (storage_commit r o) k = default (storage_at r k) (o !! k)
}.

(** A concrete instance: a hash is a code of the bytes cut to 256 bits; the roots of
    non-empty tries are codes of the finite maps themselves, above the hashes. *)
Definition simple_sha3 (b : bytes) : h256 := w256 (Zpos (encode b)).
#[export] Instance simple_crypto : Crypto :=
  {| sha3 := simple_sha3; recover := λ r s v h, r + s + v + h |}.

Definition simple_decode (r : h256) : gmap Z Z :=
  if r <? M256 then ∅ else default ∅ (decode (Z.to_pos (r - M256))).
Definition simple_at (r : h256) (k : u256) : u256 := default 0 (simple_decode r !! k).
Definition simple_commit (r : h256) (o : gmap u256 u256) : h256 :=
  M256 + Zpos (encode (o ∪ simple_decode r)).

#[export] Instance simple_storage : StorageTrie.
Proof.
  refine {| storage_at := simple_at; storage_commit := simple_commit |}.
  - intros k. unfold simple_at, simple_decode, EmptyTrie, RLPNull, sha3, simple_crypto, simple_sha3.
    pose proof (w256_in (Zpos (encode [0x80]))) as Hr. unfold in256 in Hr.
    destruct (Z.ltb_spec (w256 (Zpos (encode [0x80]))) M256); [done|lia].
  - intros r o k. unfold simple_at at 1, simple_commit. unfold simple_decode at 1.
    destruct (Z.ltb_spec (M256 + Zpos (encode (o ∪ simple_decode r))) M256); [lia|].
    replace (M256 + Zpos (encode (o ∪ simple_decode r)) - M256) with (Zpos (encode (o ∪ simple_decode r))) by lia.
    cbn [Z.to_pos]. rewrite decode_encode. cbn.
    rewrite lookup_union. unfold simple_at. by destruct (o !! k), (simple_decode r !! k).
Defined.

(** [std::uniform_int_distribution<size_t>(0, size - 1)(s_fixedHashEngine)]: the
    index drawn when a cache entry is evicted. *)
Class Rng := {
  random_index : list Address → nat;
  random_index_lt : ∀ l, l ≠ [] → (random_index l < length l)%nat
}.
#[export] Instance first_rng : Rng.
Proof. refine {| random_index := λ _, 0%nat |}. intros [|] ?; simpl; [done|lia]. Defined.
