(* ===== verification/Receipts.v ===== *)
(** * Logs and receipts (libbrccore/LogEntry, libbrcdchain/TransactionReceipt)

    Log entries with their Bloom filters, receipts, and their bytes. *)
From stdpp Require Import base gmap list.
From Stdlib Require Import ZArith Lia.
From S2P Require Import Prelude Rlp Interfaces.
Open Scope Z_scope.

(** ** [LogBloom]: 2048 bits *)
Abbreviation LogBloom := Z (only parsing).

(** [h256::bloomPart<3, 256>]: three pairs of bytes, each names one of 2048 bits. *)
Definition bloom_index (h : h256) (i : Z) : Z := Z.land (Z.shiftr h (256 - 16 * (i + 1))) 2047.
Definition bloomPart (h : h256) : LogBloom :=
  Z.lor (Z.lor (Z.shiftl 1 (bloom_index h 0)) (Z.shiftl 1 (bloom_index h 1))) (Z.shiftl 1 (bloom_index h 2)).
Definition shiftBloom (b : LogBloom) (h : h256) : LogBloom := Z.lor b (bloomPart h).
(** [FixedHash::contains] *)
Definition bloom_contains (b c : LogBloom) : bool := Z.land b c =? c.

Record LogEntry := mkLog { le_address : Address; le_topics : list h256; le_data : bytes }.
(** [m_statusCodeOrStateRoot], a [boost::variant] *)
Inductive StatusOrRoot := StatusCode (c : Z) | StateRoot (r : h256).
Record TransactionReceipt := mkReceipt {
  r_statusCodeOrStateRoot : StatusOrRoot; r_gasUsed : u256; r_bloom : LogBloom; r_log : list LogEntry }.

(** ** Bytes *)
Definition log_item (l : LogEntry) : rlp_item :=
  Items [rlp_hash 20 (le_address l); Items (rlp_hash 32 <$> le_topics l); rlp_bytes (le_data l)].
Definition receipt_item (r : TransactionReceipt) : rlp_item :=
  Items [match r_statusCodeOrStateRoot r with StatusCode c => rlp_int c | StateRoot h => rlp_hash 32 h end;
         rlp_int (r_gasUsed r); rlp_hash 256 (r_bloom r); Items (log_item <$> r_log r)].
(** [streamRLP] into a stream of its own. *)
Definition receipt_rlp (r : TransactionReceipt) : bytes := encode (receipt_item r).

(** The assertion on the number of items aborts. *)
Definition log_of_rlp (_r : bytes) : outcome LogEntry :=
  n ← itemCount _r;
  if bool_decide (n ≠ 3) then Exit
  else
    a ← item _r 0; address ← toHash 20 a;
    t ← item _r 1; topics ← toVector (toHash_lax 32) t;
    d ← item _r 2; data ← toBytes d;
    Ok (mkLog address topics data).
Definition status_of_rlp (x : bytes) : outcome StatusOrRoot :=
  if negb (isData x) then Throw InvalidTransactionReceiptFormat
  else
    size ← rlp_length x;
    if size =? 32 then h ← toHash 32 x; Ok (StateRoot h)
    else
      int ← isInt x;
      if int : bool then c ← toInt 1 x; Ok (StatusCode c) else Throw InvalidTransactionReceiptFormat.
Definition receipt_of_rlp (_rlp : bytes) : outcome TransactionReceipt :=
  r ← RLP _rlp;
  n ← itemCount r;
  if negb (isList r) || bool_decide (n ≠ 4) then Throw InvalidTransactionReceiptFormat
  else
    x ← item r 0; status ← status_of_rlp x;
    g ← item r 1; gasUsed ← toInt 32 g;
    b ← item r 2; bloom ← toHash 256 b;
    l ← item r 3; logs ← (es ← rlp_list l; mapO log_of_rlp es);
    Ok (mkReceipt status gasUsed bloom logs).

(** [BlockReceipts::rlp] *)
Definition receipts_item (l : list TransactionReceipt) : rlp_item := Items (receipt_item <$> l).
(** The Bloom filters [insertBlockAndExtras] takes from the bytes of the receipts. *)
Definition receipt_blooms (_receipts : bytes) : outcome (list LogBloom) :=
  r ← RLP _receipts; l ← rlp_list r; mapO (λ i, x ← receipt_of_rlp i; Ok (r_bloom x)) l.

Section Blooms.
Context `{CR : Crypto}.
Definition log_bloom (l : LogEntry) : LogBloom :=
  foldl (λ b t, shiftBloom b (sha3 (toBE_n 32 t))) (shiftBloom 0 (sha3 (toBE_n 20 (le_address l)))) (le_topics l).
Definition logs_bloom (l : list LogEntry) : LogBloom := foldl (λ b e, Z.lor b (log_bloom e)) 0 l.
(** The two constructors from values. *)
Definition receipt_new (s : StatusOrRoot) (_gasUsed : u256) (_log : list LogEntry) : TransactionReceipt :=
  mkReceipt s _gasUsed (logs_bloom _log) _log.
End Blooms.

Definition hasStatusCode (r : TransactionReceipt) : bool :=
  match r_statusCodeOrStateRoot r with StatusCode _ => true | StateRoot _ => false end.
Definition receipt_statusCode (r : TransactionReceipt) : outcome Z :=
  match r_statusCodeOrStateRoot r with StatusCode c => Ok c | StateRoot _ => Throw TransactionReceiptVersionError end.
Definition receipt_stateRoot (r : TransactionReceipt) : outcome h256 :=
  match r_statusCodeOrStateRoot r with StatusCode _ => Throw TransactionReceiptVersionError | StateRoot h => Ok h end.
