(* ===== verification/Trie.v ===== *)
(** * The Merkle Patricia trie (libdevcore/TrieDB.h, TrieCommon.h, TrieCommon.cpp,
      StateCacheDB.cpp, OverlayDB.cpp)

    A trie is a root hash and a database of nodes; a node is RLP: nothing, a pair
    (hex-prefixed key, value or child) or sixteen children and a value.  A child
    whose encoding is shorter than a hash stands in its parent, the others are
    filed in the database under their hash.

    [assert]s are not modelled: they are compiled out of a release build, and what
    the code does after one that would have failed is what the definitions do. *)
From stdpp Require Import base gmap list.
From Stdlib Require Import ZArith Lia.
From S2P Require Import Prelude Rlp Interfaces.
Open Scope Z_scope.

(** ** Nibbles (TrieCommon.h) *)

(** [nibble]: the [_i]-th half byte; [_data] is not bounds-checked. *)
Definition nibble (_data : bytes) (_i : Z) : outcome Z :=
  match _data !! Z.to_nat (_i / 2) with
  | None => Undef
  | Some b => Ok (if Z.odd _i then Z.land b 15 else Z.shiftr b 4)
  end.

(** [asNibbles] (CommonData.cpp) *)
Definition asNibbles (d : bytes) : list Z := concat ((λ b, [b / 16; b mod 16]) <$> d).

(** [sharedNibbles]: at most [fuel] = [_endFirst - _beginFirst] turns. *)
Fixpoint shared_loop (fuel : nat) (d1 : bytes) (b1 e1 : Z) (d2 : bytes) (b2 e2 : Z) : outcome Z :=
  match fuel with
  | O => Ok 0
  | S fuel =>
      if (b1 <? e1) && (b2 <? e2) then
        x ← nibble d1 b1; y ← nibble d2 b2;
        if x =? y then r ← shared_loop fuel d1 (b1 + 1) e1 d2 (b2 + 1) e2; Ok (r + 1) else Ok 0
      else Ok 0
  end.
Definition sharedNibbles (d1 : bytes) (b1 e1 : Z) (d2 : bytes) (b2 e2 : Z) : outcome Z :=
  shared_loop (Z.to_nat (e1 - b1)) d1 b1 e1 d2 b2 e2.

Record NibbleSlice := mkSlice { ns_data : bytes; ns_offset : Z }.
Definition slice_of (d : bytes) : NibbleSlice := mkSlice d 0.
Definition ns_at (s : NibbleSlice) (i : Z) : outcome Z := nibble (ns_data s) (u32 (ns_offset s + i)).
Definition ns_size (s : NibbleSlice) : Z := u32 (len (ns_data s) * 2 - ns_offset s).
Definition ns_mid (s : NibbleSlice) (i : Z) : NibbleSlice := mkSlice (ns_data s) (u32 (ns_offset s + i)).
Definition ns_shared (s k : NibbleSlice) : outcome Z :=
  sharedNibbles (ns_data s) (ns_offset s) (u32 (ns_offset s + ns_size s))
    (ns_data k) (ns_offset k) (u32 (ns_offset k + ns_size k)).
Definition ns_contains (s k : NibbleSlice) : outcome bool := n ← ns_shared s k; Ok (n =? ns_size k).
Definition ns_eq (s k : NibbleSlice) : outcome bool :=
  if ns_size k =? ns_size s then n ← ns_shared s k; Ok (n =? ns_size k) else Ok false.

(** ** Hex-prefix keys (TrieCommon.cpp) *)

(** The first byte: the leaf flag and the parity flag in its high nibble. *)
Definition hp_flags (leaf odd : bool) : Z := Z.lor (if leaf then 2 else 0) (if odd then 1 else 0) * 16.
(** [ret.back() |= n] *)
Definition or_back (ret : bytes) (n : Z) : bytes :=
  match reverse ret with [] => [] | b :: r => reverse (Z.lor b n :: r) end.
(** The key of the nibbles [_begin.._end] of a vector with one nibble per byte: two
    nibbles per turn, at most [fuel] = [end - begin] turns. *)
Fixpoint hp_vec_loop (fuel : nat) (_hexVector : bytes) (i end_ : Z) (ret : bytes) : outcome bytes :=
  match fuel with
  | O => Ok ret
  | S fuel =>
      if i <? end_ then
        match _hexVector !! Z.to_nat i, _hexVector !! Z.to_nat (i + 1) with
        | Some a, Some b => hp_vec_loop fuel _hexVector (i + 2) end_ (ret ++ [(a * 16 + b) mod 256])
        | _, _ => Undef
        end
      else Ok ret
  end.
Definition hexPrefixEncode_vec (_hexVector : bytes) (_leaf : bool) (_begin _end : Z) : outcome bytes :=
  let begin := u32 _begin in
  let end_ := u32 (if _end <? 0 then len _hexVector + 1 + _end else _end) in
  let fuel := Z.to_nat (end_ - begin) in
  if Z.odd (u32 (end_ - begin)) then
    match _hexVector !! Z.to_nat begin with
    | Some n => hp_vec_loop fuel _hexVector (begin + 1) end_ [Z.lor (hp_flags _leaf true) n]
    | None => Undef
    end
  else hp_vec_loop fuel _hexVector begin end_ [hp_flags _leaf false].
(** One run of the loop shared by the encoders: [fuel] nibbles of [_data] from [i]. *)
Fixpoint hp_loop (fuel : nat) (_data : bytes) (i d : Z) (ret : bytes) : outcome bytes :=
  match fuel with
  | O => Ok ret
  | S fuel =>
      n ← nibble _data i;
      hp_loop fuel _data (i + 1) (d + 1)
        (if Z.odd d then or_back ret n else ret ++ [Z.shiftl n 4 mod 256])
  end.
Definition hexPrefixEncode_range (_data : bytes) (_leaf : bool) (_beginNibble _endNibble _offset : Z) : outcome bytes :=
  let begin := u32 (_beginNibble + _offset) in
  let end_ := u32 ((if _endNibble <? 0 then len _data * 2 - _offset + 1 + _endNibble else _endNibble) + _offset) in
  let odd := Z.odd (u32 (end_ - begin)) in
  hp_loop (Z.to_nat (end_ - begin)) _data begin (if odd then 1 else 2) [hp_flags _leaf odd].
Definition hexPrefixEncode (s : NibbleSlice) (_leaf : bool) (_begin _end : Z) : outcome bytes :=
  hexPrefixEncode_range (ns_data s) _leaf _begin _end (ns_offset s).
(** The key of two slices, one after the other. *)
Definition hexPrefixEncode_join (s1 s2 : NibbleSlice) (_leaf : bool) : outcome bytes :=
  let n1 := u32 (len (ns_data s1) * 2) - ns_offset s1 in
  let n2 := u32 (len (ns_data s2) * 2) - ns_offset s2 in
  let odd := Z.odd (u32 (n1 + n2)) in
  let d := if odd then 1 else 2 in
  r ← hp_loop (Z.to_nat n1) (ns_data s1) (ns_offset s1) d [hp_flags _leaf odd];
  hp_loop (Z.to_nat n2) (ns_data s2) (ns_offset s2) (d + Z.max 0 n1) r.

(** ** Reading nodes (RLP.h, TrieCommon.h, TrieCommon.cpp) *)

Definition isLeaf (_twoItem : bytes) : outcome bool :=
  x ← item _twoItem 0; pl ← payload x;
  match pl with [] => Undef | b :: _ => Ok (negb (Z.land b 0x20 =? 0)) end.
Definition keyOf_hpe (_hpe : bytes) : NibbleSlice :=
  match _hpe with
  | [] => mkSlice _hpe 0
  | b :: _ => if negb (Z.land b 0x10 =? 0) then mkSlice _hpe 1 else mkSlice _hpe 2
  end.
Definition keyOf (_twoItem : bytes) : outcome NibbleSlice :=
  x ← item _twoItem 0; p ← payload x; Ok (keyOf_hpe p).

(** [uniqueInUse]: the one item in use, 255 when there is none or a second. *)
Fixpoint unique_loop (_orig : bytes) (except : Z) (idx : list nat) (used : Z) : outcome Z :=
  match idx with
  | [] => Ok used
  | i :: idx =>
      x ← item _orig i;
      if negb (Z.of_nat i =? except) && negb (rlp_isEmpty x) then
        if used =? 255 then unique_loop _orig except idx (Z.of_nat i) else Ok 255
      else unique_loop _orig except idx used
  end.
Definition uniqueInUse (_orig : bytes) (except : Z) : outcome Z := unique_loop _orig except (seq 0 17) 255.

(** ** The node database (StateCacheDB.cpp, OverlayDB.cpp)

    [m_main] keeps a reference count beside each node and [m_aux] a liveness flag;
    [m_db], when there is one, is the database on disk. *)
Record OverlayDB := mkDB {
  m_main : gmap h256 (bytes * Z);
  m_aux : gmap h256 (bytes * bool);
  m_enforceRefs : bool;
  m_db : option (gmap bytes bytes)
}.
#[export] Instance OverlayDB_reshape : Reshape OverlayDB :=
  λ d, mkDB (m_main d) (m_aux d) (m_enforceRefs d) (m_db d).
#[export] Instance m_main_field : Field m_main := ltac:(field_setter).
#[export] Instance m_aux_field : Field m_aux := ltac:(field_setter).
#[export] Instance m_enforceRefs_field : Field m_enforceRefs := ltac:(field_setter).
#[export] Instance m_db_field : Field m_db := ltac:(field_setter).

Definition cache_lookup (h : h256) (d : OverlayDB) : bytes :=
  match m_main d !! h with
  | Some (v, n) => if negb (m_enforceRefs d) || (0 <? n) then v else []
  | None => []
  end.
Definition cache_exists (h : h256) (d : OverlayDB) : bool :=
  match m_main d !! h with Some (_, n) => negb (m_enforceRefs d) || (0 <? n) | None => false end.
Definition cache_insert (h : h256) (v : bytes) (d : OverlayDB) : OverlayDB :=
  match m_main d !! h with
  | Some (_, n) => d <| m_main ::= <[h := (v, u32 (n + 1))]> |>
  | None => d <| m_main ::= <[h := (v, 1)]> |>
  end.
Definition cache_kill (h : h256) (d : OverlayDB) : bool * OverlayDB :=
  match m_main d !! h with
  | Some (v, n) => if 0 <? n then (true, d <| m_main ::= <[h := (v, n - 1)]> |>) else (false, d)
  | None => (false, d)
  end.
Definition cache_lookupAux (h : h256) (d : OverlayDB) : bytes :=
  match m_aux d !! h with
  | Some (v, b) => if negb (m_enforceRefs d) || b then v else []
  | None => []
  end.
Definition cache_removeAux (h : h256) (d : OverlayDB) : OverlayDB :=
  d <| m_aux ::= <[h := ((default ([], false) (m_aux d !! h)).1, false)]> |>.
Definition cache_insertAux (h : h256) (v : bytes) (d : OverlayDB) : OverlayDB :=
  d <| m_aux ::= <[h := (v, true)]> |>.
Definition cache_purge (d : OverlayDB) : OverlayDB :=
  d <| m_main ::= filter (λ p : h256 * (bytes * Z), p.2.2 ≠ 0) |>
    <| m_aux ::= filter (λ p : h256 * (bytes * bool), p.2.2 = true) |>.
Definition cache_keys (d : OverlayDB) : gset h256 :=
  dom (filter (λ p : h256 * (bytes * Z), p.2.2 ≠ 0) (m_main d)).

(** The keys of the database on disk: a hash, and for [m_aux] a hash and the byte 255. *)
Definition disk_key (h : h256) : bytes := toBE_n 32 h.
Definition disk_aux_key (h : h256) : bytes := toBE_n 32 h ++ [255].
Definition disk_lookup (k : bytes) (d : OverlayDB) : bytes :=
  match m_db d with Some m => default [] (m !! k) | None => [] end.

Definition db_lookup (h : h256) (d : OverlayDB) : bytes :=
  let ret := cache_lookup h d in
  if bool_decide (ret ≠ []) then ret else disk_lookup (disk_key h) d.
Definition db_exists (h : h256) (d : OverlayDB) : bool :=
  cache_exists h d || match m_db d with Some m => bool_decide (is_Some (m !! disk_key h)) | None => false end.
(** [kill] only logs when there was nothing to release. *)
Definition db_kill (h : h256) (d : OverlayDB) : OverlayDB := (cache_kill h d).2.
Definition db_lookupAux (h : h256) (d : OverlayDB) : bytes :=
  let ret := cache_lookupAux h d in
  if bool_decide (ret ≠ []) then ret else disk_lookup (disk_aux_key h) d.
(** [commit]: one write batch of what is still referenced, then both caches are
    cleared.  The batch is written (the code retries, and exits when it cannot). *)
Definition write_main (m : gmap h256 (bytes * Z)) (disk : gmap bytes bytes) : gmap bytes bytes :=
  map_fold (λ h p acc, if p.2 =? 0 then acc else <[disk_key h := p.1]> acc) disk m.
Definition write_aux (m : gmap h256 (bytes * bool)) (disk : gmap bytes bytes) : gmap bytes bytes :=
  map_fold (λ h (p : bytes * bool) acc, if p.2 then <[disk_aux_key h := p.1]> acc else acc) disk m.
Definition db_commit (d : OverlayDB) : OverlayDB :=
  match m_db d with
  | None => d
  | Some disk =>
      d <| m_db := Some (write_aux (m_aux d) (write_main (m_main d) disk)) |>
        <| m_main := ∅ |> <| m_aux := ∅ |>
  end.
Definition db_rollback (d : OverlayDB) : OverlayDB := d <| m_main := ∅ |>.

(** ** [GenericTrieDB] (TrieDB.h) *)
Section GenericTrieDB.
Context `{Crypto}.

(** A computation on the node database. *)
Abbreviation T := (ST OverlayDB).

Definition trie_node (h : h256) : T bytes := d ← getS; mret (db_lookup h d).
Definition forceInsertNode (v : bytes) : T h256 := let h := sha3 v in modS (cache_insert h v);; mret h.
Definition forceKillNode (h : h256) : T unit := modS (db_kill h).
(** [killNode(_d)] and [killNode(_d, _h)]: only nodes that are filed under a hash. *)
Definition killNode_at (_d : bytes) (_h : h256) : T unit := when (32 <=? len _d) (forceKillNode _h).
Definition killNode (_d : bytes) : T unit := killNode_at _d (sha3 _d).

(** [RLPStream s(n)], [s << string], [s << h256], [s << RLP]. *)
Definition rlp_stream (n : Z) : outcome RLPStream := appendList n stream_empty.
Definition append_hash (h : h256) (s : RLPStream) : outcome RLPStream := append_bytes (toBE_n 32 h) s.
Definition append_rlp (d : bytes) (s : RLPStream) : outcome RLPStream := appendRaw d 1 s.
(** [rlpList(a, b)], each argument a byte string or RLP. *)
Definition rlpList (a b : RLPStream → outcome RLPStream) : outcome bytes :=
  s ← rlp_stream 2; s ← a s; s ← b s; out s.

Definition streamNode (_s : RLPStream) (_b : bytes) : T RLPStream :=
  if len _b <? 32 then lift (append_rlp _b _s)
  else h ← forceInsertNode _b; lift (append_hash h _s).

(** *** Lookup *)

(** A child: the node itself when it is a list, otherwise the node its hash names. *)
Definition child_node (d : bytes) : T bytes :=
  if isList d then mret d else h ← lift (toHash 32 d); s ← trie_node h; lift (RLP s).

Fixpoint atAux (fuel : nat) (_here : bytes) (_key : NibbleSlice) : T bytes :=
  match fuel with
  | O => out_of_fuel
  | S fuel =>
      if rlp_isEmpty _here || isNull _here then mret []
      else
        n ← lift (itemCount _here);
        if n =? 2 then
          k ← lift (keyOf _here);
          same ← lift (ns_eq _key k);
          leaf ← (if same : bool then lift (isLeaf _here) else mret false);
          if leaf : bool then v ← lift (item _here 1); lift (toBytes v)
          else
            inside ← lift (ns_contains _key k);
            go ← (if inside : bool then lf ← lift (isLeaf _here); mret (negb lf) else mret false);
            if go : bool then
              x ← lift (item _here 1); c ← child_node x; atAux fuel c (ns_mid _key (ns_size k))
            else mret []
        else if ns_size _key =? 0 then v ← lift (item _here 16); lift (toBytes v)
        else
          i ← lift (ns_at _key 0);
          x ← lift (item _here (Z.to_nat i));
          if rlp_isEmpty x then mret [] else c ← child_node x; atAux fuel c (ns_mid _key 1)
  end.

(** Every call after the first goes at least one nibble down in a well-formed trie. *)
Definition fuel_of (key : bytes) : nat := 2 * length key + 8.
Definition trie_at (m_root : h256) (_key : bytes) : T bytes :=
  s ← trie_node m_root; r ← lift (RLP s); atAux (fuel_of _key) r (slice_of _key).
Definition trie_contains (m_root : h256) (_key : bytes) : T bool :=
  v ← trie_at m_root _key; mret (bool_decide (v ≠ [])).

(** *** Insertion *)

(** [for (i = from; i < to; ++i) r << _orig[i]] *)
Fixpoint append_items (_orig : bytes) (idx : list nat) (r : RLPStream) : outcome RLPStream :=
  match idx with
  | [] => Ok r
  | i :: idx => x ← item _orig i; r ← append_rlp x r; append_items _orig idx r
  end.
Fixpoint append_nulls (n : nat) (r : RLPStream) : outcome RLPStream :=
  match n with O => Ok r | S n => r ← append_bytes [] r; append_nulls n r end.

Definition place (_orig : bytes) (_k : NibbleSlice) (_s : bytes) : T bytes :=
  killNode _orig;;
  if rlp_isEmpty _orig then
    k ← lift (hexPrefixEncode _k true 0 (-1));
    lift (rlpList (append_bytes k) (append_bytes _s))
  else
    n ← lift (itemCount _orig);
    if n =? 2 then k ← lift (item _orig 0); lift (rlpList (append_rlp k) (append_bytes _s))
    else
      s ← lift (rlp_stream 17); s ← lift (append_items _orig (seq 0 16) s);
      s ← lift (append_bytes _s s); lift (out s).

Definition cleve (_orig : bytes) (_s : Z) : T bytes :=
  killNode _orig;;
  k ← lift (keyOf _orig);
  leaf ← lift (isLeaf _orig);
  kb ← lift (hexPrefixEncode k leaf _s (-1));
  x ← lift (item _orig 1);
  bottom ← lift (rlpList (append_bytes kb) (append_rlp x));
  top ← lift (rlp_stream 2);
  kt ← lift (hexPrefixEncode k false 0 _s);
  top ← lift (append_bytes kt top);
  top ← streamNode top bottom;
  lift (out top).

Definition branch (_orig : bytes) : T bytes :=
  killNode _orig;;
  k ← lift (keyOf _orig);
  r ← lift (rlp_stream 17);
  x ← lift (item _orig 1);
  if ns_size k =? 0 then
    r ← lift (append_nulls 16 r); r ← lift (append_rlp x r); lift (out r)
  else
    b ← lift (ns_at k 0);
    leaf ← lift (isLeaf _orig);
    r ← foldM (λ r i,
          if Z.of_nat i =? b then
            if leaf || (1 <? ns_size k) then
              kc ← lift (hexPrefixEncode (ns_mid k 1) leaf 0 (-1));
              c ← lift (rlpList (append_bytes kc) (append_rlp x));
              streamNode r c
            else lift (append_rlp x r)
          else lift (append_bytes [] r)) r (seq 0 16);
    r ← lift (append_bytes [] r); lift (out r).

(** [mergeAtAux], over the [mergeAt] it calls back. *)
Definition mergeAtAux (mergeAt : bytes → h256 → NibbleSlice → bytes → bool → T bytes)
    (_out : RLPStream) (_orig : bytes) (_k : NibbleSlice) (_v : bytes) : T RLPStream :=
  if negb (isList _orig) && negb (rlp_isEmpty _orig) then
    h ← lift (toHash 32 _orig); s ← trie_node h; r ← lift (RLP s);
    b ← mergeAt r (sha3 r) _k _v false; streamNode _out b
  else b ← mergeAt _orig (sha3 _orig) _k _v true; streamNode _out b.

Fixpoint mergeAt (fuel : nat) (_orig : bytes) (_origHash : h256) (_k : NibbleSlice) (_v : bytes) (_inLine : bool) :
    T bytes :=
  match fuel with
  | O => out_of_fuel
  | S fuel =>
      if rlp_isEmpty _orig then place _orig _k _v
      else
        n ← lift (itemCount _orig);
        if n =? 2 then
          k ← lift (keyOf _orig);
          same ← lift (ns_eq k _k);
          exact ← (if same : bool then lift (isLeaf _orig) else mret false);
          if exact : bool then place _orig _k _v
          else
            inside ← lift (ns_contains _k k);
            down ← (if inside : bool then lf ← lift (isLeaf _orig); mret (negb lf) else mret false);
            if down : bool then
              when (negb _inLine) (killNode_at _orig _origHash);;
              s ← lift (rlp_stream 2);
              x0 ← lift (item _orig 0); s ← lift (append_rlp x0 s);
              x1 ← lift (item _orig 1);
              s ← mergeAtAux (mergeAt fuel) s x1 (ns_mid _k (ns_size k)) _v;
              lift (out s)
            else
              sh ← lift (ns_shared _k k);
              if negb (sh =? 0) then
                cleved ← cleve _orig sh; c ← lift (RLP cleved); mergeAt fuel c (sha3 c) _k _v true
              else
                branched ← branch _orig; c ← lift (RLP branched); mergeAt fuel c (sha3 c) _k _v true
        else if ns_size _k =? 0 then place _orig _k _v
        else
          when (negb _inLine) (killNode_at _orig _origHash);;
          i ← lift (ns_at _k 0);
          r ← lift (rlp_stream 17);
          r ← foldM (λ r j,
                x ← lift (item _orig j);
                if Z.of_nat j =? i then mergeAtAux (mergeAt fuel) r x (ns_mid _k 1) _v
                else lift (append_rlp x r)) r (seq 0 17);
          lift (out r)
  end.

Definition trie_insert (m_root : h256) (_key _value : bytes) : T h256 :=
  rootValue ← trie_node m_root;
  r ← lift (RLP rootValue);
  b ← mergeAt (fuel_of _key) r m_root (slice_of _key) _value false;
  when (len rootValue <? 32) (forceKillNode m_root);;
  forceInsertNode b.

(** *** Removal *)
Definition isTwoItemNode (_n : bytes) : T bool :=
  hashed ← (if isData _n then
              h ← lift (toHash 32 _n); s ← trie_node h; r ← lift (RLP s);
              c ← lift (itemCount r); mret (c =? 2)
            else mret false);
  if hashed : bool then mret true
  else if isList _n then c ← lift (itemCount _n); mret (c =? 2) else mret false.

Definition graft (_orig : bytes) : T bytes :=
  x ← lift (item _orig 1);
  n ← (if isList x then mret x
       else lh ← lift (toHash 32 x); s ← trie_node lh; forceKillNode lh;; lift (RLP s));
  k1 ← lift (keyOf _orig); k2 ← lift (keyOf n); leaf ← lift (isLeaf n);
  k ← lift (hexPrefixEncode_join k1 k2 leaf);
  y ← lift (item n 1);
  lift (rlpList (append_bytes k) (append_rlp y)).

Definition merge_node (_orig : bytes) (_i : Z) : T bytes :=
  s ← lift (rlp_stream 2);
  k ← lift (if bool_decide (_i ≠ 16) then hexPrefixEncode_range [_i] false 1 2 0
            else hexPrefixEncode_vec [] true 0 (-1));
  s ← lift (append_bytes k s);
  x ← lift (item _orig (Z.to_nat _i)); s ← lift (append_rlp x s);
  lift (out s).

(** What is left of a branch with one item in use. *)
Definition merge_or_graft (_orig : bytes) (used : Z) : T bytes :=
  x ← lift (item _orig (Z.to_nat used));
  two ← isTwoItemNode x;
  if two : bool then merged ← merge_node _orig used; m ← lift (RLP merged); graft m
  else merge_node _orig used.

(** [deleteAtAux], over the [deleteAt] it calls back; [None] when nothing was found. *)
Definition deleteAtAux (deleteAt : bytes → NibbleSlice → T bytes)
    (_out : RLPStream) (_orig : bytes) (_k : NibbleSlice) : T (option RLPStream) :=
  b ← (if rlp_isEmpty _orig then mret [] else c ← child_node _orig; deleteAt c _k);
  if bool_decide (b = []) then mret None else s ← streamNode _out b; mret (Some s).

Fixpoint deleteAt (fuel : nat) (_orig : bytes) (_k : NibbleSlice) : T bytes :=
  match fuel with
  | O => out_of_fuel
  | S fuel =>
      if rlp_isEmpty _orig then mret []
      else
        n ← lift (itemCount _orig);
        if n =? 2 then
          k ← lift (keyOf _orig);
          same ← lift (ns_eq k _k);
          exact ← (if same : bool then lift (isLeaf _orig) else mret false);
          if exact : bool then killNode _orig;; mret RLPNull
          else
            inside ← lift (ns_contains _k k);
            if inside : bool then
              s ← lift (rlp_stream 2);
              x0 ← lift (item _orig 0); s ← lift (append_rlp x0 s);
              x1 ← lift (item _orig 1);
              o ← deleteAtAux (deleteAt fuel) s x1 (ns_mid _k (ns_size k));
              match o with
              | None => mret []
              | Some s =>
                  killNode _orig;;
                  b ← lift (out s); r ← lift (RLP b);
                  y ← lift (item r 1);
                  two ← isTwoItemNode y;
                  if two : bool then graft r else mret b
              end
            else mret []
        else
          v ← lift (item _orig 16);
          if (ns_size _k =? 0) && negb (rlp_isEmpty v) then
            killNode _orig;;
            used ← lift (uniqueInUse _orig 16);
            if bool_decide (used ≠ 255) then merge_or_graft _orig used
            else
              r ← lift (rlp_stream 17); r ← lift (append_items _orig (seq 0 16) r);
              r ← lift (append_bytes [] r); lift (out r)
          else
            i ← lift (ns_at _k 0);
            r ← lift (rlp_stream 17);
            o ← foldM (λ o j,
                  match o with
                  | None => mret None
                  | Some r =>
                      x ← lift (item _orig j);
                      if Z.of_nat j =? i then deleteAtAux (deleteAt fuel) r x (ns_mid _k 1)
                      else r ← lift (append_rlp x r); mret (Some r)
                  end) (Some r) (seq 0 17);
            match o with
            | None => mret []
            | Some r =>
                killNode _orig;;
                b ← lift (out r); rlp ← lift (RLP b);
                used ← lift (uniqueInUse rlp 255);
                if used =? 255 then mret b else merge_or_graft rlp used
            end
  end.

Definition trie_remove (m_root : h256) (_key : bytes) : T h256 :=
  rv ← trie_node m_root;
  r ← lift (RLP rv);
  b ← deleteAt (fuel_of _key) r (slice_of _key);
  if bool_decide (b ≠ []) then
    when (len rv <? 32) (forceKillNode m_root);;
    forceInsertNode b
  else mret m_root.

(** *** Opening a trie *)
Definition trie_init : T h256 := forceInsertNode RLPNull.
Definition trie_setRoot (_root : h256) : T h256 :=
  d ← getS;
  r ← (if bool_decide (_root = EmptyTrie) && negb (db_exists _root d) then trie_init else mret _root);
  s ← trie_node r;
  if bool_decide (s = []) then throw RootNotFound else mret r.
Definition trie_root (m_root : h256) : T h256 :=
  s ← trie_node m_root; if bool_decide (s = []) then throw BadRoot else mret m_root.
Definition trie_isNull (m_root : h256) : T bool := s ← trie_node m_root; mret (bool_decide (s = [])).
Definition trie_isEmpty (m_root : h256) : T bool :=
  s ← trie_node m_root; mret (bool_decide (m_root = EmptyTrie) && bool_decide (s ≠ [])).

(** *** [SecureTrieDB]: keys are hashed first (HashedGenericTrieDB) *)
Definition secure_key (k : bytes) : bytes := toBE_n 32 (sha3 k).
Definition secure_at (m_root : h256) (k : bytes) : T bytes := trie_at m_root (secure_key k).
Definition secure_contains (m_root : h256) (k : bytes) : T bool := trie_contains m_root (secure_key k).
Definition secure_insert (m_root : h256) (k v : bytes) : T h256 := trie_insert m_root (secure_key k) v.
(** With BRC_FATDB the key is kept too (FatGenericTrieDB). *)
Definition fat_insert (m_root : h256) (k v : bytes) : T h256 :=
  r ← trie_insert m_root (secure_key k) v; modS (cache_insertAux (sha3 k) k);; mret r.
Definition secure_remove (m_root : h256) (k : bytes) : T h256 := trie_remove m_root (secure_key k).
End GenericTrieDB.
