(* ===== verification/TrieNibbles.v ===== *)
(** * Nibble slices and hex-prefix keys

    A slice is the list of the nibbles it shows ([is_slice]), and each operation of
    [NibbleSlice] is the list operation it stands for.  [hp] is the hex-prefix
    encoding written on lists; the encoders of TrieCommon.cpp compute it and
    [keyOf], [isLeaf] read it back. *)
From stdpp Require Import base gmap list.
From Stdlib Require Import ZArith Lia.
From S2P Require Import Prelude Rlp RlpProofs Interfaces Trie.
Open Scope Z_scope.

Definition is_nibble (x : Z) : Prop := 0 <= x < 16.
Definition nibbles (k : list Z) : Prop := Forall is_nibble k.

(** The length of the longest common prefix. *)
Fixpoint lcp (a b : list Z) : nat :=
  match a, b with
  | x :: a, y :: b => if decide (x = y) then S (lcp a b) else O
  | _, _ => O
  end.

(** Two nibbles to a byte, and the hex-prefix encoding. *)
Fixpoint pack (k : list Z) : bytes :=
  match k with a :: b :: k => a * 16 + b :: pack k | _ => [] end.
Definition hp (leaf : bool) (k : list Z) : bytes :=
  if Nat.odd (length k) then
    match k with a :: k => (hp_flags leaf true + a) :: pack k | [] => [] end
  else hp_flags leaf false :: pack k.

Lemma is_byte_split b : is_byte b → is_nibble (b / 16) ∧ is_nibble (b mod 16).
Proof.
  unfold is_byte, is_nibble. intros Hb.
  pose proof (Z.div_mod b 16 ltac:(lia)). pose proof (Z.mod_pos_bound b 16 ltac:(lia)). lia.
Qed.
Lemma asNibbles_cons b d : asNibbles (b :: d) = b / 16 :: b mod 16 :: asNibbles d.
Proof. done. Qed.
Lemma length_asNibbles d : length (asNibbles d) = (2 * length d)%nat.
Proof. induction d as [|b d IH]; [done|]. rewrite asNibbles_cons. cbn [length]. lia. Qed.
Lemma asNibbles_ok d : Forall is_byte d → nibbles (asNibbles d).
Proof.
  unfold nibbles. induction 1 as [|b d Hb _ IH]; [constructor|]. rewrite asNibbles_cons.
  destruct (is_byte_split b Hb). by apply Forall_cons_2; [|apply Forall_cons_2].
Qed.

Lemma nibble_lookup d i x :
  Forall is_byte d → asNibbles d !! i = Some x → nibble d (Z.of_nat i) = Ok x.
Proof.
  intros Hd. revert i. induction Hd as [|b d Hb _ IH]; intros i Hi; [done|].
  rewrite asNibbles_cons in Hi. destruct i as [|[|i]]; simplify_eq/=.
  - unfold nibble. cbn. f_equal. apply Z.shiftr_div_pow2. lia.
  - unfold nibble. cbn. f_equal. apply (Z.land_ones b 4). lia.
  - rewrite <-(IH i Hi). unfold nibble.
    replace (Z.of_nat (S (S i)) / 2) with (1 + Z.of_nat i / 2)
      by (rewrite <-Z.div_add_l by lia; f_equal; lia).
    assert (0 <= Z.of_nat i / 2) by (apply Z.div_pos; lia).
    rewrite Z2Nat.inj_add by lia. change (Z.to_nat 1) with 1%nat. cbn [Nat.add].
    change ((b :: d) !! S (Z.to_nat (Z.of_nat i / 2))) with (d !! Z.to_nat (Z.of_nat i / 2)).
    replace (Z.of_nat (S (S i))) with (Z.of_nat i + 2 * 1) by lia. by rewrite Z.odd_add_mul_2.
Qed.

(** ** Slices *)
Record is_slice (s : NibbleSlice) (k : list Z) : Prop := {
  sl_bytes : Forall is_byte (ns_data s);
  sl_small : len (ns_data s) * 2 < 2 ^ 32;
  sl_off : 0 <= ns_offset s <= len (ns_data s) * 2;
  sl_nibs : drop (Z.to_nat (ns_offset s)) (asNibbles (ns_data s)) = k
}.

Section Slice.
Context (s : NibbleSlice) (k : list Z) (Hs : is_slice s k).

Lemma slice_length : ns_offset s + len k = len (ns_data s) * 2.
Proof using Hs.
  destruct Hs as [_ ? [??] <-]. rewrite length_drop, length_asNibbles. lia.
Qed.
Lemma slice_nibbles : nibbles k.
Proof using Hs. destruct Hs as [Hb _ _ <-]. apply Forall_drop, asNibbles_ok, Hb. Qed.
Lemma ns_size_ok : ns_size s = len k.
Proof using Hs.
  pose proof slice_length. pose proof (sl_small _ _ Hs). pose proof (sl_off _ _ Hs).
  unfold ns_size. rewrite u32_small; lia.
Qed.
Lemma slice_lookup i x : k !! i = Some x → nibble (ns_data s) (ns_offset s + Z.of_nat i) = Ok x.
Proof using Hs.
  intros Hi. pose proof (sl_off _ _ Hs) as Ho. rewrite <-(sl_nibs _ _ Hs), lookup_drop in Hi.
  rewrite <-(nibble_lookup _ _ x (sl_bytes _ _ Hs) Hi). f_equal. lia.
Qed.
Lemma ns_at_ok i x : k !! i = Some x → ns_at s (Z.of_nat i) = Ok x.
Proof using Hs.
  intros Hi. pose proof (lookup_lt_Some _ _ _ Hi). pose proof slice_length. pose proof (sl_off _ _ Hs).
  pose proof (sl_small _ _ Hs). unfold ns_at. rewrite u32_small by lia. by apply slice_lookup.
Qed.
Lemma ns_mid_ok i : (i <= length k)%nat → is_slice (ns_mid s (Z.of_nat i)) (drop i k).
Proof using Hs.
  intros Hi. pose proof slice_length. pose proof (sl_off _ _ Hs). pose proof (sl_small _ _ Hs).
  unfold ns_mid. rewrite u32_small by lia. split; cbn; try apply Hs; [lia|].
  rewrite <-(sl_nibs _ _ Hs), drop_drop. f_equal. lia.
Qed.
Lemma slice_drop1 x k' : k = x :: k' → ns_at s 0 = Ok x ∧ is_slice (ns_mid s 1) k'.
Proof using Hs.
  intros E. split; [apply (ns_at_ok 0); by rewrite E|].
  pose proof (ns_mid_ok 1) as Hm. rewrite E in Hm. apply Hm. cbn. lia.
Qed.
End Slice.

Lemma slice_of_ok d : Forall is_byte d → len d * 2 < 2 ^ 32 → is_slice (slice_of d) (asNibbles d).
Proof. intros ??. split; cbn; [done..|lia|done]. Qed.

Lemma shared_loop_ok k1 : ∀ d1 b1 d2 b2 k2,
  (∀ i x, k1 !! i = Some x → nibble d1 (b1 + Z.of_nat i) = Ok x) →
  (∀ i x, k2 !! i = Some x → nibble d2 (b2 + Z.of_nat i) = Ok x) →
  shared_loop (length k1) d1 b1 (b1 + len k1) d2 b2 (b2 + len k2) = Ok (Z.of_nat (lcp k1 k2)).
Proof.
  induction k1 as [|x k1 IH]; intros d1 b1 d2 b2 k2 H1 H2; [done|].
  cbn [length shared_loop]. destruct k2 as [|y k2]; cbn [length lcp].
  - destruct (Z.ltb_spec b2 (b2 + Z.of_nat 0)); [lia|]. by rewrite andb_false_r.
  - rewrite !(proj2 (Z.ltb_lt _ _)) by lia. cbn [andb].
    pose proof (H1 0%nat x eq_refl) as E1. pose proof (H2 0%nat y eq_refl) as E2.
    rewrite Z.add_0_r in E1, E2. rewrite E1, E2. cbn [mbind outcome_bind].
    destruct (Z.eqb_spec x y) as [->|Hxy]; [|by rewrite decide_False].
    rewrite decide_True by done.
    replace (b1 + Z.of_nat (S (length k1))) with (b1 + 1 + len k1) by lia.
    replace (b2 + Z.of_nat (S (length k2))) with (b2 + 1 + len k2) by lia.
    rewrite IH; [cbn; f_equal; lia| |].
    + intros i z Hi. rewrite <-(H1 (S i) z Hi). f_equal. lia.
    + intros i z Hi. rewrite <-(H2 (S i) z Hi). f_equal. lia.
Qed.

Section TwoSlices.
Context (s1 s2 : NibbleSlice) (k1 k2 : list Z) (H1 : is_slice s1 k1) (H2 : is_slice s2 k2).

Lemma ns_shared_ok : ns_shared s1 s2 = Ok (Z.of_nat (lcp k1 k2)).
Proof using H1 H2.
  pose proof (slice_length _ _ H1). pose proof (slice_length _ _ H2).
  pose proof (sl_off _ _ H1). pose proof (sl_off _ _ H2).
  pose proof (sl_small _ _ H1). pose proof (sl_small _ _ H2).
  unfold ns_shared, sharedNibbles. rewrite (ns_size_ok _ _ H1), (ns_size_ok _ _ H2), !u32_small by lia.
  replace (Z.to_nat (ns_offset s1 + len k1 - ns_offset s1)) with (length k1) by lia.
  apply shared_loop_ok; intros; by eapply slice_lookup.
Qed.
End TwoSlices.

Lemma lcp_le_l a : ∀ b, (lcp a b <= length a)%nat.
Proof. induction a as [|x a IH]; intros [|y b]; cbn; [lia..|]. case_decide; [|lia]. specialize (IH b). lia. Qed.
Lemma lcp_comm a : ∀ b, lcp a b = lcp b a.
Proof.
  induction a as [|x a IH]; intros [|y b]; cbn; try done. repeat case_decide; simplify_eq; auto.
Qed.
Lemma lcp_le_r a b : (lcp a b <= length b)%nat.
Proof. rewrite lcp_comm. apply lcp_le_l. Qed.
Lemma lcp_take a : ∀ b, take (lcp a b) a = take (lcp a b) b.
Proof. induction a as [|x a IH]; intros [|y b]; cbn; try done. case_decide; [|done]. subst. cbn. by rewrite IH. Qed.
Lemma lcp_prefix a : ∀ b, lcp a b = length b ↔ b `prefix_of` a.
Proof.
  induction a as [|x a IH]; intros [|y b]; cbn.
  - split; [intros; apply prefix_nil|done].
  - split; [done|]. by intros ?%prefix_nil_not.
  - split; [intros; apply prefix_nil|done].
  - case_decide as E.
    + subst. split.
      * intros [= Hl]. apply prefix_cons, IH, Hl.
      * intros Hp%prefix_cons_inv_2. f_equal. by apply IH.
    + split; [done|]. intros Hp. by apply prefix_cons_inv_1 in Hp.
Qed.
(** After the shared part the keys differ at once, or one of them is over. *)
Lemma lcp_drop a : ∀ b, lcp (drop (lcp a b) a) (drop (lcp a b) b) = 0%nat.
Proof.
  induction a as [|x a IH]; intros [|y b]; cbn; try done. case_decide as E; [by cbn|].
  cbn. by rewrite decide_False.
Qed.
Lemma lcp_same a : lcp a a = length a.
Proof. by apply lcp_prefix. Qed.

Section Compare.
Context (s1 s2 : NibbleSlice) (k1 k2 : list Z) (H1 : is_slice s1 k1) (H2 : is_slice s2 k2).

Lemma ns_contains_ok : ns_contains s1 s2 = Ok (bool_decide (k2 `prefix_of` k1)).
Proof using H1 H2.
  unfold ns_contains. rewrite (ns_shared_ok _ _ _ _ H1 H2), (ns_size_ok _ _ H2). cbn. f_equal.
  destruct (Z.eqb_spec (Z.of_nat (lcp k1 k2)) (len k2)) as [E|E]; symmetry.
  - apply bool_decide_eq_true_2, lcp_prefix. lia.
  - apply bool_decide_eq_false_2. rewrite <-lcp_prefix. lia.
Qed.
Lemma ns_eq_ok : ns_eq s1 s2 = Ok (bool_decide (k1 = k2)).
Proof using H1 H2.
  pose proof ns_contains_ok as Hc. unfold ns_contains in Hc. unfold ns_eq.
  rewrite Hc, (ns_size_ok _ _ H1), (ns_size_ok _ _ H2).
  destruct (Z.eqb_spec (len k2) (len k1)) as [E|E]; f_equal.
  - apply bool_decide_ext. split; [|by intros ->]. intros Hp. symmetry.
    apply prefix_length_eq; [done|lia].
  - symmetry. apply bool_decide_eq_false_2. congruence.
Qed.
End Compare.

(** ** Hex-prefix encoding *)

(** What the loop does to the bytes so far, nibble by nibble. *)
Fixpoint push_nibs (odd : bool) (ret : bytes) (k : list Z) : bytes :=
  match k with
  | [] => ret
  | n :: k => push_nibs (negb odd) (if odd then or_back ret n else ret ++ [n * 16]) k
  end.

Lemma hp_loop_ok k : ∀ d i j ret, nibbles k →
  (∀ m x, k !! m = Some x → nibble d (i + Z.of_nat m) = Ok x) →
  hp_loop (length k) d i j ret = Ok (push_nibs (Z.odd j) ret k).
Proof.
  induction k as [|x k IH]; intros d i j ret Hk Hn; [done|]. cbn [length hp_loop push_nibs].
  pose proof (Hn 0%nat x eq_refl) as E. rewrite Z.add_0_r in E. rewrite E. cbn [mbind outcome_bind].
  inversion Hk as [|?? Hx Hk']; subst. unfold is_nibble in Hx.
  rewrite IH; [|done|].
  - rewrite Z.odd_add. change (Z.odd 1) with true. rewrite xorb_true_r.
    rewrite Z.shiftl_mul_pow2, Z.mod_small by lia. done.
  - intros m y Hm. rewrite <-(Hn (S m) y Hm). f_equal. lia.
Qed.

Lemma push_nibs_app a : ∀ odd ret b,
  push_nibs odd ret (a ++ b) = push_nibs (xorb odd (Nat.odd (length a))) (push_nibs odd ret a) b.
Proof.
  induction a as [|x a IH]; intros odd ret b; cbn [app length push_nibs].
  - by rewrite xorb_false_r.
  - rewrite IH, Nat.odd_succ, <-Nat.negb_odd. f_equal. by destruct odd, (Nat.odd (length a)).
Qed.
Lemma or_back_snoc r b n : or_back (r ++ [b]) n = r ++ [Z.lor b n].
Proof. unfold or_back. rewrite reverse_snoc. by rewrite reverse_cons, reverse_involutive. Qed.

Lemma lor_nibble a n : is_nibble n → Z.lor (a * 16) n = a * 16 + n.
Proof.
  unfold is_nibble. intros Hn.
  assert (Z.land (a * 16) n = 0) as Hz.
  { rewrite <-(Z.mod_small n (2 ^ 4)), <-Z.land_ones, (Z.land_comm n), Z.land_assoc by lia.
    rewrite Z.land_ones by lia. change (2 ^ 4) with 16. by rewrite Z.mod_mul, Z.land_0_l by lia. }
  by rewrite <-Z.lxor_lor, <-Z.add_nocarry_lxor by done.
Qed.

Lemma even_ind (P : list Z → Prop) :
  P [] → (∀ a b k, P k → P (a :: b :: k)) → ∀ k, Nat.odd (length k) = false → P k.
Proof.
  intros H0 H2. fix IH 1. intros [|a [|b k]] Hk; [done|done|]. apply H2, IH. done.
Qed.
Lemma odd_tail n : Nat.odd (S n) = true → Nat.odd n = false.
Proof. rewrite Nat.odd_succ, <-Nat.negb_odd. by intros ->%negb_true_iff. Qed.
Lemma push_pairs k ret : Nat.odd (length k) = false → nibbles k → push_nibs false ret k = ret ++ pack k.
Proof.
  intros Hl. revert k Hl ret. refine (even_ind _ _ _); [|intros a b k IH]; intros ret Hk.
  - cbn. by rewrite app_nil_r.
  - cbn [push_nibs negb pack]. apply Forall_cons in Hk as [_ Hk]. apply Forall_cons in Hk as [Hb Hk].
    rewrite or_back_snoc, lor_nibble, IH by done. by rewrite <-app_assoc.
Qed.

Lemma hp_flags_cases leaf odd : hp_flags leaf odd = (if leaf then 2 else 0) * 16 + (if odd then 16 else 0).
Proof. by destruct leaf, odd. Qed.
Lemma hp_flags_nibble leaf odd : ∃ a, hp_flags leaf odd = a * 16 ∧ 0 <= a < 4.
Proof. unfold hp_flags. exists (Z.lor (if leaf then 2 else 0) (if odd then 1 else 0)). by destruct leaf, odd. Qed.

Lemma push_nibs_hp leaf k : nibbles k →
  push_nibs (Nat.odd (length k)) [hp_flags leaf (Nat.odd (length k))] k = hp leaf k.
Proof.
  intros Hk. unfold hp. destruct (Nat.odd (length k)) eqn:E.
  - destruct k as [|a k]; [done|]. cbn [push_nibs negb]. apply Forall_cons in Hk as [Ha Hk].
    rewrite push_pairs; [|by apply odd_tail in E|done].
    destruct (hp_flags_nibble leaf true) as (f&->&_).
    change [f * 16] with ([] ++ [f * 16]). by rewrite or_back_snoc, lor_nibble.
  - by rewrite push_pairs.
Qed.

Lemma odd_flag (n : nat) : Z.odd (if Nat.odd n then 1 else 2) = Nat.odd n.
Proof. by destruct (Nat.odd n). Qed.
Lemma odd_of_nat (n : nat) : Z.odd (Z.of_nat n) = Nat.odd n.
Proof.
  induction n as [|n IH]; [done|]. rewrite Nat2Z.inj_succ, Z.odd_succ, Nat.odd_succ.
  by rewrite <-Z.negb_odd, <-Nat.negb_odd, IH.
Qed.

Section Encoders.
Context (s : NibbleSlice) (k : list Z) (Hs : is_slice s k).

Lemma hp_range_ok leaf b m : (b + m <= length k)%nat →
  hexPrefixEncode s leaf (Z.of_nat b) (Z.of_nat (b + m)) = Ok (hp leaf (take m (drop b k))).
Proof using Hs.
  intros Hm. pose proof (slice_length _ _ Hs). pose proof (sl_small _ _ Hs). pose proof (sl_off _ _ Hs).
  unfold hexPrefixEncode, hexPrefixEncode_range.
  destruct (Z.ltb_spec (Z.of_nat (b + m)) 0) as [|_]; [lia|].
  assert (len (take m (drop b k)) = Z.of_nat m) as Hl by (rewrite length_take, length_drop; lia).
  rewrite (u32_small (Z.of_nat b + _)), (u32_small (Z.of_nat (b + m) + _)) by lia.
  replace (Z.of_nat (b + m) + ns_offset s - (Z.of_nat b + ns_offset s)) with (len (take m (drop b k))) by lia.
  rewrite u32_small, Nat2Z.id, odd_of_nat by lia.
  assert (nibbles (take m (drop b k))) as Hn by apply Forall_take, Forall_drop, (slice_nibbles _ _ Hs).
  rewrite hp_loop_ok; [by rewrite odd_flag, push_nibs_hp|done|].
  intros i x Hi. pose proof (lookup_lt_Some _ _ _ Hi). rewrite lookup_take_lt, lookup_drop in Hi by lia.
  rewrite <-(slice_lookup _ _ Hs _ _ Hi). f_equal. lia.
Qed.
Lemma hp_from_ok leaf b : (b <= length k)%nat →
  hexPrefixEncode s leaf (Z.of_nat b) (-1) = Ok (hp leaf (drop b k)).
Proof using Hs.
  intros Hb. pose proof (slice_length _ _ Hs).
  pose proof (hp_range_ok leaf b (length k - b) ltac:(lia)) as Hr.
  rewrite firstn_all2 in Hr by (rewrite length_drop; lia). rewrite <-Hr.
  unfold hexPrefixEncode, hexPrefixEncode_range. destruct (Z.ltb_spec (Z.of_nat (b + (length k - b))) 0); [lia|].
  cbn [Z.ltb Z.compare].
  by replace (len (ns_data s) * 2 - ns_offset s + 1 + -1) with (Z.of_nat (b + (length k - b))) by lia.
Qed.
Lemma hp_all_ok leaf : hexPrefixEncode s leaf 0 (-1) = Ok (hp leaf k).
Proof using Hs. pose proof (hp_from_ok leaf 0 ltac:(lia)) as E. by rewrite drop_0 in E. Qed.
Lemma hp_first_ok leaf m : (m <= length k)%nat →
  hexPrefixEncode s leaf 0 (Z.of_nat m) = Ok (hp leaf (take m k)).
Proof using Hs. intros Hm. pose proof (hp_range_ok leaf 0 m Hm) as E. by rewrite drop_0 in E. Qed.
End Encoders.

Lemma hp_join_ok s1 s2 k1 k2 leaf : is_slice s1 k1 → is_slice s2 k2 → len k1 + len k2 < 2 ^ 32 →
  hexPrefixEncode_join s1 s2 leaf = Ok (hp leaf (k1 ++ k2)).
Proof.
  intros H1 H2 Hlen. pose proof (slice_length _ _ H1). pose proof (slice_length _ _ H2).
  pose proof (sl_small _ _ H1). pose proof (sl_small _ _ H2). pose proof (sl_off _ _ H1). pose proof (sl_off _ _ H2).
  pose proof (slice_nibbles _ _ H1) as N1. pose proof (slice_nibbles _ _ H2) as N2.
  unfold hexPrefixEncode_join. rewrite !(u32_small (len _ * 2)) by lia.
  replace (len (ns_data s1) * 2 - ns_offset s1) with (len k1) by lia.
  replace (len (ns_data s2) * 2 - ns_offset s2) with (len k2) by lia.
  rewrite u32_small, <-Nat2Z.inj_add, <-length_app, odd_of_nat, !Nat2Z.id by lia.
  rewrite hp_loop_ok; [|done|by intros; eapply slice_lookup]. cbn [mbind outcome_bind].
  rewrite hp_loop_ok; [|done|by intros; eapply slice_lookup]. f_equal.
  rewrite Z.max_r, Z.odd_add, odd_flag, odd_of_nat by lia.
  rewrite <-push_nibs_app, push_nibs_hp; [done|]. by apply Forall_app.
Qed.

(** ** Reading a key back *)
Lemma hp_flags_bits leaf odd a : is_nibble a →
  is_byte (hp_flags leaf odd + a) ∧
  Z.land (hp_flags leaf odd + a) 0x20 = (if leaf then 0x20 else 0) ∧
  Z.land (hp_flags leaf odd + a) 0x10 = (if odd then 0x10 else 0).
Proof.
  intros Ha. unfold is_nibble in Ha.
  assert (a ∈ [0;1;2;3;4;5;6;7;8;9;10;11;12;13;14;15]) as Hin.
  { replace a with (Z.of_nat (Z.to_nat a)) by lia. assert (Z.to_nat a < 16)%nat as Hlt by lia.
    revert Hlt. generalize (Z.to_nat a). clear. intros n Hn. do 16 (destruct n as [|n]; [set_solver|]). lia. }
  unfold is_byte. rewrite !elem_of_cons in Hin.
  destruct leaf, odd; repeat (destruct Hin as [->|Hin]; [done|]); by apply not_elem_of_nil in Hin.
Qed.

Lemma pack_bytes k : nibbles k → Forall is_byte (pack k).
Proof.
  revert k. fix IH 1. intros [|a [|b k]] Hk; cbn; [constructor..|].
  apply Forall_cons in Hk as [Ha Hk]. apply Forall_cons in Hk as [Hb Hk].
  constructor; [unfold is_byte, is_nibble in *; lia|by apply IH].
Qed.
Lemma asNibbles_pack k : Nat.odd (length k) = false → nibbles k → asNibbles (pack k) = k.
Proof.
  revert k. refine (even_ind _ _ _); [done|]. intros a b k IH Hk. cbn [pack].
  apply Forall_cons in Hk as [Ha Hk]. apply Forall_cons in Hk as [Hb Hk]. rewrite asNibbles_cons, IH by done.
  unfold is_nibble in *. rewrite Z.div_add_l, (Z.div_small b 16), Z.add_0_r by lia.
  by rewrite (Z.add_comm (a * 16)), Z.mod_add, Z.mod_small by lia.
Qed.

Lemma hp_cons leaf k : nibbles k → ∃ b l, hp leaf k = b :: l ∧ is_byte b ∧ Forall is_byte l ∧
  Z.land b 0x20 = (if leaf then 0x20 else 0) ∧ Z.land b 0x10 = (if Nat.odd (length k) then 0x10 else 0) ∧
  drop (if Nat.odd (length k) then 1 else 2) (asNibbles (b :: l)) = k.
Proof.
  intros Hk. unfold hp. destruct (Nat.odd (length k)) eqn:E.
  - destruct k as [|a k]; [done|]. apply Forall_cons in Hk as [Ha Hk].
    destruct (hp_flags_bits leaf true a Ha) as (?&?&?).
    eexists _, _. split; [done|]. repeat split; try apply pack_bytes; try done; try apply H.
    rewrite asNibbles_cons, asNibbles_pack; [|by apply odd_tail in E|done].
    cbn [drop]. f_equal. destruct (hp_flags_nibble leaf true) as (f&->&_). unfold is_nibble in Ha.
    by rewrite (Z.add_comm (f * 16)), Z.mod_add, Z.mod_small by lia.
  - destruct (hp_flags_bits leaf false 0) as (?&?&?); [unfold is_nibble; lia|]. rewrite Z.add_0_r in *.
    eexists _, _. split; [done|]. repeat split; try apply pack_bytes; try done; try apply H.
    by rewrite asNibbles_cons, asNibbles_pack.
Qed.
Lemma hp_bytes leaf k : nibbles k → Forall is_byte (hp leaf k).
Proof. intros Hk. destruct (hp_cons leaf k Hk) as (b&l&->&?&?&_). by constructor. Qed.
Lemma length_pack k : (2 * length (pack k) <= length k)%nat.
Proof. revert k. fix IH 1. intros [|a [|b k]]; cbn; [lia..|]. specialize (IH k). lia. Qed.
Lemma length_hp leaf k : (2 * length (hp leaf k) <= length k + 2)%nat.
Proof.
  unfold hp. destruct (Nat.odd _); [destruct k as [|a k]; cbn; [lia|]|cbn];
    pose proof (length_pack k); lia.
Qed.
Lemma keyOf_hp leaf k : nibbles k → len k + 2 < 2 ^ 32 → is_slice (keyOf_hpe (hp leaf k)) k.
Proof.
  intros Hk Hl. pose proof (length_hp leaf k). pose proof (hp_bytes leaf k Hk) as Hb.
  destruct (hp_cons leaf k Hk) as (b&l&E&_&_&_&E1&E2). rewrite E in *. unfold keyOf_hpe. rewrite E1.
  destruct (Nat.odd (length k)) eqn:Ho; cbn [Z.eqb negb]; split; cbn [ns_data ns_offset]; try done; try lia;
    cbn [length] in *; lia.
Qed.
