(* ===== verification/TrieTree.v ===== *)
(** * The trie as a tree

    What the nodes of a Merkle Patricia trie are, without their encoding: a tree
    over keys of one length, as a finite map.  [wf] is the canonical form: no leaf
    without a value, no extension of anything but a branch, two children at least
    in every branch.  Insertion and removal keep it, and a canonical tree is
    determined by the map it holds. *)
From stdpp Require Import base gmap list.
From Stdlib Require Import ZArith Lia.
From S2P Require Import Prelude Rlp RlpProofs TrieNibbles.
Open Scope Z_scope.

Inductive tree :=
  | TEmpty
  | TLeaf (k : list Z) (v : bytes)
  | TExt (k : list Z) (c : tree)
  | TBranch (cs : list tree).

Fixpoint tree_ind' (P : tree → Prop) (H0 : P TEmpty) (H1 : ∀ k v, P (TLeaf k v))
    (H2 : ∀ k c, P c → P (TExt k c)) (H3 : ∀ cs, Forall P cs → P (TBranch cs)) (t : tree) : P t :=
  match t with
  | TEmpty => H0
  | TLeaf k v => H1 k v
  | TExt k c => H2 k c (tree_ind' P H0 H1 H2 H3 c)
  | TBranch cs => H3 cs ((fix go l : Forall P l :=
      match l with
      | [] => Forall_nil_2 _
      | y :: l => Forall_cons_2 _ _ _ (tree_ind' P H0 H1 H2 H3 y) (go l)
      end) cs)
  end.

Definition is_used (t : tree) : bool := match t with TEmpty => false | _ => true end.
Definition is_branch (t : tree) : bool := match t with TBranch _ => true | _ => false end.

(** ** Operations *)

(** [k] without its prefix [p]. *)
Fixpoint strip (p k : list Z) : option (list Z) :=
  match p, k with
  | [], _ => Some k
  | x :: p, y :: k => if decide (x = y) then strip p k else None
  | _ :: _, [] => None
  end.

Fixpoint t_at (t : tree) (k : list Z) : bytes :=
  match t with
  | TEmpty => []
  | TLeaf k0 v => if decide (k = k0) then v else []
  | TExt k0 c => match strip k0 k with Some r => t_at c r | None => [] end
  | TBranch cs =>
      match k with [] => [] | i :: r => nth (Z.to_nat i) ((λ c, t_at c r) <$> cs) [] end
  end.

(** Sixteen slots, one of them filled. *)
Definition slot (i : Z) (t : tree) : list tree := <[Z.to_nat i := t]> (replicate 16 TEmpty).
(** A leaf or extension with the first [n] nibbles of its key gone; the children of
    the branch that takes its place; a key that leads to a node. *)
Definition t_cut (n : nat) (t : tree) : tree :=
  match t with TLeaf k v => TLeaf (drop n k) v | TExt k c => TExt (drop n k) c | _ => t end.
Definition t_ext (p : list Z) (t : tree) : tree := match p with [] => t | _ => TExt p t end.
Definition t_branch (t : tree) : list tree :=
  match t with
  | TLeaf (i :: r) v => slot i (TLeaf r v)
  | TExt (i :: r) c => slot i (t_ext r c)
  | _ => replicate 16 TEmpty
  end.
Definition t_key (t : tree) : list Z := match t with TLeaf k _ | TExt k _ => k | _ => [] end.
(** A new leaf beside the leaf or extension [t]. *)
Definition t_split (t : tree) (k : list Z) (v : bytes) : tree :=
  let sh := lcp k (t_key t) in
  t_ext (take sh k)
    (TBranch (match drop sh k with
              | i :: r => <[Z.to_nat i := TLeaf r v]> (t_branch (t_cut sh t))
              | [] => t_branch (t_cut sh t)
              end)).

Fixpoint t_insert (t : tree) (k : list Z) (v : bytes) : tree :=
  match t with
  | TEmpty => TLeaf k v
  | TLeaf k0 _ => if decide (k0 = k) then TLeaf k v else t_split t k v
  | TExt k0 c => match strip k0 k with Some r => TExt k0 (t_insert c r v) | None => t_split t k v end
  | TBranch cs =>
      match k with
      | [] => t
      | i :: r => TBranch (<[Z.to_nat i := nth (Z.to_nat i) ((λ c, t_insert c r v) <$> cs) TEmpty]> cs)
      end
  end.

(** A key in front of a node: it joins the key of a leaf or an extension. *)
Definition t_graft (k : list Z) (t : tree) : tree :=
  match t with TLeaf k' v => TLeaf (k ++ k') v | TExt k' c => TExt (k ++ k') c | _ => TExt k t end.
Fixpoint used_from (j : nat) (cs : list tree) : list nat :=
  match cs with
  | [] => []
  | c :: cs => if is_used c then j :: used_from (S j) cs else used_from (S j) cs
  end.
(** A branch, or what stands for it when one child is left. *)
Definition t_collapse (cs : list tree) : tree :=
  match used_from 0 cs with
  | [i] => t_graft [Z.of_nat i] (nth i cs TEmpty)
  | _ => TBranch cs
  end.

(** [None] when the key is not there. *)
Fixpoint t_remove (t : tree) (k : list Z) : option tree :=
  match t with
  | TEmpty => None
  | TLeaf k0 _ => if decide (k0 = k) then Some TEmpty else None
  | TExt k0 c =>
      match strip k0 k with
      | Some r => match t_remove c r with Some c' => Some (t_graft k0 c') | None => None end
      | None => None
      end
  | TBranch cs =>
      match k with
      | [] => None
      | i :: r =>
          match nth (Z.to_nat i) ((λ c, t_remove c r) <$> cs) None with
          | Some c' => Some (t_collapse (<[Z.to_nat i := c']> cs))
          | None => None
          end
      end
  end.
Definition t_delete (t : tree) (k : list Z) : tree := default t (t_remove t k).

(** ** Canonical trees over keys of [n] nibbles *)
Definition value_ok (v : bytes) : Prop := v ≠ [] ∧ Forall is_byte v ∧ len v < 2 ^ 32.
Definition two_used (cs : list tree) : Prop :=
  ∃ i j c c', i ≠ j ∧ cs !! i = Some c ∧ is_used c = true ∧ cs !! j = Some c' ∧ is_used c' = true.

Fixpoint wf (n : nat) (t : tree) : Prop :=
  match t with
  | TEmpty => True
  | TLeaf k v => length k = n ∧ nibbles k ∧ value_ok v
  | TExt k c => k ≠ [] ∧ nibbles k ∧ is_branch c = true ∧ (length k <= n)%nat ∧ wf (n - length k) c
  | TBranch cs =>
      match n with
      | O => False
      | S m => length cs = 16%nat ∧ foldr and True (wf m <$> cs) ∧ two_used cs
      end
  end.
(** A key of [n] nibbles. *)
Definition key_ok (n : nat) (k : list Z) : Prop := length k = n ∧ nibbles k.

Lemma foldr_and {A} (P : A → Prop) l : foldr and True (P <$> l) ↔ Forall P l.
Proof. induction l as [|x l IH]; cbn; [done|]. by rewrite IH, Forall_cons. Qed.
Lemma wf_branch n cs : wf (S n) (TBranch cs) ↔ length cs = 16%nat ∧ Forall (wf n) cs ∧ two_used cs.
Proof. cbn [wf]. by rewrite foldr_and. Qed.
Lemma wf_ext k m c : k ≠ [] → nibbles k → is_branch c = true → wf m c → wf (length k + m) (TExt k c).
Proof. intros ????. cbn. repeat split; try done; [lia|]. by replace (length k + m - length k)%nat with m by lia. Qed.

Lemma strip_app p k : strip p (p ++ k) = Some k.
Proof. induction p as [|x p IH]; cbn; [done|]. by rewrite decide_True. Qed.
Lemma strip_Some p : ∀ k r, strip p k = Some r ↔ k = p ++ r.
Proof.
  induction p as [|x p IH]; intros [|y k] r; cbn; try (split; congruence).
  case_decide; [subst; rewrite IH; split; congruence|]. split; [done|]. congruence.
Qed.
Lemma strip_None p k : strip p k = None ↔ ¬ p `prefix_of` k.
Proof.
  destruct (strip p k) as [r|] eqn:E.
  - apply strip_Some in E as ->. split; [done|]. intros Hn. destruct Hn. by apply prefix_app_r.
  - split; [|done]. intros _ [r ->]. by rewrite strip_app in E.
Qed.
Lemma nth_fmap {A B} (f : A → B) l i x d : l !! i = Some x → nth i (f <$> l) d = f x.
Proof. intros Hi. apply nth_lookup_Some. by rewrite list_lookup_fmap, Hi. Qed.

Lemma key_ok_cons n i r : key_ok (S n) (i :: r) ↔ is_nibble i ∧ key_ok n r.
Proof.
  unfold key_ok, nibbles. rewrite Forall_cons. cbn [length]. split; [intros (?&?&?)|intros (?&?&?)];
    (split; [first [done|lia]|]); (split; [first [done|lia]|done]).
Qed.
Lemma key_ok_app n p r : key_ok n (p ++ r) → nibbles p ∧ (length p <= n)%nat ∧ key_ok (n - length p) r.
Proof.
  intros [Hl Hn]. apply Forall_app in Hn as [??]. rewrite length_app in Hl.
  repeat split; [done|lia|lia|done].
Qed.
Lemma slot_lookup (cs : list tree) i : length cs = 16%nat → is_nibble i → ∃ c, cs !! Z.to_nat i = Some c.
Proof. intros Hl Hi. unfold is_nibble in Hi. apply lookup_lt_is_Some_2. lia. Qed.

Lemma at_branch cs i c r : cs !! Z.to_nat i = Some c → t_at (TBranch cs) (i :: r) = t_at c r.
Proof. intros Hc. cbn. by apply (nth_fmap (λ c, t_at c r)). Qed.
Lemma insert_branch cs i c r v :
  cs !! Z.to_nat i = Some c → t_insert (TBranch cs) (i :: r) v = TBranch (<[Z.to_nat i := t_insert c r v]> cs).
Proof. intros Hc. cbn. by rewrite (nth_fmap (λ c, t_insert c r v) _ _ _ _ Hc). Qed.
Lemma remove_branch cs i c r :
  cs !! Z.to_nat i = Some c →
  t_remove (TBranch cs) (i :: r) = (λ c', t_collapse (<[Z.to_nat i := c']> cs)) <$> t_remove c r.
Proof. intros Hc. cbn. by rewrite (nth_fmap (λ c, t_remove c r) _ _ _ _ Hc). Qed.

(** ** A key in front of a node *)
Lemma at_ext p t k : t_at (t_ext p t) k = match strip p k with Some r => t_at t r | None => [] end.
Proof. by destruct p. Qed.
Lemma at_graft p t k : t_at (t_graft p t) k = match strip p k with Some r => t_at t r | None => [] end.
Proof.
  destruct t as [|k' v|k' c|cs]; cbn [t_graft t_at]; try done.
  - destruct (strip p k) as [r|] eqn:E.
    + apply strip_Some in E as ->. apply decide_ext. split; [apply (inj _)|by intros ->].
    + rewrite decide_False; [done|]. intros ->. by rewrite strip_app in E.
  - destruct (strip p k) as [r|] eqn:E.
    + apply strip_Some in E as ->. destruct (strip k' r) as [r'|] eqn:E'.
      * apply strip_Some in E' as ->. by rewrite app_assoc, strip_app.
      * destruct (strip (p ++ k') (p ++ r)) as [r'|] eqn:E''; [|done].
        apply strip_Some in E''. rewrite <-app_assoc in E''. apply (inj _) in E'' as ->. by rewrite strip_app in E'.
    + destruct (strip (p ++ k') k) as [r'|] eqn:E''; [|done].
      apply strip_Some in E''. subst. by rewrite <-app_assoc, strip_app in E.
Qed.
Lemma wf_t_ext p m t : nibbles p → is_branch t = true → wf m t → wf (length p + m) (t_ext p t).
Proof. intros Hp Hb Hw. destruct p as [|x p]; [done|]. by apply wf_ext. Qed.
Lemma wf_graft p m t : p ≠ [] → nibbles p → is_used t = true → wf m t → wf (length p + m) (t_graft p t).
Proof.
  intros Hp Hn Hu Hw. destruct t as [|k v|k c|cs]; [done|..]; cbn [t_graft].
  - destruct Hw as (<-&?&?). repeat split; [apply length_app|by apply Forall_app|apply H0..].
  - destruct Hw as (?&?&?&?&?). replace (length p + m)%nat with (length (p ++ k) + (m - length k))%nat
      by (rewrite length_app; lia). apply wf_ext; [by destruct p|by apply Forall_app|done..].
  - by apply wf_ext.
Qed.

(** ** Splitting a leaf or an extension *)

(** Keys none of which leads to the other part after a shared prefix. *)
Lemma lcp_split k k0 : (length k0 <= length k)%nat → ¬ k0 `prefix_of` k →
  ∃ p i r j q, k = p ++ i :: r ∧ k0 = p ++ j :: q ∧ i ≠ j ∧ lcp k k0 = length p.
Proof.
  revert k0. induction k as [|x k IH]; intros [|y k0] Hl Hp; cbn in Hl; try lia; try (destruct Hp; apply prefix_nil).
  destruct (decide (x = y)) as [->|Hxy].
  - destruct (IH k0) as (p&i&r&j&q&->&->&?&E); [lia|by intros ?; destruct Hp; apply prefix_cons|].
    exists (y :: p), i, r, j, q. repeat split; try done. cbn. rewrite decide_True by done. cbn in E. by rewrite E.
  - exists [], x, k, y, k0. repeat split; try done. cbn. by rewrite decide_False.
Qed.
Lemma drop_at {A} (p l : list A) : drop (length p) (p ++ l) = l.
Proof. by rewrite drop_app_length. Qed.
Lemma take_at {A} (p l : list A) : take (length p) (p ++ l) = p.
Proof. by rewrite take_app_length. Qed.

(** Two nodes behind a shared prefix. *)
Definition fork (p : list Z) (i : Z) (t : tree) (j : Z) (u : tree) : tree :=
  t_ext p (TBranch (<[Z.to_nat i := t]> (slot j u))).

Lemma slot_length i t : length (slot i t) = 16%nat.
Proof. apply length_insert. Qed.
Lemma slot_at i t j : is_nibble i → is_nibble j →
  slot i t !! Z.to_nat j = Some (if decide (i = j) then t else TEmpty).
Proof.
  unfold is_nibble, slot. intros Hi Hj. case_decide as E.
  - subst. apply list_lookup_insert_eq. cbn. lia.
  - rewrite list_lookup_insert_ne by lia. apply lookup_replicate_2. lia.
Qed.
Lemma wf_fork p i t j u m : nibbles p → is_nibble i → is_nibble j → i ≠ j →
  wf m t → is_used t = true → wf m u → is_used u = true → wf (length p + S m) (fork p i t j u).
Proof.
  intros Hp Hi Hj Hij Ht Ut Hu Uu. apply wf_t_ext; [done|done|]. apply wf_branch. split_and!.
  - rewrite length_insert. apply slot_length.
  - apply Forall_insert; [|done]. apply Forall_insert; [|done]. by apply Forall_replicate.
  - exists (Z.to_nat i), (Z.to_nat j), t, u. unfold is_nibble in *. repeat split; try done; [lia| |].
    + apply list_lookup_insert_eq. rewrite slot_length. lia.
    + rewrite list_lookup_insert_ne by lia. rewrite slot_at by done. by rewrite decide_True.
Qed.
Lemma at_fork p i t j u k : is_nibble i → is_nibble j → i ≠ j → nibbles k →
  t_at (fork p i t j u) k =
    match strip p k with
    | Some (x :: r) => if decide (x = i) then t_at t r else if decide (x = j) then t_at u r else []
    | _ => []
    end.
Proof.
  intros Hi Hj Hij Hk. unfold fork. rewrite at_ext. destruct (strip p k) as [[|x r]|] eqn:E; [done| |done].
  apply strip_Some in E as ->. apply Forall_app in Hk as [_ Hk]. apply Forall_cons in Hk as [Hx _].
  case_decide as E1; [subst x|].
  - erewrite at_branch; [done|]. apply list_lookup_insert_eq. rewrite slot_length. unfold is_nibble in *. lia.
  - erewrite at_branch; [|rewrite list_lookup_insert_ne; [by apply slot_at|unfold is_nibble in *; lia]].
    by repeat case_decide; subst.
Qed.

(** What is below the branch that replaces a leaf or an extension. *)
Definition t_lower (q : list Z) (t : tree) : tree :=
  match t with TLeaf _ v => TLeaf q v | TExt _ c => t_ext q c | _ => t end.
Lemma split_fork t p i r j q v : t_key t = p ++ j :: q → i ≠ j →
  t_split t (p ++ i :: r) v = fork p i (TLeaf r v) j (t_lower q t).
Proof.
  intros Ht Hij. unfold t_split. rewrite Ht. replace (lcp (p ++ i :: r) (p ++ j :: q)) with (length p).
  - rewrite take_at, drop_at. unfold fork. do 3 f_equal. destruct t as [|k w|k c|cs]; cbn in *; try by destruct p.
    all: subst k; by rewrite drop_at.
  - clear Ht. induction p as [|x p IH]; cbn; [by rewrite decide_False|]. by rewrite decide_True, IH.
Qed.

Definition two_item (t : tree) : bool := match t with TLeaf _ _ | TExt _ _ => true | _ => false end.
Lemma lower_wf t n p j q : two_item t = true → t_key t = p ++ j :: q → wf n t →
  n = (length p + S (n - length p - 1))%nat ∧ nibbles p ∧ is_nibble j ∧
  wf (n - length p - 1) (t_lower q t) ∧ is_used (t_lower q t) = true.
Proof.
  intros Ht Hk Hw. destruct t as [|k v|k c|cs]; try done; cbn in Hk; subst k.
  - destruct Hw as (<-&Hn&?). apply Forall_app in Hn as [? Hn]. apply Forall_cons in Hn as [??].
    rewrite length_app. cbn [length t_lower wf]. split_and!; first [done|lia].
  - destruct Hw as (_&Hn&?&Hl&Hw). apply Forall_app in Hn as [? Hn]. apply Forall_cons in Hn as [??].
    rewrite length_app in *. cbn [length] in *. split_and!; [lia|done|done| |].
    + cbn [t_lower]. replace (n - length p - 1)%nat with (length q + (n - (length p + S (length q))))%nat by lia.
      by apply wf_t_ext.
    + destruct q; [by destruct c|done].
Qed.
Lemma lower_at t j q p k : two_item t = true → t_key t = p ++ j :: q →
  t_at t k = match strip p k with Some (x :: r) => if decide (x = j) then t_at (t_lower q t) r else [] | _ => [] end.
Proof.
  intros Ht Hk. destruct t as [|k0 v|k0 c|cs]; try done; cbn in Hk; subst k0; cbn [t_at t_lower].
  - destruct (strip p k) as [[|x r]|] eqn:E.
    + apply strip_Some in E as ->. rewrite decide_False; [done|]. intros E%(inj _). done.
    + apply strip_Some in E as ->. repeat case_decide; simplify_list_eq; done.
    + rewrite decide_False; [done|]. intros ->. by rewrite strip_app in E.
  - destruct (strip p k) as [[|x r]|] eqn:E.
    + apply strip_Some in E as ->. destruct (strip (p ++ j :: q) (p ++ [])) as [r|] eqn:E; [|done].
      apply strip_Some in E. by simplify_list_eq.
    + apply strip_Some in E as ->. destruct (strip (p ++ j :: q) (p ++ x :: r)) as [r'|] eqn:E.
      * apply strip_Some in E. simplify_list_eq. by rewrite decide_True, at_ext, strip_app.
      * case_decide; [subst|done]. rewrite at_ext. destruct (strip q r) as [r'|] eqn:E'; [|done]. apply strip_Some in E' as ->.
        apply strip_None in E. destruct E. exists r'. by rewrite <-app_assoc.
    + destruct (strip (p ++ j :: q) k) as [r|] eqn:E'; [|done]. apply strip_Some in E' as ->.
      by rewrite <-app_assoc, strip_app in E.
Qed.

(** ** Insertion *)
Lemma two_used_insert cs i t : two_used cs → is_used t = true → two_used (<[i := t]> cs).
Proof.
  intros (a&b&c&c'&Hab&Ha&Uc&Hb&Uc') Ut.
  assert (∀ x y, cs !! x = Some y → is_used y = true → ∃ z, <[i := t]> cs !! x = Some z ∧ is_used z = true) as Hx.
  { intros x y Hx Uy. destruct (decide (i = x)) as [->|].
    - exists t. split; [|done]. apply list_lookup_insert_eq. by eapply lookup_lt_Some.
    - exists y. by rewrite list_lookup_insert_ne. }
  destruct (Hx a c Ha Uc) as (?&?&?). destruct (Hx b c' Hb Uc') as (?&?&?). by repeat eexists.
Qed.

Lemma split_ok t n k v : two_item t = true → wf n t → key_ok n k → value_ok v → ¬ t_key t `prefix_of` k →
  wf n (t_split t k v) ∧ ∀ k', key_ok n k' → t_at (t_split t k v) k' = if decide (k' = k) then v else t_at t k'.
Proof.
  intros Ht Hw [Hl Hn] Hv Hp. destruct (lcp_split k (t_key t)) as (p&i&r&j&q&->&Hk&Hij&_); [|done|].
  { destruct t; try done; [destruct Hw as (E&_)|destruct Hw as (_&_&_&E&_)]; cbn; lia. }
  destruct (lower_wf _ _ _ _ _ Ht Hk Hw) as (En&Np&Nj&Wq&Uq).
  apply Forall_app in Hn as [_ Hn]. apply Forall_cons in Hn as [Ni Nr].
  rewrite length_app in Hl. cbn [length] in Hl. rewrite (split_fork _ _ _ _ _ _ _ Hk) by done. split.
  - rewrite En. apply wf_fork; try done. cbn [wf]. split_and!; [lia|done|done].
  - intros k' [_ Nk']. rewrite at_fork by done. rewrite (lower_at _ _ _ _ k' Ht Hk).
    destruct (strip p k') as [[|x r']|] eqn:E.
    + apply strip_Some in E as ->. rewrite decide_False; [done|]. intros E. by simplify_list_eq.
    + apply strip_Some in E as ->. cbn [t_at]. repeat case_decide; simplify_list_eq; done.
    + rewrite decide_False; [done|]. intros ->. by rewrite strip_app in E.
Qed.

Lemma insert_used t k v : wf (length k) t → is_used (t_insert t k v) = true.
Proof.
  destruct t as [|k0 v0|k0 c|cs]; cbn [t_insert]; try done.
  - intros _. case_decide; [done|]. unfold t_split. by destruct (take _ k).
  - intros _. destruct (strip k0 k); [done|]. unfold t_split. by destruct (take _ k).
  - by destruct k.
Qed.
Lemma insert_is_branch t k v : is_branch t = true → is_branch (t_insert t k v) = true.
Proof. destruct t; try done. by destruct k. Qed.

Lemma insert_ok t : ∀ n k v, wf n t → key_ok n k → value_ok v →
  wf n (t_insert t k v) ∧ ∀ k', key_ok n k' → t_at (t_insert t k v) k' = if decide (k' = k) then v else t_at t k'.
Proof.
  induction t as [|k0 v0|k0 c IH|cs IH] using tree_ind'; intros n k v Hw Hk Hv.
  - split; [|done]. destruct Hk. by cbn.
  - cbn [t_insert]. case_decide as E.
    + subst k0. split; [by destruct Hk|]. intros k' _. cbn. by case_decide.
    + apply split_ok; try done. intros Hp. apply E. destruct Hw as (?&_), Hk.
      apply prefix_length_eq; [done|]. cbn. lia.
  - cbn [t_insert]. destruct (strip k0 k) as [r|] eqn:E.
    + apply strip_Some in E as ->. destruct Hw as (?&?&?&?&Hw). destruct (key_ok_app _ _ _ Hk) as (_&_&Hr).
      destruct (IH _ r v Hw Hr Hv) as [W A]. split.
      * cbn [wf]. split_and!; try done. by apply insert_is_branch.
      * intros k' Hk'. cbn [t_at]. destruct (strip k0 k') as [r'|] eqn:E'.
        -- apply strip_Some in E' as ->. destruct (key_ok_app _ _ _ Hk') as (_&_&Hr').
           rewrite A by done. apply decide_ext. split; [by intros ->|apply (inj _)].
        -- rewrite decide_False; [done|]. intros ->. by rewrite strip_app in E'.
    + apply split_ok; try done. cbn. by apply strip_None.
  - destruct n as [|n]; [done|]. destruct k as [|i r]; [by destruct Hk|]. apply key_ok_cons in Hk as [Hi Hr].
    apply wf_branch in Hw as (Hl&Hw&H2). destruct (slot_lookup cs i Hl Hi) as [c Hc].
    rewrite (insert_branch _ _ _ _ _ Hc). rewrite Forall_lookup in IH. pose proof Hw as Hw'.
    rewrite Forall_lookup in Hw'. destruct (IH _ _ Hc n r v (Hw' _ _ Hc) Hr Hv) as [W A]. split.
    + apply wf_branch. split_and!; [by rewrite length_insert|by apply Forall_insert|].
      apply two_used_insert; [done|]. apply insert_used. destruct Hr as [-> _]. by eapply Hw'.
    + intros [|j r'] Hk'; [by destruct Hk'|]. apply key_ok_cons in Hk' as [Hj Hr'].
      destruct (decide (j = i)) as [->|Hji].
      * erewrite at_branch; [|apply list_lookup_insert_eq; by eapply lookup_lt_Some].
        rewrite A, (at_branch _ _ _ _ Hc) by done. apply decide_ext. split; congruence.
      * rewrite decide_False by congruence. destruct (slot_lookup cs j Hl Hj) as [c' Hc'].
        rewrite (at_branch _ _ _ _ Hc'). apply at_branch.
        rewrite list_lookup_insert_ne; [done|unfold is_nibble in *; lia].
Qed.

(** ** Removal *)
Lemma elem_used i : ∀ cs j, i ∈ used_from j cs ↔ (j <= i)%nat ∧ ∃ c, cs !! (i - j)%nat = Some c ∧ is_used c = true.
Proof.
  intros cs. induction cs as [|c cs IH]; intros j; cbn [used_from].
  - split; [by intros ?%not_elem_of_nil|]. by intros [_ (?&?&_)].
  - assert ((j <= i)%nat ∧ (∃ c', (c :: cs) !! (i - j)%nat = Some c' ∧ is_used c' = true) ↔
            (i = j ∧ is_used c = true) ∨ ((S j <= i)%nat ∧ ∃ c', cs !! (i - S j)%nat = Some c' ∧ is_used c' = true)) as E.
    { destruct (decide (i = j)) as [->|Hij].
      - rewrite Nat.sub_diag. split; [intros [_ (?&[= ->]&?)]; by left|]. intros [[_ ?]|[? _]]; [|lia]. split; [lia|eauto].
      - split; [intros [? (c'&Hc&?)]; right|intros [[]|[? (c'&Hc&?)]]; [done|]].
        + split; [lia|]. exists c'. split; [|done]. by replace (i - j)%nat with (S (i - S j)) in Hc by lia.
        + split; [lia|]. exists c'. split; [|done]. by replace (i - j)%nat with (S (i - S j)) by lia. }
    rewrite E. destruct (is_used c); rewrite ?elem_of_cons, IH; [tauto|]. split; [by right|]. by intros [[]|].
Qed.
Lemma used_from_NoDup cs : ∀ j, NoDup (used_from j cs).
Proof.
  induction cs as [|c cs IH]; intros j; cbn; [constructor|]. destruct (is_used c); [|done].
  constructor; [|done]. rewrite elem_used. lia.
Qed.
(** The branch that one child is left of. *)
Lemma collapse_cases cs : (∃ i c, used_from 0 cs = [i] ∧ cs !! i = Some c ∧ is_used c = true ∧
    t_collapse cs = t_graft [Z.of_nat i] c ∧ ∀ j c', cs !! j = Some c' → j ≠ i → c' = TEmpty) ∨
  ((∀ i, used_from 0 cs ≠ [i]) ∧ t_collapse cs = TBranch cs ∧ (used_from 0 cs = [] ∨ two_used cs)).
Proof.
  unfold t_collapse. destruct (used_from 0 cs) as [|i [|j l]] eqn:E; [right; split; [done|]; auto|left|right; split; [done|]].
  - assert (i ∈ used_from 0 cs) as Hi by (rewrite E; left). apply elem_used in Hi as [_ (c&Hc&Uc)].
    rewrite Nat.sub_0_r in Hc. exists i, c. split_and!; try done.
    + f_equal. by apply nth_lookup_Some.
    + intros j c' Hj Hji. destruct c'; try done; exfalso; apply Hji;
        (enough (j ∈ [i]) by set_solver); rewrite <-E; apply elem_used; rewrite Nat.sub_0_r; (split; [lia|eauto]).
  - split; [done|]. right. pose proof (used_from_NoDup cs 0) as Hnd. rewrite E in Hnd.
    assert (i ∈ used_from 0 cs) as Hi by (rewrite E; left). apply elem_used in Hi as [_ (c&Hc&Uc)].
    assert (j ∈ used_from 0 cs) as Hj by (rewrite E; right; left). apply elem_used in Hj as [_ (c'&Hc'&Uc')].
    rewrite Nat.sub_0_r in Hc, Hc'. exists i, j, c, c'. split_and!; try done.
    apply NoDup_cons in Hnd as [Hn _]. set_solver.
Qed.

Lemma collapse_ok m cs : length cs = 16%nat → Forall (wf m) cs → (∃ i c, cs !! i = Some c ∧ is_used c = true) →
  wf (S m) (t_collapse cs) ∧ is_used (t_collapse cs) = true ∧
  ∀ i r, is_nibble i → t_at (t_collapse cs) (i :: r) = t_at (TBranch cs) (i :: r).
Proof.
  intros Hl Hw (i0&c0&Hi0&U0). pose proof Hw as Hw'. rewrite Forall_lookup in Hw'.
  destruct (collapse_cases cs) as [(i&c&_&Hc&Uc&->&Hrest)|(_&->&[E|H2])].
  - pose proof (lookup_lt_Some _ _ _ Hc) as Hlt. assert (nibbles [Z.of_nat i]) as Hn.
    { repeat constructor; unfold is_nibble; lia. }
    split_and!.
    + apply (wf_graft [Z.of_nat i] m c); try done. by eapply Hw'.
    + by destruct c.
    + intros j r Hj. rewrite at_graft. cbn [strip]. case_decide as E.
      * subst j. symmetry. apply at_branch. by rewrite Nat2Z.id.
      * destruct (slot_lookup cs j Hl Hj) as [c' Hc']. rewrite (at_branch _ _ _ _ Hc').
        rewrite (Hrest _ _ Hc'); [done|]. unfold is_nibble in Hj. lia.
  - exfalso. apply (not_elem_of_nil i0). rewrite <-E. apply elem_used. rewrite Nat.sub_0_r. split; [lia|eauto].
  - split_and!; [|done|done]. by apply wf_branch.
Qed.
Lemma two_used_rest cs i t : two_used cs → ∃ j c, <[i := t]> cs !! j = Some c ∧ is_used c = true.
Proof.
  intros (a&b&c&c'&Hab&Ha&Uc&Hb&Uc'). destruct (decide (i = a)) as [->|].
  - exists b, c'. by rewrite list_lookup_insert_ne.
  - exists a, c. by rewrite list_lookup_insert_ne.
Qed.

(** What a removal leaves: nothing changed and the key was not there, or the tree
    without it; a branch never vanishes. *)
Lemma t_remove_ok t : ∀ n k, wf n t → key_ok n k →
  match t_remove t k with
  | None => t_at t k = []
  | Some t' => wf n t' ∧ (is_branch t = true → is_used t' = true) ∧ t_at t k ≠ [] ∧
      ∀ k', key_ok n k' → t_at t' k' = if decide (k' = k) then [] else t_at t k'
  end.
Proof.
  induction t as [|k0 v0|k0 c IH|cs IH] using tree_ind'; intros n k Hw Hk.
  - done.
  - cbn [t_remove t_at]. case_decide as E; [|by rewrite decide_False].
    destruct Hw as (_&_&Hv&_). subst. rewrite decide_True by done. split_and!; try done.
    intros k' _. cbn. by case_decide.
  - cbn [t_remove t_at]. destruct (strip k0 k) as [r|] eqn:E; [|done]. apply strip_Some in E as ->.
    destruct Hw as (Hk0&Nk0&Hb&Hle&Hw). destruct (key_ok_app _ _ _ Hk) as (_&_&Hr).
    specialize (IH _ r Hw Hr). destruct (t_remove c r) as [c'|]; [|done]. destruct IH as (W&U&N&A).
    split_and!; try done.
    + replace n with (length k0 + (n - length k0))%nat by lia. apply wf_graft; auto.
    + intros k' Hk'. rewrite at_graft. destruct (strip k0 k') as [r'|] eqn:E'.
      * apply strip_Some in E' as ->. destruct (key_ok_app _ _ _ Hk') as (_&_&Hr').
        rewrite A by done. apply decide_ext. split; [by intros ->|apply (inj _)].
      * by destruct (decide (k' = k0 ++ r)).
  - destruct n as [|n]; [done|]. destruct k as [|i r]; [by destruct Hk|]. apply key_ok_cons in Hk as [Hi Hr].
    apply wf_branch in Hw as (Hl&Hw&H2). destruct (slot_lookup cs i Hl Hi) as [c Hc].
    rewrite (remove_branch _ _ _ _ Hc), (at_branch _ _ _ _ Hc). rewrite Forall_lookup in IH.
    pose proof Hw as Hw'. rewrite Forall_lookup in Hw'. specialize (IH _ _ Hc n r (Hw' _ _ Hc) Hr).
    destruct (t_remove c r) as [c'|]; [|done]. destruct IH as (W&_&N&A). cbn [fmap option_fmap option_map].
    destruct (collapse_ok n (<[Z.to_nat i := c']> cs)) as (Wc&Uc&Ac);
      [by rewrite length_insert|by apply Forall_insert|by apply two_used_rest|].
    split_and!; try done. intros [|j r'] Hk'; [by destruct Hk'|]. apply key_ok_cons in Hk' as [Hj Hr'].
    rewrite Ac by done. destruct (decide (j = i)) as [->|Hji].
    + erewrite at_branch; [|apply list_lookup_insert_eq; by eapply lookup_lt_Some].
      rewrite A, (at_branch _ _ _ _ Hc) by done. apply decide_ext. split; congruence.
    + rewrite decide_False by congruence. destruct (slot_lookup cs j Hl Hj) as [c'' Hc''].
      rewrite (at_branch _ _ _ _ Hc''). apply at_branch.
      rewrite list_lookup_insert_ne; [done|unfold is_nibble in *; lia].
Qed.
Lemma delete_ok t n k : wf n t → key_ok n k →
  wf n (t_delete t k) ∧ ∀ k', key_ok n k' → t_at (t_delete t k) k' = if decide (k' = k) then [] else t_at t k'.
Proof.
  intros Hw Hk. pose proof (t_remove_ok t n k Hw Hk) as H. unfold t_delete.
  destruct (t_remove t k) as [t'|]; cbn; [by destruct H as (?&_&_&?)|].
  split; [done|]. intros k' _. by case_decide; subst.
Qed.

(** ** A canonical tree is its map *)
Lemma used_has_key t : ∀ n, wf n t → is_used t = true → ∃ k, key_ok n k ∧ t_at t k ≠ [].
Proof.
  induction t as [|k0 v0|k0 c IH|cs IH] using tree_ind'; intros n Hw Hu; [done|..].
  - destruct Hw as (?&?&?&_). exists k0. cbn. by rewrite decide_True.
  - destruct Hw as (_&?&Hb&?&Hw). destruct (IH _ Hw) as (k&[Hl ?]&?); [by destruct c|].
    exists (k0 ++ k). cbn. rewrite strip_app. split; [|done]. split; [rewrite length_app; lia|by apply Forall_app].
  - destruct n as [|n]; [done|]. apply wf_branch in Hw as (Hl&Hw&i&j&c&c'&_&Hc&Uc&_).
    rewrite Forall_lookup in IH, Hw. destruct (IH _ _ Hc n (Hw _ _ Hc) Uc) as (k&Hk&?).
    pose proof (lookup_lt_Some _ _ _ Hc). exists (Z.of_nat i :: k).
    rewrite (at_branch cs _ c) by (by rewrite Nat2Z.id). split; [|done].
    apply key_ok_cons. split; [unfold is_nibble; lia|done].
Qed.
(** A branch holds keys with different first nibbles. *)
Lemma branch_two_keys cs n : wf (S n) (TBranch cs) →
  ∃ i j r q, i ≠ j ∧ key_ok (S n) (i :: r) ∧ key_ok (S n) (j :: q) ∧
    t_at (TBranch cs) (i :: r) ≠ [] ∧ t_at (TBranch cs) (j :: q) ≠ [].
Proof.
  intros (Hl&Hw&i&j&c&c'&Hij&Hc&Uc&Hc'&Uc')%wf_branch. rewrite Forall_lookup in Hw.
  destruct (used_has_key _ _ (Hw _ _ Hc) Uc) as (r&Hr&?). destruct (used_has_key _ _ (Hw _ _ Hc') Uc') as (q&Hq&?).
  pose proof (lookup_lt_Some _ _ _ Hc). pose proof (lookup_lt_Some _ _ _ Hc').
  exists (Z.of_nat i), (Z.of_nat j), r, q. split; [lia|]. rewrite !key_ok_cons.
  rewrite (at_branch cs _ c), (at_branch cs _ c') by (by rewrite Nat2Z.id). unfold is_nibble.
  split_and!; first [done|lia].
Qed.
(** So does, behind its key, an extension. *)
Definition inner (t : tree) : bool := match t with TExt _ _ | TBranch _ => true | _ => false end.
Lemma inner_two_keys t n : wf n t → inner t = true →
  ∃ i j r q, i ≠ j ∧ key_ok n (t_key t ++ i :: r) ∧ key_ok n (t_key t ++ j :: q) ∧
    t_at t (t_key t ++ i :: r) ≠ [] ∧ t_at t (t_key t ++ j :: q) ≠ [].
Proof.
  intros Hw Ht. destruct t as [|k v|k c|cs]; try done.
  - destruct Hw as (_&Hk&Hb&Hl&Hw). destruct c as [| | |cs]; try done.
    destruct (n - length k)%nat as [|m] eqn:E; [done|].
    destruct (branch_two_keys cs m Hw) as (i&j&r&q&Hij&[Hi1 Hi2]&[Hj1 Hj2]&?&?). exists i, j, r, q.
    cbn [t_key]. cbn [t_at]. rewrite !strip_app. unfold key_ok, nibbles. rewrite !Forall_app, !length_app.
    split_and!; try done; lia.
  - destruct n as [|n]; [done|]. by apply branch_two_keys.
Qed.
Lemma at_key_prefix t k : t_at t k ≠ [] → t_key t `prefix_of` k.
Proof.
  destruct t as [|k0 v|k0 c|cs]; cbn; [done|..].
  - by case_decide; subst.
  - destruct (strip k0 k) as [r|] eqn:E; [|done]. apply strip_Some in E as ->. intros _. by apply prefix_app_r.
  - intros _. apply prefix_nil.
Qed.

Definition same_map (n : nat) (t u : tree) : Prop := ∀ k, key_ok n k → t_at t k = t_at u k.
#[export] Instance same_map_equiv n : Equivalence (same_map n).
Proof. split; [done|by intros t u H k Hk; rewrite H|]. intros t u w H1 H2 k Hk. by rewrite H1, H2. Qed.

(** The key of an inner node is the longest prefix its keys share. *)
Lemma same_map_key_le n t u : wf n t → inner t = true → same_map n t u → t_key u `prefix_of` t_key t.
Proof.
  intros Hw Ht E. destruct (inner_two_keys t n Hw Ht) as (i&j&r&q&Hij&Hi&Hj&Pi&Pj).
  rewrite E in Pi, Pj by done. apply at_key_prefix in Pi, Pj.
  destruct (prefix_weak_total (t_key u) (t_key t) (t_key t ++ i :: r)) as [|[s Hs]];
    [done|by apply prefix_app_r|done|].
  destruct s as [|x s]; [by rewrite app_nil_r in Hs; rewrite Hs|]. rewrite Hs in *.
  apply prefix_app_inv, prefix_cons_inv_1 in Pi. apply prefix_app_inv, prefix_cons_inv_1 in Pj. congruence.
Qed.
Lemma same_map_used n t u : wf n t → same_map n t u → is_used t = true → is_used u = true.
Proof. intros Hw E Hu. destruct (used_has_key t n Hw Hu) as (k&Hk&Hn). rewrite E in Hn by done. by destruct u. Qed.
Lemma same_map_inner n t u : wf n t → same_map n t u → inner t = true → inner u = true.
Proof.
  intros Hw E Ht. destruct (inner_two_keys t n Hw Ht) as (i&j&r&q&Hij&Hi&Hj&Pi&Pj).
  rewrite E in Pi, Pj by done. destruct u as [|k v| |]; try done. cbn in Pi, Pj.
  repeat case_decide; try done. by simplify_list_eq.
Qed.
Lemma same_map_key n t u : wf n t → wf n u → same_map n t u → inner t = true → t_key t = t_key u.
Proof.
  intros Ht Hu E It. pose proof (same_map_inner _ _ _ Ht E It).
  apply (anti_symm prefix); [by apply (same_map_key_le n u)|by apply (same_map_key_le n t)].
Qed.

Lemma same_map_eq t : ∀ n u, wf n t → wf n u → same_map n t u → t = u.
Proof.
  induction t as [|k v|k c IH|cs IH] using tree_ind'; intros n u Ht Hu E.
  - destruct u; try done; by apply same_map_used with (u := TEmpty) in Hu.
  - pose proof (same_map_used _ _ _ Ht E eq_refl) as Uu. destruct u as [|k' v'| |]; try done.
    + destruct Ht as (?&?&?&_). specialize (E k ltac:(done)). cbn in E. rewrite decide_True in E by done.
      case_decide; by subst.
    + by apply same_map_inner with (u := TLeaf k v) in Hu.
    + by apply same_map_inner with (u := TLeaf k v) in Hu.
  - pose proof (same_map_inner _ _ _ Ht E eq_refl) as Iu. pose proof (same_map_key _ _ _ Ht Hu E eq_refl) as Ek.
    destruct u as [| |k' c'|cs']; try done; cbn in Ek; [subst k'|by destruct Ht; subst].
    f_equal. destruct Ht as (_&Hk&_&Hl&Ht), Hu as (_&_&_&_&Hu). apply (IH _ _ Ht Hu).
    intros r [Hr ?]. specialize (E (k ++ r)). cbn in E. rewrite !strip_app in E. apply E.
    split; [rewrite length_app; lia|by apply Forall_app].
  - pose proof (same_map_inner _ _ _ Ht E eq_refl) as Iu. pose proof (same_map_key _ _ _ Ht Hu E eq_refl) as Ek.
    destruct u as [| |k' c'|cs']; try done; cbn in Ek; [by destruct Hu; subst|]. f_equal.
    destruct n as [|n]; [done|]. apply wf_branch in Ht as (Hl&Ht&_), Hu as (Hl'&Hu&_).
    apply list_eq_same_length with 16%nat; [done..|]. intros i c c' Hi Hc Hc'.
    rewrite Forall_lookup in IH, Ht, Hu. apply (IH _ _ Hc n); [by eapply Ht|by eapply Hu|].
    intros r Hr. specialize (E (Z.of_nat i :: r)).
    rewrite (at_branch cs _ c), (at_branch cs' _ c') in E by (by rewrite Nat2Z.id). apply E.
    apply key_ok_cons. split; [unfold is_nibble; lia|done].
Qed.
