(* ===== verification/TrieCode.v ===== *)
(** * The encoding of a tree

    [node_item] is the RLP item of a node: children stand in it, or are named by
    their hash.  The code reads such nodes back ([read_pair], [read_branch]) and
    its streams write them ([stream_of]). *)
From stdpp Require Import base gmap list.
From Stdlib Require Import ZArith Lia.
From S2P Require Import Prelude Rlp RlpProofs Interfaces Trie TrieNibbles TrieTree.
Open Scope Z_scope.

(** ** Sizes *)
Lemma header_len start s : 0 <= s < SIZE_MAX → 1 <= len (header start s) <= 9.
Proof.
  intros Hs. unfold header. destruct (Z.ltb_spec s 56); [by cbn|].
  pose proof (bytesRequired_bounds s ltac:(lia)). unfold bytesRequired in *. cbn [length]. lia.
Qed.
Lemma encode_data_len b : len b < SIZE_MAX → len (encode (Data b)) <= len b + 9.
Proof.
  intros Hb. cbn [encode]. destruct (encode_data_cases b) as [(x&->&_&E)|[E _]]; rewrite E; [by cbn|].
  rewrite length_app. pose proof (header_len 0x80 (len b) ltac:(lia)). lia.
Qed.
Lemma encode_items_len l : len (concat (encode <$> l)) < SIZE_MAX →
  len (encode (Items l)) <= len (concat (encode <$> l)) + 9.
Proof. intros Hl. rewrite length_encode_items. pose proof (header_len 0xc0 _ (conj (Nat2Z.is_nonneg _) Hl)). lia. Qed.

(** ** Streams *)

(** A stream opened for [n] items, after the items [l]. *)
Definition stream_of (n : nat) (l : list rlp_item) : RLPStream :=
  if decide (length l = n) then mkStream (encode (Items l)) []
  else mkStream (concat (encode <$> l)) [(Z.of_nat (n - length l), 0%nat)].

Lemma stream_start n : rlp_stream (Z.of_nat (S n)) = Ok (stream_of (S n) []).
Proof. done. Qed.
Lemma stream_append L l x r : L = l ++ x :: r → item_ok (Items L) →
  appended x (stream_of (length L) l) = Ok (stream_of (length L) (l ++ [x])).
Proof.
  intros HL [_ Hs]. rewrite length_encode_items in Hs.
  assert (length L = length l + S (length r))%nat as Hlen by (by rewrite HL, length_app).
  unfold stream_of. rewrite decide_False by lia. unfold appended, noteAppended, push. cbn [m_out m_listStack Z.eqb].
  rewrite length_app. cbn [length].
  assert (len (concat (encode <$> l) ++ encode x) <= len (concat (encode <$> L))) as Hle.
  { rewrite HL, fmap_app, concat_app. cbn. rewrite !length_app. lia. }
  rewrite Hlen. destruct r as [|y r]; cbn [length] in *.
  - rewrite decide_True by lia. replace (length l + 1 - length l)%nat with 1%nat by lia.
    assert (len (concat (encode <$> l) ++ encode x) < SIZE_MAX) as Hlt by lia.
    pose proof (note_loop_close [] (concat (encode <$> l) ++ encode x) [] Hlt) as E.
    cbn [app length] in E. change (Z.of_nat 1) with 1. rewrite E. cbn [note_loop]. do 2 f_equal.
    cbn [encode]. rewrite fmap_app, concat_app. cbn. by rewrite app_nil_r.
  - rewrite decide_False by lia. cbn [note_loop]. rewrite bool_decide_eq_true_2 by lia.
    destruct (Z.ltb_spec (Z.of_nat (length l + S (S (length r)) - length l)) 1); [lia|].
    do 2 f_equal; [by rewrite fmap_app, concat_app; cbn; rewrite app_nil_r|]. do 2 f_equal. lia.
Qed.
Lemma stream_out n l : length l = n → out (stream_of n l) = Ok (encode (Items l)).
Proof. intros Hl. unfold stream_of. by rewrite decide_True. Qed.

Lemma append_rlp_appended x s : append_rlp (encode x) s = appended x s.
Proof. done. Qed.
Lemma append_hash_appended h s : append_hash h s = appended (rlp_hash 32 h) s.
Proof. apply append_bytes_encode, item_ok_hash. lia. Qed.

(** [rlpList] of two items. *)
Lemma rlpList_ok f g x y : (∀ s, f s = appended x s) → (∀ s, g s = appended y s) → item_ok (Items [x; y]) →
  rlpList f g = Ok (encode (Items [x; y])).
Proof.
  intros Hf Hg Hok. unfold rlpList. change (rlp_stream 2) with (Ok (stream_of 2 [])). cbn [mbind outcome_bind].
  pose proof (stream_append [x; y] [] x [y] eq_refl Hok) as E1. cbn [length app] in E1. rewrite Hf, E1. cbn [mbind outcome_bind].
  pose proof (stream_append [x; y] [x] y [] eq_refl Hok) as E2. cbn [length app] in E2. rewrite Hg, E2. by apply stream_out.
Qed.

(** ** Emptiness *)
Lemma header_head start s : 0 <= s < SIZE_MAX → ∃ l, header start s = (start + (if s <? 56 then s else 55 + bytesRequired s)) :: l.
Proof.
  intros Hs. unfold header. destruct (Z.ltb_spec s 56); [by eexists|]. eexists. f_equal. lia.
Qed.
Lemma isEmpty_data b : item_ok (Data b) → rlp_isEmpty (encode (Data b)) = bool_decide (b = []).
Proof.
  intros Hok. unfold rlp_isEmpty. rewrite isNull_ok by done. destruct Hok as [Hb Hl].
  cbn [encode negb andb] in *. rlp_consts.
  destruct (encode_data_cases b) as [(x&->&Hx&E)|[E _]]; rewrite E in *.
  - rewrite byte_at_0, bool_decide_eq_false_2 by done. by zcases.
  - rewrite length_app in Hl. destruct (header_head 0x80 (len b) ltac:(lia)) as [l ->]. cbn [app]. rewrite byte_at_0.
    destruct b as [|x b]; [done|]. rewrite bool_decide_eq_false_2 by done. cbn [length] in *.
    destruct (Z.ltb_spec (Z.of_nat (S (length b))) 56); [by zcases|].
    pose proof (bytesRequired_bounds (Z.of_nat (S (length b))) ltac:(lia)). by zcases.
Qed.
Lemma isEmpty_items x l : item_ok (Items (x :: l)) → rlp_isEmpty (encode (Items (x :: l))) = false.
Proof.
  intros Hok. unfold rlp_isEmpty. rewrite isNull_ok by done. cbn [negb andb]. rlp_consts.
  pose proof (item_ok_items _ Hok) as [Hx _]%Forall_cons. pose proof (encode_nonempty x Hx) as Hne.
  destruct Hok as [_ Hl]. rewrite length_encode_items in Hl. cbn [encode]. set (p := concat _) in *.
  assert (0 < len p). { unfold p. cbn. rewrite length_app. destruct (encode x); [done|]. cbn [length]. lia. }
  destruct (header_head 0xc0 (len p) ltac:(lia)) as [l' ->]. cbn [app]. rewrite byte_at_0.
  destruct (Z.ltb_spec (len p) 56); [by zcases|]. pose proof (bytesRequired_bounds (len p) ltac:(lia)). by zcases.
Qed.

(** ** Reading a pair and a branch *)
Definition pair_item (leaf : bool) (k : list Z) (x : rlp_item) : rlp_item := Items [Data (hp leaf k); x].

Section ReadPair.
Context (leaf : bool) (k : list Z) (x : rlp_item) (Hok : item_ok (pair_item leaf k x)) (Hk : nibbles k).

Lemma pair_parts : item_ok (Data (hp leaf k)) ∧ item_ok x.
Proof using Hok. by pose proof (item_ok_items _ Hok) as [? [? _]%Forall_cons]%Forall_cons. Qed.
Lemma pair_isEmpty : rlp_isEmpty (encode (pair_item leaf k x)) = false.
Proof using Hok. by apply isEmpty_items. Qed.
Lemma pair_count : itemCount (encode (pair_item leaf k x)) = Ok 2.
Proof using Hok. by apply (itemCount_ok [Data (hp leaf k); x]). Qed.
Lemma pair_item0 : item (encode (pair_item leaf k x)) 0 = Ok (encode (Data (hp leaf k))).
Proof using Hok. by apply item_lookup. Qed.
Lemma pair_item1 : item (encode (pair_item leaf k x)) 1 = Ok (encode x).
Proof using Hok. by apply item_lookup. Qed.
Lemma pair_keyOf : keyOf (encode (pair_item leaf k x)) = Ok (keyOf_hpe (hp leaf k)).
Proof using Hok. unfold keyOf. rewrite pair_item0. cbn [mbind outcome_bind]. by rewrite payload_ok by apply pair_parts. Qed.
Lemma pair_isLeaf : isLeaf (encode (pair_item leaf k x)) = Ok leaf.
Proof using Hok Hk.
  unfold isLeaf. rewrite pair_item0. cbn [mbind outcome_bind]. rewrite payload_ok by apply pair_parts.
  cbn [mbind outcome_bind payload_of]. destruct (hp_cons leaf k Hk) as (b&l&->&_&_&->&_). by destruct leaf.
Qed.
End ReadPair.

Section Nodes.
Context `{Crypto}.

(** How a parent holds a child, and the item of a node. *)
Definition ref_item (x : rlp_item) : rlp_item :=
  if len (encode x) <? 32 then x else rlp_hash 32 (sha3 (encode x)).
Fixpoint node_item (t : tree) : rlp_item :=
  match t with
  | TEmpty => Data []
  | TLeaf k v => pair_item true k (Data v)
  | TExt k c => pair_item false k (ref_item (node_item c))
  | TBranch cs => Items (((λ c, ref_item (node_item c)) <$> cs) ++ [Data []])
  end.
Definition enc (t : tree) : bytes := encode (node_item t).
Definition child_item (t : tree) : rlp_item := ref_item (node_item t).

Lemma ref_item_ok x : item_bytes x → item_ok (ref_item x) ∧ len (encode (ref_item x)) <= 33.
Proof.
  intros Hx. unfold ref_item. destruct (Z.ltb_spec (len (encode x)) 32) as [Hl|_].
  - split; [split; [done|unfold SIZE_MAX]|]; lia.
  - split; [apply item_ok_hash; lia|]. cbn [encode rlp_hash].
    destruct (encode_data_cases (toBE_n 32 (sha3 (encode x)))) as [(y&E&_)|[E _]].
    + apply (f_equal length) in E. by rewrite length_toBE_n in E.
    + rewrite E, length_app, length_toBE_n. unfold header. by cbn.
Qed.
(** A node that fits the encoding: its parts do, and so does its key. *)
Definition small_key (k : list Z) : Prop := nibbles k ∧ len k < 2 ^ 30.
Lemma pair_ok leaf k x : small_key k → item_ok x → len (encode x) < 2 ^ 40 → item_ok (pair_item leaf k x).
Proof.
  intros [Hk Hl] [Hx _] Hs. pose proof (length_hp leaf k). split.
  - apply item_bytes_items. repeat constructor; [by apply hp_bytes|done].
  - unfold pair_item. pose proof (encode_data_len (hp leaf k)) as Hd. unfold SIZE_MAX in *.
    pose proof (encode_items_len [Data (hp leaf k); x]) as Hi. cbn [fmap list_fmap concat] in Hi.
    rewrite !length_app in Hi. cbn [length] in Hi. unfold SIZE_MAX in Hi. lia.
Qed.
Lemma value_item_ok v : value_ok v → item_ok (Data v) ∧ len (encode (Data v)) < 2 ^ 40.
Proof.
  intros (_&Hv&Hl). pose proof (encode_data_len v) as Hd. unfold SIZE_MAX in Hd.
  split; [split; [done|unfold SIZE_MAX]|]; lia.
Qed.
Lemma concat_len_le {A} (f : A → bytes) l n : (∀ x, x ∈ l → len (f x) <= n) → len (concat (f <$> l)) <= n * len l.
Proof.
  induction l as [|x l IH]; intros Hn; cbn; [lia|]. rewrite length_app.
  specialize (IH ltac:(set_solver)). specialize (Hn x ltac:(set_solver)). lia.
Qed.
Lemma branch_ok cs : length cs = 16%nat → Forall (λ c, item_bytes (node_item c)) cs → item_ok (node_item (TBranch cs)).
Proof.
  intros Hl Hc. rewrite Forall_forall in Hc. split.
  - apply item_bytes_items, Forall_app. split; [|by repeat constructor]. apply Forall_fmap, Forall_forall.
    intros c Hin. apply (ref_item_ok _ (Hc _ Hin)).
  - cbn [node_item]. set (l := _ ++ [Data []]). assert (len (concat (encode <$> l)) <= 33 * 17) as Hlen.
    { replace 17 with (len l) by (unfold l; rewrite length_app, length_fmap, Hl; done).
      apply concat_len_le. intros x [Hx|Hx]%elem_of_app.
      - apply list_elem_of_fmap in Hx as (c&->&Hin). apply (ref_item_ok _ (Hc _ Hin)).
      - apply list_elem_of_singleton in Hx as ->. by cbn. }
    pose proof (encode_items_len l) as Hi. unfold SIZE_MAX in *. lia.
Qed.
Lemma node_bytes t : ∀ n, wf n t → item_bytes (node_item t).
Proof.
  induction t as [|k v|k c IH|cs IH] using tree_ind'; intros n Hw.
  - by repeat constructor.
  - destruct Hw as (_&Hk&_&Hv&_). apply item_bytes_items. repeat constructor; [by apply hp_bytes|done].
  - destruct Hw as (_&Hk&_&_&Hw). apply item_bytes_items. repeat constructor; [by apply hp_bytes|].
    apply (ref_item_ok _ (IH _ Hw)).
  - destruct n as [|n]; [done|]. apply wf_branch in Hw as (Hl&Hw&_). apply branch_ok; [done|].
    apply Forall_lookup. intros i c Hc. rewrite Forall_lookup in IH, Hw. eapply IH; eauto.
Qed.

(** The nodes the operations meet: canonical trees over keys of [n] nibbles, and the
    extensions of non-canonical ones that stand in for them half way. *)
Definition codable (t : tree) : Prop := item_ok (node_item t).
Lemma wf_codable n t : Z.of_nat n < 2 ^ 30 → wf n t → codable t.
Proof.
  intros Hn Hw. destruct t as [|k v|k c|cs].
  - by apply item_ok_small; [constructor|cbn; lia].
  - destruct Hw as (?&Hk&Hv). apply value_item_ok in Hv as [??]. apply pair_ok; [|done|done]. split; [done|lia].
  - destruct Hw as (_&Hk&_&Hl&Hw). destruct (ref_item_ok _ (node_bytes _ _ Hw)).
    apply pair_ok; [|done|eapply Z.le_lt_trans; [eassumption|done]]. split; [done|lia].
  - destruct n as [|n]; [done|]. apply wf_branch in Hw as (Hl&Hw&_). apply branch_ok; [done|].
    eapply Forall_impl; [exact Hw|]. intros. by eapply node_bytes.
Qed.
Lemma ext_codable k c : small_key k → codable c → codable (TExt k c).
Proof. intros Hk [Hc _]. destruct (ref_item_ok _ Hc). apply pair_ok; [done|done|by eapply Z.le_lt_trans]. Qed.
Lemma leaf_codable k v : small_key k → value_ok v → codable (TLeaf k v).
Proof. intros Hk Hv. apply value_item_ok in Hv as [??]. by apply pair_ok. Qed.
Lemma branch_codable cs : length cs = 16%nat → Forall codable cs → codable (TBranch cs).
Proof. intros Hl Hc. apply branch_ok; [done|]. eapply Forall_impl; [exact Hc|]. by intros ? []. Qed.
Lemma empty_codable : codable TEmpty.
Proof. by apply item_ok_small; [constructor|cbn; lia]. Qed.
Lemma child_ok t : codable t → item_ok (child_item t).
Proof. intros [Hb _]. apply (ref_item_ok _ Hb). Qed.
End Nodes.
