(* ===== verification/TrieStore.v ===== *)
(** * Nodes in the database

    [moves]: what a run of trie operations may do to the database.  It never loses a
    node that could be looked up, and the reference counts move at least as much as
    the nodes that were released and filed.  Hashes name nodes: [U] is a set of byte
    strings on which the hash has no collision, and [db_ok] says that the database
    holds members of [U] only, each under its hash. *)
From stdpp Require Import base gmap list.
From Stdlib Require Import ZArith Lia.
From S2P Require Import Prelude Rlp RlpProofs Interfaces Trie TrieNibbles TrieTree TrieCode.
Open Scope Z_scope.

Definition refs (d : OverlayDB) (h : h256) : Z := match m_main d !! h with Some (_, n) => n | None => 0 end.

Section Store.
Context `{Crypto} (U : bytes → Prop).

(** How many of the strings have this hash. *)
Definition cnt (l : list bytes) (h : h256) : Z := sumZ (λ b, if sha3 b =? h then 1 else 0) l.
Definition in_db (d : OverlayDB) (b : bytes) : Prop := b ≠ [] ∧ db_lookup (sha3 b) d = b.
Definition stored (d : OverlayDB) (l : list bytes) : Prop := Forall (in_db d) l.
Definition collision_free : Prop := ∀ a b, U a → U b → sha3 a = sha3 b → a = b.
(** Every count has room for [n] more. *)
Definition room (n : nat) (d : OverlayDB) : Prop := ∀ h, refs d h + Z.of_nat n < 2 ^ 32.

(** Byte strings of [U], under their hashes, in memory and on disk. *)
Record db_ok (d : OverlayDB) : Prop := {
  ok_refs_off : m_enforceRefs d = false;
  ok_main : ∀ h v n, m_main d !! h = Some (v, n) → v ≠ [] ∧ U v ∧ sha3 v = h ∧ 0 <= n;
  ok_disk : ∀ h v, in256 h → disk_lookup (disk_key h) d = v → v ≠ [] → U v ∧ sha3 v = h
}.

Record moves (n : nat) (d d' : OverlayDB) (old new : list bytes) : Prop := {
  mv_keep : ∀ h, db_lookup h d ≠ [] → db_lookup h d' = db_lookup h d;
  mv_refs : ∀ h, refs d h + cnt new h - cnt old h <= refs d' h <= refs d h + Z.of_nat n;
  mv_disk : m_db d' = m_db d;
  mv_ok : db_ok d'
}.

Lemma cnt_app a b h : cnt (a ++ b) h = cnt a h + cnt b h.
Proof. apply sumZ_app. Qed.
Lemma cnt_nil h : cnt [] h = 0.
Proof. done. Qed.
Lemma cnt_nonneg l h : 0 <= cnt l h.
Proof. apply sumZ_nonneg. intros b _. by destruct (sha3 b =? h). Qed.
Lemma cnt_pos l b : b ∈ l → 1 <= cnt l (sha3 b).
Proof.
  induction 1 as [b l|b c l _ IH]; unfold cnt; rewrite sumZ_cons.
  - rewrite Z.eqb_refl. pose proof (cnt_nonneg l (sha3 b)). unfold cnt in *. lia.
  - unfold cnt in *. destruct (sha3 c =? sha3 b); lia.
Qed.

Lemma moves_refl d : db_ok d → moves 0 d d [] [].
Proof. intros Hd. split; [done| |done|done]. intros h. rewrite !cnt_nil. lia. Qed.
Lemma moves_trans n1 n2 d1 d2 d3 o1 o2 w1 w2 :
  moves n1 d1 d2 o1 w1 → moves n2 d2 d3 o2 w2 → moves (n1 + n2) d1 d3 (o1 ++ o2) (w1 ++ w2).
Proof.
  intros [K1 R1 D1 _] [K2 R2 D2 O2]. split; [|..|congruence|done].
  - intros h Hh. rewrite K2, K1; [done|done|]. by rewrite K1.
  - intros h. specialize (R1 h). specialize (R2 h). rewrite !cnt_app. lia.
Qed.
(** Only the balance of filed and released nodes matters. *)
Lemma moves_weaken n m d d' o w o' w' :
  moves n d d' o w → (n <= m)%nat → (∀ h, cnt w' h - cnt o' h <= cnt w h - cnt o h) → moves m d d' o' w'.
Proof.
  intros [K R D O] Hn Hb. split; [done| |done|done]. intros h. specialize (R h). specialize (Hb h). lia.
Qed.
Lemma moves_in_db n d d' o w b : moves n d d' o w → in_db d b → in_db d' b.
Proof. intros Hm [Hb Hl]. split; [done|]. rewrite (mv_keep _ _ _ _ _ Hm); [done|]. by rewrite Hl. Qed.
Lemma moves_stored n d d' o w l : moves n d d' o w → stored d l → stored d' l.
Proof. intros Hm Hl. eapply Forall_impl; [exact Hl|]. intros b. by eapply moves_in_db. Qed.
Lemma moves_room n m d d' o w : moves n d d' o w → room (n + m) d → room m d'.
Proof. intros Hm Hr h. specialize (Hr h). pose proof (mv_refs _ _ _ _ _ Hm h). lia. Qed.
Lemma room_le n m d : room n d → (m <= n)%nat → room m d.
Proof. intros Hr Hle h. specialize (Hr h). lia. Qed.

(** ** One node filed, one node released *)
Lemma ok_counts d h : db_ok d → 0 <= refs d h.
Proof. intros Hd. unfold refs. destruct (m_main d !! h) as [[v n]|] eqn:E; [|done]. apply (ok_main _ Hd _ _ _ E). Qed.
Lemma lookup_main d h : db_ok d →
  db_lookup h d = match m_main d !! h with Some (v, _) => v | None => disk_lookup (disk_key h) d end.
Proof.
  intros Hd. unfold db_lookup, cache_lookup. rewrite (ok_refs_off _ Hd). cbn [negb orb].
  destruct (m_main d !! h) as [[v n]|] eqn:E; [|done]. destruct (ok_main _ Hd _ _ _ E). by rewrite bool_decide_eq_true_2.
Qed.
Lemma ok_filed d h : db_ok d → in256 h → db_lookup h d ≠ [] → U (db_lookup h d) ∧ sha3 (db_lookup h d) = h.
Proof.
  intros Hd Hh. rewrite lookup_main by done. destruct (m_main d !! h) as [[v n]|] eqn:E.
  - by destruct (ok_main _ Hd _ _ _ E) as (?&?&?&_).
  - by apply (ok_disk _ Hd).
Qed.

Lemma file_node b d : (∀ b, in256 (sha3 b)) → collision_free → db_ok d → U b → b ≠ [] → room 1 d →
  ∃ d', forceInsertNode b d = (Ok (sha3 b), d') ∧ moves 1 d d' [] [b] ∧ in_db d' b.
Proof.
  intros Hs Hcf Hd HU Hb Hr. eexists. split; [done|]. set (d' := cache_insert (sha3 b) b d).
  set (n := refs d (sha3 b) + 1). pose proof (ok_counts d (sha3 b) Hd) as Hc.
  assert (m_main d' = <[sha3 b := (b, n)]> (m_main d) ∧ m_db d' = m_db d ∧ m_enforceRefs d' = false) as (Em&Ed&Ee).
  { specialize (Hr (sha3 b)). unfold d', cache_insert, n, refs in *.
    destruct (m_main d !! sha3 b) as [[v c]|]; cbn [m_main m_db m_enforceRefs].
    - rewrite u32_small by lia. split_and!; [done|done|apply Hd].
    - split_and!; [done|done|apply Hd]. }
  assert (db_ok d') as Hd'.
  { split; [done|..].
    - intros h v c Hh. rewrite Em in Hh. apply lookup_insert_Some in Hh as [[<- [= <- <-]]|[_ Hh]]; [|by apply (ok_main _ Hd h)].
      split_and!; try done. unfold n. lia.
    - unfold disk_lookup. rewrite Ed. apply Hd. }
  assert (∀ h, refs d' h = refs d h + cnt [b] h) as Hrefs.
  { intros h. unfold refs at 1. rewrite Em. unfold cnt. rewrite sumZ_cons, sumZ_nil.
    destruct (Z.eqb_spec (sha3 b) h) as [<-|Hne]; [rewrite lookup_insert_eq; unfold n; lia|].
    rewrite lookup_insert_ne by done. unfold refs. lia. }
  assert (∀ h, db_lookup h d' = if decide (h = sha3 b) then b else db_lookup h d) as Hl.
  { intros h. rewrite !lookup_main, Em by done. unfold disk_lookup. rewrite Ed.
    case_decide as E; [subst h; by rewrite lookup_insert_eq|]. by rewrite lookup_insert_ne by done. }
  split; [|split; [done|]; by rewrite Hl, decide_True]. split; [..|done|done].
  - intros h Hh. rewrite Hl. case_decide as E; [|done]. subst h. destruct (ok_filed _ _ Hd (Hs b) Hh). by apply Hcf.
  - intros h. rewrite Hrefs, cnt_nil. unfold cnt. rewrite sumZ_cons, sumZ_nil. destruct (sha3 b =? h); lia.
Qed.

Lemma release_node b d : db_ok d →
  ∃ d', forceKillNode (sha3 b) d = (Ok tt, d') ∧ moves 0 d d' [b] [].
Proof.
  intros Hd. eexists. split; [done|]. unfold db_kill, cache_kill.
  destruct (m_main d !! sha3 b) as [[v c]|] eqn:E; [destruct (Z.ltb_spec 0 c)|]; cbn [snd].
  2-3: eapply moves_weaken; [by apply moves_refl|done|]; intros h; rewrite !cnt_nil; pose proof (cnt_nonneg [b] h); lia.
  set (d' := d <| m_main ::= <[sha3 b:=(v, c - 1)]> |>). pose proof (ok_main _ Hd _ _ _ E) as (?&?&?&_).
  assert (m_main d' = <[sha3 b := (v, c - 1)]> (m_main d)) as Em by done.
  assert (db_ok d') as Hd'.
  { split; [apply Hd|..|apply Hd]. intros h w n Hh. rewrite Em in Hh.
    apply lookup_insert_Some in Hh as [[<- [= <- <-]]|[_ Hh]]; [|by apply (ok_main _ Hd h)]. split_and!; try done. lia. }
  split; [..|done|done].
  - intros h _. rewrite !lookup_main, Em by done. change (disk_lookup (disk_key h) d') with (disk_lookup (disk_key h) d).
    destruct (decide (sha3 b = h)) as [<-|]; [by rewrite lookup_insert_eq, E|by rewrite lookup_insert_ne].
  - intros h. rewrite cnt_nil. unfold refs. rewrite Em. unfold cnt. rewrite sumZ_cons, sumZ_nil.
    destruct (Z.eqb_spec (sha3 b) h) as [<-|Hne]; [rewrite lookup_insert_eq, E|rewrite lookup_insert_ne by done]; lia.
Qed.

(** ** The nodes of a tree *)

(** The node itself, when it is filed under its hash. *)
Definition filed (b : bytes) : list bytes := if 32 <=? len b then [b] else [].
(** What the database holds below a node; with multiplicity. *)
Fixpoint nodes (t : tree) : list bytes :=
  match t with
  | TEmpty | TLeaf _ _ => []
  | TExt _ c => filed (enc c) ++ nodes c
  | TBranch cs => concat ((λ c, filed (enc c) ++ nodes c) <$> cs)
  end.
Definition subtree (t : tree) : list bytes := filed (enc t) ++ nodes t.

Lemma release_filed b d : db_ok d → ∃ d', killNode b d = (Ok tt, d') ∧ moves 0 d d' (filed b) [].
Proof.
  intros Hd. unfold killNode, killNode_at, filed. destruct (Z.leb_spec 32 (len b)); cbn [when].
  - by apply release_node.
  - exists d. split; [done|]. by apply moves_refl.
Qed.

Lemma stored_app d a b : stored d (a ++ b) ↔ stored d a ∧ stored d b.
Proof. apply Forall_app. Qed.
Lemma nodes_Forall (P : bytes → Prop) cs : Forall P (nodes (TBranch cs)) ↔ Forall (λ c, Forall P (subtree c)) cs.
Proof.
  cbn [nodes]. induction cs as [|c cs IH]; cbn; [by split; constructor|]. rewrite Forall_cons, <-IH. apply Forall_app.
Qed.
Lemma nodes_branch d cs : stored d (nodes (TBranch cs)) ↔ Forall (λ c, stored d (subtree c)) cs.
Proof. apply nodes_Forall. Qed.
Lemma cnt_branch cs h : cnt (nodes (TBranch cs)) h = sumZ (λ c, cnt (subtree c) h) cs.
Proof.
  cbn [nodes]. induction cs as [|c cs IH]; cbn [fmap list_fmap concat]; [done|].
  by rewrite cnt_app, IH, sumZ_cons.
Qed.
End Store.
