(* ===== verification/TrieLookup.v ===== *)
(** * Lookup in an encoded trie

    [atAux] on the encoding of a canonical tree whose nodes are in the database
    finds what the tree holds: it neither fails nor runs out of fuel, and leaves the
    database as it was. *)
From stdpp Require Import base gmap list.
From Stdlib Require Import ZArith Lia.
From S2P Require Import Prelude Rlp RlpProofs Interfaces Trie TrieNibbles TrieTree TrieCode TrieStore.
Open Scope Z_scope.

Lemma lift_bind {S A B} (o : outcome A) (k : A → ST S B) s x : o = Ok x → (lift o ≫= k) s = k x s.
Proof. by intros ->. Qed.
Lemma ret_bind {S A B} (a : A) (k : A → ST S B) (s : S) : ((mret a : ST S A) ≫= k) s = k a s.
Proof. done. Qed.
(** Run the next call, which by [E] returns a value; by [E] it moves to another state. *)
Ltac rd E := rewrite (lift_bind _ _ _ _ E).
Ltac run E := rewrite (bind_ok _ _ _ _ _ E).

Section Lookup.
Context `{Crypto} (sha3_in : ∀ b, in256 (sha3 b)).

(** ** Children *)
Lemma child_isEmpty c : codable c → rlp_isEmpty (encode (child_item c)) = negb (is_used c).
Proof.
  intros Hc. pose proof (child_ok c Hc) as Hok. unfold child_item, ref_item in *.
  destruct (Z.ltb_spec (len (encode (node_item c))) 32) as [Hl|Hl].
  - destruct c as [|k v|k c|cs]; cbn [node_item is_used negb] in *; [done|by apply isEmpty_items..|].
    destruct cs as [|c cs]; by apply isEmpty_items.
  - unfold rlp_hash in *. rewrite isEmpty_data, bool_decide_eq_false_2; [by destruct c| |done].
    intros E%(f_equal length). by rewrite length_toBE_n in E.
Qed.
Lemma node_isEmpty t : codable t → rlp_isEmpty (enc t) = negb (is_used t).
Proof.
  intros Ht. unfold enc. destruct t as [|k v|k c|cs]; cbn [node_item is_used negb]; [done|by apply isEmpty_items..|].
  destruct cs as [|c cs]; by apply isEmpty_items.
Qed.
Lemma used_items t : is_used t = true → is_items (node_item t) = true.
Proof. by destruct t. Qed.

(** A child is in its parent when it is small, else its hash is. *)
Lemma child_small c : len (enc c) < 32 → encode (child_item c) = enc c.
Proof. intros Hl. unfold child_item, ref_item, enc in *. by destruct (Z.ltb_spec (len (encode (node_item c))) 32); [|lia]. Qed.
Lemma child_big c : 32 <= len (enc c) → child_item c = rlp_hash 32 (sha3 (enc c)).
Proof.
  intros Hl. unfold child_item, ref_item, enc in *.
  by destruct (Z.ltb_spec (len (encode (node_item c))) 32); [lia|].
Qed.
Lemma child_isList c : codable c → is_used c = true → isList (encode (child_item c)) = (len (enc c) <? 32).
Proof.
  intros Hc Hu. destruct (Z.ltb_spec (len (enc c)) 32) as [Hl|Hl].
  - rewrite child_small by done. unfold enc. rewrite isList_ok by done. by apply used_items.
  - rewrite child_big by done. rewrite isList_ok; [done|]. apply item_ok_hash. lia.
Qed.
Lemma child_toHash c : 32 <= len (enc c) → toHash 32 (encode (child_item c)) = Ok (sha3 (enc c)).
Proof.
  intros Hl. rewrite child_big by done. apply (toHash_ok 32); [lia|]. pose proof (sha3_in (enc c)). by unfold in256, M256 in *.
Qed.
Lemma filed_big d c : 32 <= len (enc c) → stored d (filed (enc c)) → in_db d (enc c).
Proof. unfold filed. intros Hl. destruct (Z.leb_spec 32 (len (enc c))); [|lia]. by intros [? _]%Forall_cons. Qed.
Lemma node_big d c : codable c → 32 <= len (enc c) → stored d (filed (enc c)) →
  trie_node (sha3 (enc c)) d = (Ok (enc c), d) ∧ RLP (enc c) = Ok (enc c).
Proof.
  intros Hc Hl Hs. destruct (filed_big d c Hl Hs) as [_ E]. split; [|by apply RLP_ok].
  unfold trie_node, mbind, ST_bind, getS, mret, ST_ret. by rewrite E.
Qed.
Lemma child_node_ok c d : codable c → is_used c = true → stored d (filed (enc c)) →
  child_node (encode (child_item c)) d = (Ok (enc c), d).
Proof.
  intros Hc Hu Hs. unfold child_node. rewrite child_isList by done.
  destruct (Z.ltb_spec (len (enc c)) 32) as [Hl|Hl].
  - by rewrite child_small.
  - rd (child_toHash c Hl). destruct (node_big d c Hc Hl Hs) as [En Er]. run En. unfold lift. by rewrite Er.
Qed.

(** ** The items of a branch *)
Section Branch.
Context (cs : list tree) (Hl : length cs = 16%nat) (Hc : codable (TBranch cs)).

Lemma branch_isEmpty : rlp_isEmpty (enc (TBranch cs)) = false.
Proof using Hc. by apply (node_isEmpty (TBranch cs)). Qed.
Lemma branch_count : itemCount (enc (TBranch cs)) = Ok 17.
Proof using Hc Hl. unfold enc. cbn [node_item]. rewrite itemCount_ok by done. by rewrite length_app, length_fmap, Hl. Qed.
Lemma branch_child i c : cs !! i = Some c → item (enc (TBranch cs)) i = Ok (encode (child_item c)).
Proof using Hc.
  intros Hi. apply item_lookup; [done|]. rewrite lookup_app_l.
  - by rewrite list_lookup_fmap, Hi.
  - rewrite length_fmap. by eapply lookup_lt_Some.
Qed.
Lemma branch_value : item (enc (TBranch cs)) 16 = Ok [0x80].
Proof using Hc Hl.
  change [0x80] with (encode (Data [])). apply item_lookup; [done|].
  rewrite lookup_app_r by (rewrite length_fmap; lia). by rewrite length_fmap, Hl.
Qed.
End Branch.

(** ** Lookup *)
Lemma atAux_ok t : ∀ n k s fuel d, Z.of_nat n < 2 ^ 30 → wf n t → key_ok n k → is_slice s k →
  stored d (nodes t) → (n < fuel)%nat → atAux fuel (enc t) s d = (Ok (t_at t k), d).
Proof.
  induction t as [|k0 v|k0 c IH|cs IH] using tree_ind'; intros n k s fuel d Hn Hw Hk Hs Hst Hf;
    (destruct fuel as [|fuel]; [lia|]); cbn [atAux]; pose proof (wf_codable n _ Hn Hw) as Hc.
  - done.
  - destruct Hw as (Hl&Nk&Hv). unfold enc. cbn [node_item].
    rewrite pair_isEmpty, isNull_ok by done. cbn [orb].
    assert (is_slice (keyOf_hpe (hp true k0)) k0) as Hs0 by (apply keyOf_hp; [done|lia]).
    rd (pair_count true k0 (Data v) Hc). cbn [Z.eqb Pos.eqb]. rd (pair_keyOf true k0 (Data v) Hc).
    rd (ns_eq_ok _ _ _ _ Hs Hs0). cbn [t_at]. rewrite bool_decide_decide. destruct (decide (k = k0)) as [->|Hne].
    + rewrite (bind_ok _ _ _ true d) by (unfold lift; by rewrite pair_isLeaf).
      rd (pair_item1 true k0 (Data v) Hc). unfold lift. rewrite toBytes_ok; [done|]. apply (pair_parts _ _ _ Hc).
    + rewrite ret_bind. rd (ns_contains_ok _ _ _ _ Hs Hs0).
      rewrite bool_decide_eq_false_2; [done|]. intros Hp. apply Hne. symmetry.
      apply prefix_length_eq; [done|]. destruct Hk. lia.
  - destruct Hw as (Hk0&Nk&Hb&Hl&Hw). unfold enc. cbn [node_item].
    rewrite pair_isEmpty, isNull_ok by done. cbn [orb].
    assert (is_slice (keyOf_hpe (hp false k0)) k0) as Hs0 by (apply keyOf_hp; [done|lia]).
    rd (pair_count false k0 _ Hc). cbn [Z.eqb Pos.eqb]. rd (pair_keyOf false k0 _ Hc).
    rd (ns_eq_ok _ _ _ _ Hs Hs0).
    rewrite (bind_ok _ _ _ false d) by (case_bool_decide; [unfold lift; by rewrite pair_isLeaf|done]).
    rd (ns_contains_ok _ _ _ _ Hs Hs0). cbn [t_at]. destruct (strip k0 k) as [r|] eqn:E.
    + apply strip_Some in E as ->. rewrite bool_decide_eq_true_2 by by apply prefix_app_r.
      rewrite (bind_ok _ _ _ true d) by (unfold lift, mbind, ST_bind; by rewrite pair_isLeaf).
      rd (pair_item1 false k0 _ Hc). cbn [nodes] in Hst. apply stored_app in Hst as [Hf1 Hst].
      pose proof (wf_codable (n - length k0) c ltac:(lia) Hw) as Hcc.
      assert (is_used c = true) as Hu by by destruct c.
      run (child_node_ok c d Hcc Hu Hf1). destruct (key_ok_app _ _ _ Hk) as (_&_&Hr).
      eapply IH; [|exact Hw|exact Hr| |exact Hst|].
      * lia.
      * rewrite (ns_size_ok _ _ Hs0). pose proof (ns_mid_ok _ _ Hs (length k0)) as Hm.
        rewrite drop_app_length in Hm. apply Hm. rewrite length_app. lia.
      * destruct k0; [done|]. cbn [length] in *. lia.
    + by rewrite bool_decide_eq_false_2 by by apply strip_None.
  - destruct n as [|n]; [done|]. destruct k as [|i r]; [by destruct Hk|]. apply key_ok_cons in Hk as [Hi Hr].
    apply wf_branch in Hw as (Hl&Hw&_). rewrite branch_isEmpty by done.
    unfold enc at 1. rewrite isNull_ok by done. cbn [orb]. rd (branch_count cs Hl Hc). cbn [Z.eqb Pos.eqb].
    rewrite (ns_size_ok _ _ Hs). cbn [length]. destruct (Z.eqb_spec (Z.of_nat (S (length r))) 0); [lia|].
    destruct (slice_drop1 _ _ Hs i r eq_refl) as [Ei Hs']. rd Ei.
    destruct (slot_lookup cs i Hl Hi) as [c Hci]. rd (branch_child cs Hc _ _ Hci).
    rewrite Forall_lookup in Hw, IH. specialize (Hw _ _ Hci).
    pose proof (wf_codable n c ltac:(lia) Hw) as Hcc. rewrite child_isEmpty by done.
    rewrite (at_branch _ _ _ _ Hci). destruct (is_used c) eqn:Hu; cbn [negb]; [|by destruct c].
    apply nodes_branch in Hst. rewrite Forall_lookup in Hst. specialize (Hst _ _ Hci).
    unfold subtree in Hst. apply stored_app in Hst as [Hf1 Hst].
    run (child_node_ok c d Hcc Hu Hf1). eapply IH; [exact Hci| |exact Hw|exact Hr|exact Hs'|exact Hst|]; lia.
Qed.
End Lookup.
