(* ===== verification/TrieInsert.v ===== *)
(** * Insertion into an encoded trie

    [mergeAt] on the encoding of a tree returns the encoding of the tree with the key
    inserted, files every node of the new tree that needs it, and releases every
    node of the old tree that is gone. *)
From stdpp Require Import base gmap list.
From Stdlib Require Import ZArith Lia.
From S2P Require Import Prelude Rlp RlpProofs Interfaces Trie TrieNibbles TrieTree TrieCode TrieStore TrieLookup.
Open Scope Z_scope.

Lemma foldM_app {S A B} (f : B → A → ST S B) xs : ∀ b ys s,
  foldM f b (xs ++ ys) s = (foldM f b xs ≫= λ b', foldM f b' ys) s.
Proof.
  induction xs as [|x xs IH]; intros b ys s; [done|]. cbn [app foldM].
  unfold mbind, ST_bind. destruct (f b x s) as [[b'| | | |] s']; done || apply IH.
Qed.

Section Insert.
Context `{Crypto} (sha3_in : ∀ b, in256 (sha3 b)) (U : bytes → Prop) (Hcf : collision_free U).

(** ** Streaming a node *)
Lemma enc_nonempty t : codable t → enc t ≠ [].
Proof. apply encode_nonempty. Qed.
Lemma file_filed t d : codable t → db_ok U d → Forall U (filed (enc t)) → room 1 d → 32 <= len (enc t) →
  ∃ d', forceInsertNode (enc t) d = (Ok (sha3 (enc t)), d') ∧ moves U 1 d d' [] (filed (enc t)) ∧ stored d' (filed (enc t)).
Proof using Hcf sha3_in.
  intros Ht Hd HU Hr Hl. unfold filed in *. destruct (Z.leb_spec 32 (len (enc t))); [|lia].
  rewrite Forall_singleton in HU. destruct (file_node U (enc t) d) as (d'&E&Hm&Hi); try done; [by apply enc_nonempty|].
  exists d'. split_and!; try done. by apply Forall_singleton.
Qed.
Lemma streamNode_ok t L l r d : L = l ++ child_item t :: r → item_ok (Items L) → codable t →
  db_ok U d → Forall U (filed (enc t)) → room 1 d →
  ∃ d', streamNode (stream_of (length L) l) (enc t) d = (Ok (stream_of (length L) (l ++ [child_item t])), d') ∧
    moves U 1 d d' [] (filed (enc t)) ∧ stored d' (filed (enc t)).
Proof using Hcf sha3_in.
  intros HL Hok Ht Hd HU Hr. unfold streamNode. destruct (Z.ltb_spec (len (enc t)) 32) as [Hl|Hl].
  - exists d. unfold filed. destruct (Z.leb_spec 32 (len (enc t))); [lia|]. split_and!.
    + unfold lift. rewrite <-(child_small t Hl), append_rlp_appended. by rewrite (stream_append L l _ r).
    + eapply moves_weaken; [by apply moves_refl|lia|]. intros h. rewrite cnt_nil. lia.
    + constructor.
  - destruct (file_filed t d) as (d'&E&Hm&Hi); try done. exists d'. split_and!; try done. run E.
    unfold lift. rewrite append_hash_appended, <-child_big by done. by rewrite (stream_append L l _ r).
Qed.

(** ** What [mergeAt] is to do *)
Definition merge_spec (fuel : nat) (t : tree) (k : list Z) (v : bytes) (t' : tree) : Prop :=
  ∀ s inl d, is_slice s k → db_ok U d → room fuel d → stored d (nodes t) → (inl = true → len (enc t) < 32) →
  ∃ d', mergeAt fuel (enc t) (sha3 (enc t)) s v inl d = (Ok (enc t'), d') ∧
    moves U fuel d d' (subtree t) (nodes t') ∧ stored d' (nodes t').

Lemma mergeAtAux_ok fuel c r v c' L l rest s d :
  merge_spec fuel c r v c' → codable c → codable c' → L = l ++ child_item c' :: rest → item_ok (Items L) →
  is_slice s r → db_ok U d → room (S fuel) d → stored d (subtree c) → Forall U (filed (enc c')) →
  ∃ d', mergeAtAux (mergeAt fuel) (stream_of (length L) l) (encode (child_item c)) s v d =
      (Ok (stream_of (length L) (l ++ [child_item c'])), d') ∧
    moves U (S fuel) d d' (subtree c) (subtree c') ∧ stored d' (subtree c').
Proof using Hcf sha3_in.
  intros Hspec Hc Hc' HL Hok Hs Hd Hr [Hf Hn]%stored_app HU.
  assert (∃ d1, mergeAt fuel (enc c) (sha3 (enc c)) s v (len (enc c) <? 32) d = (Ok (enc c'), d1) ∧
    moves U fuel d d1 (subtree c) (nodes c') ∧ stored d1 (nodes c')) as (d1&E1&M1&S1).
  { apply Hspec; try done; [apply (room_le (S fuel)); [done|lia]|]. by intros ?%Z.ltb_lt. }
  destruct (streamNode_ok c' L l rest d1) as (d2&E2&M2&S2); try done;
    [apply (mv_ok _ _ _ _ _ _ M1)|eapply moves_room; [exact M1|]; by rewrite Nat.add_1_r|].
  exists d2. split_and!.
  - unfold mergeAtAux. rewrite child_isEmpty by done.
    destruct (is_used c) eqn:Hu; [rewrite child_isList by done|].
    + destruct (Z.ltb_spec (len (enc c)) 32) as [Hl|Hl]; cbn [negb andb].
      * rewrite (child_small c Hl). by run E1.
      * rd (child_toHash sha3_in c Hl). destruct (node_big d c Hc Hl Hf) as [En Er]. run En. rd Er. by run E1.
    + destruct c; try done. rewrite andb_false_r. change (encode (child_item TEmpty)) with (enc TEmpty).
      by run E1.
  - eapply moves_weaken; [eapply moves_trans; [exact M1|exact M2]|lia|].
    intros h. unfold subtree. rewrite !cnt_app, cnt_nil. lia.
  - apply stored_app. split; [done|]. by eapply moves_stored.
Qed.

(** ** Going down an extension or a branch *)
Definition released (inl : bool) (t : tree) : list bytes := if inl then [] else filed (enc t).
Lemma release_unless inl t d : db_ok U d →
  ∃ d', when (negb inl) (killNode_at (enc t) (sha3 (enc t))) d = (Ok tt, d') ∧ moves U 0 d d' (released inl t) [].
Proof.
  intros Hd. destruct inl; cbn [negb when released].
  - exists d. split; [done|]. by apply moves_refl.
  - by apply release_filed.
Qed.

Lemma down_ext fuel k0 c r v c' s inl d :
  merge_spec fuel c r v c' → small_key k0 → codable c → codable c' →
  is_slice s (k0 ++ r) → db_ok U d → room (S fuel) d → stored d (nodes (TExt k0 c)) → Forall U (filed (enc c')) →
  ∃ d', mergeAt (S fuel) (enc (TExt k0 c)) (sha3 (enc (TExt k0 c))) s v inl d = (Ok (enc (TExt k0 c')), d') ∧
    moves U (S fuel) d d' (released inl (TExt k0 c) ++ nodes (TExt k0 c)) (nodes (TExt k0 c')) ∧
    stored d' (nodes (TExt k0 c')).
Proof using Hcf sha3_in.
  intros Hspec Hk0 Hc Hc' Hs Hd Hr Hst HU.
  pose proof (ext_codable k0 c Hk0 Hc) as Ht. pose proof (ext_codable k0 c' Hk0 Hc') as Ht'.
  assert (is_slice (keyOf_hpe (hp false k0)) k0) as Hs0 by (destruct Hk0; apply keyOf_hp; [done|lia]).
  destruct (release_unless inl (TExt k0 c) d Hd) as (d1&E1&M1).
  assert (is_slice (ns_mid s (ns_size (keyOf_hpe (hp false k0)))) r) as Hs'.
  { rewrite (ns_size_ok _ _ Hs0). pose proof (ns_mid_ok _ _ Hs (length k0)) as Hm.
    rewrite drop_app_length in Hm. apply Hm. rewrite length_app. lia. }
  destruct (mergeAtAux_ok fuel c r v c' [Data (hp false k0); child_item c'] [Data (hp false k0)] []
              (ns_mid s (ns_size (keyOf_hpe (hp false k0)))) d1) as (d2&E2&M2&S2); try done.
  { apply (mv_ok _ _ _ _ _ _ M1). } { by eapply moves_room. } { by eapply moves_stored. }
  exists d2. split_and!.
  - cbn [mergeAt]. unfold enc in *. cbn [node_item] in *. rewrite pair_isEmpty by done.
    rd (pair_count false k0 _ Ht). cbn [Z.eqb Pos.eqb]. rd (pair_keyOf false k0 _ Ht).
    rd (ns_eq_ok _ _ _ _ Hs0 Hs). destruct Hk0 as [Nk _].
    rewrite (bind_ok _ _ _ false d) by (case_bool_decide; [unfold lift; by rewrite pair_isLeaf|done]).
    rd (ns_contains_ok _ _ _ _ Hs Hs0). rewrite bool_decide_eq_true_2 by by apply prefix_app_r.
    rewrite (bind_ok _ _ _ true d) by (unfold lift, mbind, ST_bind; by rewrite pair_isLeaf).
    run E1. change (rlp_stream 2) with (Ok (stream_of 2 [])). rewrite (lift_bind _ _ _ _ eq_refl).
    rd (pair_item0 false k0 _ Ht). rewrite append_rlp_appended.
    rd (stream_append [Data (hp false k0); child_item c'] [] (Data (hp false k0)) [child_item c'] eq_refl Ht').
    rd (pair_item1 false k0 _ Ht). run E2. unfold lift. by rewrite stream_out.
  - eapply moves_weaken; [eapply moves_trans; [exact M1|exact M2]|lia|].
    intros h. cbn [nodes]. unfold subtree. rewrite !cnt_app, !cnt_nil. lia.
  - done.
Qed.

(** The items of a branch, and copying a run of them. *)
Definition items (cs : list tree) : list rlp_item := (child_item <$> cs) ++ [Data []].
Lemma items_node cs : node_item (TBranch cs) = Items (items cs).
Proof. done. Qed.
Lemma items_lookup cs i x : length cs = 16%nat → codable (TBranch cs) → items cs !! i = Some x →
  item (enc (TBranch cs)) i = Ok (encode x).
Proof. intros Hl Hc Hi. by apply item_lookup. Qed.
Lemma items_split cs i c : cs !! i = Some c →
  items cs = take i (items cs) ++ child_item c :: drop (S i) (items cs).
Proof.
  intros Hi. symmetry. apply take_drop_middle. unfold items. rewrite lookup_app_l.
  - by rewrite list_lookup_fmap, Hi.
  - rewrite length_fmap. by eapply lookup_lt_Some.
Qed.

(** A loop that appends the items of [L] from [a] on, one per turn. *)
Lemma append_run {B} (mk : RLPStream → B) (f : B → nat → ST OverlayDB B) L a m d :
  item_ok (Items L) → (a + m <= length L)%nat →
  (∀ j x st st', (a <= j < a + m)%nat → L !! j = Some x → appended x st = Ok st' → f (mk st) j d = (Ok (mk st'), d)) →
  foldM f (mk (stream_of (length L) (take a L))) (seq a m) d = (Ok (mk (stream_of (length L) (take (a + m) L))), d).
Proof.
  intros Hok. revert a. induction m as [|m IH]; intros a Hm Hf; cbn [seq foldM]; [by rewrite Nat.add_0_r|].
  destruct (lookup_lt_is_Some_2 L a ltac:(lia)) as [x Hx].
  assert (f (mk (stream_of (length L) (take a L))) a d = (Ok (mk (stream_of (length L) (take (S a) L))), d)) as E.
  { apply (Hf a x); [lia|done|]. rewrite (take_S_r _ _ _ Hx). apply (stream_append L _ _ (drop (S a) L)); [|done].
    by rewrite take_drop_middle. }
  run E. replace (a + S m)%nat with (S a + m)%nat by lia. apply IH; [lia|]. intros j y st st' Hj. apply Hf. lia.
Qed.

Lemma sumZ_list_insert {A} (f : A → Z) l i x y :
  l !! i = Some x → sumZ f (<[i := y]> l) = sumZ f l - f x + f y.
Proof.
  revert i. induction l as [|z l IH]; intros [|i] Hi; [done..| |]; simplify_eq/=; rewrite !sumZ_cons.
  - lia.
  - rewrite IH by done. lia.
Qed.
Lemma codable_update cs i c' : length cs = 16%nat → Forall codable cs → codable c' → codable (TBranch (<[i := c']> cs)).
Proof. intros Hl Hcs Hc'. apply branch_codable; [by rewrite length_insert|by apply Forall_insert]. Qed.

Lemma items_length cs : length cs = 16%nat → length (items cs) = 17%nat.
Proof. intros Hl. unfold items. by rewrite length_app, length_fmap, Hl. Qed.
(** A loop over a branch that copies every item but one. *)
Lemma replace_loop {B} (mk : RLPStream → B) (f : B → nat → ST OverlayDB B) m cs n c' d1 d2 :
  length cs = 16%nat → (n < 16)%nat → (n < m <= 17)%nat → codable (TBranch (<[n := c']> cs)) →
  (∀ e j x st st', j ≠ n → items cs !! j = Some x → appended x st = Ok st' → f (mk st) j e = (Ok (mk st'), e)) →
  (let L := items (<[n := c']> cs) in
   f (mk (stream_of (length L) (take n L))) n d1 = (Ok (mk (stream_of (length L) (take n L ++ [child_item c']))), d2)) →
  foldM f (mk (stream_of 17 [])) (seq 0 m) d1 = (Ok (mk (stream_of 17 (take m (items (<[n := c']> cs))))), d2).
Proof.
  cbn zeta. intros Hl Hn Hm Hok Hf E. set (cs' := <[n := c']> cs) in *.
  assert (cs' !! n = Some c') as Hc by (apply list_lookup_insert_eq; lia).
  assert (length (items cs') = 17)%nat as HL by (apply items_length; unfold cs'; by rewrite length_insert).
  assert (∀ e j x st st', j ≠ n → items cs' !! j = Some x → appended x st = Ok st' → f (mk st) j e = (Ok (mk st'), e)) as Hf'.
  { intros e j x st st' Hj Hx. apply Hf; [done|]. rewrite <-Hx. unfold items, cs'. rewrite list_fmap_insert.
    rewrite <-insert_app_l by (rewrite length_fmap; lia). by rewrite list_lookup_insert_ne. }
  replace (seq 0 m) with (seq 0 n ++ n :: seq (S n) (m - S n))
    by (change (n :: seq (S n) (m - S n)) with (seq n (S (m - S n))); rewrite <-seq_app; f_equal; lia).
  pose proof (append_run mk f (items cs') 0 n d1 Hok ltac:(lia) ltac:(intros; eapply Hf'; [lia|done..])) as R1.
  pose proof (append_run mk f (items cs') (S n) (m - S n) d2 Hok ltac:(lia) ltac:(intros; eapply Hf'; [lia|done..])) as R2.
  rewrite HL in *. rewrite foldM_app. run R1. cbn [foldM Nat.add]. run E.
  assert (take n (items cs') ++ [child_item c'] = take (S n) (items cs')) as ->.
  { symmetry. apply take_S_r. unfold items. rewrite lookup_app_l by (rewrite length_fmap; by eapply lookup_lt_Some).
    by rewrite list_lookup_fmap, Hc. }
  rewrite R2. do 4 f_equal. f_equal. lia.
Qed.
Lemma cnt_update cs n c c' h : cs !! n = Some c →
  cnt (nodes (TBranch (<[n := c']> cs))) h = cnt (nodes (TBranch cs)) h - cnt (subtree c) h + cnt (subtree c') h.
Proof. intros Hc. rewrite !cnt_branch. by rewrite (sumZ_list_insert _ _ _ _ _ Hc). Qed.
Lemma stored_update m d d' o w cs n c' : moves U m d d' o w → stored d (nodes (TBranch cs)) → stored d' (subtree c') →
  stored d' (nodes (TBranch (<[n := c']> cs))).
Proof.
  intros Hm Hst Hc. rewrite nodes_branch in *. apply Forall_insert; [|done]. eapply Forall_impl; [exact Hst|].
  intros e. by eapply moves_stored.
Qed.

Lemma down_branch fuel cs i c r v c' s inl d :
  merge_spec fuel c r v c' → length cs = 16%nat → Forall codable cs → is_nibble i → cs !! Z.to_nat i = Some c → codable c' →
  is_slice s (i :: r) → db_ok U d → room (S fuel) d → stored d (nodes (TBranch cs)) → Forall U (filed (enc c')) →
  ∃ d', mergeAt (S fuel) (enc (TBranch cs)) (sha3 (enc (TBranch cs))) s v inl d =
      (Ok (enc (TBranch (<[Z.to_nat i := c']> cs))), d') ∧
    moves U (S fuel) d d' (released inl (TBranch cs) ++ nodes (TBranch cs)) (nodes (TBranch (<[Z.to_nat i := c']> cs))) ∧
    stored d' (nodes (TBranch (<[Z.to_nat i := c']> cs))).
Proof using Hcf sha3_in.
  intros Hspec Hl Hcs Hi Hci Hc' Hs Hd Hr Hst HU. set (n := Z.to_nat i) in *.
  pose proof (lookup_lt_Some _ _ _ Hci) as Hn.
  pose proof (branch_codable cs Hl Hcs) as Ht. pose proof (codable_update cs n c' Hl Hcs Hc') as Ht'.
  destruct (release_unless inl (TBranch cs) d Hd) as (d1&E1&M1). destruct (slice_drop1 _ _ Hs i r eq_refl) as [Ei Hs'].
  pose proof Hst as Hst'. rewrite nodes_branch, Forall_lookup in Hst'. set (L := items (<[n := c']> cs)).
  destruct (mergeAtAux_ok fuel c r v c' L (take n L) (drop (S n) L) (ns_mid s 1) d1) as (d2&E2&M2&S2); try done.
  { rewrite Forall_lookup in Hcs. eauto. } { by apply items_split, list_lookup_insert_eq. }
  { apply (mv_ok _ _ _ _ _ _ M1). } { by eapply moves_room. } { eapply moves_stored; eauto. }
  exists d2. split_and!.
  - cbn [mergeAt]. rewrite branch_isEmpty by done. rd (branch_count cs Hl Ht). cbn [Z.eqb Pos.eqb].
    rewrite (ns_size_ok _ _ Hs). cbn [length]. destruct (Z.eqb_spec (Z.of_nat (S (length r))) 0); [lia|].
    run E1. rd Ei. change (rlp_stream 17) with (Ok (stream_of 17 [])). rewrite (lift_bind _ _ _ _ eq_refl).
    rewrite (bind_ok _ _ _ (stream_of 17 L) d2).
    { unfold lift. rewrite stream_out; [done|]. apply items_length. by rewrite length_insert. }
    rewrite <-(firstn_all2 (n := 17) L) by (unfold L; rewrite items_length; [lia|by rewrite length_insert]).
    apply (replace_loop id); [done|lia|lia|done|..]; unfold id.
    + intros e j x st st' Hj Hx Hst''. rd (items_lookup cs j x Hl Ht Hx).
      destruct (Z.eqb_spec (Z.of_nat j) i) as [E|_]; [unfold n in Hj; lia|]. unfold lift. by rewrite append_rlp_appended, Hst''.
    + cbn zeta. rd (branch_child cs Ht _ _ Hci). unfold is_nibble in Hi.
      by destruct (Z.eqb_spec (Z.of_nat n) i); [|unfold n in *; lia].
  - eapply moves_weaken; [eapply moves_trans; [exact M1|exact M2]|lia|].
    intros h. rewrite cnt_app, (cnt_update _ _ _ _ _ Hci), !cnt_app, !cnt_nil. lia.
  - eapply stored_update; [exact M2| |done]. by eapply moves_stored.
Qed.

(** ** Splitting a leaf or an extension *)

(** The parts of a pair node. *)
Definition t_leaf (t : tree) : bool := match t with TLeaf _ _ => true | _ => false end.
Definition t_second (t : tree) : rlp_item :=
  match t with TLeaf _ v => Data v | TExt _ c => child_item c | _ => Data [] end.
Lemma pair_view t : two_item t = true → node_item t = pair_item (t_leaf t) (t_key t) (t_second t).
Proof. by destruct t. Qed.
Lemma cut_view n t : two_item t = true →
  node_item (t_cut n t) = pair_item (t_leaf t) (drop n (t_key t)) (t_second t) ∧ nodes (t_cut n t) = nodes t ∧
  two_item (t_cut n t) = true ∧ t_key (t_cut n t) = drop n (t_key t).
Proof. by destruct t. Qed.
(** Below the branch that replaces it: a pair again, or what an extension led to. *)
Lemma lower_view q t : two_item t = true →
  if t_leaf t || negb (bool_decide (q = []))
  then node_item (t_lower q t) = pair_item (t_leaf t) q (t_second t) ∧ nodes (t_lower q t) = nodes t
  else child_item (t_lower q t) = t_second t ∧ subtree (t_lower q t) = nodes t.
Proof. by destruct t, q. Qed.

Lemma items_empty n i x : items (replicate n TEmpty) !! i = Some x → x = Data [].
Proof.
  unfold items. intros Hx%list_elem_of_lookup_2. apply elem_of_app in Hx as [Hx|Hx].
  - apply list_elem_of_fmap in Hx as (c&->&Hc). by apply elem_of_replicate in Hc as [-> _].
  - by apply list_elem_of_singleton in Hx.
Qed.

Lemma slot_codable j t : is_nibble j → codable t → codable (TBranch (slot j t)).
Proof. intros Hj Ht. apply codable_update; [done| |done]. apply Forall_replicate, empty_codable. Qed.
Lemma cnt_slot j t h : is_nibble j → cnt (nodes (TBranch (slot j t))) h = cnt (subtree t) h.
Proof.
  unfold is_nibble. intros Hj. unfold slot. erewrite cnt_update by (apply lookup_replicate_2; lia).
  change (cnt (nodes (TBranch (replicate 16 TEmpty))) h) with 0. change (cnt (subtree TEmpty) h) with 0. lia.
Qed.
Lemma stored_slot d j t : stored d (subtree t) → stored d (nodes (TBranch (slot j t))).
Proof. intros Ht. unfold slot. rewrite nodes_branch. apply Forall_insert; [|done]. apply Forall_replicate. constructor. Qed.

(** The turn of the loop of [branch] that writes the child. *)
Definition branch_slot (t : tree) (j : Z) (q : list Z) (st : RLPStream) : ST OverlayDB RLPStream :=
  if t_leaf t || (1 <? len (j :: q)) then
    kc ← lift (hexPrefixEncode (ns_mid (keyOf_hpe (hp (t_leaf t) (j :: q))) 1) (t_leaf t) 0 (-1));
    c ← lift (rlpList (append_bytes kc) (append_rlp (encode (t_second t)))); streamNode st c
  else lift (append_rlp (encode (t_second t)) st).
Lemma branch_slot_ok t j q L l r d : two_item t = true → small_key (j :: q) → codable (t_lower q t) →
  L = l ++ child_item (t_lower q t) :: r → item_ok (Items L) →
  db_ok U d → room 1 d → stored d (nodes t) → Forall U (filed (enc (t_lower q t))) →
  ∃ d', branch_slot t j q (stream_of (length L) l) d = (Ok (stream_of (length L) (l ++ [child_item (t_lower q t)])), d') ∧
    moves U 1 d d' (nodes t) (subtree (t_lower q t)) ∧ stored d' (subtree (t_lower q t)).
Proof using Hcf sha3_in.
  intros H2 [Nk Sk] Hlow HL Hok Hd Hr Hst HU. pose proof (lower_view q t H2) as Hlv. set (low := t_lower q t) in *.
  unfold branch_slot. assert (1 <? len (j :: q) = negb (bool_decide (q = []))) as ->.
  { destruct q; cbn [length]; case_bool_decide; try done. apply Z.ltb_lt. lia. }
  destruct (t_leaf t || negb (bool_decide (q = []))); destruct Hlv as [Hv Hn].
  - assert (is_slice (keyOf_hpe (hp (t_leaf t) (j :: q))) (j :: q)) as Hs by (apply keyOf_hp; [done|lia]).
    destruct (slice_drop1 _ _ Hs j q eq_refl) as [_ Hs']. rd (hp_all_ok _ _ Hs' (t_leaf t)).
    assert (rlpList (append_bytes (hp (t_leaf t) q)) (append_rlp (encode (t_second t))) = Ok (enc low)) as Er.
    { unfold enc. rewrite Hv. unfold codable in Hlow. rewrite Hv in Hlow. apply rlpList_ok; [|done|done].
      intros s. apply append_bytes_encode, (pair_parts _ _ _ Hlow). }
    rd Er. destruct (streamNode_ok low L l r d) as (d2&E2&M2&S2); try done.
    exists d2. split_and!; [done|..].
    + eapply moves_weaken; [exact M2|lia|]. intros h. unfold subtree. rewrite cnt_app, Hn, cnt_nil. lia.
    + apply stored_app. split; [done|]. rewrite Hn. by eapply moves_stored.
  - exists d. split_and!.
    + unfold lift. by rewrite append_rlp_appended, <-Hv, (stream_append L _ _ _ HL).
    + rewrite Hn. eapply moves_weaken; [by apply moves_refl|lia|]. intros h. rewrite cnt_nil. lia.
    + by rewrite Hn.
Qed.

(** The branch with one child in the place of a pair. *)
Lemma branch_code t j q d : two_item t = true → t_key t = j :: q → small_key (j :: q) → codable t → codable (t_lower q t) →
  db_ok U d → room 1 d → stored d (nodes t) → Forall U (filed (enc (t_lower q t))) →
  ∃ d', branch (enc t) d = (Ok (enc (TBranch (slot j (t_lower q t)))), d') ∧
    moves U 1 d d' (subtree t) (nodes (TBranch (slot j (t_lower q t)))) ∧ stored d' (nodes (TBranch (slot j (t_lower q t)))).
Proof using Hcf sha3_in.
  intros H2 Hk [Nk Sk] Hc Hlow Hd Hr Hst HU. set (low := t_lower q t) in *. set (L := items (slot j low)).
  pose proof (Forall_cons_1 _ _ _ Nk) as [Hj Nq]. assert (Z.to_nat j < 16)%nat as Hj' by (unfold is_nibble in Hj; lia).
  pose proof (slot_codable j low Hj Hlow) as Hbr. destruct (release_filed U (enc t) d Hd) as (d1&E1&M1).
  assert (length L = 17%nat) as HL17 by apply items_length, slot_length.
  destruct (branch_slot_ok t j q L (take (Z.to_nat j) L) (drop (S (Z.to_nat j)) L) d1) as (d2&E2&M2&S2); try done.
  { apply items_split. by rewrite slot_at, decide_True. } { apply (mv_ok _ _ _ _ _ _ M1). }
  { by eapply (moves_room U 0). } { by eapply moves_stored. }
  fold low in M2. exists d2. split_and!.
  - unfold branch. run E1. assert (is_slice (keyOf_hpe (hp (t_leaf t) (j :: q))) (j :: q)) as Hs by (apply keyOf_hp; [done|lia]).
    unfold enc. unfold codable in Hc. rewrite (pair_view t H2), Hk in *.
    rd (pair_keyOf _ _ _ Hc). change (rlp_stream 17) with (Ok (stream_of 17 [])). rewrite (lift_bind _ _ _ _ eq_refl).
    rd (pair_item1 _ _ _ Hc). rewrite (ns_size_ok _ _ Hs). destruct (Z.eqb_spec (len (j :: q)) 0); [done|].
    rd (proj1 (slice_drop1 _ _ Hs j q eq_refl)). rd (pair_isLeaf _ _ _ Hc Nk).
    rewrite (bind_ok _ _ _ (stream_of 17 (take 16 L)) d2).
    { rewrite (append_bytes_encode []) by apply empty_codable.
      assert (take 16 L ++ [Data []] = L) as EL
        by (unfold L, items; by rewrite take_app_length' by (by rewrite length_fmap, slot_length)).
      pose proof (stream_append L (take 16 L) (Data []) []) as Ha. rewrite EL, HL17 in Ha.
      rd (Ha eq_refl Hbr). unfold lift. by rewrite stream_out. }
    apply (replace_loop id); [done|done|lia|done|..]; unfold id.
    + intros e i x st st' Hi Hx Hst'. destruct (Z.eqb_spec (Z.of_nat i) j) as [E|_]; [lia|].
      unfold lift. rewrite (append_bytes_encode []) by apply empty_codable.
      replace x with (Data []) in Hst'; [by rewrite Hst'|]. symmetry. by eapply items_empty.
    + cbn zeta. unfold is_nibble in Hj. destruct (Z.eqb_spec (Z.of_nat (Z.to_nat j)) j); [|lia]. exact E2.
  - eapply moves_weaken; [eapply moves_trans; [exact M1|exact M2]|lia|]. intros h. rewrite cnt_slot by done.
    unfold subtree. rewrite !cnt_app, cnt_nil. lia.
  - by apply stored_slot.
Qed.

(** The extension of the shared nibbles in front of what is left of a pair. *)
Lemma cleve_code t p q d : two_item t = true → t_key t = p ++ q → p ≠ [] → small_key (p ++ q) →
  codable t → db_ok U d → room 1 d → stored d (nodes t) → Forall U (filed (enc (t_cut (length p) t))) →
  codable (t_cut (length p) t) →
  ∃ d', cleve (enc t) (len p) d = (Ok (enc (TExt p (t_cut (length p) t))), d') ∧
    moves U 1 d d' (subtree t) (nodes (TExt p (t_cut (length p) t))) ∧ stored d' (nodes (TExt p (t_cut (length p) t))).
Proof using Hcf sha3_in.
  intros H2 Hk Hp [Nk Sk] Hc Hd Hr Hst HU Hcut. destruct (cut_view (length p) t H2) as (Ev&En&_&_). rewrite Hk, drop_at in Ev.
  set (cut := t_cut (length p) t) in *. destruct (release_filed U (enc t) d Hd) as (d1&E1&M1).
  apply Forall_app in Nk as [Np Nq]. rewrite length_app in Sk.
  assert (small_key p) as Hsp by (split; [done|lia]). pose proof (ext_codable p cut Hsp Hcut) as Htop.
  set (L := [Data (hp false p); child_item cut]).
  destruct (streamNode_ok cut L [Data (hp false p)] [] d1) as (d2&E2&M2&S2); try done;
    [apply (mv_ok _ _ _ _ _ _ M1)|by eapply (moves_room U 0)|].
  exists d2. split_and!.
  - unfold cleve. run E1. unfold enc in *. unfold codable in *. rewrite (pair_view t H2), Hk, Ev in *.
    assert (is_slice (keyOf_hpe (hp (t_leaf t) (p ++ q))) (p ++ q)) as Hs.
    { apply keyOf_hp; [by apply Forall_app|rewrite length_app; lia]. }
    assert (nibbles (p ++ q)) as Nk by by apply Forall_app.
    rd (pair_keyOf _ _ _ Hc). rd (pair_isLeaf _ _ _ Hc Nk).
    assert (length p <= length (p ++ q))%nat as Hle by (rewrite length_app; lia).
    rd (hp_from_ok _ _ Hs (t_leaf t) (length p) Hle). rewrite drop_at. rd (pair_item1 _ _ _ Hc).
    assert (rlpList (append_bytes (hp (t_leaf t) q)) (append_rlp (encode (t_second t))) =
      Ok (encode (pair_item (t_leaf t) q (t_second t)))) as Er.
    { apply rlpList_ok; [|done|done]. intros s. apply append_bytes_encode, (pair_parts _ _ _ Hcut). }
    rd Er. change (rlp_stream 2) with (Ok (stream_of 2 [])). rewrite (lift_bind _ _ _ _ eq_refl).
    rd (hp_first_ok _ _ Hs false (length p) Hle). rewrite take_at.
    rewrite append_bytes_encode by apply (pair_parts _ _ _ Htop).
    rd (stream_append L [] (Data (hp false p)) [child_item cut] eq_refl Htop). cbn [app].
    run E2. unfold lift. by rewrite stream_out.
  - eapply moves_weaken; [eapply moves_trans; [exact M1|exact M2]|lia|]. intros h. cbn [nodes]. unfold subtree.
    rewrite !cnt_app, !cnt_nil, En. lia.
  - cbn [nodes]. apply stored_app. split; [done|]. rewrite En. eapply moves_stored; [exact M2|]. by eapply moves_stored.
Qed.

(** How [mergeAt] comes to split a pair. *)
Lemma merge_split_head fuel t k h s v inl d : two_item t = true → codable t → small_key (t_key t) → is_slice s k →
  ¬ t_key t `prefix_of` k →
  mergeAt (S fuel) (enc t) h s v inl d =
    ((cut ← (if negb (Z.of_nat (lcp k (t_key t)) =? 0) then cleve (enc t) (Z.of_nat (lcp k (t_key t))) else branch (enc t));
      c ← lift (RLP cut); mergeAt fuel c (sha3 c) s v true) : ST OverlayDB bytes) d.
Proof.
  intros H2 Hc [Nk Sk] Hs Hp. cbn [mergeAt]. unfold enc in *. unfold codable in Hc. rewrite (pair_view t H2) in *.
  assert (is_slice (keyOf_hpe (hp (t_leaf t) (t_key t))) (t_key t)) as Hs0 by (apply keyOf_hp; [done|lia]).
  rewrite pair_isEmpty by done. rd (pair_count _ _ _ Hc). cbn [Z.eqb Pos.eqb]. rd (pair_keyOf _ _ _ Hc).
  rd (ns_eq_ok _ _ _ _ Hs0 Hs). rewrite bool_decide_eq_false_2 by (intros E; apply Hp; by rewrite E). rewrite ret_bind.
  rd (ns_contains_ok _ _ _ _ Hs Hs0). rewrite bool_decide_eq_false_2 by done. rewrite ret_bind.
  rd (ns_shared_ok _ _ _ _ Hs Hs0). by destruct (negb _).
Qed.
Lemma merge_empty fuel k v : small_key k → value_ok v → merge_spec (S fuel) TEmpty k v (TLeaf k v).
Proof.
  intros Hk Hv s inl d Hs Hd _ _ _. exists d. pose proof (leaf_codable k v Hk Hv) as Hc. split_and!.
  - cbn [mergeAt]. change (rlp_isEmpty (enc TEmpty)) with true. unfold place.
    change (killNode (enc TEmpty)) with (mret tt : ST OverlayDB unit). rewrite ret_bind.
    change (rlp_isEmpty (enc TEmpty)) with true. cbv iota. rd (hp_all_ok _ _ Hs true). unfold lift.
    destruct (pair_parts _ _ _ Hc). erewrite rlpList_ok; [done|by intros; apply append_bytes_encode..|done].
  - eapply moves_weaken; [by apply moves_refl|lia|]. intros h. change (subtree TEmpty) with (@nil bytes). done.
  - constructor.
Qed.
Lemma merge_split_one fuel t j q i r v : two_item t = true → t_key t = j :: q → i ≠ j →
  codable t → codable (t_lower q t) → small_key (j :: q) → small_key (i :: r) → value_ok v →
  Forall U (filed (enc (t_lower q t))) → Forall U (filed (enc (TLeaf r v))) →
  merge_spec (S (S (S fuel))) t (i :: r) v (TBranch (<[Z.to_nat i := TLeaf r v]> (slot j (t_lower q t)))).
Proof using Hcf sha3_in.
  intros H2 Hk Hij Hc Hlow Hq Hr Hv HU HU' s inl d Hs Hd Hroom Hst _.
  destruct Hr as [Nr Sr]. pose proof (Forall_cons_1 _ _ _ Nr) as [Hi Nr']. destruct Hq as [Nq Sq].
  pose proof (Forall_cons_1 _ _ _ Nq) as [Hj _]. assert (small_key r) as Hr by (cbn [length] in Sr; split; [done|lia]).
  destruct (branch_code t j q d) as (d1&E1&M1&S1); try done; [by apply (room_le _ _ _ Hroom); lia|].
  pose proof (slot_codable j _ Hj Hlow) as Hbr.
  destruct (down_branch (S fuel) (slot j (t_lower q t)) i TEmpty r v (TLeaf r v) s true d1) as (d2&E2&M2&S2); try done.
  { by apply merge_empty. } { apply slot_length. }
  { apply Forall_insert; [|done]. apply Forall_replicate, empty_codable. }
  { rewrite slot_at by done. by rewrite decide_False by congruence. } { by apply leaf_codable. }
  { apply (mv_ok _ _ _ _ _ _ M1). } { by eapply (moves_room U 1). }
  exists d2. split_and!; [|..|done].
  - rewrite (merge_split_head _ t (i :: r)); rewrite ?Hk; try done; [|by intros ?%prefix_cons_inv_1].
    cbn [lcp]. rewrite decide_False by done. change (negb (Z.of_nat 0 =? 0)) with false. run E1. rd (RLP_ok _ Hbr). exact E2.
  - eapply moves_weaken; [eapply moves_trans; [exact M1|exact M2]|lia|]. intros h. cbn [released]. rewrite !cnt_app, cnt_nil. lia.
Qed.
Lemma fork_Forall (P : bytes → Prop) p i t j u : is_nibble i → is_nibble j → i ≠ j → Forall P (nodes (fork p i t j u)) →
  Forall P (subtree t) ∧ Forall P (subtree u) ∧ (p ≠ [] → Forall P (filed (enc (TBranch (<[Z.to_nat i := t]> (slot j u)))))).
Proof.
  intros Hi Hj Hij HP.
  assert (Forall P (nodes (TBranch (<[Z.to_nat i := t]> (slot j u)))) ∧
    (p ≠ [] → Forall P (filed (enc (TBranch (<[Z.to_nat i := t]> (slot j u))))))) as [HP' Hf].
  { destruct p; [done|]. by apply Forall_app in HP as [??]. }
  rewrite nodes_Forall, Forall_lookup in HP'. unfold is_nibble in *. split_and!; [apply (HP' (Z.to_nat i))|apply (HP' (Z.to_nat j))|done].
  - apply list_lookup_insert_eq. rewrite slot_length. lia.
  - rewrite list_lookup_insert_ne by lia. rewrite slot_at by done. by rewrite decide_True.
Qed.
Lemma small_key_app p k : small_key (p ++ k) → small_key p ∧ small_key k.
Proof. intros [[??]%Forall_app Sk]. rewrite length_app in Sk. split; (split; [done|lia]). Qed.
Lemma merge_split fuel t p j q i r v : two_item t = true → t_key t = p ++ j :: q → i ≠ j →
  codable t → codable (t_lower q t) → codable (t_cut (length p) t) →
  small_key (p ++ j :: q) → small_key (p ++ i :: r) → value_ok v →
  Forall U (filed (enc (t_cut (length p) t))) → Forall U (nodes (t_split t (p ++ i :: r) v)) →
  merge_spec (S (S (S (S (S fuel))))) t (p ++ i :: r) v (t_split t (p ++ i :: r) v).
Proof using Hcf sha3_in.
  intros H2 Hk Hij Hc Hlow Hcut Hq Hr Hv HUc HU. rewrite (split_fork _ _ _ _ _ _ _ Hk) in * by done.
  destruct (small_key_app _ _ Hq) as [Hp Hq'], (small_key_app _ _ Hr) as [_ Hr'].
  assert (is_nibble i ∧ is_nibble j) as [Hi Hj] by (destruct Hq' as [[??]%Forall_cons _], Hr' as [[??]%Forall_cons _]; done).
  destruct (fork_Forall U p i (TLeaf r v) j (t_lower q t)) as (HU1&HU2&HU3); try done.
  apply Forall_app in HU1 as [HU1 _], HU2 as [HU2 _].
  destruct p as [|x p]; [by apply (merge_split_one (S (S fuel)))|]. set (p' := x :: p) in *.
  destruct (cut_view (length p') t H2) as (_&En&H2'&Hk'). rewrite Hk, drop_at in Hk'.
  set (cut := t_cut (length p') t) in *. assert (t_lower q cut = t_lower q t) as El by by destruct t.
  set (br := TBranch (<[Z.to_nat i := TLeaf r v]> (slot j (t_lower q t)))).
  change (fork p' i (TLeaf r v) j (t_lower q t)) with (TExt p' br).
  assert (merge_spec (S (S (S fuel))) cut (i :: r) v br) as Hspec by (unfold br; rewrite <-El in *; by apply merge_split_one).
  assert (codable br) as Hbr.
  { apply codable_update; [apply slot_length| |apply leaf_codable; [by apply (small_key_app [i])|done]].
    apply Forall_insert; [|done]. apply Forall_replicate, empty_codable. }
  intros s inl d Hs Hd Hroom Hst _.
  destruct (cleve_code t p' (j :: q) d) as (d1&E1&M1&S1); try done; [by apply (room_le _ _ _ Hroom); lia|].
  destruct (down_ext (S (S (S fuel))) p' cut (i :: r) v br s true d1) as (d2&E2&M2&S2); try done; auto.
  { apply (mv_ok _ _ _ _ _ _ M1). } { by eapply (moves_room U 1). }
  exists d2. split_and!; [|..|done].
  - rewrite (merge_split_head _ t (p' ++ i :: r)); rewrite ?Hk; try done.
    + replace (lcp (p' ++ i :: r) (p' ++ j :: q)) with (length p').
      * change (negb (len p' =? 0)) with true. run E1. rd (RLP_ok _ (ext_codable p' cut Hp Hcut)). exact E2.
      * clear -Hij. induction p' as [|y p' IH]; cbn; [by rewrite decide_False|]. by rewrite decide_True, <-IH.
    + intros Hpre%prefix_app_inv. by apply prefix_cons_inv_1 in Hpre.
  - eapply moves_weaken; [eapply moves_trans; [exact M1|exact M2]|lia|]. intros h. cbn [released]. rewrite !cnt_app, cnt_nil. fold cut. lia.
Qed.

(** A new value in an existing leaf. *)
Lemma merge_place fuel k v0 v : small_key k → codable (TLeaf k v0) → value_ok v → merge_spec (S fuel) (TLeaf k v0) k v (TLeaf k v).
Proof.
  intros Hk Hc Hv s inl d Hs Hd _ _ _. pose proof (leaf_codable k v Hk Hv) as Hc'.
  destruct (release_filed U (enc (TLeaf k v0)) d Hd) as (d1&E1&M1). exists d1. destruct Hk as [Nk Sk].
  assert (is_slice (keyOf_hpe (hp true k)) k) as Hs0 by (apply keyOf_hp; [done|lia]). split_and!.
  - cbn [mergeAt]. unfold enc in *. cbn [node_item] in *. rewrite pair_isEmpty by done.
    rd (pair_count _ _ _ Hc). cbn [Z.eqb Pos.eqb]. rd (pair_keyOf _ _ _ Hc).
    rd (ns_eq_ok _ _ _ _ Hs0 Hs). rewrite bool_decide_eq_true_2 by done. rd (pair_isLeaf _ _ _ Hc Nk).
    unfold place. run E1. rewrite pair_isEmpty by done. rd (pair_count _ _ _ Hc). cbn [Z.eqb Pos.eqb].
    rd (pair_item0 _ _ _ Hc). unfold lift. destruct (pair_parts _ _ _ Hc').
    rewrite (rlpList_ok _ _ (Data (hp true k)) (Data v)); [done|done| |done]. intros. by apply append_bytes_encode.
  - eapply moves_weaken; [exact M1|lia|]. intros h. unfold subtree. rewrite cnt_app. cbn [nodes]. rewrite !cnt_nil. lia.
  - constructor.
Qed.

(** The node a split files on its way, beside those of the new tree. *)
Fixpoint ins_cut (t : tree) (k : list Z) : list bytes :=
  match t with
  | TEmpty => []
  | TLeaf k0 _ => if decide (k0 = k) then [] else filed (enc (t_cut (lcp k k0) t))
  | TExt k0 c => match strip k0 k with Some r => ins_cut c r | None => filed (enc (t_cut (lcp k k0) t)) end
  | TBranch cs => match k with [] => [] | i :: r => nth (Z.to_nat i) ((λ c, ins_cut c r) <$> cs) [] end
  end.

Lemma cut_wf n p q t : two_item t = true → t_key t = p ++ q → q ≠ [] → wf n t →
  wf (n - length p) (t_cut (length p) t).
Proof.
  intros H2 Hk Hq Hw. destruct t as [|k v|k c|cs]; try done; cbn in Hk; subst k; cbn [t_cut]; rewrite drop_at.
  - destruct Hw as (<-&[??]%Forall_app&?). cbn [wf]. rewrite length_app. split_and!; try done. lia.
  - destruct Hw as (_&[??]%Forall_app&?&Hl&Hw). cbn [wf]. rewrite length_app in *. split_and!; try done; [lia|].
    by replace (n - length p - length q)%nat with (n - (length p + length q))%nat by lia.
Qed.
Lemma merge_split_wf fuel n t k v : Z.of_nat n < 2 ^ 30 → two_item t = true → wf n t → key_ok n k → value_ok v →
  ¬ t_key t `prefix_of` k → (5 <= fuel)%nat →
  Forall U (filed (enc (t_cut (lcp k (t_key t)) t))) → Forall U (nodes (t_split t k v)) →
  merge_spec fuel t k v (t_split t k v).
Proof using Hcf sha3_in.
  intros Hn H2 Hw [Hl Nk] Hv Hp Hf HUc HU.
  assert (length (t_key t) <= n)%nat as Hle.
  { destruct t; try done; [destruct Hw as (E&_)|destruct Hw as (_&_&_&E&_)]; cbn; lia. }
  assert (nibbles (t_key t)) as Nt by (destruct t; try done; apply Hw).
  destruct (lcp_split k (t_key t)) as (p&i&r&j&q&->&Hk&Hij&El); [lia|done|]. rewrite El in HUc.
  destruct (lower_wf _ _ _ _ _ H2 Hk Hw) as (_&_&_&Wq&_).
  do 5 (destruct fuel as [|fuel]; [lia|]). rewrite Hk in Nt, Hle.
  apply (merge_split fuel t p j q i r v); try done.
  - by eapply wf_codable.
  - eapply wf_codable; [|exact Wq]. lia.
  - eapply wf_codable; [|by eapply cut_wf]. lia.
  - split; [done|]. lia.
  - split; [done|]. lia.
Qed.

Lemma merge_ok t : ∀ n k v fuel, Z.of_nat n < 2 ^ 30 → wf n t → key_ok n k → value_ok v → (n + 5 <= fuel)%nat →
  Forall U (nodes (t_insert t k v)) → Forall U (ins_cut t k) → merge_spec fuel t k v (t_insert t k v).
Proof using Hcf sha3_in.
  induction t as [|k0 v0|k0 c IH|cs IH] using tree_ind'; intros n k v fuel Hn Hw Hk Hv Hf HU HUc;
    (destruct fuel as [|fuel]; [lia|]); assert (small_key k) as Sk by (destruct Hk as [<- ?]; done).
  - by apply merge_empty.
  - cbn [t_insert ins_cut] in *. destruct (decide (k0 = k)) as [->|Hne].
    + apply merge_place; [done|by eapply wf_codable|done].
    + apply (merge_split_wf _ n); try done; [|lia]. intros Hp. apply Hne. destruct Hw as (?&_), Hk.
      apply prefix_length_eq; [done|]. cbn. lia.
  - cbn [t_insert ins_cut] in *. destruct (strip k0 k) as [r|] eqn:E.
    + apply strip_Some in E as ->. destruct Hw as (Hk0&Nk0&Hb&Hl&Hw). destruct (key_ok_app _ _ _ Hk) as (_&_&Hr).
      cbn [nodes] in HU. apply Forall_app in HU as [HU1 HU2].
      assert (length k0 ≠ 0%nat) by by destruct k0.
      assert (merge_spec fuel c r v (t_insert c r v)) as Hspec by (apply (IH (n - length k0)%nat); try done; lia).
      assert (codable c ∧ codable (t_insert c r v)) as [Hc Hc'].
      { split; (apply (wf_codable (n - length k0)); [lia|]); [done|apply (insert_ok _ _ _ _ Hw Hr Hv)]. }
      intros s inl d Hs Hd Hroom Hst Hinl.
      destruct (down_ext fuel k0 c r v (t_insert c r v) s inl d) as (d'&E'&M'&S'); try done; [by apply (small_key_app k0 r)|].
      exists d'. split_and!; try done. eapply moves_weaken; [exact M'|lia|]. intros h. unfold subtree, released.
      destruct inl; [|done]. rewrite !cnt_app, cnt_nil. pose proof (cnt_nonneg (filed (enc (TExt k0 c))) h). lia.
    + apply (merge_split_wf _ n); try done; [by apply strip_None|lia].
  - destruct n as [|n]; [done|]. destruct k as [|i r]; [by destruct Hk|]. apply key_ok_cons in Hk as [Hi Hr].
    apply wf_branch in Hw as (Hl&Hw&_). destruct (slot_lookup cs i Hl Hi) as [c Hc].
    rewrite (insert_branch _ _ _ _ _ Hc) in *. cbn [ins_cut] in HUc. rewrite (nth_fmap (λ c, ins_cut c r) _ _ _ _ Hc) in HUc.
    assert (wf n c) as Hwc by (rewrite Forall_lookup in Hw; eauto).
    rewrite nodes_Forall, Forall_lookup in HU. specialize (HU (Z.to_nat i) (t_insert c r v)).
    rewrite list_lookup_insert_eq in HU by (by eapply lookup_lt_Some). apply Forall_app in HU as [HU1 HU2]; [|done].
    assert (merge_spec fuel c r v (t_insert c r v)) as Hspec.
    { rewrite Forall_lookup in IH. apply (IH _ _ Hc n); try done; lia. }
    intros s inl d Hs Hd Hroom Hst Hinl.
    destruct (down_branch fuel cs i c r v (t_insert c r v) s inl d) as (d'&E'&M'&S'); try done.
    { eapply Forall_impl; [exact Hw|]. intros e He. eapply wf_codable; [|exact He]. lia. }
    { eapply wf_codable; [|apply (insert_ok _ _ _ _ Hwc Hr Hv)]. lia. }
    exists d'. split_and!; try done. eapply moves_weaken; [exact M'|lia|]. intros h. unfold subtree, released.
    destruct inl; [|done]. rewrite !cnt_app, cnt_nil. pose proof (cnt_nonneg (filed (enc (TBranch cs))) h). lia.
Qed.
End Insert.
