(* ===== verification/TrieRemove.v ===== *)
(** * Removal from an encoded trie

    [deleteAt] on the encoding of a tree returns the encoding of the tree without the
    key, or nothing (and leaves the database alone) when the key is not there. *)
From stdpp Require Import base gmap list.
From Stdlib Require Import ZArith Lia.
From S2P Require Import Prelude Rlp RlpProofs Interfaces Trie TrieNibbles TrieTree TrieCode TrieStore TrieLookup TrieInsert.
Open Scope Z_scope.

Section Remove.
Context `{Crypto} (sha3_in : ∀ b, in256 (sha3 b)) (U : bytes → Prop) (Hcf : collision_free U).

(** ** Nodes that are to be joined *)
(** A pair, or a branch of sixteen. *)
Definition shaped (t : tree) : bool :=
  match t with TEmpty => false | TBranch cs => Nat.eqb (length cs) 16 | _ => true end.
Lemma wf_shaped n t : wf n t → is_used t = true → shaped t = true.
Proof. intros Hw Hu. destruct t as [| | |cs]; try done. destruct n; [done|]. apply wf_branch in Hw as (E&_). cbn. by rewrite E. Qed.
Lemma node_count t : codable t → shaped t = true → itemCount (enc t) = Ok (if two_item t then 2 else 17).
Proof.
  intros Hc Hs. destruct t as [|k v|k c|cs]; cbn [two_item]; [done|by apply pair_count..|].
  apply branch_count; [by apply Nat.eqb_eq|done].
Qed.
Lemma shaped_used t : shaped t = true → is_used t = true.
Proof. by destruct t. Qed.
Lemma child_isData c : codable c → is_used c = true → isData (encode (child_item c)) = (32 <=? len (enc c)).
Proof.
  intros Hc Hu. destruct (Z.leb_spec 32 (len (enc c))) as [Hl|Hl].
  - rewrite child_big by done. rewrite isData_ok; [done|]. apply item_ok_hash. lia.
  - rewrite child_small by done. unfold enc. rewrite isData_ok by done. by rewrite used_items.
Qed.
Lemma isTwoItemNode_ok c d : codable c → shaped c = true → stored d (filed (enc c)) →
  isTwoItemNode (encode (child_item c)) d = (Ok (two_item c), d).
Proof using sha3_in.
  intros Hc Hs Hst. pose proof (shaped_used c Hs) as Hu. unfold isTwoItemNode. rewrite child_isData, child_isList by done.
  destruct (Z.leb_spec 32 (len (enc c))) as [Hl|Hl].
  - destruct (Z.ltb_spec (len (enc c)) 32); [lia|]. rewrite (bind_ok _ _ _ (two_item c) d); [by destruct (two_item c)|].
    rd (child_toHash sha3_in c Hl). destruct (node_big d c Hc Hl Hst) as [En Er]. run En. rd Er.
    rd (node_count c Hc Hs). by destruct (two_item c).
  - destruct (Z.ltb_spec (len (enc c)) 32); [|lia]. rewrite ret_bind, child_small by done.
    rd (node_count c Hc Hs). by destruct (two_item c).
Qed.

Lemma graft_ok k c d : two_item c = true → small_key k → small_key (t_key c) → codable c → codable (t_graft k c) →
  db_ok U d → stored d (filed (enc c)) →
  ∃ d', graft (enc (TExt k c)) d = (Ok (enc (t_graft k c)), d') ∧ moves U 0 d d' (subtree c) (nodes (t_graft k c)).
Proof using sha3_in.
  intros H2 [Nk Sk] [Nc Sc] Hc Hg Hd Hst. assert (codable (TExt k c)) as Ht by (by apply ext_codable).
  assert (is_used c = true) as Hu by by destruct c.
  assert (∃ d', (if isList (encode (child_item c)) then mret (encode (child_item c))
       else lh ← lift (toHash 32 (encode (child_item c))); s ← trie_node lh; forceKillNode lh;; lift (RLP s)) d = (Ok (enc c), d') ∧
    moves U 0 d d' (filed (enc c)) []) as (d'&E&M).
  { rewrite child_isList by done. unfold filed. destruct (Z.ltb_spec (len (enc c)) 32) as [Hl|Hl].
    - exists d. rewrite child_small by done. destruct (Z.leb_spec 32 (len (enc c))); [lia|]. split; [done|by apply moves_refl].
    - destruct (release_node U (enc c) d Hd) as (d'&E&M). exists d'. destruct (Z.leb_spec 32 (len (enc c))); [|lia]. split; [|done].
      rd (child_toHash sha3_in c Hl). destruct (node_big d c Hc Hl Hst) as [En Er]. run En. run E. unfold lift. by rewrite Er. }
  assert (node_item (t_graft k c) = pair_item (t_leaf c) (k ++ t_key c) (t_second c) ∧ nodes (t_graft k c) = nodes c) as [Eg En]
    by by destruct c.
  exists d'. split.
  - unfold graft. unfold enc at 1. rd (pair_item1 _ _ _ Ht). run E. unfold enc in *. unfold codable in *.
    rewrite (pair_view c H2), Eg in *. rd (pair_keyOf _ _ _ Ht). rd (pair_keyOf _ _ _ Hc). rd (pair_isLeaf _ _ _ Hc Nc).
    assert (is_slice (keyOf_hpe (hp false k)) k) as Hs1 by (apply keyOf_hp; [done|lia]).
    assert (is_slice (keyOf_hpe (hp (t_leaf c) (t_key c))) (t_key c)) as Hs2 by (apply keyOf_hp; [done|lia]).
    assert (hexPrefixEncode_join (keyOf_hpe (hp false k)) (keyOf_hpe (hp (t_leaf c) (t_key c))) (t_leaf c) =
      Ok (hp (t_leaf c) (k ++ t_key c))) as Ej by (apply hp_join_ok; [done|done|lia]).
    rd Ej. rd (pair_item1 _ _ _ Hc). unfold lift. erewrite rlpList_ok; [done| |done|done].
    intros s. apply append_bytes_encode, (pair_parts _ _ _ Hg).
  - eapply moves_weaken; [exact M|lia|]. intros h. rewrite En. unfold subtree. rewrite cnt_app, cnt_nil. lia.
Qed.

(** ** A branch with one child left *)
Lemma merge_node_ok cs i c d : length cs = 16%nat → codable (TBranch cs) → cs !! i = Some c → codable c →
  merge_node (enc (TBranch cs)) (Z.of_nat i) d = (Ok (enc (TExt [Z.of_nat i] c)), d).
Proof.
  intros Hl Hc Hi Hcc. pose proof (lookup_lt_Some _ _ _ Hi) as Hlt. unfold merge_node.
  change (rlp_stream 2) with (Ok (stream_of 2 [])). rewrite (lift_bind _ _ _ _ eq_refl).
  rewrite bool_decide_eq_true_2 by lia. assert (nibbles [Z.of_nat i]) as Hn by (repeat constructor; lia).
  assert (codable (TExt [Z.of_nat i] c)) as Ht by (apply ext_codable; [split; [done|cbn; lia]|done]).
  assert (is_slice (mkSlice [Z.of_nat i] 0) [0; Z.of_nat i]) as Hs.
  { split; cbn [ns_data ns_offset]; [repeat constructor; unfold is_byte; lia|cbn; lia|cbn; lia|].
    change (asNibbles [Z.of_nat i]) with [Z.of_nat i / 16; Z.of_nat i mod 16]. cbn [Z.to_nat drop].
    rewrite Z.div_small, Z.mod_small by lia. done. }
  pose proof (hp_range_ok _ _ Hs false 1 1 ltac:(cbn; lia)) as Eh. cbn [take drop] in Eh.
  rewrite (lift_bind _ _ _ _ Eh).
  rewrite append_bytes_encode by apply (pair_parts _ _ _ Ht). set (L := [Data (hp false [Z.of_nat i]); child_item c]).
  rd (stream_append L [] (Data (hp false [Z.of_nat i])) [child_item c] eq_refl Ht). rewrite Nat2Z.id.
  rd (branch_child cs Hc _ _ Hi). rewrite append_rlp_appended. cbn [app].
  rd (stream_append L [Data (hp false [Z.of_nat i])] (child_item c) [] eq_refl Ht). unfold lift. by rewrite stream_out.
Qed.
Lemma merge_or_graft_ok n cs i c d : Z.of_nat n < 2 ^ 29 → length cs = 16%nat → codable (TBranch cs) → cs !! i = Some c →
  wf n c → is_used c = true → db_ok U d → stored d (subtree c) →
  ∃ d', merge_or_graft (enc (TBranch cs)) (Z.of_nat i) d = (Ok (enc (t_graft [Z.of_nat i] c)), d') ∧
    moves U 0 d d' (subtree c) (nodes (t_graft [Z.of_nat i] c)).
Proof using sha3_in.
  intros Hn Hl Hc Hi Hw Hu Hd [Hf Hst]%stored_app. pose proof (lookup_lt_Some _ _ _ Hi) as Hlt.
  assert (codable c) as Hcc by (eapply wf_codable; [|exact Hw]; lia). pose proof (wf_shaped n c Hw Hu) as Hsh.
  assert (nibbles [Z.of_nat i]) as Ni by (repeat constructor; lia).
  assert (small_key [Z.of_nat i]) as Hsi by (split; [done|cbn; lia]).
  assert (codable (TExt [Z.of_nat i] c)) as Ht by by apply ext_codable.
  unfold merge_or_graft. rewrite Nat2Z.id. rd (branch_child cs Hc _ _ Hi). run (isTwoItemNode_ok c d Hcc Hsh Hf).
  pose proof (merge_node_ok cs i c d Hl Hc Hi Hcc) as Em. destruct (two_item c) eqn:H2.
  - run Em. rd (RLP_ok _ Ht). apply graft_ok; try done.
    + destruct c; try done; [destruct Hw as (E&?&_)|destruct Hw as (_&?&_&E&_)]; (split; [done|]); cbn; lia.
    + eapply wf_codable; [|apply (wf_graft [Z.of_nat i] n c); done]. cbn [length]. lia.
  - exists d. destruct c as [| | |cs']; try done. split; [done|]. cbn [t_graft nodes].
    eapply moves_weaken; [by apply moves_refl|lia|]. intros h. unfold subtree. rewrite cnt_nil. cbn [nodes]. lia.
Qed.

Lemma unique_loop_ok cs0 cs a used : length cs0 = 16%nat → codable (TBranch cs0) → Forall codable cs0 →
  drop a cs0 = cs → (a <= 16)%nat →
  unique_loop (enc (TBranch cs0)) 255 (seq a (16 - a) ++ [16%nat]) used =
    Ok (match used_from a cs with
        | [] => used
        | [i] => if used =? 255 then Z.of_nat i else 255
        | _ => 255
        end).
Proof.
  intros Hl Hc Hcs. revert a used. induction cs as [|c cs IH]; intros a used Hd Ha.
  - assert (16 - a = 0)%nat as -> by (apply (f_equal length) in Hd; rewrite length_drop in Hd; cbn in Hd; lia).
    cbn [seq app unique_loop used_from]. rewrite (branch_value cs0 Hl Hc). done.
  - assert (a < 16)%nat as Ha' by (apply (f_equal length) in Hd; rewrite length_drop in Hd; cbn in Hd; lia).
    replace (16 - a)%nat with (S (16 - S a)) by lia. cbn [seq app unique_loop].
    assert (cs0 !! a = Some c) as Hci by (rewrite <-(Nat.add_0_r a), <-lookup_drop, Hd; done).
    rewrite (branch_child cs0 Hc _ _ Hci). cbn [mbind outcome_bind].
    rewrite child_isEmpty by (rewrite Forall_lookup in Hcs; eauto). rewrite negb_involutive.
    assert (drop (S a) cs0 = cs) as Hd' by (replace (S a) with (a + 1)%nat by lia; by rewrite <-drop_drop, Hd).
    destruct (Z.eqb_spec (Z.of_nat a) 255); [lia|]. cbn [negb andb used_from]. destruct (is_used c); [|by apply IH].
    destruct (Z.eqb_spec used 255) as [->|Hu].
    + rewrite IH by (done || lia). destruct (Z.eqb_spec (Z.of_nat a) 255); [lia|]. by destruct (used_from (S a) cs) as [|?[|]].
    + by destruct (used_from (S a) cs).
Qed.
Lemma uniqueInUse_ok cs : length cs = 16%nat → codable (TBranch cs) → Forall codable cs →
  uniqueInUse (enc (TBranch cs)) 255 = Ok (match used_from 0 cs with [i] => Z.of_nat i | _ => 255 end).
Proof.
  intros Hl Hc Hcs. pose proof (unique_loop_ok cs cs 0 255 Hl Hc Hcs (drop_0 cs) ltac:(lia)) as E.
  unfold uniqueInUse. change (seq 0 17) with (seq 0 (16 - 0) ++ [16%nat]). rewrite E. by destruct (used_from 0 cs) as [|?[|]].
Qed.

(** ** What [deleteAt] is to do *)
Definition delete_spec (fuel : nat) (t : tree) (k : list Z) : Prop :=
  ∀ s d, is_slice s k → db_ok U d → room fuel d → stored d (nodes t) →
  match t_remove t k with
  | None => deleteAt fuel (enc t) s d = (Ok [], d)
  | Some t' => ∃ d', deleteAt fuel (enc t) s d = (Ok (enc t'), d') ∧
      moves U fuel d d' (subtree t) (nodes t') ∧ stored d' (nodes t')
  end.

Lemma deleteAtAux_ok fuel c r s d mk L l rest :
  delete_spec fuel c r → codable c → is_slice s r → db_ok U d → room (S fuel) d → stored d (subtree c) →
  match t_remove c r with
  | None => deleteAtAux (deleteAt fuel) mk (encode (child_item c)) s d = (Ok None, d)
  | Some c' => codable c' → mk = stream_of (length L) l → L = l ++ child_item c' :: rest → item_ok (Items L) →
      Forall U (filed (enc c')) →
      ∃ d', deleteAtAux (deleteAt fuel) mk (encode (child_item c)) s d =
          (Ok (Some (stream_of (length L) (l ++ [child_item c']))), d') ∧
        moves U (S fuel) d d' (subtree c) (subtree c') ∧ stored d' (subtree c')
  end.
Proof using Hcf sha3_in.
  intros Hspec Hc Hs Hd Hr [Hf Hst]%stored_app. unfold deleteAtAux. rewrite child_isEmpty by done.
  destruct (is_used c) eqn:Hu; cbn [negb]; [|by destruct c].
  specialize (Hspec s d Hs Hd ltac:(apply (room_le _ _ _ Hr); lia) Hst). destruct (t_remove c r) as [c'|].
  - intros Hc' -> HL Hok HU. destruct Hspec as (d1&E1&M1&S1).
    destruct (streamNode_ok sha3_in U Hcf c' L l rest d1) as (d2&E2&M2&S2); try done;
      [apply (mv_ok _ _ _ _ _ _ M1)|eapply moves_room; [exact M1|]; by rewrite Nat.add_1_r|].
    exists d2. split_and!.
    + rewrite (bind_ok _ _ _ (enc c') d1) by (by run (child_node_ok sha3_in c d Hc Hu Hf)).
      rewrite bool_decide_eq_false_2 by by apply enc_nonempty. by run E2.
    + eapply moves_weaken; [eapply moves_trans; [exact M1|exact M2]|lia|].
      intros h. unfold subtree. rewrite !cnt_app, cnt_nil. lia.
    + apply stored_app. split; [done|]. by eapply moves_stored.
  - by rewrite (bind_ok _ _ _ [] d) by (by run (child_node_ok sha3_in c d Hc Hu Hf)).
Qed.

(** ** Removing under an extension *)
Lemma join_ext n k0 c d : Z.of_nat n < 2 ^ 29 → k0 ≠ [] → small_key k0 → wf n c → is_used c = true →
  codable (t_graft k0 c) → db_ok U d → stored d (subtree c) →
  ∃ d', (y ← lift (item (enc (TExt k0 c)) 1); two ← isTwoItemNode y;
         if two : bool then graft (enc (TExt k0 c)) else mret (enc (TExt k0 c))) d = (Ok (enc (t_graft k0 c)), d') ∧
    moves U 0 d d' (subtree c) (nodes (t_graft k0 c)) ∧ stored d' (nodes (t_graft k0 c)).
Proof using sha3_in.
  intros Hn Hk0 Sk0 Hw Hu Hg Hd Hst. pose proof Hst as [Hf Hns]%stored_app.
  assert (codable c) as Hc by (eapply wf_codable; [|exact Hw]; lia). pose proof (wf_shaped n c Hw Hu) as Hsh.
  pose proof (ext_codable k0 c Sk0 Hc) as Ht. unfold enc at 1. rd (pair_item1 _ _ _ Ht). run (isTwoItemNode_ok c d Hc Hsh Hf).
  destruct (two_item c) eqn:H2.
  - destruct (graft_ok k0 c d) as (d'&E&M); try done.
    { destruct c; try done; [destruct Hw as (E&?&_)|destruct Hw as (_&?&_&E&_)]; (split; [done|]); cbn; lia. }
    exists d'. split_and!; try done. eapply moves_stored; [exact M|]. by destruct c.
  - exists d. destruct c as [| | |cs]; try done. split_and!; [done| |done].
    eapply moves_weaken; [by apply moves_refl|lia|]. intros h. unfold subtree. cbn [t_graft nodes]. rewrite cnt_nil. lia.
Qed.
Lemma delete_ext_head fuel k0 c r s d : small_key k0 → codable (TExt k0 c) → is_slice s (k0 ++ r) →
  deleteAt (S fuel) (enc (TExt k0 c)) s d =
    ((o ← deleteAtAux (deleteAt fuel) (stream_of 2 [Data (hp false k0)]) (encode (child_item c)) (ns_mid s (len k0));
      match o with
      | None => mret []
      | Some st =>
          killNode (enc (TExt k0 c));; b ← lift (out st); r ← lift (RLP b);
          y ← lift (item r 1); two ← isTwoItemNode y; if two : bool then graft r else mret b
      end) : ST OverlayDB bytes) d.
Proof.
  intros [Nk Sk] Ht Hs. assert (is_slice (keyOf_hpe (hp false k0)) k0) as Hs0 by (apply keyOf_hp; [done|lia]).
  cbn [deleteAt]. unfold enc in *. cbn [node_item] in *. rewrite pair_isEmpty by done.
  rd (pair_count _ _ _ Ht). cbn [Z.eqb Pos.eqb]. rd (pair_keyOf _ _ _ Ht). rd (ns_eq_ok _ _ _ _ Hs0 Hs).
  rewrite (bind_ok _ _ _ false d) by (case_bool_decide; [unfold lift; by rewrite pair_isLeaf|done]).
  rd (ns_contains_ok _ _ _ _ Hs Hs0). rewrite bool_decide_eq_true_2 by by apply prefix_app_r.
  change (rlp_stream 2) with (Ok (stream_of 2 [])). rewrite (lift_bind _ _ _ _ eq_refl). rd (pair_item0 _ _ _ Ht).
  rewrite append_rlp_appended.
  rewrite (lift_bind _ _ _ _ (stream_append [Data (hp false k0); child_item c] [] (Data (hp false k0)) [child_item c] eq_refl Ht)).
  rd (pair_item1 _ _ _ Ht). by rewrite (ns_size_ok _ _ Hs0).
Qed.
Lemma delete_ext fuel n k0 c r : Z.of_nat n < 2 ^ 29 → delete_spec fuel c r → wf n (TExt k0 c) →
  key_ok n (k0 ++ r) → match t_remove c r with Some c' => Forall U (filed (enc c')) | None => True end →
  delete_spec (S fuel) (TExt k0 c) (k0 ++ r).
Proof using Hcf sha3_in.
  intros Hn Hspec Hw Hk HU s d Hs Hd Hr Hst. cbn [t_remove]. rewrite strip_app.
  assert (codable (TExt k0 c)) as Ht by (eapply wf_codable; [|exact Hw]; lia).
  destruct Hw as (Hk0&Nk0&Hb&Hl&Hw). assert (codable c) as Hc by (eapply wf_codable; [|exact Hw]; lia).
  assert (small_key k0) as Sk0 by (split; [done|lia]). destruct (key_ok_app _ _ _ Hk) as (_&_&Hkr).
  assert (is_slice (ns_mid s (len k0)) r) as Hs'.
  { pose proof (ns_mid_ok _ _ Hs (length k0)) as Hm. rewrite drop_app_length in Hm. apply Hm. rewrite length_app. lia. }
  set (X := Data (hp false k0)). rewrite (delete_ext_head fuel k0 c r s d Sk0 Ht Hs). fold X.
  pose proof (t_remove_ok c _ r Hw Hkr) as Hrm.
  pose proof (deleteAtAux_ok fuel c r _ d (stream_of 2 [X]) [X; child_item (default TEmpty (t_remove c r))] [X] [] Hspec Hc Hs' Hd Hr Hst) as Haux.
  destruct (t_remove c r) as [c'|]; cbn [default] in Haux; [|by run Haux].
  destruct Hrm as (Wc'&Uc'&_&_). assert (codable c') as Hc' by (eapply wf_codable; [|exact Wc']; lia).
  pose proof (ext_codable k0 c' Sk0 Hc') as Ht'. destruct (Haux Hc' eq_refl eq_refl Ht' HU) as (d1&E1&M1&S1). run E1.
  destruct (release_filed U (enc (TExt k0 c)) d1) as (d2&E2&M2); [apply (mv_ok _ _ _ _ _ _ M1)|]. run E2.
  assert (codable (t_graft k0 c')) as Hg.
  { apply (wf_codable (length k0 + (n - length k0))); [lia|]. apply wf_graft; auto. }
  destruct (join_ext (n - length k0) k0 c' d2) as (d3&E3&M3&S3); try done; auto.
  { lia. } { apply (mv_ok _ _ _ _ _ _ M2). } { by eapply moves_stored. }
  exists d3. split_and!; [|..|done].
  - cbn [length app]. rewrite (lift_bind _ _ _ _ (stream_out 2 [X; child_item c'] eq_refl)). rewrite (lift_bind _ _ _ _ (RLP_ok _ Ht')). exact E3.
  - eapply moves_weaken; [eapply moves_trans; [exact M1|eapply moves_trans; [exact M2|exact M3]]|lia|].
    intros h. unfold subtree. cbn [nodes]. rewrite !cnt_app, cnt_nil. lia.
Qed.

(** ** Removing under a branch *)
Lemma delete_branch_head fuel cs i r s d : length cs = 16%nat → codable (TBranch cs) → is_slice s (i :: r) →
  deleteAt (S fuel) (enc (TBranch cs)) s d =
    ((o ← foldM (λ o j,
            match o with
            | None => mret None
            | Some st =>
                x ← lift (item (enc (TBranch cs)) j);
                if Z.of_nat j =? i then deleteAtAux (deleteAt fuel) st x (ns_mid s 1)
                else st ← lift (append_rlp x st); mret (Some st)
            end) (Some (stream_of 17 [])) (seq 0 17);
      match o with
      | None => mret []
      | Some st =>
          killNode (enc (TBranch cs));; b ← lift (out st); rlp ← lift (RLP b);
          used ← lift (uniqueInUse rlp 255); if used =? 255 then mret b else merge_or_graft rlp used
      end) : ST OverlayDB bytes) d.
Proof.
  intros Hl Ht Hs. cbn [deleteAt]. rewrite branch_isEmpty by done. rd (branch_count cs Hl Ht). cbn [Z.eqb Pos.eqb].
  rd (branch_value cs Hl Ht). rewrite (ns_size_ok _ _ Hs). cbn [length].
  destruct (Z.eqb_spec (Z.of_nat (S (length r))) 0); [lia|]. cbn [andb].
  by rd (proj1 (slice_drop1 _ _ Hs i r eq_refl)).
Qed.
Lemma foldM_none {S A B} (f : option B → A → ST S (option B)) l s :
  (∀ x, f None x s = (Ok None, s)) → foldM f None l s = (Ok None, s).
Proof. intros Hf. induction l as [|x l IH]; [done|]. cbn [foldM]. by run (Hf x). Qed.

(** The loop stops being of interest when the child did not hold the key. *)
Lemma delete_loop_none (f : option RLPStream → nat → ST OverlayDB (option RLPStream)) cs n d :
  length cs = 16%nat → (n < 16)%nat → codable (TBranch cs) →
  (∀ j x st st', j ≠ n → items cs !! j = Some x → appended x st = Ok st' → f (Some st) j d = (Ok (Some st'), d)) →
  (∀ st, f (Some st) n d = (Ok None, d)) → (∀ j, f None j d = (Ok None, d)) →
  foldM f (Some (stream_of 17 [])) (seq 0 17) d = (Ok None, d).
Proof.
  intros Hl Hn Hc Hf Hnone Hrest.
  replace (seq 0 17) with (seq 0 n ++ n :: seq (S n) (16 - n))
    by (change (n :: seq (S n) (16 - n)) with (seq n (S (16 - n))); rewrite <-seq_app; f_equal; lia).
  pose proof (items_length cs Hl) as HL.
  pose proof (append_run Some f (items cs) 0 n d Hc ltac:(lia) ltac:(intros; eapply Hf; [lia|done..])) as R.
  rewrite HL in R. rewrite foldM_app. run R. cbn [foldM]. run (Hnone (stream_of 17 (take (0 + n) (items cs)))).
  by apply foldM_none.
Qed.

(** What is left of the branch is a branch, or its last child with the nibble in front. *)
Lemma collapse_code n cs d : Z.of_nat n < 2 ^ 29 → length cs = 16%nat → Forall (wf n) cs →
  db_ok U d → stored d (nodes (TBranch cs)) →
  ∃ d', (used ← lift (uniqueInUse (enc (TBranch cs)) 255);
         if used =? 255 then mret (enc (TBranch cs)) else merge_or_graft (enc (TBranch cs)) used) d =
      (Ok (enc (t_collapse cs)), d') ∧
    moves U 0 d d' (nodes (TBranch cs)) (nodes (t_collapse cs)) ∧ stored d' (nodes (t_collapse cs)).
Proof using sha3_in.
  intros Hn Hl Hw Hd Hst.
  assert (Forall codable cs) as Hcs by (eapply Forall_impl; [exact Hw|]; intros; eapply wf_codable; [|done]; lia).
  pose proof (branch_codable cs Hl Hcs) as Hc. rd (uniqueInUse_ok cs Hl Hc Hcs).
  assert (∃ d', (mret (enc (TBranch cs)) : ST OverlayDB bytes) d = (Ok (enc (TBranch cs)), d') ∧
    moves U 0 d d' (nodes (TBranch cs)) (nodes (TBranch cs)) ∧ stored d' (nodes (TBranch cs))) as Hstay.
  { exists d. split_and!; [done| |done]. eapply moves_weaken; [by apply moves_refl|done|]. intros h. rewrite cnt_nil. lia. }
  destruct (collapse_cases cs) as [(i&c&Eu&Hi&Uc&->&Hrest)|(Hnot&->&_)].
  - rewrite Eu. pose proof (lookup_lt_Some _ _ _ Hi) as Hlt. destruct (Z.eqb_spec (Z.of_nat i) 255); [lia|].
    pose proof Hst as Hst'. rewrite nodes_branch, Forall_lookup in Hst'. rewrite Forall_lookup in Hw.
    destruct (merge_or_graft_ok n cs i c d) as (d'&E&M); try done; eauto. exists d'. split_and!; [done|..].
    + assert (cs = slot (Z.of_nat i) c) as Ecs.
      { apply list_eq_same_length with 16%nat; [|done|]; [apply slot_length|]. intros j x y Hj Hx Hy.
        replace j with (Z.to_nat (Z.of_nat j)) in Hy by lia. rewrite slot_at in Hy by (unfold is_nibble; lia).
        destruct (decide (j = i)) as [->|Hji].
        - rewrite decide_True in Hy by done. congruence.
        - rewrite decide_False in Hy by lia. simplify_eq. by apply (Hrest j). }
      eapply moves_weaken; [exact M|lia|]. intros h. rewrite Ecs at 1. rewrite cnt_slot by (unfold is_nibble; lia). lia.
    + destruct (proj1 (stored_app _ _ _) (Hst' _ _ Hi)) as [_ Hns]. eapply moves_stored; [exact M|]. destruct c; try done. by apply (Hst' i).
  - destruct (used_from 0 cs) as [|i [|]] eqn:Eu; [exact Hstay|by destruct (Hnot i)|exact Hstay].
Qed.
Lemma delete_branch fuel n cs i c r : Z.of_nat n < 2 ^ 28 → delete_spec fuel c r → wf (S n) (TBranch cs) →
  is_nibble i → key_ok n r → cs !! Z.to_nat i = Some c →
  match t_remove c r with Some c' => Forall U (filed (enc c')) | None => True end →
  delete_spec (S fuel) (TBranch cs) (i :: r).
Proof using Hcf sha3_in.
  intros Hn Hspec Hw Hi Hr Hci HU s d Hs Hd Hroom Hst. rewrite (remove_branch _ _ _ _ Hci).
  apply wf_branch in Hw as (Hl&Hw&_). assert (wf n c) as Hwc by (rewrite Forall_lookup in Hw; eauto).
  assert (Forall codable cs) as Hcs by (eapply Forall_impl; [exact Hw|]; intros; eapply wf_codable; [|done]; lia).
  pose proof (branch_codable cs Hl Hcs) as Hc. assert (codable c) as Hcc by (eapply wf_codable; [|exact Hwc]; lia).
  rewrite (delete_branch_head fuel cs i r s d Hl Hc Hs). destruct (slice_drop1 _ _ Hs i r eq_refl) as [_ Hs'].
  pose proof Hst as Hst'. rewrite nodes_branch, Forall_lookup in Hst'. specialize (Hst' _ _ Hci).
  assert (Z.to_nat i < 16)%nat as Hi' by (unfold is_nibble in Hi; lia). set (k := Z.to_nat i) in *.
  assert (Z.of_nat k = i) as Hk by (unfold is_nibble in Hi; lia).
  pose proof (t_remove_ok c _ r Hwc Hr) as Hrm. set (c'' := default TEmpty (t_remove c r)). set (L := items (<[k := c'']> cs)).
  pose proof (λ mk, deleteAtAux_ok fuel c r (ns_mid s 1) d mk L (take k L) (drop (S k) L) Hspec Hcc Hs' Hd Hroom Hst') as Haux.
  set (f := λ (o : option RLPStream) (j : nat), _).
  assert (∀ e j x st st', j ≠ k → items cs !! j = Some x → appended x st = Ok st' → f (Some st) j e = (Ok (Some st'), e)) as Hf.
  { intros e j x st st' Hj Hx Ha. unfold f. rd (items_lookup cs j x Hl Hc Hx).
    destruct (Z.eqb_spec (Z.of_nat j) i); [lia|]. rewrite append_rlp_appended. by rd Ha. }
  assert (∀ st e, f (Some st) k e = deleteAtAux (deleteAt fuel) st (encode (child_item c)) (ns_mid s 1) e) as Hfk.
  { intros st e. unfold f. rd (branch_child cs Hc _ _ Hci). by rewrite (proj2 (Z.eqb_eq _ _) Hk). }
  destruct (t_remove c r) as [c'|]; cbn [fmap option_fmap option_map]; cbn [default] in c''.
  - destruct Hrm as (Wc'&_&_&_). assert (codable c') as Hc' by (eapply wf_codable; [|exact Wc']; lia).
    pose proof (codable_update cs k c' Hl Hcs Hc') as Hbr.
    destruct (Haux (stream_of (length L) (take k L)) Hc' eq_refl) as (d1&E1&M1&S1); try done.
    { apply items_split, list_lookup_insert_eq. lia. }
    rewrite (bind_ok _ _ _ (Some (stream_of 17 L)) d1).
    2: { replace L with (take 17 L) at 1 by (apply firstn_all2; unfold L; rewrite items_length; [lia|by rewrite length_insert]).
         apply (replace_loop Some); [done|lia|lia|done|done|]. cbn zeta. rewrite Hfk. exact E1. }
    destruct (release_filed U (enc (TBranch cs)) d1) as (d2&E2&M2); [apply (mv_ok _ _ _ _ _ _ M1)|]. run E2.
    destruct (collapse_code n (<[k := c']> cs) d2) as (d3&E3&M3&S3); [lia|by rewrite length_insert|by apply Forall_insert|..].
    { apply (mv_ok _ _ _ _ _ _ M2). }
    { eapply moves_stored; [exact M2|]. by eapply stored_update. }
    exists d3. split_and!; [|..|done].
    + assert (length L = 17%nat) as HL by (apply items_length; by rewrite length_insert).
      rewrite (lift_bind _ _ _ _ (stream_out 17 L HL)). rewrite (lift_bind _ _ _ _ (RLP_ok _ Hbr)). exact E3.
    + eapply moves_weaken; [eapply moves_trans; [exact M1|eapply moves_trans; [exact M2|exact M3]]|lia|].
      intros h. unfold subtree at 1. rewrite !cnt_app, (cnt_update _ _ _ _ _ Hci), cnt_nil. lia.
  - rewrite (bind_ok _ _ _ None d); [done|]. apply (delete_loop_none f cs k); try done; [by apply Hf|].
    intros st. rewrite Hfk. apply Haux.
Qed.

(** The nodes a removal files: what is left of each node on the way down. *)
Fixpoint del_mid (t : tree) (k : list Z) : list bytes :=
  match t with
  | TEmpty | TLeaf _ _ => []
  | TExt k0 c =>
      match strip k0 k with
      | Some r => match t_remove c r with Some c' => filed (enc c') ++ del_mid c r | None => [] end
      | None => []
      end
  | TBranch cs =>
      match k with
      | [] => []
      | i :: r => nth (Z.to_nat i) ((λ c,
          match t_remove c r with Some c' => filed (enc c') ++ del_mid c r | None => [] end) <$> cs) []
      end
  end.
Lemma delete_leaf fuel n k0 v0 k : Z.of_nat n < 2 ^ 30 → wf n (TLeaf k0 v0) → key_ok n k → delete_spec (S fuel) (TLeaf k0 v0) k.
Proof.
  intros Hn Hw [Hl _] s d Hs Hd Hr Hst. pose proof (wf_codable _ _ Hn Hw) as Hc. destruct Hw as (Hl0&Nk&_).
  assert (is_slice (keyOf_hpe (hp true k0)) k0) as Hs0 by (apply keyOf_hp; [done|lia]).
  cbn [t_remove deleteAt]. unfold enc in *. cbn [node_item] in *. rewrite pair_isEmpty by done.
  rd (pair_count _ _ _ Hc). cbn [Z.eqb Pos.eqb]. rd (pair_keyOf _ _ _ Hc). rd (ns_eq_ok _ _ _ _ Hs0 Hs).
  rewrite bool_decide_decide. destruct (decide (k0 = k)) as [->|Hne].
  - destruct (release_filed U (enc (TLeaf k v0)) d Hd) as (d'&E&M). exists d'. rd (pair_isLeaf _ _ _ Hc Nk).
    split_and!; [by run E| |constructor]. eapply moves_weaken; [exact M|lia|]. intros h. unfold subtree.
    rewrite cnt_app, cnt_nil. cbn [nodes]. rewrite cnt_nil. lia.
  - rewrite ret_bind. rd (ns_contains_ok _ _ _ _ Hs Hs0). rewrite bool_decide_eq_false_2; [done|].
    intros Hp. apply Hne. apply prefix_length_eq; [done|]. lia.
Qed.
Lemma delete_ext_miss fuel n k0 c k : Z.of_nat n < 2 ^ 30 → wf n (TExt k0 c) → strip k0 k = None →
  delete_spec (S fuel) (TExt k0 c) k.
Proof.
  intros Hn Hw Hk s d Hs Hd Hr Hst. pose proof (wf_codable _ _ Hn Hw) as Hc. destruct Hw as (_&Nk&_&Hl&_).
  assert (is_slice (keyOf_hpe (hp false k0)) k0) as Hs0 by (apply keyOf_hp; [done|lia]).
  cbn [t_remove deleteAt]. rewrite Hk. unfold enc in *. cbn [node_item] in *. rewrite pair_isEmpty by done.
  rd (pair_count _ _ _ Hc). cbn [Z.eqb Pos.eqb]. rd (pair_keyOf _ _ _ Hc). rd (ns_eq_ok _ _ _ _ Hs0 Hs).
  rewrite (bind_ok _ _ _ false d) by (case_bool_decide; [unfold lift; by rewrite pair_isLeaf|done]).
  rd (ns_contains_ok _ _ _ _ Hs Hs0). by rewrite bool_decide_eq_false_2 by by apply strip_None.
Qed.
Lemma del_mid_none t k : t_remove t k = None → del_mid t k = [].
Proof.
  destruct t as [| |k0 c|cs]; cbn; try done.
  - destruct (strip k0 k) as [r|]; [|done]. by destruct (t_remove c r).
  - destruct k as [|i r]; [done|]. destruct (cs !! Z.to_nat i) as [c|] eqn:Hc.
    + rewrite (nth_fmap (λ c, t_remove c r) _ _ _ _ Hc), (nth_fmap _ _ _ _ _ Hc). by destruct (t_remove c r).
    + intros _. apply nth_overflow. rewrite length_fmap. by apply lookup_ge_None.
Qed.
Lemma del_mid_child c r :
  Forall U (match t_remove c r with Some c' => filed (enc c') ++ del_mid c r | None => [] end) →
  Forall U (del_mid c r) ∧ match t_remove c r with Some c' => Forall U (filed (enc c')) | None => True end.
Proof.
  destruct (t_remove c r) as [c'|] eqn:E; [by intros [??]%Forall_app|]. intros _. by rewrite del_mid_none.
Qed.
Lemma delete_spec_ok t : ∀ n k fuel, Z.of_nat n < 2 ^ 28 → wf n t → key_ok n k → (n < fuel)%nat →
  Forall U (del_mid t k) → delete_spec fuel t k.
Proof using Hcf sha3_in.
  induction t as [|k0 v0|k0 c IH|cs IH] using tree_ind'; intros n k fuel Hn Hw Hk Hf HU; (destruct fuel as [|fuel]; [lia|]).
  - done.
  - apply (delete_leaf fuel n); [lia|done..].
  - cbn [del_mid] in HU. destruct (strip k0 k) as [r|] eqn:E; [|apply (delete_ext_miss fuel n); [lia|done..]].
    apply strip_Some in E as ->. pose proof Hw as (Hk0&_&_&Hl&Hwc). destruct (key_ok_app _ _ _ Hk) as (_&_&Hr).
    assert (length k0 ≠ 0%nat) by by destruct k0. apply del_mid_child in HU as [HU1 HU2].
    apply (delete_ext fuel n); try done; [lia|]. apply (IH (n - length k0)%nat); try done; lia.
  - destruct n as [|n]; [done|]. destruct k as [|i r]; [by destruct Hk|]. apply key_ok_cons in Hk as [Hi Hr].
    pose proof Hw as (Hl&Hwc&_)%wf_branch. destruct (slot_lookup cs i Hl Hi) as [c Hc]. cbn [del_mid] in HU.
    rewrite (nth_fmap _ _ _ _ _ Hc) in HU. apply del_mid_child in HU as [HU1 HU2].
    rewrite Forall_lookup in Hwc, IH.
    apply (delete_branch fuel n cs i c r); try done; [lia|]. apply (IH _ _ Hc n); [lia|by eapply Hwc|done|lia|done].
Qed.
End Remove.
