(* ===== verification/TrieMap.v ===== *)
(** * A trie is a finite map

    [tree_of m] is the canonical tree of a map from keys of one length to values,
    [root_of m] its root hash, and [represents d r m] says that the trie with root [r]
    in database [d] holds [m].  The operations of [GenericTrieDB] act on the trie as
    lookup, insertion and removal act on the map. *)
From stdpp Require Import base gmap list.
From Stdlib Require Import ZArith Lia.
From S2P Require Import Prelude Rlp RlpProofs Interfaces Trie TrieNibbles TrieTree TrieCode TrieStore TrieLookup TrieInsert TrieRemove.
Open Scope Z_scope.

(** ** Keys *)
Definition key_bytes (L : nat) (k : bytes) : Prop := length k = L ∧ Forall is_byte k.
Lemma key_bytes_ok L k : key_bytes L k → key_ok (2 * L) (asNibbles k).
Proof. intros [Hl Hb]. split; [rewrite length_asNibbles; lia|by apply asNibbles_ok]. Qed.
Lemma asNibbles_inj k1 : ∀ k2, asNibbles k1 = asNibbles k2 → k1 = k2.
Proof.
  induction k1 as [|x k1 IH]; intros [|y k2]; rewrite ?asNibbles_cons; try done. intros [= E1 E2 E3]. f_equal; [|by apply IH].
  rewrite (Z.div_mod x 16), (Z.div_mod y 16) by lia. congruence.
Qed.
Lemma key_nibbles L k : key_ok (2 * L) k → key_bytes L (pack k) ∧ asNibbles (pack k) = k.
Proof.
  intros [Hl Hk]. assert (Nat.odd (length k) = false) as Ho.
  { rewrite Hl, <-Nat.negb_even. apply negb_false_iff, Nat.even_spec. by exists L. }
  pose proof (asNibbles_pack k Ho Hk) as E. split; [|done]. split; [|by apply pack_bytes].
  apply (f_equal length) in E. rewrite length_asNibbles in E. lia.
Qed.

(** ** The tree of a map *)
Definition map_ok (L : nat) (m : gmap bytes bytes) : Prop := map_Forall (λ k v, key_bytes L k ∧ value_ok v) m.
Definition tree_of (m : gmap bytes bytes) : tree := map_fold (λ k v t, t_insert t (asNibbles k) v) TEmpty m.

Lemma map_ok_insert L m k v : map_ok L m → key_bytes L k → value_ok v → map_ok L (<[k := v]> m).
Proof. intros Hm Hk Hv. by apply map_Forall_insert_2. Qed.
Lemma map_ok_delete L m k : map_ok L m → map_ok L (delete k m).
Proof. intros Hm. by apply map_Forall_delete. Qed.

Lemma tree_of_spec L m : map_ok L m →
  wf (2 * L) (tree_of m) ∧ ∀ k, key_bytes L k → t_at (tree_of m) (asNibbles k) = default [] (m !! k).
Proof.
  unfold tree_of. apply (map_fold_weak_ind (λ t m, map_ok L m → wf (2 * L) t ∧ ∀ k, key_bytes L k → t_at t (asNibbles k) = default [] (m !! k))).
  - by intros _.
  - intros k v m' t Hk IH Hm. apply map_Forall_insert in Hm as [[Hkb Hv] Hm]; [|done]. destruct (IH Hm) as [Hw Ha].
    destruct (insert_ok t _ (asNibbles k) v Hw (key_bytes_ok _ _ Hkb) Hv) as [Hw' Ha']. split; [done|].
    intros k' Hk'. rewrite Ha' by by apply key_bytes_ok. case_decide as E.
    + apply asNibbles_inj in E as ->. by rewrite lookup_insert_eq.
    + rewrite lookup_insert_ne by congruence. by apply Ha.
Qed.
Lemma tree_of_wf L m : map_ok L m → wf (2 * L) (tree_of m).
Proof. apply tree_of_spec. Qed.
Lemma tree_of_at L m k : map_ok L m → key_bytes L k → t_at (tree_of m) (asNibbles k) = default [] (m !! k).
Proof. intros Hm. by apply tree_of_spec. Qed.
(** No other canonical tree holds the map. *)
Lemma tree_of_unique L m t : map_ok L m → wf (2 * L) t →
  (∀ k, key_bytes L k → t_at t (asNibbles k) = default [] (m !! k)) → t = tree_of m.
Proof.
  intros Hm Hw Ha. apply (same_map_eq t (2 * L)); [done|by apply tree_of_wf|]. intros k Hk.
  destruct (key_nibbles L k Hk) as [Hkb <-]. rewrite Ha by done. symmetry. by eapply tree_of_at.
Qed.
Lemma tree_of_insert L m k v : map_ok L m → key_bytes L k → value_ok v →
  tree_of (<[k := v]> m) = t_insert (tree_of m) (asNibbles k) v.
Proof.
  intros Hm Hk Hv. symmetry. apply (tree_of_unique L); [by apply map_ok_insert|..];
    destruct (insert_ok (tree_of m) (2 * L) (asNibbles k) v) as [Hw Ha]; try done;
    [by apply tree_of_wf|by apply key_bytes_ok|by apply tree_of_wf|by apply key_bytes_ok|].
  intros k' Hk'. rewrite Ha by by apply key_bytes_ok. case_decide as E.
  - apply asNibbles_inj in E as ->. by rewrite lookup_insert_eq.
  - rewrite lookup_insert_ne by congruence. by eapply tree_of_at.
Qed.
Lemma tree_of_delete L m k : map_ok L m → key_bytes L k → tree_of (delete k m) = t_delete (tree_of m) (asNibbles k).
Proof.
  intros Hm Hk. symmetry. destruct (delete_ok (tree_of m) (2 * L) (asNibbles k)) as [Hw Ha];
    [by apply tree_of_wf|by apply key_bytes_ok|].
  apply (tree_of_unique L); [by apply map_ok_delete|done|].
  intros k' Hk'. rewrite Ha by by apply key_bytes_ok. case_decide as E.
  - apply asNibbles_inj in E as ->. by rewrite lookup_delete_eq.
  - rewrite lookup_delete_ne by congruence. by eapply tree_of_at.
Qed.
Lemma tree_of_remove L m k : map_ok L m → key_bytes L k →
  match t_remove (tree_of m) (asNibbles k) with
  | None => delete k m = m
  | Some t' => tree_of (delete k m) = t' ∧ is_Some (m !! k)
  end.
Proof.
  intros Hm Hk. pose proof (t_remove_ok (tree_of m) (2 * L) (asNibbles k) (tree_of_wf _ _ Hm) (key_bytes_ok _ _ Hk)) as Hr.
  pose proof (tree_of_delete L m k Hm Hk) as Hd. unfold t_delete in Hd. destruct (t_remove (tree_of m) (asNibbles k)) as [t'|].
  - cbn in Hd. split; [done|]. destruct Hr as (_&_&Hn&_). rewrite (tree_of_at L) in Hn by done. by destruct (m !! k).
  - apply delete_id. rewrite (tree_of_at L) in Hr by done. destruct (m !! k) as [v|] eqn:E; [|done].
    destruct (Hm _ _ E) as [_ [? _]]. by cbn in Hr.
Qed.

Section Map.
Context `{Crypto} (sha3_in : ∀ b, in256 (sha3 b)) (U : bytes → Prop) (Hcf : collision_free U).

(** What the database holds of a trie: its root node, always, and the nodes below. *)
Definition all_nodes (m : gmap bytes bytes) : list bytes := enc (tree_of m) :: nodes (tree_of m).
Definition root_of (m : gmap bytes bytes) : h256 := sha3 (enc (tree_of m)).
Definition represents (d : OverlayDB) (r : h256) (m : gmap bytes bytes) : Prop := r = root_of m ∧ stored d (all_nodes m).

(** What an insertion and a removal file in the database. *)
Definition insert_writes (m : gmap bytes bytes) (k v : bytes) : list bytes :=
  all_nodes (<[k := v]> m) ++ ins_cut (tree_of m) (asNibbles k).
Definition remove_writes (m : gmap bytes bytes) (k : bytes) : list bytes :=
  enc (tree_of (delete k m)) :: del_mid (tree_of m) (asNibbles k).

(** The root is released whatever its size, and filed whatever its size. *)
Lemma swap_root W m0 d d1 d2 t t' r : moves U W d d1 (subtree t) (nodes t') → r = sha3 (enc t) →
  (when (len (enc t) <? 32) (forceKillNode r) d1 = (Ok tt, d2)) → codable t' → U (enc t') → room (S W) d → stored d1 (nodes t') →
  (m0 : nat) = S W →
  ∃ d', forceInsertNode (enc t') d2 = (Ok (sha3 (enc t')), d') ∧ moves U m0 d d' (enc t :: nodes t) (enc t' :: nodes t') ∧
    stored d' (enc t' :: nodes t').
Proof using Hcf sha3_in.
  intros M1 -> Hk Hc HU Hr Hst ->.
  assert (moves U 0 d1 d2 (if len (enc t) <? 32 then [enc t] else []) []) as M2.
  { destruct (len (enc t) <? 32); cbn [when] in Hk.
    - destruct (release_node U (enc t) d1 (mv_ok _ _ _ _ _ _ M1)) as (d2'&E&M). rewrite Hk in E. by injection E as <-.
    - injection Hk as <-. apply moves_refl, (mv_ok _ _ _ _ _ _ M1). }
  destruct (file_node U (enc t') d2) as (d'&E&M3&Hi); try done; [apply (mv_ok _ _ _ _ _ _ M2)|by apply enc_nonempty|..].
  { eapply (moves_room U (W + 0)); [by eapply moves_trans|]. by replace (W + 0 + 1)%nat with (S W) by lia. }
  exists d'. split_and!; [done|..].
  - eapply moves_weaken; [eapply moves_trans; [exact M1|eapply moves_trans; [exact M2|exact M3]]|lia|].
    intros h. change (enc t :: nodes t) with ([enc t] ++ nodes t). change (enc t' :: nodes t') with ([enc t'] ++ nodes t').
    unfold subtree, filed. rewrite !cnt_app, !cnt_nil.
    destruct (Z.ltb_spec (len (enc t)) 32), (Z.leb_spec 32 (len (enc t))); try lia; rewrite ?cnt_nil; lia.
  - constructor; [done|]. eapply moves_stored; [exact M3|]. by eapply moves_stored.
Qed.
Lemma kill_root r t d : db_ok U d → r = sha3 (enc t) → ∃ d', when (len (enc t) <? 32) (forceKillNode r) d = (Ok tt, d').
Proof. intros Hd ->. destruct (len (enc t) <? 32); cbn [when]; eauto. Qed.

Section Length.
Context (L : nat) (HL : Z.of_nat L < 2 ^ 27).

Lemma map_codable m : map_ok L m → codable (tree_of m).
Proof using HL. intros Hm. eapply wf_codable; [|by apply tree_of_wf]. lia. Qed.
Lemma root_node d r m : map_ok L m → represents d r m →
  trie_node r d = (Ok (enc (tree_of m)), d) ∧ RLP (enc (tree_of m)) = Ok (enc (tree_of m)) ∧ r = sha3 (enc (tree_of m)).
Proof using HL.
  intros Hm [-> [[_ E] _]%Forall_cons]. split_and!; [|apply RLP_ok, map_codable, Hm|done].
  unfold trie_node, root_of, mbind, ST_bind, getS, mret, ST_ret. by rewrite E.
Qed.
Lemma key_slice k : key_bytes L k → is_slice (slice_of k) (asNibbles k).
Proof using HL. intros [Hl Hb]. apply slice_of_ok; [done|lia]. Qed.

Lemma at_represents d r m k : map_ok L m → represents d r m → key_bytes L k →
  trie_at r k d = (Ok (default [] (m !! k)), d).
Proof using HL sha3_in.
  intros Hm Hr Hk. destruct (root_node d r m Hm Hr) as (En&Er&_). destruct Hr as [_ [_ Hst]%Forall_cons].
  unfold trie_at. run En. rd Er. rewrite <-(tree_of_at L m k Hm Hk).
  apply (atAux_ok sha3_in _ (2 * L)); [lia|by apply tree_of_wf|by apply key_bytes_ok|by apply key_slice|done|].
  unfold fuel_of. destruct Hk as [-> _]. lia.
Qed.

Lemma insert_represents d r m k v : map_ok L m → represents d r m → key_bytes L k → value_ok v → db_ok U d →
  room (2 * L + 9) d → Forall U (insert_writes m k v) →
  ∃ d', trie_insert r k v d = (Ok (root_of (<[k := v]> m)), d') ∧ represents d' (root_of (<[k := v]> m)) (<[k := v]> m) ∧
    moves U (2 * L + 9) d d' (all_nodes m) (all_nodes (<[k := v]> m)).
Proof using Hcf HL sha3_in.
  intros Hm Hr Hk Hv Hd Hroom HU. destruct (root_node d r m Hm Hr) as (En&Er&Eh). destruct Hr as [_ [_ Hst]%Forall_cons].
  apply Forall_app in HU as [[HUr HUn]%Forall_cons HUc]. unfold represents, all_nodes, root_of in *.
  pose proof (map_ok_insert L m k v Hm Hk Hv) as Hm'. rewrite (tree_of_insert L m k v) in * by done.
  set (t := tree_of m) in *. set (t' := t_insert t (asNibbles k) v) in *.
  assert (codable t') as Hc by (unfold t', t; rewrite <-(tree_of_insert L m k v) by done; by apply map_codable).
  destruct (merge_ok sha3_in U Hcf t (2 * L) (asNibbles k) v (fuel_of k)) with (s := slice_of k) (inl := false) (d := d)
    as (d1&E1&M1&S1); try done.
  { lia. } { by apply tree_of_wf. } { by apply key_bytes_ok. } { unfold fuel_of. destruct Hk as [-> _]. lia. }
  { by apply key_slice. } { apply (room_le _ _ _ Hroom). unfold fuel_of. destruct Hk as [-> _]. lia. }
  destruct (kill_root r t d1 (mv_ok _ _ _ _ _ _ M1) Eh) as [d2 E2].
  destruct (swap_root (fuel_of k) (2 * L + 9) d d1 d2 t t' r) as (d'&E3&M3&S3); try done.
  { apply (room_le _ _ _ Hroom). unfold fuel_of. destruct Hk as [-> _]. lia. } { unfold fuel_of. destruct Hk as [-> _]. lia. }
  exists d'. split_and!; try done.
  unfold trie_insert. run En. rd Er. rewrite Eh. run E1. rewrite <-Eh. run E2. exact E3.
Qed.
Lemma remove_represents d r m k : map_ok L m → represents d r m → key_bytes L k → db_ok U d →
  room (2 * L + 9) d → Forall U (remove_writes m k) →
  ∃ d', trie_remove r k d = (Ok (root_of (delete k m)), d') ∧ represents d' (root_of (delete k m)) (delete k m) ∧
    moves U (2 * L + 9) d d' (all_nodes m) (all_nodes (delete k m)).
Proof using Hcf HL sha3_in.
  intros Hm Hr Hk Hd Hroom [HUr HUm]%Forall_cons. destruct (root_node d r m Hm Hr) as (En&Er&Eh).
  pose proof (tree_of_remove L m k Hm Hk) as Ht. pose proof (map_ok_delete L m k Hm) as Hm'.
  assert (delete_spec U (fuel_of k) (tree_of m) (asNibbles k)) as Hspec.
  { apply (delete_spec_ok sha3_in U Hcf _ (2 * L)); [lia|by apply tree_of_wf|by apply key_bytes_ok| |done].
    unfold fuel_of. destruct Hk as [-> _]. lia. }
  specialize (Hspec (slice_of k) d ltac:(by apply key_slice) Hd).
  assert (fuel_of k = 2 * L + 8)%nat as Hf by (unfold fuel_of; destruct Hk as [-> _]; lia). rewrite Hf in *.
  specialize (Hspec ltac:(apply (room_le _ _ _ Hroom); lia) ltac:(by destruct Hr as [_ [_ ?]%Forall_cons])).
  unfold trie_remove. rewrite Hf. destruct (t_remove (tree_of m) (asNibbles k)) as [t'|].
  - destruct Ht as [Et _]. destruct Hspec as (d1&E1&M1&S1). pose proof (map_codable _ Hm') as Hc. rewrite Et in *.
    destruct (kill_root r (tree_of m) d1 (mv_ok _ _ _ _ _ _ M1) Eh) as [d2 E2].
    destruct (swap_root (2 * L + 8) (2 * L + 9) d d1 d2 (tree_of m) t' r) as (d'&E3&M3&S3); try done.
    { by replace (S (2 * L + 8)) with (2 * L + 9)%nat by lia. }
    exists d'. unfold represents, root_of, all_nodes. rewrite Et. split_and!; try done.
    run En. rd Er. run E1. rewrite bool_decide_eq_true_2 by by apply enc_nonempty. run E2. exact E3.
  - exists d. rewrite Ht. destruct Hr as [-> Hst]. split_and!; try done; [by run En; rd Er; run Hspec|].
    eapply moves_weaken; [by apply moves_refl|lia|]. intros h. rewrite cnt_nil. lia.
Qed.
End Length.
End Map.
