(* ===== verification/TrieProps.v ===== *)
(** * What a trie promises

    Lookup, insertion and removal refine those of a finite map; the root depends on
    the content alone, not on how it came about; and committing the database to disk
    loses no node of a live trie. *)
From stdpp Require Import base gmap list.
From Stdlib Require Import ZArith Lia.
From S2P Require Import Prelude Rlp RlpProofs Interfaces Trie TrieNibbles TrieTree TrieCode TrieStore TrieLookup TrieInsert TrieRemove TrieMap.
Open Scope Z_scope.

(** ** Histories *)
Inductive trie_op := OpInsert (k v : bytes) | OpRemove (k : bytes).
Definition apply_op (m : gmap bytes bytes) (o : trie_op) : gmap bytes bytes :=
  match o with OpInsert k v => <[k := v]> m | OpRemove k => delete k m end.
Definition op_ok (L : nat) (o : trie_op) : Prop :=
  match o with OpInsert k v => key_bytes L k ∧ value_ok v | OpRemove k => key_bytes L k end.
Definition apply_ops (m : gmap bytes bytes) (ops : list trie_op) : gmap bytes bytes := foldl apply_op m ops.

Lemma apply_op_ok L m o : map_ok L m → op_ok L o → map_ok L (apply_op m o).
Proof. intros Hm. destruct o; cbn; [intros [??]; by apply map_ok_insert|intros ?; by apply map_ok_delete]. Qed.
Lemma apply_ops_ok L ops : ∀ m, map_ok L m → Forall (op_ok L) ops → map_ok L (apply_ops m ops).
Proof.
  induction ops as [|o ops IH]; intros m Hm Ho; [done|]. apply Forall_cons in Ho as [Ho Hops].
  apply IH; [by apply apply_op_ok|done].
Qed.

Section Histories.
Context `{Crypto}.

Definition run_op (r : h256) (o : trie_op) : ST OverlayDB h256 :=
  match o with OpInsert k v => trie_insert r k v | OpRemove k => trie_remove r k end.
Definition run_ops (r : h256) (ops : list trie_op) : ST OverlayDB h256 := foldM run_op r ops.

(** Everything a history files in the database. *)
Definition op_writes (m : gmap bytes bytes) (o : trie_op) : list bytes :=
  match o with OpInsert k v => insert_writes m k v | OpRemove k => remove_writes m k end.
Fixpoint ops_writes (m : gmap bytes bytes) (ops : list trie_op) : list bytes :=
  match ops with [] => [] | o :: ops => op_writes m o ++ ops_writes (apply_op m o) ops end.

(** What the environment of a trie over keys of [L] bytes guarantees: a 256-bit hash
    without a collision among the strings of [U], keys that [unsigned] can index. *)
Record trie_env (U : bytes → Prop) (L : nat) : Prop := {
  te_hash : ∀ b, in256 (sha3 b);
  te_free : collision_free U;
  te_len : Z.of_nat L < 2 ^ 27
}.

Lemma run_op_ok U L d r m o : trie_env U L → map_ok L m → represents d r m → op_ok L o → db_ok U d →
  room (2 * L + 9) d → Forall U (op_writes m o) →
  ∃ d', run_op r o d = (Ok (root_of (apply_op m o)), d') ∧ represents d' (root_of (apply_op m o)) (apply_op m o) ∧
    moves U (2 * L + 9) d d' (all_nodes m) (all_nodes (apply_op m o)).
Proof.
  intros [Hs Hf HL] Hm Hr Ho Hd Hroom HU. destruct o as [k v|k]; cbn in *.
  - destruct Ho. by apply (insert_represents Hs U Hf L HL).
  - by apply (remove_represents Hs U Hf L HL).
Qed.
Lemma run_ops_ok U L ops : ∀ d r m, trie_env U L → map_ok L m → represents d r m → Forall (op_ok L) ops → db_ok U d →
  room (length ops * (2 * L + 9)) d → Forall U (ops_writes m ops) →
  ∃ d', run_ops r ops d = (Ok (root_of (apply_ops m ops)), d') ∧
    represents d' (root_of (apply_ops m ops)) (apply_ops m ops) ∧
    moves U (length ops * (2 * L + 9)) d d' (all_nodes m) (all_nodes (apply_ops m ops)).
Proof.
  induction ops as [|o ops IH]; intros d r m He Hm Hr Ho Hd Hroom HU.
  - exists d. destruct Hr as [-> Hst]. split_and!; try done. eapply moves_weaken; [by apply moves_refl|done|].
    intros h. rewrite cnt_nil. cbn. lia.
  - apply Forall_cons in Ho as [Ho Hops]. apply Forall_app in HU as [HU1 HU2]. cbn [length] in Hroom.
    destruct (run_op_ok U L d r m o) as (d1&E1&R1&M1); try done; [apply (room_le _ _ _ Hroom); lia|].
    destruct (IH d1 (root_of (apply_op m o)) (apply_op m o)) as (d2&E2&R2&M2); try done.
    { by apply apply_op_ok. } { apply (mv_ok _ _ _ _ _ _ M1). }
    { eapply moves_room; [exact M1|]. by replace (2 * L + 9 + length ops * (2 * L + 9))%nat with (S (length ops) * (2 * L + 9))%nat by lia. }
    exists d2. split_and!; [by cbn; run E1|done|].
    eapply moves_weaken; [eapply moves_trans; [exact M1|exact M2]|cbn; lia|]. intros h. cbn [apply_ops foldl].
    change (foldl apply_op (apply_op m o) ops) with (apply_ops (apply_op m o) ops). rewrite !cnt_app. lia.
Qed.

(** ** Opening the empty trie *)
Lemma open_empty U d : (∀ b, in256 (sha3 b)) → collision_free U → db_ok U d → U RLPNull → room 1 d → db_exists EmptyTrie d = false →
  ∃ d', trie_setRoot EmptyTrie d = (Ok EmptyTrie, d') ∧ represents d' EmptyTrie ∅ ∧ moves U 1 d d' [] (all_nodes ∅).
Proof.
  intros Hs Hf Hd HU Hr He. destruct (file_node U RLPNull d) as (d'&E&M&Hi); try done. exists d'. split_and!; [| |exact M].
  - unfold trie_setRoot. rewrite (bind_ok _ _ _ d d) by done. rewrite bool_decide_eq_true_2, He by done. cbn [negb andb].
    unfold trie_init. run E. unfold trie_node, mbind, ST_bind, getS, mret, ST_ret. destruct Hi as [_ Hi]. by rewrite Hi.
  - split; [done|]. repeat constructor; apply Hi.
Qed.

(** ** Committing to disk *)
Definition on_disk (d : OverlayDB) (h : h256) : Prop := disk_lookup (disk_key h) d ≠ [].
(** Each of these nodes is on disk, or counted as often as it is used. *)
Definition live (d : OverlayDB) (l : list bytes) : Prop := ∀ h, on_disk d h ∨ cnt l h <= refs d h.

Lemma live_moves U n d d' o w x : moves U n d d' o w → live d (o ++ x) → live d' (w ++ x).
Proof.
  intros Hm Hl h. specialize (Hl h). pose proof (mv_refs _ _ _ _ _ _ Hm h). rewrite cnt_app in *.
  unfold on_disk, disk_lookup in *. rewrite (mv_disk _ _ _ _ _ _ Hm). destruct Hl as [Hl|Hl]; [by left|right; lia].
Qed.

Lemma disk_key_inj h h' : in256 h → in256 h' → disk_key h = disk_key h' → h = h'.
Proof.
  unfold in256, M256, disk_key. intros Hh Hh' E. rewrite <-(fromBE_toBE_n 32 h), <-(fromBE_toBE_n 32 h') by done. by rewrite E.
Qed.
Lemma write_aux_main ax disk h : write_aux ax disk !! disk_key h = disk !! disk_key h.
Proof.
  unfold write_aux. apply (map_fold_weak_ind (λ acc _, acc !! disk_key h = disk !! disk_key h)); [done|].
  intros h' [v b] m' acc _ IH. cbn [fst snd]. destruct b; [|done]. rewrite lookup_insert_ne; [done|].
  intros E%(f_equal length). unfold disk_aux_key, disk_key in E. by rewrite length_app, !length_toBE_n in E.
Qed.
Lemma write_main_lookup mn disk h : in256 h → map_Forall (λ h' _, in256 h') mn →
  write_main mn disk !! disk_key h =
    match mn !! h with Some (v, n) => if n =? 0 then disk !! disk_key h else Some v | None => disk !! disk_key h end.
Proof.
  intros Hh. unfold write_main.
  apply (map_fold_weak_ind (λ acc mn, map_Forall (λ h' _, in256 h') mn → acc !! disk_key h =
    match mn !! h with Some (v, n) => if n =? 0 then disk !! disk_key h else Some v | None => disk !! disk_key h end)); [done|].
  intros h' [v n] m' acc Hn IH Hm. apply map_Forall_insert in Hm as [Hh' Hm]; [|done]. specialize (IH Hm). cbn [fst snd].
  destruct (decide (h' = h)) as [->|Hne].
  - rewrite lookup_insert_eq. rewrite Hn in IH. destruct (n =? 0); [done|]. by rewrite lookup_insert_eq.
  - rewrite (lookup_insert_ne m') by done. destruct (n =? 0); [done|]. rewrite lookup_insert_ne; [done|].
    intros E. apply Hne. by apply disk_key_inj.
Qed.

Section Commit.
Context (U : bytes → Prop) (Hs : ∀ b, in256 (sha3 b)) (Hf : collision_free U).

Lemma main_in256 d : db_ok U d → map_Forall (λ h _, in256 h) (m_main d).
Proof using Hs. intros Hd h [v n] E. destruct (ok_main _ _ Hd _ _ _ E) as (_&_&<-&_). apply Hs. Qed.
Lemma commit_disk d disk h : m_db d = Some disk → db_ok U d → in256 h →
  disk_lookup (disk_key h) (db_commit d) =
    match m_main d !! h with Some (v, n) => if n =? 0 then default [] (disk !! disk_key h) else v | None => default [] (disk !! disk_key h) end.
Proof using Hs.
  intros Hdb Hd Hh. unfold db_commit. rewrite Hdb. unfold disk_lookup. cbn [m_db upd m_db_field m_main_field m_aux_field].
  rewrite write_aux_main, write_main_lookup by (done || by apply main_in256).
  destruct (m_main d !! h) as [[v n]|]; [|done]. by destruct (n =? 0).
Qed.
Lemma commit_lookup d disk h : m_db d = Some disk → db_lookup h (db_commit d) = disk_lookup (disk_key h) (db_commit d).
Proof. intros Hdb. unfold db_commit. by rewrite Hdb. Qed.

Lemma commit_in_db d disk b : m_db d = Some disk → db_ok U d → in_db d b → on_disk d (sha3 b) ∨ 1 <= refs d (sha3 b) →
  in_db (db_commit d) b.
Proof using Hs Hf.
  intros Hdb Hd [Hb Hl] Hlive. split; [done|]. rewrite (commit_lookup d disk), (commit_disk d disk) by (done || apply Hs).
  assert (U b) as HU by (rewrite <-Hl; apply ok_filed; [done|apply Hs|by rewrite Hl]).
  assert (on_disk d (sha3 b) → default [] (disk !! disk_key (sha3 b)) = b) as Hdisk.
  { intros Hod. destruct (ok_disk _ _ Hd (sha3 b) _ (Hs b) eq_refl Hod) as [HU' E']. apply Hf in E'; [|done|done].
    rewrite <-E' at 2. unfold disk_lookup. by rewrite Hdb. }
  rewrite (lookup_main U) in Hl by done. unfold refs in Hlive. destruct (m_main d !! sha3 b) as [[v n]|].
  - destruct (Z.eqb_spec n 0) as [->|]; [|done]. destruct Hlive as [Hod|]; [by apply Hdisk|lia].
  - unfold disk_lookup in Hl. by rewrite Hdb in Hl.
Qed.
Lemma commit_stored d disk l : m_db d = Some disk → db_ok U d → live d l → ∀ l', l' ⊆ l → stored d l' → stored (db_commit d) l'.
Proof using Hs Hf.
  intros Hdb Hd Hlive l' Hsub Hst. apply Forall_forall. intros b Hb.
  apply (commit_in_db d disk); try done; [by apply (proj1 (Forall_forall _ _) Hst)|]. destruct (Hlive (sha3 b)) as [|Hc]; [by left|right].
  pose proof (cnt_pos l b (Hsub _ Hb)). lia.
Qed.
Lemma commit_ok d disk : m_db d = Some disk → db_ok U d → db_ok U (db_commit d).
Proof using Hs.
  intros Hdb Hd. split.
  - unfold db_commit. rewrite Hdb. apply Hd.
  - unfold db_commit. by rewrite Hdb.
  - intros h v Hh E Hv. rewrite (commit_disk d disk) in E by done.
    assert (default [] (disk !! disk_key h) = v → U v ∧ sha3 v = h) as Hold.
    { intros E'. apply (ok_disk _ _ Hd); [done| |done]. unfold disk_lookup. by rewrite Hdb. }
    destruct (m_main d !! h) as [[w n]|] eqn:Ew; [|by apply Hold]. destruct (Z.eqb_spec n 0); [by apply Hold|].
    subst w. by destruct (ok_main _ _ Hd _ _ _ Ew) as (_&?&?&_).
Qed.
End Commit.
End Histories.

(** With an empty cache, what is stored is on disk. *)
Lemma stored_live `{Crypto} U d l : db_ok U d → m_main d = ∅ → stored d l → live d l.
Proof.
  intros Hd Hm Hst h. destruct (decide (Exists (λ b, sha3 b = h) l)) as [He|Hn].
  - left. apply Exists_exists in He as (b&Hb&<-). destruct (proj1 (Forall_forall _ _) Hst b Hb) as [Hne E].
    rewrite (lookup_main U), Hm, lookup_empty in E by done. unfold on_disk. by rewrite E.
  - right. replace (cnt l h) with 0; [by apply (ok_counts U)|]. clear Hst. induction l as [|b l IH]; [done|].
    unfold cnt. rewrite sumZ_cons. destruct (Z.eqb_spec (sha3 b) h); [destruct Hn; by left|].
    rewrite Z.add_0_l. apply IH. intros He. apply Hn. by right.
Qed.

(** ** A fresh database *)
Definition fresh_db : OverlayDB := mkDB ∅ ∅ false (Some ∅).
Lemma fresh_ok `{Crypto} U : db_ok U fresh_db.
Proof.
  split; [done|..]; unfold fresh_db, disk_lookup; cbn [m_main m_db].
  - intros h v n. by rewrite lookup_empty.
  - intros h v _ <-. by rewrite lookup_empty.
Qed.
Lemma fresh_room n : Z.of_nat n < 2 ^ 32 → room n fresh_db.
Proof. intros Hn h. unfold refs, fresh_db. cbn [m_main]. rewrite lookup_empty. lia. Qed.
(** The empty trie in it. *)
Lemma open_fresh `{Crypto} U n : (∀ b, in256 (sha3 b)) → collision_free U → U RLPNull → Z.of_nat n < 2 ^ 32 - 1 →
  ∃ d, trie_setRoot EmptyTrie fresh_db = (Ok EmptyTrie, d) ∧ represents d EmptyTrie ∅ ∧ db_ok U d ∧ room n d ∧
    m_db d = Some ∅ ∧ live d (all_nodes ∅).
Proof.
  intros Hs Hf HU Hn. destruct (open_empty U fresh_db) as (d&E&R&M); [done|done|apply fresh_ok|done|by apply fresh_room|done|].
  - exists d. split_and!; try done.
    + apply (mv_ok _ _ _ _ _ _ M).
    + eapply moves_room; [exact M|]. apply fresh_room. lia.
    + apply (mv_disk _ _ _ _ _ _ M).
    + rewrite <-(app_nil_r (all_nodes ∅)). eapply live_moves; [exact M|]. intros h. right.
      unfold refs, fresh_db. cbn [m_main]. by rewrite lookup_empty.
Qed.

(** ** The properties *)

(** C17: A trie is a finite map.  When the database holds the trie of a map from keys
    of [L] bytes to non-empty values, [at] returns the value of a key (the empty
    string when there is none) and changes nothing; [insert] and [remove] return the
    root of the updated map and leave the database holding its trie.  None of them
    throws, reads out of bounds or runs out of fuel.  Assumed: no two of the nodes the
    database holds or the operation files have the same hash. *)
Theorem trie_refines_map `{Crypto} U L d r m :
  trie_env U L → db_ok U d → room (2 * L + 9) d → map_ok L m → represents d r m →
  (∀ k, key_bytes L k → trie_at r k d = (Ok (default [] (m !! k)), d)) ∧
  (∀ k v, key_bytes L k → value_ok v → Forall U (insert_writes m k v) →
    ∃ d', trie_insert r k v d = (Ok (root_of (<[k := v]> m)), d') ∧
      represents d' (root_of (<[k := v]> m)) (<[k := v]> m) ∧ db_ok U d') ∧
  (∀ k, key_bytes L k → Forall U (remove_writes m k) →
    ∃ d', trie_remove r k d = (Ok (root_of (delete k m)), d') ∧
      represents d' (root_of (delete k m)) (delete k m) ∧ db_ok U d').
Proof.
  intros He Hd Hr Hm Hrep. split_and!.
  - intros k Hk. by apply (at_represents (te_hash _ _ He) L (te_len _ _ He)).
  - intros k v Hk Hv HU. destruct (run_op_ok U L d r m (OpInsert k v)) as (d'&E&R&M); try done.
    exists d'. split_and!; try done. apply (mv_ok _ _ _ _ _ _ M).
  - intros k Hk HU. destruct (run_op_ok U L d r m (OpRemove k)) as (d'&E&R&M); try done.
    exists d'. split_and!; try done. apply (mv_ok _ _ _ _ _ _ M).
Qed.

(** C18: The root is the content.  Two histories of insertions and removals that leave
    the same keys with the same values end with the same root, in whatever order and
    through whatever detours they got there, each in its own database.  (Keys of one length
    and values that are not empty, as for [trie_refines_map].) *)
Theorem same_content_same_root `{Crypto} U L d1 d2 r1 r2 m1 m2 ops1 ops2 :
  trie_env U L → db_ok U d1 → db_ok U d2 → map_ok L m1 → map_ok L m2 → represents d1 r1 m1 → represents d2 r2 m2 →
  Forall (op_ok L) ops1 → Forall (op_ok L) ops2 →
  room (length ops1 * (2 * L + 9)) d1 → room (length ops2 * (2 * L + 9)) d2 →
  Forall U (ops_writes m1 ops1) → Forall U (ops_writes m2 ops2) →
  apply_ops m1 ops1 = apply_ops m2 ops2 →
  ∃ r, (run_ops r1 ops1 d1).1 = Ok r ∧ (run_ops r2 ops2 d2).1 = Ok r.
Proof.
  intros He ?????????????. destruct (run_ops_ok U L ops1 d1 r1 m1) as (d1'&E1&_); try done.
  destruct (run_ops_ok U L ops2 d2 r2 m2) as (d2'&E2&_); try done. rewrite E1, E2. eexists. split; [done|]. cbn. congruence.
Qed.

(** C19: Committing loses nothing.  Take a database with tries whose nodes are on disk or
    counted, run any history of insertions and removals on one of them, and commit:
    the cache is empty, the disk alone answers every lookup in the resulting trie with
    the right value, and the other tries of the database are still there. *)
Theorem commit_keeps_tries `{Crypto} U L d disk r m ops others :
  trie_env U L → db_ok U d → m_db d = Some disk → map_ok L m → represents d r m →
  Forall (λ m', stored d (all_nodes m')) others → live d (all_nodes m ++ concat (all_nodes <$> others)) →
  Forall (op_ok L) ops → room (length ops * (2 * L + 9)) d → Forall U (ops_writes m ops) →
  ∃ d', run_ops r ops d = (Ok (root_of (apply_ops m ops)), d') ∧ m_main (db_commit d') = ∅ ∧
    (∀ k, key_bytes L k → trie_at (root_of (apply_ops m ops)) k (db_commit d') =
      (Ok (default [] (apply_ops m ops !! k)), db_commit d')) ∧
    Forall (λ m', represents (db_commit d') (root_of m') m') others ∧
    live (db_commit d') (all_nodes (apply_ops m ops) ++ concat (all_nodes <$> others)).
Proof.
  intros He Hd Hdb Hm Hr Hot Hlive Hops Hroom HU. destruct (run_ops_ok U L ops d r m) as (d'&E&R&M); try done.
  exists d'. pose proof (mv_ok _ _ _ _ _ _ M) as Hd'. assert (m_db d' = Some disk) as Hdb' by (by rewrite (mv_disk _ _ _ _ _ _ M)).
  pose proof (live_moves _ _ _ _ _ _ _ M Hlive) as Hlive'. set (l := all_nodes (apply_ops m ops) ++ _) in *.
  pose proof (commit_stored U (te_hash _ _ He) (te_free _ _ He) d' disk l Hdb' Hd' Hlive') as Hcs.
  assert (represents (db_commit d') (root_of (apply_ops m ops)) (apply_ops m ops)) as Hrep.
  { split; [done|]. apply Hcs; [|by destruct R]. intros b Hb. apply elem_of_app. by left. }
  assert (Forall (λ m', stored (db_commit d') (all_nodes m')) others) as Hots.
  { apply Forall_forall. intros m' Hin. rewrite Forall_forall in Hot. apply Hcs; [|eapply moves_stored; eauto].
    intros b Hb. apply elem_of_app. right. apply list_elem_of_In, in_concat. exists (all_nodes m').
    rewrite <-!list_elem_of_In. split; [by apply list_elem_of_fmap_2|done]. }
  split_and!; try done.
  - unfold db_commit. by rewrite Hdb'.
  - intros k Hk. apply (at_represents (te_hash _ _ He) L (te_len _ _ He)); try done. by apply apply_ops_ok.
  - eapply Forall_impl; [exact Hots|]. by intros m' ?.
  - apply (stored_live U); [by eapply commit_ok; [apply He|..]|unfold db_commit; by rewrite Hdb'|].
    apply stored_app. split; [by destruct Hrep|]. apply Forall_concat, Forall_fmap. exact Hots.
Qed.

(** ** Concrete tries *)

(** A polynomial hash, on which the strings of the examples do not collide. *)
Definition fold_sha3 (b : bytes) : h256 := foldl (λ h x, (h * 1000003 + x + 7) mod 2305843009213693951) 5381 b.
Definition fold_crypto : Crypto := {| sha3 := fold_sha3; recover := λ r s v h, r + s + v + h |}.
Lemma fold_sha3_in b : in256 (@sha3 fold_crypto b).
Proof.
  cbn. unfold fold_sha3, in256, M256. destruct b as [|x b] using rev_ind; [done|]. rewrite foldl_snoc.
  match goal with |- 0 <= ?y mod ?n < _ => pose proof (Z.mod_pos_bound y n eq_refl) end. lia.
Qed.
(** No two of these strings collide. *)
Definition no_clash (l : list (h256 * bytes)) : bool :=
  forallb (λ p, forallb (λ q, implb (p.1 =? q.1) (bool_decide (p.2 = q.2))) l) l.
Lemma no_clash_free ws : no_clash ((λ b, (fold_sha3 b, b)) <$> ws) = true → @collision_free fold_crypto (λ b, b ∈ ws).
Proof.
  unfold no_clash. rewrite forallb_forall. intros Hall a b Ha Hb E. specialize (Hall (fold_sha3 a, a)).
  assert (∀ x, x ∈ ws → In (fold_sha3 x, x) ((λ b, (fold_sha3 b, b)) <$> ws)) as Hin.
  { intros x Hx. apply list_elem_of_In, list_elem_of_fmap. eauto. }
  specialize (Hall (Hin a Ha)). rewrite forallb_forall in Hall. specialize (Hall _ (Hin b Hb)). cbn in E, Hall.
  rewrite E, Z.eqb_refl in Hall. by apply bool_decide_eq_true in Hall.
Qed.

Definition value_a : bytes := replicate 40 1.
Definition value_b : bytes := replicate 40 2.
(** A leaf split, a branch grown, a branch collapsed into an extension; and the
    same content by another way. *)
Definition some_ops : list trie_op :=
  [OpInsert [0x12; 0x34] value_a; OpInsert [0x12; 0x35] value_b; OpInsert [0x52; 0x35] [3]; OpRemove [0x12; 0x34]].
Definition other_ops : list trie_op := [OpInsert [0x52; 0x35] [3]; OpInsert [0x12; 0x35] value_b].
Definition some_writes : list bytes :=
  RLPNull :: @ops_writes fold_crypto ∅ some_ops ++ @ops_writes fold_crypto ∅ other_ops.
Definition some_U (b : bytes) : Prop := b ∈ some_writes.

Lemma some_env : @trie_env fold_crypto some_U 2.
Proof. split; [apply fold_sha3_in| |done]. apply no_clash_free. vm_compute. reflexivity. Qed.
Lemma some_open n : Z.of_nat n < 2 ^ 32 - 1 → ∃ d, @represents fold_crypto d (@EmptyTrie fold_crypto) ∅ ∧ @db_ok fold_crypto some_U d ∧
  room n d ∧ m_db d = Some ∅ ∧ @live fold_crypto d (@all_nodes fold_crypto ∅).
Proof.
  intros Hn. destruct (@open_fresh fold_crypto some_U n) as (d&_&?); [apply some_env|apply some_env|by left|done|]. by exists d.
Qed.
Lemma some_ops_ok : Forall (op_ok 2) some_ops ∧ Forall (op_ok 2) other_ops.
Proof.
  unfold some_ops, other_ops, op_ok, key_bytes, value_ok, is_byte, value_a, value_b.
  split; repeat first [apply Forall_cons; split | apply Forall_nil; exact I | apply Forall_replicate | split | done | lia].
Qed.
Lemma some_ops_U : Forall some_U (@ops_writes fold_crypto ∅ some_ops) ∧ Forall some_U (@ops_writes fold_crypto ∅ other_ops).
Proof.
  unfold some_U, some_writes. split; apply Forall_forall; intros b Hb; right; apply elem_of_app; [by left|by right].
Qed.
Lemma empty_map_ok L : map_ok L ∅.
Proof. apply map_Forall_empty. Qed.

Lemma trie_refines_map_small : ∃ d d',
  trie_at (@EmptyTrie fold_crypto) [0x12; 0x34] d = (Ok [], d) ∧
  @trie_insert fold_crypto (@EmptyTrie fold_crypto) [0x12; 0x34] value_a d =
    (Ok (@root_of fold_crypto {[ [0x12; 0x34] := value_a ]}), d').
Proof.
  destruct (some_open 13 eq_refl) as (d&R&O&Rm&_). destruct some_ops_ok as [[[Hk Hv] _]%Forall_cons _].
  destruct some_ops_U as [[HU _]%Forall_app _].
  destruct (@trie_refines_map fold_crypto some_U 2 d _ ∅ some_env O Rm (empty_map_ok 2) R) as (A&I&_).
  destruct (I _ _ Hk Hv HU) as (d'&E&_). exists d, d'. split; [exact (A _ Hk)|exact E].
Defined.
Lemma same_content_same_root_small : ∃ d r,
  (@run_ops fold_crypto (@EmptyTrie fold_crypto) some_ops d).1 = Ok r ∧
  (@run_ops fold_crypto (@EmptyTrie fold_crypto) other_ops d).1 = Ok r.
Proof.
  destruct (some_open 52 eq_refl) as (d&R&O&Rm&_). exists d.
  apply (@same_content_same_root fold_crypto some_U 2 d d _ _ ∅ ∅);
    first [done|apply some_env|apply empty_map_ok|apply some_ops_ok|apply some_ops_U|apply (room_le _ _ _ Rm); cbn; lia].
Defined.
Lemma commit_keeps_tries_small : ∃ d d',
  @run_ops fold_crypto (@EmptyTrie fold_crypto) some_ops d = (Ok (@root_of fold_crypto (apply_ops ∅ some_ops)), d') ∧
  trie_at (@root_of fold_crypto (apply_ops ∅ some_ops)) [0x12; 0x35] (db_commit d') = (Ok value_b, db_commit d').
Proof.
  destruct (some_open 52 eq_refl) as (d&R&O&Rm&D&Lv). exists d.
  destruct (@commit_keeps_tries fold_crypto some_U 2 d ∅ (@EmptyTrie fold_crypto) ∅ some_ops []) as (d'&E&_&A&_);
    first [done|apply some_env|apply empty_map_ok|apply some_ops_ok|apply some_ops_U|by rewrite app_nil_r|idtac].
  exists d'. split; [exact E|]. destruct some_ops_ok as [_ [_ [[Hk _] _]%Forall_cons]%Forall_cons]. exact (A _ Hk).
Defined.
