(* ===== verification/TrieHash.v ===== *)
(** * Roots without a database (libdevcore/TrieHash.cpp, TrieHash.h)

    [hash256] computes the root of the trie of a map directly, from the entries in the
    order of their keys; the roots of the transactions and receipts of a block are
    computed this way.

    A range of iterators into the [HexMap] is the list of its entries. *)
From stdpp Require Import base gmap list sorting.
From Stdlib Require Import ZArith Lia.
From S2P Require Import Prelude Rlp Interfaces Trie.
Open Scope Z_scope.

(** [BytesMap] is a [std::map]; its keys are ordered as [std::lexicographical_compare]
    orders them. *)
Fixpoint bytes_leb (a b : bytes) : bool :=
  match a, b with
  | [], _ => true
  | _ :: _, [] => false
  | x :: a, y :: b => (x <? y) || ((x =? y) && bytes_leb a b)
  end.
Definition entry_le (p q : bytes * bytes) : Prop := bytes_leb p.1 q.1 = true.
#[export] Instance entry_le_dec : RelDecision entry_le.
Proof. intros p q. unfold entry_le. apply _. Defined.
Abbreviation HexMap := (list (bytes * bytes)).

(** The inner loop of [hash256rlp]: at most [fuel] = [x - shared] turns. *)
Fixpoint shared_run (fuel : nat) (a b : bytes) (shared x : Z) : Z :=
  match fuel with
  | O => shared
  | S fuel =>
      if (shared <? x) && bool_decide (a !! Z.to_nat shared = b !! Z.to_nat shared)
      then shared_run fuel a b (shared + 1) x else shared
  end.
(** The outer loop: the nibbles every key shares with the first one. *)
Fixpoint shared_pre (first : bytes) (rest : HexMap) (_preLen sharedPre : Z) : Z :=
  match rest with
  | [] => sharedPre
  | (k, _) :: rest =>
      if sharedPre =? 0 then sharedPre
      else
        let x := Z.min sharedPre (Z.min (len first) (len k)) in
        let shared := shared_run (Z.to_nat (x - _preLen)) first k _preLen x in
        shared_pre first rest _preLen (Z.min shared sharedPre)
  end.
(** [for (; n != _end && n->first[_preLen] == i; ++n) {}]: the entries passed, and the rest. *)
Fixpoint take_nibble (_preLen i : Z) (b : HexMap) : outcome (HexMap * HexMap) :=
  match b with
  | [] => Ok ([], [])
  | (k, v) :: b' =>
      match k !! Z.to_nat _preLen with
      | None => Undef
      | Some x =>
          if x =? i then r ← take_nibble _preLen i b'; Ok ((k, v) :: r.1, r.2)
          else Ok ([], b)
      end
  end.

Section TrieHash.
Context `{Crypto}.

(** [hash256aux], over the [hash256rlp] it calls. *)
Definition hash256aux (hash256rlp : HexMap → Z → RLPStream → outcome RLPStream)
    (s : HexMap) (_preLen : Z) (_rlp : RLPStream) : outcome RLPStream :=
  r ← hash256rlp s _preLen stream_empty;
  o ← out r;
  if len o <? 32 then appendRaw o 1 _rlp else append_hash (sha3 o) _rlp.

(** The sixteen children: [i] counts up as [fuel] counts down. *)
Fixpoint children_loop (aux : HexMap → Z → RLPStream → outcome RLPStream)
    (fuel : nat) (_preLen i : Z) (b : HexMap) (_rlp : RLPStream) : outcome RLPStream :=
  match fuel with
  | O => Ok _rlp
  | S fuel =>
      r ← take_nibble _preLen i b;
      _rlp ← match r.1 with [] => append_bytes [] _rlp | _ => aux r.1 (_preLen + 1) _rlp end;
      children_loop aux fuel _preLen (i + 1) r.2 _rlp
  end.

Fixpoint hash256rlp (fuel : nat) (s : HexMap) (_preLen : Z) (_rlp : RLPStream) : outcome RLPStream :=
  match fuel with
  | O => OutOfFuel
  | S fuel =>
      match s with
      | [] => append_bytes [] _rlp
      | [(k, v)] =>
          r ← appendList 2 _rlp;
          e ← hexPrefixEncode_vec k true _preLen (-1);
          r ← append_bytes e r; append_bytes v r
      | (k, v) :: rest =>
          let sharedPre := shared_pre k rest _preLen (2 ^ 32 - 1) in
          if _preLen <? sharedPre then
            r ← appendList 2 _rlp;
            e ← hexPrefixEncode_vec k false _preLen sharedPre;
            r ← append_bytes e r;
            hash256aux (hash256rlp fuel) s sharedPre r
          else
            r ← appendList 17 _rlp;
            r ← children_loop (hash256aux (hash256rlp fuel)) 16 _preLen 0 (if _preLen =? len k then rest else s) r;
            append_bytes (if _preLen =? len k then v else []) r
      end
  end.

(** Every call goes at least one nibble further into the keys. *)
Definition hash_fuel (s : HexMap) : nat := S (foldr (λ p n, Nat.max (length p.1) n) 0%nat s).
Definition hexMap_of (_s : gmap bytes bytes) : HexMap :=
  merge_sort entry_le ((λ p : bytes * bytes, (asNibbles p.1, p.2)) <$> map_to_list _s).
Definition rlp256 (_s : gmap bytes bytes) : outcome bytes :=
  if bool_decide (_s = ∅) then Ok RLPNull
  else
    let hexMap := hexMap_of _s in
    s ← hash256rlp (hash_fuel hexMap) hexMap 0 stream_empty; out s.
Definition hash256 (_s : gmap bytes bytes) : outcome h256 := b ← rlp256 _s; Ok (sha3 b).

(** [rlp(i)] *)
Definition rlp_index (i : nat) : bytes := encode (rlp_unsigned (Z.of_nat i)).
(** [trieRootOver(_itemCount, _getKey, _getValue)] *)
Definition trieRootOver (_itemCount : nat) (_getKey _getValue : nat → bytes) : outcome h256 :=
  hash256 (foldl (λ m i, <[_getKey i := _getValue i]> m) ∅ (seq 0 _itemCount)).
Definition orderedTrieRoot (_data : list bytes) : outcome h256 :=
  trieRootOver (length _data) rlp_index (λ i, nth i _data []).
End TrieHash.
