(* ===== verification/TrieHashProofs.v ===== *)
(** * The root of a list of entries

    Entries in key order, none of whose keys is a prefix of another ([before]), make
    one tree; [hash256rlp] writes its encoding.  For keys of one length it is the
    canonical tree, so [hash256] and the database trie agree on the root; and a root
    determines the entries. *)
From stdpp Require Import base gmap list sorting.
From Stdlib Require Import ZArith Lia.
From S2P Require Import Prelude Rlp RlpProofs Interfaces Trie TrieNibbles TrieTree TrieCode TrieStore TrieLookup TrieInsert TrieMap TrieHash.
Open Scope Z_scope.

(** ** Keys of nibble vectors *)
Lemma hp_vec_loop_ok k : Nat.odd (length k) = false → ∀ v i fuel ret, nibbles k → (length k <= fuel)%nat →
  (∀ m, (m < length k)%nat → v !! (i + m)%nat = k !! m) →
  hp_vec_loop fuel v (Z.of_nat i) (Z.of_nat i + len k) ret = Ok (ret ++ pack k).
Proof.
  revert k. refine (even_ind _ _ _); [|intros a b k IH]; intros v i fuel ret Hk Hf Hv.
  - cbn [pack]. rewrite app_nil_r. destruct fuel; [done|]. cbn [hp_vec_loop length]. destruct (Z.ltb_spec (Z.of_nat i) (Z.of_nat i + Z.of_nat 0)); [lia|done].
  - cbn [length] in Hf. destruct fuel as [|fuel]; [lia|]. cbn [hp_vec_loop].
    apply Forall_cons in Hk as [Ha Hk]. apply Forall_cons in Hk as [Hb Hk]. unfold is_nibble in Ha, Hb.
    rewrite (proj2 (Z.ltb_lt _ _)) by (cbn [length]; lia).
    pose proof (Hv 0%nat ltac:(cbn; lia)) as E0. pose proof (Hv 1%nat ltac:(cbn; lia)) as E1. cbn in E0, E1.
    rewrite Nat2Z.id, Nat.add_0_r in *. replace (Z.to_nat (Z.of_nat i + 1)) with (i + 1)%nat by lia. rewrite E0, E1.
    rewrite Z.mod_small by lia. replace (Z.of_nat i + 2) with (Z.of_nat (i + 2)) by lia.
    replace (Z.of_nat i + Z.of_nat (length (a :: b :: k))) with (Z.of_nat (i + 2) + len k) by (cbn [length]; lia).
    rewrite IH; [by cbn [pack]; rewrite <-app_assoc|done|lia|].
    intros m Hm. trans (v !! (i + S (S m))%nat); [f_equal; lia|]. apply (Hv (S (S m))). cbn. lia.
Qed.
Lemma hp_vec_ok leaf v b m : nibbles v → (b + m <= length v)%nat → len v < 2 ^ 31 →
  hexPrefixEncode_vec v leaf (Z.of_nat b) (Z.of_nat (b + m)) = Ok (hp leaf (take m (drop b v))).
Proof.
  intros Hv Hm Hl. unfold hexPrefixEncode_vec. destruct (Z.ltb_spec (Z.of_nat (b + m)) 0) as [|_]; [lia|].
  rewrite (u32_small (Z.of_nat b)), (u32_small (Z.of_nat (b + m))), u32_small by lia. set (k := take m (drop b v)).
  assert (length k = m) as Hk by (unfold k; rewrite length_take, length_drop; lia).
  assert (nibbles k) as Hn by apply Forall_take, Forall_drop, Hv.
  assert (∀ j, (j < m)%nat → v !! (b + j)%nat = k !! j) as Hlook.
  { intros j Hj. unfold k. by rewrite lookup_take_lt, lookup_drop by lia. }
  replace (Z.of_nat (b + m) - Z.of_nat b) with (len k) by lia. rewrite odd_of_nat, !Nat2Z.id. unfold hp.
  destruct (Nat.odd (length k)) eqn:Ho.
  - destruct k as [|a k']; [done|]. pose proof (Hlook 0%nat ltac:(cbn in Hk; lia)) as E0. rewrite Nat.add_0_r in E0. cbn in E0. rewrite E0.
    apply Forall_cons in Hn as [Ha Hn']. destruct (hp_flags_nibble leaf true) as (f&Ef&_). rewrite Ef, lor_nibble by done.
    cbn [length] in *. replace (Z.of_nat b + 1) with (Z.of_nat (S b)) by lia.
    replace (Z.of_nat (b + m)) with (Z.of_nat (S b) + len k') by lia.
    rewrite hp_vec_loop_ok; [done|by apply odd_tail|done|lia|].
    intros j Hj. trans (v !! (b + S j)%nat); [f_equal; lia|]. apply (Hlook (S j)). lia.
  - replace (Z.of_nat (b + m)) with (Z.of_nat b + len k) by lia. rewrite hp_vec_loop_ok; [done|done|done|lia|]. by rewrite Hk.
Qed.
Lemma hp_vec_from leaf p k : nibbles (p ++ k) → len (p ++ k) < 2 ^ 31 →
  hexPrefixEncode_vec (p ++ k) leaf (len p) (-1) = Ok (hp leaf k).
Proof.
  intros Hn Hl. pose proof (hp_vec_ok leaf (p ++ k) (length p) (length k) Hn ltac:(rewrite length_app; lia) Hl) as E.
  rewrite drop_app_length, firstn_all in E. rewrite <-E. unfold hexPrefixEncode_vec.
  destruct (Z.ltb_spec (Z.of_nat (length p + length k)) 0); [lia|]. cbn [Z.ltb Z.compare].
  by replace (len (p ++ k) + 1 + -1) with (Z.of_nat (length p + length k)) by (rewrite length_app; lia).
Qed.
Lemma hp_vec_part p q k : nibbles (p ++ q ++ k) → len (p ++ q ++ k) < 2 ^ 31 →
  hexPrefixEncode_vec (p ++ q ++ k) false (len p) (Z.of_nat (length p + length q)) = Ok (hp false q).
Proof.
  intros Hn Hl. rewrite hp_vec_ok by (done || rewrite !length_app; lia).
  by rewrite drop_app_length, take_app_length.
Qed.

(** ** Entries *)

(** The keys differ, neither is a prefix of the other, and the first is smaller. *)
Definition before (p q : bytes * bytes) : Prop :=
  ∃ c i j a b, p.1 = c ++ i :: a ∧ q.1 = c ++ j :: b ∧ i < j.
Definition entry_ok (e : bytes * bytes) : Prop := small_key e.1 ∧ value_ok e.2.
Record entries_ok (s : HexMap) : Prop := {
  eo_sorted : StronglySorted before s;
  eo_entries : Forall entry_ok s
}.

Definition prefixed (p : list Z) (s : HexMap) : HexMap := (λ e, (p ++ e.1, e.2)) <$> s.
Definition cut (n : nat) (s : HexMap) : HexMap := (λ e, (drop n e.1, e.2)) <$> s.
(** The entries that go on with the nibble [i], without it. *)
Definition tail_of (i : Z) (e : bytes * bytes) : option (bytes * bytes) :=
  match e.1 with x :: k => if decide (x = i) then Some (k, e.2) else None | [] => None end.
Definition group (i : nat) (s : HexMap) : HexMap := omap (tail_of (Z.of_nat i)) s.
(** How many nibbles all keys share with the first. *)
Definition lcps (k : list Z) (c : nat) (rest : HexMap) : nat := foldr (λ e n, Nat.min (lcp k e.1) n) c rest.
Definition common (k : list Z) (rest : HexMap) : nat := lcps k (length k) rest.

(** The tree of the entries. *)
Fixpoint build (fuel : nat) (s : HexMap) : tree :=
  match fuel with
  | O => TEmpty
  | S fuel =>
      match s with
      | [] => TEmpty
      | [(k, v)] => TLeaf k v
      | (k, v) :: rest =>
          let n := common k rest in
          if decide (n = 0%nat) then TBranch ((λ i, build fuel (group i s)) <$> seq 0 16)
          else TExt (take n k) (build fuel (cut n s))
      end
  end.
Definition entries_tree (s : HexMap) : tree := build (hash_fuel s) s.

Lemma before_prefix p k v l w : before (p ++ k, v) (p ++ l, w) ↔ before (k, v) (l, w).
Proof.
  split; intros (c&i&j&a&b&E1&E2&Hij); cbn in *.
  - revert p E1 E2. induction c as [|x c IH]; intros [|y p] E1 E2; simplify_eq/=.
    + by exists [], i, j, a, b.
    + lia.
    + by exists (x :: c), i, j, a, b.
    + by apply IH with p.
  - exists (p ++ c), i, j, a, b. cbn. by rewrite <-!app_assoc, E1, E2.
Qed.
Lemma before_head x k v y l w : before (x :: k, v) (y :: l, w) → x < y ∨ x = y ∧ before (k, v) (l, w).
Proof.
  intros ([|z c]&i&j&a&b&E1&E2&Hij); simplify_eq/=; [by left|right]. split; [done|]. by exists c, i, j, a, b.
Qed.
Lemma before_nil_l v q : ¬ before ([], v) q.
Proof. intros ([|]&?&?&?&?&?&_); done. Qed.
Lemma before_nil_r p w : ¬ before p ([], w).
Proof. intros ([|]&?&?&?&?&_&?&_); done. Qed.

Lemma prefixed_nil s : prefixed [] s = s.
Proof. unfold prefixed. rewrite <-(list_fmap_id s) at 2. apply list_fmap_ext. by intros ? [] _. Qed.
Lemma prefixed_app p q s : prefixed p (prefixed q s) = prefixed (p ++ q) s.
Proof. unfold prefixed. rewrite <-list_fmap_compose. apply list_fmap_ext. intros ? [] _. cbn. by rewrite app_assoc. Qed.
Lemma cut_prefixed p s : cut (length p) (prefixed p s) = s.
Proof.
  unfold prefixed, cut. rewrite <-list_fmap_compose. rewrite <-(list_fmap_id s) at 2. apply list_fmap_ext.
  intros ? [k v] _. cbn. by rewrite drop_app_length.
Qed.
Lemma sorted_prefixed p s : StronglySorted before (prefixed p s) ↔ StronglySorted before s.
Proof.
  split; induction s as [|[k v] s IH]; intros Hs; cbn in *; try constructor;
    apply StronglySorted_inv in Hs as [Hs Hx]; auto.
  - rewrite Forall_fmap in Hx. eapply Forall_impl; [exact Hx|]. intros [l w]. cbn. apply before_prefix.
  - apply Forall_fmap. eapply Forall_impl; [exact Hx|]. intros [l w]. cbn. apply before_prefix.
Qed.
Lemma entries_prefixed p s : entries_ok (prefixed p s) → entries_ok s.
Proof.
  intros [Hs He]. split; [by apply sorted_prefixed in Hs|]. unfold prefixed in He. rewrite Forall_fmap in He. eapply Forall_impl; [exact He|].
  intros [k v] [[Hn Hl] Hv]. cbn [fst snd] in *. apply Forall_app in Hn as [_ Hn]. rewrite length_app in Hl.
  split; [split|]; cbn [fst snd]; [done|lia|done].
Qed.

Lemma lcp_drop_le n : ∀ a b, (n <= lcp a b)%nat → lcp (drop n a) (drop n b) = (lcp a b - n)%nat.
Proof.
  induction n as [|n IH]; intros [|x a] [|y b] Hn; cbn in *; try lia; try (case_decide; lia).
  case_decide; [|lia]. rewrite IH by lia. lia.
Qed.
Lemma common_le k rest : (common k rest <= length k)%nat.
Proof. unfold common. induction rest as [|e rest IH]; cbn [lcps foldr]; [done|]. unfold lcps in IH. lia. Qed.
Lemma common_cut k rest n : (n <= common k rest)%nat → common (drop n k) (cut n rest) = (common k rest - n)%nat.
Proof.
  unfold common, lcps, cut. induction rest as [|e rest IH]; cbn [fmap list_fmap foldr fst]; intros Hn; [apply length_drop|].
  rewrite IH, lcp_drop_le by lia. lia.
Qed.
Lemma common_prefix k v rest : Forall (λ e, take (common k rest) k `prefix_of` e.1) ((k, v) :: rest).
Proof.
  constructor; [apply prefix_take|]. apply Forall_forall. intros e He.
  assert (common k rest <= lcp k e.1)%nat as Hle.
  { revert He. induction rest as [|e' rest IH]; [by intros ?%elem_of_nil|]. intros [->|He]%elem_of_cons; cbn; [lia|].
    specialize (IH He). unfold common, lcps in IH. lia. }
  exists (drop (common k rest) e.1). rewrite <-(take_drop (common k rest) e.1) at 1. f_equal.
  pose proof (f_equal (take (common k rest)) (lcp_take k e.1)) as E. rewrite !take_take, !Nat.min_l in E by lia. done.
Qed.
Lemma split_common k v rest (n := common k rest) :
  (k, v) :: rest = prefixed (take n k) (cut n ((k, v) :: rest)).
Proof.
  pose proof (common_prefix k v rest) as Hp. fold n in Hp. assert (length (take n k) = n) as Hl.
  { rewrite length_take. pose proof (common_le k rest). fold n in H. lia. }
  revert Hp. generalize ((k, v) :: rest). intros s. induction 1 as [|[l w] s [r E] _ IH]; [done|].
  cbn in E. subst l. unfold prefixed, cut in *. cbn [fmap list_fmap fst snd]. f_equal; [|exact IH].
  do 2 f_equal. symmetry. rewrite <-Hl at 1. apply drop_app_length.
Qed.

Lemma shared_run_ok fuel : ∀ a b n, (n + fuel <= length a)%nat → (n + fuel <= length b)%nat →
  shared_run fuel a b (Z.of_nat n) (Z.of_nat (n + fuel)) = Z.of_nat (n + Nat.min (lcp (drop n a) (drop n b)) fuel).
Proof.
  induction fuel as [|fuel IH]; intros a b n Ha Hb; cbn [shared_run]; [f_equal; lia|].
  rewrite (proj2 (Z.ltb_lt _ _)), Nat2Z.id by lia. cbn [andb].
  destruct (lookup_lt_is_Some_2 a n) as [x Hx]; [lia|]. destruct (lookup_lt_is_Some_2 b n) as [y Hy]; [lia|].
  rewrite Hx, Hy, (drop_S _ _ _ Hx), (drop_S _ _ _ Hy). cbn [lcp]. destruct (decide (x = y)) as [->|Hxy].
  - rewrite bool_decide_eq_true_2 by done. replace (Z.of_nat n + 1) with (Z.of_nat (S n)) by lia.
    replace (n + S fuel)%nat with (S n + fuel)%nat by lia. rewrite IH by lia. f_equal. lia.
  - rewrite bool_decide_eq_false_2 by congruence. f_equal. lia.
Qed.
Lemma lcps_min k b c rest : lcps k (Nat.min b c) rest = Nat.min b (lcps k c rest).
Proof. unfold lcps. induction rest as [|e rest IH]; cbn; [done|]. rewrite IH. lia. Qed.
Lemma lcps_common k c e rest : (length k <= c)%nat → lcps k c (e :: rest) = common k (e :: rest).
Proof.
  intros Hc. unfold common. rewrite <-(Nat.min_l (length k) c) by done. rewrite lcps_min. unfold lcps. cbn [foldr].
  pose proof (lcp_le_l k e.1). lia.
Qed.
Lemma shared_pre_ok p k rest : ∀ c,
  shared_pre (p ++ k) (prefixed p rest) (len p) (Z.of_nat (length p + c)) = Z.of_nat (length p + lcps k c rest).
Proof.
  induction rest as [|[l w] rest IH]; intros c; [done|].
  change (prefixed p ((l, w) :: rest)) with ((p ++ l, w) :: prefixed p rest).
  change (lcps k c ((l, w) :: rest)) with (Nat.min (lcp k l) (lcps k c rest)). rewrite <-lcps_min. cbn [shared_pre].
  destruct (Z.eqb_spec (Z.of_nat (length p + c)) 0) as [E|E].
  { assert (length p = 0 ∧ c = 0)%nat as [-> ->] by lia. by rewrite Nat.min_0_r, <-(Nat.min_0_l 0), lcps_min. }
  set (x := Nat.min c (Nat.min (length k) (length l))).
  replace (Z.min (Z.of_nat (length p + c)) _) with (Z.of_nat (length p + x)) by (rewrite !length_app; lia).
  replace (Z.to_nat (Z.of_nat (length p + x) - len p)) with x by lia.
  rewrite shared_run_ok, !drop_app_length by (rewrite length_app; lia).
  replace (Z.min _ _) with (Z.of_nat (length p + Nat.min (lcp k l) c)); [apply IH|].
  pose proof (lcp_le_l k l). pose proof (lcp_le_r k l). lia.
Qed.

(** ** Groups *)
Definition heads_from (i : Z) (s : HexMap) : Prop := Forall (λ e, ∃ x k, e.1 = x :: k ∧ i <= x) s.

Lemma group_none i s : heads_from (Z.of_nat i + 1) s → group i s = [].
Proof.
  unfold group. induction 1 as [|[l w] s (x&k&E&Hx) _ IH]; [done|]. cbn in *. subst l. unfold tail_of. cbn.
  by rewrite decide_False by lia.
Qed.
Lemma group_cons i k v s : group i ((Z.of_nat i :: k, v) :: s) = (k, v) :: group i s.
Proof. unfold group. cbn. unfold tail_of. cbn. by rewrite decide_True. Qed.
Lemma group_skip i x k v s : x ≠ Z.of_nat i → group i ((x :: k, v) :: s) = group i s.
Proof. intros Hx. unfold group. cbn. unfold tail_of. cbn. by rewrite decide_False. Qed.
Lemma group_elem i s k v : (k, v) ∈ group i s ↔ (Z.of_nat i :: k, v) ∈ s.
Proof.
  unfold group. rewrite list_elem_of_omap. split.
  - intros ([l w]&Hin&E). unfold tail_of in E. destruct l as [|x l]; [done|]. cbn in E. case_decide; [|done]. by simplify_eq.
  - intros Hin. exists (Z.of_nat i :: k, v). split; [done|]. unfold tail_of. cbn. by rewrite decide_True.
Qed.
Lemma sorted_heads x k v s :
  StronglySorted before ((x :: k, v) :: s) → heads_from x ((x :: k, v) :: s).
Proof.
  intros [_ Hb]%StronglySorted_inv. constructor; [by exists x, k|]. eapply Forall_impl; [exact Hb|].
  intros [[|y l] w] Hq; [by apply before_nil_r in Hq|]. exists y, l. split; [done|]. destruct (before_head _ _ _ _ _ _ Hq); lia.
Qed.
Lemma group_sorted i s : StronglySorted before s → StronglySorted before (group i s).
Proof.
  induction 1 as [|[k v] s Hs IH Hb]; [constructor|]. destruct k as [|x k]; [exact IH|].
  destruct (decide (x = Z.of_nat i)) as [->|Hx]; [|by rewrite group_skip]. rewrite group_cons. constructor; [done|].
  rewrite Forall_forall in Hb |- *. intros [l w] Hl%group_elem. specialize (Hb _ Hl).
  by destruct (before_head _ _ _ _ _ _ Hb) as [?|[_ ?]]; [lia|].
Qed.
Lemma group_ok i s : entries_ok s → entries_ok (group i s).
Proof.
  intros [Hs He]. split; [by apply group_sorted|]. rewrite Forall_forall in He |- *. intros [k v] Hin%group_elem.
  destruct (He _ Hin) as [[[_ Hn]%Forall_cons Hl] Hv]. cbn [fst snd length] in *. split; [split|]; cbn [fst snd]; [done|lia|done].
Qed.

Lemma take_nibble_ok p i s : StronglySorted before s → heads_from (Z.of_nat i) s →
  ∃ r, s = prefixed [Z.of_nat i] (group i s) ++ r ∧ StronglySorted before r ∧ heads_from (Z.of_nat i + 1) r ∧
    take_nibble (len p) (Z.of_nat i) (prefixed p s) = Ok (prefixed (p ++ [Z.of_nat i]) (group i s), prefixed p r).
Proof.
  intros Hs Hh. induction Hs as [|[l v] s Hs IH Hb]; [by exists []; repeat constructor|].
  apply Forall_cons in Hh as [(x&k&E&Hx) Hh]. cbn in E. subst l.
  assert ((p ++ x :: k) !! Z.to_nat (len p) = Some x) as Ex by (rewrite Nat2Z.id; by apply list_lookup_middle).
  change (prefixed p ((x :: k, v) :: s)) with ((p ++ x :: k, v) :: prefixed p s). cbn [take_nibble]. rewrite Ex.
  destruct (Z.eqb_spec x (Z.of_nat i)) as [->|Hne].
  - destruct (IH Hh) as (r&Es&Hr&Hhr&Et). exists r. rewrite group_cons, Et. split_and!; [|done|done|].
    + change (prefixed _ (_ :: ?g)) with ((Z.of_nat i :: k, v) :: prefixed [Z.of_nat i] g). cbn [app]. by f_equal.
    + cbn. by rewrite <-app_assoc.
  - assert (heads_from (Z.of_nat i + 1) ((x :: k, v) :: s)) as Hh'.
    { eapply Forall_impl; [apply (sorted_heads x k v s); by constructor|]. intros e (y&l&?&?). exists y, l. split; [done|lia]. }
    exists ((x :: k, v) :: s). rewrite (group_none i) by done. split_and!; [done|by constructor|done|done].
Qed.
Lemma group_rest i j s r : i ≠ j → s = prefixed [Z.of_nat i] (group i s) ++ r → group j s = group j r.
Proof.
  intros Hij Es. rewrite Es at 1. unfold group at 1. rewrite omap_app. change (omap _ r) with (group j r).
  replace (omap _ _) with (@nil (bytes * bytes)); [done|]. generalize (group i s). intros g. induction g as [|[k v] g IH]; [done|].
  cbn. unfold tail_of at 1. cbn. rewrite decide_False by lia. exact IH.
Qed.

(** The loop over the children, group by group. *)
Fixpoint children_fold (aux : HexMap → Z → RLPStream → outcome RLPStream) (p : list Z) (idx : list nat) (s : HexMap)
    (_rlp : RLPStream) : outcome RLPStream :=
  match idx with
  | [] => Ok _rlp
  | i :: idx =>
      _rlp ← match group i s with [] => append_bytes [] _rlp | _ => aux (prefixed (p ++ [Z.of_nat i]) (group i s)) (len p + 1) _rlp end;
      children_fold aux p idx s _rlp
  end.
Lemma children_fold_ext aux p idx s r : ∀ _rlp, (∀ j, j ∈ idx → group j s = group j r) →
  children_fold aux p idx s _rlp = children_fold aux p idx r _rlp.
Proof.
  induction idx as [|i idx IH]; intros _rlp E; [done|]. cbn [children_fold]. rewrite <-(E i) by (by left).
  destruct (match group i s with [] => _ | _ => _ end) as [s'| | | |]; cbn; try done. apply IH. intros j Hj. apply E. by right.
Qed.
Lemma children_loop_ok aux p n : ∀ i s _rlp, StronglySorted before s → heads_from (Z.of_nat i) s →
  children_loop aux n (len p) (Z.of_nat i) (prefixed p s) _rlp = children_fold aux p (seq i n) s _rlp.
Proof.
  induction n as [|n IH]; intros i s _rlp Hs Hh; [done|]. cbn [children_loop seq children_fold].
  destruct (take_nibble_ok p i s Hs Hh) as (r&Es&Hr&Hhr&->). cbn [mbind outcome_bind fst snd].
  assert (∀ (a : outcome RLPStream) b g q, match prefixed q g with [] => a | _ :: _ => aux (prefixed q g) b _rlp end =
    match g with [] => a | _ :: _ => aux (prefixed q g) b _rlp end) as Eg by (by intros ?? []). rewrite Eg. clear Eg.
  destruct (match group i s with [] => _ | _ => _ end) as [s'| | | |]; cbn [mbind outcome_bind]; try done.
  replace (Z.of_nat i + 1) with (Z.of_nat (S i)) in * by lia. rewrite IH by done. symmetry. apply children_fold_ext.
  intros j Hj%elem_of_seq. eapply group_rest; [|done]. lia.
Qed.
Lemma groups_cover s n : ∀ i, StronglySorted before s → heads_from (Z.of_nat i) s → Forall (λ e, nibbles e.1) s → (i + n = 16)%nat →
  s = concat ((λ j, prefixed [Z.of_nat j] (group j s)) <$> seq i n).
Proof.
  revert s. induction n as [|n IH]; intros s i Hs Hh Hn Hi.
  - destruct s as [|[k v] s]; [done|]. apply Forall_cons in Hh as [(x&l&E&Hx) _]. apply Forall_cons in Hn as [Hk _].
    cbn in E. subst k. apply Forall_cons in Hk as [Hk _]. unfold is_nibble in Hk. lia.
  - destruct (take_nibble_ok [] i s Hs Hh) as (r&Es&Hr&Hhr&_). cbn [seq fmap list_fmap concat]. rewrite Es at 1. f_equal.
    replace (Z.of_nat i + 1) with (Z.of_nat (S i)) in Hhr by lia. rewrite (IH r (S i)) at 1; [|done|done| |lia].
    + f_equal. apply list_fmap_ext. intros _ j Hj%list_elem_of_lookup_2%elem_of_seq. f_equal. symmetry.
      eapply group_rest; [|done]. lia.
    + rewrite Es in Hn. by apply Forall_app in Hn as [_ Hn].
Qed.

(** ** The encoding *)
Lemma build_two fuel k v e rest :
  build (S fuel) ((k, v) :: e :: rest) =
    if decide (common k (e :: rest) = 0%nat) then TBranch ((λ i, build fuel (group i ((k, v) :: e :: rest))) <$> seq 0 16)
    else TExt (take (common k (e :: rest)) k) (build fuel (cut (common k (e :: rest)) ((k, v) :: e :: rest))).
Proof. done. Qed.
Lemma cut_ok k v rest : entries_ok ((k, v) :: rest) → entries_ok (cut (common k rest) ((k, v) :: rest)).
Proof. intros He. rewrite split_common in He. by apply entries_prefixed in He. Qed.
(** Two keys or more, all of which go on. *)
Lemma all_go_on k v e rest : entries_ok ((k, v) :: e :: rest) → heads_from 0 ((k, v) :: e :: rest).
Proof.
  intros [Hs He]. destruct k as [|x k].
  - apply StronglySorted_inv in Hs as [_ [Hb _]%Forall_cons]. by apply before_nil_l in Hb.
  - eapply Forall_impl; [by apply sorted_heads|]. apply Forall_cons in He as [[[[Hx _]%Forall_cons _] _] _].
    intros e' (y&l&E&Hy). exists y, l. split; [done|]. unfold is_nibble in Hx. lia.
Qed.

Section Encoding.
Context `{Crypto}.

Lemma build_codable fuel : ∀ s, entries_ok s → codable (build fuel s).
Proof.
  induction fuel as [|fuel IH]; intros s He; [apply empty_codable|]. destruct s as [|[k v] [|e rest]].
  - apply empty_codable.
  - destruct He as [_ [[??] _]%Forall_cons]. by apply leaf_codable.
  - rewrite build_two. case_decide.
    + apply branch_codable; [done|]. apply Forall_fmap, Forall_forall. intros i _. apply IH. by apply group_ok.
    + apply ext_codable; [|apply IH; by apply cut_ok].
      destruct He as [_ [[[Hn Hl] _] _]%Forall_cons]. split; [by apply Forall_take|]. cbn in Hl. rewrite length_take. lia.
Qed.

Lemma aux_ok hash s n t _rlp : hash s n stream_empty = appended (node_item t) stream_empty → codable t →
  hash256aux hash s n _rlp = appended (child_item t) _rlp.
Proof.
  intros E Hc. unfold hash256aux. rewrite E. cbn [appended noteAppended push stream_empty m_out m_listStack Z.eqb note_loop mbind outcome_bind app].
  unfold out. cbn [m_listStack m_out]. rewrite bool_decide_eq_false_2 by (by intros []). cbn [mbind outcome_bind].
  unfold child_item, ref_item. destruct (len (encode (node_item t)) <? 32); [done|]. apply append_hash_appended.
Qed.

(** What [hash256rlp] appends for the entries [s] behind the common prefix [p]. *)
Definition hashes_to (fuel : nat) (s : HexMap) : Prop := ∀ p _rlp, nibbles p → Forall (λ e, len (p ++ e.1) < 2 ^ 30) s →
  hash256rlp fuel (prefixed p s) (len p) _rlp = appended (node_item (build fuel s)) _rlp.

Lemma children_ok fuel p s : nibbles p → Forall (λ e, len (p ++ e.1) < 2 ^ 30) s → entries_ok s →
  (∀ i, group i s ≠ [] → hashes_to fuel (group i s)) → build fuel [] = TEmpty →
  ∀ idx _rlp, Forall (λ i, i < 16)%nat idx → children_fold (hash256aux (hash256rlp fuel)) p idx s _rlp =
    append_all appended ((λ i, child_item (build fuel (group i s))) <$> idx) _rlp.
Proof.
  intros Hp Hl He IH Hnil. induction idx as [|i idx IHi]; intros _rlp Hidx; [done|]. apply Forall_cons in Hidx as [Hi Hidx].
  cbn [children_fold fmap list_fmap append_all].
  replace (match group i s with [] => _ | _ => _ end) with (appended (child_item (build fuel (group i s))) _rlp).
  - destruct (appended _ _rlp) as [r| | | |]; cbn [mbind outcome_bind]; try done. by apply IHi.
  - symmetry. destruct (group i s) as [|e g] eqn:Eg.
    + rewrite Hnil. apply append_bytes_encode. apply empty_codable.
    + rewrite <-Eg in *. apply aux_ok; [|apply build_codable; by apply group_ok].
      replace (len p + 1) with (len (p ++ [Z.of_nat i])) by (rewrite length_app; cbn; lia).
      apply IH; [by rewrite Eg|apply Forall_app; split; [done|]; constructor; [unfold is_nibble; lia|done]|].
      rewrite Forall_forall in Hl |- *. intros [k v] Hin%group_elem. specialize (Hl _ Hin). cbn [fst] in *. by rewrite <-app_assoc.
Qed.
Lemma hashes_ext fuel p k v e rest (s := (k, v) :: e :: rest) (n := common k (e :: rest)) _rlp :
  entries_ok s → n ≠ 0%nat → hashes_to fuel (cut n s) → nibbles p → Forall (λ e, len (p ++ e.1) < 2 ^ 30) s →
  hash256rlp (S fuel) (prefixed p s) (len p) _rlp = appended (node_item (TExt (take n k) (build fuel (cut n s)))) _rlp.
Proof.
  intros He Hn IH Hp Hl. pose proof (split_common k v (e :: rest)) as Es. cbv zeta in Es. fold s n in Es. set (q := take n k) in *.
  pose proof (common_le k (e :: rest)) as Hle. fold n in Hle. assert (length q = n) as Hq by (unfold q; rewrite length_take; lia).
  pose proof (build_codable fuel _ (cut_ok _ _ _ He)) as Hc. fold s n in Hc.
  assert (small_key q) as Hqs.
  { destruct He as [_ [[[Hk Hkl] _] _]%Forall_cons]. cbn in Hkl. split; [by apply Forall_take|lia]. }
  assert (nibbles (p ++ q ++ drop n k) ∧ len (p ++ q ++ drop n k) < 2 ^ 31) as [Hkn Hkl].
  { unfold q. rewrite take_drop. apply Forall_cons in Hl as [Hl _]. cbn in Hl. destruct He as [_ [[[Hk _] _] _]%Forall_cons].
    split; [by apply Forall_app|lia]. }
  assert (shared_pre (p ++ k) (prefixed p (e :: rest)) (len p) (2 ^ 32 - 1) = Z.of_nat (length p + n)) as Esh.
  { apply Forall_cons in Hl as [Hl _]. cbn [fst] in Hl. rewrite length_app in Hl.
    replace (2 ^ 32 - 1) with (Z.of_nat (length p + Z.to_nat (2 ^ 32 - 1 - len p))) by lia.
    rewrite shared_pre_ok, lcps_common by lia. done. }
  change (prefixed p s) with ((p ++ k, v) :: (p ++ e.1, e.2) :: prefixed p rest). cbn [hash256rlp].
  change ((p ++ e.1, e.2) :: prefixed p rest) with (prefixed p (e :: rest)). rewrite Esh. cbv zeta.
  rewrite (proj2 (Z.ltb_lt _ _)) by lia. change ((p ++ k, v) :: prefixed p (e :: rest)) with (prefixed p s).
  assert (hexPrefixEncode_vec (p ++ k) false (len p) (Z.of_nat (length p + n)) = Ok (hp false q)) as ->.
  { pose proof (hp_vec_part p q (drop n k) Hkn Hkl) as E. rewrite Hq in E. unfold q in E. by rewrite (take_drop n k) in E. }
  change (node_item (TExt q _)) with (Items [Data (hp false q); child_item (build fuel (cut n s))]).
  rewrite <-append_list_ok by (done || by apply ext_codable).
  change (len [Data _; _]) with 2. destruct (appendList 2 _rlp) as [r| | | |]; cbn [mbind outcome_bind append_all]; try done.
  rewrite append_bytes_encode by by apply (pair_parts false q (child_item (build fuel (cut n s)))), ext_codable.
  destruct (appended (Data (hp false q)) r) as [r'| | | |]; cbn [mbind outcome_bind]; try done. rewrite bind_Ok_r. apply aux_ok; [|done].
  rewrite Es at 1. rewrite prefixed_app. replace (Z.of_nat (length p + n)) with (len (p ++ q)) by (rewrite length_app; lia).
  apply IH; [apply Forall_app; split; [done|apply Hqs]|].
  rewrite Es in Hl. unfold prefixed in Hl. rewrite Forall_fmap in Hl. eapply Forall_impl; [exact Hl|]. intros e'. cbn. by rewrite <-app_assoc.
Qed.

Lemma hashes_branch fuel p k v e rest (s := (k, v) :: e :: rest) _rlp :
  entries_ok s → common k (e :: rest) = 0%nat → (0 < fuel)%nat → (∀ i, group i s ≠ [] → hashes_to fuel (group i s)) →
  nibbles p → Forall (λ e, len (p ++ e.1) < 2 ^ 30) s →
  hash256rlp (S fuel) (prefixed p s) (len p) _rlp =
    appended (node_item (TBranch ((λ i, build fuel (group i s)) <$> seq 0 16))) _rlp.
Proof.
  intros He Hn Hf IH Hp Hl. pose proof (all_go_on k v e rest He) as Hh. fold s in Hh.
  assert (0 < len k) as Hk.
  { pose proof Hh as [(x&l&E&_) _]%Forall_cons. cbn in E. subst k. cbn [length]. lia. }
  assert (shared_pre (p ++ k) (prefixed p (e :: rest)) (len p) (2 ^ 32 - 1) = len p) as Esh.
  { pose proof Hl as [Hl' _]%Forall_cons. cbn [fst] in Hl'. rewrite length_app in Hl'.
    replace (2 ^ 32 - 1) with (Z.of_nat (length p + Z.to_nat (2 ^ 32 - 1 - len p))) by lia.
    rewrite shared_pre_ok, lcps_common by lia. lia. }
  change (prefixed p s) with ((p ++ k, v) :: (p ++ e.1, e.2) :: prefixed p rest). cbn [hash256rlp].
  change ((p ++ e.1, e.2) :: prefixed p rest) with (prefixed p (e :: rest)). rewrite Esh. cbv zeta.
  rewrite Z.ltb_irrefl, (proj2 (Z.eqb_neq (len p) (len (p ++ k)))) by (rewrite length_app; lia).
  change ((p ++ k, v) :: prefixed p (e :: rest)) with (prefixed p s).
  assert (build fuel [] = TEmpty) as Hnil by (by destruct fuel).
  assert (codable (TBranch ((λ i, build fuel (group i s)) <$> seq 0 16))) as Hc.
  { apply branch_codable; [done|]. apply Forall_fmap, Forall_forall. intros i _. by apply build_codable, group_ok. }
  set (l := (λ i, child_item (build fuel (group i s))) <$> seq 0 16). unfold codable in Hc.
  assert (node_item (TBranch ((λ i, build fuel (group i s)) <$> seq 0 16)) = Items (l ++ [Data []])) as En.
  { cbn [node_item]. unfold l. by rewrite <-list_fmap_compose. }
  rewrite En in *. rewrite <-append_list_ok by done.
  change (len (l ++ [Data []])) with 17. destruct (appendList 17 _rlp) as [r| | | |]; cbn [mbind outcome_bind]; try done.
  change 0 with (Z.of_nat 0) at 1. rewrite children_loop_ok by (done || apply He).
  rewrite children_ok; [|done..|by apply Forall_seq; intros; lia]. rewrite append_all_app. fold l.
  destruct (append_all appended l r) as [r'| | | |]; cbn [mbind outcome_bind append_all]; try done.
  rewrite bind_Ok_r. apply append_bytes_encode, empty_codable.
Qed.
Lemma hash256rlp_ok fuel : ∀ s, entries_ok s → (0 < fuel)%nat → Forall (λ e, length e.1 < fuel)%nat s → hashes_to fuel s.
Proof.
  induction fuel as [|fuel IH]; intros s He Hf Hl p _rlp Hp Hb; [lia|]. destruct s as [|[k v] [|e rest]].
  - apply append_bytes_encode, empty_codable.
  - destruct He as [_ [[[Hk Hkl] Hv] _]%Forall_cons]. cbn in Hkl. apply Forall_cons in Hb as [Hb _]. cbn [fst] in Hb.
    cbn [prefixed fmap list_fmap hash256rlp fst snd build node_item].
    rewrite hp_vec_from; [|by apply Forall_app|lia]. pose proof (leaf_codable k v (conj Hk Hkl) Hv) as Hc.
    unfold pair_item. rewrite <-append_list_ok by done. change (len [Data _; Data _]) with 2.
    destruct (appendList 2 _rlp) as [r| | | |]; cbn [mbind outcome_bind append_all]; try done.
    destruct (pair_parts _ _ _ Hc). rewrite append_bytes_encode by done.
    destruct (appended (Data (hp true k)) r) as [r'| | | |]; cbn [mbind outcome_bind]; try done. rewrite bind_Ok_r. by apply append_bytes_encode.
  - set (s := (k, v) :: e :: rest) in *. pose proof (all_go_on k v e rest He) as Hh. fold s in Hh.
    assert (0 < fuel)%nat as Hf'.
    { pose proof Hh as [(x&l&E&_) _]%Forall_cons. pose proof Hl as [Hl' _]%Forall_cons. cbn in E, Hl'. subst k. cbn in Hl'. lia. }
    unfold s. rewrite build_two. case_decide as Ec.
    + apply hashes_branch; try done. intros i _. apply IH; [by apply group_ok|done|].
      rewrite Forall_forall in Hl |- *. intros [k' v'] Hin%group_elem. specialize (Hl _ Hin). cbn in *. lia.
    + apply hashes_ext; try done. apply IH; [by apply cut_ok|done|].
      unfold cut. rewrite Forall_fmap. eapply Forall_impl; [exact Hl|]. intros [k' v'] Hk'. unfold compose. cbn [fst] in *. rewrite length_drop. lia.
Qed.
End Encoding.

(** ** What the tree holds *)
Lemma prefixed_elem q s k v : (k, v) ∈ prefixed q s ↔ ∃ k', k = q ++ k' ∧ (k', v) ∈ s.
Proof.
  unfold prefixed. rewrite list_elem_of_fmap. split.
  - intros ([k' v']&[= -> ->]&Hin). eauto.
  - intros (k'&->&Hin). by exists (k', v).
Qed.
Lemma group_fuel i s fuel : Forall (λ e, length e.1 < S fuel)%nat s → Forall (λ e, length e.1 < fuel)%nat (group i s).
Proof. rewrite !Forall_forall. intros Hl [k v] Hin%group_elem. specialize (Hl _ Hin). cbn in *. lia. Qed.
Lemma cut_fuel n s fuel : (0 < fuel)%nat → n ≠ 0%nat → Forall (λ e, length e.1 < S fuel)%nat s → Forall (λ e, length e.1 < fuel)%nat (cut n s).
Proof.
  intros ?? Hl. unfold cut. rewrite Forall_fmap. eapply Forall_impl; [exact Hl|]. intros [k v] ?. unfold compose. cbn [fst] in *.
  rewrite length_drop. lia.
Qed.
Lemma fuel_left k v e rest fuel : entries_ok ((k, v) :: e :: rest) → Forall (λ e, length e.1 < S fuel)%nat ((k, v) :: e :: rest) →
  (0 < fuel)%nat.
Proof.
  intros He [Hl _]%Forall_cons. pose proof (all_go_on _ _ _ _ He) as [(x&l&E&_) _]%Forall_cons. cbn in *. subst k. cbn in Hl. lia.
Qed.
Lemma build_branch_at fuel s i r : is_nibble i →
  t_at (TBranch ((λ j, build fuel (group j s)) <$> seq 0 16)) (i :: r) = t_at (build fuel (group (Z.to_nat i) s)) r.
Proof.
  intros Hi. unfold is_nibble in Hi. apply at_branch. rewrite list_lookup_fmap, lookup_seq_lt by lia. done.
Qed.
Lemma build_at fuel : ∀ s, entries_ok s → Forall (λ e, length e.1 < fuel)%nat s → ∀ k v, v ≠ [] → nibbles k →
  t_at (build fuel s) k = v ↔ (k, v) ∈ s.
Proof.
  induction fuel as [|fuel IH]; intros s He Hl k v Hv Hk.
  { destruct s as [|e s]; [|by apply Forall_cons in Hl as [? _]; lia]. cbn. split; [by intros <-|by intros ?%elem_of_nil]. }
  destruct s as [|[k0 v0] [|e rest]].
  - cbn. split; [by intros <-|by intros ?%elem_of_nil].
  - cbn. rewrite list_elem_of_singleton. case_decide as E; split; intros E'; simplify_eq; done.
  - pose proof (fuel_left _ _ _ _ _ He Hl) as Hf. rewrite build_two. case_decide as Ec.
    + destruct k as [|i r].
      * split; [by intros <-|]. intros Hin. pose proof (all_go_on _ _ _ _ He) as Hh. unfold heads_from in Hh. rewrite Forall_forall in Hh.
        by destruct (Hh _ Hin) as (?&?&?&_).
      * apply Forall_cons in Hk as [Hi Hk]. rewrite build_branch_at by done.
        rewrite (IH (group _ _)) by (done || by apply group_ok || by apply group_fuel). rewrite group_elem.
        unfold is_nibble in Hi. by rewrite Z2Nat.id by lia.
    + set (n := common k0 (e :: rest)) in *. rewrite (split_common k0 v0 (e :: rest)) at 2. fold n. rewrite prefixed_elem. cbn [t_at].
      pose proof (IH _ (cut_ok _ _ _ He) (cut_fuel _ _ _ Hf Ec Hl)) as IH'. fold n in IH'. destruct (strip (take n k0) k) as [r|] eqn:Es.
      * apply strip_Some in Es as ->. apply Forall_app in Hk as [_ Hk]. rewrite (IH' r v) by done. split; [eauto|].
        intros (k'&E&Hin). by apply (inj _) in E as ->.
      * split; [by intros <-|]. intros (k'&->&_). by rewrite strip_app in Es.
Qed.

Lemma build_used fuel s : (0 < fuel)%nat → s ≠ [] → is_used (build fuel s) = true.
Proof. destruct fuel as [|fuel]; [lia|]. destruct s as [|[k v] [|e rest]]; [done|done|]. intros _ _. rewrite build_two. by case_decide. Qed.
Lemma common_zero k e rest : common k (e :: rest) = 0%nat → k ≠ [] → ∃ e', e' ∈ e :: rest ∧ lcp k e'.1 = 0%nat.
Proof.
  unfold common, lcps. intros Hc Hk. revert Hc. generalize (e :: rest). intros s. induction s as [|e' s IH]; cbn; intros Hc; [by destruct k|].
  destruct (decide (lcp k e'.1 = 0%nat)) as [E|E]; [exists e'; split; [by left|done]|].
  destruct IH as (x&Hx&Ex); [lia|]. exists x. split; [by right|done].
Qed.
(** Keys that share nothing fill two slots of the branch. *)
Lemma slot_used fuel s z r u : entries_ok s → (0 < fuel)%nat → (z :: r, u) ∈ s →
  is_nibble z ∧ ∃ c, ((λ j, build fuel (group j s)) <$> seq 0 16) !! Z.to_nat z = Some c ∧ is_used c = true.
Proof.
  intros [_ Hall] Hf Hz. rewrite Forall_forall in Hall. destruct (Hall _ Hz) as [[[Hzn _]%Forall_cons _] _].
  split; [done|]. unfold is_nibble in Hzn. eexists. rewrite list_lookup_fmap, lookup_seq_lt by lia. split; [done|].
  apply build_used; [done|]. assert ((r, u) ∈ group (Z.to_nat z) s) as Hg by (apply group_elem; by rewrite Z2Nat.id by lia).
  intros E. cbn [Nat.add] in E. rewrite E in Hg. by apply elem_of_nil in Hg.
Qed.
Lemma branch_two_used fuel k v e rest (s := (k, v) :: e :: rest) : entries_ok s → (0 < fuel)%nat → common k (e :: rest) = 0%nat →
  two_used ((λ j, build fuel (group j s)) <$> seq 0 16).
Proof.
  intros He Hf Ec. pose proof (all_go_on _ _ _ _ He) as Hh. unfold heads_from in Hh. rewrite Forall_forall in Hh.
  destruct (Hh (k, v)) as (x&k'&Ek&_); [by left|]. cbn in Ek. destruct (common_zero k e rest Ec) as ([l w]&Hin&El); [by rewrite Ek|].
  destruct (Hh (l, w)) as (y&l'&El'&_); [by right|]. cbn in El, El'. subst k l. cbn in El. case_decide as Exy; [done|].
  destruct (slot_used fuel s x k' v) as (Hx&c&Hc&Uc); [done|done|by left|].
  destruct (slot_used fuel s y l' w) as (Hy&c'&Hc'&Uc'); [done|done|by right|].
  exists (Z.to_nat x), (Z.to_nat y), c, c'. unfold is_nibble in *. split_and!; try done. lia.
Qed.
(** Without what they share, two keys or more make a branch. *)
Lemma cut_branch fuel k v e rest (n := common k (e :: rest)) : (0 < fuel)%nat →
  is_branch (build fuel (cut n ((k, v) :: e :: rest))) = true.
Proof.
  intros Hf. destruct fuel as [|fuel]; [lia|]. pose proof (common_cut k (e :: rest) n ltac:(done)) as Ecut. fold n in Ecut.
  change (cut n ((k, v) :: e :: rest)) with ((drop n k, v) :: (drop n e.1, e.2) :: cut n rest).
  rewrite build_two, decide_True; [done|]. change (_ :: cut n rest) with (cut n (e :: rest)). lia.
Qed.
Lemma build_wf fuel : ∀ n s, entries_ok s → (n < fuel)%nat → Forall (λ e, length e.1 = n) s → wf n (build fuel s).
Proof.
  induction fuel as [|fuel IH]; intros n s He Hn Hl; [lia|]. destruct s as [|[k v] [|e rest]]; [done| |].
  { destruct He as [_ [[[Hk _] Hv] _]%Forall_cons]. apply Forall_cons in Hl as [? _]. done. }
  pose proof (all_go_on _ _ _ _ He) as [(x&k'&Ek&_) _]%Forall_cons. pose proof Hl as [Hkn _]%Forall_cons. cbn in Ek, Hkn.
  assert (n = S (length k')) as En by (by rewrite <-Hkn, Ek). rewrite build_two. case_decide as Ec.
  - rewrite En. apply wf_branch. split_and!; [done| |apply branch_two_used; [done|lia|done]].
    apply Forall_fmap, Forall_forall. intros i _. apply IH; [by apply group_ok|lia|].
    rewrite Forall_forall in Hl |- *. intros [l w] Hin%group_elem. specialize (Hl _ Hin). cbn in *. lia.
  - pose proof (common_le k (e :: rest)) as Hle.
    assert (length (take (common k (e :: rest)) k) = common k (e :: rest)) as Hm by (rewrite length_take; lia).
    cbn [wf]. rewrite Hm. split_and!.
    + intros E. rewrite E in Hm. cbn [length] in Hm. lia.
    + destruct He as [_ [[[Hk _] _] _]%Forall_cons]. by apply Forall_take.
    + apply cut_branch. lia.
    + lia.
    + apply IH; [by apply cut_ok|lia|]. unfold cut. rewrite Forall_fmap. eapply Forall_impl; [exact Hl|].
      intros [l w] E. unfold compose. cbn [fst] in *. rewrite length_drop. lia.
Qed.

(** ** The entries of a map *)
Lemma leb_total a : ∀ b, bytes_leb a b = true ∨ bytes_leb b a = true.
Proof.
  induction a as [|x a IH]; intros [|y b]; cbn; try by (left + right). destruct (Z.lt_trichotomy x y) as [?|[->|?]].
  - left. by rewrite (proj2 (Z.ltb_lt _ _)).
  - rewrite Z.ltb_irrefl, Z.eqb_refl. apply IH.
  - right. by rewrite (proj2 (Z.ltb_lt _ _)).
Qed.
Lemma leb_trans a : ∀ b c, bytes_leb a b = true → bytes_leb b c = true → bytes_leb a c = true.
Proof.
  induction a as [|x a IH]; intros [|y b] [|z c]; cbn; try done.
  rewrite !orb_true_iff, !andb_true_iff, !Z.ltb_lt, !Z.eqb_eq. intros [?|[-> ?]] [?|[-> ?]]; [left; lia..|]. right. eauto.
Qed.
#[export] Instance entry_le_total : Total entry_le.
Proof. intros p q. apply leb_total. Qed.
#[export] Instance entry_le_trans : Transitive entry_le.
Proof. intros p q r. apply leb_trans. Qed.
Lemma leb_before a : ∀ b v w, bytes_leb a b = true → ¬ a `prefix_of` b → before (a, v) (b, w).
Proof.
  induction a as [|x a IH]; intros [|y b] v w; cbn; try done; [intros _ []; apply prefix_nil..|].
  rewrite orb_true_iff, andb_true_iff, Z.ltb_lt, Z.eqb_eq. intros [Hxy|[-> Hab]] Hp.
  - by exists [], x, y, a, b.
  - destruct (IH b v w Hab) as (c&i&j&a'&b'&E1&E2&?); [by intros ?; destruct Hp; apply prefix_cons|].
    exists (y :: c), i, j, a', b'. cbn in *. by subst.
Qed.
Lemma sorted_before s : StronglySorted entry_le s → NoDup s.*1 → (∀ p q, p ∈ s → q ∈ s → p.1 `prefix_of` q.1 → p.1 = q.1) →
  StronglySorted before s.
Proof.
  induction 1 as [|[k v] s Hs IH Hb]; intros Hd Hp; [constructor|]. apply NoDup_cons in Hd as [Hk Hd].
  constructor; [apply IH; [done|]; intros p q ??; apply Hp; by right|]. rewrite Forall_forall in Hb |- *. intros [l w] Hin.
  apply leb_before; [exact (Hb _ Hin)|]. intros Hpre. apply Hk. apply list_elem_of_fmap. exists (l, w). split; [|done].
  apply (Hp (k, v) (l, w)); [by left|by right|done].
Qed.

Lemma asNibbles_prefix k1 : ∀ k2, asNibbles k1 `prefix_of` asNibbles k2 → k1 `prefix_of` k2.
Proof.
  induction k1 as [|x k1 IH]; intros [|y k2] Hp; [apply prefix_nil..|by apply prefix_nil_not in Hp|].
  rewrite !asNibbles_cons in Hp. pose proof (prefix_cons_inv_1 _ _ _ _ Hp) as E1. apply prefix_cons_inv_2 in Hp.
  pose proof (prefix_cons_inv_1 _ _ _ _ Hp) as E2. apply prefix_cons_inv_2 in Hp.
  rewrite (Z.div_mod x 16), (Z.div_mod y 16), E1, E2 by lia. by apply prefix_cons, IH.
Qed.

(** No key is a prefix of another; keys and values are in range. *)
Definition prefix_free (m : gmap bytes bytes) : Prop :=
  ∀ k l, is_Some (m !! k) → is_Some (m !! l) → k `prefix_of` l → k = l.
Definition entries_in_range (m : gmap bytes bytes) : Prop :=
  map_Forall (λ k v, Forall is_byte k ∧ 2 * len k < 2 ^ 30 ∧ value_ok v) m.

Lemma hexMap_elem m k v : (asNibbles k, v) ∈ hexMap_of m ↔ m !! k = Some v.
Proof.
  unfold hexMap_of. rewrite merge_sort_Permutation, list_elem_of_fmap. split.
  - intros ([l w]&[= E ->]&Hin%elem_of_map_to_list). by apply asNibbles_inj in E as ->.
  - intros Hm. exists (k, v). split; [done|]. by apply elem_of_map_to_list.
Qed.
Lemma hexMap_inv m e : e ∈ hexMap_of m → ∃ k, e.1 = asNibbles k ∧ m !! k = Some e.2.
Proof.
  unfold hexMap_of. rewrite merge_sort_Permutation, list_elem_of_fmap. intros ([l w]&->&Hin%elem_of_map_to_list). by exists l.
Qed.
Lemma hexMap_ok m : prefix_free m → entries_in_range m → entries_ok (hexMap_of m).
Proof.
  intros Hp Hm. split.
  - apply sorted_before.
    + apply StronglySorted_merge_sort; apply _.
    + unfold hexMap_of. rewrite merge_sort_Permutation, <-list_fmap_compose.
      change (_ <$> map_to_list m) with ((asNibbles ∘ fst) <$> map_to_list m). rewrite list_fmap_compose.
      apply NoDup_fmap_2_strong; [intros a b _ _; apply asNibbles_inj|apply NoDup_fst_map_to_list].
    + intros p q (k&E1&Hk)%hexMap_inv (l&E2&Hl)%hexMap_inv. rewrite E1, E2. intros Hpre%asNibbles_prefix. f_equal. apply Hp; eauto.
  - apply Forall_forall. intros e (k&E&Hk)%hexMap_inv. destruct (Hm _ _ Hk) as (Hb&Hl&Hv). split; [|done].
    rewrite E. split; [by apply asNibbles_ok|]. rewrite length_asNibbles. lia.
Qed.
Lemma hash_fuel_ok s : Forall (λ e, length e.1 < hash_fuel s)%nat s.
Proof.
  unfold hash_fuel. induction s as [|e s IH]; [constructor|]. constructor; cbn [foldr]; [lia|].
  eapply Forall_impl; [exact IH|]. cbn. intros. lia.
Qed.

Section Roots.
Context `{Crypto}.

(** The trie of a map, by its entries. *)
Definition map_tree (m : gmap bytes bytes) : tree := entries_tree (hexMap_of m).

Lemma hash256_ok m : prefix_free m → entries_in_range m → hash256 m = Ok (sha3 (enc (map_tree m))).
Proof.
  intros Hp Hm. unfold hash256, rlp256. case_bool_decide as E; [by subst|]. cbv zeta. set (s := hexMap_of m).
  pose proof (hexMap_ok m Hp Hm) as He. fold s in He.
  pose proof (hash256rlp_ok (hash_fuel s) s He ltac:(unfold hash_fuel; lia) (hash_fuel_ok s) [] stream_empty) as Eh.
  rewrite prefixed_nil in Eh. change (len []) with 0 in Eh. rewrite Eh; [done|constructor|].
  eapply Forall_impl; [apply He|]. intros e [[_ Hl] _]. cbn. lia.
Qed.

(** On keys of one length it is the trie the database holds. *)
Lemma map_tree_fixed L m : Z.of_nat L * 4 < 2 ^ 30 → map_ok L m → prefix_free m ∧ entries_in_range m ∧ map_tree m = tree_of m.
Proof.
  intros HL Hm.
  assert (prefix_free m) as Hp.
  { intros k l [v Hk] [w Hl] Hpre. destruct (Hm _ _ Hk) as [[Ek _] _]. destruct (Hm _ _ Hl) as [[El _] _].
    apply prefix_length_eq; [done|lia]. }
  assert (entries_in_range m) as Hr.
  { intros k v Hk. destruct (Hm _ _ Hk) as [[Ek Hb] Hv]. split_and!; [done|lia|done]. }
  split_and!; try done. pose proof (hexMap_ok m Hp Hr) as He. apply (tree_of_unique L); [done| |].
  - unfold map_tree, entries_tree. destruct (hexMap_of m) as [|e s] eqn:Es; [done|]. rewrite <-Es in *. apply build_wf; [done| |].
    + pose proof (hash_fuel_ok (hexMap_of m)) as Hf. rewrite Forall_forall in Hf.
      assert (e ∈ hexMap_of m) as Hin by (rewrite Es; by left). specialize (Hf _ Hin). apply hexMap_inv in Hin as (k&E&Hk).
      rewrite E, length_asNibbles in Hf. destruct (Hm _ _ Hk) as [[Ek _] _]. lia.
    + apply Forall_forall. intros e' (k&E&Hk)%hexMap_inv. rewrite E, length_asNibbles. by destruct (Hm _ _ Hk) as [[-> _] _].
  - intros k [Hl Hb]. pose proof (build_at _ _ He (hash_fuel_ok _) (asNibbles k)) as Ha. fold (entries_tree (hexMap_of m)) in Ha.
    fold (map_tree m) in Ha. destruct (m !! k) as [v|] eqn:E; cbn.
    + apply Ha; [by destruct (Hm _ _ E) as [_ [? _]]|by apply asNibbles_ok|by apply hexMap_elem].
    + destruct (decide (t_at (map_tree m) (asNibbles k) = [])) as [|Hne]; [done|].
      pose proof (proj1 (Ha _ Hne (asNibbles_ok _ Hb)) eq_refl) as Hin. apply hexMap_elem in Hin. congruence.
Qed.
End Roots.
