(* ===== verification/TrieRoots.v ===== *)
(** * What a root says

    [hash256] and the database trie compute the same root; and a root determines the
    map behind it, so the transactions root of a block header commits to the
    transactions and their order. *)
From stdpp Require Import base gmap list sorting.
From Stdlib Require Import ZArith Lia.
From S2P Require Import Prelude Rlp RlpProofs Interfaces Trie TrieNibbles TrieTree TrieCode TrieStore TrieLookup TrieInsert TrieMap TrieHash TrieHashProofs TrieProps.
Open Scope Z_scope.

(** ** A tree is read back from its encoding *)
Lemma hp_inj l1 l2 k1 k2 : nibbles k1 → nibbles k2 → hp l1 k1 = hp l2 k2 → l1 = l2 ∧ k1 = k2.
Proof.
  intros H1 H2 E. destruct (hp_cons l1 k1 H1) as (b1&t1&E1&_&_&F1&O1&D1). destruct (hp_cons l2 k2 H2) as (b2&t2&E2&_&_&F2&O2&D2).
  rewrite E1, E2 in E. injection E as -> ->. rewrite F1 in F2. rewrite O1 in O2. split; [by destruct l1, l2|].
  rewrite <-D1, <-D2. by destruct (Nat.odd (length k1)), (Nat.odd (length k2)).
Qed.

Section Read.
Context `{Crypto} (sha3_in : ∀ b, in256 (sha3 b)) (U : bytes → Prop) (Hcf : collision_free U).

(** A tree all of whose nodes can be encoded. *)
Fixpoint plain (t : tree) : Prop :=
  codable t ∧
  match t with
  | TEmpty => True
  | TLeaf k _ => nibbles k
  | TExt k c => nibbles k ∧ plain c
  | TBranch cs => length cs = 16%nat ∧ foldr and True (plain <$> cs)
  end.
Lemma plain_codable t : plain t → codable t.
Proof. by destruct t; intros [? _]. Qed.

Lemma node_not_hash t h : node_item t ≠ rlp_hash 32 h.
Proof. by destruct t. Qed.
Lemma child_inj t u : plain t → plain u → Forall U (subtree t) → Forall U (subtree u) →
  child_item t = child_item u → node_item t = node_item u.
Proof using sha3_in Hcf.
  intros Pt Pu [Ut _]%Forall_app [Uu _]%Forall_app. unfold filed, enc in *. unfold child_item, ref_item.
  destruct (Z.ltb_spec (len (encode (node_item t))) 32) as [St|St], (Z.ltb_spec (len (encode (node_item u))) 32) as [Su|Su];
    unfold rlp_hash; intros E; [done|..].
  - by destruct (node_not_hash t (sha3 (encode (node_item u)))).
  - by destruct (node_not_hash u (sha3 (encode (node_item t)))).
  - rewrite (proj2 (Z.leb_le _ _)) in Ut by done. rewrite (proj2 (Z.leb_le _ _)) in Uu by done. apply Forall_cons in Ut as [Ut _], Uu as [Uu _].
    apply (f_equal payload_of) in E. cbn [payload_of] in E. apply (f_equal fromBE) in E. rewrite !fromBE_toBE_n in E by apply sha3_in.
    apply Hcf in E; [|done|done]. apply encode_inj in E; [done|by apply plain_codable..].
Qed.
Lemma pair_not_branch leaf k x cs : length cs = 16%nat → pair_item leaf k x ≠ node_item (TBranch cs).
Proof.
  intros Hl E. apply (f_equal (λ y, match y with Items l => length l | Data _ => 0%nat end)) in E. cbn in E.
  rewrite length_app, length_fmap, Hl in E. done.
Qed.
Lemma node_inj t : ∀ u, plain t → plain u → Forall U (nodes t) → Forall U (nodes u) → node_item t = node_item u → t = u.
Proof using sha3_in Hcf.
  induction t as [|k v|k c IH|cs IH] using tree_ind'; intros [|k' v'|k' c'|cs'] [_ Pt] [_ Pu] Ut Uu E; try done.
  - injection E as E1 ->. by apply hp_inj in E1 as [_ ->].
  - injection E as E1 _. by apply hp_inj in E1 as [? _]; [|done|apply Pu].
  - by apply pair_not_branch in E; [|apply Pu].
  - injection E as E1 _. by apply hp_inj in E1 as [? _]; [|apply Pt|done].
  - destruct Pt as [Hk Pc], Pu as [Hk' Pc']. injection E as E1 E2. apply hp_inj in E1 as [_ ->]; [|done|done]. f_equal.
    cbn [nodes] in Ut, Uu. pose proof Ut as [_ Ut']%Forall_app. pose proof Uu as [_ Uu']%Forall_app.
    apply IH; try done. by apply child_inj.
  - by apply pair_not_branch in E; [|apply Pu].
  - symmetry in E. by apply pair_not_branch in E; [|apply Pt].
  - symmetry in E. by apply pair_not_branch in E; [|apply Pt].
  - destruct Pt as [Hl Pt], Pu as [Hl' Pu]. rewrite foldr_and in Pt, Pu. cbn [node_item] in E. injection E as E. apply app_inj_tail in E as [E _].
    rewrite nodes_Forall in Ut, Uu. f_equal. apply list_eq_same_length with 16%nat; [done..|]. intros i c c' Hi Hc Hc'.
    rewrite Forall_lookup in IH, Pt, Pu, Ut, Uu. pose proof (Ut _ _ Hc) as Uc. pose proof (Uu _ _ Hc') as Uc'.
    apply (f_equal (.!! i)) in E. rewrite !list_lookup_fmap, Hc, Hc' in E. injection E as E.
    pose proof Uc as [_ Uc1]%Forall_app. pose proof Uc' as [_ Uc1']%Forall_app.
    apply (IH _ _ Hc); eauto. apply child_inj; eauto.
Qed.
End Read.

(** ** Maps *)
Section Maps.
Context `{Crypto}.

Lemma build_plain fuel : ∀ s, entries_ok s → plain (build fuel s).
Proof.
  induction fuel as [|fuel IH]; intros s He; [by split; [apply empty_codable|]|].
  pose proof (build_codable (S fuel) s He) as Hc. destruct s as [|[k v] [|e rest]]; [done| |].
  - split; [done|]. by destruct He as [_ [[[? _] _] _]%Forall_cons].
  - rewrite build_two in *. case_decide.
    + split; [done|]. split; [done|]. apply foldr_and, Forall_fmap, Forall_forall. intros i _. by apply IH, group_ok.
    + split; [done|]. split; [|by apply IH, cut_ok]. destruct He as [_ [[[? _] _] _]%Forall_cons]. by apply Forall_take.
Qed.
(** The strings [hash256] hashes. *)
Definition root_nodes (m : gmap bytes bytes) : list bytes := enc (map_tree m) :: nodes (map_tree m).

Lemma map_tree_elem m k v : prefix_free m → entries_in_range m → Forall is_byte k → v ≠ [] →
  t_at (map_tree m) (asNibbles k) = v ↔ m !! k = Some v.
Proof.
  intros Hp Hm Hk Hv. unfold map_tree, entries_tree.
  rewrite (build_at _ _ (hexMap_ok m Hp Hm) (hash_fuel_ok _)) by (done || by apply asNibbles_ok). apply hexMap_elem.
Qed.
Lemma same_tree_same_map m1 m2 : prefix_free m1 → prefix_free m2 → entries_in_range m1 → entries_in_range m2 →
  map_tree m1 = map_tree m2 → m1 = m2.
Proof.
  intros P1 P2 R1 R2 E. apply map_eq. intros k. apply option_eq. intros v.
  split; intros Hk; [destruct (R1 _ _ Hk) as (?&_&?&_)|destruct (R2 _ _ Hk) as (?&_&?&_)].
  - apply (map_tree_elem m2 k v); try done. rewrite <-E. by apply map_tree_elem.
  - apply (map_tree_elem m1 k v); try done. rewrite E. by apply map_tree_elem.
Qed.
Lemma root_inj U m1 m2 : (∀ b, in256 (sha3 b)) → collision_free U → prefix_free m1 → prefix_free m2 →
  entries_in_range m1 → entries_in_range m2 → Forall U (root_nodes m1) → Forall U (root_nodes m2) →
  hash256 m1 = hash256 m2 → m1 = m2.
Proof.
  intros Hs Hf P1 P2 R1 R2 [U1 N1]%Forall_cons [U2 N2]%Forall_cons E. rewrite !hash256_ok in E by done. injection E as E.
  apply Hf in E; [|done|done]. assert (plain (map_tree m1) ∧ plain (map_tree m2)) as [T1 T2].
  { split; by apply build_plain, hexMap_ok. }
  apply encode_inj in E; [|by apply plain_codable..]. apply (same_tree_same_map m1 m2); try done. by apply (node_inj Hs U Hf).
Qed.
End Maps.

(** ** Lists, by their indices *)
Definition index_map (data : list bytes) (n : nat) : gmap bytes bytes :=
  foldl (λ m i, <[rlp_index i := nth i data []]> m) ∅ (seq 0 n).
Lemma rlp_index_ok i : Z.of_nat i < 2 ^ 32 → item_ok (rlp_unsigned (Z.of_nat i)) ∧ rlp_unsigned (Z.of_nat i) = rlp_int (Z.of_nat i).
Proof. intros Hi. unfold rlp_unsigned. rewrite Z.mod_small by lia. split; [|done]. apply item_ok_int. unfold in256, M256. lia. Qed.
Lemma rlp_index_prefix i j : Z.of_nat i < 2 ^ 32 → Z.of_nat j < 2 ^ 32 → rlp_index i `prefix_of` rlp_index j → i = j.
Proof.
  intros Hi Hj Hp. destruct (rlp_index_ok i Hi) as [Oi Ei], (rlp_index_ok j Hj) as [Oj Ej]. unfold rlp_index in Hp.
  apply encode_prefix in Hp; [|done|done]. apply encode_inj in Hp; [|done|done]. rewrite Ei, Ej in Hp. injection Hp as Hp.
  apply (f_equal fromBE) in Hp. rewrite !fromBE_toBE in Hp by lia. lia.
Qed.
Lemma index_map_S data n : index_map data (S n) = <[rlp_index n := nth n data []]> (index_map data n).
Proof. unfold index_map. by rewrite seq_S, foldl_app. Qed.
Lemma index_map_lookup data n k v : Z.of_nat n < 2 ^ 32 → (n <= length data)%nat →
  index_map data n !! k = Some v ↔ ∃ i, (i < n)%nat ∧ k = rlp_index i ∧ data !! i = Some v.
Proof.
  induction n as [|n IH]; intros Hn Hl.
  { unfold index_map. cbn. rewrite lookup_empty. split; [done|]. by intros (i&?&_); lia. }
  destruct (lookup_lt_is_Some_2 data n) as [x Hx]; [lia|].
  rewrite index_map_S, (nth_lookup_Some _ _ _ _ Hx), lookup_insert_Some, IH by lia. split.
  - intros [[<- <-]|[_ (i&?&?&?)]]; [by exists n; split; [lia|]|by exists i; split; [lia|]].
  - intros (i&Hi&->&E). destruct (decide (i = n)) as [->|Hne]; [left; split; [done|congruence]|right].
    split; [|by exists i; split; [lia|]]. intros Hp. apply Hne. symmetry. apply rlp_index_prefix; [lia|lia|by rewrite Hp].
Qed.
Lemma index_map_ok data : len data < 2 ^ 32 → Forall value_ok data →
  prefix_free (index_map data (length data)) ∧ entries_in_range (index_map data (length data)).
Proof.
  intros Hl Hv. split.
  - intros k l [v Hk] [w Hw] Hp. apply index_map_lookup in Hk as (i&Hi&->&_), Hw as (j&Hj&->&_); try lia.
    f_equal. apply rlp_index_prefix; [lia|lia|done].
  - intros k v Hk. apply index_map_lookup in Hk as (i&Hi&->&Hx); [|lia|lia]. destruct (rlp_index_ok i) as [Ho Ei]; [lia|].
    rewrite Forall_lookup in Hv. split_and!; [| |by eapply Hv].
    + by apply encode_bytes.
    + unfold rlp_index. rewrite Ei. unfold rlp_int. pose proof (encode_data_len (toBE (Z.of_nat i))) as Hd.
      pose proof (toBE_len (Z.of_nat i) 4 ltac:(cbn; lia)) as Hb. unfold SIZE_MAX in Hd. cbn [encode] in *. lia.
Qed.

Lemma list_root_inj `{Crypto} U data1 data2 :
  (∀ b, in256 (sha3 b)) → collision_free U →
  len data1 < 2 ^ 32 → len data2 < 2 ^ 32 → Forall value_ok data1 → Forall value_ok data2 →
  Forall U (root_nodes (index_map data1 (length data1))) → Forall U (root_nodes (index_map data2 (length data2))) →
  orderedTrieRoot data1 = orderedTrieRoot data2 → data1 = data2.
Proof.
  intros Hs Hf L1 L2 V1 V2 U1 U2 E. destruct (index_map_ok data1 L1 V1) as [P1 R1]. destruct (index_map_ok data2 L2 V2) as [P2 R2].
  assert (index_map data1 (length data1) = index_map data2 (length data2)) as Em by (by apply (root_inj U)).
  apply list_eq. intros i. apply option_eq. intros v.
  split; intros Hi; pose proof (lookup_lt_Some _ _ _ Hi).
  - destruct (proj1 (index_map_lookup data2 (length data2) (rlp_index i) v ltac:(lia) ltac:(lia))) as (j&?&Ej&?).
    + rewrite <-Em. apply index_map_lookup; [lia|lia|eauto].
    + apply eq_sym in Ej. replace i with j; [done|]. apply rlp_index_prefix; [lia|lia|by rewrite Ej].
  - destruct (proj1 (index_map_lookup data1 (length data1) (rlp_index i) v ltac:(lia) ltac:(lia))) as (j&?&Ej&?).
    + rewrite Em. apply index_map_lookup; [lia|lia|eauto].
    + apply eq_sym in Ej. replace i with j; [done|]. apply rlp_index_prefix; [lia|lia|by rewrite Ej].
Qed.

(** ** The properties *)

(** C20: Both ways to compute a root agree.  Run any history of insertions and removals
    on a trie in the database: the root it ends with is the one [hash256] computes from
    the entries that are left, without any database.  (Keys of one length and values that are
    not empty, as for [trie_refines_map].) *)
Theorem hash256_agrees `{Crypto} U L d r m ops :
  trie_env U L → db_ok U d → map_ok L m → represents d r m → Forall (op_ok L) ops →
  room (length ops * (2 * L + 9)) d → Forall U (ops_writes m ops) →
  ∃ h, (run_ops r ops d).1 = Ok h ∧ hash256 (apply_ops m ops) = Ok h.
Proof.
  intros He Hd Hm Hr Ho Hroom HU. destruct (run_ops_ok U L ops d r m) as (d'&E&_); try done. rewrite E. eexists. split; [done|].
  destruct (map_tree_fixed L (apply_ops m ops)) as (Hp&Hg&Et); [pose proof (te_len _ _ He); lia|by apply apply_ops_ok|].
  rewrite hash256_ok, Et by done. done.
Qed.

Lemma hash256_agrees_small : ∃ d h,
  (@run_ops fold_crypto (@EmptyTrie fold_crypto) some_ops d).1 = Ok h ∧ @hash256 fold_crypto (apply_ops ∅ some_ops) = Ok h.
Proof.
  destruct (some_open 52 eq_refl) as (d&R&O&Rm&_). exists d.
  apply (@hash256_agrees fold_crypto some_U 2 d _ ∅);
    first [done|apply some_env|apply empty_map_ok|apply some_ops_ok|apply some_ops_U|apply (room_le _ _ _ Rm); cbn; lia].
Defined.
