(* ===== verification/Account.v ===== *)
(** * Accounts (libbrcdchain/Account.h, Account.cpp)

    [PollData], the snapshot records an account carries, and the account
    itself with its mutators.  A mutator that runs into undefined behaviour
    (an end iterator is dereferenced) returns [None]. *)
From stdpp Require Import base gmap list.
From Stdlib Require Import ZArith Lia.
From S2P Require Import Prelude Config Objects Interfaces.
Open Scope Z_scope.

(** ** [PollData] *)
Record PollData := mkPoll { m_addr : Address; m_poll : u256; m_time : int64 }.
#[export] Instance PollData_reshape : Reshape PollData := λ p, mkPoll (m_addr p) (m_poll p) (m_time p).
#[export] Instance m_addr_field : Field m_addr := ltac:(field_setter).
#[export] Instance m_poll_field : Field m_poll := ltac:(field_setter).
#[export] Instance m_time_field : Field m_time := ltac:(field_setter).
#[export] Instance PollData_eq_dec : EqDecision PollData.
Proof. solve_decision. Defined.

Definition PollData_default : PollData := mkPoll 0 0 0.

(** [a > p] as [PollData::operator>] computes it. *)
Definition poll_gt (a p : PollData) : bool :=
  (m_poll a <? m_poll p)
  || ((m_poll a =? m_poll p) && (m_time p =? 0) && (m_time p <? m_time a)).

(** The body of the inner loop of [PollData::sort_greater]: the three
    assignments [data = p[j]; p[j] = p[i]; p[j] = data]. *)
Definition sort_body (i j : nat) (l : list PollData) : list PollData :=
  match l !! i, l !! j with
  | Some x, Some y =>
      if poll_gt y x then
        let data := y in
        let l1 := <[j := x]> l in
        <[j := data]> l1
      else l
  | _, _ => l
  end.

Definition sort_greater (l : list PollData) : list PollData :=
  let index := length l in
  foldl (λ acc i, foldl (λ acc j, sort_body i j acc) acc (seq (S i) (index - S i)))
        l (seq 0 (index - 1)).

(** [std::find(v.begin(), v.end(), addr)] *)
Definition find_addr (a : Address) (l : list PollData) : option (nat * PollData) :=
  list_find (λ p, m_addr p = a) l.
Definition erase_at {A} (i : nat) (l : list A) : list A := take i l ++ drop (S i) l.

(** ** [ReceivedCookies] *)
Record ReceivedCookies := mkReceived {
  rc_received : gmap u256 (gmap Address (u256 * u256));
  rc_numberofRound : u256;
  rc_is_received : u256 * bool
}.
Definition ReceivedCookies_default : ReceivedCookies := mkReceived ∅ 0 (1, false).
#[export] Instance ReceivedCookies_reshape : Reshape ReceivedCookies := λ r,
  mkReceived (rc_received r) (rc_numberofRound r) (rc_is_received r).
#[export] Instance rc_received_field : Field rc_received := ltac:(field_setter).
#[export] Instance rc_numberofRound_field : Field rc_numberofRound := ltac:(field_setter).

Definition up_received_cookies (rounds : u256) (a : Address) (p : u256 * u256)
    (r : ReceivedCookies) : ReceivedCookies :=
  match rc_received r !! rounds with
  | None => r <| rc_received ::= <[rounds := {[ a := p ]}]> |>
  | Some m => r <| rc_received ::= <[rounds := <[a := p]> m]> |>
  end.
Definition updataNumberofRound (n : u256) (r : ReceivedCookies) : ReceivedCookies :=
  r <| rc_numberofRound := n |>.
Definition received_clear (r : ReceivedCookies) : ReceivedCookies := r <| rc_received := ∅ |>.
Definition received_empty (r : ReceivedCookies) : bool := bool_decide (rc_received r = ∅).

(** ** [VoteSnapshot] *)
Record VoteSnapshot := mkSnapshot {
  m_voteDataHistory : gmap u256 (gmap Address u256);
  m_pollNumHistory : gmap u256 u256;
  m_blockSummaryHistory : gmap u256 u256;
  numberofrounds : u256;
  m_latest_round : u256
}.
Definition VoteSnapshot_default : VoteSnapshot := mkSnapshot ∅ ∅ ∅ 0 0.
#[export] Instance VoteSnapshot_reshape : Reshape VoteSnapshot := λ v,
  mkSnapshot (m_voteDataHistory v) (m_pollNumHistory v) (m_blockSummaryHistory v)
             (numberofrounds v) (m_latest_round v).
#[export] Instance m_voteDataHistory_field : Field m_voteDataHistory := ltac:(field_setter).
#[export] Instance m_pollNumHistory_field : Field m_pollNumHistory := ltac:(field_setter).
#[export] Instance m_blockSummaryHistory_field : Field m_blockSummaryHistory := ltac:(field_setter).
#[export] Instance numberofrounds_field : Field numberofrounds := ltac:(field_setter).
#[export] Instance m_latest_round_field : Field m_latest_round := ltac:(field_setter).

Definition snapshot_clear : VoteSnapshot := VoteSnapshot_default.
Definition snapshot_isEmpty (v : VoteSnapshot) : bool :=
  bool_decide (m_voteDataHistory v = ∅) && bool_decide (m_pollNumHistory v = ∅)
  && bool_decide (m_blockSummaryHistory v = ∅).

(** ** [CouplingSystemfee] *)
Record CouplingSystemfee := mkFee {
  m_Feesnapshot : gmap u256 (u256 * u256);
  m_sorted_creaters : gmap u256 (list PollData);
  m_rounds : u256;
  m_numofrounds : u256;
  cf_received_cookies : gmap u256 (gmap Address (u256 * u256));
  m_total_summary : u256 * u256
}.
Definition CouplingSystemfee_default : CouplingSystemfee := mkFee ∅ ∅ 0 0 ∅ (0, 0).
#[export] Instance CouplingSystemfee_reshape : Reshape CouplingSystemfee := λ c,
  mkFee (m_Feesnapshot c) (m_sorted_creaters c) (m_rounds c) (m_numofrounds c)
        (cf_received_cookies c) (m_total_summary c).
#[export] Instance m_Feesnapshot_field : Field m_Feesnapshot := ltac:(field_setter).
#[export] Instance m_sorted_creaters_field : Field m_sorted_creaters := ltac:(field_setter).
#[export] Instance m_rounds_field : Field m_rounds := ltac:(field_setter).
#[export] Instance m_numofrounds_field : Field m_numofrounds := ltac:(field_setter).
#[export] Instance cf_received_cookies_field : Field cf_received_cookies := ltac:(field_setter).
#[export] Instance m_total_summary_field : Field m_total_summary := ltac:(field_setter).

(** [get_total_poll(round, miner_num = 7)]: the first [miner_num] polls. *)
Definition get_total_poll (c : CouplingSystemfee) (round : u256) (miner_num : nat) : u256 :=
  match m_sorted_creaters c !! round with
  | None => 0
  | Some v => foldl (λ total p, total [+] m_poll p) 0 (take miner_num v)
  end.

Definition up_received_cookies_brcs (rounds : u256) (a : Address)
    (received summary : u256 * u256) (c : CouplingSystemfee) : CouplingSystemfee :=
  match cf_received_cookies c !! rounds with
  | None => c <| cf_received_cookies ::= <[rounds := {[ a := received ]}]> |>
  | Some m => c <| cf_received_cookies ::= <[rounds := <[a := received]> m]> |>
                <| m_total_summary := summary |>
  end.

(** [clear()] resets three of the six members. *)
Definition fee_clear (c : CouplingSystemfee) : CouplingSystemfee :=
  c <| m_Feesnapshot := ∅ |> <| m_numofrounds := 0 |> <| m_rounds := 0 |>.
Definition fee_isEmpty (c : CouplingSystemfee) : bool :=
  bool_decide (m_Feesnapshot c = ∅) && bool_decide (m_sorted_creaters c = ∅).

(** ** [BlockRecord] is the map [m_last_time]. *)
Definition set_last_block (v : Address * int64) (r : gmap Address int64) : gmap Address int64 :=
  <[v.1 := v.2]> r.

(** ** [Account]

    [a_poll] is the member [m_poll] of [Account] ([PollData] has one too). *)
Record Account := mkAccount {
  m_isAlive : bool;
  m_isUnchanged : bool;
  m_hasNewCode : bool;
  m_nonce : u256;
  m_balance : u256;
  m_storageRoot : h256;
  m_codeHash : h256;
  m_ballot : u256;
  a_poll : u256;
  m_BRC : u256;
  m_FBRC : u256;
  m_FBalance : u256;
  m_CooikeIncomeNum : u256;
  m_willChangeList : list bytes;
  m_vote_data : list PollData;
  m_vote_sapshot : VoteSnapshot;
  m_couplingSystemFee : CouplingSystemfee;
  m_received_cookies : ReceivedCookies;
  m_BlockReward : list (u256 * u256);
  m_successExchange : list result_order;
  m_exChangeOrder : list ex_order;
  m_storageOverlay : gmap u256 u256;
  m_storageOriginal : gmap u256 u256;
  m_codeCache : bytes;
  m_block_records : gmap Address int64;
  m_mappingAddress : Address * Address;
  m_minerGasPrice : gmap Address u256
}.
#[export] Instance Account_reshape : Reshape Account := λ a,
  mkAccount (m_isAlive a) (m_isUnchanged a) (m_hasNewCode a) (m_nonce a) (m_balance a)
    (m_storageRoot a) (m_codeHash a) (m_ballot a) (a_poll a) (m_BRC a)
    (m_FBRC a) (m_FBalance a) (m_CooikeIncomeNum a) (m_willChangeList a) (m_vote_data a)
    (m_vote_sapshot a) (m_couplingSystemFee a) (m_received_cookies a) (m_BlockReward a) (m_successExchange a)
    (m_exChangeOrder a) (m_storageOverlay a) (m_storageOriginal a) (m_codeCache a) (m_block_records a)
    (m_mappingAddress a) (m_minerGasPrice a).
#[export] Instance m_isAlive_field : Field m_isAlive := ltac:(field_setter).
#[export] Instance m_isUnchanged_field : Field m_isUnchanged := ltac:(field_setter).
#[export] Instance m_hasNewCode_field : Field m_hasNewCode := ltac:(field_setter).
#[export] Instance m_nonce_field : Field m_nonce := ltac:(field_setter).
#[export] Instance m_balance_field : Field m_balance := ltac:(field_setter).
#[export] Instance m_storageRoot_field : Field m_storageRoot := ltac:(field_setter).
#[export] Instance m_codeHash_field : Field m_codeHash := ltac:(field_setter).
#[export] Instance m_ballot_field : Field m_ballot := ltac:(field_setter).
#[export] Instance a_poll_field : Field a_poll := ltac:(field_setter).
#[export] Instance m_BRC_field : Field m_BRC := ltac:(field_setter).
#[export] Instance m_FBRC_field : Field m_FBRC := ltac:(field_setter).
#[export] Instance m_FBalance_field : Field m_FBalance := ltac:(field_setter).
#[export] Instance m_CooikeIncomeNum_field : Field m_CooikeIncomeNum := ltac:(field_setter).
#[export] Instance m_willChangeList_field : Field m_willChangeList := ltac:(field_setter).
#[export] Instance m_vote_data_field : Field m_vote_data := ltac:(field_setter).
#[export] Instance m_vote_sapshot_field : Field m_vote_sapshot := ltac:(field_setter).
#[export] Instance m_couplingSystemFee_field : Field m_couplingSystemFee := ltac:(field_setter).
#[export] Instance m_received_cookies_field : Field m_received_cookies := ltac:(field_setter).
#[export] Instance m_BlockReward_field : Field m_BlockReward := ltac:(field_setter).
#[export] Instance m_successExchange_field : Field m_successExchange := ltac:(field_setter).
#[export] Instance m_exChangeOrder_field : Field m_exChangeOrder := ltac:(field_setter).
#[export] Instance m_storageOverlay_field : Field m_storageOverlay := ltac:(field_setter).
#[export] Instance m_storageOriginal_field : Field m_storageOriginal := ltac:(field_setter).
#[export] Instance m_codeCache_field : Field m_codeCache := ltac:(field_setter).
#[export] Instance m_block_records_field : Field m_block_records := ltac:(field_setter).
#[export] Instance m_mappingAddress_field : Field m_mappingAddress := ltac:(field_setter).
#[export] Instance m_minerGasPrice_field : Field m_minerGasPrice := ltac:(field_setter).

(** Computes the fields of an updated account; [acct_fields in H] in a hypothesis. *)
Ltac acct_fields := cbv beta iota delta [upd
    m_isAlive_field m_isUnchanged_field m_hasNewCode_field m_nonce_field m_balance_field
    m_storageRoot_field m_codeHash_field m_ballot_field a_poll_field m_BRC_field m_FBRC_field
    m_FBalance_field m_CooikeIncomeNum_field m_willChangeList_field m_vote_data_field
    m_vote_sapshot_field m_couplingSystemFee_field m_received_cookies_field m_BlockReward_field
    m_successExchange_field m_exChangeOrder_field m_storageOverlay_field m_storageOriginal_field
    m_codeCache_field m_block_records_field m_mappingAddress_field m_minerGasPrice_field
    m_isAlive m_isUnchanged m_hasNewCode m_nonce m_balance m_storageRoot m_codeHash m_ballot
    a_poll m_BRC m_FBRC m_FBalance m_CooikeIncomeNum m_willChangeList m_vote_data m_vote_sapshot
    m_couplingSystemFee m_received_cookies m_BlockReward m_successExchange m_exChangeOrder
    m_storageOverlay m_storageOriginal m_codeCache m_block_records m_mappingAddress
    m_minerGasPrice].
Tactic Notation "acct_fields" "in" hyp(H) := cbv beta iota delta [upd
    m_isAlive_field m_isUnchanged_field m_hasNewCode_field m_nonce_field m_balance_field
    m_storageRoot_field m_codeHash_field m_ballot_field a_poll_field m_BRC_field m_FBRC_field
    m_FBalance_field m_CooikeIncomeNum_field m_willChangeList_field m_vote_data_field
    m_vote_sapshot_field m_couplingSystemFee_field m_received_cookies_field m_BlockReward_field
    m_successExchange_field m_exChangeOrder_field m_storageOverlay_field m_storageOriginal_field
    m_codeCache_field m_block_records_field m_mappingAddress_field m_minerGasPrice_field
    m_isAlive m_isUnchanged m_hasNewCode m_nonce m_balance m_storageRoot m_codeHash m_ballot
    a_poll m_BRC m_FBRC m_FBalance m_CooikeIncomeNum m_willChangeList m_vote_data m_vote_sapshot
    m_couplingSystemFee m_received_cookies m_BlockReward m_successExchange m_exChangeOrder
    m_storageOverlay m_storageOriginal m_codeCache m_block_records m_mappingAddress
    m_minerGasPrice] in H.

Section Account.
Context `{Crypto}.

(** [EmptySHA3] (libdevcore/SHA3.cpp). *)
Definition EmptySHA3 : h256 := sha3 [].

(** The default constructor: a dead account, already "changed". *)
Definition Account_dead : Account :=
  mkAccount false false false 0 0 EmptyTrie EmptySHA3 0 0 0 0 0 0 [] []
    VoteSnapshot_default CouplingSystemfee_default ReceivedCookies_default [] [] []
    ∅ ∅ [] ∅ (0, 0) ∅.

(** [Account(nonce, balance)], [Account(ballot)], [Account(nonce, balance, BRC, fbalance)]. *)
Definition Account_nb (_nonce _balance : u256) : Account :=
  Account_dead <| m_isAlive := true |> <| m_nonce := _nonce |> <| m_balance := _balance |>.
Definition Account_ballot (_ballot : u256) : Account :=
  Account_dead <| m_isAlive := true |> <| m_nonce := 0 |> <| m_ballot := _ballot |>.
Definition Account_nbb (_nonce _balance _BRC _fbalance : u256) : Account :=
  Account_dead <| m_isAlive := true |> <| m_nonce := _nonce |> <| m_balance := _balance |>
               <| m_BRC := _BRC |> <| m_FBalance := _fbalance |>.
(** The constructor used when an account is read from the trie. *)
Definition Account_full (_nonce _balance : u256) (_contractRoot _codeHash : h256)
    (_ballot _poll _BRC _FBRC _FBalance : u256) (unchanged : bool) : Account :=
  Account_dead <| m_isAlive := true |> <| m_isUnchanged := unchanged |>
    <| m_nonce := _nonce |> <| m_balance := _balance |> <| m_storageRoot := _contractRoot |>
    <| m_codeHash := _codeHash |> <| m_ballot := _ballot |> <| a_poll := _poll |>
    <| m_BRC := _BRC |> <| m_FBRC := _FBRC |> <| m_FBalance := _FBalance |>.

Definition changed (a : Account) : Account := a <| m_isUnchanged := false |>.
Definition untouch (a : Account) : Account := a <| m_isUnchanged := true |>.
Definition isAlive (a : Account) : bool := m_isAlive a.
Definition isDirty (a : Account) : bool := negb (m_isUnchanged a).

Definition isEmpty (a : Account) : bool :=
  (m_nonce a =? 0) && (m_balance a =? 0) && (m_codeHash a =? EmptySHA3) && (m_BRC a =? 0)
  && (a_poll a =? 0) && (m_FBalance a =? 0) && (m_FBRC a =? 0) && (m_CooikeIncomeNum a =? 0)
  && bool_decide (m_vote_data a = []) && bool_decide (m_BlockReward a = [])
  && (m_ballot a =? 0) && bool_decide (m_block_records a = ∅)
  && fee_isEmpty (m_couplingSystemFee a) && snapshot_isEmpty (m_vote_sapshot a)
  && received_empty (m_received_cookies a) && bool_decide (m_exChangeOrder a = [])
  && bool_decide (m_successExchange a = []) && bool_decide (m_minerGasPrice a = ∅).

Definition kill (a : Account) : Account :=
  changed (a <| m_isAlive := false |> <| m_storageOverlay := ∅ |> <| m_storageOriginal := ∅ |>
    <| m_codeHash := EmptySHA3 |> <| m_storageRoot := EmptyTrie |> <| m_balance := 0 |>
    <| m_BRC := 0 |> <| m_FBRC := 0 |> <| m_FBalance := 0 |> <| m_nonce := 0 |>
    <| a_poll := 0 |> <| m_ballot := 0 |> <| m_willChangeList := [] |> <| m_BlockReward := [] |>
    <| m_couplingSystemFee ::= fee_clear |> <| m_vote_sapshot := snapshot_clear |>
    <| m_received_cookies ::= received_clear |> <| m_exChangeOrder := [] |>
    <| m_successExchange := [] |>).

(** [copyByAccount]: every member but the mapping address and the gas prices. *)
Definition copyByAccount (ac a : Account) : Account :=
  ac <| m_mappingAddress := m_mappingAddress a |> <| m_minerGasPrice := m_minerGasPrice a |>.

(** *** Amounts *)
Definition acc_addBalance (v : u256) (a : Account) : Account := changed (a <| m_balance ::= λ b, b [+] v |>).
Definition acc_addBRC (v : u256) (a : Account) : Account := changed (a <| m_BRC ::= λ b, b [+] v |>).
Definition acc_addFBRC (v : u256) (a : Account) : Account := changed (a <| m_FBRC ::= λ b, b [+] v |>).
Definition acc_addFBalance (v : u256) (a : Account) : Account := changed (a <| m_FBalance ::= λ b, b [+] v |>).
Definition acc_addBallot (v : u256) (a : Account) : Account := changed (a <| m_ballot ::= λ b, b [+] v |>).
Definition acc_addPoll (v : u256) (a : Account) : Account := changed (a <| a_poll ::= λ b, b [+] v |>).
Definition acc_addCooikeIncome (v : u256) (a : Account) : Account :=
  changed (a <| m_CooikeIncomeNum ::= λ b, b [+] v |>).
Definition acc_setCookieIncome (v : u256) (a : Account) : Account := changed (a <| m_CooikeIncomeNum := v |>).
Definition acc_incNonce (a : Account) : Account := changed (a <| m_nonce ::= λ n, n [+] 1 |>).
Definition acc_setNonce (n : u256) (a : Account) : Account := changed (a <| m_nonce := n |>).

(** *** Storage and code *)
Definition acc_setStorage (p v : u256) (a : Account) : Account :=
  changed (a <| m_storageOverlay ::= <[p := v]> |>).
Definition acc_clearStorage (a : Account) : Account :=
  changed (a <| m_storageOverlay := ∅ |> <| m_storageOriginal := ∅ |> <| m_storageRoot := EmptyTrie |>).
Definition acc_setStorageRoot (r : h256) (a : Account) : Account :=
  changed (a <| m_storageOverlay := ∅ |> <| m_storageOriginal := ∅ |> <| m_storageRoot := r |>).
(** [setCode] does not call [changed()]. *)
Definition acc_setCode (c : bytes) (a : Account) : Account :=
  a <| m_codeCache := c |> <| m_hasNewCode := true |> <| m_codeHash := sha3 c |>.
Definition acc_noteCode (c : bytes) (a : Account) : Account := a <| m_codeCache := c |>.

(** [originalStorageValue] reads through, and fills, the cache of originals. *)
Definition acc_originalStorageValue `{!StorageTrie} (k : u256) (a : Account) : u256 * Account :=
  match m_storageOriginal a !! k with
  | Some v => (v, a)
  | None =>
      let v := storage_at (m_storageRoot a) k in
      (v, a <| m_storageOriginal ::= <[k := v]> |>)
  end.
Definition acc_storageValue `{!StorageTrie} (k : u256) (a : Account) : u256 * Account :=
  match m_storageOverlay a !! k with
  | Some v => (v, a)
  | None => acc_originalStorageValue k a
  end.

(** *** Votes *)
Definition voteAll (a : Account) : u256 := foldl (λ n p, n [+] m_poll p) 0 (m_vote_data a).
Definition set_vote_data (v : list PollData) (a : Account) : Account := changed (a <| m_vote_data := v |>).
Definition clear_vote_data (a : Account) : Account := a <| m_vote_data := [] |>.

Definition acc_addVote (vp : Address * u256) (a : Account) : option Account :=
  match find_addr vp.1 (m_vote_data a) with
  | None =>
      if bool_decide (vp.2 ≠ 0)
      then Some (changed (a <| m_vote_data ::= λ l, l ++ [mkPoll vp.1 vp.2 0] |>))
      else None
  | Some (i, p) =>
      Some (changed (a <| m_vote_data ::=
        if 0 <? m_poll p [+] vp.2
        then <[i := p <| m_poll ::= λ x, x [+] vp.2 |>]>
        else erase_at i |>))
  end.

Definition acc_manageSysVote (other : Address) (_isLogin : bool) (tickets : u256) (t : int64)
    (a : Account) : Account :=
  match find_addr other (m_vote_data a) with
  | None => changed (if _isLogin then a <| m_vote_data ::= λ l, l ++ [mkPoll other tickets t] |> else a)
  | Some (i, _) => changed (if _isLogin then a else a <| m_vote_data ::= erase_at i |>)
  end.

(** The iterator found before [emplace_back] is written through after it: when
    the address is not listed this is an invalidated end iterator. *)
Definition acc_set_system_poll (p : PollData) (a : Account) : option Account :=
  match find_addr (m_addr p) (m_vote_data a) with
  | None => None
  | Some (i, q) =>
      Some (changed (a <| m_vote_data ::= <[i := mkPoll (m_addr q) (m_poll p) (m_time p)]> |>))
  end.

Definition acc_poll_data (x : Address) (a : Account) : PollData :=
  match find_addr x (m_vote_data a) with Some (_, p) => p | None => PollData_default end.

Definition acc_changeVoteData (before after : Address) (a : Account) : bool * Account :=
  match find_addr before (m_vote_data a) with
  | Some (i, p) => (true, changed (a <| m_vote_data ::= <[i := p <| m_addr := after |>]> |>))
  | None => (false, a)
  end.

Definition acc_sort_vote_data (a : Account) : Account := a <| m_vote_data ::= sort_greater |>.

Definition acc_addBlockRewardRecoding (p : u256 * u256) (a : Account) : Account :=
  changed (a <| m_BlockReward ::= λ l,
    match last l with
    | None => [p]
    | Some r => if r.1 =? p.1 then removelast l ++ [(r.1, r.2 [+] p.2)] else l ++ [p]
    end |>).
Definition setBlockReward (l : list (u256 * u256)) (a : Account) : Account := changed (a <| m_BlockReward := l |>).
Definition initChangeList (l : list bytes) (a : Account) : Account := changed (a <| m_willChangeList := l |>).

(** *** Snapshots *)
Definition vote_map (l : list PollData) : gmap Address u256 :=
  foldl (λ m p, <[m_addr p := m_poll p]> m) ∅ l.

(** One iteration [j] of [try_new_snapshot]; the second component is
    [summary_cooike]. *)
Definition snapshot_step (a : Account) (acc : VoteSnapshot * u256) (j : u256) : VoteSnapshot * u256 :=
  let '(s, cookie) := acc in
  let s1 := if map_count (m_blockSummaryHistory s) j then s
            else s <| m_voteDataHistory ::= <[j := vote_map (m_vote_data a)]> |> in
  let s2 := if map_count (m_pollNumHistory s1) j then s1
            else s1 <| m_pollNumHistory ::= <[j := a_poll a]> |> in
  if map_count (m_blockSummaryHistory s2) j then (s2, cookie)
  else (s2 <| m_blockSummaryHistory ::= <[j := cookie]> |>, 0).

Definition acc_try_new_snapshot (_rounds : u256) (a : Account) : Account :=
  let s := m_vote_sapshot a in
  let js := seqZ (m_latest_round s + 1) (_rounds - m_latest_round s) in
  let '(s', _) := foldl (snapshot_step a) (s, m_CooikeIncomeNum a) js in
  changed (a <| m_vote_sapshot := s' <| m_latest_round := _rounds |> |>).

(** [try_new_temp_snapshot]: the account keeps its snapshot (and is marked changed). *)
Definition acc_try_new_temp_snapshot (_rounds : u256) (a : Account) : VoteSnapshot * Account :=
  let a' := acc_try_new_snapshot _rounds a in
  (m_vote_sapshot a', a' <| m_vote_sapshot := m_vote_sapshot a |>).

Definition acc_get_no_record_snapshot (_rounds : u256) (_state : Votingstage) (a : Account) : bool * u256 :=
  if _rounds =? 0 then (false, 0)
  else
    let last_round := _rounds [-] 1 in
    if (last_round <=? 0) || (last_round <=? m_latest_round (m_vote_sapshot a)) then (false, 0)
    else (true, last_round).

Definition acc_set_numberofrounds (v : u256) (a : Account) : Account :=
  changed (a <| m_vote_sapshot ::= λ s, s <| numberofrounds := v |> |>).
Definition acc_set_vote_snapshot (s : VoteSnapshot) (a : Account) : Account :=
  changed (a <| m_vote_sapshot := s |>).

Definition acc_set_create_record (v : Address * int64) (a : Account) : Account :=
  changed (a <| m_block_records ::= set_last_block v |>).
Definition acc_last_records (x : Address) (a : Account) : int64 := default 0 (m_block_records a !! x).

(** The loop of [tryRecordSnapshot] that selects the creators to remember:
    the state is the list built so far and the [uint32_t index]. *)
Definition record_step (early : bool) (acc : list PollData * uint32) (v : PollData) : list PollData * uint32 :=
  let '(data, index) := acc in
  if bool_decide (is_Some (find_addr (m_addr v) data)) then (data, index)
  else if early then
    let index' := (index - 1) mod 2 ^ 32 in
    if bool_decide (index' ≠ 0) then (data ++ [v], index') else (data, index')
  else (data ++ [v], index).
Definition record_select (early : bool) (p_datas : list PollData) : list PollData :=
  (foldl (record_step early) ([], minner_rank_num + 1) p_datas).1.

Definition acc_tryRecordSnapshot `{Config} (_rounds brc bal : u256) (p_datas : list PollData)
    (_block_num : int64) (a : Account) : Account :=
  let c := m_couplingSystemFee a in
  if _rounds <=? m_rounds c then a
  else
    let r := _rounds [-] 1 in
    let early := (getVotingCycle _block_num).1 <=? 2 in
    changed (a <| m_couplingSystemFee :=
      c <| m_Feesnapshot ::= <[r := (brc, bal)]> |> <| m_rounds := r |>
        <| m_sorted_creaters ::= <[r := record_select early p_datas]> |> |>).

Definition setCouplingSystemFeeSnapshot (c : CouplingSystemfee) (a : Account) : Account :=
  changed (a <| m_couplingSystemFee := c |>).
Definition add_new_rounds_miner_sapshot (r : u256) (l : list PollData) (a : Account) : Account :=
  changed (a <| m_couplingSystemFee ::= λ c, c <| m_sorted_creaters ::= <[r := l]> |> |>).

(** [set_received] clears the target and then copies every member. *)
Definition acc_set_received (r : ReceivedCookies) (a : Account) : Account := changed (a <| m_received_cookies := r |>).
Definition acc_addSetreceivedCookie (round : u256) (x : Address) (p : u256 * u256) (a : Account) : Account :=
  changed (a <| m_received_cookies ::= up_received_cookies round x p |>).
Definition acc_updateNumofround (n : u256) (a : Account) : Account :=
  changed (a <| m_received_cookies ::= updataNumberofRound n |>).

(** *** Orders *)
Definition setExOrderMulti (l : list ex_order) (a : Account) : Account := changed (a <| m_exChangeOrder := l |>).
Definition addExOrderMulti (o : ex_order) (a : Account) : Account :=
  changed (a <| m_exChangeOrder ::= λ l,
    match multi_find (trxid o) l with
    | None => multi_insert o l
    | Some x => multi_insert o (multi_erase (trxid x) l)
    end |>).
Definition removeExOrderMulti (t : h256) (a : Account) : bool * Account :=
  match multi_find t (m_exChangeOrder a) with
  | None => (false, a)
  | Some x => (true, changed (a <| m_exChangeOrder ::= multi_erase (trxid x) |>))
  end.
Definition setSuccessOrder (l : list result_order) (a : Account) : Account := changed (a <| m_successExchange := l |>).
Definition addSuccessExchangeOrder (r : result_order) (a : Account) : Account :=
  changed (a <| m_successExchange ::= result_insert r |>).

(** *** Miner mapping and gas prices *)
Definition setChangeMiner (p : Address * Address) (a : Account) : Account := changed (a <| m_mappingAddress := p |>).
Definition setMinerGasPrice (x : Address) (v : u256) (a : Account) : Account :=
  changed (a <| m_minerGasPrice ::= <[x := v]> |>).
Definition setMinerGasPrices (m : gmap Address u256) (a : Account) : Account := changed (a <| m_minerGasPrice := m |>).
Definition getAverageGasPrice (a : Account) : u256 :=
  if bool_decide (m_minerGasPrice a = ∅) then 0
  else foldl (λ t p, t [+] p.2) 0 (map_iter (m_minerGasPrice a)) / Z.of_nat (size (m_minerGasPrice a)).

(** *** Replacing a miner's address *)
Definition rename_poll (old new : Address) (l : list PollData) : list PollData :=
  match find_addr old l with Some (i, p) => <[i := p <| m_addr := new |>]> l | None => l end.
Definition rename_key {V} (old new : Address) (m : gmap Address V) : gmap Address V :=
  match m !! old with Some v => <[new := v]> (delete old m) | None => m end.
Definition has_key {K V} `{Countable K} (k : Address) (m : gmap K (gmap Address V)) : bool :=
  negb (bool_decide (filter (λ p, is_Some (p.2 !! k)) m = ∅)).
Definition has_addr {K} `{Countable K} (k : Address) (m : gmap K (list PollData)) : bool :=
  negb (bool_decide (filter (λ p, is_Some (find_addr k p.2)) m = ∅)).

(** A vote history that lists [old] is rewritten through the iterator that
    [erase] has just invalidated: undefined behaviour.  The time of the block
    record is reset to 0. *)
Definition changeMinerUpdateData (old new : Address) (a : Account) : option Account :=
  if has_key old (m_voteDataHistory (m_vote_sapshot a)) then None
  else
    let fee := m_couplingSystemFee a in
    let touched := bool_decide (is_Some (find_addr old (m_vote_data a)))
      || has_key old (cf_received_cookies fee) || has_key old (rc_received (m_received_cookies a))
      || map_count (m_block_records a) old in
    let a' := a
      <| m_vote_data ::= rename_poll old new |>
      <| m_couplingSystemFee := fee
           <| m_sorted_creaters ::= fmap (rename_poll old new) |>
           <| cf_received_cookies ::= fmap (rename_key old new) |> |>
      <| m_received_cookies ::= λ r, r <| rc_received ::= fmap (rename_key old new) |> |>
      <| m_block_records ::= λ r, if map_count r old then <[new := 0]> (delete old r) else r |> in
    Some (if touched then changed a' else a').

Definition isChangeMinerUpdateData (old : Address) (a : Account) : bool :=
  bool_decide (is_Some (find_addr old (m_vote_data a)))
  || has_key old (m_voteDataHistory (m_vote_sapshot a))
  || has_addr old (m_sorted_creaters (m_couplingSystemFee a))
  || has_key old (cf_received_cookies (m_couplingSystemFee a))
  || has_key old (rc_received (m_received_cookies a))
  || map_count (m_block_records a) old.
End Account.

(** The account operations that rewrite fields, to be unfolded in proofs about fields. *)
Create HintDb acc_ops.
#[export] Hint Unfold Account_dead Account_nb Account_nbb Account_ballot changed untouch kill copyByAccount acc_addBalance acc_addBRC acc_addFBRC acc_addFBalance
  acc_addBallot acc_addPoll acc_addCooikeIncome acc_setCookieIncome acc_incNonce acc_setNonce acc_setStorage
  acc_clearStorage acc_setStorageRoot acc_setCode acc_noteCode set_vote_data clear_vote_data
  acc_addBlockRewardRecoding acc_set_vote_snapshot setCouplingSystemFeeSnapshot acc_set_received setExOrderMulti
  setSuccessOrder addExOrderMulti addSuccessExchangeOrder setChangeMiner setMinerGasPrice setMinerGasPrices : acc_ops.
