(* ===== verification/ChainState.v ===== *)
(** * The chain state (libbrcdchain/State.h, State.cpp): cache, change log, rollback

    [State] keeps the account trie ([m_state], address to encoded account), a
    cache of decoded accounts over it, and the log of the changes made since
    the last commit.  This file models reading an account through the cache,
    creating one, the log entries ([Change]), undoing an entry, [rollback] and
    [commit], and the primitive amount operations built on them. *)
From stdpp Require Import base gmap list.
From Stdlib Require Import ZArith Lia.
From S2P Require Import Prelude Config Objects Interfaces Account.
Open Scope Z_scope.

(** ** [Change]: one constructor per [Change::Kind] that is ever logged, with the
    members its [Change] constructor fills. *)
Inductive Change :=
  | ChBalance (a : Address) (value : u256)
  | ChStorage (a : Address) (key value : u256)
  | ChStorageRoot (a : Address) (value : h256)
  | ChNonce (a : Address) (value : u256)
  | ChCreate (a : Address)
  | ChCode (a : Address) (oldCode : bytes)
  | ChTouch (a : Address)
  | ChBallot (a : Address) (value : u256)
  | ChPoll (a : Address) (value : u256)
  | ChVote (a : Address) (vote : Address * u256)
  | ChSysVoteData (a : Address) (sysVotedate : Address * bool)
  | ChBRC (a : Address) (value : u256)
  | ChFBRC (a : Address) (value : u256)
  | ChFBalance (a : Address) (value : u256)
  | ChBlockReward (a : Address) (blockReward : u256 * u256)
  | ChNewVoteSnapshot (a : Address) (vote_snapshot : VoteSnapshot)
  | ChCooikeIncomeNum (a : Address) (value : u256)
  | ChCoupingSystemFeeSnapshot (a : Address) (feeSnapshot : CouplingSystemfee)
  | ChSystemAddressPoll (a : Address) (poll_data : PollData)
  | ChLastCreateRecord (a : Address) (create_record : Address * int64)
  | ChMinnerSnapshot (a : Address) (minners : list PollData)
  | ChReceiveCookies (a : Address) (received : ReceivedCookies)
  | ChUpExOrder (a : Address) (ex_multi : list ex_order)
  | ChSuccessOrder (a : Address) (ret_orders : list result_order)
  | ChChangeMiner (a : Address) (old_account : Account)
  | ChNewChangeMiner (a : Address) (mapping : Address * Address)
  | ChMinerGasPrice (a : Address) (minerGasPrice : gmap Address u256).

Definition ch_address (c : Change) : Address :=
  match c with
  | ChBalance a _ | ChStorage a _ _ | ChStorageRoot a _ | ChNonce a _ | ChCreate a | ChCode a _
  | ChTouch a | ChBallot a _ | ChPoll a _ | ChVote a _ | ChSysVoteData a _ | ChBRC a _
  | ChFBRC a _ | ChFBalance a _ | ChBlockReward a _ | ChNewVoteSnapshot a _
  | ChCooikeIncomeNum a _ | ChCoupingSystemFeeSnapshot a _ | ChSystemAddressPoll a _
  | ChLastCreateRecord a _ | ChMinnerSnapshot a _ | ChReceiveCookies a _ | ChUpExOrder a _
  | ChSuccessOrder a _ | ChChangeMiner a _ | ChNewChangeMiner a _ | ChMinerGasPrice a _ => a
  end.

(** ** [State]; [m_changeLog] is newest first. *)
Record State := mkState {
  m_state : gmap Address bytes;
  m_codeDB : gmap h256 bytes;
  m_cache : gmap Address Account;
  m_unchangedCacheEntries : list Address;
  m_nonExistingAccountsCache : gset Address;
  m_touched : gset Address;
  m_accountStartNonce : u256;
  m_timestamp : Z;
  m_block_number : int64;
  m_curr_number : int64;
  m_changeLog : list Change
}.
#[export] Instance State_reshape : Reshape State := λ s,
  mkState (m_state s) (m_codeDB s) (m_cache s) (m_unchangedCacheEntries s)
    (m_nonExistingAccountsCache s) (m_touched s) (m_accountStartNonce s) (m_timestamp s)
    (m_block_number s) (m_curr_number s) (m_changeLog s).
#[export] Instance m_state_field : Field m_state := ltac:(field_setter).
#[export] Instance m_codeDB_field : Field m_codeDB := ltac:(field_setter).
#[export] Instance m_cache_field : Field m_cache := ltac:(field_setter).
#[export] Instance m_unchangedCacheEntries_field : Field m_unchangedCacheEntries := ltac:(field_setter).
#[export] Instance m_nonExistingAccountsCache_field : Field m_nonExistingAccountsCache := ltac:(field_setter).
#[export] Instance m_touched_field : Field m_touched := ltac:(field_setter).
#[export] Instance m_accountStartNonce_field : Field m_accountStartNonce := ltac:(field_setter).
#[export] Instance m_timestamp_field : Field m_timestamp := ltac:(field_setter).
#[export] Instance m_block_number_field : Field m_block_number := ltac:(field_setter).
#[export] Instance m_curr_number_field : Field m_curr_number := ltac:(field_setter).
#[export] Instance m_changeLog_field : Field m_changeLog := ltac:(field_setter).

Ltac state_fields := cbv beta iota delta [upd
    m_state_field m_codeDB_field m_cache_field m_unchangedCacheEntries_field
    m_nonExistingAccountsCache_field m_touched_field m_accountStartNonce_field m_timestamp_field
    m_block_number_field m_curr_number_field m_changeLog_field m_state m_codeDB m_cache
    m_unchangedCacheEntries m_nonExistingAccountsCache m_touched m_accountStartNonce m_timestamp
    m_block_number m_curr_number m_changeLog].
Tactic Notation "state_fields" "in" hyp(H) := cbv beta iota delta [upd
    m_state_field m_codeDB_field m_cache_field m_unchangedCacheEntries_field
    m_nonExistingAccountsCache_field m_touched_field m_accountStartNonce_field m_timestamp_field
    m_block_number_field m_curr_number_field m_changeLog_field m_state m_codeDB m_cache
    m_unchangedCacheEntries m_nonExistingAccountsCache m_touched m_accountStartNonce m_timestamp
    m_block_number m_curr_number m_changeLog] in H.

Abbreviation M := (ST State).

(** [Invalid256]: all bits set. *)
Definition Invalid256 : u256 := M256 - 1.

(** What [State] promises to read and write in the trie: [encode_account] is the
    RLP list built by [dev::brc::commit], [decode_account] what
    [State::account] reads back. *)
Class AccountCodec `{Crypto, Config} := {
  encode_account : int64 → h256 → Account → bytes;
  decode_account : int64 → int64 → bytes → option Account
}.

Section State.
Context `{CR : Crypto, CF : Config, ST_ : !StorageTrie, RN : Rng, CO : !AccountCodec}.

(** ** Cache eviction *)

(** One round of the loop of [clearCacheIfTooLarge]. *)
Definition evict_one (s : State) : State :=
  let l := m_unchangedCacheEntries s in
  let i := random_index l in
  match l !! i, last l with
  | Some addr, Some back =>
      let s1 := s <| m_unchangedCacheEntries := removelast (<[i := back]> l) |> in
      match m_cache s !! addr with
      | Some x => if isDirty x then s1 else s1 <| m_cache ::= delete addr |>
      | None => s1
      end
  | _, _ => s
  end.
Definition clearCacheIfTooLarge (s : State) : State :=
  Nat.iter (length (m_unchangedCacheEntries s) - 1000) evict_one s.

(** ** [State::account]

    The final [changed()] calls of the initialisers leave a freshly read
    account dirty, unless the height enables the reset. *)
Definition load (s : State) (b : bytes) : option Account :=
  x ← decode_account (m_block_number s) (m_curr_number s) b;
  Some (if gasPriceHeight <=? m_curr_number s then untouch x else changed x).

Definition account (a : Address) : M (option Account) := λ s,
  match m_cache s !! a with
  | Some x => (Ok (Some x), s)
  | None =>
      if bool_decide (a ∈ m_nonExistingAccountsCache s) then (Ok None, s)
      else match m_state s !! a with
      | None => (Ok None, s <| m_nonExistingAccountsCache ::= λ n, {[a]} ∪ n |>)
      | Some b =>
          let s1 := clearCacheIfTooLarge s in
          match load s b with
          | None => (Undef, s1)
          | Some x =>
              (Ok (Some x),
               s1 <| m_cache ::= <[a := x]> |>
                  <| m_unchangedCacheEntries ::= λ l, l ++ [a] |>)
          end
      end
  end.

(** A write through the pointer [account] returned: the entry must still be
    in the cache. *)
Definition write (a : Address) (f : Account → Account) : M unit := λ s,
  match m_cache s !! a with
  | Some x => (Ok tt, s <| m_cache ::= <[a := f x]> |>)
  | None => (Undef, s)
  end.
Definition write_opt (a : Address) (f : Account → option Account) : M unit := λ s,
  match m_cache s !! a ≫= f with
  | Some x => (Ok tt, s <| m_cache ::= <[a := x]> |>)
  | None => (Undef, s)
  end.
(** Dereferencing the pointer [account] returned. *)
Definition deref (a : Address) : M Account :=
  o ← account a; match o with Some x => mret x | None => undef end.
(** A later read through a pointer that is still held. *)
Definition reread (a : Address) : M Account := λ s,
  match m_cache s !! a with Some x => (Ok x, s) | None => (Undef, s) end.

Definition log (c : Change) : M unit := modS (λ s, s <| m_changeLog ::= cons c |>).

Definition requireAccountStartNonce : M u256 :=
  s ← getS;
  if m_accountStartNonce s =? Invalid256 then throw InvalidAccountStartNonceInState
  else mret (m_accountStartNonce s).

Definition noteAccountStartNonce (_actual : u256) : M unit :=
  s ← getS;
  if m_accountStartNonce s =? Invalid256 then modS (λ s, s <| m_accountStartNonce := _actual |>)
  else if negb (m_accountStartNonce s =? _actual) then throw IncorrectAccountStartNonceInState
  else mret tt.

Definition createAccount (a : Address) (x : Account) : M unit :=
  modS (λ s, s <| m_cache ::= <[a := x]> |>
               <| m_nonExistingAccountsCache ::= λ n, n ∖ {[a]} |>
               <| m_changeLog ::= cons (ChCreate a) |>).

(** [m_cache[a]]: [operator[]] inserts a default (dead) account. *)
Definition cache_at (a : Address) (s : State) : Account := default Account_dead (m_cache s !! a).
Definition write_at (a : Address) (f : Account → Account) : M unit :=
  modS (λ s, s <| m_cache ::= <[a := f (cache_at a s)]> |>).

(** ** Undoing a change *)

(** The [switch] of [rollback] for the kinds that rewrite the account. *)
Definition undo_account (c : Change) (x : Account) : option Account :=
  match c with
  | ChStorage _ k v => Some (acc_setStorage k v x)
  | ChStorageRoot _ v => Some (acc_setStorageRoot v x)
  | ChBalance _ v => Some (acc_addBalance (0 [-] v) x)
  | ChBRC _ v => Some (acc_addBRC (0 [-] v) x)
  | ChNonce _ v => Some (acc_setNonce v x)
  | ChCreate _ => Some x
  | ChCode _ c => Some (acc_setCode c x)
  | ChTouch _ => Some (untouch x)
  | ChBallot _ v => Some (acc_addBallot (0 [-] v) x)
  | ChPoll _ v => Some (acc_addPoll (0 [-] v) x)
  | ChVote _ v => acc_addVote v x
  | ChSysVoteData _ v => Some (acc_manageSysVote v.1 (negb v.2) 0 0 x)
  | ChFBRC _ v => Some (acc_addFBRC (0 [-] v) x)
  | ChFBalance _ v => Some (acc_addFBalance (0 [-] v) x)
  | ChBlockReward _ v => Some (acc_addBlockRewardRecoding v x)
  | ChNewVoteSnapshot _ v => Some (acc_set_vote_snapshot v x)
  | ChCooikeIncomeNum _ v => Some (acc_addCooikeIncome (0 [-] v) x)
  | ChSystemAddressPoll _ p => acc_set_system_poll p x
  | ChCoupingSystemFeeSnapshot _ f => Some (setCouplingSystemFeeSnapshot f x)
  | ChMinnerSnapshot _ l => Some (set_vote_data l x)
  | ChReceiveCookies _ r => Some (acc_set_received r x)
  | ChUpExOrder _ l => Some (setExOrderMulti l x)
  | ChSuccessOrder _ l => Some (setSuccessOrder l x)
  | ChChangeMiner _ o => Some (copyByAccount o (kill x))
  | ChNewChangeMiner _ m => Some (setChangeMiner m x)
  | ChMinerGasPrice _ m => Some (setMinerGasPrices m x)
  | ChLastCreateRecord _ _ => Some x
  end.

(** One iteration of [rollback], the entry already popped. *)
Definition undo (c : Change) (s : State) : option State :=
  let a := ch_address c in
  x ← undo_account c (cache_at a s);
  Some match c with
       | ChCreate _ => s <| m_cache ::= delete a |>
       | ChTouch _ => s <| m_cache ::= <[a := x]> |> <| m_unchangedCacheEntries ::= λ l, l ++ [a] |>
       | _ => s <| m_cache ::= <[a := x]> |>
       end.

Definition savepoint : M nat := s ← getS; mret (length (m_changeLog s)).

(** The loop runs until the log has [sp] entries; on a log that is already
    shorter it pops past the beginning. *)
Fixpoint rollback_n (n : nat) (s : State) : option State :=
  match n with
  | O => Some s
  | S n =>
      match m_changeLog s with
      | [] => None
      | c :: l => s' ← undo c s; rollback_n n (s' <| m_changeLog := l |>)
      end
  end.
Definition rollback (sp : nat) : M unit := λ s,
  if bool_decide (sp <= length (m_changeLog s))%nat then
    match rollback_n (length (m_changeLog s) - sp) s with
    | Some s' => (Ok tt, s')
    | None => (Undef, s)
    end
  else (Undef, s).

(** [executeTransaction], over the body [_e.initialize; _e.execute; _e.go; _e.finalize]. *)
Definition executeTransaction {A} (body : M A) : M A :=
  savept ← savepoint;
  try_catch body is_dev_exception (λ e, rollback savept ;; throw e).

(** ** Commit *)
Definition removeEmptyAccounts (s : State) : State :=
  s <| m_cache ::= fmap (λ x, if isDirty x && isEmpty x then kill x else x) |>.

(** The storage root written for an account: the overlay is applied to the
    trie first (a zero value removes the key). *)
Definition committed_root (x : Account) : h256 :=
  if bool_decide (m_storageOverlay x = ∅) then m_storageRoot x
  else storage_commit (m_storageRoot x) (m_storageOverlay x).

Definition commit_trie (s : State) : gmap Address bytes :=
  map_fold (λ a x t,
    if isDirty x then
      if m_isAlive x then <[a := encode_account (m_block_number s) (committed_root x) x]> t
      else delete a t
    else t) (m_state s) (m_cache s).
Definition commit_code (s : State) : gmap h256 bytes :=
  map_fold (λ a x t,
    if isDirty x && m_isAlive x && m_hasNewCode x then <[m_codeHash x := m_codeCache x]> t else t)
    (m_codeDB s) (m_cache s).
Definition dirty_addresses (s : State) : gset Address :=
  dom (filter (λ p, isDirty p.2 = true) (m_cache s)).

Definition commit (remove_empty : bool) : M unit :=
  modS (λ s,
    let s := if remove_empty then removeEmptyAccounts s else s in
    s <| m_state := commit_trie s |> <| m_codeDB := commit_code s |>
      <| m_touched ::= λ t, dirty_addresses s ∪ t |>
      <| m_changeLog := [] |> <| m_cache := ∅ |> <| m_unchangedCacheEntries := [] |>).

(** [setRoot(r)], the trie below [r] being [t]. *)
Definition setRoot (t : gmap Address bytes) : M unit :=
  modS (λ s, s <| m_cache := ∅ |> <| m_unchangedCacheEntries := [] |>
               <| m_nonExistingAccountsCache := ∅ |> <| m_state := t |>).

Definition setBlockNumber (n : int64) : M unit :=
  modS (λ s, s <| m_block_number := n |> <| m_curr_number := n + 1 |>).
End State.
