(* ===== verification/StateOps.v ===== *)
(** * Primitive account operations of [State] (libbrcdchain/State.h, State.cpp)

    Amounts, nonces, storage, code and the transfers built on them.  Each
    operation fetches the account through [account], writes through the pointer
    it returned and appends the log entry that undoes the write. *)
From stdpp Require Import base gmap list.
From Stdlib Require Import ZArith Lia.
From S2P Require Import Prelude Config Objects Interfaces Account ChainState.
Open Scope Z_scope.

Section StateOps.
Context `{CR : Crypto, CF : Config, ST_ : !StorageTrie, RN : Rng, CO : !AccountCodec}.

(** A getter: the field of the account, or [d] when there is none. *)
Definition read {A} (d : A) (f : Account → A) (a : Address) : M A :=
  o ← account a; mret (match o with Some x => f x | None => d end).

Definition addressInUse : Address → M bool := read false (λ _, true).
Definition accountNonemptyAndExisting : Address → M bool := read false (λ x, negb (isEmpty x)).
Definition addressHasCode : Address → M bool := read false (λ x, negb (m_codeHash x =? EmptySHA3)).
Definition balance : Address → M u256 := read 0 m_balance.
Definition ballot : Address → M u256 := read 0 m_ballot.
Definition BRC : Address → M u256 := read 0 m_BRC.
Definition FBRC : Address → M u256 := read 0 m_FBRC.
Definition FBalance : Address → M u256 := read 0 m_FBalance.
Definition poll : Address → M u256 := read 0 a_poll.
Definition codeHash : Address → M h256 := read EmptySHA3 m_codeHash.
Definition getNonce (a : Address) : M u256 := s ← getS; read (m_accountStartNonce s) m_nonce a.

(** ** Nonces *)
Definition incNonce (a : Address) : M unit :=
  o ← account a;
  match o with
  | Some x => write a acc_incNonce ;; log (ChNonce a (m_nonce x))
  | None => n ← requireAccountStartNonce; createAccount a (Account_nb (n [+] 1) 0)
  end.
Definition setNonce (a : Address) (_newNonce : u256) : M unit :=
  o ← account a;
  match o with
  | Some x => write a (acc_setNonce _newNonce) ;; log (ChNonce a (m_nonce x))
  | None => createAccount a (Account_nb _newNonce 0)
  end.

(** ** Amounts *)

(** The first touch of an empty account is logged. *)
Definition log_touch (a : Address) (x : Account) : M unit :=
  when (negb (isDirty x) && isEmpty x) (log (ChTouch a)).
Definition log_amount (c : Change) (v : u256) : M unit := when (negb (v =? 0)) (log c).

Definition addBalance (a : Address) (_amount : u256) : M unit :=
  (o ← account a;
   match o with
   | Some x => log_touch a x ;; write a (acc_addBalance _amount)
   | None => n ← requireAccountStartNonce; createAccount a (Account_nb n _amount)
   end) ;;
  log_amount (ChBalance a _amount) _amount.

Definition addBallot (a : Address) (_amount : u256) : M unit :=
  (o ← account a;
   match o with
   | Some x => log_touch a x ;; write a (acc_addBallot _amount)
   | None => throw InvalidAddress
   end) ;;
  log_amount (ChBallot a _amount) _amount.

Definition subBalance (a : Address) (_value : u256) : M unit :=
  if _value =? 0 then mret tt
  else
    o ← account a;
    match o with
    | Some x => if m_balance x <? _value then throw NotEnoughCash else addBalance a (0 [-] _value)
    | None => throw NotEnoughCash
    end.
Definition subBallot (a : Address) (_value : u256) : M unit :=
  if _value =? 0 then mret tt
  else
    o ← account a;
    match o with
    | Some x => if m_ballot x <? _value then throw NotEnoughBallot else addBallot a (0 [-] _value)
    | None => throw NotEnoughBallot
    end.
Definition setBalance (a : Address) (_value : u256) : M unit :=
  original ← balance a; addBalance a (_value [-] original).

Definition addBRC (a : Address) (_value : u256) : M unit :=
  (o ← account a;
   match o with
   | Some x => log_touch a x ;; write a (acc_addBRC _value)
   | None => n ← requireAccountStartNonce; createAccount a (Account_nbb n 0 _value 0)
   end) ;;
  log_amount (ChBRC a _value) _value.

(** The message printed before the throw dereferences the account pointer. *)
Definition subBRC (a : Address) (_value : u256) : M unit :=
  if _value =? 0 then mret tt
  else
    o ← account a;
    match o with
    | Some x => if m_BRC x <? _value then throw NotEnoughCash else addBRC a (0 [-] _value)
    | None => undef
    end.
Definition setBRC (a : Address) (_value : u256) : M unit :=
  original ← BRC a; addBRC a (_value [-] original).

(** [addFBRC] and [addFBalance] do nothing to a missing account but log anyway. *)
Definition addFBRC (a : Address) (_value : u256) : M unit :=
  (o ← account a;
   match o with
   | Some x => log_touch a x ;; write a (acc_addFBRC _value)
   | None => mret tt
   end) ;;
  log_amount (ChFBRC a _value) _value.
Definition subFBRC (a : Address) (_value : u256) : M unit :=
  if _value =? 0 then mret tt
  else
    o ← account a;
    match o with
    | Some x => if m_FBRC x <? _value then throw NotEnoughCash else addFBRC a (0 [-] _value)
    | None => undef
    end.

Definition addFBalance (a : Address) (_value : u256) : M unit :=
  (o ← account a;
   match o with
   | Some x => log_touch a x ;; write a (acc_addFBalance _value)
   | None => mret tt
   end) ;;
  log_amount (ChFBalance a _value) _value.
Definition subFBalance (a : Address) (_value : u256) : M unit :=
  if _value =? 0 then mret tt
  else
    o ← account a;
    match o with
    | Some x => if m_FBalance x <? _value then throw NotEnoughCash else addFBalance a (0 [-] _value)
    | None => undef
    end.

Definition addPoll (a : Address) (_value : u256) : M unit :=
  (o ← account a;
   match o with
   | Some _ => write a (acc_addPoll _value)
   | None => throw InvalidAddressAddr
   end) ;;
  log_amount (ChPoll a _value) _value.
Definition subPoll (a : Address) (_value : u256) : M unit :=
  if _value =? 0 then mret tt
  else
    o ← account a;
    match o with
    | Some x => if a_poll x <? _value then throw NotEnoughPoll else addPoll a (0 [-] _value)
    | None => throw NotEnoughPoll
    end.

(** ** Transfers *)
Definition transferBalance (_from _to : Address) (_value : u256) : M unit :=
  subBalance _from _value ;; addBalance _to _value.
Definition transferBRC (_FromAddr _ToAddr : Address) (_value : u256) : M unit :=
  subBRC _FromAddr _value ;; addBRC _ToAddr _value.
Definition transferBallotBuy (_from : Address) (_value : u256) : M unit :=
  subBRC _from (_value [*] BALLOTPRICE) ;;
  addBRC systemAddress (_value [*] BALLOTPRICE) ;;
  addBallot _from _value.
Definition transferBallotSell (_from : Address) (_value : u256) : M unit :=
  subBallot _from _value ;;
  addBRC _from (_value [*] BALLOTPRICE) ;;
  subBRC systemAddress (_value [*] BALLOTPRICE).

(** ** Storage and code *)
Definition storage (a : Address) (k : u256) : M u256 :=
  o ← account a;
  match o with
  | Some x => let '(v, x') := acc_storageValue k x in write a (λ _, x') ;; mret v
  | None => mret 0
  end.
Definition originalStorageValue (a : Address) (k : u256) : M u256 :=
  o ← account a;
  match o with
  | Some x => let '(v, x') := acc_originalStorageValue k x in write a (λ _, x') ;; mret v
  | None => mret 0
  end.
Definition setStorage (a : Address) (k v : u256) : M unit :=
  old ← storage a k; log (ChStorage a k old) ;; write_at a (acc_setStorage k v).
Definition clearStorage (a : Address) : M unit :=
  write_at a (λ x, x) ;;
  s ← getS;
  let oldHash := m_storageRoot (cache_at a s) in
  if oldHash =? EmptyTrie then mret tt
  else log (ChStorageRoot a oldHash) ;; write_at a acc_clearStorage.
Definition code (a : Address) : M bytes :=
  o ← account a;
  match o with
  | None => mret []
  | Some x =>
      if m_codeHash x =? EmptySHA3 then mret []
      else if bool_decide (m_codeCache x = []) then
        s ← getS;
        let c := default [] (m_codeDB s !! m_codeHash x) in
        write a (acc_noteCode c) ;; mret c
      else mret (m_codeCache x)
  end.
Definition setCode (a : Address) (c : bytes) : M unit :=
  old ← code a; log (ChCode a old) ;;
  s ← getS;
  if map_count (m_cache s) a then write_at a (acc_setCode c) else mret tt.
Definition killAccount (a : Address) : M unit :=
  o ← account a; match o with Some _ => write a kill | None => mret tt end.
End StateOps.
