(* ===== verification/Exdb.v ===== *)
(** * The order book (libbrcdchain/ExdbState.h, ExdbState.cpp)

    The book lives in the account [ExdbSystemAddress].  [insert_operation]
    matches an incoming order against it, [cancel_order_by_trxid] takes an order
    out, the [get_*] functions query it.

    A loop over an index range [begin .. end] is a recursion over the elements
    of the range when the loop starts: the loops advance [begin] before they
    erase its element, and the loops for market orders stop after the one update
    that replaces an element.  [process_only_price] reads [begin] and advances it
    after such an update has erased its element: that is undefined behaviour.
    [assert]s are not modelled: they are compiled out of release builds. *)
From stdpp Require Import base gmap list.
From Stdlib Require Import ZArith Lia.
From S2P Require Import Prelude Config Objects Interfaces Account ChainState StateOps.
Open Scope Z_scope.

Section Exdb.
Context `{CR : Crypto, CF : Config, ST_ : !StorageTrie, RN : Rng, CO : !AccountCodec}.

(** ** The book in the state *)
Definition getExOrder : M (list ex_order) :=
  o ← account ExdbSystemAddress;
  match o with
  | Some x => mret (m_exChangeOrder x)
  | None =>
      createAccount ExdbSystemAddress (Account_ballot 0) ;;
      x ← deref ExdbSystemAddress; mret (m_exChangeOrder x)
  end.
Definition userGetExOrder (a : Address) : M (list ex_order) :=
  o ← account a;
  match o with Some x => mret (m_exChangeOrder x) | None => throw ExdbChangeFailed end.

Definition addExchangeOrder (a : Address) (_order : ex_order) : M unit :=
  o ← account a;
  match o with
  | None => throw ExdbChangeFailed
  | Some x => write a (addExOrderMulti _order) ;; log (ChUpExOrder a (m_exChangeOrder x))
  end.
Definition removeExchangeOrder (a : Address) (_trid : h256) : M unit :=
  o ← account a;
  match o with
  | None => throw ExdbChangeFailed
  | Some x =>
      let '(status, x') := removeExOrderMulti _trid x in
      write a (λ _, x') ;;
      if status then log (ChUpExOrder a (m_exChangeOrder x)) else throw ExdbChangeFailed
  end.

Definition getSuccessExchange : M (list result_order) :=
  o ← account ExdbSystemAddress;
  match o with Some x => mret (m_successExchange x) | None => throw SuccessExChangeFailed end.
Definition ensureExdb : M Account :=
  o ← account ExdbSystemAddress;
  match o with
  | Some x => mret x
  | None => createAccount ExdbSystemAddress (Account_ballot 0) ;; deref ExdbSystemAddress
  end.
Definition addSuccessExchange (_order : result_order) : M unit :=
  x ← ensureExdb;
  write ExdbSystemAddress (addSuccessExchangeOrder _order) ;;
  log (ChSuccessOrder ExdbSystemAddress (m_successExchange x)).
Definition setSuccessExchange (l : list result_order) : M unit :=
  x ← ensureExdb;
  write ExdbSystemAddress (setSuccessOrder l) ;;
  log (ChSuccessOrder ExdbSystemAddress (m_successExchange x)).

Definition add_exchangeOrder (od : ex_order) : M unit := addExchangeOrder ExdbSystemAddress od.
Definition remove_exchangeOrder (id : h256) : M unit := removeExchangeOrder ExdbSystemAddress id.

(** ** Index ranges *)

(** [get_buy_itr]: the sell orders a buyer at [p] can take, cheapest first. *)
Definition buy_range (find_token : order_token_type) (p : u256) (book : list ex_order) : list ex_order :=
  index_range key_price_less
    [order_type_code sell; order_token_code find_token; 0; 0]
    [order_type_code sell; order_token_code find_token; p; INT64_MAX] book.
(** [get_sell_itr]: the buy orders a seller at [p] can take, dearest first. *)
Definition sell_range (find_token : order_token_type) (p : u256) (book : list ex_order) : list ex_order :=
  index_range key_price_greater
    [order_type_code buy; order_token_code find_token; - (M256 - 1); 0]
    [order_type_code buy; order_token_code find_token; - p; INT64_MAX] book.
Definition get_buy_itr (t : order_token_type) (p : u256) : M (list ex_order) :=
  book ← getExOrder; mret (buy_range t p book).
Definition get_sell_itr (t : order_token_type) (p : u256) : M (list ex_order) :=
  book ← getExOrder; mret (sell_range t p book).

(** ** Matching a limit order *)

(** An order that is filled in part is replaced by a copy with the rest of its amount, which
    erases the element [begin] points to; [ret.set_data(od, begin, ..)], [begin->trxid] and
    [begin++] come after that. *)
Fixpoint only_price_loop (od : ex_order) (p spend : u256) (begin : list ex_order)
    (result : list result_order) (removeHashs : list h256)
    : M (u256 * list result_order * list h256) :=
  match begin with
  | [] => mret (spend, result, removeHashs)
  | x :: begin' =>
      if 0 <? spend then
        if token_amount x <=? spend then
          only_price_loop od p (spend [-] token_amount x) begin'
            (result ++ [(set_data od x (token_amount x) (price x)) <| r_old_price := p |>])
            (removeHashs ++ [trxid x])
        else
          add_exchangeOrder (x <| token_amount ::= λ t, t [-] spend |>) ;;
          undef
      else mret (spend, result, removeHashs)
  end.

Definition process_only_price (begin : list ex_order) (od : ex_order) (p amount : u256)
    : M (list result_order) :=
  if bool_decide (begin = []) then add_exchangeOrder od ;; mret []
  else
    '(spend, result, removeHashs) ← only_price_loop od p amount begin [] [];
    forM removeHashs remove_exchangeOrder ;;
    when (0 <? spend) (add_exchangeOrder (od <| token_amount := spend |>)) ;;
    mret result.

(** ** Matching a market order *)
Fixpoint all_price_buy_loop (itr : ex_order) (reset : bool) (total_price : u256)
    (begin : list ex_order) (result : list result_order) : M (list result_order) :=
  match begin with
  | [] => mret result
  | x :: begin' =>
      if 0 <? total_price then
        let begin_total_price := token_amount x [*] price x in
        if begin_total_price <=? total_price then
          when (negb reset) (remove_exchangeOrder (trxid x)) ;;
          all_price_buy_loop itr reset (total_price [-] begin_total_price) begin'
            (result ++ [set_data itr x (token_amount x) (price x)])
        else
          can_buy_amount ← u256_div total_price (price x);
          if can_buy_amount =? 0 then mret result
          else
            when (negb reset)
              (add_exchangeOrder (x <| token_amount ::= λ t, t [-] can_buy_amount |>)) ;;
            mret (result ++ [set_data itr x can_buy_amount (price x)])
      else mret result
  end.

Fixpoint all_price_sell_loop (itr : ex_order) (reset : bool) (total_amount : u256)
    (begin : list ex_order) (result : list result_order) : M (list result_order) :=
  match begin with
  | [] => mret result
  | x :: begin' =>
      if 0 <? total_amount then
        if total_amount <? token_amount x then
          when (negb reset)
            (add_exchangeOrder (x <| token_amount ::= λ t, t [-] total_amount |>)) ;;
          mret (result ++ [set_data itr x total_amount (price x)])
        else
          when (negb reset) (remove_exchangeOrder (trxid x)) ;;
          all_price_sell_loop itr reset (total_amount [-] token_amount x) begin'
            (result ++ [set_data itr x (token_amount x) (price x)])
      else mret result
  end.

Definition insert_operation (itr : ex_order) (reset : bool) : M (list result_order) :=
  if (token_amount itr =? 0) && (price itr =? 0) then throw order_price_num_equal_zero_error
  else if reset && negb (bool_decide (type itr = buy) && bool_decide (buy_type itr = all_price))
  then exit1
  else if bool_decide (buy_type itr = only_price) then
    if bool_decide (type itr = buy) then
      begin ← get_buy_itr (token_type itr) (price itr);
      process_only_price begin itr (price itr) (source_amount itr)
    else
      begin ← get_sell_itr (token_type itr) (price itr);
      process_only_price begin itr (price itr) (source_amount itr)
  else if bool_decide (type itr = buy) then
    begin ← get_buy_itr (token_type itr) (M256 - 1);
    if bool_decide (begin = []) then throw all_price_operation_error
    else all_price_buy_loop itr reset (price itr) begin []
  else
    begin ← get_sell_itr (token_type itr) 0;
    if bool_decide (begin = []) then throw all_price_operation_error
    else all_price_sell_loop itr reset (token_amount itr) begin [].

(** ** Cancelling and querying *)
Definition cancel_order_by_trxid (t : h256) : M order :=
  book ← getExOrder;
  match multi_find t book with
  | None => throw find_order_trxid_error
  | Some x =>
      remove_exchangeOrder (trxid x) ;;
      mret (mkOrder (trxid x) (sender x) only_price (token_type x) (type x)
              (price x, token_amount x) (create_time x))
  end.
Definition exits_trxid (t : h256) : M (list ex_order) :=
  book ← getExOrder;
  match multi_find t book with
  | None => throw find_order_trxid_error
  | Some x => mret [x]
  end.

(** [--size > 0] on a [uint32_t] before each element. *)
Fixpoint take_predec (size : uint32) (l : list ex_order) : list exchange_order :=
  match l with
  | [] => []
  | x :: l =>
      let size' := (size - 1) mod 2 ^ 32 in
      if 0 <? size' then exchange_order_of x :: take_predec size' l else []
  end.
Definition get_order_by_address (a : Address) (size : uint32) : M (list exchange_order) :=
  book ← getExOrder;
  mret (take_predec size (index_range key_address [a; - INT64_MAX] [a; 0] book)).

Definition get_order_by_type (ty : order_type) (t : order_token_type) (size : uint32)
    : M (list exchange_order) :=
  book ← getExOrder;
  mret (take (Z.to_nat size) (exchange_order_of <$>
    (if bool_decide (ty = buy) then sell_range t 0 book else buy_range t (M256 - 1) book))).

(** The copies the result queries return leave [old_price] at its default. *)
Definition copy_result (r : result_order) : result_order := r <| r_old_price := 0 |>.
Definition get_result_orders_by_news (size : uint32) : M (list result_order) :=
  l ← getSuccessExchange;
  mret (copy_result <$> take (Z.to_nat size) (index key_r_time l)).

(** The merge of the two lists of [get_result_orders_by_address]. *)
Fixpoint merge_results (n : nat) (s a : list result_order) : list result_order :=
  match n with
  | O => []
  | S n =>
      match s, a with
      | x :: s', y :: a' =>
          if r_create_time y <? r_create_time x then x :: merge_results n s' a
          else y :: merge_results n s a'
      | x :: s', [] => x :: merge_results n s' []
      | [], y :: a' => y :: merge_results n [] a'
      | [], [] => []
      end
  end.
Definition get_result_orders_by_address (a : Address) (min_time max_time : int64)
    (max_size : uint32) : M (list result_order) :=
  l ← getSuccessExchange;
  let n := Z.to_nat max_size in
  let ret_sender := take n (copy_result <$> index_range key_r_sender [a; min_time] [a; max_time] l) in
  let ret_acceptor := take n (copy_result <$> index_range key_r_acceptor [a; min_time] [a; max_time] l) in
  mret (merge_results n ret_sender ret_acceptor).
End Exdb.
