(* ===== verification/Operations.v ===== *)
(** * Transaction operations (libbrcdchain/Transaction.h, namespace transationTool)

    The structs derived from [operation].  [std::dynamic_pointer_cast<T>] on a
    [shared_ptr<operation>] is a match on [operation]. *)
From stdpp Require Import base list.
From Stdlib Require Import ZArith Lia.
From S2P Require Import Prelude Rlp Objects.
Open Scope Z_scope.

(** [op_type]; any other byte stays a number. *)
Definition op_null : Z := 0.
Definition op_vote : Z := 1.
Definition op_brcTranscation : Z := 2.
Definition op_pendingOrder : Z := 3.
Definition op_cancelPendingOrder : Z := 4.
Definition op_deployContract : Z := 5.
Definition op_executeContract : Z := 6.
Definition op_changeMiner : Z := 7.
Definition op_receivingincome : Z := 8.
Definition op_transferAutoEx : Z := 9.
Definition op_modifyMinerGasPrice : Z := 10.

(** [c_add_value]; [operator[]] of the map gives 0 for a missing key. *)
Definition c_add_value (t : Z) : u256 :=
  if t =? op_vote then 5000 else if t =? op_pendingOrder then 10000
  else if t =? op_cancelPendingOrder then 2000 else if t =? op_transferAutoEx then 20000 else 0.

Record vote_operation := mkVoteOp {
  vo_type : Z; vo_from : Address; vo_to : Address; m_vote_type : Z; m_vote_numbers : u256 }.
Record transcation_operation := mkTransOp {
  to_type : Z; to_from : Address; to_to : Address; m_Transcation_type : Z; m_Transcation_numbers : u256 }.
Record changeMiner_operation := mkChangeOp { cm_type : Z; m_before : Address; m_after : Address }.
Record pendingorder_opearaion := mkPendingOp {
  po_type : Z; po_from : Address;
  m_Pendingorder_type : order_type;
  m_Pendingorder_Token_type : order_token_type;
  m_Pendingorder_buy_type : order_buy_type;
  m_Pendingorder_num : u256;
  m_Pendingorder_price : u256 }.
Record cancelPendingorder_operation := mkCancelOp { cp_type : Z; m_cancelType : Z; m_hash : h256 }.
Record contract_operation := mkContractOp { m_date : bytes }.
Record receivingincome_operation := mkReceivingOp { ri_type : Z; m_receivingType : Z; ri_from : Address }.
Record transferAutoEx_operation := mkAutoExOp {
  ae_type : Z; m_autoExType : Z; m_autoExNum : u256; m_transferNum : u256;
  ae_from : Address; ae_to : Address }.
Record modifyMinerGasPrice_operation := mkGasPriceOp {
  gp_type : Z; m_proposer : Address; m_proposedAmount : u256 }.

Inductive operation :=
  | OpVote (o : vote_operation)
  | OpTranscation (o : transcation_operation)
  | OpChangeMiner (o : changeMiner_operation)
  | OpPendingOrder (o : pendingorder_opearaion)
  | OpCancelPendingOrder (o : cancelPendingorder_operation)
  | OpContract (o : contract_operation)
  | OpReceivingIncome (o : receivingincome_operation)
  | OpTransferAutoEx (o : transferAutoEx_operation)
  | OpModifyGasPrice (o : modifyMinerGasPrice_operation).

Definition as_vote (o : operation) := match o with OpVote o => Some o | _ => None end.
Definition as_transcation (o : operation) := match o with OpTranscation o => Some o | _ => None end.
Definition as_changeMiner (o : operation) := match o with OpChangeMiner o => Some o | _ => None end.
Definition as_pendingOrder (o : operation) := match o with OpPendingOrder o => Some o | _ => None end.
Definition as_cancel (o : operation) := match o with OpCancelPendingOrder o => Some o | _ => None end.
Definition as_receiving (o : operation) := match o with OpReceivingIncome o => Some o | _ => None end.
Definition as_transferAutoEx (o : operation) := match o with OpTransferAutoEx o => Some o | _ => None end.
Definition as_modifyGasPrice (o : operation) := match o with OpModifyGasPrice o => Some o | _ => None end.

(** [if (!_p) throw e;], and [_p->..] on the result when there is no such test. *)
Definition cast_or {S A} (e : exn) (o : option A) : ST S A :=
  match o with Some x => mret x | None => throw e end.
Definition cast_unchecked {S A} (o : option A) : ST S A :=
  match o with Some x => mret x | None => undef end.

(** ** Serialisation *)
Definition serialize_vote (o : vote_operation) : bytes :=
  encode (Items [rlp_unsigned (vo_type o); rlp_hash 20 (vo_from o); rlp_hash 20 (vo_to o);
                 rlp_unsigned (m_vote_type o); rlp_int (m_vote_numbers o)]).
Definition serialize_transcation (o : transcation_operation) : bytes :=
  encode (Items [rlp_unsigned (to_type o); rlp_hash 20 (to_from o); rlp_hash 20 (to_to o);
                 rlp_unsigned (m_Transcation_type o); rlp_int (m_Transcation_numbers o)]).
Definition serialize_changeMiner (o : changeMiner_operation) : bytes :=
  encode (Items [rlp_unsigned (cm_type o); rlp_hash 20 (m_before o); rlp_hash 20 (m_after o)]).
Definition serialize_pendingorder (o : pendingorder_opearaion) : bytes :=
  encode (Items [rlp_unsigned (po_type o); rlp_hash 20 (po_from o);
                 rlp_unsigned (order_type_code (m_Pendingorder_type o));
                 rlp_unsigned (order_token_code (m_Pendingorder_Token_type o));
                 rlp_unsigned (order_buy_code (m_Pendingorder_buy_type o));
                 rlp_int (m_Pendingorder_num o); rlp_int (m_Pendingorder_price o)]).
Definition serialize_cancel (o : cancelPendingorder_operation) : bytes :=
  encode (Items [rlp_unsigned (cp_type o); rlp_unsigned (m_cancelType o); rlp_hash 32 (m_hash o)]).
Definition serialize_contract (o : contract_operation) : bytes := encode (Items [rlp_bytes (m_date o)]).
Definition serialize_receivingincome (o : receivingincome_operation) : bytes :=
  encode (Items [rlp_unsigned (ri_type o); rlp_unsigned (m_receivingType o); rlp_hash 20 (ri_from o)]).
Definition serialize_transferAutoEx (o : transferAutoEx_operation) : bytes :=
  encode (Items [rlp_unsigned (ae_type o); rlp_unsigned (m_autoExType o); rlp_int (m_autoExNum o);
                 rlp_int (m_transferNum o); rlp_hash 20 (ae_from o); rlp_hash 20 (ae_to o)]).
Definition serialize_gasprice (o : modifyMinerGasPrice_operation) : bytes :=
  encode (Items [rlp_unsigned (gp_type o); rlp_hash 20 (m_proposer o); rlp_int (m_proposedAmount o)]).

(** [data[i].convert<T>(LaissezFaire)] *)
Definition u8_at (d : bytes) (i : nat) : outcome Z := x ← item d i; toInt_lax 1 x.
Definition u256_at (d : bytes) (i : nat) : outcome Z := x ← item d i; toInt_lax 32 x.
Definition addr_at (d : bytes) (i : nat) : outcome Z := x ← item d i; toHash_lax 20 x.
Definition h256_at (d : bytes) (i : nat) : outcome Z := x ← item d i; toHash_lax 32 x.
Definition bytes_at (d : bytes) (i : nat) : outcome bytes := x ← item d i; toBytes x.

Definition unserialize_vote (data : bytes) : outcome vote_operation :=
  d ← RLP data;
  t ← u8_at d 0; f ← addr_at d 1; to ← addr_at d 2; v ← u8_at d 3; n ← u256_at d 4;
  Ok (mkVoteOp t f to v n).
Definition unserialize_transcation (data : bytes) : outcome transcation_operation :=
  d ← RLP data;
  t ← u8_at d 0; f ← addr_at d 1; to ← addr_at d 2; v ← u8_at d 3; n ← u256_at d 4;
  Ok (mkTransOp t f to v n).
Definition unserialize_changeMiner (data : bytes) : outcome changeMiner_operation :=
  d ← RLP data; t ← u8_at d 0; b ← addr_at d 1; a ← addr_at d 2; Ok (mkChangeOp t b a).
Definition unserialize_pendingorder (data : bytes) : outcome pendingorder_opearaion :=
  d ← RLP data;
  t ← u8_at d 0; f ← addr_at d 1; ty ← u8_at d 2; tk ← u8_at d 3; bt ← u8_at d 4;
  n ← u256_at d 5; p ← u256_at d 6;
  Ok (mkPendingOp t f (order_type_of ty) (order_token_of tk) (order_buy_of bt) n p).
Definition unserialize_cancel (data : bytes) : outcome cancelPendingorder_operation :=
  d ← RLP data; t ← u8_at d 0; c ← u8_at d 1; h ← h256_at d 2; Ok (mkCancelOp t c h).
Definition unserialize_contract (data : bytes) : outcome contract_operation :=
  d ← RLP data; b ← bytes_at d 0; Ok (mkContractOp b).
Definition unserialize_receivingincome (data : bytes) : outcome receivingincome_operation :=
  d ← RLP data; t ← u8_at d 0; r ← u8_at d 1; f ← addr_at d 2; Ok (mkReceivingOp t r f).
Definition unserialize_transferAutoEx (data : bytes) : outcome transferAutoEx_operation :=
  d ← RLP data;
  t ← u8_at d 0; a ← u8_at d 1; n ← u256_at d 2; tr ← u256_at d 3; f ← addr_at d 4; to ← addr_at d 5;
  Ok (mkAutoExOp t a n tr f to).
Definition unserialize_gasprice (data : bytes) : outcome modifyMinerGasPrice_operation :=
  d ← RLP data; t ← u8_at d 0; p ← addr_at d 1; n ← u256_at d 2; Ok (mkGasPriceOp t p n).

(** [operation::get_type]: any failure to read the first item is [null]. *)
Definition get_type (data : bytes) : Z :=
  match (d ← RLP data; x ← item d 0; toInt 1 x) with Ok t => t | _ => op_null end.

(** The [switch] of [Executive::initialize]: the constructor each type selects. *)
Definition parse_operation (_type : Z) (val : bytes) : outcome operation :=
  if _type =? op_vote then x ← unserialize_vote val; Ok (OpVote x)
  else if _type =? op_brcTranscation then x ← unserialize_transcation val; Ok (OpTranscation x)
  else if _type =? op_pendingOrder then x ← unserialize_pendingorder val; Ok (OpPendingOrder x)
  else if _type =? op_cancelPendingOrder then x ← unserialize_cancel val; Ok (OpCancelPendingOrder x)
  else if _type =? op_changeMiner then x ← unserialize_changeMiner val; Ok (OpChangeMiner x)
  else if _type =? op_receivingincome then x ← unserialize_receivingincome val; Ok (OpReceivingIncome x)
  else if _type =? op_transferAutoEx then x ← unserialize_transferAutoEx val; Ok (OpTransferAutoEx x)
  else if _type =? op_modifyMinerGasPrice then x ← unserialize_gasprice val; Ok (OpModifyGasPrice x)
  else Throw DefaultError.

(** [operation::serialize] (virtual), and the data of a transaction that carries operations. *)
Definition serialize (o : operation) : bytes :=
  match o with
  | OpVote o => serialize_vote o
  | OpTranscation o => serialize_transcation o
  | OpChangeMiner o => serialize_changeMiner o
  | OpPendingOrder o => serialize_pendingorder o
  | OpCancelPendingOrder o => serialize_cancel o
  | OpContract o => serialize_contract o
  | OpReceivingIncome o => serialize_receivingincome o
  | OpTransferAutoEx o => serialize_transferAutoEx o
  | OpModifyGasPrice o => serialize_gasprice o
  end.
Definition batch_data (ops : list operation) : bytes := encode (Items ((λ o, rlp_bytes (serialize o)) <$> ops)).
