(* ===== verification/Codec.v ===== *)
(** * Serialised accounts (libbrcdchain/Account.h, State.cpp, objects.hpp)

    [streamRLP] / [populate] of the records an account carries, the account's own
    RLP list as [dev::brc::commit] writes it and [State::account] reads it, and the
    [AccountCodec] instance they form.  An inner [RLPStream] whose [out()] is
    appended is a byte string holding an encoding. *)
From stdpp Require Import base gmap list.
From Stdlib Require Import ZArith Lia.
From S2P Require Import Prelude Rlp Config Objects Interfaces Account ChainState Operations.
Open Scope Z_scope.

(** ** Conversions *)
Definition rlp_out (l : list rlp_item) : rlp_item := rlp_bytes (encode (Items l)).
(** [(u256)t] of an [int64_t], and back: boost converts a number that is too large for a
    signed type to the largest value of that type.  (A time is not negative, and the theorems
    rely on the conversion back below [2 ^ 63] only.) *)
Definition rlp_time (t : int64) : rlp_item := rlp_int (w256 t).
Definition int64_of (z : Z) : int64 := Z.min z INT64_MAX.
Definition as_u256 : bytes → outcome Z := toInt 32.
Definition as_addr : bytes → outcome Z := toHash 20.
Definition time_at (d : bytes) (i : nat) : outcome int64 := z ← u256_at d i; Ok (int64_of z).
(** [rlp[i].toInt<u256>()] (strict), [rlp[i].toBytes()]. *)
Definition int_at (d : bytes) (i : nat) : outcome Z := x ← item d i; toInt 32 x.
Definition hash_at (d : bytes) (i : nat) : outcome Z := x ← item d i; toHash 32 x.

(** [for (auto const& v : RLP(b)) m[k(v)] = f(v)], over a list of pairs. *)
Definition read_map {V} (key : bytes → outcome Z) (val : bytes → outcome V) (b : bytes) : outcome (gmap Z V) :=
  d ← RLP b;
  l ← rlp_list d;
  ps ← mapO (λ x, x ← RLP x; toPair key val x) l;
  Ok (foldl (λ m p, <[p.1 := p.2]> m) ∅ ps).
(** A pair whose second component is itself an encoding, read by [f]. *)
Definition nested {V} (f : bytes → outcome V) (x : bytes) : outcome V := b ← toBytes_strict x; f b.

(** ** Orders (objects.hpp) *)
Definition ex_order_streamRLP (o : ex_order) : bytes :=
  encode (Items [rlp_hash 32 (trxid o); rlp_hash 20 (sender o); rlp_int (price o); rlp_int (token_amount o);
                 rlp_int (source_amount o); rlp_time (create_time o);
                 rlp_unsigned (order_type_code (type o)); rlp_unsigned (order_token_code (token_type o));
                 rlp_unsigned (order_buy_code (buy_type o))]).
Definition ex_order_populate (b : bytes) : outcome ex_order :=
  d ← RLP b;
  t ← h256_at d 0; s ← addr_at d 1; p ← u256_at d 2; ta ← u256_at d 3; sa ← u256_at d 4; ct ← time_at d 5;
  ty ← u8_at d 6; tk ← u8_at d 7; bt ← u8_at d 8;
  Ok (mkExOrder t s p ta sa ct (order_type_of ty) (order_token_of tk) (order_buy_of bt)).

Definition result_order_streamRLP (r : result_order) : bytes :=
  encode (Items [rlp_hash 20 (r_sender r); rlp_hash 20 (r_acceptor r);
                 rlp_unsigned (order_type_code (r_type r)); rlp_unsigned (order_token_code (r_token_type r));
                 rlp_unsigned (order_buy_code (r_buy_type r)); rlp_time (r_create_time r);
                 rlp_hash 32 (r_send_trxid r); rlp_hash 32 (r_to_trxid r);
                 rlp_int (r_amount r); rlp_int (r_price r); rlp_int (r_old_price r)]).
Definition result_order_populate (b : bytes) : outcome result_order :=
  d ← RLP b;
  s ← addr_at d 0; a ← addr_at d 1; ty ← u8_at d 2; tk ← u8_at d 3; bt ← u8_at d 4; ct ← time_at d 5;
  st ← h256_at d 6; tt ← h256_at d 7; am ← u256_at d 8; p ← u256_at d 9; op ← u256_at d 10;
  Ok (mkResultOrder s a (order_type_of ty) (order_token_of tk) (order_buy_of bt) ct st tt am p op).

(** ** The records of an account *)
Definition PollData_streamRLP (p : PollData) : bytes :=
  encode (Items [rlp_hash 20 (m_addr p); rlp_int (m_poll p); rlp_time (m_time p)]).
Definition PollData_populate (b : bytes) : outcome PollData :=
  d ← RLP b; a ← addr_at d 0; p ← u256_at d 1; t ← time_at d 2; Ok (mkPoll a p t).

Definition rlp_uu (p : u256 * u256) : rlp_item := rlp_pair (rlp_int p.1) (rlp_int p.2).
(** [<rounds, <address, <a, b>>>], the shape of both "received" maps. *)
Definition received_items (m : gmap u256 (gmap Address (u256 * u256))) : list rlp_item :=
  (λ r, rlp_pair (rlp_int r.1) (rlp_out
     ((λ v, rlp_pair (rlp_hash 20 v.1) (rlp_out [rlp_int v.2.1; rlp_int v.2.2])) <$> map_iter r.2))) <$> map_iter m.
Definition two_ints (b : bytes) : outcome (u256 * u256) :=
  d ← RLP b; x ← int_at d 0; y ← int_at d 1; Ok (x, y).
Definition received_read (b : bytes) : outcome (gmap u256 (gmap Address (u256 * u256))) :=
  read_map as_u256 (nested (read_map as_addr (nested two_ints))) b.

Definition ReceivedCookies_streamRLP (r : ReceivedCookies) : bytes :=
  encode (Items [rlp_out (received_items (rc_received r)); rlp_int (rc_numberofRound r);
                 rlp_pair (rlp_int (rc_is_received r).1) (rlp_unsigned (if (rc_is_received r).2 then 1 else 0))]).
Definition ReceivedCookies_populate (b : bytes) : outcome ReceivedCookies :=
  d ← RLP b;
  rb ← bytes_at d 0; n ← int_at d 1;
  m ← received_read rb;
  x ← item d 2; p ← toPair as_u256 (toInt 1) x;
  Ok (mkReceived m n (p.1, negb (p.2 =? 0))).

Definition VoteSnapshot_streamRLP (v : VoteSnapshot) : bytes :=
  encode (Items [
    rlp_out ((λ r, rlp_pair (rlp_int r.1) (rlp_out
      ((λ p, rlp_pair (rlp_hash 20 p.1) (rlp_int p.2)) <$> map_iter r.2))) <$> map_iter (m_voteDataHistory v));
    rlp_out (rlp_uu <$> map_iter (m_pollNumHistory v));
    rlp_out (rlp_uu <$> map_iter (m_blockSummaryHistory v));
    rlp_int (numberofrounds v); rlp_int (m_latest_round v)]).
Definition VoteSnapshot_populate (b : bytes) : outcome VoteSnapshot :=
  d ← RLP b;
  vb ← bytes_at d 0; votes ← read_map as_u256 (nested (read_map as_addr as_u256)) vb;
  pb ← bytes_at d 1; polls ← read_map as_u256 as_u256 pb;
  bb ← bytes_at d 2; blocks ← read_map as_u256 as_u256 bb;
  n ← int_at d 3; l ← int_at d 4;
  Ok (mkSnapshot votes polls blocks n l).

Definition CouplingSystemfee_streamRLP (c : CouplingSystemfee) : bytes :=
  encode (Items [
    rlp_out ((λ r, rlp_pair (rlp_int r.1) (rlp_out [rlp_int r.2.1; rlp_int r.2.2])) <$> map_iter (m_Feesnapshot c));
    rlp_int (m_rounds c); rlp_int (m_numofrounds c);
    rlp_out ((λ r, rlp_pair (rlp_int r.1) (rlp_out ((λ p, rlp_bytes (PollData_streamRLP p)) <$> r.2)))
               <$> map_iter (m_sorted_creaters c));
    rlp_out (received_items (cf_received_cookies c));
    rlp_uu (m_total_summary c)]).
Definition polls_read (b : bytes) : outcome (list PollData) :=
  d ← RLP b; l ← toVector toBytes d; mapO PollData_populate l.
Definition CouplingSystemfee_unstreamRLP (b : bytes) : outcome CouplingSystemfee :=
  d ← RLP b;
  fb ← bytes_at d 0; fees ← read_map as_u256 (nested two_ints) fb;
  r ← int_at d 1; n ← int_at d 2;
  sb ← bytes_at d 3; sorted ← read_map as_u256 (nested polls_read) sb;
  rb ← bytes_at d 4; received ← received_read rb;
  x ← item d 5; total ← toPair as_u256 as_u256 x;
  Ok (mkFee fees sorted r n received total).

Definition BlockRecord_streamRLP (m : gmap Address int64) : bytes :=
  encode (Items [rlp_out ((λ p, rlp_pair (rlp_hash 20 p.1) (rlp_time p.2)) <$> map_iter m)]).
Definition BlockRecord_populate (b : bytes) : outcome (gmap Address int64) :=
  d ← RLP b; tb ← bytes_at d 0; m ← read_map as_addr as_u256 tb; Ok (fmap (M := gmap Z) int64_of m).

Definition getStreamRLPExOrder (l : list ex_order) : bytes :=
  encode (Items ((λ o, rlp_bytes (ex_order_streamRLP o)) <$> index key_trx_id l)).
Definition initExOrder (b : bytes) : outcome (list ex_order) :=
  d ← RLP b; l ← rlp_list d;
  os ← mapO (λ x, v ← RLP x; y ← toBytes v; ex_order_populate y) l;
  Ok (foldl (λ m o, multi_insert o m) [] os).
Definition getStreamRLPResultOrder (l : list result_order) : bytes :=
  encode (Items ((λ o, rlp_bytes (result_order_streamRLP o)) <$> index key_r_time l)).
Definition initResultOrder (b : bytes) : outcome (list result_order) :=
  d ← RLP b; l ← rlp_list d;
  os ← mapO (λ x, v ← RLP x; y ← toBytes v; result_order_populate y) l;
  Ok (foldl (λ m o, result_insert o m) [] os).
Definition getStreamRLPGasPrice (m : gmap Address u256) : bytes :=
  encode (Items ((λ p, rlp_pair (rlp_hash 20 p.1) (rlp_int p.2)) <$> map_iter m)).
Definition initGasPrice (b : bytes) : outcome (gmap Address u256) := read_map as_addr as_u256 b.
Definition getRLPStreamChangeMiner (p : Address * Address) : bytes :=
  if bool_decide (p.1 = 0) then encode (Items [rlp_bytes []])
  else encode (Items [rlp_hash 20 p.1; rlp_hash 20 p.2]).
Definition populateChangeMiner (b : bytes) : outcome (Address * Address) :=
  d ← RLP b; n ← itemCount d;
  if n =? 2 then x ← addr_at d 0; y ← addr_at d 1; Ok (x, y) else Ok (0, 0).

Definition blockReward_stream (l : list (u256 * u256)) : bytes :=
  encode (Items (rlp_unsigned (len l) :: (rlp_uu <$> l))).
Fixpoint reward_items (d : bytes) (k n : nat) : outcome (list (u256 * u256)) :=
  match n with
  | O => Ok []
  | S n => x ← item d k; p ← toPair as_u256 as_u256 x; ps ← reward_items d (S k) n; Ok (p :: ps)
  end.
Definition blockReward_read (b : bytes) : outcome (list (u256 * u256)) :=
  d ← RLP b; x ← item d 0; num ← toInt 8 x; reward_items d 1 (Z.to_nat num).

(** ** The account *)
Section Codec.
Context `{CR : Crypto, CF : Config}.

(** The fields [dev::brc::commit] writes at [_block_number]. *)
Definition account_items (_block_number : int64) (root : h256) (x : Account) : list rlp_item :=
  let commitBlockNumber := _block_number + 1 in
  [rlp_int (m_nonce x); rlp_int (m_balance x); rlp_hash 32 root; rlp_hash 32 (m_codeHash x);
   rlp_int (m_ballot x); rlp_int (a_poll x);
   Items ((λ p, rlp_bytes (PollData_streamRLP p)) <$> m_vote_data x);
   rlp_int (m_BRC x); rlp_int (m_FBRC x); rlp_int (m_FBalance x);
   rlp_bytes (blockReward_stream (m_BlockReward x));
   Items (rlp_bytes <$> m_willChangeList x);
   rlp_int (m_CooikeIncomeNum x);
   rlp_bytes (VoteSnapshot_streamRLP (m_vote_sapshot x));
   rlp_bytes (CouplingSystemfee_streamRLP (m_couplingSystemFee x));
   rlp_bytes (BlockRecord_streamRLP (m_block_records x));
   rlp_bytes (ReceivedCookies_streamRLP (m_received_cookies x));
   rlp_bytes (getStreamRLPResultOrder (m_successExchange x));
   rlp_bytes (getStreamRLPExOrder (m_exChangeOrder x))]
  ++ (if newChangeHeight <=? _block_number
      then [rlp_bytes (getRLPStreamChangeMiner (m_mappingAddress x))] else [])
  ++ (if gasPriceHeight <=? commitBlockNumber
      then [rlp_bytes (getStreamRLPGasPrice (m_minerGasPrice x))] else []).
Definition account_encode (_block_number : int64) (root : h256) (x : Account) : bytes :=
  encode (Items (account_items _block_number root x)).

(** What [State::account] builds from [state], before the final [untouch()]. *)
Definition account_decode (m_block_number m_curr_number : int64) (b : bytes) : outcome Account :=
  d ← RLP b;
  vs ← (x ← item d 6; toVector toBytes x); _vote ← mapO PollData_populate vs;
  rb ← bytes_at d 10; _blockReward ← blockReward_read rb;
  nonce ← int_at d 0; bal ← int_at d 1; root ← hash_at d 2; ch ← hash_at d 3;
  blt ← int_at d 4; pl ← int_at d 5; brc ← int_at d 7; fbrc ← int_at d 8; fbal ← int_at d 9;
  tmp ← (x ← item d 11; toVector toBytes x);
  ck ← int_at d 12;
  sb ← bytes_at d 13; snap ← VoteSnapshot_populate sb;
  fb ← bytes_at d 14; fee ← CouplingSystemfee_unstreamRLP fb;
  recb ← bytes_at d 15; rec ← BlockRecord_populate recb;
  cb ← bytes_at d 16; rcv ← ReceivedCookies_populate cb;
  ob ← bytes_at d 17; res ← initResultOrder ob;
  eb ← bytes_at d 18; exo ← initExOrder eb;
  n ← itemCount d;
  map ← (if (newChangeHeight <=? m_block_number) && (19 <? n)
         then mb ← bytes_at d 19; populateChangeMiner mb else Ok (0, 0));
  gp ← (if (gasPriceHeight <=? m_curr_number) && (20 <? n)
        then gb ← bytes_at d 20; initGasPrice gb else Ok ∅);
  Ok (mkAccount true false false nonce bal root ch blt pl brc fbrc fbal ck tmp _vote snap fee rcv
        _blockReward res exo ∅ ∅ [] rec map gp).

#[export] Instance account_codec : AccountCodec :=
  {| encode_account := account_encode;
     decode_account := λ n c b, match account_decode n c b with Ok x => Some x | _ => None end |}.
End Codec.
