(* ===== verification/Transaction.v ===== *)
(** * Signed transactions (libbrccore/TransactionBase.cpp, TransactionBase.h)

    The fields of a transaction, the RLP a node receives and sends, the hash that is
    signed, the sender recovered from the signature and the gas a transaction costs
    before anything is executed. *)
From stdpp Require Import base gmap list.
From Stdlib Require Import ZArith Lia.
From S2P Require Import Prelude Rlp Config Interfaces Codec.
Open Scope Z_scope.

(** [TransactionBase::Type] *)
Inductive TxType := NullTransaction | ContractCreation | MessageCall | VoteMassage.
#[export] Instance TxType_eq_dec : EqDecision TxType.
Proof. solve_decision. Defined.

Record SignatureStruct := mkSig { sig_r : u256; sig_s : u256; sig_v : Z }.

(** [t_sender] is the cached sender; 0 when it is not known yet. *)
Record Transaction := mkTx {
  t_type : TxType;
  t_nonce : u256;
  t_value : u256;
  t_receiveAddress : Address;
  t_gasPrice : u256;
  t_gas : u256;
  t_data : bytes;
  t_vrs : option SignatureStruct;
  t_chainId : Z;
  t_sender : Address }.

#[export] Instance SignatureStruct_eq_dec : EqDecision SignatureStruct.
Proof. solve_decision. Defined.
#[export] Instance Transaction_eq_dec : EqDecision Transaction.
Proof. solve_decision. Defined.

(** [BRCSchedule]: the fields the executive reads. *)
Record BRCSchedule := mkSchedule {
  exceptionalFailedCodeDeposit : bool;
  suicideRefundGas : Z; createDataGas : Z;
  txGas : Z; txCreateGas : Z; txDataZeroGas : Z; txDataNonZeroGas : Z;
  maxCodeSize : Z }.
Definition HomesteadSchedule : BRCSchedule := mkSchedule true 24000 200 21000 53000 4 68 (2 ^ 32 - 1).
Definition EIP158Schedule : BRCSchedule := mkSchedule true 24000 200 21000 53000 4 68 0x6000.

Definition isZeroSignature (r s : u256) : bool := (r =? 0) && (s =? 0).
Definition hasZeroSignature (t : Transaction) : bool :=
  match t_vrs t with Some g => isZeroSignature (sig_r g) (sig_s g) | None => false end.
Definition isCreation (t : Transaction) : bool := bool_decide (t_type t = ContractCreation).
Definition isVoteTranction (t : Transaction) : bool := bool_decide (t_receiveAddress t = VoteAddress).
Definition isReplayProtected (t : Transaction) : bool := bool_decide (t_chainId t ≠ -4).

(** [SignatureStruct::isValid] *)
Definition c_secp256k1n : Z := 0xfffffffffffffffffffffffffffffffebaaedce6af48a03bbfd25e8cd0364141.
Definition sig_isValid (g : SignatureStruct) : bool :=
  (sig_v g <=? 1) && (0 <? sig_r g) && (0 <? sig_s g) && (sig_r g <? c_secp256k1n) && (sig_s g <? c_secp256k1n).
Definition checkLowS (t : Transaction) : outcome unit :=
  match t_vrs t with
  | None => Throw TransactionIsUnsigned
  | Some g => if c_secp256k1n / 2 <? sig_s g then Throw InvalidSignature else Ok tt
  end.
Definition checkChainId (chainId : Z) (t : Transaction) : outcome unit :=
  if bool_decide (t_chainId t ≠ chainId) then Throw InvalidSignature else Ok tt.

Definition baseGasRequired (_contractCreation : bool) (_data : bytes) (_es : BRCSchedule) : int64 :=
  foldl (λ g i, g + (if i =? 0 then txDataZeroGas _es else txDataNonZeroGas _es))
    (if _contractCreation then txCreateGas _es else txGas _es) _data.

(** ** RLP *)

(** The items [streamRLP] appends for a transaction that is not null. *)
Definition signature_items (_sig _forEip155hash : bool) (t : Transaction) : outcome (list rlp_item) :=
  if _sig then
    match t_vrs t with
    | None => Throw TransactionIsUnsigned
    | Some g =>
        Ok [rlp_unsigned (if hasZeroSignature t then t_chainId t else t_chainId t * 2 + 35 + sig_v g);
            rlp_int (sig_r g); rlp_int (sig_s g)]
    end
  else if _forEip155hash then Ok [rlp_unsigned (t_chainId t); rlp_unsigned 0; rlp_unsigned 0]
  else Ok [].
Definition transaction_items (_sig _forEip155hash : bool) (t : Transaction) : outcome (list rlp_item) :=
  g ← signature_items _sig _forEip155hash t;
  Ok ([rlp_int (t_nonce t); rlp_int (t_gasPrice t); rlp_int (t_gas t);
       match t_type t with
       | MessageCall | VoteMassage => rlp_hash 20 (t_receiveAddress t)
       | _ => rlp_bytes []
       end;
       rlp_int (t_value t); rlp_bytes (t_data t)] ++ g).
Definition transaction_streamRLP (_sig _forEip155hash : bool) (t : Transaction) : outcome bytes :=
  if bool_decide (t_type t = NullTransaction) then Ok []
  else l ← transaction_items _sig _forEip155hash t; Ok (encode (Items l)).

(** [toHash<Address>(VeryStrict)], [toInt<int>()]. *)
Definition toAddress_strict : bytes → outcome Address := toHash_strict 20.
Definition int32_of (z : Z) : Z := if z <? 2 ^ 31 then z else z - 2 ^ 32.

(** The chain id and the signature behind the three last fields. *)
Definition read_signature (check : bool) (v : Z) (r s : u256) : outcome (Z * SignatureStruct) :=
  if isZeroSignature r s then Ok (v, mkSig r s 0)
  else
    chainId ← (if 36 <? v then Ok ((v - 35) / 2)
               else if (v =? 35) || (v =? 36) then Ok 0
               else Throw InvalidSignature);
    let g := mkSig r s ((v - (chainId * 2 + 35)) mod 256) in
    if check && negb (sig_isValid g) then Throw InvalidSignature else Ok (chainId, g).

(** [CheckTransaction] *)
Inductive CheckTransaction := CheckNone | CheckCheap | CheckEverything.
#[export] Instance CheckTransaction_eq_dec : EqDecision CheckTransaction.
Proof. solve_decision. Defined.

Section Transaction.
Context `{CR : Crypto}.

Definition right160 (h : h256) : Address := h mod 2 ^ 160.

(** [sha3(WithoutSignature)] and [sha3(WithSignature)]. *)
Definition transaction_sha3 (_sig : bool) (t : Transaction) : outcome h256 :=
  b ← transaction_streamRLP _sig ((0 <? t_chainId t) && negb _sig) t; Ok (sha3 b).

Definition sender (t : Transaction) : outcome Address :=
  if bool_decide (t_sender t ≠ 0) then Ok (t_sender t)
  else if hasZeroSignature t then Ok MaxAddress
  else
    match t_vrs t with
    | None => Throw TransactionIsUnsigned
    | Some g =>
        h_sha3 ← transaction_sha3 false t;
        let p := recover (sig_r g) (sig_s g) (sig_v g) h_sha3 in
        if p =? 0 then Throw InvalidSignature else Ok (right160 (sha3 (toBE_n 64 p)))
    end.

(** The constructor from RLP. *)
Definition transaction_of_rlp (_checkSig : CheckTransaction) (_rlpData : bytes) : outcome Transaction :=
  rlp ← RLP _rlpData;
  if negb (isList rlp) then Throw InvalidTransactionFormat
  else
    let int_field w i := x ← item rlp i; toInt w x in
    nonce ← int_field 32 0%nat;
    gasPrice ← int_field 32 1%nat;
    gas ← int_field 32 2%nat;
    x3 ← item rlp 3;
    receiveAddress ← (if rlp_isEmpty x3 then Ok 0 else toAddress_strict x3);
    let type := if rlp_isEmpty x3 then ContractCreation
                else if bool_decide (receiveAddress = VoteAddress) then VoteMassage else MessageCall in
    value ← int_field 32 4%nat;
    x5 ← item rlp 5;
    if negb (isData x5) then Throw InvalidTransactionFormat
    else
      data ← toBytes x5;
      v ← int_field 4 6%nat;
      r ← int_field 32 7%nat;
      s ← int_field 32 8%nat;
      sig ← read_signature (negb (bool_decide (_checkSig = CheckNone))) (int32_of v) r s;
      let t := mkTx type nonce value receiveAddress gasPrice gas data (Some sig.2) sig.1 0 in
      t ← (if bool_decide (_checkSig = CheckEverything) then
             a ← sender t;
             Ok (mkTx type nonce value receiveAddress gasPrice gas data (Some sig.2) sig.1 a)
           else Ok t);
      n ← itemCount rlp;
      if 9 <? n then Throw InvalidTransactionFormat else Ok t.
End Transaction.
