(* ===== verification/CodecProofs.v ===== *)
(** * What a node writes is what it reads back

    Round trips of the operations of a transaction, of the records an account
    carries and of the account itself: sizes are bounded once, for the outermost
    item ([fits]), and the bound is passed down to the items inside it. *)
From stdpp Require Import base gmap list sorting.
From Stdlib Require Import ZArith Lia.
From S2P Require Import Prelude Rlp RlpProofs Config Objects Interfaces Account ChainState Operations Codec.
Open Scope Z_scope.

(** ** Sizes *)
Definition fits (x : rlp_item) : Prop := len (encode x) < SIZE_MAX - 0x100.
(** Well formed as soon as it is small enough. *)
Definition good (x : rlp_item) : Prop := fits x → item_ok x.

Lemma fits_items l : fits (Items l) → Forall fits l.
Proof.
  unfold fits at 1. rewrite length_encode_items. intros H.
  assert (len (concat (encode <$> l)) < SIZE_MAX - 0x100) as Hl by lia. clear H.
  induction l as [|x l IH]; [constructor|]. cbn in Hl. rewrite length_app in Hl.
  constructor; [unfold fits; lia|]. apply IH. lia.
Qed.
Lemma fits_data b : fits (Data b) → len b < SIZE_MAX - 0x100.
Proof.
  unfold fits. cbn [encode]. destruct (encode_data_cases b) as [(x&->&_&E)|[E _]]; rewrite E.
  - done.
  - rewrite length_app. lia.
Qed.

Lemma good_items l : Forall good l → good (Items l).
Proof.
  intros Hg Hf. split; [|done]. apply item_bytes_items. apply fits_items in Hf.
  rewrite Forall_forall in *. intros x Hx. by apply Hg; [|apply Hf].
Qed.
Lemma good_out l : good (Items l) → good (rlp_out l).
Proof.
  intros Hg Hf. split; [|done]. apply encode_bytes, Hg. by apply fits_data in Hf.
Qed.
Lemma good_nested x : good x → good (rlp_bytes (encode x)).
Proof. intros Hg Hf. split; [|done]. apply encode_bytes, Hg. by apply fits_data in Hf. Qed.
Lemma good_bytes b : Forall is_byte b → good (rlp_bytes b).
Proof. intros Hb Hf. by split. Qed.
Lemma good_int i : in256 i → good (rlp_int i).
Proof. intros Hi _. by apply item_ok_int. Qed.
Lemma good_hash n h : (n < 56)%nat → good (rlp_hash n h).
Proof. intros Hn _. by apply item_ok_hash. Qed.
Lemma good_pair x y : good x → good y → good (rlp_pair x y).
Proof. intros Hx Hy. apply good_items. by rewrite !Forall_cons, Forall_nil. Qed.
Lemma good_unsigned i : good (rlp_unsigned i).
Proof.
  apply good_int. unfold in256, M256. pose proof (Z.mod_pos_bound i (2 ^ 32)). lia.
Qed.
Lemma good_time t : good (rlp_time t).
Proof. apply good_int, w256_in. Qed.

(** The encoding inside a byte string is itself well formed. *)
Lemma nested_ok x : good x → item_ok (rlp_bytes (encode x)) → item_ok x.
Proof. intros Hg [_ Hf]. apply Hg. by apply fits_data in Hf. Qed.

Create HintDb codec.
#[export] Hint Resolve good_int good_unsigned good_time good_pair good_nested good_items good_out : codec.
#[export] Hint Extern 1 (good (rlp_hash _ _)) => apply good_hash; lia : codec.
#[export] Hint Extern 2 (Forall good (_ :: _)) => constructor : codec.
#[export] Hint Extern 2 (Forall good []) => constructor : codec.

(** ** Ranges *)
Definition is_addr (a : Z) : Prop := 0 <= a < 2 ^ 160.
Definition is_int64 (t : Z) : Prop := - 2 ^ 63 <= t < 2 ^ 63.
Definition is_time (t : Z) : Prop := 0 <= t < 2 ^ 63.
Definition is_u8 (n : Z) : Prop := 0 <= n < 256.

Lemma int64_of_time t : is_time t → int64_of (w256 t) = t.
Proof. unfold is_time, int64_of, INT64_MAX, w256, M256. intros Ht. rewrite Z.mod_small by lia. lia. Qed.

(** ** Fields of a list *)
Section Fields.
Context (l : list rlp_item) (Hl : item_ok (Items l)).
Abbreviation d := (encode (Items l)).

Lemma u256_at_ok i n : l !! i = Some (rlp_int n) → in256 n → u256_at d i = Ok n.
Proof.
  intros Hi Hn. unfold u256_at. rewrite (item_lookup _ _ _ Hl Hi). cbn [mbind outcome_bind].
  by apply toInt_lax_ok.
Qed.
Lemma int_at_ok i n : l !! i = Some (rlp_int n) → in256 n → int_at d i = Ok n.
Proof.
  intros Hi Hn. unfold int_at. rewrite (item_lookup _ _ _ Hl Hi). cbn [mbind outcome_bind].
  by apply (toInt_ok n 32).
Qed.
Lemma u8_at_ok i n : l !! i = Some (rlp_unsigned n) → is_u8 n → u8_at d i = Ok n.
Proof.
  unfold is_u8. intros Hi Hn. unfold u8_at. rewrite (item_lookup _ _ _ Hl Hi). cbn [mbind outcome_bind].
  unfold rlp_unsigned. rewrite Z.mod_small by lia. apply toInt_lax_ok; unfold in256, M256; lia.
Qed.
Lemma addr_at_ok i a : l !! i = Some (rlp_hash 20 a) → is_addr a → addr_at d i = Ok a.
Proof.
  intros Hi Ha. unfold addr_at. rewrite (item_lookup _ _ _ Hl Hi). cbn [mbind outcome_bind].
  apply (toHash_lax_ok 20); [lia|exact Ha].
Qed.
Lemma h256_at_ok i a : l !! i = Some (rlp_hash 32 a) → in256 a → h256_at d i = Ok a.
Proof.
  intros Hi Ha. unfold h256_at. rewrite (item_lookup _ _ _ Hl Hi). cbn [mbind outcome_bind].
  apply (toHash_lax_ok 32); [lia|exact Ha].
Qed.
Lemma hash_at_ok i a : l !! i = Some (rlp_hash 32 a) → in256 a → hash_at d i = Ok a.
Proof.
  intros Hi Ha. unfold hash_at. rewrite (item_lookup _ _ _ Hl Hi). cbn [mbind outcome_bind].
  apply (toHash_ok 32); [lia|exact Ha].
Qed.
Lemma time_at_ok i t : l !! i = Some (rlp_time t) → is_time t → time_at d i = Ok t.
Proof.
  intros Hi Ht. unfold time_at. rewrite (u256_at_ok _ _ Hi (w256_in t)). cbn.
  by rewrite int64_of_time.
Qed.
Lemma field_ok i x : l !! i = Some x → item_ok x.
Proof. intros Hi. apply item_ok_items in Hl. rewrite Forall_lookup in Hl. eauto. Qed.
Lemma bytes_at_ok i b : l !! i = Some (rlp_bytes b) → bytes_at d i = Ok b.
Proof.
  intros Hi. unfold bytes_at. rewrite (item_lookup _ _ _ Hl Hi). cbn [mbind outcome_bind].
  apply toBytes_ok. by eapply field_ok.
Qed.
End Fields.

(** Reads the fields of a list one after the other. *)
Ltac read_field :=
  first [ erewrite u256_at_ok; [|eassumption|reflexivity|assumption]
        | erewrite int_at_ok; [|eassumption|reflexivity|assumption]
        | erewrite u8_at_ok; [|eassumption|reflexivity|assumption]
        | erewrite addr_at_ok; [|eassumption|reflexivity|assumption]
        | erewrite h256_at_ok; [|eassumption|reflexivity|assumption]
        | erewrite hash_at_ok; [|eassumption|reflexivity|assumption]
        | erewrite time_at_ok; [|eassumption|reflexivity|assumption]
        | erewrite bytes_at_ok; [|eassumption|reflexivity]
        | erewrite item_lookup; [|eassumption|reflexivity] ];
  cbn [mbind outcome_bind].
Ltac read_rlp := rewrite RLP_ok by assumption; cbn [mbind outcome_bind].

(** ** Operations of a transaction *)
Definition type_ok (t : order_type) : Prop := order_type_of (order_type_code t) = t ∧ is_u8 (order_type_code t).
Definition token_ok (t : order_token_type) : Prop := order_token_of (order_token_code t) = t ∧ is_u8 (order_token_code t).
Definition buy_ok (t : order_buy_type) : Prop := order_buy_of (order_buy_code t) = t ∧ is_u8 (order_buy_code t).

(** A list of a few integers and hashes always fits. *)
Definition short_item (x : rlp_item) : Prop := item_ok x ∧ len (encode x) <= 64.
Lemma short_data b : Forall is_byte b → (length b <= 32)%nat → short_item (Data b).
Proof.
  intros Hb Hl. split; [apply item_ok_small; [done|lia]|]. cbn [encode].
  destruct (encode_data_cases b) as [(x&->&_&E)|[E _]]; rewrite E; [done|].
  unfold header. zcases. rewrite length_app. cbn [length]. lia.
Qed.
Lemma short_int i : in256 i → short_item (rlp_int i).
Proof.
  unfold in256, M256. intros Hi. apply short_data; [apply toBE_bytes; lia|]. apply (toBE_len i 32). lia.
Qed.
Lemma short_unsigned i : short_item (rlp_unsigned i).
Proof. apply short_int. unfold in256, M256. pose proof (Z.mod_pos_bound i (2 ^ 32)). lia. Qed.
Lemma short_hash n h : (n <= 32)%nat → short_item (rlp_hash n h).
Proof. intros Hn. apply short_data; [apply toBE_n_bytes|by rewrite length_toBE_n]. Qed.
Lemma short_list l : Forall short_item l → (length l <= 100)%nat → item_ok (Items l).
Proof.
  intros Hl Hn. assert (len (concat (encode <$> l)) <= 64 * len l) as Hs.
  { clear Hn. induction Hl as [|x l [_ Hx] _ IH]; [done|]. cbn. rewrite length_app. lia. }
  split.
  - apply item_bytes_items. eapply Forall_impl; [exact Hl|]. by intros x [[? _] _].
  - rewrite length_encode_items. unfold header. zcases; cbn [length]; unfold SIZE_MAX; [lia|].
    pose proof (bytesRequired_bounds (len (concat (encode <$> l)))) as Hb.
    unfold bytesRequired, SIZE_MAX in Hb. lia.
Qed.
#[export] Hint Resolve short_int short_unsigned : codec.
#[export] Hint Extern 1 (short_item (rlp_hash _ _)) => apply short_hash; lia : codec.

Definition op_wf (o : operation) : Prop :=
  match o with
  | OpVote o => is_u8 (vo_type o) ∧ is_addr (vo_from o) ∧ is_addr (vo_to o) ∧ is_u8 (m_vote_type o) ∧ in256 (m_vote_numbers o)
  | OpTranscation o =>
      is_u8 (to_type o) ∧ is_addr (to_from o) ∧ is_addr (to_to o) ∧ is_u8 (m_Transcation_type o)
      ∧ in256 (m_Transcation_numbers o)
  | OpChangeMiner o => is_u8 (cm_type o) ∧ is_addr (m_before o) ∧ is_addr (m_after o)
  | OpPendingOrder o =>
      is_u8 (po_type o) ∧ is_addr (po_from o) ∧ type_ok (m_Pendingorder_type o)
      ∧ token_ok (m_Pendingorder_Token_type o) ∧ buy_ok (m_Pendingorder_buy_type o)
      ∧ in256 (m_Pendingorder_num o) ∧ in256 (m_Pendingorder_price o)
  | OpCancelPendingOrder o => is_u8 (cp_type o) ∧ is_u8 (m_cancelType o) ∧ in256 (m_hash o)
  | OpContract o => item_ok (Items [rlp_bytes (m_date o)])
  | OpReceivingIncome o => is_u8 (ri_type o) ∧ is_u8 (m_receivingType o) ∧ is_addr (ri_from o)
  | OpTransferAutoEx o =>
      is_u8 (ae_type o) ∧ is_u8 (m_autoExType o) ∧ in256 (m_autoExNum o) ∧ in256 (m_transferNum o)
      ∧ is_addr (ae_from o) ∧ is_addr (ae_to o)
  | OpModifyGasPrice o => is_u8 (gp_type o) ∧ is_addr (m_proposer o) ∧ in256 (m_proposedAmount o)
  end.

(** The items of a short record, and then its fields. *)
Ltac short_record l :=
  let H := fresh "Hok" in
  assert (item_ok (Items l)) as H
    by (apply short_list; [repeat (apply Forall_cons; split); [eauto with codec..|constructor]|cbn; lia]);
  read_rlp; repeat read_field.

Ltac op_round_trip :=
  match goal with |- context [Items ?l] => short_record l end.

(** Reading with the constructor of the same struct. *)
Definition unserialize_as (o : operation) (b : bytes) : outcome operation :=
  match o with
  | OpVote _ => x ← unserialize_vote b; Ok (OpVote x)
  | OpTranscation _ => x ← unserialize_transcation b; Ok (OpTranscation x)
  | OpChangeMiner _ => x ← unserialize_changeMiner b; Ok (OpChangeMiner x)
  | OpPendingOrder _ => x ← unserialize_pendingorder b; Ok (OpPendingOrder x)
  | OpCancelPendingOrder _ => x ← unserialize_cancel b; Ok (OpCancelPendingOrder x)
  | OpContract _ => x ← unserialize_contract b; Ok (OpContract x)
  | OpReceivingIncome _ => x ← unserialize_receivingincome b; Ok (OpReceivingIncome x)
  | OpTransferAutoEx _ => x ← unserialize_transferAutoEx b; Ok (OpTransferAutoEx x)
  | OpModifyGasPrice _ => x ← unserialize_gasprice b; Ok (OpModifyGasPrice x)
  end.

Lemma unserialize_serialize o : op_wf o → unserialize_as o (serialize o) = Ok o.
Proof.
  destruct o as [o|o|o|o|o|o|o|o|o]; cbn [op_wf unserialize_as serialize].
  1: intros (?&?&?&?&?); unfold unserialize_vote, serialize_vote.
  2: intros (?&?&?&?&?); unfold unserialize_transcation, serialize_transcation.
  3: intros (?&?&?); unfold unserialize_changeMiner, serialize_changeMiner.
  4: intros (?&?&[Ht ?]&[Hk ?]&[Hb ?]&?&?); unfold unserialize_pendingorder, serialize_pendingorder.
  5: intros (?&?&?); unfold unserialize_cancel, serialize_cancel.
  6: intros ?; unfold unserialize_contract, serialize_contract.
  7: intros (?&?&?); unfold unserialize_receivingincome, serialize_receivingincome.
  8: intros (?&?&?&?&?&?); unfold unserialize_transferAutoEx, serialize_transferAutoEx.
  9: intros (?&?&?); unfold unserialize_gasprice, serialize_gasprice.
  6: read_rlp; repeat read_field; by destruct o.
  all: op_round_trip; try rewrite Ht, Hk, Hb; by destruct o.
Qed.

(** The code a struct is sent under, and the value of its [m_type] field. *)
Definition op_code (o : operation) : Z :=
  match o with
  | OpVote _ => op_vote | OpTranscation _ => op_brcTranscation | OpChangeMiner _ => op_changeMiner
  | OpPendingOrder _ => op_pendingOrder | OpCancelPendingOrder _ => op_cancelPendingOrder
  | OpContract _ => op_deployContract | OpReceivingIncome _ => op_receivingincome
  | OpTransferAutoEx _ => op_transferAutoEx | OpModifyGasPrice _ => op_modifyMinerGasPrice
  end.
Definition op_field (o : operation) : Z :=
  match o with
  | OpVote o => vo_type o | OpTranscation o => to_type o | OpChangeMiner o => cm_type o
  | OpPendingOrder o => po_type o | OpCancelPendingOrder o => cp_type o
  | OpContract _ => op_null | OpReceivingIncome o => ri_type o
  | OpTransferAutoEx o => ae_type o | OpModifyGasPrice o => gp_type o
  end.

(** Everything but a contract's data starts with its type. *)
Lemma serialize_items o :
  op_wf o → (∀ c, o ≠ OpContract c) →
  ∃ l, serialize o = encode (Items (rlp_unsigned (op_field o) :: l)) ∧ item_ok (Items (rlp_unsigned (op_field o) :: l)).
Proof.
  intros Hw Hc. destruct o; [..|by destruct (Hc o)| | |]; eexists; (split; [reflexivity|]).
  all: cbn in Hw; destruct_and?; apply short_list; [|cbn; lia];
    repeat (apply Forall_cons; split); [eauto with codec..|constructor].
Qed.

Lemma get_type_serialize o :
  op_wf o → (∀ c, o ≠ OpContract c) → is_u8 (op_field o) → get_type (serialize o) = op_field o.
Proof.
  intros Hw Hc Hu. destruct (serialize_items o Hw Hc) as (l&->&Ho). unfold get_type.
  rewrite RLP_ok by done. cbn [mbind outcome_bind]. rewrite (item_lookup _ 0 _ Ho eq_refl).
  cbn [mbind outcome_bind]. unfold rlp_unsigned, is_u8 in *. rewrite Z.mod_small by lia.
  rewrite (toInt_ok _ 1); [done|lia|unfold in256, M256; lia].
Qed.

Lemma parse_unserialize o b :
  (∀ c, o ≠ OpContract c) → parse_operation (op_code o) b = unserialize_as o b.
Proof. intros Hc. destruct o; try done. by destruct (Hc o). Qed.

Lemma parse_serialize o :
  op_wf o → (∀ c, o ≠ OpContract c) → op_field o = op_code o →
  parse_operation (get_type (serialize o)) (serialize o) = Ok o.
Proof.
  intros Hw Hc He. rewrite get_type_serialize; [|done..|rewrite He; by destruct o].
  rewrite He, parse_unserialize by done. by apply unserialize_serialize.
Qed.

(** Reading a vector of byte strings. *)
Lemma byte_vector_ok {A} (f : A → bytes) l :
  item_ok (Items ((λ x, rlp_bytes (f x)) <$> l)) →
  toVector toBytes (encode (Items ((λ x, rlp_bytes (f x)) <$> l))) = Ok (f <$> l).
Proof.
  intros Ho. assert ((λ x, rlp_bytes (f x)) <$> l = rlp_bytes <$> (f <$> l)) as E by (by rewrite <-list_fmap_compose).
  rewrite E in *. apply toVector_ok; [done|]. apply Forall_forall. intros b _ Hb. by apply toBytes_ok.
Qed.
Lemma good_stored {A} (f : A → bytes) l : Forall (λ x, good (rlp_bytes (f x))) l → good (Items ((λ x, rlp_bytes (f x)) <$> l)).
Proof. intros Hl. apply good_items. by rewrite Forall_fmap. Qed.

(** A batch is a list of byte strings that hold the serialised operations. *)
Lemma good_serialize o : op_wf o → good (rlp_bytes (serialize o)).
Proof.
  intros Hw. destruct o as [| | | | |c| | |]; [..|by apply good_nested; intros _| | |].
  all: edestruct serialize_items as (l&->&Ho); [exact Hw|done|]; apply good_nested; by intros _.
Qed.
Lemma batch_data_vector ops :
  Forall op_wf ops → fits (Items ((λ o, rlp_bytes (serialize o)) <$> ops)) →
  (RLP (batch_data ops) ≫= toVector toBytes) = Ok (serialize <$> ops).
Proof.
  intros Hw Hf. apply good_stored in Hf; [|eapply Forall_impl; [exact Hw|]; apply good_serialize].
  unfold batch_data. read_rlp. by apply byte_vector_ok.
Qed.

(** ** Maps *)
Lemma reads_u256 n : in256 n → reads_back rlp_int as_u256 n.
Proof. intros Hn _. by apply (toInt_ok n 32). Qed.
Lemma reads_addr a : is_addr a → reads_back (rlp_hash 20) as_addr a.
Proof. intros Ha _. apply (toHash_ok 20); [lia|exact Ha]. Qed.
(** A value whose encoding is stored as a byte string. *)
Lemma reads_nested {A} (items : A → list rlp_item) f x :
  good (Items (items x)) → (item_ok (Items (items x)) → f (encode (Items (items x))) = Ok x) →
  reads_back (λ x, rlp_out (items x)) (nested f) x.
Proof.
  intros Hg Hf Ho. unfold nested, rlp_out in *. rewrite toBytes_strict_ok by done. cbn [mbind outcome_bind].
  apply Hf. by eapply nested_ok.
Qed.

(** Inserting the pairs of an iteration one by one rebuilds the map. *)
Lemma foldl_insert_list {V} (l : list (Z * V)) (m : gmap Z V) :
  l ≡ₚ map_to_list m → foldl (λ m p, <[p.1 := p.2]> m) ∅ l = m.
Proof.
  intros Hl. assert (NoDup l.*1) as Hn by (rewrite Hl; apply NoDup_fst_map_to_list).
  assert (∀ acc : gmap Z V, foldl (λ m p, <[p.1 := p.2]> m) acc l = list_to_map l ∪ acc) as ->.
  { clear Hl. induction l as [|[k v] l IH]; intros acc; csimpl in *; [by rewrite (left_id ∅ (∪))|].
    apply NoDup_cons in Hn as [Hk Hn]. rewrite IH by done.
    apply not_elem_of_list_to_map_1 in Hk. rewrite <-insert_union_r by done. by rewrite insert_union_l. }
  rewrite (right_id ∅ (∪)). rewrite <-(list_to_map_to_list m). by apply list_to_map_proper.
Qed.

Lemma read_map_gen {V W} (ek : Z → rlp_item) (ev : V → rlp_item) ck (cv : bytes → outcome W) (h : V → W) (m : gmap Z V) :
  item_ok (Items ((λ p, rlp_pair (ek p.1) (ev p.2)) <$> map_iter m)) →
  (∀ k v, m !! k = Some v → reads_back ek ck k ∧ reads_as ev cv v (h v)) →
  read_map ck cv (encode (Items ((λ p, rlp_pair (ek p.1) (ev p.2)) <$> map_iter m))) = Ok (h <$> m).
Proof.
  intros Ho Hm. unfold read_map. read_rlp. rewrite rlp_list_ok by done. cbn [mbind outcome_bind].
  rewrite (mapO_ok (λ p, rlp_pair (ek p.1) (ev p.2)) _ (prod_map id h) (map_iter m)).
  - cbn. rewrite (foldl_insert_list _ (h <$> m)); [done|]. by rewrite map_iter_perm, map_to_list_fmap.
  - apply item_ok_items in Ho. by rewrite Forall_fmap in Ho.
  - apply Forall_forall. intros [k v] Hkv%map_iter_elem Hp. read_rlp.
    destruct (Hm k v Hkv). by apply toPair_ok.
Qed.
Lemma read_map_ok {V} (ek : Z → rlp_item) (ev : V → rlp_item) ck cv (m : gmap Z V) :
  item_ok (Items ((λ p, rlp_pair (ek p.1) (ev p.2)) <$> map_iter m)) →
  (∀ k v, m !! k = Some v → reads_back ek ck k ∧ reads_back ev cv v) →
  read_map ck cv (encode (Items ((λ p, rlp_pair (ek p.1) (ev p.2)) <$> map_iter m))) = Ok m.
Proof. intros Ho Hm. by rewrite (read_map_gen ek ev ck cv id), map_fmap_id. Qed.
Lemma good_map {V} (f : Z * V → rlp_item) (m : gmap Z V) :
  (∀ k v, m !! k = Some v → good (f (k, v))) → good (Items (f <$> map_iter m)).
Proof.
  intros Hf. apply good_items. rewrite Forall_fmap. apply Forall_forall.
  intros [k v] Hkv%map_iter_elem. by apply Hf.
Qed.

(** ** Orders *)
Definition ex_order_wf (o : ex_order) : Prop :=
  in256 (trxid o) ∧ is_addr (sender o) ∧ in256 (price o) ∧ in256 (token_amount o) ∧ in256 (source_amount o)
  ∧ is_time (create_time o) ∧ type_ok (type o) ∧ token_ok (token_type o) ∧ buy_ok (buy_type o).
Definition result_order_wf (r : result_order) : Prop :=
  is_addr (r_sender r) ∧ is_addr (r_acceptor r) ∧ type_ok (r_type r) ∧ token_ok (r_token_type r)
  ∧ buy_ok (r_buy_type r) ∧ is_time (r_create_time r) ∧ in256 (r_send_trxid r) ∧ in256 (r_to_trxid r)
  ∧ in256 (r_amount r) ∧ in256 (r_price r) ∧ in256 (r_old_price r).
Definition poll_wf (p : PollData) : Prop := is_addr (m_addr p) ∧ in256 (m_poll p) ∧ is_time (m_time p).

Lemma short_time t : short_item (rlp_time t).
Proof. apply short_int, w256_in. Qed.
#[export] Hint Resolve short_time : codec.

Lemma ex_order_round_trip o : ex_order_wf o → ex_order_populate (ex_order_streamRLP o) = Ok o.
Proof.
  intros (?&?&?&?&?&?&[Ht ?]&[Hk ?]&[Hb ?]). unfold ex_order_populate, ex_order_streamRLP.
  op_round_trip. rewrite Ht, Hk, Hb. by destruct o.
Qed.
Lemma result_order_round_trip r : result_order_wf r → result_order_populate (result_order_streamRLP r) = Ok r.
Proof.
  intros (?&?&[Ht ?]&[Hk ?]&[Hb ?]&?&?&?&?&?&?). unfold result_order_populate, result_order_streamRLP.
  op_round_trip. rewrite Ht, Hk, Hb. by destruct r.
Qed.
Lemma PollData_round_trip p : poll_wf p → PollData_populate (PollData_streamRLP p) = Ok p.
Proof.
  intros (?&?&?). unfold PollData_populate, PollData_streamRLP. op_round_trip. by destruct p.
Qed.
Lemma good_ex_order o : ex_order_wf o → good (rlp_bytes (ex_order_streamRLP o)).
Proof. intros (?&?&?&?&?&?&?&?&?). unfold ex_order_streamRLP. auto 15 with codec. Qed.
Lemma good_result_order r : result_order_wf r → good (rlp_bytes (result_order_streamRLP r)).
Proof. intros (?&?&?&?&?&?&?&?&?&?&?). unfold result_order_streamRLP. auto 18 with codec. Qed.
Lemma good_poll p : poll_wf p → good (rlp_bytes (PollData_streamRLP p)).
Proof. intros (?&?&?). unfold PollData_streamRLP. auto 10 with codec. Qed.

(** ** Containers of orders *)
Lemma foldl_multi_insert l acc :
  NoDup (trxid <$> acc ++ l) → foldl (λ m o, multi_insert o m) acc l = acc ++ l.
Proof.
  revert acc. induction l as [|o l IH]; intros acc Hn; cbn; [by rewrite app_nil_r|].
  assert (multi_insert o acc = acc ++ [o]) as ->.
  { unfold multi_insert. destruct (multi_find (trxid o) acc) as [o'|] eqn:E; [|done].
    apply multi_find_Some in E as [Ho' Et]. rewrite fmap_app, NoDup_app in Hn. destruct Hn as (_&Hd&_).
    destruct (Hd (trxid o')); [by apply list_elem_of_fmap_2|]. rewrite Et. left. }
  rewrite IH by (by rewrite <-app_assoc). by rewrite <-app_assoc.
Qed.
Lemma foldl_result_insert l acc :
  NoDup (r_create_time <$> acc ++ l) → foldl (λ m o, result_insert o m) acc l = acc ++ l.
Proof.
  revert acc. induction l as [|o l IH]; intros acc Hn; cbn; [by rewrite app_nil_r|].
  assert (result_insert o acc = acc ++ [o]) as ->.
  { unfold result_insert. destruct (list_find _ acc) as [[i o']|] eqn:E; [|done].
    apply list_find_Some in E as (Ho'&Et&_). rewrite fmap_app, NoDup_app in Hn. destruct Hn as (_&Hd&_).
    destruct (Hd (r_create_time o')); [by eapply list_elem_of_fmap_2, list_elem_of_lookup_2|]. rewrite Et. left. }
  rewrite IH by (by rewrite <-app_assoc). by rewrite <-app_assoc.
Qed.

Definition orders_wf (l : list ex_order) : Prop := Forall ex_order_wf l ∧ NoDup (trxid <$> l).
Definition results_wf (l : list result_order) : Prop := Forall result_order_wf l ∧ NoDup (r_create_time <$> l).

(** Reading a vector of stored encodings. *)
Lemma stored_ok {A} (f : A → bytes) (g : bytes → outcome A) l :
  item_ok (Items ((λ x, rlp_bytes (f x)) <$> l)) → Forall (λ x, g (f x) = Ok x) l →
  mapO (λ x, v ← RLP x; y ← toBytes v; g y) (encode <$> ((λ x, rlp_bytes (f x)) <$> l)) = Ok l.
Proof.
  intros Ho Hg. apply item_ok_items in Ho. rewrite Forall_fmap in Ho.
  rewrite (mapO_ok (λ x, rlp_bytes (f x)) _ id); [by rewrite list_fmap_id|done|].
  apply Forall_forall. intros x Hx Hok. rewrite Forall_forall in Hg. read_rlp.
  rewrite toBytes_ok by done. cbn [mbind outcome_bind]. by apply Hg.
Qed.

Lemma getStreamRLPExOrder_ok l :
  orders_wf l → item_ok (Items ((λ o, rlp_bytes (ex_order_streamRLP o)) <$> index key_trx_id l)) →
  initExOrder (getStreamRLPExOrder l) = Ok (index key_trx_id l).
Proof.
  intros [Hw Hn] Ho. unfold initExOrder, getStreamRLPExOrder. read_rlp.
  rewrite rlp_list_ok by done. cbn [mbind outcome_bind]. rewrite stored_ok; [cbn [mbind outcome_bind]|done|].
  - rewrite foldl_multi_insert; [done|]. cbn. by rewrite index_perm.
  - rewrite index_perm. eapply Forall_impl; [exact Hw|]. apply ex_order_round_trip.
Qed.
Lemma getStreamRLPResultOrder_ok l :
  results_wf l → item_ok (Items ((λ o, rlp_bytes (result_order_streamRLP o)) <$> index key_r_time l)) →
  initResultOrder (getStreamRLPResultOrder l) = Ok (index key_r_time l).
Proof.
  intros [Hw Hn] Ho. unfold initResultOrder, getStreamRLPResultOrder. read_rlp.
  rewrite rlp_list_ok by done. cbn [mbind outcome_bind]. rewrite stored_ok; [cbn [mbind outcome_bind]|done|].
  - rewrite foldl_result_insert; [done|]. cbn. by rewrite index_perm.
  - rewrite index_perm. eapply Forall_impl; [exact Hw|]. apply result_order_round_trip.
Qed.

(** ** Snapshots *)
Definition map_wf {V} (K : Z → Prop) (P : V → Prop) (m : gmap Z V) : Prop :=
  map_Forall (λ k v, K k ∧ P v) m.
Definition uu_wf (p : u256 * u256) : Prop := in256 p.1 ∧ in256 p.2.
Definition received_wf : gmap u256 (gmap Address (u256 * u256)) → Prop := map_wf in256 (map_wf is_addr uu_wf).

Lemma two_ints_ok x y : in256 x → in256 y → two_ints (encode (Items [rlp_int x; rlp_int y])) = Ok (x, y).
Proof. intros. unfold two_ints. op_round_trip. done. Qed.
Lemma reads_two_ints p : uu_wf p → reads_back (λ p, rlp_out [rlp_int p.1; rlp_int p.2]) (nested two_ints) p.
Proof.
  intros [Hx Hy]. apply (reads_nested (λ p, [rlp_int p.1; rlp_int p.2])).
  - auto 10 with codec.
  - intros _. rewrite two_ints_ok by done. by destruct p.
Qed.
Lemma reads_uu p : uu_wf p → reads_back rlp_uu (toPair as_u256 as_u256) p.
Proof.
  destruct p as [x y]. intros [Hx Hy] Ho. apply (toPair_ok rlp_int rlp_int); [done|by apply reads_u256..].
Qed.

Lemma good_received m : received_wf m → good (Items (received_items m)).
Proof.
  intros Hm. apply good_map. intros r inner Hr. destruct (Hm _ _ Hr) as [? Hi].
  apply good_pair; [auto with codec|]. apply good_out, good_map. intros a p Ha.
  destruct (Hi _ _ Ha) as [? [??]]. auto 10 with codec.
Qed.
Lemma received_ok m :
  received_wf m → item_ok (Items (received_items m)) → received_read (encode (Items (received_items m))) = Ok m.
Proof.
  intros Hm Ho. unfold received_read.
  apply (read_map_ok rlp_int (λ inner, rlp_out
    ((λ v, rlp_pair (rlp_hash 20 v.1) (rlp_out [rlp_int v.2.1; rlp_int v.2.2])) <$> map_iter inner))); [done|].
  intros r inner Hr. destruct (Hm _ _ Hr) as [? Hi]. split; [by apply reads_u256|].
  apply (reads_nested (λ inner, (λ v, rlp_pair (rlp_hash 20 v.1) (rlp_out [rlp_int v.2.1; rlp_int v.2.2])) <$> map_iter inner)).
  - apply good_map. intros a p Ha. destruct (Hi _ _ Ha) as [? [??]]. auto 10 with codec.
  - intros Ho'. apply (read_map_ok (rlp_hash 20) (λ p, rlp_out [rlp_int p.1; rlp_int p.2])); [done|].
    intros a p Ha. destruct (Hi _ _ Ha) as [? Hp]. split; [by apply reads_addr|by apply reads_two_ints].
Qed.

Definition ReceivedCookies_wf (r : ReceivedCookies) : Prop :=
  received_wf (rc_received r) ∧ in256 (rc_numberofRound r) ∧ in256 (rc_is_received r).1.
Definition ReceivedCookies_items (r : ReceivedCookies) : list rlp_item :=
  [rlp_out (received_items (rc_received r)); rlp_int (rc_numberofRound r);
   rlp_pair (rlp_int (rc_is_received r).1) (rlp_unsigned (if (rc_is_received r).2 then 1 else 0))].
Lemma good_ReceivedCookies r : ReceivedCookies_wf r → good (Items (ReceivedCookies_items r)).
Proof. intros (?&?&?). unfold ReceivedCookies_items. auto 12 using good_received with codec. Qed.
Lemma ReceivedCookies_ok r :
  ReceivedCookies_wf r → item_ok (Items (ReceivedCookies_items r)) →
  ReceivedCookies_populate (ReceivedCookies_streamRLP r) = Ok r.
Proof.
  destruct r as [m n [x b]]. intros (Hm&?&?) Ho. unfold ReceivedCookies_populate, ReceivedCookies_streamRLP.
  cbn [rc_received rc_numberofRound rc_is_received fst snd] in *. unfold ReceivedCookies_items in Ho.
  unfold rlp_out in *. read_rlp. do 2 read_field.
  rewrite received_ok; [cbn [mbind outcome_bind]|done|].
  - read_field. rewrite (toPair_ok rlp_int rlp_unsigned _ _ x (if b then 1 else 0) x (if b then 1 else 0)); [by destruct b| | |].
    + by apply (field_ok _ Ho 2).
    + by apply reads_u256.
    + intros _. by destruct b.
  - eapply nested_ok; [by apply good_received|]. by apply (field_ok _ Ho 0).
Qed.

(** A flat map, and a map of flat maps, of integers. *)
Lemma uu_map_ok m :
  map_wf in256 in256 m → item_ok (Items (rlp_uu <$> map_iter m)) →
  read_map as_u256 as_u256 (encode (Items (rlp_uu <$> map_iter m))) = Ok m.
Proof.
  intros Hm Ho. apply (read_map_ok rlp_int rlp_int); [done|].
  intros k v Hk. destruct (Hm _ _ Hk). split; by apply reads_u256.
Qed.
Lemma good_uu_map m : map_wf in256 in256 m → good (Items (rlp_uu <$> map_iter m)).
Proof. intros Hm. apply good_map. intros k v Hk. destruct (Hm _ _ Hk). unfold rlp_uu. auto with codec. Qed.

Definition votes_items (m : gmap Address u256) : list rlp_item :=
  (λ p, rlp_pair (rlp_hash 20 p.1) (rlp_int p.2)) <$> map_iter m.
Lemma good_votes m : map_wf is_addr in256 m → good (Items (votes_items m)).
Proof. intros Hm. apply good_map. intros k v Hk. destruct (Hm _ _ Hk). auto with codec. Qed.
Lemma votes_ok m :
  map_wf is_addr in256 m → item_ok (Items (votes_items m)) →
  read_map as_addr as_u256 (encode (Items (votes_items m))) = Ok m.
Proof.
  intros Hm Ho. apply (read_map_ok (rlp_hash 20) rlp_int); [done|].
  intros k v Hk. destruct (Hm _ _ Hk). split; [by apply reads_addr|by apply reads_u256].
Qed.

Definition history_items (m : gmap u256 (gmap Address u256)) : list rlp_item :=
  (λ r, rlp_pair (rlp_int r.1) (rlp_out (votes_items r.2))) <$> map_iter m.
Lemma good_history m : map_wf in256 (map_wf is_addr in256) m → good (Items (history_items m)).
Proof.
  intros Hm. apply good_map. intros k v Hk. destruct (Hm _ _ Hk). auto using good_votes with codec.
Qed.
Lemma history_ok m :
  map_wf in256 (map_wf is_addr in256) m → item_ok (Items (history_items m)) →
  read_map as_u256 (nested (read_map as_addr as_u256)) (encode (Items (history_items m))) = Ok m.
Proof.
  intros Hm Ho. apply (read_map_ok rlp_int (λ v, rlp_out (votes_items v))); [done|].
  intros k v Hk. destruct (Hm _ _ Hk). split; [by apply reads_u256|].
  apply reads_nested; [by apply good_votes|by apply votes_ok].
Qed.

Definition VoteSnapshot_wf (v : VoteSnapshot) : Prop :=
  map_wf in256 (map_wf is_addr in256) (m_voteDataHistory v) ∧ map_wf in256 in256 (m_pollNumHistory v)
  ∧ map_wf in256 in256 (m_blockSummaryHistory v) ∧ in256 (numberofrounds v) ∧ in256 (m_latest_round v).
Definition VoteSnapshot_items (v : VoteSnapshot) : list rlp_item :=
  [rlp_out (history_items (m_voteDataHistory v)); rlp_out (rlp_uu <$> map_iter (m_pollNumHistory v));
   rlp_out (rlp_uu <$> map_iter (m_blockSummaryHistory v)); rlp_int (numberofrounds v); rlp_int (m_latest_round v)].
Lemma good_VoteSnapshot v : VoteSnapshot_wf v → good (Items (VoteSnapshot_items v)).
Proof. intros (?&?&?&?&?). unfold VoteSnapshot_items. auto 12 using good_history, good_uu_map with codec. Qed.

(** [field i] of a well-formed list is the encoding of a good item. *)
Ltac inner_ok Ho i := eapply nested_ok; [|by apply (field_ok _ Ho i)].

Lemma VoteSnapshot_ok v :
  VoteSnapshot_wf v → item_ok (Items (VoteSnapshot_items v)) →
  VoteSnapshot_populate (VoteSnapshot_streamRLP v) = Ok v.
Proof.
  intros (?&?&?&?&?) Ho. unfold VoteSnapshot_populate.
  change (VoteSnapshot_streamRLP v) with (encode (Items (VoteSnapshot_items v))).
  unfold VoteSnapshot_items, rlp_out in *. read_rlp.
  do 5 read_field.
  rewrite history_ok; [cbn [mbind outcome_bind]|done|inner_ok Ho 0%nat; by apply good_history].
  rewrite (uu_map_ok (m_pollNumHistory v)); [cbn [mbind outcome_bind]|done|inner_ok Ho 1%nat; by apply good_uu_map].
  rewrite uu_map_ok; [by destruct v|done|inner_ok Ho 2%nat; by apply good_uu_map].
Qed.

Definition CouplingSystemfee_wf (c : CouplingSystemfee) : Prop :=
  map_wf in256 uu_wf (m_Feesnapshot c) ∧ map_wf in256 (Forall poll_wf) (m_sorted_creaters c)
  ∧ in256 (m_rounds c) ∧ in256 (m_numofrounds c) ∧ received_wf (cf_received_cookies c) ∧ uu_wf (m_total_summary c).
Definition fee_items (m : gmap u256 (u256 * u256)) : list rlp_item :=
  (λ r, rlp_pair (rlp_int r.1) (rlp_out [rlp_int r.2.1; rlp_int r.2.2])) <$> map_iter m.
Definition poll_items (l : list PollData) : list rlp_item := (λ p, rlp_bytes (PollData_streamRLP p)) <$> l.
Definition sorted_items (m : gmap u256 (list PollData)) : list rlp_item :=
  (λ r, rlp_pair (rlp_int r.1) (rlp_out (poll_items r.2))) <$> map_iter m.
Definition CouplingSystemfee_items (c : CouplingSystemfee) : list rlp_item :=
  [rlp_out (fee_items (m_Feesnapshot c)); rlp_int (m_rounds c); rlp_int (m_numofrounds c);
   rlp_out (sorted_items (m_sorted_creaters c)); rlp_out (received_items (cf_received_cookies c));
   rlp_uu (m_total_summary c)].

Lemma good_polls l : Forall poll_wf l → good (Items (poll_items l)).
Proof. intros Hl. apply good_stored. eapply Forall_impl; [exact Hl|]. apply good_poll. Qed.
Lemma polls_vector_ok l :
  item_ok (Items (poll_items l)) → toVector toBytes (encode (Items (poll_items l))) = Ok (PollData_streamRLP <$> l).
Proof. apply byte_vector_ok. Qed.
Lemma mapO_fmap {A} (f : A → bytes) g l : Forall (λ x, g (f x) = Ok x) l → mapO g (f <$> l) = Ok l.
Proof. induction 1 as [|x l Hx _ IH]; [done|]. cbn. rewrite Hx. cbn. by rewrite IH. Qed.
Lemma polls_populate_ok l : Forall poll_wf l → mapO PollData_populate (PollData_streamRLP <$> l) = Ok l.
Proof. intros Hl. apply mapO_fmap. eapply Forall_impl; [exact Hl|]. apply PollData_round_trip. Qed.
Lemma polls_ok l :
  Forall poll_wf l → item_ok (Items (poll_items l)) → polls_read (encode (Items (poll_items l))) = Ok l.
Proof.
  intros Hl Ho. unfold polls_read. read_rlp. rewrite polls_vector_ok by done. cbn [mbind outcome_bind].
  by apply polls_populate_ok.
Qed.
Lemma good_sorted m : map_wf in256 (Forall poll_wf) m → good (Items (sorted_items m)).
Proof. intros Hm. apply good_map. intros k v Hk. destruct (Hm _ _ Hk). auto using good_polls with codec. Qed.
Lemma sorted_ok m :
  map_wf in256 (Forall poll_wf) m → item_ok (Items (sorted_items m)) →
  read_map as_u256 (nested polls_read) (encode (Items (sorted_items m))) = Ok m.
Proof.
  intros Hm Ho. apply (read_map_ok rlp_int (λ v, rlp_out (poll_items v))); [done|].
  intros k v Hk. destruct (Hm _ _ Hk). split; [by apply reads_u256|].
  apply reads_nested; [by apply good_polls|by apply polls_ok].
Qed.
Lemma good_fee m : map_wf in256 uu_wf m → good (Items (fee_items m)).
Proof. intros Hm. apply good_map. intros k v Hk. destruct (Hm _ _ Hk) as [? [??]]. auto 10 with codec. Qed.
Lemma fee_ok m :
  map_wf in256 uu_wf m → item_ok (Items (fee_items m)) →
  read_map as_u256 (nested two_ints) (encode (Items (fee_items m))) = Ok m.
Proof.
  intros Hm Ho. apply (read_map_ok rlp_int (λ p, rlp_out [rlp_int p.1; rlp_int p.2])); [done|].
  intros k v Hk. destruct (Hm _ _ Hk). split; [by apply reads_u256|by apply reads_two_ints].
Qed.
Lemma good_CouplingSystemfee c : CouplingSystemfee_wf c → good (Items (CouplingSystemfee_items c)).
Proof.
  intros (?&?&?&?&?&[??]). unfold CouplingSystemfee_items, rlp_uu.
  auto 12 using good_fee, good_sorted, good_received with codec.
Qed.
Lemma CouplingSystemfee_ok c :
  CouplingSystemfee_wf c → item_ok (Items (CouplingSystemfee_items c)) →
  CouplingSystemfee_unstreamRLP (CouplingSystemfee_streamRLP c) = Ok c.
Proof.
  intros (?&?&?&?&?&?) Ho. unfold CouplingSystemfee_unstreamRLP.
  change (CouplingSystemfee_streamRLP c) with (encode (Items (CouplingSystemfee_items c))).
  unfold CouplingSystemfee_items, rlp_out in *. read_rlp. do 6 read_field.
  rewrite fee_ok; [cbn [mbind outcome_bind]|done|inner_ok Ho 0%nat; by apply good_fee].
  rewrite sorted_ok; [cbn [mbind outcome_bind]|done|inner_ok Ho 3%nat; by apply good_sorted].
  rewrite received_ok; [cbn [mbind outcome_bind]|done|inner_ok Ho 4%nat; by apply good_received].
  rewrite reads_uu; [by destruct c|done|by apply (field_ok _ Ho 5)].
Qed.

(** ** The remaining fields *)
Definition record_items (m : gmap Address int64) : list rlp_item :=
  (λ p, rlp_pair (rlp_hash 20 p.1) (rlp_time p.2)) <$> map_iter m.
Lemma good_record m : good (Items (record_items m)).
Proof. apply good_map. intros k v _. auto with codec. Qed.
Lemma BlockRecord_ok m :
  map_wf is_addr is_time m → item_ok (Items [rlp_out (record_items m)]) →
  BlockRecord_populate (BlockRecord_streamRLP m) = Ok m.
Proof.
  intros Hm Ho. unfold BlockRecord_populate.
  change (BlockRecord_streamRLP m) with (encode (Items [rlp_bytes (encode (Items (record_items m)))])).
  unfold rlp_out in Ho. read_rlp. read_field.
  assert (item_ok (Items (record_items m))) as Hr by (inner_ok Ho 0%nat; apply good_record).
  assert (read_map as_addr as_u256 (encode (Items (record_items m))) = Ok (w256 <$> m)) as ->.
  { apply (read_map_gen (rlp_hash 20) rlp_time); [done|]. intros k v Hk. destruct (Hm _ _ Hk).
    split; [by apply reads_addr|]. apply reads_u256, w256_in. }
  cbn [mbind outcome_bind]. f_equal. rewrite <-map_fmap_compose. rewrite <-(map_fmap_id m) at 2.
  apply map_fmap_ext. intros k v Hk. destruct (Hm _ _ Hk). by apply int64_of_time.
Qed.

Lemma getStreamRLPGasPrice_ok m :
  map_wf is_addr in256 m → item_ok (Items (votes_items m)) → initGasPrice (getStreamRLPGasPrice m) = Ok m.
Proof. apply votes_ok. Qed.

Definition mapping_wf (p : Address * Address) : Prop := is_addr p.1 ∧ is_addr p.2 ∧ (p.1 = 0 → p.2 = 0).
Definition mapping_items (p : Address * Address) : list rlp_item :=
  if bool_decide (p.1 = 0) then [rlp_bytes []] else [rlp_hash 20 p.1; rlp_hash 20 p.2].
Lemma good_mapping p : good (Items (mapping_items p)).
Proof.
  unfold mapping_items. case_bool_decide; [|auto with codec].
  apply good_items, Forall_singleton, good_bytes. constructor.
Qed.
Lemma mapping_stream p : getRLPStreamChangeMiner p = encode (Items (mapping_items p)).
Proof. unfold getRLPStreamChangeMiner, mapping_items. by case_bool_decide. Qed.
Lemma getRLPStreamChangeMiner_ok p : mapping_wf p → populateChangeMiner (getRLPStreamChangeMiner p) = Ok p.
Proof.
  destruct p as [x y]. intros (Hx&Hy&H0). cbn [fst snd] in *. rewrite mapping_stream.
  unfold mapping_items, populateChangeMiner. case_bool_decide as E; cbn [fst snd] in *.
  - rewrite E, (H0 E). done.
  - assert (item_ok (Items [rlp_hash 20 x; rlp_hash 20 y])) as Ho
      by (apply short_list; [repeat (apply Forall_cons; split); [auto with codec..|constructor]|cbn; lia]).
    read_rlp. rewrite itemCount_ok by done. cbn [mbind outcome_bind length Z.eqb]. by repeat read_field.
Qed.

Definition rewards_wf (l : list (u256 * u256)) : Prop := Forall uu_wf l ∧ len l < 2 ^ 32.
Definition reward_list (l : list (u256 * u256)) : list rlp_item := rlp_unsigned (len l) :: (rlp_uu <$> l).
Lemma good_rewards l : rewards_wf l → good (Items (reward_list l)).
Proof.
  intros [Hl _]. apply good_items. constructor; [auto with codec|]. rewrite Forall_fmap.
  eapply Forall_impl; [exact Hl|]. intros p [??]. cbn. unfold rlp_uu. auto with codec.
Qed.
Lemma reward_items_ok l pre :
  item_ok (Items (pre ++ (rlp_uu <$> l))) → Forall uu_wf l →
  reward_items (encode (Items (pre ++ (rlp_uu <$> l)))) (length pre) (length l) = Ok l.
Proof.
  intros Ho Hl. revert pre Ho. induction Hl as [|p l Hp Hl IH]; intros pre Ho; [done|].
  cbn [length reward_items]. assert ((pre ++ (rlp_uu <$> p :: l)) !! length pre = Some (rlp_uu p)) as E
    by (by apply list_lookup_middle).
  rewrite (item_lookup _ _ _ Ho E). cbn [mbind outcome_bind].
  rewrite (reads_uu p Hp (field_ok _ Ho _ _ E)). cbn [mbind outcome_bind].
  cbn [fmap list_fmap] in *. rewrite (cons_middle (rlp_uu p)) in *. rewrite app_assoc in *.
  pose proof (IH _ Ho) as Hi. rewrite length_app in Hi. cbn [length] in Hi. rewrite Nat.add_1_r in Hi. by rewrite Hi.
Qed.
Lemma blockReward_ok l :
  rewards_wf l → item_ok (Items (reward_list l)) → blockReward_read (blockReward_stream l) = Ok l.
Proof.
  intros [Hl Hn] Ho. unfold blockReward_read.
  change (blockReward_stream l) with (encode (Items (reward_list l))). read_rlp.
  rewrite (item_lookup _ 0 _ Ho eq_refl). cbn [mbind outcome_bind]. unfold rlp_unsigned.
  rewrite Z.mod_small by lia.
  assert (toInt 8 (encode (rlp_int (len l))) = Ok (len l)) as ->
    by (apply (toInt_ok _ 8); unfold in256, M256; lia). cbn [mbind outcome_bind].
  rewrite Nat2Z.id. by apply (reward_items_ok l [_]).
Qed.

(** ** The account *)
Section Account.
Context `{CR : Crypto, CF : Config}.

Record account_wf (x : Account) : Prop := {
  awf_nonce : in256 (m_nonce x); awf_balance : in256 (m_balance x); awf_codeHash : in256 (m_codeHash x);
  awf_ballot : in256 (m_ballot x); awf_poll : in256 (a_poll x); awf_votes : Forall poll_wf (m_vote_data x);
  awf_BRC : in256 (m_BRC x); awf_FBRC : in256 (m_FBRC x); awf_FBalance : in256 (m_FBalance x);
  awf_rewards : rewards_wf (m_BlockReward x);
  awf_change : Forall (Forall is_byte) (m_willChangeList x);
  awf_income : in256 (m_CooikeIncomeNum x);
  awf_snapshot : VoteSnapshot_wf (m_vote_sapshot x);
  awf_fee : CouplingSystemfee_wf (m_couplingSystemFee x);
  awf_records : map_wf is_addr is_time (m_block_records x);
  awf_received : ReceivedCookies_wf (m_received_cookies x);
  awf_results : results_wf (m_successExchange x);
  awf_orders : orders_wf (m_exChangeOrder x);
  awf_mapping : mapping_wf (m_mappingAddress x);
  awf_prices : map_wf is_addr in256 (m_minerGasPrice x)
}.

(** What is left of an account written at height [bn] when it is read at height
    [n] ([cn] the current one): the caches are empty, the orders are in the order
    of their index, and the last two fields exist from a certain height on. *)
Definition reloaded (bn n cn : int64) (root : h256) (x : Account) : Account :=
  mkAccount true false false (m_nonce x) (m_balance x) root (m_codeHash x) (m_ballot x) (a_poll x)
    (m_BRC x) (m_FBRC x) (m_FBalance x) (m_CooikeIncomeNum x) (m_willChangeList x) (m_vote_data x)
    (m_vote_sapshot x) (m_couplingSystemFee x) (m_received_cookies x) (m_BlockReward x)
    (index key_r_time (m_successExchange x)) (index key_trx_id (m_exChangeOrder x)) ∅ ∅ []
    (m_block_records x)
    (if (newChangeHeight <=? n) && (newChangeHeight <=? bn) then m_mappingAddress x else (0, 0))
    (if (gasPriceHeight <=? cn) && (gasPriceHeight <=? bn + 1) then m_minerGasPrice x else ∅).

Lemma heights : newChangeHeight < gasPriceHeight.
Proof. unfold newChangeHeight, gasPriceHeight, by_chain. repeat case_match; reflexivity. Qed.

Lemma good_orders l : Forall ex_order_wf l →
  good (Items ((λ o, rlp_bytes (ex_order_streamRLP o)) <$> index key_trx_id l)).
Proof. intros Hl. apply good_stored. rewrite index_perm. eapply Forall_impl; [exact Hl|]. apply good_ex_order. Qed.
Lemma good_results l : Forall result_order_wf l →
  good (Items ((λ o, rlp_bytes (result_order_streamRLP o)) <$> index key_r_time l)).
Proof. intros Hl. apply good_stored. rewrite index_perm. eapply Forall_impl; [exact Hl|]. apply good_result_order. Qed.
Lemma good_change_list l : Forall (Forall is_byte) l → good (Items (rlp_bytes <$> l)).
Proof. intros Hl. apply good_items. rewrite Forall_fmap. eapply Forall_impl; [exact Hl|]. apply good_bytes. Qed.

Lemma good_account bn root x : account_wf x → good (Items (account_items bn root x)).
Proof.
  intros []. apply good_items. unfold account_items.
  rewrite !Forall_app, !Forall_cons. split_and!; auto with codec.
  - by apply good_polls.
  - apply (good_nested (Items (reward_list _))). by apply good_rewards.
  - by apply good_change_list.
  - apply (good_nested (Items (VoteSnapshot_items _))). by apply good_VoteSnapshot.
  - apply (good_nested (Items (CouplingSystemfee_items _))). by apply good_CouplingSystemfee.
  - apply good_nested, good_items, Forall_singleton, good_out, good_record.
  - apply (good_nested (Items (ReceivedCookies_items _))). by apply good_ReceivedCookies.
  - apply good_nested, good_results, awf_results0.
  - apply good_nested, good_orders, awf_orders0.
  - case_match; [|constructor]. apply Forall_singleton. rewrite mapping_stream. apply good_nested, good_mapping.
  - case_match; [|constructor]. apply Forall_singleton. apply good_nested. by apply good_votes.
Qed.

(** The nineteen fields every account has. *)
Section Decode.
Context (bn n cn : int64) (root : h256) (x : Account).
Context (Hx : account_wf x) (Hroot : in256 root).
Context (Ho : item_ok (Items (account_items bn root x))).
Abbreviation d := (encode (Items (account_items bn root x))).

Lemma decode_votes : (y ← item d 6; toVector toBytes y) = Ok (PollData_streamRLP <$> m_vote_data x).
Proof using Ho.
  rewrite (item_lookup _ 6 _ Ho eq_refl). cbn [mbind outcome_bind].
  apply polls_vector_ok. by apply (field_ok _ Ho 6).
Qed.
Lemma decode_change : (y ← item d 11; toVector toBytes y) = Ok (m_willChangeList x).
Proof using Ho.
  rewrite (item_lookup _ 11 _ Ho eq_refl). cbn [mbind outcome_bind].
  apply toVector_ok; [by apply (field_ok _ Ho 11)|]. apply Forall_forall. intros b _ Hb. by apply toBytes_ok.
Qed.
Lemma decode_mapping :
  (m ← itemCount d;
   if (newChangeHeight <=? n) && (19 <? m) then mb ← bytes_at d 19; populateChangeMiner mb else Ok (0, 0))
  = Ok (if (newChangeHeight <=? n) && (newChangeHeight <=? bn) then m_mappingAddress x else (0, 0)).
Proof using Ho Hx.
  rewrite itemCount_ok by done. cbn [mbind outcome_bind].
  pose proof heights. unfold account_items in *. rewrite !length_app. cbn [length].
  destruct (newChangeHeight <=? n) eqn:E1, (newChangeHeight <=? bn) eqn:E2; try done; cbn [andb].
  - rewrite (bytes_at_ok _ Ho 19 _ eq_refl). cbn [mbind outcome_bind length].
    rewrite getRLPStreamChangeMiner_ok by apply Hx. by zcases.
  - destruct (gasPriceHeight <=? bn + 1) eqn:E3; [lia|]. done.
Qed.
Lemma decode_prices :
  (m ← itemCount d;
   if (gasPriceHeight <=? cn) && (20 <? m) then gb ← bytes_at d 20; initGasPrice gb else Ok ∅)
  = Ok (if (gasPriceHeight <=? cn) && (gasPriceHeight <=? bn + 1) then m_minerGasPrice x else ∅).
Proof using Ho Hx.
  rewrite itemCount_ok by done. cbn [mbind outcome_bind].
  pose proof heights. unfold account_items in *. rewrite !length_app. cbn [length].
  destruct (gasPriceHeight <=? cn) eqn:E1, (gasPriceHeight <=? bn + 1) eqn:E2; try done; cbn [andb].
  - destruct (newChangeHeight <=? bn) eqn:E3; [|lia].
    rewrite (bytes_at_ok _ Ho 20 _ eq_refl). cbn [mbind outcome_bind length].
    rewrite getStreamRLPGasPrice_ok; [done|apply Hx|].
    inner_ok Ho 20%nat. apply good_votes, Hx.
  - by destruct (newChangeHeight <=? bn).
Qed.

Lemma decode_encode_ok : account_decode n cn d = Ok (reloaded bn n cn root x).
Proof using Ho Hx Hroot.
  pose proof decode_mapping as Hm. pose proof decode_prices as Hp. pose proof Hx as [].
  unfold account_decode. read_rlp. rewrite decode_votes, decode_change. cbn [mbind outcome_bind].
  rewrite polls_populate_ok by done. cbn [mbind outcome_bind].
  do 8 (erewrite int_at_ok; [|exact Ho|reflexivity|assumption]).
  do 2 (erewrite hash_at_ok; [|exact Ho|reflexivity|assumption]).
  rewrite (bytes_at_ok _ Ho 10 _ eq_refl), (bytes_at_ok _ Ho 13 _ eq_refl), (bytes_at_ok _ Ho 14 _ eq_refl),
    (bytes_at_ok _ Ho 15 _ eq_refl), (bytes_at_ok _ Ho 16 _ eq_refl), (bytes_at_ok _ Ho 17 _ eq_refl),
    (bytes_at_ok _ Ho 18 _ eq_refl). cbn [mbind outcome_bind].
  rewrite blockReward_ok; [cbn [mbind outcome_bind]|done|inner_ok Ho 10%nat; by apply good_rewards].
  rewrite VoteSnapshot_ok; [cbn [mbind outcome_bind]|done|inner_ok Ho 13%nat; by apply good_VoteSnapshot].
  rewrite CouplingSystemfee_ok; [cbn [mbind outcome_bind]|done|inner_ok Ho 14%nat; by apply good_CouplingSystemfee].
  rewrite BlockRecord_ok; [cbn [mbind outcome_bind]|done|
    inner_ok Ho 15%nat; apply good_items, Forall_singleton, good_out, good_record].
  rewrite ReceivedCookies_ok; [cbn [mbind outcome_bind]|done|inner_ok Ho 16%nat; by apply good_ReceivedCookies].
  rewrite getStreamRLPResultOrder_ok; [cbn [mbind outcome_bind]|done|inner_ok Ho 17%nat; apply good_results, awf_results0].
  rewrite getStreamRLPExOrder_ok; [cbn [mbind outcome_bind]|done|inner_ok Ho 18%nat; apply good_orders, awf_orders0].
  rewrite itemCount_ok in * by done. cbn [mbind outcome_bind] in *. rewrite Hm. cbn [mbind outcome_bind].
  rewrite Hp. done.
Qed.
End Decode.
End Account.
