(* ===== verification/TransactionProofs.v ===== *)
(** * Transactions on the wire (libbrccore/TransactionBase.cpp)

    A signed transaction is read back, field by field, from the RLP a node sends. *)
From stdpp Require Import base gmap list.
From Stdlib Require Import ZArith Lia.
From S2P Require Import Prelude Rlp RlpProofs Config Interfaces Codec Transaction CodecProofs.
Open Scope Z_scope.

(** ** Fields *)
Lemma toInt_u256 i : in256 i → toInt 32 (encode (rlp_int i)) = Ok i.
Proof. intros Hi. by apply (toInt_ok i 32). Qed.
Lemma toInt_int4 v : 0 <= v < 2 ^ 31 → toInt 4 (encode (rlp_unsigned v)) = Ok v.
Proof.
  intros Hv. unfold rlp_unsigned. rewrite Z.mod_small by lia. apply (toInt_ok v 4); [|unfold in256, M256]; lia.
Qed.
Lemma toAddress_ok a : is_addr a → toAddress_strict (encode (rlp_hash 20 a)) = Ok a.
Proof. intros Ha. apply (toHash_strict_ok 20); [apply item_ok_hash; lia|exact Ha]. Qed.
Lemma address_not_empty a : rlp_isEmpty (encode (rlp_hash 20 a)) = false.
Proof.
  unfold rlp_isEmpty, rlp_hash. cbn [encode]. pose proof (length_toBE_n 20 a) as Hl.
  destruct (toBE_n 20 a) as [|x [|y l]]; [done|done|]. unfold encode_data, header. rewrite Hl. done.
Qed.

(** ** Signatures *)
Lemma read_signature_ok check c g :
  0 <= c < 2 ^ 30 - 18 → 0 <= sig_v g → sig_isValid g = true →
  read_signature check (c * 2 + 35 + sig_v g) (sig_r g) (sig_s g) = Ok (c, g).
Proof.
  intros Hc Hv Hg. unfold sig_isValid in Hg. rewrite !andb_true_iff, !Z.ltb_lt, Z.leb_le in Hg.
  destruct Hg as [[[[Hv1 Hr] Hs] Hrn] Hsn]. unfold read_signature, isZeroSignature.
  rewrite (proj2 (Z.eqb_neq (sig_r g) 0)) by lia. cbn [andb].
  assert ((if 36 <? c * 2 + 35 + sig_v g then Ok ((c * 2 + 35 + sig_v g - 35) / 2)
           else if (c * 2 + 35 + sig_v g =? 35) || (c * 2 + 35 + sig_v g =? 36) then Ok 0 else Throw InvalidSignature)
          = Ok c) as ->.
  { destruct (Z.ltb_spec 36 (c * 2 + 35 + sig_v g)).
    - f_equal. symmetry. apply (Z.div_unique_pos _ _ _ (sig_v g)); lia.
    - assert (c = 0) as -> by lia. destruct (Z.eqb_spec (0 * 2 + 35 + sig_v g) 35), (Z.eqb_spec (0 * 2 + 35 + sig_v g) 36);
        done || lia. }
  cbn [mbind outcome_bind]. replace (c * 2 + 35 + sig_v g - (c * 2 + 35)) with (sig_v g) by lia.
  rewrite Z.mod_small by lia. destruct g as [r s v]. cbn [sig_r sig_s sig_v] in *.
  unfold sig_isValid. cbn [sig_r sig_s sig_v]. rewrite (proj2 (Z.leb_le v 1)), !(proj2 (Z.ltb_lt _ _)) by done.
  cbn. by rewrite andb_false_r.
Qed.

(** ** The whole transaction *)

(** The type is the one the receiver stands for. *)
Definition type_of_receiver (t : Transaction) : Prop :=
  match t_type t with
  | NullTransaction => False
  | ContractCreation => t_receiveAddress t = 0
  | MessageCall => t_receiveAddress t ≠ VoteAddress
  | VoteMassage => t_receiveAddress t = VoteAddress
  end.
Record tx_wf (t : Transaction) (g : SignatureStruct) : Prop := {
  tx_receiver : type_of_receiver t;
  tx_nonce : in256 (t_nonce t); tx_value : in256 (t_value t); tx_gasPrice : in256 (t_gasPrice t); tx_gas : in256 (t_gas t);
  tx_addr : is_addr (t_receiveAddress t);
  tx_data : Forall is_byte (t_data t);
  tx_vrs : t_vrs t = Some g; tx_sig : sig_isValid g = true; tx_v : 0 <= sig_v g;
  tx_chain : 0 <= t_chainId t < 2 ^ 30 - 18;
  tx_sender : t_sender t = 0 }.

(** The items of the signed form. *)
Definition to_item (t : Transaction) : rlp_item :=
  match t_type t with MessageCall | VoteMassage => rlp_hash 20 (t_receiveAddress t) | _ => rlp_bytes [] end.
Definition signed_items (t : Transaction) (g : SignatureStruct) : list rlp_item :=
  [rlp_int (t_nonce t); rlp_int (t_gasPrice t); rlp_int (t_gas t); to_item t; rlp_int (t_value t); rlp_bytes (t_data t);
   rlp_unsigned (t_chainId t * 2 + 35 + sig_v g); rlp_int (sig_r g); rlp_int (sig_s g)].
Lemma sig_ranges g : sig_isValid g = true → in256 (sig_r g) ∧ in256 (sig_s g) ∧ isZeroSignature (sig_r g) (sig_s g) = false
  ∧ sig_v g <= 1.
Proof.
  unfold sig_isValid, isZeroSignature, in256, M256, c_secp256k1n. rewrite !andb_true_iff, !Z.ltb_lt, Z.leb_le.
  intros [[[[Hv Hr] Hs] Hrn] Hsn]. rewrite (proj2 (Z.eqb_neq (sig_r g) 0)) by lia. split_and!; lia || done.
Qed.
Lemma streamRLP_signed t g :
  tx_wf t g → transaction_streamRLP true false t = Ok (encode (Items (signed_items t g))).
Proof.
  intros [Hr _ _ _ _ _ _ Hg Hs _ _ _]. destruct (sig_ranges g Hs) as (_&_&Hz&_).
  unfold transaction_streamRLP, transaction_items, signature_items, hasZeroSignature. rewrite Hg, Hz.
  rewrite bool_decide_eq_false_2 by (intros E; unfold type_of_receiver in Hr; by rewrite E in Hr). done.
Qed.
Lemma good_signed t g : tx_wf t g → good (Items (signed_items t g)).
Proof.
  intros [_ ? ? ? ? ? Hd _ Hs _ _ _]. destruct (sig_ranges g Hs) as (?&?&_&_).
  apply good_items. unfold signed_items. repeat (apply Forall_cons; split); try (apply Forall_nil; done);
    try (eauto with codec; fail); [|by apply good_bytes].
  unfold to_item. destruct (t_type t); (apply good_hash; lia) || by apply good_bytes.
Qed.
(** The receiver and the type are read from the fourth item. *)
Lemma read_receiver t g :
  tx_wf t g →
  let x := encode (to_item t) in
  (if rlp_isEmpty x then Ok 0 else toAddress_strict x) = Ok (t_receiveAddress t) ∧
  (if rlp_isEmpty x then ContractCreation
   else if bool_decide (t_receiveAddress t = VoteAddress) then VoteMassage else MessageCall) = t_type t.
Proof.
  intros [Hr _ _ _ _ Ha _ _ _ _ _ _]. unfold type_of_receiver in Hr. unfold to_item. cbv zeta.
  destruct (t_type t); [done| | |].
  - by rewrite Hr.
  - rewrite address_not_empty, toAddress_ok by done. by rewrite bool_decide_eq_false_2.
  - rewrite address_not_empty, toAddress_ok by done. by rewrite bool_decide_eq_true_2.
Qed.

Section Wire.
Context `{CR : Crypto}.

Lemma transaction_read_back t g check :
  tx_wf t g → fits (Items (signed_items t g)) → check ≠ CheckEverything →
  transaction_of_rlp check (encode (Items (signed_items t g))) = Ok t.
Proof.
  intros Hw Hf Hc. pose proof (good_signed t g Hw Hf) as Hok. destruct (read_receiver t g Hw) as [Ha Hty].
  destruct Hw as [_ Hn Hv Hp Hg _ Hd Hvrs Hs Hsv Hch Hsd]. destruct (sig_ranges g Hs) as (Hr&Hss&_&Hv1).
  unfold transaction_of_rlp. rewrite RLP_ok by done. cbn [mbind outcome_bind]. rewrite isList_ok by done. cbn [is_items negb].
  cbv zeta.
  rewrite (item_lookup _ 0 _ Hok eq_refl), (item_lookup _ 1 _ Hok eq_refl), (item_lookup _ 2 _ Hok eq_refl),
    (item_lookup _ 3 _ Hok eq_refl), (item_lookup _ 4 _ Hok eq_refl), (item_lookup _ 5 _ Hok eq_refl),
    (item_lookup _ 6 _ Hok eq_refl), (item_lookup _ 7 _ Hok eq_refl), (item_lookup _ 8 _ Hok eq_refl).
  cbn [mbind outcome_bind].
  rewrite (toInt_u256 _ Hn), (toInt_u256 _ Hp), (toInt_u256 _ Hg). cbn [mbind outcome_bind].
  rewrite Ha. cbn [mbind outcome_bind]. rewrite (toInt_u256 _ Hv). cbn [mbind outcome_bind].
  assert (item_ok (rlp_bytes (t_data t))) as Hdo by exact (field_ok _ Hok 5 _ eq_refl).
  rewrite isData_ok by done. cbn [is_items rlp_bytes negb]. rewrite toBytes_ok by done. cbn [mbind outcome_bind].
  rewrite toInt_int4 by lia. cbn [mbind outcome_bind].
  rewrite (toInt_u256 _ Hr), (toInt_u256 _ Hss). cbn [mbind outcome_bind].
  unfold int32_of. destruct (Z.ltb_spec (t_chainId t * 2 + 35 + sig_v g) (2 ^ 31)); [|lia].
  rewrite read_signature_ok by done. cbn [mbind outcome_bind fst snd]. rewrite bool_decide_eq_false_2 by done.
  cbn [mbind outcome_bind]. rewrite itemCount_ok by done. cbn [mbind outcome_bind length signed_items].
  rewrite Hty. destruct t. cbn in *. by subst.
Qed.
End Wire.

(** ** Arbitrary input

    Whatever the bytes, reading them returns or throws: the loops over the items of a list
    advance by at least one byte in each round. *)
Definition total {A} (o : outcome A) : Prop := match o with Ok _ | Throw _ => True | _ => False end.
Lemma total_ok {A} (x : A) : total (Ok x).
Proof. done. Qed.
Lemma total_throw {A} e : total (Throw (A:=A) e).
Proof. done. Qed.
Lemma total_bind {A B} (m : outcome A) (k : A → outcome B) : total m → (∀ x, m = Ok x → total (k x)) → total (m ≫= k).
Proof. destruct m; cbn; auto. Qed.

Create HintDb total discriminated.
#[export] Hint Resolve total_ok total_throw : total.
Ltac total_step :=
  lazymatch goal with
  | |- ∀ _, _ => intros ?
  | |- total (let _ := _ in _) => cbv zeta
  | |- total (if ?b then _ else _) => destruct b
  | |- total (match ?x with _ => _ end) => destruct x
  | |- total (_ ≫= _) => apply total_bind
  | |- total _ => solve [ auto with total ]
  end.
Ltac total_tac := repeat total_step.

Lemma requireGood_total d : total (requireGood d).
Proof. unfold requireGood. total_tac. Qed.
#[export] Hint Resolve requireGood_total : total.
Lemma long_length_total d n m : total (long_length d n m).
Proof. unfold long_length. total_tac. Qed.
#[export] Hint Resolve long_length_total : total.
Lemma rlp_length_total d : total (rlp_length d).
Proof. unfold rlp_length. total_tac. Qed.
#[export] Hint Resolve rlp_length_total : total.
Lemma actualSize_total d : total (actualSize d).
Proof. unfold actualSize. total_tac. Qed.
#[export] Hint Resolve actualSize_total : total.
Lemma RLP_ge_total d : total (RLP_ge d).
Proof. unfold RLP_ge. total_tac. Qed.
#[export] Hint Resolve RLP_ge_total : total.
Lemma RLP_total d : total (RLP d).
Proof. unfold RLP. total_tac. Qed.
Lemma sizeAsEncoded_total d : total (sizeAsEncoded d).
Proof. unfold sizeAsEncoded. total_tac. Qed.
Lemma payload_total d : total (payload d).
Proof. unfold payload. total_tac. Qed.
Lemma isInt_total d : total (isInt d).
Proof. unfold isInt. total_tac. Qed.
#[export] Hint Resolve RLP_total sizeAsEncoded_total payload_total isInt_total : total.
Lemma walk_total i d : total (walk i d).
Proof. revert d. induction i as [|i IH]; intros d; simpl; total_tac. Qed.
#[export] Hint Resolve walk_total : total.

(** *** Progress *)
Lemma long_length_ge d n m r : long_length d n m = Ok r → m <= r.
Proof. unfold long_length. repeat (case_match; try done). intros [= <-]. lia. Qed.
Lemma rlp_length_nonneg d n : rlp_length d = Ok n → 0 <= n.
Proof.
  unfold rlp_length. destruct (isNull d); [intros [= <-]; done|].
  destruct (requireGood d); [|done..]. cbn [mbind outcome_bind]. cbv zeta. rlp_consts.
  repeat (case_match; [first [intros [= <-]; lia | intros H'%long_length_ge; lia]|]). intros H'%long_length_ge. lia.
Qed.
Lemma lengthSize_nonneg d : 0 <= lengthSize d.
Proof.
  unfold lengthSize. rlp_consts.
  destruct (isData d && _) eqn:E1; [apply andb_true_iff in E1 as [_ E1]; lia|].
  destruct (isList d && _) eqn:E2; [apply andb_true_iff in E2 as [_ E2]; lia|done].
Qed.
(** An item takes at least one byte. *)
Lemma sizeAsEncoded_pos d n : isNull d = false → sizeAsEncoded d = Ok n → 1 <= n.
Proof.
  intros Hd. unfold sizeAsEncoded, RLP_ge. pose proof (actualSize_total d) as Ht.
  assert (∀ n, actualSize d = Ok n → 1 <= n) as Ha.
  { intros k. unfold actualSize. rewrite Hd. destruct (isSingleByte d) eqn:Es; [intros [= <-]; done|].
    destruct (rlp_length d) as [l|?| | |] eqn:El; try done. intros [= <-]. apply rlp_length_nonneg in El.
    unfold payloadOffset. rewrite Es. pose proof (lengthSize_nonneg d). lia. }
  destruct (actualSize d) as [k|?| | |] eqn:Ek; try done. cbn [mbind outcome_bind].
  destruct (_ <? _); [done|]. cbn [mbind outcome_bind]. rewrite Ek. intros [= <-]. by apply Ha.
Qed.
Lemma split_items_total fuel d : (length d <= fuel)%nat → total (split_items fuel d).
Proof.
  revert d. induction fuel as [|fuel IH]; intros d Hd; simpl.
  - by destruct d; [|cbn in Hd; lia].
  - destruct (isNull d) eqn:En; [done|]. apply total_bind; [auto with total|]. intros n Hn.
    apply sizeAsEncoded_pos in Hn; [|done]. apply total_bind; [|done]. apply IH.
    unfold cropped_from. rewrite length_drop. assert (d ≠ []) by (intros ->; done). destruct d; [done|]. cbn in *. lia.
Qed.
Lemma rlp_list_total d : total (rlp_list d).
Proof. unfold rlp_list. destruct (isList d); [|done]. apply total_bind; [auto with total|]. intros. by apply split_items_total. Qed.
#[export] Hint Resolve rlp_list_total : total.

Lemma item_total d i : total (item d i).
Proof. unfold item. total_tac. Qed.
Lemma toInt_total n d : total (toInt n d).
Proof. unfold toInt. total_tac. Qed.
Lemma toAddress_total d : total (toAddress_strict d).
Proof. unfold toAddress_strict, toHash_strict. total_tac. Qed.
Lemma toBytes_total d : total (toBytes d).
Proof. unfold toBytes. total_tac. Qed.
Lemma itemCount_total d : total (itemCount d).
Proof. unfold itemCount. total_tac. Qed.
Lemma read_signature_total c v r s : total (read_signature c v r s).
Proof. unfold read_signature. total_tac. Qed.
#[export] Hint Resolve item_total toInt_total toAddress_total toBytes_total itemCount_total read_signature_total : total.
Lemma sender_total `{CR : Crypto} t : total (sender t).
Proof.
  unfold sender, transaction_sha3, transaction_streamRLP, transaction_items, signature_items. total_tac.
Qed.
#[export] Hint Resolve sender_total : total.
Lemma transaction_of_rlp_total `{CR : Crypto} c d : total (transaction_of_rlp c d).
Proof. unfold transaction_of_rlp. total_tac. Qed.
