(* ===== verification/Wire.v ===== *)
(** * What can be read from any bytes

    The readers of [RLP] applied to bytes nobody vouches for: what they return is part of
    the input and within the machine type it is read as; the items a list is counted to
    have are the items [operator[]] returns, and none is empty. *)
From stdpp Require Import base gmap list.
From Stdlib Require Import ZArith Lia.
From S2P Require Import Prelude Rlp RlpProofs TransactionProofs.
Open Scope Z_scope.

Ltac ok_bind H x Hx :=
  lazymatch type of H with
  | mbind _ ?o = Ok _ => destruct o as [x|?| | |] eqn:Hx; cbn [mbind outcome_bind] in H; [|discriminate H..]
  end.

Lemma sublist_Forall {A} (P : A → Prop) l k : l `sublist_of` k → Forall P k → Forall P l.
Proof. induction 1; [done|intros [??]%Forall_cons; constructor; auto|intros [??]%Forall_cons; auto]. Qed.
Lemma fromBE_range b : Forall is_byte b → 0 <= fromBE b < 256 ^ len b.
Proof.
  induction b as [|x b IH] using rev_ind; intros Hb; [cbn; lia|]. apply Forall_app in Hb as [Hb [Hx _]%Forall_cons].
  specialize (IH Hb). rewrite fromBE_snoc, length_app, Nat2Z.inj_add, Z.pow_add_r by lia. cbn [length]. change (256 ^ Z.of_nat 1) with 256.
  unfold is_byte in Hx. lia.
Qed.

(** ** Views *)
Lemma cropped_sub d b n : cropped d b n `sublist_of` d.
Proof. unfold cropped. destruct (_ <=? _); [|apply sublist_nil_l]. etrans; [apply sublist_take|apply sublist_drop]. Qed.
Lemma payload_sub d p : payload d = Ok p → p `sublist_of` d.
Proof. unfold payload. intros E. ok_bind E l El. destruct (_ <? _); [done|]. injection E as <-. apply cropped_sub. Qed.
Lemma RLP_ge_same d x : RLP_ge d = Ok x → x = d.
Proof. unfold RLP_ge. intros E. ok_bind E n En. destruct (_ <? _); [done|]. by injection E. Qed.
Lemma RLP_same d x : RLP d = Ok x → x = d.
Proof. unfold RLP. intros E. ok_bind E n En. destruct (_ <? _); [done|]. by apply RLP_ge_same. Qed.
Lemma walk_sub i : ∀ d x, walk i d = Ok x → x `sublist_of` d.
Proof.
  induction i as [|i IH]; intros d x E; cbn [walk] in E; ok_bind E n En; [injection E as <-; apply cropped_sub|].
  destruct (n =? 0); [injection E as <-; apply sublist_nil_l|]. etrans; [by apply IH|apply sublist_drop].
Qed.
Lemma item_sub d i x : item d i = Ok x → x `sublist_of` d.
Proof.
  unfold item. intros E. ok_bind E p Ep. ok_bind E y Ey. apply RLP_ge_same in E as ->.
  etrans; [by eapply walk_sub|by apply payload_sub].
Qed.

(** ** Values *)
Lemma toInt_range n d x : Forall is_byte d → toInt n d = Ok x → 0 <= x < 256 ^ n.
Proof.
  unfold toInt. intros Hd E. ok_bind E u Eu. ok_bind E b Eb. destruct (_ || _); [done|]. ok_bind E p Ep.
  destruct (Z.ltb_spec n (len p)); [done|]. injection E as <-.
  pose proof (fromBE_range p (sublist_Forall _ _ _ (payload_sub _ _ Ep) Hd)).
  pose proof (Z.pow_le_mono_r 256 (len p) n). lia.
Qed.
Lemma toHash_strict_range n d x : Forall is_byte d → toHash_strict n d = Ok x → 0 <= x < 256 ^ n.
Proof.
  unfold toHash_strict. intros Hd E. ok_bind E u Eu. ok_bind E p Ep. destruct (negb _); [done|]. cbn [orb] in E.
  case_bool_decide as El; [done|]. injection E as <-. replace n with (len p) by lia.
  apply fromBE_range, (sublist_Forall _ _ d); [by apply payload_sub|done].
Qed.
Lemma toBytes_sub d b : toBytes d = Ok b → b `sublist_of` d.
Proof. unfold toBytes. destruct (isData d); [apply payload_sub|]. intros [= <-]. apply sublist_nil_l. Qed.

(** ** Items of a list *)
Lemma sizeAsEncoded_le d n : sizeAsEncoded d = Ok n → n <= len d.
Proof.
  unfold sizeAsEncoded, RLP_ge. intros E. ok_bind E x Ex. ok_bind Ex k Ek. destruct (Z.ltb_spec (len d) k); [done|].
  injection Ex as <-. rewrite Ek in E. by injection E as <-.
Qed.
Lemma split_walk fuel : ∀ d l i x, split_items fuel d = Ok l → l !! i = Some x → walk i d = Ok x ∧ x ≠ [].
Proof.
  induction fuel as [|fuel IH]; intros d l i x E Hx; cbn [split_items] in E; destruct (isNull d) eqn:Ed;
    [by injection E as <-|done|by injection E as <-|].
  ok_bind E n En. ok_bind E r Er. injection E as <-. pose proof (sizeAsEncoded_pos _ _ Ed En) as H1. pose proof (sizeAsEncoded_le _ _ En) as H2.
  destruct i as [|i]; cbn [walk]; rewrite En; cbn [mbind outcome_bind].
  - injection Hx as <-. unfold cropped. destruct (Z.leb_spec (0 + n) (len d)); [|lia]. split; [done|].
    intros Hn%(f_equal length). rewrite length_take in Hn. cbn [length] in Hn. lia.
  - destruct (Z.eqb_spec n 0); [lia|]. by apply (IH _ r).
Qed.
Lemma split_length fuel : ∀ d l, split_items fuel d = Ok l → (length l <= length d)%nat.
Proof.
  induction fuel as [|fuel IH]; intros d l E; cbn [split_items] in E; destruct (isNull d) eqn:Ed;
    [injection E as <-; cbn; lia|done|injection E as <-; cbn; lia|].
  ok_bind E n En. ok_bind E r Er. injection E as <-. pose proof (sizeAsEncoded_pos _ _ Ed En) as H1. pose proof (sizeAsEncoded_le _ _ En) as H2.
  apply IH in Er. unfold cropped_from in Er. rewrite length_drop in Er. cbn [length]. lia.
Qed.
(** The items counted by [itemCount] are returned by [operator[]]. *)
Lemma mapO_Ok {A B} (f : A → outcome B) l ys : mapO f l = Ok ys → Forall2 (λ x y, f x = Ok y) l ys.
Proof.
  revert ys. induction l as [|x l IH]; intros ys E; cbn [mapO] in E; [by injection E as <-|].
  ok_bind E y Ey. ok_bind E zs Ez. injection E as <-. constructor; auto.
Qed.
Lemma counted_items d n l : itemCount d = Ok n → mapO (item d) (seq 0 (Z.to_nat n)) = Ok l →
  n = len l ∧ n <= len d ∧ Forall (λ x, x ≠ [] ∧ x `sublist_of` d) l.
Proof.
  unfold itemCount, rlp_list. intros E Hl%mapO_Ok. ok_bind E k Ek. injection E as <-. destruct (isList d); [|injection Ek as <-].
  - ok_bind Ek p Ep. pose proof (split_length _ _ _ Ek). pose proof (sublist_length _ _ (payload_sub _ _ Ep)).
    pose proof (Forall2_length _ _ _ Hl) as Hn. rewrite length_seq in Hn. split; [lia|]. split; [lia|].
    apply Forall_lookup. intros i x Hx. destruct (Forall2_lookup_r _ _ _ _ _ Hl Hx) as (j&Hj&E). apply lookup_seq in Hj as [-> ?].
    split; [|by eapply item_sub]. destruct (lookup_lt_is_Some_2 k (0 + i)) as [y Hy]; [lia|]. destruct (split_walk _ _ _ _ _ Ek Hy) as [Ew Hne].
    unfold item in E. rewrite Ep in E. cbn [mbind outcome_bind] in E. rewrite Ew in E. cbn [mbind outcome_bind] in E. by apply RLP_ge_same in E as ->.
  - cbn in Hl. apply Forall2_nil_inv_l in Hl as ->. cbn. split; [done|]. split; [lia|done].
Qed.

Lemma split_sub fuel : ∀ d l, split_items fuel d = Ok l → Forall (λ x, x `sublist_of` d) l.
Proof.
  induction fuel as [|fuel IH]; intros d l E; cbn [split_items] in E; destruct (isNull d);
    [by injection E as <-|done|by injection E as <-|].
  ok_bind E n En. ok_bind E r Er. injection E as <-. constructor; [apply sublist_take|].
  eapply Forall_impl; [by apply IH|]. intros x Hx. etrans; [exact Hx|apply sublist_drop].
Qed.
Lemma rlp_list_sub d l : rlp_list d = Ok l → Forall (λ x, x `sublist_of` d) l.
Proof.
  unfold rlp_list. intros E. destruct (isList d); [|by injection E as <-]. ok_bind E p Ep. apply payload_sub in Ep.
  eapply Forall_impl; [by eapply split_sub|]. intros x Hx. etrans; [exact Hx|exact Ep].
Qed.
