(* ===== verification/BlockHeader.v ===== *)
(** * Block headers (libbrccore/BlockHeader.cpp, BlockHeader.h, SealEngine.cpp)

    The fields of a header, its RLP, the two hashes it keeps, the signature of the
    producer and the checks a header passes before its block is looked at. *)
From stdpp Require Import base gmap list.
From Stdlib Require Import ZArith Lia.
From S2P Require Import Prelude Rlp Interfaces Trie TrieHash Codec Transaction.
Open Scope Z_scope.

(** [IncludeSeal]: bits *)
Definition WithoutSeal : Z := 1.
Definition WithSeal : Z := 2.
Definition OnlySeal : Z := 4.
Definition WithoutSign : Z := 8.
Definition has_flag (_i f : Z) : bool := Z.land _i f =? f.

(** [Strictness] *)
Inductive Strictness := StrictEverything | JustSeal | QuickNonce | IgnoreSeal | CheckNothingNew.
#[export] Instance Strictness_eq_dec : EqDecision Strictness.
Proof. solve_decision. Defined.

Definition BasicFields : Z := 14.

(** [h_hash] and [h_hashWithout] are memos; 0 when there is none. *)
Record BlockHeader := mkHeader {
  h_parentHash : h256; h_sha3Uncles : h256; h_stateRoot : h256; h_transactionsRoot : h256; h_receiptsRoot : h256;
  h_logBloom : Z; h_number : int64; h_gasLimit : u256; h_gasUsed : u256; h_extraData : bytes; h_timestamp : int64;
  h_author : Address; h_difficulty : u256; h_chain_id : u256;
  h_seal : list bytes; h_hash : h256; h_hashWithout : h256; h_sign_data : SignatureStruct }.
#[export] Instance BlockHeader_reshape : Reshape BlockHeader :=
  λ h, mkHeader (h_parentHash h) (h_sha3Uncles h) (h_stateRoot h) (h_transactionsRoot h) (h_receiptsRoot h) (h_logBloom h)
    (h_number h) (h_gasLimit h) (h_gasUsed h) (h_extraData h) (h_timestamp h) (h_author h) (h_difficulty h) (h_chain_id h)
    (h_seal h) (h_hash h) (h_hashWithout h) (h_sign_data h).
#[export] Instance h_parentHash_field : Field h_parentHash := ltac:(field_setter).
#[export] Instance h_sha3Uncles_field : Field h_sha3Uncles := ltac:(field_setter).
#[export] Instance h_stateRoot_field : Field h_stateRoot := ltac:(field_setter).
#[export] Instance h_transactionsRoot_field : Field h_transactionsRoot := ltac:(field_setter).
#[export] Instance h_receiptsRoot_field : Field h_receiptsRoot := ltac:(field_setter).
#[export] Instance h_number_field : Field h_number := ltac:(field_setter).
#[export] Instance h_gasLimit_field : Field h_gasLimit := ltac:(field_setter).
#[export] Instance h_gasUsed_field : Field h_gasUsed := ltac:(field_setter).
#[export] Instance h_timestamp_field : Field h_timestamp := ltac:(field_setter).
#[export] Instance h_author_field : Field h_author := ltac:(field_setter).
#[export] Instance h_difficulty_field : Field h_difficulty := ltac:(field_setter).
#[export] Instance h_chain_id_field : Field h_chain_id := ltac:(field_setter).
#[export] Instance h_seal_field : Field h_seal := ltac:(field_setter).
#[export] Instance h_hash_field : Field h_hash := ltac:(field_setter).
#[export] Instance h_hashWithout_field : Field h_hashWithout := ltac:(field_setter).
#[export] Instance h_sign_data_field : Field h_sign_data := ltac:(field_setter).

(** The default constructor; [operator bool]. *)
Definition header_new : BlockHeader := mkHeader 0 0 0 0 0 0 0 0 0 [] (-1) 0 0 0 [] 0 0 (mkSig 0 0 0).
Definition header_bool (h : BlockHeader) : bool := negb (h_timestamp h =? -1).
Definition noteDirty (h : BlockHeader) : BlockHeader := h <| h_hash := 0 |> <| h_hashWithout := 0 |>.
Definition setParentHash (v : h256) (h : BlockHeader) : BlockHeader := noteDirty (h <| h_parentHash := v |>).
Definition setSha3Uncles (v : h256) (h : BlockHeader) : BlockHeader := noteDirty (h <| h_sha3Uncles := v |>).
Definition setTimestamp (v : int64) (h : BlockHeader) : BlockHeader := noteDirty (h <| h_timestamp := v |>).
Definition setAuthor (v : Address) (h : BlockHeader) : BlockHeader := noteDirty (h <| h_author := v |>).
Definition setRoots (t r u s : h256) (h : BlockHeader) : BlockHeader :=
  noteDirty (h <| h_transactionsRoot := t |> <| h_receiptsRoot := r |> <| h_sha3Uncles := u |> <| h_stateRoot := s |>).
Definition setGasUsed (v : u256) (h : BlockHeader) : BlockHeader := noteDirty (h <| h_gasUsed := v |>).
(** [setSeal(_offset, _value)], with the RLP of the value. *)
Definition setSeal (_offset : nat) (rlp_value : bytes) (h : BlockHeader) : BlockHeader :=
  let seal := h_seal h ++ replicate (S _offset - length (h_seal h)) [] in
  noteDirty (h <| h_seal := <[_offset := rlp_value]> seal |>).

Definition populateFromParent (_parent h : BlockHeader) : BlockHeader :=
  h <| h_stateRoot := h_stateRoot _parent |> <| h_number := h_number _parent + 1 |> <| h_parentHash := h_hash _parent |>
    <| h_gasLimit := h_gasLimit _parent |> <| h_difficulty := h_difficulty _parent |> <| h_gasUsed := 0 |>
    <| h_chain_id := h_chain_id _parent |>.

(** ** RLP *)

(** [SignatureStruct] as the 65 bytes of an [h520], and back. *)
Definition h520_of (g : SignatureStruct) : Z := (sig_r g * 2 ^ 256 + sig_s g) * 256 + sig_v g.
Definition sig_of_h520 (x : Z) : SignatureStruct := mkSig (x / 2 ^ 264) (x / 256 mod 2 ^ 256) (x mod 256).

Fixpoint stream_items (l : list (RLPStream → outcome RLPStream)) (s : RLPStream) : outcome RLPStream :=
  match l with [] => Ok s | f :: l => s ← f s; stream_items l s end.
(** [m_number] is an [int64_t]: [append(unsigned)] takes it. *)
Definition streamRLPFields (_i : Z) (h : BlockHeader) : RLPStream → outcome RLPStream :=
  stream_items ([append_bytes (toBE_n 32 (h_parentHash h)); append_bytes (toBE_n 32 (h_sha3Uncles h));
    append_bytes (toBE_n 20 (h_author h)); append_bytes (toBE_n 32 (h_stateRoot h));
    append_bytes (toBE_n 32 (h_transactionsRoot h)); append_bytes (toBE_n 32 (h_receiptsRoot h));
    append_bytes (toBE_n 256 (h_logBloom h)); append_int (h_difficulty h); append_int (u32 (h_number h));
    append_int (h_gasLimit h); append_int (h_gasUsed h); append_int (w256 (h_timestamp h)); append_int (h_chain_id h);
    append_bytes (h_extraData h)]
    ++ if has_flag _i WithoutSign then [] else [append_bytes (toBE_n 65 (h520_of (h_sign_data h)))]).
Definition header_streamRLP (_i : Z) (h : BlockHeader) (_s : RLPStream) : outcome RLPStream :=
  s ← (if bool_decide (_i ≠ OnlySeal) then
         let size := BasicFields + (if has_flag _i WithoutSeal then 0 else len (h_seal h))
                     + (if has_flag _i WithoutSign then 0 else 1) in
         s ← appendList size _s; streamRLPFields _i h s
       else Ok _s);
  if has_flag _i WithoutSeal then Ok s else stream_items ((λ b, appendRaw b 1) <$> h_seal h) s.

(** [toPositiveInt64]: the eight bytes are put together in an [int64_t]. *)
Definition toPositiveInt64 (d : bytes) : outcome int64 :=
  i ← toInt 8 d; let i := if i <? 2 ^ 63 then i else i - 2 ^ 64 in if i <? 0 then Throw BadCast else Ok i.

(** [_header[i]] for [i] from [from] on, as raw bytes. *)
Definition seal_items (_header : bytes) (from : nat) : outcome (list bytes) :=
  n ← itemCount _header; mapO (item _header) (seq from (Z.to_nat n - from)).
Definition populate (_header : bytes) (hash : h256) : outcome BlockHeader :=
  let hash_field n i := x ← item _header i; toHash_strict n x in
  let int_field i := x ← item _header i; toInt 32 x in
  parentHash ← hash_field 32 0%nat;
  sha3Uncles ← hash_field 32 1%nat;
  author ← hash_field 20 2%nat;
  stateRoot ← hash_field 32 3%nat;
  transactionsRoot ← hash_field 32 4%nat;
  receiptsRoot ← hash_field 32 5%nat;
  logBloom ← hash_field 256 6%nat;
  difficulty ← int_field 7%nat;
  number ← (x ← item _header 8; toPositiveInt64 x);
  gasLimit ← int_field 9%nat;
  gasUsed ← int_field 10%nat;
  timestamp ← int_field 11%nat;
  chain_id ← int_field 12%nat;
  extraData ← (x ← item _header 13; toBytes x);
  sign_data ← hash_field 65 14%nat;
  seal ← seal_items _header 14;
  Ok (mkHeader parentHash sha3Uncles stateRoot transactionsRoot receiptsRoot logBloom number gasLimit gasUsed extraData
    (int64_of timestamp) author difficulty chain_id seal hash 0 (sig_of_h520 sign_data)).

Definition extractHeader (_block : bytes) : outcome bytes :=
  root ← RLP _block;
  if negb (isList root) then Throw InvalidBlockFormat
  else
    header ← item root 0;
    if negb (isList header) then Throw InvalidBlockFormat
    else
      x1 ← item root 1;
      if negb (isList x1) then Throw InvalidBlockFormat
      else
        x2 ← item root 2;
        if negb (isList x2) then Throw InvalidBlockFormat else Ok header.

Section BlockHeader.
Context `{CR : Crypto}.

Definition EmptyListSHA3 : h256 := sha3 [0xc0].

(** [headerHashFromBlock] *)
Definition headerHashFromBlock (_block : bytes) : outcome h256 :=
  root ← RLP _block; header ← item root 0; Ok (sha3 header).
(** The constructors from the bytes of a block, and from those of a header whose hash
    is known ([_hashWith], 0 when it is not). *)
Definition header_of_block (_block : bytes) : outcome BlockHeader :=
  header ← extractHeader _block; populate header (sha3 header).
Definition header_of_data (_data : bytes) (_hashWith : h256) : outcome BlockHeader :=
  header ← RLP _data; populate header (if bool_decide (_hashWith ≠ 0) then _hashWith else sha3 header).

(** [hash(_i)]: the memo of [WithSeal] or of [WithoutSeal] is filled and returned. *)
Definition header_hash (_i : Z) : ST BlockHeader h256 :=
  h ← getS;
  let memo := if has_flag _i WithSeal then h_hash h else if has_flag _i WithoutSeal then h_hashWithout h else 0 in
  if bool_decide (memo ≠ 0) then mret memo
  else
    s ← lift (header_streamRLP _i h stream_empty);
    b ← lift (out s);
    let x := sha3 b in
    modS (λ h, if has_flag _i WithSeal then h <| h_hash := x |>
               else if has_flag _i WithoutSeal then h <| h_hashWithout := x |> else h);;
    mret x.

(** ** The producer's signature *)

(** The hash that is signed: the RLP of the header hash is hashed once more. *)
Definition signed_hash : ST BlockHeader h256 :=
  h ← header_hash (Z.lor WithoutSign WithoutSeal); mret (sha3 (encode (rlp_hash 32 h))).
Definition sign_block (sign : h256 → SignatureStruct) : ST BlockHeader unit :=
  _hash ← signed_hash; modS (λ h, h <| h_sign_data := sign _hash |>).
Definition verfy_sign : ST BlockHeader bool :=
  h ← getS;
  if h_number h <=? 0 then mret true
  else
    _hash ← signed_hash;
    let g := h_sign_data h in
    let p := recover (sig_r g) (sig_s g) (sig_v g) _hash in
    mret (negb (p =? 0) && (h_author h =? right160 (sha3 (toBE_n 64 p)))).

(** ** Verification *)

(** [trieRootOver] over the transactions of a block. *)
Definition transactions_root (txList : bytes) : outcome h256 :=
  n ← itemCount txList;
  txs ← mapO (item txList) (seq 0 (Z.to_nat n));
  trieRootOver (Z.to_nat n) rlp_index (λ i, nth i txs []).

Definition verify_parent (_parent : BlockHeader) : ST BlockHeader unit :=
  h ← getS;
  (if bool_decide (h_parentHash h ≠ 0) then
     ph ← lift (header_hash WithSeal _parent).1;
     if bool_decide (ph ≠ h_parentHash h) then throw InvalidParentHash else mret tt
   else mret tt);;
  if h_timestamp h <=? h_timestamp _parent then throw InvalidTimestamp
  else if bool_decide (h_number h ≠ h_number _parent + 1) then throw InvalidNumber else mret tt.
Definition verify_content (_block : bytes) : ST BlockHeader unit :=
  h ← getS;
  root ← lift (RLP _block);
  txList ← lift (item root 1);
  expectedRoot ← lift (transactions_root txList);
  if bool_decide (h_transactionsRoot h ≠ expectedRoot) then throw InvalidTransactionsRoot
  else
    uncles ← lift (item root 2);
    if bool_decide (h_sha3Uncles h ≠ sha3 uncles) then throw InvalidUnclesHash else mret tt.

(** [BlockHeader::verify]; no parent is the default header, no block the empty view.
    What the code computes only to log it before it throws is left out. *)
Definition header_verify (_s : Strictness) (_parent : BlockHeader) (_block : bytes) : ST BlockHeader unit :=
  ok ← verfy_sign;
  if negb ok then throw InvalidBlockSignature
  else
    h ← getS;
    if 2 ^ 32 - 1 <? h_number h then throw InvalidNumber
    else if negb (bool_decide (_s = CheckNothingNew)) && (h_gasLimit h <? h_gasUsed h) then throw TooMuchGasUsed
    else
      when (header_bool _parent) (verify_parent _parent);;
      when (bool_decide (_block ≠ [])) (verify_content _block).

(** [ChainOperationParams]: what the checks of headers read. *)
Record HeaderParams := mkHeaderParams {
  p_chainID : Z; minimumDifficulty : u256; minGasLimit : u256; maxGasLimit : u256; maximumExtraDataSize : u256;
  gasLimitBoundDivisor : u256 }.

(** [SealEngineFace::verify], which [SHDpos::verify] calls and nothing else. *)
Definition verify_new (p : HeaderParams) : ST BlockHeader unit :=
  h ← getS;
  if bool_decide (h_chain_id h ≠ p_chainID p) then throw InvalidSignature
  else if h_difficulty h <? minimumDifficulty p then throw InvalidDifficulty
  else if h_gasLimit h <? minGasLimit p then throw InvalidGasLimit
  else if maxGasLimit p <? h_gasLimit h then throw InvalidGasLimit
  else if negb (h_number h =? 0) && (maximumExtraDataSize p <? len (h_extraData h)) then throw ExtraDataTooBig
  else mret tt.
(** The conditions are tried in turn; the bounds divide by the divisor. *)
Definition verify_gasLimit (p : HeaderParams) (_parent : BlockHeader) : ST BlockHeader unit :=
  h ← getS;
  let gasLimit := h_gasLimit h in
  let parentGasLimit := h_gasLimit _parent in
  if (gasLimit <? minGasLimit p) || (maxGasLimit p <? gasLimit) then throw InvalidGasLimit
  else
    q ← u256_div parentGasLimit (gasLimitBoundDivisor p);
    if (gasLimit <=? parentGasLimit [-] q) || (parentGasLimit [+] q <=? gasLimit) then throw InvalidGasLimit else mret tt.
Definition seal_verify (p : HeaderParams) (_s : Strictness) (_parent : BlockHeader) (_block : bytes) : ST BlockHeader unit :=
  header_verify _s _parent _block;;
  when (negb (bool_decide (_s = CheckNothingNew))) (verify_new p);;
  when (header_bool _parent) (verify_gasLimit p _parent).
End BlockHeader.
