(* ===== verification/BlockHeaderProofs.v ===== *)
(** * Headers on the wire and their checks

    A header is read back from its RLP; the hash that is signed covers every field;
    [seal_verify] accepts a header exactly when it obeys the rules in [accepted]. *)
From stdpp Require Import base gmap list.
From Stdlib Require Import ZArith Lia.
From S2P Require Import Prelude Rlp RlpProofs Interfaces Trie TrieCode TrieHash Codec Transaction CodecProofs TransactionProofs BlockHeader.
Open Scope Z_scope.

(** ** The items of a header *)
Record header_wf (h : BlockHeader) : Prop := {
  hw_parentHash : in256 (h_parentHash h); hw_sha3Uncles : in256 (h_sha3Uncles h); hw_stateRoot : in256 (h_stateRoot h);
  hw_transactionsRoot : in256 (h_transactionsRoot h); hw_receiptsRoot : in256 (h_receiptsRoot h);
  hw_logBloom : 0 <= h_logBloom h < 256 ^ 256; hw_number : 0 <= h_number h < 2 ^ 63;
  hw_gasLimit : in256 (h_gasLimit h); hw_gasUsed : in256 (h_gasUsed h); hw_extraData : Forall is_byte (h_extraData h) ∧ len (h_extraData h) < 2 ^ 32;
  hw_timestamp : is_int64 (h_timestamp h); hw_author : is_addr (h_author h); hw_difficulty : in256 (h_difficulty h);
  hw_chain_id : in256 (h_chain_id h);
  hw_sig : in256 (sig_r (h_sign_data h)) ∧ in256 (sig_s (h_sign_data h)) ∧ is_u8 (sig_v (h_sign_data h)) }.

Definition header_fields (h : BlockHeader) : list rlp_item :=
  [rlp_hash 32 (h_parentHash h); rlp_hash 32 (h_sha3Uncles h); rlp_hash 20 (h_author h); rlp_hash 32 (h_stateRoot h);
   rlp_hash 32 (h_transactionsRoot h); rlp_hash 32 (h_receiptsRoot h); rlp_hash 256 (h_logBloom h); rlp_int (h_difficulty h);
   rlp_unsigned (h_number h); rlp_int (h_gasLimit h); rlp_int (h_gasUsed h); rlp_time (h_timestamp h); rlp_int (h_chain_id h);
   rlp_bytes (h_extraData h)].
Definition sign_item (h : BlockHeader) : rlp_item := rlp_hash 65 (h520_of (h_sign_data h)).
(** What [streamRLP] writes with the flags [_i], for a seal of the items [sl]. *)
Definition header_items (_i : Z) (h : BlockHeader) (sl : list rlp_item) : list rlp_item :=
  header_fields h ++ (if has_flag _i WithoutSign then [] else [sign_item h]) ++ (if has_flag _i WithoutSeal then [] else sl).

Lemma good_hash_any n h : good (rlp_hash n h).
Proof. intros Hf. split; [apply toBE_n_bytes|done]. Qed.
Lemma sign_item_ok h : item_ok (sign_item h).
Proof.
  apply good_hash_any. unfold fits, sign_item, rlp_hash. pose proof (encode_data_len (toBE_n 65 (h520_of (h_sign_data h)))) as Hd.
  rewrite length_toBE_n in Hd. unfold SIZE_MAX in *. lia.
Qed.
Lemma good_fields h : header_wf h → Forall good (header_fields h).
Proof.
  intros Hw. unfold header_fields. repeat (apply Forall_cons; split); lazymatch goal with
    | |- good (rlp_hash _ _) => apply good_hash_any
    | |- good (rlp_int _) => apply good_int; apply Hw
    | |- good (rlp_time _) => apply good_time
    | |- good (rlp_unsigned _) => apply good_unsigned
    | |- good (rlp_bytes _) => apply good_bytes; apply Hw
    | |- _ => by apply Forall_nil
    end.
Qed.
(** A seal of moderate size. *)
Definition seal_ok (sl : list rlp_item) : Prop := Forall item_ok sl ∧ len (concat (encode <$> sl)) < 2 ^ 40.
Lemma encode_hash_len n h : (n <= 256)%nat → len (encode (rlp_hash n h)) <= 2 ^ 33.
Proof.
  intros Hn. unfold rlp_hash. pose proof (encode_data_len (toBE_n n h)) as Hd. rewrite length_toBE_n in Hd. unfold SIZE_MAX in Hd. lia.
Qed.
Lemma encode_int_len i : in256 i → len (encode (rlp_int i)) <= 2 ^ 33.
Proof.
  intros Hi. unfold rlp_int. pose proof (encode_data_len (toBE i)) as Hd. pose proof (toBE_len i 32 Hi). unfold SIZE_MAX in Hd. lia.
Qed.
Lemma fields_len h : header_wf h → Forall (λ x, len (encode x) <= 2 ^ 33) (header_fields h).
Proof.
  intros Hw. unfold header_fields. repeat (apply Forall_cons; split); lazymatch goal with
    | |- len (encode (rlp_hash _ _)) <= _ => apply encode_hash_len; lia
    | |- len (encode (rlp_int _)) <= _ => apply encode_int_len; apply Hw
    | |- len (encode (rlp_time _)) <= _ => apply encode_int_len, w256_in
    | |- len (encode (rlp_unsigned _)) <= _ =>
        apply encode_int_len; unfold in256, M256; pose proof (Z.mod_pos_bound (h_number h) (2 ^ 32)); lia
    | |- len (encode (rlp_bytes _)) <= _ =>
        destruct (hw_extraData h Hw) as [_ ?]; unfold rlp_bytes; pose proof (encode_data_len (h_extraData h)) as Hd; unfold SIZE_MAX in Hd; lia
    | |- _ => by apply Forall_nil
    end.
Qed.
Lemma header_ok _i h sl : header_wf h → seal_ok sl → item_ok (Items (header_items _i h sl)).
Proof.
  intros Hw [Hs Hl]. apply good_items.
  - unfold header_items. apply Forall_app. split; [by apply good_fields|]. apply Forall_app. split.
    + destruct (has_flag _i WithoutSign); [done|]. constructor; [apply good_hash_any|done].
    + destruct (has_flag _i WithoutSeal); [done|]. eapply Forall_impl; [exact Hs|]. by intros x Hx _.
  - unfold fits. pose proof (fields_len h Hw) as Hf. rewrite Forall_forall in Hf.
    pose proof (concat_len_le encode (header_fields h) (2 ^ 33) Hf) as H1. change (len (header_fields h)) with 14 in H1.
    pose proof (encode_hash_len 65 (h520_of (h_sign_data h)) ltac:(lia)) as H2.
    assert (len (concat (encode <$> header_items _i h sl)) <= 15 * 2 ^ 33 + 2 ^ 40) as H3.
    { unfold header_items. rewrite !fmap_app, !concat_app, !length_app. unfold sign_item.
      destruct (has_flag _i WithoutSign), (has_flag _i WithoutSeal); cbn [fmap list_fmap concat]; rewrite ?app_nil_r; cbn [length]; lia. }
    pose proof (encode_items_len (header_items _i h sl)) as H4. unfold SIZE_MAX in *. lia.
Qed.

Lemma stream_items_ok fs xs s : Forall2 (λ f x, ∀ s, f s = appended x s) fs xs → stream_items fs s = append_all appended xs s.
Proof.
  intros Hf. revert s. induction Hf as [|f x fs xs Hx _ IH]; intros s; [done|].
  cbn [stream_items append_all]. rewrite Hx. destruct (appended x s); cbn [mbind outcome_bind]; [apply IH|done..].
Qed.
Lemma append_int_ok i s : in256 i → append_int i s = appended (rlp_int i) s.
Proof. intros Hi. rewrite append_int_bytes by done. by apply append_bytes_encode, item_ok_int. Qed.

Lemma fields_stream _i h s : header_wf h → Forall item_ok (header_fields h) →
  streamRLPFields _i h s = append_all appended (header_fields h ++ if has_flag _i WithoutSign then [] else [sign_item h]) s.
Proof.
  intros Hw Hf. pose proof (sign_item_ok h) as Hs. apply stream_items_ok. apply Forall2_app; [|destruct (has_flag _i WithoutSign); repeat constructor; intros; by apply append_bytes_encode].
  unfold header_fields in *.
  repeat match goal with H : Forall item_ok (_ :: _) |- _ => apply Forall_cons in H as [? H] end.
  repeat (apply Forall2_cons; split); try apply Forall2_nil; try done; intros s';
    try (apply append_bytes_encode; assumption); try (apply append_int_ok; apply Hw).
  - apply append_int_ok. unfold in256, M256, u32. pose proof (Z.mod_pos_bound (h_number h) (2 ^ 32)). lia.
  - apply append_int_ok, w256_in.
Qed.
Lemma header_stream _i h sl : header_wf h → (has_flag _i WithoutSeal = false → h_seal h = encode <$> sl) → seal_ok sl → _i ≠ OnlySeal →
  header_streamRLP _i h stream_empty = appended (Items (header_items _i h sl)) stream_empty.
Proof.
  intros Hw Hs Hsl Hi. pose proof (header_ok _i h sl Hw Hsl) as Hok. pose proof (item_ok_items _ Hok) as Hall.
  rewrite <-append_list_ok by done. unfold header_streamRLP. rewrite bool_decide_eq_true_2 by done. cbv zeta.
  unfold header_items in *. apply Forall_app in Hall as [Hfo _].
  replace (BasicFields + _ + _) with (len (header_fields h ++ (if has_flag _i WithoutSign then [] else [sign_item h]) ++
    if has_flag _i WithoutSeal then [] else sl)).
  - destruct (appendList _ _) as [s| | | |]; cbn [mbind outcome_bind]; [|reflexivity..]. rewrite fields_stream by done.
    rewrite app_assoc. set (a := header_fields h ++ if has_flag _i WithoutSign then _ else _). rewrite append_all_app. destruct (append_all _ _ s) as [s'| | | |]; cbn [mbind outcome_bind]; [|reflexivity..].
    destruct (has_flag _i WithoutSeal); [done|]. apply stream_items_ok. rewrite Hs by done. clear. induction sl; by constructor.
  - rewrite !length_app. unfold BasicFields.
    destruct (has_flag _i WithoutSeal); [|rewrite Hs, length_fmap by done]; destruct (has_flag _i WithoutSign); cbn [length header_fields]; lia.
Qed.
Lemma header_bytes_ok _i h sl : header_wf h → (has_flag _i WithoutSeal = false → h_seal h = encode <$> sl) → seal_ok sl → _i ≠ OnlySeal →
  (s ← header_streamRLP _i h stream_empty; out s) = Ok (encode (Items (header_items _i h sl))).
Proof. intros. by rewrite (header_stream _ _ sl). Qed.

(** ** Reading *)
Lemma h520_read g : in256 (sig_r g) → in256 (sig_s g) → is_u8 (sig_v g) →
  0 <= h520_of g < 256 ^ 65 ∧ sig_of_h520 (h520_of g) = g.
Proof.
  destruct g as [r s v]. unfold in256, M256, is_u8, h520_of, sig_of_h520. cbn [sig_r sig_s sig_v]. intros Hr Hs Hv.
  split; [lia|]. f_equal.
  - rewrite <-(Z.div_unique _ (2 ^ 264) r (s * 256 + v)); [done|left|]; lia.
  - rewrite Z.div_add_l, (Z.div_small v), Z.add_0_r, Z.add_comm, Z.mod_add, Z.mod_small; lia.
  - rewrite Z.add_comm, Z.mod_add, Z.mod_small; lia.
Qed.
Lemma number_read n : 0 <= n < 2 ^ 32 → toPositiveInt64 (encode (rlp_unsigned n)) = Ok n.
Proof.
  intros Hn. unfold toPositiveInt64, rlp_unsigned. rewrite Z.mod_small by lia.
  assert (toInt 8 (encode (rlp_int n)) = Ok n) as -> by (apply (toInt_ok n 8); unfold in256, M256; lia).
  cbn [mbind outcome_bind]. destruct (Z.ltb_spec n (2 ^ 63)); [|lia]. destruct (Z.ltb_spec n 0); [lia|done].
Qed.
Lemma item_mapO l from k : item_ok (Items l) → (from + k <= length l)%nat →
  mapO (item (encode (Items l))) (seq from k) = Ok (encode <$> take k (drop from l)).
Proof.
  intros Hl. revert from. induction k as [|k IH]; intros from Hk; [done|]. cbn [seq mapO].
  destruct (lookup_lt_is_Some_2 l from) as [x Hx]; [lia|]. rewrite (item_lookup _ _ _ Hl Hx). cbn [mbind outcome_bind].
  rewrite IH by lia. cbn [mbind outcome_bind]. by rewrite (drop_S _ _ _ Hx).
Qed.
(** What is read: the raw seal starts with the signature. *)
Definition reread_header (hash : h256) (h : BlockHeader) : BlockHeader :=
  h <| h_seal := encode (sign_item h) :: h_seal h |> <| h_hash := hash |> <| h_hashWithout := 0 |>.
Section Fields.
Context (l : list rlp_item) (Hl : item_ok (Items l)).
Lemma hash_field_ok z n i x : l !! i = Some (rlp_hash n x) → Z.of_nat n = z → 0 <= x < 256 ^ z →
  (y ← item (encode (Items l)) i; toHash_strict z y) = Ok x.
Proof using Hl.
  intros Hx <- Hr. rewrite (item_lookup _ _ _ Hl Hx). cbn [mbind outcome_bind]. apply toHash_strict_ok; [|done].
  pose proof (item_ok_items _ Hl) as Hall. rewrite Forall_lookup in Hall. by eapply Hall.
Qed.
Lemma hash32_field_ok i x : l !! i = Some (rlp_hash 32 x) → in256 x → (y ← item (encode (Items l)) i; toHash_strict 32 y) = Ok x.
Proof using Hl. intros Hx Hr. by apply (hash_field_ok 32 32). Qed.
Lemma int_field_ok i x : l !! i = Some (rlp_int x) → in256 x → (y ← item (encode (Items l)) i; toInt 32 y) = Ok x.
Proof using Hl. intros Hx Hr. rewrite (item_lookup _ _ _ Hl Hx). by apply toInt_u256. Qed.
End Fields.
Lemma populate_ok h sl hash : header_wf h → h_number h < 2 ^ 32 → 0 <= h_timestamp h → h_seal h = encode <$> sl → seal_ok sl →
  populate (encode (Items (header_items WithSeal h sl))) hash = Ok (reread_header hash h).
Proof.
  intros Hw Hn Ht Hs Hsl. pose proof (header_ok WithSeal h sl Hw Hsl) as Hok. pose proof (item_ok_items _ Hok) as Hall.
  unfold header_items in *. change (has_flag WithSeal WithoutSign) with false in *. change (has_flag WithSeal WithoutSeal) with false in *.
  pose proof Hw as [??????????????(?&?&?)]. set (l := header_fields h ++ [sign_item h] ++ sl) in *. unfold populate. cbv zeta.
  pose proof (λ i x, item_lookup l i x Hok) as Hi. rewrite Forall_lookup in Hall.
  rewrite (hash32_field_ok l Hok 0 (h_parentHash h)); [|reflexivity|assumption].
  rewrite (hash32_field_ok l Hok 1 (h_sha3Uncles h)); [|reflexivity|assumption].
  rewrite (hash_field_ok l Hok 20 20 2 (h_author h)); [|reflexivity|reflexivity|assumption].
  rewrite (hash32_field_ok l Hok 3 (h_stateRoot h)); [|reflexivity|assumption].
  rewrite (hash32_field_ok l Hok 4 (h_transactionsRoot h)); [|reflexivity|assumption].
  rewrite (hash32_field_ok l Hok 5 (h_receiptsRoot h)); [|reflexivity|assumption].
  rewrite (hash_field_ok l Hok 256 256 6 (h_logBloom h)); [|reflexivity|reflexivity|assumption].
  rewrite (int_field_ok l Hok 7 (h_difficulty h)); [|reflexivity|assumption].
  rewrite (item_lookup l 8 (rlp_unsigned (h_number h)) Hok) by reflexivity. cbn [mbind outcome_bind]. rewrite number_read by lia.
  rewrite (int_field_ok l Hok 9 (h_gasLimit h)); [|reflexivity|assumption].
  rewrite (int_field_ok l Hok 10 (h_gasUsed h)); [|reflexivity|assumption].
  rewrite (int_field_ok l Hok 11 (w256 (h_timestamp h))); [|reflexivity|apply w256_in].
  rewrite (int_field_ok l Hok 12 (h_chain_id h)); [|reflexivity|assumption].
  rewrite (item_lookup l 13 (rlp_bytes (h_extraData h)) Hok) by reflexivity. cbn [mbind outcome_bind].
  rewrite toBytes_ok by (apply (Hall 13%nat); reflexivity). cbn [mbind outcome_bind].
  destruct (h520_read (h_sign_data h)) as [Hr Hg]; [assumption..|].
  rewrite (hash_field_ok l Hok 65 65 14 (h520_of (h_sign_data h))); [|reflexivity|reflexivity|assumption].
  cbn [mbind outcome_bind]. rewrite Hg, int64_of_time by (unfold is_int64, is_time in *; lia). unfold seal_items. rewrite itemCount_ok by assumption. cbn [mbind outcome_bind].
  rewrite item_mapO; [|assumption|unfold l; rewrite !length_app; cbn [length header_fields]; lia]. cbn [mbind outcome_bind].
  unfold reread_header. rewrite firstn_all2 by (rewrite length_drop; lia).
  change (drop 14 l) with (sign_item h :: sl). rewrite fmap_cons, <-Hs. reflexivity.
Qed.

(** ** Hashes and signatures *)
Section Checks.
Context `{CR : Crypto}.

(** The bytes that are signed, and the digest the signature is of. *)
Definition signing_bytes (h : BlockHeader) : bytes := encode (Items (header_fields h)).
Definition digest (h : BlockHeader) : h256 := sha3 (encode (rlp_hash 32 (sha3 (signing_bytes h)))).
Definition signed_by_author (h : BlockHeader) : Prop :=
  let g := h_sign_data h in
  let p := recover (sig_r g) (sig_s g) (sig_v g) (digest h) in
  p ≠ 0 ∧ h_author h = right160 (sha3 (toBE_n 64 p)).

Lemma header_hash_unsigned h : header_wf h → h_hashWithout h = 0 →
  header_hash (Z.lor WithoutSign WithoutSeal) h = (Ok (sha3 (signing_bytes h)), h <| h_hashWithout := sha3 (signing_bytes h) |>).
Proof.
  intros Hw Hm. unfold header_hash. rewrite (bind_ok _ _ h h h) by done. cbv zeta.
  change (has_flag (Z.lor WithoutSign WithoutSeal) WithSeal) with false.
  change (has_flag (Z.lor WithoutSign WithoutSeal) WithoutSeal) with true. cbv iota. rewrite Hm, bool_decide_eq_false_2 by (by intros []).
  erewrite bind_ok by (unfold lift; by rewrite (header_stream _ _ [])). erewrite bind_ok by reflexivity. reflexivity.
Qed.
Lemma signed_hash_ok h : header_wf h → h_hashWithout h = 0 →
  signed_hash h = (Ok (digest h), h <| h_hashWithout := sha3 (signing_bytes h) |>).
Proof. intros. unfold signed_hash. erewrite bind_ok by by eapply header_hash_unsigned. done. Qed.
Lemma verfy_sign_ok h : header_wf h → h_hashWithout h = 0 → 0 < h_number h →
  verfy_sign h = (Ok (bool_decide (signed_by_author h)), h <| h_hashWithout := sha3 (signing_bytes h) |>).
Proof.
  intros Hw Hm Hn. unfold verfy_sign. rewrite (bind_ok _ _ h h h) by done. destruct (Z.leb_spec (h_number h) 0); [lia|].
  erewrite bind_ok by by eapply signed_hash_ok. unfold mret, ST_ret. do 2 f_equal. unfold signed_by_author. cbv zeta.
  set (p := recover _ _ _ _). symmetry. destruct (Z.eqb_spec p 0), (Z.eqb_spec (h_author h) (right160 (sha3 (toBE_n 64 p)))); cbn [negb andb];
    first [apply bool_decide_eq_true_2; tauto|apply bool_decide_eq_false_2; tauto].
Qed.

(** ** The rules *)
Definition follows (parent h : BlockHeader) : Prop :=
  (h_parentHash h ≠ 0 → h_parentHash h = h_hash parent) ∧ h_timestamp parent < h_timestamp h ∧ h_number h = h_number parent + 1.
Definition describes (block : bytes) (h : BlockHeader) : Prop :=
  ∃ root txList uncles, RLP block = Ok root ∧ item root 1 = Ok txList ∧ transactions_root txList = Ok (h_transactionsRoot h) ∧
    item root 2 = Ok uncles ∧ h_sha3Uncles h = sha3 uncles.
Definition obeys (p : HeaderParams) (h : BlockHeader) : Prop :=
  h_chain_id h = p_chainID p ∧ minimumDifficulty p <= h_difficulty h ∧ minGasLimit p <= h_gasLimit h <= maxGasLimit p ∧
  (h_number h ≠ 0 → len (h_extraData h) <= maximumExtraDataSize p).
Definition gas_limit_moves (p : HeaderParams) (parent h : BlockHeader) : Prop :=
  let q := h_gasLimit parent / gasLimitBoundDivisor p in
  gasLimitBoundDivisor p ≠ 0 ∧ minGasLimit p <= h_gasLimit h <= maxGasLimit p ∧
  h_gasLimit parent [-] q < h_gasLimit h < h_gasLimit parent [+] q.
Record accepted (p : HeaderParams) (_s : Strictness) (parent : BlockHeader) (block : bytes) (h : BlockHeader) : Prop := {
  acc_signed : 0 < h_number h → signed_by_author h;
  acc_number : h_number h < 2 ^ 32;
  acc_gas : _s ≠ CheckNothingNew → h_gasUsed h <= h_gasLimit h;
  acc_parent : header_bool parent = true → follows parent h ∧ gas_limit_moves p parent h;
  acc_content : block ≠ [] → describes block h;
  acc_new : _s ≠ CheckNothingNew → obeys p h }.

(** A check that reads the header and passes or not. *)
Definition checks (m : ST BlockHeader unit) (h : BlockHeader) (P : Prop) : Prop := (m h).2 = h ∧ ((m h).1 = Ok tt ↔ P).
Lemma checks_ext m h P Q : checks m h P → (P ↔ Q) → checks m h Q.
Proof. intros [??] E. split; [done|]. by rewrite <-E. Qed.
Lemma checks_seq m k h P Q : checks m h P → checks k h Q → checks (m;; k) h (P ∧ Q).
Proof.
  intros [Sm Hm] [Sk Hk]. unfold checks, mbind, ST_bind. destruct (m h) as [[[]|e| | |] h'] eqn:E; cbn in Sm, Hm; subst h'.
  { split; [done|]. rewrite Hk. tauto. }
  all: split; [done|]; split; [done|]; intros [HP _]; by apply Hm in HP.
Qed.
Lemma checks_when (b : bool) m h P : (b = true → checks m h P) → checks (when b m) h (b = true → P).
Proof.
  intros Hm. destruct b; cbn [when].
  - eapply checks_ext; [by apply Hm|]. tauto.
  - split; [done|]. split; [done|]. done.
Qed.
Lemma checks_if (b : bool) e m h P : (b = false → checks m h P) → checks (if b then throw e else m) h (b = false ∧ P).
Proof.
  intros Hm. destruct b.
  - split; [done|]. split; [done|]. by intros [? _].
  - eapply checks_ext; [by apply Hm|]. tauto.
Qed.
Lemma checks_ret h : checks (mret tt) h True.
Proof. by split. Qed.
Lemma checks_get k h P : checks (k h) h P → checks (x ← getS; k x) h P.
Proof. done. Qed.
Lemma checks_lift {A} (o : outcome A) k h (P : A → Prop) : (∀ a, o = Ok a → checks (k a) h (P a)) →
  checks (x ← lift o; k x) h (∃ a, o = Ok a ∧ P a).
Proof.
  intros Hk. unfold checks, mbind, ST_bind, lift. destruct o as [a|e| | |]; [destruct (Hk a eq_refl) as [Sk Ek]|..].
  - split; [done|]. rewrite Ek. split; [by exists a|]. by intros (a'&[= <-]&?).
  - split; [done|]. split; [done|]. by intros (?&?&_).
  - split; [done|]. split; [done|]. by intros (?&?&_).
  - split; [done|]. split; [done|]. by intros (?&?&_).
  - split; [done|]. split; [done|]. by intros (?&?&_).
Qed.

Lemma verify_new_checks p h : checks (verify_new p) h (obeys p h).
Proof.
  unfold verify_new. apply checks_get. eapply checks_ext; [do 5 (apply checks_if; intros _); apply checks_ret|].
  unfold obeys. rewrite bool_decide_eq_false, !Z.ltb_ge, andb_false_iff, negb_false_iff, Z.eqb_eq, Z.ltb_ge.
  destruct (decide (h_chain_id h = p_chainID p)), (decide (h_number h = 0)); intuition lia.
Qed.
Lemma verify_gasLimit_checks p parent h : checks (verify_gasLimit p parent) h (gas_limit_moves p parent h).
Proof.
  unfold verify_gasLimit, gas_limit_moves. apply checks_get. cbv zeta. set (q := h_gasLimit parent / gasLimitBoundDivisor p).
  apply checks_ext with ((h_gasLimit h <? minGasLimit p) || (maxGasLimit p <? h_gasLimit h) = false ∧
    (∃ a, (if bool_decide (gasLimitBoundDivisor p = 0) then Throw overflow_error else Ok q) = Ok a ∧
    ((h_gasLimit h <=? h_gasLimit parent [-] a) || (h_gasLimit parent [+] a <=? h_gasLimit h) = false ∧ True))).
  - apply checks_if. intros _. replace (u256_div _ _) with (lift (S:=BlockHeader) (if bool_decide (gasLimitBoundDivisor p = 0) then Throw overflow_error else Ok q))
      by (unfold u256_div; by case_bool_decide). apply checks_lift. intros a _. apply checks_if. intros _. apply checks_ret.
  - rewrite orb_false_iff, !Z.ltb_ge. case_bool_decide as E.
    + split; [by intros (_&?&?&_)|]. by intros (?&_).
    + split.
      * intros (?&a&[= <-]&Ha&_). apply orb_false_iff in Ha as [?%Z.leb_gt ?%Z.leb_gt]. split_and!; done || lia.
      * intros (_&[??]&?&?). split; [lia|]. exists q. split; [done|]. split; [|done]. apply orb_false_iff. rewrite !Z.leb_gt. done.
Qed.

Lemma parent_hash h : h_hash h ≠ 0 → header_hash WithSeal h = (Ok (h_hash h), h).
Proof.
  intros Hn. unfold header_hash. rewrite (bind_ok _ _ h h h) by done. cbv zeta. change (has_flag WithSeal WithSeal) with true. cbv iota.
  by rewrite bool_decide_eq_true_2.
Qed.
Lemma verify_parent_checks parent h : h_hash parent ≠ 0 → checks (verify_parent parent) h (follows parent h).
Proof.
  intros Hp. unfold verify_parent. apply checks_get. rewrite parent_hash by done. cbn [fst]. eapply checks_ext.
  - apply checks_seq.
    + replace (if bool_decide (h_parentHash h ≠ 0) then _ else _) with
        (if bool_decide (h_parentHash h ≠ 0 ∧ h_hash parent ≠ h_parentHash h) then throw InvalidParentHash else mret (M:=ST BlockHeader) tt);
        [apply checks_if; intros _; apply checks_ret|].
      destruct (decide (h_parentHash h = 0)) as [E|E].
      * rewrite !bool_decide_eq_false_2; tauto.
      * rewrite (bool_decide_eq_true_2 (h_parentHash h ≠ 0)) by done. change (lift (Ok ?x) ≫= ?k) with (k x).
        cbv beta. destruct (decide (h_hash parent = h_parentHash h)); [rewrite !bool_decide_eq_false_2 by tauto|rewrite !bool_decide_eq_true_2 by tauto]; done.
    + apply checks_if. intros _. apply checks_if. intros _. apply checks_ret.
  - unfold follows. rewrite !bool_decide_eq_false, Z.leb_gt.
    destruct (decide (h_parentHash h = 0)), (decide (h_hash parent = h_parentHash h)), (decide (h_number h = h_number parent + 1)); intuition congruence.
Qed.
Lemma verify_content_checks block h : checks (verify_content block) h (describes block h).
Proof.
  unfold verify_content. apply checks_get. eapply checks_ext.
  - apply checks_lift. intros root _. apply checks_lift. intros txList _. apply checks_lift. intros expected _. apply checks_if. intros _.
    apply checks_lift. intros uncles _. apply checks_if. intros _. apply checks_ret.
  - unfold describes. split.
    + intros (root&?&txl&?&ex&Eex&Hex%bool_decide_eq_false&unc&?&Hu%bool_decide_eq_false&_).
      exists root, txl, unc. split_and!; try done; [|by destruct (decide (h_sha3Uncles h = sha3 unc))].
      destruct (decide (h_transactionsRoot h = ex)) as [->|]; done.
    + intros (root&txl&unc&?&?&?&?&?). exists root. split; [done|]. exists txl. split; [done|]. exists (h_transactionsRoot h).
      split; [done|]. split; [apply bool_decide_eq_false; tauto|]. exists unc. split; [done|]. split; [apply bool_decide_eq_false; tauto|done].
Qed.

Section SealVerify.
Context (p : HeaderParams) (_s : Strictness) (parent : BlockHeader) (block : bytes).
Context (Hp : header_bool parent = true → h_hash parent ≠ 0).

(** What follows the check of the signature. *)
Definition verify_rest : ST BlockHeader unit :=
  h ← getS;
  (if 2 ^ 32 - 1 <? h_number h then throw InvalidNumber
   else if negb (bool_decide (_s = CheckNothingNew)) && (h_gasLimit h <? h_gasUsed h) then throw TooMuchGasUsed
   else when (header_bool parent) (verify_parent parent);; when (bool_decide (block ≠ [])) (verify_content block));;
  when (negb (bool_decide (_s = CheckNothingNew))) (verify_new p);;
  when (header_bool parent) (verify_gasLimit p parent).
Lemma verify_rest_checks h : checks verify_rest h
  (h_number h < 2 ^ 32 ∧ (_s ≠ CheckNothingNew → h_gasUsed h <= h_gasLimit h) ∧
   (header_bool parent = true → follows parent h ∧ gas_limit_moves p parent h) ∧ (block ≠ [] → describes block h) ∧
   (_s ≠ CheckNothingNew → obeys p h)).
Proof using Hp.
  unfold verify_rest. apply checks_get. eapply checks_ext.
  - apply checks_seq; [|apply checks_seq].
    + apply checks_if. intros _. apply checks_if. intros _. apply checks_seq; apply checks_when.
      * intros E. apply verify_parent_checks, Hp, E.
      * intros _. apply verify_content_checks.
    + apply checks_when. intros _. apply verify_new_checks.
    + apply checks_when. intros _. apply verify_gasLimit_checks.
  - rewrite Z.ltb_ge, andb_false_iff, negb_true_iff, negb_false_iff, bool_decide_eq_false, bool_decide_eq_true, bool_decide_eq_true, Z.ltb_ge.
    destruct (decide (_s = CheckNothingNew)); split; intros H; (split_and!; [lia|intuition lia|..]); intuition.
Qed.
Lemma seal_verify_split h : seal_verify p _s parent block h =
  (ok ← verfy_sign; if negb ok then throw InvalidBlockSignature else verify_rest) h.
Proof.
  unfold seal_verify, header_verify, verify_rest, mbind, ST_bind. by destruct (verfy_sign h) as [[[]|e| | |] h'].
Qed.
(** The header is left with the hash that was signed. *)
Definition remembered (h : BlockHeader) : BlockHeader :=
  if h_number h <=? 0 then h else h <| h_hashWithout := sha3 (signing_bytes h) |>.
Lemma seal_verify_ok h : header_wf h → h_hashWithout h = 0 →
  ((seal_verify p _s parent block h).1 = Ok tt ↔ accepted p _s parent block h) ∧
  (accepted p _s parent block h → (seal_verify p _s parent block h).2 = remembered h).
Proof using Hp.
  intros Hw Hm. rewrite seal_verify_split. unfold remembered. destruct (Z.leb_spec (h_number h) 0) as [Hn|Hn].
  - erewrite bind_ok; [|unfold verfy_sign; rewrite (bind_ok _ _ h h h) by done; rewrite (proj2 (Z.leb_le _ _)) by done; reflexivity].
    cbn [negb]. destruct (verify_rest_checks h) as [E2 Er]. split; [|done].
    rewrite Er. split; [intros (?&?&?&?&?); split; try done; lia|by intros [??????]].
  - rewrite (bind_ok _ _ _ _ _ (verfy_sign_ok h Hw Hm Hn)).
    destruct (verify_rest_checks (h <| h_hashWithout := sha3 (signing_bytes h) |>)) as [E2 Er].
    case_bool_decide as Es; cbn [negb]; split; [|done| |].
    + rewrite Er. split; [intros (?&?&?&?&?); by split|by intros [??????]].
    + split; [done|]. intros []. by destruct Es; auto.
    + intros []. by destruct Es; auto.
Qed.
Lemma seal_verify_iff h : header_wf h → h_hashWithout h = 0 →
  (seal_verify p _s parent block h).1 = Ok tt ↔ accepted p _s parent block h.
Proof using Hp. intros. by apply seal_verify_ok. Qed.
End SealVerify.
End Checks.
