(* ===== verification/Blocks.v ===== *)
(** * Blocks from the network

    Every header that can be read is well typed; the checks of [BlockHeader::verify] and
    [SealEngineFace::verify] on it are exactly the rules in [accepted]; a block that passes
    them is fixed, with its transactions and uncles, by the hash of its header; and a block
    its producer signed passes the check of the signature wherever it is read. *)
From stdpp Require Import base gmap list.
From Stdlib Require Import ZArith Lia.
From S2P Require Import Prelude Rlp RlpProofs Interfaces Trie TrieNibbles TrieTree TrieCode TrieStore TrieHash TrieHashProofs TrieProps TrieRoots Codec Transaction CodecProofs TransactionProofs Wire BlockHeader BlockHeaderProofs.
Open Scope Z_scope.

(** ** Reading *)
Section Reading.
Context (d : bytes) (Hd : Forall is_byte d).
Lemma item_is_bytes i x : item d i = Ok x → Forall is_byte x.
Proof using Hd. intros E. eapply sublist_Forall; [by eapply item_sub|done]. Qed.
Lemma hash_field_range n i x : (y ← item d i; toHash_strict n y) = Ok x → 0 <= x < 256 ^ n.
Proof using Hd. intros E. ok_bind E y Ey. by apply toHash_strict_range in E; [|eapply item_is_bytes]. Qed.
Lemma hash32_range i x : (y ← item d i; toHash_strict 32 y) = Ok x → in256 x.
Proof using Hd. apply hash_field_range. Qed.
Lemma int_field_range i x : (y ← item d i; toInt 32 y) = Ok x → in256 x.
Proof using Hd. intros E. ok_bind E y Ey. by apply toInt_range in E; [|eapply item_is_bytes]. Qed.
Lemma number_range i x : (y ← item d i; toPositiveInt64 y) = Ok x → 0 <= x < 2 ^ 63.
Proof using Hd.
  unfold toPositiveInt64. intros E. ok_bind E y Ey. ok_bind E z Ez. apply toInt_range in Ez; [|by eapply item_is_bytes].
  change (256 ^ 8) with (2 ^ 64) in Ez. destruct (Z.ltb_spec z (2 ^ 63)) as [|]; [|destruct (Z.ltb_spec (z - 2 ^ 64) 0); [done|lia]].
  destruct (Z.ltb_spec z 0); [done|]. injection E as <-. lia.
Qed.
Lemma bytes_field_range i x : (y ← item d i; toBytes y) = Ok x → Forall is_byte x ∧ len x <= len d.
Proof using Hd.
  intros E. ok_bind E y Ey. apply toBytes_sub in E. apply item_sub in Ey. assert (x `sublist_of` d) as Hs by (by etrans).
  split; [by eapply sublist_Forall|]. apply sublist_length in Hs. lia.
Qed.
End Reading.
Lemma int64_of_range x : in256 x → is_int64 (int64_of x).
Proof. unfold in256, is_int64, int64_of, INT64_MAX. lia. Qed.
Lemma sig_of_h520_range x : 0 <= x < 256 ^ 65 →
  in256 (sig_r (sig_of_h520 x)) ∧ in256 (sig_s (sig_of_h520 x)) ∧ is_u8 (sig_v (sig_of_h520 x)).
Proof.
  intros Hx. unfold sig_of_h520, in256, is_u8, M256. cbn [sig_r sig_s sig_v]. split; [|split; apply Z.mod_pos_bound; lia].
  split; [apply Z.div_pos; lia|]. apply Z.div_lt_upper_bound; [lia|]. rewrite <-Z.pow_add_r by lia. change (256 ^ 65) with (2 ^ (264 + 256)) in Hx. lia.
Qed.
Lemma populate_wf b hash h : Forall is_byte b → len b < 2 ^ 32 → populate b hash = Ok h →
  header_wf h ∧ h_hash h = hash ∧ h_hashWithout h = 0.
Proof.
  intros Hb Hl E. unfold populate in E. cbv zeta in E.
  ok_bind E x0 E0. ok_bind E x1 E1. ok_bind E x2 E2. ok_bind E x3 E3. ok_bind E x4 E4. ok_bind E x5 E5. ok_bind E x6 E6.
  ok_bind E x7 E7. ok_bind E x8 E8. ok_bind E x9 E9. ok_bind E x10 E10. ok_bind E x11 E11. ok_bind E x12 E12. ok_bind E x13 E13.
  ok_bind E x14 E14. ok_bind E sl Es. injection E as <-. split; [|done].
  apply (bytes_field_range b Hb) in E13 as [??]. apply (hash_field_range b Hb 65) in E14.
  split; cbn; eauto using hash32_range, int_field_range, int64_of_range, sig_of_h520_range.
  - by apply (hash_field_range b Hb 256) in E6.
  - by apply (number_range b Hb) in E8.
  - split; [done|lia].
  - by apply (hash_field_range b Hb 20) in E2.
  - by apply sig_of_h520_range.
Qed.

Section Blocks.
Context `{CR : Crypto}.

Lemma extractHeader_sub block x : extractHeader block = Ok x → x `sublist_of` block.
Proof using.
  unfold extractHeader. intros Ex. ok_bind Ex r Er.
  apply RLP_same in Er as ->. destruct (negb (isList block)); [done|]. ok_bind Ex y Ey. destruct (negb (isList y)); [done|].
  ok_bind Ex x1 Ex1. destruct (negb (isList x1)); [done|]. ok_bind Ex x2 Ex2. destruct (negb (isList x2)); [done|]. injection Ex as <-.
  by eapply item_sub.
Qed.
Lemma header_of_block_RLP block h : header_of_block block = Ok h → RLP block = Ok block.
Proof using.
  unfold header_of_block, extractHeader. intros E. ok_bind E x Ex. ok_bind Ex r Er. by apply RLP_same in Er as ->.
Qed.
Lemma header_of_block_wf block h : Forall is_byte block → len block < 2 ^ 32 → header_of_block block = Ok h →
  header_wf h ∧ h_hashWithout h = 0.
Proof using.
  intros Hb Hl E. unfold header_of_block in E. ok_bind E x Ex. apply extractHeader_sub in Ex. pose proof (sublist_length _ _ Ex).
  destruct (populate_wf _ _ _ (sublist_Forall _ _ _ Ex Hb) ltac:(lia) E) as (?&_&?). done.
Qed.

(** ** The content of a block *)
Definition block_transactions (block : bytes) : outcome (list bytes) :=
  root ← RLP block; txList ← item root 1; n ← itemCount txList; mapO (item txList) (seq 0 (Z.to_nat n)).
Definition block_uncles (block : bytes) : outcome bytes := root ← RLP block; item root 2.
(** The strings that are hashed when the transactions root is computed. *)
Definition tx_nodes (block : bytes) : list bytes :=
  match block_transactions block with Ok txs => root_nodes (index_map txs (length txs)) | _ => [] end.
(** The header of a block and what hangs on it: the strings its hashes are of. *)
Definition block_strings (block : bytes) : list bytes :=
  match extractHeader block with Ok x => [x] | _ => [] end ++ tx_nodes block ++
  match block_uncles block with Ok x => [x] | _ => [] end.

Lemma describes_content block h : Forall is_byte block → len block < 2 ^ 32 → describes block h →
  ∃ txs uncles, block_transactions block = Ok txs ∧ len txs < 2 ^ 32 ∧ Forall value_ok txs ∧
    orderedTrieRoot txs = Ok (h_transactionsRoot h) ∧ block_uncles block = Ok uncles ∧ h_sha3Uncles h = sha3 uncles.
Proof using.
  intros Hb Hl (root&txl&unc&Er&Et&Eroot&Eu&Hu). apply RLP_same in Er as Es. subst root. unfold transactions_root in Eroot.
  ok_bind Eroot n En. ok_bind Eroot txs Etxs. destruct (counted_items _ _ _ En Etxs) as (->&Hn&Hs).
  apply item_sub in Et as Hsub. pose proof (sublist_length _ _ Hsub). exists txs, unc.
  unfold block_transactions, block_uncles. rewrite Er. cbn [mbind outcome_bind]. rewrite Et. cbn [mbind outcome_bind]. rewrite En. cbn [mbind outcome_bind].
  split_and!; try done; [lia| |by rewrite Nat2Z.id in Eroot].
  eapply Forall_impl; [exact Hs|]. intros x [Hne Hx]. pose proof (sublist_length _ _ Hx). split_and!; [done| |lia].
  eapply sublist_Forall; [|exact Hb]. by etrans.
Qed.

Lemma block_header_hash block h : header_of_block block = Ok h → ∃ x, extractHeader block = Ok x ∧ h_hash h = sha3 x.
Proof using.
  unfold header_of_block. intros E. ok_bind E x Ex. exists x. split; [done|]. unfold populate in E. cbv zeta in E.
  do 15 (match type of E with (mbind _ ?o = Ok _) => destruct o; cbn [mbind outcome_bind] in E; [|discriminate E..] end).
  destruct (seal_items x 14); cbn [mbind outcome_bind] in E; [|discriminate E..]. by injection E as <-.
Qed.
Lemma sign_block_ok sign h : header_wf h → h_hashWithout h = 0 →
  sign_block sign h = (Ok tt, h <| h_hashWithout := sha3 (signing_bytes h) |> <| h_sign_data := sign (digest h) |>).
Proof using. intros Hw Hm. unfold sign_block. by erewrite bind_ok by by apply signed_hash_ok. Qed.

Lemma extractHeader_hash block x : extractHeader block = Ok x → headerHashFromBlock block = Ok (sha3 x) ∧ block ≠ [].
Proof using.
  unfold extractHeader, headerHashFromBlock. intros Ex. ok_bind Ex r Er. apply RLP_same in Er as ->. cbn [mbind outcome_bind].
  destruct (isList block) eqn:El; [cbn [negb] in Ex|done]. ok_bind Ex y Ey. cbn [mbind outcome_bind]. destruct (negb (isList y)); [done|].
  ok_bind Ex x1 Ex1. destruct (negb (isList x1)); [done|]. ok_bind Ex x2 Ex2. destruct (negb (isList x2)); [done|]. injection Ex as ->.
  split; [done|]. by intros ->.
Qed.

(** C28: Every header that can be read from bytes off the network is well typed: each
    field is within the machine type it is kept in, and the hash the header remembers is
    the hash of the bytes it was read from. *)
Theorem headers_are_typed block h : Forall is_byte block → len block < 2 ^ 32 → header_of_block block = Ok h →
  header_wf h ∧ headerHashFromBlock block = Ok (h_hash h).
Proof using.
  intros Hb Hl E. split; [by eapply header_of_block_wf|]. destruct (block_header_hash _ _ E) as (x&Ex&->).
  by apply extractHeader_hash.
Qed.

(** C22: The checks of a block from the network are exactly the rules: whatever the bytes,
    once its header can be read the seal engine's [verify] returns if and only if the
    producer named in the header signed all its fields, the number fits in 32 bits, the gas
    used is within the limit, the header follows its parent (hash, time, number, gas limit
    moved by less than the bound), transactions root and uncles hash describe the content,
    and chain id, difficulty, gas limit and extra data obey the chain's parameters. *)
Theorem block_rules p _s parent block h :
  Forall is_byte block → len block < 2 ^ 32 → header_of_block block = Ok h →
  (header_bool parent = true → h_hash parent ≠ 0) →
  (seal_verify p _s parent block h).1 = Ok tt ↔ accepted p _s parent block h.
Proof using. intros Hb Hl E Hp. destruct (header_of_block_wf _ _ Hb Hl E). by apply seal_verify_iff. Qed.

(** C21: The hash of its header fixes a block.  Two blocks that pass the checks (under
    whatever parameters and parents) and have the same header hash have the same header,
    the same transactions in the same order and the same uncles.  Assumed: no two of the
    strings hashed for these two blocks have the same hash. *)
Theorem block_hash_commits U p1 p2 s1 s2 parent1 parent2 block1 block2 h1 h2 :
  (∀ b, in256 (sha3 b)) → collision_free U → Forall U (block_strings block1) → Forall U (block_strings block2) →
  Forall is_byte block1 → Forall is_byte block2 → len block1 < 2 ^ 32 → len block2 < 2 ^ 32 →
  header_of_block block1 = Ok h1 → header_of_block block2 = Ok h2 →
  (header_bool parent1 = true → h_hash parent1 ≠ 0) → (header_bool parent2 = true → h_hash parent2 ≠ 0) →
  (seal_verify p1 s1 parent1 block1 h1).1 = Ok tt → (seal_verify p2 s2 parent2 block2 h2).1 = Ok tt →
  headerHashFromBlock block1 = headerHashFromBlock block2 →
  h1 = h2 ∧ block_transactions block1 = block_transactions block2 ∧ block_uncles block1 = block_uncles block2.
Proof using.
  intros Hs Hf U1 U2 B1 B2 L1 L2 E1 E2 P1 P2 V1 V2 Eh.
  destruct (header_of_block_wf _ _ B1 L1 E1) as [W1 M1], (header_of_block_wf _ _ B2 L2 E2) as [W2 M2].
  apply seal_verify_iff in V1 as [_ _ _ _ C1 _], V2 as [_ _ _ _ C2 _]; try done.
  destruct (block_header_hash _ _ E1) as (x1&X1&_), (block_header_hash _ _ E2) as (x2&X2&_).
  destruct (extractHeader_hash _ _ X1) as [H1 N1], (extractHeader_hash _ _ X2) as [H2 N2].
  unfold block_strings in U1, U2. rewrite X1 in U1. rewrite X2 in U2.
  apply Forall_app in U1 as [[Ux1 _]%Forall_cons [Ut1 Uu1]%Forall_app], U2 as [[Ux2 _]%Forall_cons [Ut2 Uu2]%Forall_app].
  assert (x1 = x2) as <- by (apply Hf; [done|done|congruence]).
  assert (h1 = h2) as <- by (unfold header_of_block in E1, E2; rewrite X1 in E1; rewrite X2 in E2; congruence). split; [done|].
  destruct (describes_content _ _ B1 L1 (C1 N1)) as (t1&u1&T1&Lt1&Vt1&R1&Eu1&S1), (describes_content _ _ B2 L2 (C2 N2)) as (t2&u2&T2&Lt2&Vt2&R2&Eu2&S2).
  unfold tx_nodes in Ut1, Ut2. rewrite T1 in Ut1 |- *. rewrite T2 in Ut2 |- *. rewrite Eu1 in Uu1 |- *. rewrite Eu2 in Uu2 |- *.
  apply Forall_cons in Uu1 as [? _], Uu2 as [? _].
  split; f_equal; [apply (list_root_inj U); done || congruence|apply Hf; [done|done|congruence]].
Qed.

(** C27: A signed header survives the network.  A header the producer signs with the key of
    its author, written with [streamRLP] and read back by another node, has every field it
    was given and passes the check of the signature there.  Assumed of the signature
    scheme: [recover] of a signature of a digest returns the signer's public key.  The memo
    [m_hashWithout] is not set when the header is signed. *)
Theorem signed_header_travels sign pub h sl :
  (∀ d, let g := sign d in recover (sig_r g) (sig_s g) (sig_v g) d = pub ∧
     in256 (sig_r g) ∧ in256 (sig_s g) ∧ is_u8 (sig_v g)) → pub ≠ 0 → h_author h = right160 (sha3 (toBE_n 64 pub)) →
  header_wf h → 0 < h_number h < 2 ^ 32 → 0 <= h_timestamp h → h_hashWithout h = 0 →
  h_seal h = encode <$> sl → seal_ok sl →
  let h' := (sign_block sign h).2 in
  ∃ b, (s ← header_streamRLP WithSeal h' stream_empty; out s) = Ok b ∧
    header_of_data b 0 = Ok (reread_header (sha3 b) h') ∧
    header_fields (reread_header (sha3 b) h') = header_fields h ∧
    (verfy_sign (reread_header (sha3 b) h')).1 = Ok true.
Proof using.
  intros Hsign Hpub Ha Hw Hn Ht Hm Hs Hsl. cbv zeta. rewrite sign_block_ok by done. cbn [snd].
  set (h' := h <| h_hashWithout := _ |> <| h_sign_data := _ |>).
  destruct (Hsign (digest h)) as (Hrec&Hr&Hss&Hv). assert (header_wf h') as Hw' by (destruct Hw; split; done).
  assert (h_seal h' = encode <$> sl) as Hs' by done. eexists. split; [by apply header_bytes_ok|].
  set (b := encode _). assert (item_ok (Items (header_items WithSeal h' sl))) as Hok by by apply header_ok.
  assert (header_wf (reread_header (sha3 b) h')) as Hw2 by (destruct Hw'; split; done).
  split; [|split; [done|]].
  - unfold header_of_data. unfold b. rewrite RLP_ok by done. cbn [mbind outcome_bind]. rewrite bool_decide_eq_false_2 by tauto.
    apply populate_ok; done || (cbn; lia).
  - rewrite (verfy_sign_ok (reread_header (sha3 b) h') Hw2 eq_refl) by (cbn; lia). cbn [fst]. f_equal.
    apply bool_decide_eq_true_2. unfold signed_by_author. cbv zeta.
    change (digest (reread_header (sha3 b) h')) with (digest h). change (h_sign_data (reread_header (sha3 b) h')) with (sign (digest h)).
    rewrite Hrec. by split.
Qed.

(** A header that was read writes its signature twice: [populate] takes the seal from the
    field of the signature on. *)
Lemma reread_header_differs h sl hash : header_wf h → h_number h < 2 ^ 32 → 0 <= h_timestamp h →
  h_seal h = encode <$> sl → seal_ok (sign_item h :: sl) →
  ∃ b h', (s ← header_streamRLP WithSeal h stream_empty; out s) = Ok b ∧ populate b hash = Ok h' ∧
    (s ← header_streamRLP WithSeal h' stream_empty; out s) ≠ Ok b.
Proof using.
  intros Hw Hn Ht Hs Hsl. assert (seal_ok sl) as Hsl0.
  { destruct Hsl as [[_ ?]%Forall_cons Hl]. split; [done|]. cbn [fmap list_fmap concat] in Hl. rewrite length_app in Hl. lia. }
  exists (encode (Items (header_items WithSeal h sl))), (reread_header hash h).
  split; [by apply header_bytes_ok|]. split; [by apply populate_ok|].
  assert (header_wf (reread_header hash h)) as Hw2 by (destruct Hw; split; done).
  rewrite (header_bytes_ok WithSeal _ (sign_item h :: sl)); [|done| |done|done].
  - intros E. assert (∀ x y : bytes, Ok x = Ok y → x = y) as Hinj by congruence. apply Hinj, encode_inj in E; [|by apply header_ok..].
    apply (f_equal (λ x, match x with Items l => length l | Data _ => 0%nat end)) in E. unfold header_items in E.
    change (has_flag WithSeal WithoutSign) with false in E. change (has_flag WithSeal WithoutSeal) with false in E.
    rewrite !length_app in E. cbn [length] in E. change (length (header_fields (reread_header hash h))) with (length (header_fields h)) in E. lia.
  - intros _. cbn. by rewrite Hs.
Qed.
End Blocks.

(** ** Two small blocks *)
(** Signatures that carry the public key. *)
Definition open_crypto : Crypto := {| sha3 := fold_sha3; recover := λ r _ _ _, r |}.
Definition producer_key : Z := 5.
Definition producer_sign (_ : h256) : SignatureStruct := mkSig producer_key 0 0.
Definition parent_header : BlockHeader :=
  mkHeader 0 0 0 0 0 0 0 1000000 0 [] 100 0 0 11 [] 77 0 (mkSig 0 0 0).
Definition header_for (txs : list rlp_item) : BlockHeader :=
  let root := match @orderedTrieRoot open_crypto (encode <$> txs) with Ok r => r | _ => 0 end in
  mkHeader 77 (fold_sha3 [0xc0]) 1 root 2 0 1 1000000 21000 [0xbe] 200 (right160 (fold_sha3 (toBE_n 64 producer_key))) 3 11 [] 0 0
    (mkSig 0 0 0).
Definition block_of (txs : list rlp_item) : bytes :=
  let h := (@sign_block open_crypto producer_sign (header_for txs)).2 in
  encode (Items [Items (header_items WithSeal h []); Items txs; Items []]).
Definition header_in (block : bytes) : BlockHeader :=
  match @header_of_block open_crypto block with Ok h => h | _ => header_new end.
Definition small_params : HeaderParams := mkHeaderParams 11 3 5000 (2 ^ 63) 1024 1024.
Definition block_a : bytes := Eval vm_compute in block_of [Items [Data [1]; Data [2]]; Items [Data [3]]].
Definition block_b : bytes := Eval vm_compute in block_of [Items [Data [3]]; Items [Data [1]; Data [2]]].

Lemma small_bytes d : forallb (λ b, (0 <=? b) && (b <? 256)) d = true → Forall is_byte d.
Proof. rewrite forallb_forall, Forall_forall. intros Hd b Hb%list_elem_of_In. apply Hd, andb_true_iff in Hb as [?%Z.leb_le ?%Z.ltb_lt]. by split. Qed.

Lemma headers_are_typed_small : header_wf (header_in block_a) ∧ @headerHashFromBlock open_crypto block_a = Ok (h_hash (header_in block_a)).
Proof. apply (@headers_are_typed open_crypto); [apply small_bytes| |]; vm_compute; reflexivity. Defined.
Lemma block_rules_small : @accepted open_crypto small_params StrictEverything parent_header block_a (header_in block_a).
Proof.
  apply (@block_rules open_crypto); [apply small_bytes|..]; try (vm_compute; reflexivity). done.
Defined.
Lemma block_hash_commits_small : @headerHashFromBlock open_crypto block_a ≠ @headerHashFromBlock open_crypto block_b.
Proof.
  intros E. destruct (@block_hash_commits open_crypto (λ b, b ∈ @block_strings open_crypto block_a ++ @block_strings open_crypto block_b)
    small_params small_params StrictEverything StrictEverything parent_header parent_header block_a block_b (header_in block_a) (header_in block_b))
    as (_&Et&_).
  - apply fold_sha3_in.
  - apply no_clash_free. vm_compute. reflexivity.
  - apply Forall_forall. intros b Hb. apply elem_of_app. by left.
  - apply Forall_forall. intros b Hb. apply elem_of_app. by right.
  - apply small_bytes. vm_compute. reflexivity.
  - apply small_bytes. vm_compute. reflexivity.
  - reflexivity.
  - reflexivity.
  - vm_compute. reflexivity.
  - vm_compute. reflexivity.
  - done.
  - done.
  - vm_compute. reflexivity.
  - vm_compute. reflexivity.
  - exact E.
  - vm_compute in Et. discriminate Et.
Defined.
Lemma signed_header_travels_small : ∃ b h, @header_of_data open_crypto b 0 = Ok h ∧ h_number h = 1 ∧ (@verfy_sign open_crypto h).1 = Ok true.
Proof.
  destruct (@signed_header_travels open_crypto producer_sign producer_key (header_for []) []) as (b&_&E&_&V); [|done|reflexivity|..].
  - intros d. vm_compute. done.
  - split; vm_compute; try done. split; [constructor; [done|constructor]|done].
  - done.
  - done.
  - done.
  - done.
  - split; [constructor|done].
  - exists b. eexists. split; [exact E|]. split; [reflexivity|exact V].
Defined.
