(* ===== verification/TxQueue.v ===== *)
(** * The transaction queue (libbrcdchain/TransactionQueue.cpp, TransactionQueue.h)

    The pool of transactions that wait for a block: the current ones in the order they are
    to be tried, with an index by hash and one by sender and nonce, the future ones whose
    predecessors are missing, and the transactions of peers that are still to be checked.

    The members are a record.  A node of the multiset [m_current] has a number, its iterator:
    [q_nodes] holds the nodes, [q_current] their order.  A value-initialised iterator is
    [None]; following it is undefined behaviour.  The calls of the signals' handlers are
    recorded in [q_signals]. *)
From stdpp Require Import base gmap list sorting.
From Stdlib Require Import ZArith Lia.
From S2P Require Import Prelude Rlp Config Interfaces Transaction.
Open Scope Z_scope.

(** What the queue takes from the standard containers: where [multiset::emplace] puts an
    element, given the comparison, and which element of an [unordered_map] comes first.  The
    order of the queue depends on its other members, so it can change while elements are in
    the container; for an [emplace] after that the standard promises nothing.  [emplace_total]
    assumes what a descent in a search tree does then: it ends, at some place. *)
Class Containers := {
  emplace_at : ∀ {A}, (A → A → outcome bool) → list A → A → outcome nat;
  hash_begin : gset Address → option Address;
  (** A comparison that does not throw finds a place, in order or not; in a container in order
      the place is behind everything that is not greater. *)
  emplace_total : ∀ {A} (cmp : A → A → outcome bool) l x,
    (∀ y, y ∈ l → (∃ b, cmp x y = Ok b) ∧ (∃ b, cmp y x = Ok b)) →
    ∃ n, emplace_at cmp l x = Ok n ∧ (n <= length l)%nat;
  emplace_upper : ∀ {A} (cmp : A → A → outcome bool) (lt : A → A → bool) l x,
    (∀ y z, y ∈ x :: l → z ∈ x :: l → cmp y z = Ok (lt y z)) →
    (∀ y z, lt y z = true → lt z y = false) →
    (∀ y z w, lt z y = false → lt w z = false → lt w y = false) →
    StronglySorted (λ y z, lt z y = false) l →
    ∃ n, emplace_at cmp l x = Ok n ∧ take n l ++ x :: drop n l = insert_upper lt x l;
  (** An element is compared with some element that is there already. *)
  emplace_throws : ∀ {A} (cmp : A → A → outcome bool) l x e,
    l ≠ [] → (∀ y, y ∈ l → cmp x y = Throw e ∧ cmp y x = Throw e) → emplace_at cmp l x = Throw e;
  hash_begin_in : ∀ X, X ≠ ∅ → ∃ a, hash_begin X = Some a ∧ a ∈ X }.

(** A scan from the front is such a container. *)
Fixpoint scan_place {A} (cmp : A → A → outcome bool) (l : list A) (x : A) : outcome nat :=
  match l with
  | [] => Ok 0%nat
  | y :: l => b ← cmp x y; if b : bool then Ok 0%nat else n ← scan_place cmp l x; Ok (S n)
  end.
#[export] Instance scan_containers : Containers.
Proof.
  refine {| emplace_at := @scan_place; hash_begin := λ X, head (elements X) |}.
  - intros A cmp l x H. induction l as [|y l IH]; cbn; [eauto|].
    destruct (H y ltac:(left)) as [[b ->] _]. cbn. destruct b; [eexists; split; [done|lia]|].
    destruct IH as (n & -> & ?); [intros; apply H; by right|]. cbn. eexists. split; [done|lia].
  - intros A cmp lt l x Hc _ _ _. induction l as [|y l IH]; cbn; [by exists 0%nat|].
    rewrite (Hc x y) by (rewrite !elem_of_cons; auto). cbn. destruct (lt x y); [by exists 0%nat|].
    destruct IH as (n & -> & Hn); [|exists (S n); cbn; by rewrite Hn].
    intros y' z' [->|Hy]%elem_of_cons [->|Hz]%elem_of_cons; apply Hc; rewrite !elem_of_cons; auto.
  - intros A cmp [|y l] x e Hl H; [done|]. cbn. by destruct (H y ltac:(left)) as [-> _].
  - intros X HX. destruct (elements X) as [|a l] eqn:E; [by apply elements_empty_inv in E; set_solver|].
    exists a. split; [done|]. apply elem_of_elements. rewrite E. left.
Defined.

(** [ImportResult] and [IfDropped] *)
Inductive ImportResult :=
  | Success | UnknownParent | FutureTimeKnown | FutureTimeUnknown | AlreadyInChain | AlreadyKnown
  | Malformed | OverbidGasPrice | BadChain | ZeroSignature | NonceRepeat.
#[export] Instance ImportResult_eq_dec : EqDecision ImportResult.
Proof. solve_decision. Defined.
Inductive IfDropped := Ignore | Retry.
#[export] Instance IfDropped_eq_dec : EqDecision IfDropped.
Proof. solve_decision. Defined.

Inductive signal :=
  | OnReady
  | OnReplaced (h : h256)
  | OnImport (ir : ImportResult) (h : h256) (node : Z).

Record TransactionQueue := mkTQ {
  q_known : gset h256;
  q_dropped : gset h256;
  q_nodes : gmap nat Transaction;
  q_current : list nat;
  q_byHash : gmap h256 nat;
  q_byNonce : gmap Address (gmap u256 (option nat));
  q_future : gmap Address (gmap u256 Transaction);
  q_futureSize : uint32;
  q_limit : uint32;
  q_futureLimit : uint32;
  q_unverified : list (bytes * Z);
  q_fresh : nat;
  q_signals : list signal }.

#[export] Instance TransactionQueue_reshape : Reshape TransactionQueue := λ q, mkTQ (q_known q) (q_dropped q)
  (q_nodes q) (q_current q) (q_byHash q) (q_byNonce q) (q_future q) (q_futureSize q) (q_limit q)
  (q_futureLimit q) (q_unverified q) (q_fresh q) (q_signals q).
#[export] Instance q_known_field : Field q_known := ltac:(field_setter).
#[export] Instance q_dropped_field : Field q_dropped := ltac:(field_setter).
#[export] Instance q_nodes_field : Field q_nodes := ltac:(field_setter).
#[export] Instance q_current_field : Field q_current := ltac:(field_setter).
#[export] Instance q_byHash_field : Field q_byHash := ltac:(field_setter).
#[export] Instance q_byNonce_field : Field q_byNonce := ltac:(field_setter).
#[export] Instance q_future_field : Field q_future := ltac:(field_setter).
#[export] Instance q_futureSize_field : Field q_futureSize := ltac:(field_setter).
#[export] Instance q_unverified_field : Field q_unverified := ltac:(field_setter).
#[export] Instance q_fresh_field : Field q_fresh := ltac:(field_setter).
#[export] Instance q_signals_field : Field q_signals := ltac:(field_setter).

Abbreviation Q := (ST TransactionQueue).
Definition c_maxVerificationQueueSize : Z := 100000.
Definition TransactionQueue_new (_limit _futureLimit : uint32) : TransactionQueue :=
  mkTQ ∅ ∅ ∅ [] ∅ ∅ ∅ 0 _limit _futureLimit [] 0 [].

(** The entry of a sender and nonce in the two indices. *)
Definition current_at (q : TransactionQueue) (a : Address) (n : u256) : option (option nat) :=
  q_byNonce q !! a ≫= (.!! n).
Definition future_at (q : TransactionQueue) (a : Address) (n : u256) : option Transaction :=
  q_future q !! a ≫= (.!! n).

(** [begin()->first], [rbegin()] and the entries from [lower_bound] on, of a [std::map]. *)
Definition map_begin {V} (m : gmap Z V) : option (Z * V) := head (map_iter m).
Definition map_rbegin {V} (m : gmap Z V) : option (Z * V) := last (map_iter m).
Definition map_lower {V} (k : Z) (m : gmap Z V) : list (Z * V) := filter (λ p : Z * V, k <= p.1) (map_iter m).

Section TxQueue.
Context `{CR : Crypto, CN : Containers}.

Definition tx_hash (t : Transaction) : outcome h256 := transaction_sha3 true t.
Definition safeSender (t : Transaction) : Address :=
  match sender t with Ok a => a | _ => 0 end.

(** Following an iterator. *)
Definition node (i : nat) : Q Transaction :=
  q ← getS; match q_nodes q !! i with Some t => mret t | None => undef end.
Definition follow (o : option nat) : Q Transaction :=
  match o with Some i => node i | None => undef end.

(** ** The order of the current transactions *)

(** The distance to the lowest nonce of the sender.  The comparison goes through
    [operator[]]; without an entry of the sender [begin()] is not to be followed. *)
Definition height (q : TransactionQueue) (t : Transaction) : outcome u256 :=
  a ← sender t;
  match q_byNonce q !! a ≫= map_begin with
  | Some (lowest, _) => Ok (t_nonce t [-] lowest)
  | None => Undef
  end.
Definition PriorityCompare (q : TransactionQueue) (_first _second : Transaction) : outcome bool :=
  height1 ← height q _first;
  height2 ← height q _second;
  Ok ((height1 <? height2) || ((height1 =? height2) && (t_gasPrice _second <? t_gasPrice _first))).

(** The transactions of the multiset in its order. *)
Fixpoint queued_in (nodes : gmap nat Transaction) (l : list nat) : option (list Transaction) :=
  match l with
  | [] => Some []
  | i :: l => t ← nodes !! i; ts ← queued_in nodes l; Some (t :: ts)
  end.

(** [m_current.emplace]: the comparison may throw, and then nothing is inserted. *)
Definition emplace (t : Transaction) : Q nat :=
  q ← getS;
  match queued_in (q_nodes q) (q_current q) with
  | None => undef
  | Some ts =>
      n ← lift (emplace_at (PriorityCompare q) ts t);
      let i := q_fresh q in
      modS (λ q, q <| q_nodes ::= <[i := t]> |> <| q_current ::= λ l, take n l ++ i :: drop n l |> <| q_fresh := S i |>) ;;
      mret i
  end.
(** [m_current.erase] *)
Definition erase_node (i : nat) : Q unit :=
  modS (λ q, q <| q_nodes ::= delete i |> <| q_current ::= filter (λ j, j ≠ i) |>).

(** [m_currentByAddressAndNonce[a].insert(...)]: nothing changes when the nonce has an entry. *)
Definition reserve (a : Address) (n : u256) : Q unit :=
  modS (λ q, q <| q_byNonce ::= λ m,
    let own := default ∅ (m !! a) in
    <[a := match own !! n with Some _ => own | None => <[n := None]> own end]> m |>).
Definition assign (a : Address) (n : u256) (i : nat) : Q unit :=
  modS (λ q, q <| q_byNonce ::= λ m, <[a := <[n := Some i]> (default ∅ (m !! a))]> m |>).

(** A transaction of the account joins the current ones: its entry by nonce, its node, and
    the iterator in the entry.  When the comparison throws the entry stays without one. *)
Definition add_current (a : Address) (t : Transaction) : Q nat :=
  reserve a (t_nonce t) ;;
  handle ← emplace t;
  assign a (t_nonce t) handle ;;
  mret handle.

Definition emit (x : signal) : Q unit := modS (λ q, q <| q_signals ::= λ l, l ++ [x] |>).

(** A transaction that was moved from keeps everything but its data. *)
Definition moved (t : Transaction) : Transaction :=
  mkTx (t_type t) (t_nonce t) (t_value t) (t_receiveAddress t) (t_gasPrice t) (t_gas t) []
    (t_vrs t) (t_chainId t) (t_sender t).

(** ** Removing *)
Definition erase_slot (a : Address) (n : u256) (m : gmap Address (gmap u256 (option nat)))
    : gmap Address (gmap u256 (option nat)) :=
  match m !! a with
  | Some own => if bool_decide (delete n own = ∅) then delete a m else <[a := delete n own]> m
  | None => m
  end.
Definition remove_WITH_LOCK (_txHash : h256) : Q bool :=
  q ← getS;
  match q_byHash q !! _txHash with
  | None => mret false
  | Some i =>
      t ← node i;
      if bool_decide (q_byNonce q !! safeSender t = None) then undef
      else
        erase_node i ;;
        modS (λ q, q <| q_byNonce ::= erase_slot (safeSender t) (t_nonce t) |> <| q_byHash ::= delete _txHash |>
                     <| q_known ::= λ k, k ∖ {[_txHash]} |>) ;;
        mret true
  end.

(** ** From future to current *)

(** One transaction [t] of the account, from the entry [k] of [m_future]. *)
Definition promote_one (a : Address) (k : u256) (t : Transaction) : Q unit :=
  modS (λ q, q <| q_future ::= alter (alter moved k) a |>) ;;
  handle ← add_current a t;
  h ← lift (tx_hash t);
  modS (λ q, q <| q_byHash ::= <[h := handle]> |> <| q_futureSize ::= λ n, u32 (n - 1) |>).
(** The loop over the successors: [ft] runs through the entries from [nonce] on. *)
Fixpoint promote (a : Address) (nonce : u256) (ft : list (u256 * Transaction)) : Q (list u256) :=
  match ft with
  | [] => mret []
  | (k, t) :: ft' =>
      if t_nonce t =? nonce then
        promote_one a k t ;;
        l ← promote a (nonce [+] 1) ft';
        mret (k :: l)
      else mret []
  end.
(** [m_future[a].erase] for each of a list of nonces; an account without entries goes. *)
Definition erase_future (a : Address) (ks : list u256) (m : gmap Address (gmap u256 Transaction))
    : gmap Address (gmap u256 Transaction) :=
  match m !! a with
  | Some own =>
      let own' := foldr delete own ks in
      if bool_decide (own' = ∅) then delete a m else <[a := own']> m
  | None => m
  end.

(** Dropping the last transaction of some account while there are too many. *)
Definition drop_last_future : Q unit :=
  modS (λ q, q <| q_futureSize ::= λ n, u32 (n - 1) |>) ;;
  q ← getS;
  match a ← hash_begin (dom (q_future q)); own ← q_future q !! a; p ← map_rbegin own; Some (a, p.1) with
  | Some (a, k) => modS (λ q, q <| q_future ::= erase_future a [k] |>)
  | None => undef
  end.
Fixpoint times {S} (n : nat) (m : ST S unit) : ST S unit :=
  match n with O => mret tt | Datatypes.S n => m ;; times n m end.

(** Successors become current as far as they follow without a gap. *)
Definition promote_successors (a : Address) (nonce : u256) : Q bool :=
  q ← getS;
  match q_future q !! a with
  | Some fs =>
      if bool_decide (is_Some (fs !! nonce)) then
        l ← promote a nonce (map_lower nonce fs);
        modS (λ q, q <| q_future ::= erase_future a l |>) ;;
        mret (bool_decide (l ≠ []))
      else mret false
  | None => mret false
  end.

Definition makeCurrent_WITH_LOCK (_t : Transaction) : Q unit :=
  newCurrent ← promote_successors (safeSender _t) (t_nonce _t [+] 1);
  q ← getS;
  times (Z.to_nat (q_futureSize q - q_futureLimit q)) drop_last_future ;;
  when newCurrent (emit OnReady).

(** ** Importing *)
Definition insertCurrent_WITH_LOCK (_h : h256) (t : Transaction) : Q unit :=
  q ← getS;
  if bool_decide (is_Some (q_byHash q !! _h)) then mret tt
  else
    handle ← add_current (safeSender t) t;
    modS (λ q, q <| q_byHash ::= <[_h := handle]> |>) ;;
    makeCurrent_WITH_LOCK t ;;
    modS (λ q, q <| q_known ::= λ k, k ∪ {[_h]} |>).

Definition check_WITH_LOCK (q : TransactionQueue) (_h : h256) (_ik : IfDropped) : ImportResult :=
  if bool_decide (_h ∈ q_known q) then AlreadyKnown
  else if bool_decide (_h ∈ q_dropped q) && bool_decide (_ik = Ignore) then AlreadyInChain
  else Success.

(** While there are too many, the last in the order goes.  A round that removes nothing would
    be repeated for ever. *)
Fixpoint trim (fuel : nat) : Q unit :=
  q ← getS;
  if q_limit q <? len (q_current q) then
    match fuel with
    | O => out_of_fuel
    | S fuel =>
        match last (q_current q) with
        | None => undef
        | Some i => t ← node i; h ← lift (tx_hash t); _ ← remove_WITH_LOCK h; trim fuel
        end
    end
  else mret tt.

(** The transaction of the same sender and nonce goes first; [false]: it pays more. *)
Definition replace_current (_transaction : Transaction) : Q bool :=
  q ← getS;
  match current_at q (safeSender _transaction) (t_nonce _transaction) with
  | None => mret true
  | Some handle =>
      t ← follow handle;
      if t_gasPrice _transaction <? t_gasPrice t then mret false
      else
        dropped ← lift (tx_hash t);
        _ ← remove_WITH_LOCK dropped;
        emit (OnReplaced dropped) ;;
        mret true
  end.
Definition replace_future (_transaction : Transaction) : Q bool :=
  q ← getS;
  match future_at q (safeSender _transaction) (t_nonce _transaction) with
  | None => mret true
  | Some t =>
      if t_gasPrice _transaction <? t_gasPrice t then mret false
      else
        modS (λ q, q <| q_future ::= erase_future (safeSender _transaction) [t_nonce _transaction] |>
                     <| q_futureSize ::= λ n, u32 (n - 1) |>) ;;
        mret true
  end.

Definition make_room (_transaction : Transaction) : Q bool :=
  cheaper ← replace_current _transaction;
  if negb cheaper then mret false else replace_future _transaction.

Definition manageImport_WITH_LOCK (_h : h256) (_transaction : Transaction) : Q ImportResult :=
  try_catch
    (room ← make_room _transaction;
     if negb room then mret OverbidGasPrice
     else
       insertCurrent_WITH_LOCK _h _transaction ;;
       q ← getS;
       trim (length (q_current q)) ;;
       emit OnReady ;;
       mret Success)
    (λ _, true) (λ _, mret Malformed).

(** [import] of a transaction and of its RLP. *)
Definition import (_transaction : Transaction) (_ik : IfDropped) : Q ImportResult :=
  if hasZeroSignature _transaction then mret ZeroSignature
  else
    h ← lift (tx_hash _transaction);
    q ← getS;
    let ir := check_WITH_LOCK q h _ik in
    if bool_decide (ir ≠ Success) then mret ir else manageImport_WITH_LOCK h _transaction.
Definition import_rlp (_transactionRLP : bytes) (_ik : IfDropped) : Q ImportResult :=
  try_catch
    (t ← lift (transaction_of_rlp CheckEverything _transactionRLP); import t _ik)
    is_dev_exception (λ _, mret Malformed).

(** ** The other operations *)

(** One entry of the account's current transactions goes to [m_future[from]]. *)
Definition demote (from : Address) (m : u256 * option nat) : Q unit :=
  match m.2 with
  | None => undef
  | Some j =>
      t ← node j;
      h ← lift (tx_hash t);
      modS (λ q, q <| q_byHash ::= delete h |>
        <| q_future ::= alter (λ target, match target !! t_nonce t with Some _ => target | None => <[t_nonce t := t]> target end) from |>) ;;
      erase_node j ;;
      modS (λ q, q <| q_futureSize ::= λ n, u32 (n + 1) |>)
  end.
(** Everything of the sender from the nonce on waits. *)
Definition setFuture (_txHash : h256) : Q unit :=
  q ← getS;
  match q_byHash q !! _txHash with
  | None => mret tt
  | Some i =>
      st ← node i;
      let from := safeSender st in
      let queue := default ∅ (q_byNonce q !! from) in
      let cutoff := map_lower (t_nonce st) queue in
      modS (λ q, q <| q_byNonce ::= <[from := queue]> |>
                   <| q_future ::= λ m, <[from := default ∅ (m !! from)]> m |>) ;;
      forM cutoff (demote from) ;;
      modS (λ q, q <| q_byNonce ::= λ m,
        let rest := foldr delete queue (fst <$> cutoff) in
        if bool_decide (rest = ∅) then delete from m else <[from := rest]> m |>)
  end.

(** [drop] *)
Definition drop_tx (_txHash : h256) : Q unit :=
  q ← getS;
  if bool_decide (_txHash ∈ q_known q) then
    modS (λ q, q <| q_dropped ::= λ d, d ∪ {[_txHash]} |>) ;;
    _ ← remove_WITH_LOCK _txHash; mret tt
  else mret tt.
Definition dropGood (_t : Transaction) : Q unit :=
  makeCurrent_WITH_LOCK _t ;;
  h ← lift (tx_hash _t);
  q ← getS;
  if bool_decide (h ∈ q_known q) then _ ← remove_WITH_LOCK h; mret tt else mret tt.
Definition clear : Q unit :=
  modS (λ q, q <| q_known := ∅ |> <| q_nodes := ∅ |> <| q_current := [] |> <| q_dropped := ∅ |> <| q_byNonce := ∅ |>
               <| q_byHash := ∅ |> <| q_future := ∅ |> <| q_futureSize := 0 |>).
(** The one operation that takes no lock: it is this step only for a caller that has the queue
    to itself. *)
Definition eraseDropedTx (_txHash : h256) : Q unit :=
  modS (λ q, q <| q_dropped ::= λ d, d ∖ {[_txHash]} |>).

(** ** Reading *)
Definition knownTransactions : Q (gset h256) := q ← getS; mret (q_known q).
Definition waiting (_a : Address) : Q uint32 :=
  q ← getS;
  mret (u32 (Z.of_nat (size (default ∅ (q_byNonce q !! _a))) + Z.of_nat (size (default ∅ (q_future q !! _a))))).
Definition maxNonce (_a : Address) : Q u256 :=
  q ← getS;
  let ret := match q_byNonce q !! _a ≫= map_rbegin with Some (n, _) => n [+] 1 | None => 0 end in
  mret (match q_future q !! _a ≫= map_rbegin with Some (n, _) => Z.max ret (n [+] 1) | None => ret end).
Fixpoint top_loop (_limit : nat) (_avoid : gset h256) (l : list nat) : Q (list Transaction) :=
  match l, _limit with
  | [], _ | _, O => mret []
  | i :: l', S n =>
      t ← node i;
      h ← lift (tx_hash t);
      if bool_decide (h ∈ _avoid) then top_loop _limit _avoid l'
      else ts ← top_loop n _avoid l'; mret (t :: ts)
  end.
Definition topTransactions (_limit : nat) (_avoid : gset h256) : Q (list Transaction) :=
  q ← getS;
  top_loop (if bool_decide (_limit = 0%nat) then length (q_current q) else _limit) _avoid (q_current q).

(** ** Transactions of peers *)
Fixpoint enqueue (_dataV : list bytes) (_nodeId : Z) : Q unit :=
  match _dataV with
  | [] => mret tt
  | d :: _dataV' =>
      q ← getS;
      if c_maxVerificationQueueSize <=? len (q_unverified q) then mret tt
      else modS (λ q, q <| q_unverified ::= λ l, l ++ [(d, _nodeId)] |>) ;; enqueue _dataV' _nodeId
  end.
(** [enqueue] of the items of an RLP list *)
Fixpoint enqueue_items (_data : bytes) (idx : list nat) (_nodeId : Z) : Q unit :=
  match idx with
  | [] => mret tt
  | i :: idx' =>
      q ← getS;
      if c_maxVerificationQueueSize <=? len (q_unverified q) then mret tt
      else
        x ← lift (item _data i);
        modS (λ q, q <| q_unverified ::= λ l, l ++ [(x, _nodeId)] |>) ;; enqueue_items _data idx' _nodeId
  end.
Definition enqueue_rlp (_data : bytes) (_nodeId : Z) : Q unit :=
  n ← lift (itemCount _data); enqueue_items _data (seq 0 (Z.to_nat n)) _nodeId.
(** One round of [verifierBody] is two steps: taking the next one, under the lock of the
    verification queue, and importing it. *)
Definition verifier_take : Q (option (bytes * Z)) :=
  q ← getS;
  match q_unverified q with
  | [] => mret None
  | work :: rest => modS (λ q, q <| q_unverified := rest |>) ;; mret (Some work)
  end.
Definition verifier_import (work : bytes * Z) : Q unit :=
  try_catch
    (t ← lift (transaction_of_rlp CheckCheap work.1);
     ir ← import t Ignore;
     h ← lift (tx_hash t);
     emit (OnImport ir h work.2))
    (λ _, true) (λ _, mret tt).
End TxQueue.
