(* ===== verification/TxQueueProofs.v ===== *)
(** * The representation of the transaction queue

    [Rep q E]: the multiset, the index by hash and the index by sender and nonce of [q]
    all describe the list [E] of nodes.  [Waiting q E F]: the future transactions are the
    map [F] of senders and nonces.  Each operation is described by what it does to [E]
    and [F]. *)
From stdpp Require Import base gmap list sorting.
From Stdlib Require Import ZArith Lia.
From S2P Require Import Prelude Rlp Config Interfaces Transaction TxQueue.
Open Scope Z_scope.

(** A record of facts about members an update does not touch. *)
Ltac rep_frame R := destruct R; split; done.

Section Queue.
Context `{CR : Crypto, CN : Containers}.
Implicit Types (q : TransactionQueue) (t : Transaction) (E : list (nat * Transaction)) (F : gmap (Address * u256) Transaction).

(** A transaction whose hash and sender can be computed. *)
Definition recoverable t : Prop := ∃ h a, tx_hash t = Ok h ∧ sender t = Ok a.
Definition hash_of t : h256 := match tx_hash t with Ok h => h | _ => 0 end.
Definition key_of t : Address * u256 := (safeSender t, t_nonce t).

Lemma recoverable_hash t : recoverable t → tx_hash t = Ok (hash_of t).
Proof. intros (h & a & Hh & _). unfold hash_of. by rewrite Hh. Qed.
Lemma recoverable_sender t : recoverable t → sender t = Ok (safeSender t).
Proof. intros (h & a & _ & Ha). unfold safeSender. by rewrite Ha. Qed.

Record Rep q E : Prop := {
  rep_current : q_current q = E.*1;
  rep_nodes : q_nodes q = list_to_map E;
  rep_ids : NoDup E.*1;
  rep_fresh : ∀ i, i ∈ E.*1 → (i < q_fresh q)%nat;
  rep_good : ∀ i t, (i, t) ∈ E → recoverable t;
  rep_hash : ∀ h i, q_byHash q !! h = Some i ↔ ∃ t, (i, t) ∈ E ∧ hash_of t = h;
  rep_slot : ∀ a n o, current_at q a n = Some o ↔ ∃ i t, o = Some i ∧ (i, t) ∈ E ∧ key_of t = (a, n);
  rep_owner : ∀ a m, q_byNonce q !! a = Some m → m ≠ ∅ }.

Definition hashes E : list h256 := hash_of <$> E.*2.
Definition keys E : list (Address * u256) := key_of <$> E.*2.

Lemma rep_node q E i t : Rep q E → (i, t) ∈ E → q_nodes q !! i = Some t.
Proof. intros R H. rewrite (rep_nodes _ _ R). by apply elem_of_list_to_map, H; apply R. Qed.
Lemma rep_node_inv q E i t : Rep q E → q_nodes q !! i = Some t → (i, t) ∈ E.
Proof. intros R H. rewrite (rep_nodes _ _ R) in H. by apply elem_of_list_to_map_2. Qed.
Lemma rep_same_id q E i t u : Rep q E → (i, t) ∈ E → (i, u) ∈ E → t = u.
Proof. intros R H1%(rep_node _ _ _ _ R) H2%(rep_node _ _ _ _ R). congruence. Qed.
Lemma rep_hash_inj q E i j t u : Rep q E → (i, t) ∈ E → (j, u) ∈ E → hash_of t = hash_of u → i = j.
Proof.
  intros R Ht Hu Hh. assert (q_byHash q !! hash_of t = Some i) as H1 by (apply R; eauto).
  assert (q_byHash q !! hash_of t = Some j) as H2 by (apply R; eauto). congruence.
Qed.
Lemma rep_key_inj q E i j t u : Rep q E → (i, t) ∈ E → (j, u) ∈ E → key_of t = key_of u → i = j.
Proof.
  intros R Ht Hu Hk. destruct (key_of t) as [a n] eqn:Ek.
  assert (current_at q a n = Some (Some i)) as H1 by (apply R; eauto 6).
  assert (current_at q a n = Some (Some j)) as H2 by (apply R; eauto 6). congruence.
Qed.

Lemma elem_hashes E h : h ∈ hashes E ↔ ∃ i t, (i, t) ∈ E ∧ hash_of t = h.
Proof.
  unfold hashes. rewrite list_elem_of_fmap. split.
  - intros (t & -> & ([i t'] & -> & H)%list_elem_of_fmap). eauto.
  - intros (i & t & H & <-). exists t. split; [done|]. apply list_elem_of_fmap. by exists (i, t).
Qed.
Lemma elem_keys E k : k ∈ keys E ↔ ∃ i t, (i, t) ∈ E ∧ key_of t = k.
Proof.
  unfold keys. rewrite list_elem_of_fmap. split.
  - intros (t & -> & ([i t'] & -> & H)%list_elem_of_fmap). eauto.
  - intros (i & t & H & <-). exists t. split; [done|]. apply list_elem_of_fmap. by exists (i, t).
Qed.
Lemma rep_hash_none q E h : Rep q E → q_byHash q !! h = None ↔ h ∉ hashes E.
Proof.
  intros R. rewrite elem_hashes, eq_None_not_Some. split; intros H1 H2; apply H1.
  - destruct H2 as (i & t & Hi & Hh). exists i. apply R. eauto.
  - destruct H2 as [i Hi]. apply R in Hi as (t & ? & ?). eauto.
Qed.
Lemma rep_slot_none q E a n : Rep q E → current_at q a n = None ↔ (a, n) ∉ keys E.
Proof.
  intros R. rewrite elem_keys, eq_None_not_Some. split; intros H1 H2; apply H1.
  - destruct H2 as (i & t & Hi & Hh). exists (Some i). apply R. eauto.
  - destruct H2 as [o Ho]. apply R in Ho as (i & t & ? & ? & ?). eauto.
Qed.
Lemma rep_size q E : Rep q E → length (q_current q) = length E.
Proof. intros R. by rewrite (rep_current _ _ R), length_fmap. Qed.

(** [queued_in] reads the transactions in order. *)
Lemma queued_in_spec (nodes : gmap nat Transaction) E :
  (∀ i t, (i, t) ∈ E → nodes !! i = Some t) → queued_in nodes E.*1 = Some E.*2.
Proof.
  induction E as [|[i t] E IH]; intros H; [done|]. cbn. rewrite (H i t) by left. cbn.
  rewrite IH; [done|]. intros j u Hj. apply H. by right.
Qed.
Lemma rep_queued q E : Rep q E → queued_in (q_nodes q) (q_current q) = Some E.*2.
Proof. intros R. rewrite (rep_current _ _ R). apply queued_in_spec. intros i t. by apply rep_node. Qed.

(** ** Ordered maps *)
Lemma map_begin_some {V} (m : gmap Z V) : m ≠ ∅ → ∃ k v, map_begin m = Some (k, v) ∧ m !! k = Some v.
Proof.
  intros Hm. unfold map_begin. destruct (map_iter m) as [|[k v] l] eqn:Em.
  - apply map_choose in Hm as (k & v & Hk). apply map_iter_elem in Hk. rewrite Em in Hk. by apply not_elem_of_nil in Hk.
  - exists k, v. split; [done|]. apply map_iter_elem. rewrite Em. left.
Qed.
Lemma map_rbegin_some {V} (m : gmap Z V) : m ≠ ∅ → ∃ k v, map_rbegin m = Some (k, v) ∧ m !! k = Some v.
Proof.
  intros Hm. unfold map_rbegin. destruct (last (map_iter m)) as [[k v]|] eqn:Em.
  - exists k, v. split; [done|]. apply map_iter_elem. by apply last_Some_elem_of.
  - apply last_None in Em. apply map_choose in Hm as (k & v & Hk). apply map_iter_elem in Hk.
    rewrite Em in Hk. by apply not_elem_of_nil in Hk.
Qed.
Lemma map_lower_elem {V} k (m : gmap Z V) n v : (n, v) ∈ map_lower k m ↔ m !! n = Some v ∧ k <= n.
Proof. unfold map_lower. rewrite list_elem_of_filter, map_iter_elem. cbn. naive_solver. Qed.
Lemma map_lower_sorted {V} k (m : gmap Z V) : StronglySorted key_le (map_lower k m).
Proof.
  apply filter_sorted, StronglySorted_merge_sort; unfold key_le.
  - intros x y z ??. lia.
  - intros x y. lia.
Qed.
Lemma map_lower_nodup {V} k (m : gmap Z V) : NoDup (map_lower k m).*1.
Proof.
  unfold map_lower. assert (NoDup (map_iter m).*1) as H.
  { rewrite map_iter_perm. apply NoDup_fst_map_to_list. }
  revert H. generalize (map_iter m). intros l. induction l as [|[n v] l IH]; intros H; [constructor|].
  rewrite fmap_cons in H. apply NoDup_cons in H as [Hn Hl]. rewrite filter_cons. case_decide; [|by apply IH].
  rewrite fmap_cons. apply NoDup_cons. split; [|by apply IH]. intros ([n' v'] & Hx & Hy)%list_elem_of_fmap.
  apply list_elem_of_filter in Hy as [_ Hy]. cbn in Hx. subst. apply Hn, list_elem_of_fmap. by exists (n', v').
Qed.

(** ** Adding a node *)

(** The list with a node at a place. *)
Definition put_at (n : nat) (x : nat * Transaction) E : list (nat * Transaction) := take n E ++ x :: drop n E.
Lemma put_at_perm n x E : put_at n x E ≡ₚ x :: E.
Proof. unfold put_at. by rewrite <-Permutation_middle, take_drop. Qed.
Lemma put_at_elem n x E y : y ∈ put_at n x E ↔ y = x ∨ y ∈ E.
Proof. by rewrite put_at_perm, elem_of_cons. Qed.
Lemma put_at_length n x E : length (put_at n x E) = S (length E).
Proof. by rewrite put_at_perm. Qed.

Lemma height_ok q t : recoverable t → (∃ m, q_byNonce q !! safeSender t = Some m ∧ m ≠ ∅) → ∃ z, height q t = Ok z.
Proof.
  intros Hg (m & Hm & Hne). unfold height. rewrite (recoverable_sender _ Hg). cbn. rewrite Hm. cbn.
  destruct (map_begin_some m Hne) as (k & v & -> & _). eauto.
Qed.

Definition placed (n : nat) t q : TransactionQueue :=
  q <| q_nodes ::= <[q_fresh q := t]> |> <| q_current ::= λ l, take n l ++ q_fresh q :: drop n l |>
    <| q_fresh := S (q_fresh q) |>.

Lemma emplace_ok q ts t :
  queued_in (q_nodes q) (q_current q) = Some ts → length ts = length (q_current q) →
  (∀ u, u ∈ t :: ts → recoverable u ∧ ∃ m, q_byNonce q !! safeSender u = Some m ∧ m ≠ ∅) →
  ∃ n, (n <= length (q_current q))%nat ∧ emplace_at (PriorityCompare q) ts t = Ok n
       ∧ emplace t q = (Ok (q_fresh q), placed n t q).
Proof.
  intros Hq Hl Hh. destruct (emplace_total (PriorityCompare q) ts t) as (n & Hn & Hle).
  { intros y Hy. unfold PriorityCompare.
    destruct (Hh t ltac:(left)) as [G1 M1], (Hh y ltac:(by right)) as [G2 M2].
    destruct (height_ok q t G1 M1) as [z1 ->], (height_ok q y G2 M2) as [z2 ->]. cbn. eauto. }
  exists n. split; [lia|]. split; [done|]. unfold emplace, getS, mbind, ST_bind. rewrite Hq. unfold lift. by rewrite Hn.
Qed.

Lemma Rep_add q E t n q' :
  Rep q E → recoverable t → hash_of t ∉ hashes E → key_of t ∉ keys E →
  (n <= length E)%nat →
  q_nodes q' = <[q_fresh q := t]> (q_nodes q) →
  q_current q' = take n (q_current q) ++ q_fresh q :: drop n (q_current q) →
  q_fresh q' = S (q_fresh q) →
  q_byHash q' = <[hash_of t := q_fresh q]> (q_byHash q) →
  q_byNonce q' = <[safeSender t := <[t_nonce t := Some (q_fresh q)]> (default ∅ (q_byNonce q !! safeSender t))]> (q_byNonce q) →
  Rep q' (put_at n (q_fresh q, t) E).
Proof.
  intros R Hg Hh Hk Hn Enodes Ecur Efresh Ehash Enonce. set (i := q_fresh q) in *.
  assert (i ∉ E.*1) as Hi by (intros Hi; apply (rep_fresh _ _ R) in Hi; lia).
  split.
  - rewrite Ecur, (rep_current _ _ R). unfold put_at. by rewrite fmap_app, fmap_cons, fmap_take, fmap_drop.
  - rewrite Enodes, (rep_nodes _ _ R), <-list_to_map_cons. apply list_to_map_proper; [by apply NoDup_cons, conj, R|].
    by rewrite put_at_perm.
  - rewrite put_at_perm. by apply NoDup_cons, conj, R.
  - intros j. rewrite put_at_perm, fmap_cons, elem_of_cons, Efresh. cbn. intros [->|Hj]; [lia|].
    apply (rep_fresh _ _ R) in Hj. lia.
  - intros j u [[= -> ->]|Hj]%put_at_elem; [done|]. by eapply (rep_good _ _ R).
  - intros h j. rewrite Ehash. setoid_rewrite put_at_elem. destruct (decide (h = hash_of t)) as [->|Hne].
    + rewrite lookup_insert_eq. split; [intros [= <-]; exists t; auto|]. intros (u & [[= -> ->]|Hu] & Hx); [done|].
      destruct Hh. apply elem_hashes. eauto.
    + rewrite lookup_insert_ne, (rep_hash _ _ R) by done. split; intros (u & Hu & Hx); [by exists u; auto|].
      destruct Hu as [[= -> ->]|Hu]; [done|]. by exists u.
  - intros a m o. unfold current_at. rewrite Enonce. setoid_rewrite put_at_elem.
    destruct (decide (a = safeSender t)) as [->|Hne].
    + rewrite lookup_insert_eq. cbn. destruct (decide (m = t_nonce t)) as [->|Hne].
      * rewrite lookup_insert_eq. split; [intros [= <-]; exists i, t; auto|].
        intros (j & u & -> & [[= -> ->]|Hu] & Hx); [done|]. destruct Hk. apply elem_keys. exists j, u. by rewrite Hx.
      * rewrite lookup_insert_ne by done.
        transitivity (current_at q (safeSender t) m = Some o).
        { unfold current_at. destruct (q_byNonce q !! safeSender t); [done|]. cbn. by rewrite lookup_empty. }
        rewrite (rep_slot _ _ R). split; intros (j & u & -> & Hu & Hx); exists j, u; [auto|].
        destruct Hu as [[= -> ->]|Hu]; [|done]. unfold key_of in Hx. by simplify_eq.
    + rewrite lookup_insert_ne by done. fold (current_at q a m). rewrite (rep_slot _ _ R).
      split; intros (j & u & -> & Hu & Hx); exists j, u; [auto|].
      destruct Hu as [[= -> ->]|Hu]; [|done]. unfold key_of in Hx. by simplify_eq.
  - intros a m. rewrite Enonce. destruct (decide (a = safeSender t)) as [->|Hne].
    + rewrite lookup_insert_eq. intros [= <-]. apply insert_non_empty.
    + rewrite lookup_insert_ne by done. apply R.
Qed.

Definition added (n : nat) t q : TransactionQueue :=
  (placed n t q) <| q_byNonce ::= λ m,
    <[safeSender t := <[t_nonce t := Some (q_fresh q)]> (default ∅ (m !! safeSender t))]> m |>.
Lemma add_current_ok q E t :
  Rep q E → recoverable t → hash_of t ∉ hashes E → key_of t ∉ keys E →
  ∃ n, (n <= length E)%nat ∧ add_current (safeSender t) t q = (Ok (q_fresh q), added n t q)
    ∧ Rep ((added n t q) <| q_byHash ::= <[hash_of t := q_fresh q]> |>) (put_at n (q_fresh q, t) E).
Proof.
  intros R Hg Hth Hkk.
  assert (q_byNonce q !! safeSender t ≫= (.!! t_nonce t) = None) as Hfree by by apply (rep_slot_none _ _ _ _ R).
  assert (default ∅ (q_byNonce q !! safeSender t) !! t_nonce t = None) as Hfree'.
  { destruct (q_byNonce q !! safeSender t); cbn in *; [done|by rewrite lookup_empty]. }
  set (m0 := <[safeSender t := <[t_nonce t := None]> (default ∅ (q_byNonce q !! safeSender t))]> (q_byNonce q)).
  assert (reserve (safeSender t) (t_nonce t) q = (Ok tt, q <| q_byNonce := m0 |>)) as Hr.
  { unfold reserve, modS, upd, q_byNonce_field. cbv beta zeta. by rewrite Hfree'. }
  assert (<[safeSender t := <[t_nonce t := Some (q_fresh q)]> (default ∅ (m0 !! safeSender t))]> m0
    = <[safeSender t := <[t_nonce t := Some (q_fresh q)]> (default ∅ (q_byNonce q !! safeSender t))]> (q_byNonce q)) as Hm0.
  { unfold m0. rewrite lookup_insert_eq. unfold default at 1. cbn [id]. by rewrite !insert_insert_eq. }
  destruct (emplace_ok (q <| q_byNonce := m0 |>) E.*2 t) as (n & Hn & _ & He).
  - cbn. by apply rep_queued.
  - cbn. by rewrite (rep_size _ _ R), length_fmap.
  - intros u Hu. cbn. unfold m0.
    assert (recoverable u) as Hu'.
    { apply elem_of_cons in Hu as [->|([i u'] & -> & Hu)%list_elem_of_fmap]; [done|by eapply (rep_good _ _ R)]. }
    split; [done|]. destruct (decide (safeSender u = safeSender t)) as [->|Hne].
    + rewrite lookup_insert_eq. eexists. split; [done|apply insert_non_empty].
    + apply elem_of_cons in Hu as [->|([i u'] & -> & Hu)%list_elem_of_fmap]; [done|].
      rewrite lookup_insert_ne by done. assert (current_at q (safeSender u') (t_nonce u') = Some (Some i)) as Hx by (apply R; eauto 6).
      unfold current_at in Hx. cbn in *. destruct (q_byNonce q !! safeSender u') as [m|] eqn:Em; [|done]. exists m. split; [done|]. by eapply R.
  - cbn in Hn. rewrite (rep_size _ _ R) in Hn. exists n. split; [done|]. split.
    + unfold add_current. rewrite (bind_ok _ _ _ _ _ Hr), (bind_ok _ _ _ _ _ He). unfold assign, modS, mbind, ST_bind, mret, ST_ret.
      do 2 f_equal. unfold added, placed, upd, q_byNonce_field. f_equal; try reflexivity. exact Hm0.
    + by eapply (Rep_add q).
Qed.

(** ** Removing a node *)
Definition without (i : nat) E : list (nat * Transaction) := filter (λ p : nat * Transaction, p.1 ≠ i) E.
Lemma without_elem i E p : p ∈ without i E ↔ p.1 ≠ i ∧ p ∈ E.
Proof. unfold without. by rewrite list_elem_of_filter. Qed.
Lemma without_fst i E : (without i E).*1 = filter (λ j, j ≠ i) E.*1.
Proof.
  unfold without. induction E as [|[j t] E IH]; [done|]. rewrite fmap_cons, !filter_cons. cbn [fst].
  case_decide; [by rewrite fmap_cons, IH|done].
Qed.
Lemma without_nodup i E : NoDup E.*1 → NoDup (without i E).*1.
Proof. rewrite without_fst. apply NoDup_filter. Qed.
Lemma without_absent i E : i ∉ E.*1 → without i E = E.
Proof.
  unfold without. induction E as [|[j u] E IH]; [done|]. rewrite fmap_cons, elem_of_cons, filter_cons. cbn [fst].
  intros H. rewrite decide_True by naive_solver. f_equal. naive_solver.
Qed.
Lemma without_length i t E : NoDup E.*1 → (i, t) ∈ E → length E = S (length (without i E)).
Proof.
  intros Hd Hi. apply list_elem_of_split in Hi as (E1 & E2 & ->).
  rewrite fmap_app, fmap_cons in Hd. apply NoDup_app in Hd as (_ & Hd & [Hi _]%NoDup_cons).
  unfold without. rewrite filter_app, filter_cons, !length_app. cbn [fst length]. rewrite decide_False by naive_solver.
  fold (without i E1) (without i E2). rewrite !without_absent; [lia|done|]. intros H. apply (Hd i H). left.
Qed.

Definition removed (i : nat) (t : Transaction) q : TransactionQueue :=
  q <| q_nodes ::= delete i |> <| q_current ::= filter (λ j, j ≠ i) |>
    <| q_byNonce ::= erase_slot (safeSender t) (t_nonce t) |> <| q_byHash ::= delete (hash_of t) |>
    <| q_known ::= λ k, k ∖ {[hash_of t]} |>.

Lemma erase_slot_lookup (m : gmap Address (gmap u256 (option nat))) a n b k :
  erase_slot a n m !! b ≫= (.!! k) = if decide ((b, k) = (a, n)) then None else m !! b ≫= (.!! k).
Proof.
  unfold erase_slot. destruct (m !! a) as [own|] eqn:Ea.
  - destruct (decide (b = a)) as [->|Hb].
    + case_bool_decide as He.
      * rewrite lookup_delete_eq, Ea. cbn. case_decide as Hd; [done|].
        destruct (own !! k) eqn:Ek; [|done]. assert (k ≠ n) by congruence.
        assert (delete n own !! k = None) as Hx by by rewrite He. rewrite lookup_delete_ne in Hx by done. congruence.
      * rewrite lookup_insert_eq, Ea. cbn. destruct (decide (k = n)) as [->|Hk].
        -- by rewrite lookup_delete_eq, decide_True.
        -- rewrite lookup_delete_ne by done. by rewrite decide_False by congruence.
    + rewrite (decide_False (P := (b, k) = (a, n))) by congruence.
      case_bool_decide; [by rewrite lookup_delete_ne|by rewrite lookup_insert_ne].
  - case_decide as Hd; [|done]. injection Hd as -> ->. by rewrite Ea.
Qed.
Lemma erase_slot_owner (m : gmap Address (gmap u256 (option nat))) a n :
  (∀ b own, m !! b = Some own → own ≠ ∅) → ∀ b own, erase_slot a n m !! b = Some own → own ≠ ∅.
Proof.
  intros H b own. unfold erase_slot. destruct (m !! a) as [o|] eqn:Ea; [|apply H].
  case_bool_decide; destruct (decide (a = b)) as [->|Hb].
  - by rewrite lookup_delete_eq.
  - rewrite lookup_delete_ne by done. apply H.
  - rewrite lookup_insert_eq. by intros [= <-].
  - rewrite lookup_insert_ne by done. apply H.
Qed.

Lemma Rep_removed q E i t : Rep q E → (i, t) ∈ E → Rep (removed i t q) (without i E).
Proof.
  intros R Hi. split; cbn.
  - by rewrite (rep_current _ _ R), without_fst.
  - rewrite (rep_nodes _ _ R). apply map_eq. intros j. pose proof (rep_ids _ _ R) as Hd.
    destruct (decide (j = i)) as [->|Hj].
    + rewrite lookup_delete_eq. symmetry. apply not_elem_of_list_to_map. rewrite without_fst, list_elem_of_filter. naive_solver.
    + rewrite lookup_delete_ne by done. apply option_eq. intros u.
      rewrite <-!elem_of_list_to_map by auto using without_nodup. rewrite without_elem. naive_solver.
  - apply without_nodup, R.
  - intros j. rewrite without_fst, list_elem_of_filter. intros [_ Hj]. by apply R.
  - intros j u [_ Hj]%without_elem. by eapply (rep_good _ _ R).
  - intros h j. setoid_rewrite without_elem. destruct (decide (h = hash_of t)) as [->|Hh].
    + rewrite lookup_delete_eq. split; [done|]. intros (u & [Hj Hu] & Hx). cbn in Hj.
      destruct Hj. by eapply rep_hash_inj.
    + rewrite lookup_delete_ne, (rep_hash _ _ R) by done. split; intros (u & Hu & Hx); exists u; [|naive_solver].
      split; [|done]. split; [|done]. cbn. intros ->. by rewrite (rep_same_id _ _ _ _ _ R Hi Hu) in Hh.
  - intros a n o. unfold current_at. cbn. rewrite erase_slot_lookup. setoid_rewrite without_elem. case_decide as Hk.
    + split; [done|]. intros (j & u & -> & [Hj Hu] & Hx). cbn in Hj. destruct Hj. eapply rep_key_inj; try done. by rewrite Hx, Hk.
    + fold (current_at q a n). rewrite (rep_slot _ _ R). split; intros (j & u & -> & Hu & Hx); exists j, u; [|naive_solver].
      split; [done|]. split; [|done]. split; [|done]. cbn. intros ->. rewrite (rep_same_id _ _ _ _ _ R Hu Hi) in Hx. by rewrite <-Hx in Hk.
  - apply erase_slot_owner, R.
Qed.

Lemma remove_absent q E h : Rep q E → h ∉ hashes E → remove_WITH_LOCK h q = (Ok false, q).
Proof. intros R Hh. unfold remove_WITH_LOCK, getS, mbind, ST_bind. by apply (rep_hash_none _ _ _ R) in Hh as ->. Qed.
Lemma remove_present q E i t : Rep q E → (i, t) ∈ E → remove_WITH_LOCK (hash_of t) q = (Ok true, removed i t q).
Proof.
  intros R Hi. unfold remove_WITH_LOCK, node, getS, mbind, ST_bind.
  rewrite (proj2 (rep_hash _ _ R (hash_of t) i)) by eauto. rewrite (rep_node _ _ _ _ R Hi). cbn.
  assert (current_at q (safeSender t) (t_nonce t) = Some (Some i)) as Hs by (apply R; eauto 6).
  unfold current_at in Hs. rewrite bool_decide_false; [done|]. intros Hx. by rewrite Hx in Hs.
Qed.
(** ** Future transactions *)
Record Waiting q E F : Prop := {
  w_good : ∀ k t, F !! k = Some t →
    recoverable t ∧ key_of t = k ∧ hash_of t ∈ q_known q ∧ hash_of t ∉ hashes E ∧ k ∉ keys E;
  w_inj : ∀ k t k' t', F !! k = Some t → F !! k' = Some t' → hash_of t = hash_of t' → k = k';
  w_size : q_futureSize q = Z.of_nat (size F) }.

Definition Known q E : Prop := ∀ h, h ∈ hashes E → h ∈ q_known q.

(** [m_future] holds the map, without empty accounts. *)
Record Stored q F : Prop := {
  st_lookup : ∀ a n, q_future q !! a ≫= (.!! n) = F !! (a, n);
  st_owner : ∀ a m, q_future q !! a = Some m → m ≠ ∅ }.

(** Members that the moves between the two sets leave alone. *)
Definition kept q q' : Prop :=
  q_known q' = q_known q ∧ q_dropped q' = q_dropped q ∧ q_limit q' = q_limit q
  ∧ q_futureLimit q' = q_futureLimit q ∧ q_unverified q' = q_unverified q.
#[export] Instance kept_preorder : PreOrder kept.
Proof. split; [done|]. intros q1 q2 q3 (?&?&?&?&?) (?&?&?&?&?). repeat split; congruence. Qed.

Lemma Waiting_promote q E F n i t q' :
  Waiting q E F → F !! key_of t = Some t → q_known q' = q_known q →
  q_futureSize q' = q_futureSize q - 1 →
  Waiting q' (put_at n (i, t) E) (delete (key_of t) F).
Proof.
  intros W Ht Hk Hs. destruct (w_good _ _ _ W _ _ Ht) as (Hg & _ & Htk & Hth & _).
  assert (∀ h, h ∈ hashes (put_at n (i, t) E) ↔ h = hash_of t ∨ h ∈ hashes E) as Hh.
  { intros h. unfold hashes. by rewrite put_at_perm, !fmap_cons, elem_of_cons. }
  assert (∀ k, k ∈ keys (put_at n (i, t) E) ↔ k = key_of t ∨ k ∈ keys E) as Hks.
  { intros k. unfold keys. by rewrite put_at_perm, !fmap_cons, elem_of_cons. }
  split.
  - intros k u [Hne Hu]%lookup_delete_Some. destruct (w_good _ _ _ W _ _ Hu) as (? & ? & ? & ? & ?).
    rewrite Hk, Hh, Hks. repeat split; try done; intros [Hx|]; try done.
    by eapply Hne, (w_inj _ _ _ W).
  - intros k u k' u' [_ Hu]%lookup_delete_Some [_ Hu']%lookup_delete_Some. by eapply (w_inj _ _ _ W).
  - rewrite Hs, (w_size _ _ _ W), map_size_delete_Some by eauto.
    assert (size F ≠ 0%nat) by (intros Hz%map_size_empty_inv; subst; by rewrite lookup_empty in Ht). lia.
Qed.

Lemma promote_step q E F a k t :
  Rep q E → Waiting q E F → Z.of_nat (size F) < 2 ^ 32 → F !! (a, k) = Some t →
  ∃ n q1, (n <= length E)%nat ∧ promote_one a k t q = (Ok tt, q1)
    ∧ Rep q1 (put_at n (q_fresh q, t) E) ∧ Waiting q1 (put_at n (q_fresh q, t) E) (delete (a, k) F)
    ∧ kept q q1 ∧ q_future q1 = alter (alter moved k) a (q_future q) ∧ q_signals q1 = q_signals q.
Proof.
  intros R W Hs Ht. destruct (w_good _ _ _ W _ _ Ht) as (Hg & Hk & Htk & Hth & Hkk).
  unfold key_of in Hk. injection Hk as <- <-. fold (key_of t) in *.
  set (q0 := q <| q_future ::= alter (alter moved (t_nonce t)) (safeSender t) |>).
  assert (Rep q0 E) as R0 by rep_frame R.
  destruct (add_current_ok q0 E t R0 Hg Hth Hkk) as (n & Hn & Hq & R1).
  assert (size F ≠ 0%nat) by (intros Hz%map_size_empty_inv; subst; by rewrite lookup_empty in Ht).
  exists n. eexists. split; [done|]. split.
  { unfold promote_one, modS, lift. unfold mbind, ST_bind. fold q0. rewrite Hq, (recoverable_hash _ Hg). reflexivity. }
  split; [rep_frame R1|]. split; [|done].
  eapply (Waiting_promote q); try done. cbn. apply u32_small. rewrite (w_size _ _ _ W). lia.
Qed.

(** Several entries of one account leave the map. *)
Definition leave (a : Address) (l : list u256) F : gmap (Address * u256) Transaction := foldr (λ k, delete (a, k)) F l.
Lemma leave_lookup a l F k : leave a l F !! k = if decide (k.1 = a ∧ k.2 ∈ l) then None else F !! k.
Proof.
  unfold leave. induction l as [|n l IH]; cbn.
  - rewrite decide_False; [done|]. intros [_ H%elem_of_nil]. done.
  - destruct (decide (k = (a, n))) as [->|Hne].
    + rewrite lookup_delete_eq. rewrite decide_True; [done|]. split; [done|]. left.
    + rewrite lookup_delete_ne, IH by done. destruct k as [b m]. cbn. repeat case_decide; try done; set_solver.
Qed.
Lemma leave_delete a n l F : leave a l (delete (a, n) F) = leave a (n :: l) F.
Proof. apply map_eq. intros k. rewrite !leave_lookup. destruct k as [b m]. cbn.
  destruct (decide ((a, n) = (b, m))) as [[= -> ->]|Hne].
  - rewrite lookup_delete_eq. repeat case_decide; try done; set_solver.
  - rewrite lookup_delete_ne by done. repeat case_decide; try done; set_solver.
Qed.
Lemma leave_size a l F : NoDup l → (∀ k, k ∈ l → is_Some (F !! (a, k))) → size F = (size (leave a l F) + length l)%nat.
Proof.
  revert F. induction l as [|k l IH]; intros F Hd Hl; cbn; [lia|]. apply NoDup_cons in Hd as [Hk Hd].
  assert (is_Some (leave a l F !! (a, k))).
  { rewrite leave_lookup, decide_False by naive_solver. apply Hl. left. }
  fold (leave a l F). rewrite map_size_delete_Some by done. rewrite (IH F) by (try done; intros; apply Hl; by right).
  assert (size (leave a l F) ≠ 0%nat).
  { intros Hz%map_size_empty_inv. rewrite Hz, lookup_empty in H. by destruct H. }
  lia.
Qed.

Definition promoted q E F (a : Address) (ft : list (u256 * Transaction)) (l : list u256) q' E' : Prop :=
  Rep q' E' ∧ Waiting q' E' (leave a l F) ∧ kept q q' ∧ q_signals q' = q_signals q
  ∧ length E' = (length E + length l)%nat ∧ l `prefix_of` ft.*1
  ∧ E `sublist_of` E' ∧ (∀ u, u ∈ E'.*2 ↔ u ∈ E.*2 ∨ ∃ k, k ∈ l ∧ F !! (a, k) = Some u)
  ∧ (∀ b k, ¬ (b = a ∧ k ∈ l) → q_future q' !! b ≫= (.!! k) = q_future q !! b ≫= (.!! k))
  ∧ (∀ b, b ≠ a → q_future q' !! b = q_future q !! b)
  ∧ (is_Some (q_future q !! a) → is_Some (q_future q' !! a)).

Lemma put_at_sublist n x E : E `sublist_of` put_at n x E.
Proof. unfold put_at. rewrite <-(take_drop n E) at 1. apply sublist_app; [done|]. by constructor. Qed.
Lemma put_at_snd n i t E u : u ∈ (put_at n (i, t) E).*2 ↔ u = t ∨ u ∈ E.*2.
Proof. by rewrite put_at_perm, fmap_cons, elem_of_cons. Qed.

Lemma promoted_nil q E F a ft : Rep q E → Waiting q E F → promoted q E F a ft [] q E.
Proof.
  intros R W. repeat (split; [done || lia || apply prefix_nil|]). split; [|done].
  intros u. split; [auto|]. intros [H|(k & H%elem_of_nil & _)]; done.
Qed.

Lemma promote_ok ft : ∀ a nonce q E F,
  Rep q E → Waiting q E F → Z.of_nat (size F) < 2 ^ 32 → NoDup ft.*1 →
  (∀ k t, (k, t) ∈ ft → F !! (a, k) = Some t) →
  ∃ l q' E', promote a nonce ft q = (Ok l, q') ∧ promoted q E F a ft l q' E'.
Proof.
  induction ft as [|[k t] ft IH]; intros a nonce q E F R W Hs Hd Hf.
  { exists [], q, E. split; [done|by apply promoted_nil]. }
  cbn [promote]. destruct (Z.eqb_spec (t_nonce t) nonce) as [Hn|Hn]; cycle 1.
  { exists [], q, E. split; [done|by apply promoted_nil]. }
  rewrite fmap_cons in Hd. apply NoDup_cons in Hd as [Hk Hd]. cbn in Hk.
  assert (F !! (a, k) = Some t) as Ht by (apply Hf; left).
  destruct (promote_step q E F a k t R W Hs Ht) as (n & q1 & Hle & E1 & R1 & W1 & K1 & F1 & S1).
  destruct (IH a (nonce [+] 1) q1 (put_at n (q_fresh q, t) E) (delete (a, k) F)) as (l & q2 & E2 & Hp & (R2 & W2 & K2 & S2 & L2 & P2 & Sub & Mem & Fut & Oth & Own)); try done.
  { rewrite map_size_delete_Some by eauto. lia. }
  { intros k' t' H'. rewrite lookup_delete_ne; [apply Hf; by right|]. intros [= <-]. apply Hk.
    apply list_elem_of_fmap. by exists (k, t'). }
  exists (k :: l), q2, E2. split.
  { rewrite (bind_ok _ _ _ _ _ E1), (bind_ok _ _ _ _ _ Hp). done. }
  rewrite leave_delete in W2. split; [done|]. split; [done|]. split; [by etrans|]. split; [congruence|].
  split; [rewrite L2, put_at_length; cbn; lia|]. split; [by apply prefix_cons|].
  split; [etrans; [apply put_at_sublist|done]|]. split; [|split; [|split]].
  - intros u. rewrite Mem, put_at_snd. split.
    + intros [[->|H]|(k' & H & Hu)]; [right; exists k; split; [left|done]|auto|].
      apply lookup_delete_Some in Hu as [_ Hu]. right. exists k'. split; [by right|done].
    + intros [H|(k' & [->|H]%elem_of_cons & Hu)]; [auto|left; left; congruence|].
      right. exists k'. split; [done|]. rewrite lookup_delete_ne; [done|]. intros [= ->].
      destruct P2 as [r Hr]. apply Hk. rewrite Hr. apply elem_of_app. auto.
  - intros b k' Hbk. rewrite Fut by set_solver. rewrite F1. destruct (decide (b = a)) as [->|Hb].
    + rewrite lookup_alter_eq. destruct (q_future q !! a) as [m|]; [|done]. cbn. rewrite lookup_alter_ne; [done|]. set_solver.
    + by rewrite lookup_alter_ne.
  - intros b Hb. rewrite Oth, F1 by done. by rewrite lookup_alter_ne.
  - intros Ha. apply Own. rewrite F1, lookup_alter_eq. by apply fmap_is_Some.
Qed.
(** A run of successors without a gap is promoted to its end. *)
Lemma promote_run ft : ∀ a nonce q l q' k,
  promote a nonce ft q = (Ok l, q') → StronglySorted key_le ft → NoDup ft.*1 →
  (∀ j t, (j, t) ∈ ft → nonce <= j ∧ t_nonce t = j) →
  0 <= nonce <= k → k < M256 → (∀ j, nonce <= j <= k → j ∈ ft.*1) → k ∈ l.
Proof.
  induction ft as [|[k0 t0] ft IH]; intros a nonce q l q' k Hp Hs Hd Hge Hk Hb Hall.
  { exfalso. eapply not_elem_of_nil, (Hall k); lia. }
  assert (k0 = nonce) as ->.
  { destruct (Hge k0 t0 ltac:(left)) as [Hk0 _]. pose proof (Hall nonce ltac:(lia)%Z) as Hn.
    apply StronglySorted_inv in Hs as [_ Hs]. rewrite Forall_forall in Hs. rewrite fmap_cons in Hn.
    apply elem_of_cons in Hn as [->|([n u] & -> & Hu)%list_elem_of_fmap]; [done|]. apply Hs in Hu. unfold key_le in Hu. cbn in *. lia. }
  cbn [promote] in Hp. destruct (Hge nonce t0 ltac:(left)) as [_ Ht0]. rewrite Ht0, Z.eqb_refl in Hp.
  apply bind_inv in Hp as ([] & q1 & _ & Hp). apply bind_inv in Hp as (l1 & q2 & Hp & Hr). injection Hr as <- <-.
  destruct (decide (k = nonce)) as [->|Hne]; [left|right].
  rewrite fmap_cons in Hd. apply NoDup_cons in Hd as [Hn Hd]. apply StronglySorted_inv in Hs as [Hs Hle]. rewrite Forall_forall in Hle.
  assert (nonce [+] 1 = nonce + 1) as Hw by (apply w256_small; unfold in256; lia). rewrite Hw in Hp.
  eapply IH; try done; [|lia|].
  - intros j t Hj. destruct (Hge j t ltac:(by right)) as [Hj1 Hj2]. split; [|done].
    enough (j ≠ nonce) by lia. intros ->. apply Hn, list_elem_of_fmap. by exists (nonce, t).
  - intros j Hj. pose proof (Hall j ltac:(lia)%Z) as Hx. rewrite fmap_cons in Hx. apply elem_of_cons in Hx as [Hx|Hx]; [cbn in Hx; lia|done].
Qed.

Definition Holds q E F : Prop := Rep q E ∧ Waiting q E F ∧ Stored q F.

Lemma foldr_delete_lookup {V} (ks : list Z) (m : gmap Z V) k :
  foldr delete m ks !! k = if decide (k ∈ ks) then None else m !! k.
Proof.
  induction ks as [|n ks IH]; cbn.
  - by rewrite decide_False by apply not_elem_of_nil.
  - destruct (decide (n = k)) as [->|Hne].
    + rewrite lookup_delete_eq, decide_True; [done|left].
    + rewrite lookup_delete_ne, IH by done. repeat case_decide; try done; set_solver.
Qed.
Lemma erase_future_lookup a ks (m : gmap Address (gmap u256 Transaction)) b k :
  erase_future a ks m !! b ≫= (.!! k) = if decide (b = a ∧ k ∈ ks) then None else m !! b ≫= (.!! k).
Proof.
  unfold erase_future. destruct (decide (b = a)) as [->|Hb]; cycle 1.
  { rewrite decide_False by naive_solver. destruct (m !! a); [|done]. cbn.
    case_bool_decide; [by rewrite lookup_delete_ne|by rewrite lookup_insert_ne]. }
  destruct (m !! a) as [own|] eqn:Ea; cbn.
  - assert ((if bool_decide (foldr delete own ks = ∅) then delete a m else <[a := foldr delete own ks]> m) !! a ≫= (.!! k)
      = foldr delete own ks !! k) as ->.
    { case_bool_decide as He; [rewrite lookup_delete_eq, He; cbn; by rewrite lookup_empty|by rewrite lookup_insert_eq]. }
    rewrite foldr_delete_lookup. repeat case_decide; try done; naive_solver.
  - rewrite Ea. cbn. by case_decide.
Qed.
Lemma erase_future_owner a ks (m : gmap Address (gmap u256 Transaction)) :
  (∀ b own, b ≠ a → m !! b = Some own → own ≠ ∅) → ∀ b own, erase_future a ks m !! b = Some own → own ≠ ∅.
Proof.
  intros H b own. unfold erase_future. destruct (decide (b = a)) as [->|Hb].
  - destruct (m !! a) as [o|] eqn:Ea; [|congruence]. cbn. case_bool_decide; [by rewrite lookup_delete_eq|].
    rewrite lookup_insert_eq. by intros [= <-].
  - destruct (m !! a) as [o|]; [|by apply H]. cbn.
    case_bool_decide; rewrite ?lookup_delete_ne, ?lookup_insert_ne by done; by apply H.
Qed.
Lemma Stored_erase q a l F (fut : gmap Address (gmap u256 Transaction)) q' :
  Stored q F →
  (∀ b k, ¬ (b = a ∧ k ∈ l) → fut !! b ≫= (.!! k) = q_future q !! b ≫= (.!! k)) →
  (∀ b, b ≠ a → fut !! b = q_future q !! b) →
  q_future q' = erase_future a l fut → Stored q' (leave a l F).
Proof.
  intros S Hl Ho Hq. split; rewrite Hq.
  - intros b k. rewrite erase_future_lookup, leave_lookup. cbn. case_decide as Hd; [done|]. rewrite Hl by done. apply S.
  - apply erase_future_owner. intros b own Hb. rewrite Ho by done. apply S.
Qed.

Lemma Waiting_weaken q E F F' q' :
  Waiting q E F → F' ⊆ F → q_known q' = q_known q → q_futureSize q' = Z.of_nat (size F') → Waiting q' E F'.
Proof.
  intros W Hsub Hk Hs. split; rewrite ?Hk.
  - intros k t Ht. eapply (w_good _ _ _ W), lookup_weaken; done.
  - intros k t k' t' Ht Ht'. eapply (w_inj _ _ _ W); by eapply lookup_weaken.
  - done.
Qed.
Lemma size_pos F k t : F !! k = Some t → size F ≠ 0%nat.
Proof. intros H Hz%map_size_empty_inv. subst. by rewrite lookup_empty in H. Qed.

Lemma drop_last_future_ok q E F :
  Holds q E F → Z.of_nat (size F) < 2 ^ 32 → size F ≠ 0%nat →
  ∃ k q', drop_last_future q = (Ok tt, q') ∧ is_Some (F !! k) ∧ Holds q' E (delete k F) ∧ kept q q'
    ∧ q_signals q' = q_signals q.
Proof.
  intros (R & W & S) Hs Hne.
  assert (dom (q_future q) ≠ ∅) as Hd.
  { intros Hd%dom_empty_inv_L. apply Hne. destruct (map_size_empty_iff F) as [_ Hx]. apply Hx. apply map_empty.
    intros [a n]. rewrite <-(st_lookup _ _ S), Hd. by rewrite lookup_empty. }
  destruct (hash_begin_in _ Hd) as (a & Ha & [own Hown]%elem_of_dom).
  destruct (map_rbegin_some own (st_owner _ _ S _ _ Hown)) as (n & v & Hr & Hn).
  assert (F !! (a, n) = Some v) as HF by (rewrite <-(st_lookup _ _ S), Hown; done).
  exists (a, n). eexists. split; [|split; [by eauto|]].
  - unfold drop_last_future, modS, getS, mbind, ST_bind. cbn. rewrite Ha. cbn. rewrite Hown. cbn. rewrite Hr. done.
  - split; [|done]. split; [rep_frame R|]. split.
    + eapply (Waiting_weaken q _ F); [done|apply delete_subseteq|done|]. cbn. pose proof (size_pos _ _ _ HF).
      rewrite (w_size _ _ _ W), u32_small, map_size_delete_Some by (eauto || lia). lia.
    + by eapply (Stored_erase q a [n] F (q_future q)).
Qed.

Lemma trim_future_ok n : ∀ q E F,
  Holds q E F → Z.of_nat (size F) < 2 ^ 32 → (n <= size F)%nat →
  ∃ q' F', times n drop_last_future q = (Ok tt, q') ∧ Holds q' E F' ∧ F' ⊆ F
    ∧ size F = (size F' + n)%nat ∧ kept q q' ∧ q_signals q' = q_signals q.
Proof.
  induction n as [|n IH]; intros q E F H Hs Hn.
  { exists q, F. split; [done|]. split; [done|]. split; [done|]. split; [lia|done]. }
  destruct (drop_last_future_ok q E F H Hs ltac:(lia)) as (k & q1 & E1 & [t Hk] & H1 & K1 & S1).
  assert (size F = S (size (delete k F))) as Hsz.
  { rewrite map_size_delete_Some by eauto. pose proof (size_pos _ _ _ Hk). lia. }
  destruct (IH q1 E (delete k F) H1 ltac:(lia) ltac:(lia)) as (q2 & F2 & E2 & H2 & Sub & Hz & K2 & S2).
  exists q2, F2. split; [cbn; by rewrite (bind_ok _ _ _ _ _ E1)|]. split; [done|].
  split; [etrans; [done|apply delete_subseteq]|]. split; [lia|]. split; [by etrans|congruence].
Qed.

(** What [makeCurrent] does: successors of the transaction become current, as far as they
    follow without a gap, and the future set is cut to its limit. *)
Record made_current (a : Address) q E F q' E' F' (l : list u256) : Prop := {
  mc_holds : Holds q' E' F';
  mc_kept : kept q q';
  mc_sub : E `sublist_of` E';
  mc_length : length E' = (length E + length l)%nat;
  mc_mem : ∀ u, u ∈ E'.*2 ↔ u ∈ E.*2 ∨ ∃ k, k ∈ l ∧ F !! (a, k) = Some u;
  mc_listed : NoDup l ∧ ∀ k, k ∈ l → is_Some (F !! (a, k));
  mc_future : F' ⊆ leave a l F;
  mc_limit : Z.of_nat (size F') <= q_futureLimit q;
  mc_all : Z.of_nat (size F) <= q_futureLimit q → F' = leave a l F }.
Lemma promote_successors_ok a nonce q E F :
  Holds q E F → Z.of_nat (size F) < 2 ^ 32 →
  ∃ b l q' E', promote_successors a nonce q = (Ok b, q') ∧ Holds q' E' (leave a l F) ∧ kept q q'
    ∧ E `sublist_of` E' ∧ length E' = (length E + length l)%nat
    ∧ (∀ u, u ∈ E'.*2 ↔ u ∈ E.*2 ∨ ∃ k, k ∈ l ∧ F !! (a, k) = Some u)
    ∧ NoDup l ∧ (∀ k, k ∈ l → is_Some (F !! (a, k)))
    ∧ (∀ k, 0 <= nonce <= k → k < M256 → (∀ j, nonce <= j <= k → is_Some (F !! (a, j))) → k ∈ l).
Proof.
  intros (R & W & S) Hs.
  assert (is_Some (F !! (a, nonce)) ∨ F !! (a, nonce) = None) as [[t Ht]|Hnone] by (destruct (F !! (a, nonce)); eauto); cycle 1.
  { exists false, [], q, E. split.
    - unfold promote_successors, getS, mbind, ST_bind. pose proof (st_lookup _ _ S a nonce) as Hx.
      destruct (q_future q !! a) as [fs|]; [|done]. cbn in Hx. rewrite Hx, Hnone. by rewrite bool_decide_false by (by intros [? ?]).
    - split; [done|]. split; [done|]. split; [done|]. split; [cbn; lia|].
      split; [|split; [constructor|split; [by intros k Hk%elem_of_nil|]]]; cycle 1.
      { intros k Hk _ Hall. destruct (Hall nonce ltac:(lia)%Z) as [? Hx]. congruence. }
      intros u. split; [auto|]. intros [H|(k & H%elem_of_nil & _)]; done. }
  pose proof (st_lookup _ _ S a nonce) as Hx. rewrite Ht in Hx.
  destruct (q_future q !! a) as [fs|] eqn:Ea; [|done]. cbn in Hx.
  assert (∀ k u, (k, u) ∈ map_lower nonce fs → F !! (a, k) = Some u) as Hft.
  { intros k u [Hk _]%map_lower_elem. by rewrite <-(st_lookup _ _ S), Ea. }
  destruct (promote_ok (map_lower nonce fs) a nonce q E F R W Hs (map_lower_nodup _ _) Hft)
    as (l & q' & E' & Hp & (R' & W' & K & Sg & L & P & Sub & Mem & Fut & Oth & Own)).
  assert (∀ k, k ∈ l → ∃ u, (k, u) ∈ map_lower nonce fs) as Hin.
  { intros k Hk. destruct P as [r Hr]. assert (k ∈ (map_lower nonce fs).*1) as Hk' by (rewrite Hr; apply elem_of_app; auto).
    apply list_elem_of_fmap in Hk' as ([k' u] & -> & Hu). eauto. }
  exists (bool_decide (l ≠ [])), l. eexists. exists E'. split.
  { unfold promote_successors, getS. unfold mbind at 1, ST_bind at 1. rewrite Ea, bool_decide_true by eauto.
    rewrite (bind_ok _ _ _ _ _ Hp). done. }
  split; [|split; [done|split; [done|split; [done|split; [done|]]]]].
  - split; [rep_frame R'|]. split; [by destruct W'; split|]. by eapply (Stored_erase q a l F (q_future q')).
  - split.
    { destruct P as [r Hr]. pose proof (map_lower_nodup nonce fs) as Hd. rewrite Hr in Hd. by apply NoDup_app in Hd as [? _]. }
    split; [intros k (u & Hu)%Hin; eauto|]. intros k Hk Hb Hall.
    eapply promote_run; [exact Hp|apply map_lower_sorted|apply map_lower_nodup| |done|done|].
    + intros j u Hj. pose proof (Hft _ _ Hj) as Hju. apply map_lower_elem in Hj as [_ Hj].
      by destruct (w_good _ _ _ W _ _ Hju) as (_ & [= _ ->] & _).
    + intros j Hj. destruct (Hall j Hj) as [u Hu]. rewrite <-(st_lookup _ _ S), Ea in Hu.
      apply list_elem_of_fmap. exists (j, u). split; [done|]. apply map_lower_elem. split; [done|lia].
Qed.
Lemma makeCurrent_ok t q E F :
  Holds q E F → Z.of_nat (size F) < 2 ^ 32 → 0 <= q_futureLimit q →
  ∃ q' E' F' l, makeCurrent_WITH_LOCK t q = (Ok tt, q') ∧ made_current (safeSender t) q E F q' E' F' l
    ∧ (∀ k, 0 <= t_nonce t [+] 1 <= k → k < M256 →
         (∀ j, t_nonce t [+] 1 <= j <= k → is_Some (F !! (safeSender t, j))) → k ∈ l).
Proof.
  intros H Hs Hl.
  destruct (promote_successors_ok (safeSender t) (t_nonce t [+] 1) q E F H Hs)
    as (b & l & q1 & E1 & Ep & H1 & K1 & Sub & L & Mem & Hd & Hin & Hnext).
  pose proof (leave_size _ _ _ Hd Hin) as Hsz. pose proof H1 as (R1 & W1 & S1).
  destruct (trim_future_ok (Z.to_nat (q_futureSize q1 - q_futureLimit q1)) q1 E1 _ H1) as (q2 & F2 & E2 & H2 & Sub2 & Hsz2 & K2 & S2).
  { lia. }
  { rewrite (w_size _ _ _ W1). destruct K1 as (_ & _ & _ & -> & _). lia. }
  assert (q_futureLimit q1 = q_futureLimit q) as Hfl by apply K1.
  assert (q_futureSize q1 = Z.of_nat (size (leave (safeSender t) l F))) as Hfs by apply W1.
  exists (if b then q2 <| q_signals ::= λ l, l ++ [OnReady] |> else q2), E1, F2, l.
  split; [|split; [|exact Hnext]].
  - unfold makeCurrent_WITH_LOCK. rewrite (bind_ok _ _ _ _ _ Ep). unfold getS. unfold mbind at 1, ST_bind at 1.
    rewrite (bind_ok _ _ _ _ _ E2). by destruct b.
  - assert (kept q q2) as K by by etrans. split; try done.
    + destruct H2 as (R2 & W2 & S2'). destruct b; [|done]. split; [rep_frame R2|]. split; [by destruct W2; split|by destruct S2'; split].
    + by destruct b.
    + rewrite Hfs, Hfl in Hsz2. lia.
    + intros Hle. apply map_subseteq_size_eq; [done|].
      rewrite Hfs, Hfl in Hsz2. lia.
Qed.
Lemma elem_hashes_snd E h : h ∈ hashes E ↔ ∃ u, u ∈ E.*2 ∧ hash_of u = h.
Proof. unfold hashes. rewrite list_elem_of_fmap. naive_solver. Qed.
Lemma elem_keys_snd E k : k ∈ keys E ↔ ∃ u, u ∈ E.*2 ∧ key_of u = k.
Proof. unfold keys. rewrite list_elem_of_fmap. naive_solver. Qed.

Lemma Waiting_add q E F n i t q' :
  Waiting q E F → F !! key_of t = None → (∀ k u, F !! k = Some u → hash_of u ≠ hash_of t) →
  q_known q' = q_known q → q_futureSize q' = q_futureSize q → Waiting q' (put_at n (i, t) E) F.
Proof.
  intros W Hk Hh Hkn Hs. split; rewrite ?Hkn, ?Hs; [|apply W|apply W].
  intros k u Hu. destruct (w_good _ _ _ W _ _ Hu) as (? & ? & ? & Hh' & Hk'). repeat split; try done.
  - rewrite elem_hashes_snd. setoid_rewrite put_at_snd. intros (v & [->|Hv] & Hx); [by eapply Hh|].
    apply Hh', elem_hashes_snd. eauto.
  - rewrite elem_keys_snd. setoid_rewrite put_at_snd. intros (v & [->|Hv] & Hx); [congruence|].
    apply Hk', elem_keys_snd. eauto.
Qed.

(** A transaction that is new to the queue. *)
Definition new_to q E F t : Prop :=
  recoverable t ∧ hash_of t ∉ hashes E ∧ key_of t ∉ keys E ∧ F !! key_of t = None
  ∧ (∀ k u, F !! k = Some u → hash_of u ≠ hash_of t).

Lemma Known_add q q' E E' (l : list Transaction) :
  Known q E → (∀ u, u ∈ E'.*2 → u ∈ E.*2 ∨ u ∈ l) → (∀ u, u ∈ l → hash_of u ∈ q_known q') → q_known q ⊆ q_known q' → Known q' E'.
Proof.
  intros K Hm Hl Hs h (u & Hu & <-)%elem_hashes_snd. destruct (Hm u Hu) as [H|H]; [|by apply Hl].
  apply Hs, K, elem_hashes_snd. eauto.
Qed.

(** What [insertCurrent] adds: the transaction, and successors [l]. *)
Record inserted q E F t q' E' F' (l : list u256) : Prop := {
  in_holds : Holds q' E' F';
  in_known : q_known q' = q_known q ∪ {[hash_of t]} ∧ (Known q E → Known q' E');
  in_kept : q_dropped q' = q_dropped q ∧ q_limit q' = q_limit q ∧ q_futureLimit q' = q_futureLimit q ∧ q_unverified q' = q_unverified q;
  in_length : length E' = S (length E + length l);
  in_mem : ∀ u, u ∈ E'.*2 ↔ u = t ∨ u ∈ E.*2 ∨ ∃ k, k ∈ l ∧ F !! (safeSender t, k) = Some u;
  in_listed : NoDup l ∧ ∀ k, k ∈ l → is_Some (F !! (safeSender t, k));
  in_future : F' ⊆ leave (safeSender t) l F;
  in_limit : Z.of_nat (size F') <= q_futureLimit q;
  in_all : Z.of_nat (size F) <= q_futureLimit q → F' = leave (safeSender t) l F;
  in_run : ∀ k, 0 <= t_nonce t [+] 1 <= k → k < M256 →
    (∀ j, t_nonce t [+] 1 <= j <= k → is_Some (F !! (safeSender t, j))) → k ∈ l }.

Lemma insertCurrent_ok q E F t :
  Holds q E F → new_to q E F t → Z.of_nat (size F) < 2 ^ 32 → 0 <= q_futureLimit q →
  ∃ q' E' F' l, insertCurrent_WITH_LOCK (hash_of t) t q = (Ok tt, q') ∧ inserted q E F t q' E' F' l.
Proof.
  intros (R & W & S) (Hg & Hh & Hk & Hf & Hfh) Hs Hl.
  destruct (add_current_ok q E t R Hg Hh Hk) as (n & Hn & Hq & R1).
  set (q1 := (added n t q) <| q_byHash ::= <[hash_of t := q_fresh q]> |>) in *.
  assert (Holds q1 (put_at n (q_fresh q, t) E) F) as H1.
  { split; [done|]. split; [by eapply (Waiting_add q)|by destruct S; split]. }
  destruct (makeCurrent_ok t q1 _ F H1 Hs Hl) as (q2 & E2 & F2 & l & Hq2 & [(R2 & W2 & S2) K2 Sub2 L2 M2 I2 Fu2 Li2 A2] & Hnext).
  exists (q2 <| q_known ::= λ k, k ∪ {[hash_of t]} |>), E2, F2, l. split.
  { unfold insertCurrent_WITH_LOCK, getS. unfold mbind at 1, ST_bind at 1.
    rewrite bool_decide_false by (by apply (rep_hash_none _ _ _ R) in Hh as ->; intros [? ?]).
    rewrite (bind_ok _ _ _ _ _ Hq). rewrite (bind_ok _ _ _ tt q1) by done.
    by rewrite (bind_ok _ _ _ _ _ Hq2). }
  destruct K2 as (Kn & Kd & Kl & Kfl & Ku).
  assert (q_known (q2 <| q_known ::= λ k, k ∪ {[hash_of t]} |>) = q_known q ∪ {[hash_of t]}) as Hkn by (cbn; by rewrite Kn).
  split; try done.
  - split; [rep_frame R2|]. split; [|by destruct S2; split]. destruct W2 as [Wg Wi Ws]. split; [|done|done].
    intros k u Hu. destruct (Wg k u Hu) as (? & ? & ? & ? & ?). repeat split; try done. cbn. set_solver.
  - split; [done|]. intros Kq h (u & Hu & <-)%elem_hashes_snd. rewrite Hkn. apply elem_of_union.
    apply M2 in Hu as [[->|Hu]%put_at_snd|(k & _ & Hu)]; [set_solver|left..].
    + apply Kq, elem_hashes_snd. eauto.
    + by destruct (w_good _ _ _ W _ _ Hu) as (_ & _ & ? & _).
  - rewrite L2, put_at_length. lia.
  - intros u. rewrite M2, put_at_snd. tauto.
Qed.
(** ** Removing, on the whole state *)
Lemma Waiting_removed q E F i t : Rep q E → (i, t) ∈ E → Waiting q E F → Waiting (removed i t q) (without i E) F.
Proof.
  intros R Hi W. split; [|apply W|apply W]. intros k u Hu. destruct (w_good _ _ _ W _ _ Hu) as (? & ? & ? & Hh & Hk).
  assert (∀ p, p ∈ without i E → p ∈ E) as Hsub by (intros p [_ Hp]%without_elem; done).
  split; [done|]. split; [done|]. cbn. rewrite elem_hashes, elem_keys. split; [|split].
  - apply elem_of_difference. split; [done|]. intros Hx%elem_of_singleton. apply Hh, elem_hashes. eauto.
  - intros (j & v & Hv%Hsub & Hx). apply Hh, elem_hashes. eauto.
  - intros (j & v & Hv%Hsub & Hx). apply Hk, elem_keys. eauto.
Qed.
Lemma Holds_removed q E F i t :
  Holds q E F → Known q E → (i, t) ∈ E → Holds (removed i t q) (without i E) F ∧ Known (removed i t q) (without i E).
Proof.
  intros (R & W & S) K Hi. split.
  - split; [by apply Rep_removed|]. split; [by apply Waiting_removed|by destruct S; split].
  - intros h (j & u & [Hj Hu]%without_elem & <-)%elem_hashes. cbn. apply elem_of_difference. split.
    + apply K, elem_hashes. eauto.
    + intros Hx%elem_of_singleton. by eapply Hj, rep_hash_inj.
Qed.

Lemma without_last i t E : NoDup (E ++ [(i, t)]).*1 → without i (E ++ [(i, t)]) = E.
Proof.
  intros Hd. rewrite fmap_app in Hd. apply NoDup_app in Hd as (_ & Hd & _). unfold without. rewrite filter_app.
  fold (without i E). rewrite without_absent.
  - rewrite filter_cons_False by (cbn; naive_solver). by rewrite app_nil_r.
  - intros H. apply (Hd i H). left.
Qed.

(** Members that removing leaves alone; fewer hashes are known. *)
Definition shrunk q q' : Prop :=
  q_known q' ⊆ q_known q ∧ q_dropped q' = q_dropped q ∧ q_limit q' = q_limit q
  ∧ q_futureLimit q' = q_futureLimit q ∧ q_unverified q' = q_unverified q.
#[export] Instance shrunk_preorder : PreOrder shrunk.
Proof. split; [done|]. intros q1 q2 q3 (?&?&?&?&?) (?&?&?&?&?). repeat split; try congruence. by etrans. Qed.
Lemma removed_shrunk i t q : shrunk q (removed i t q).
Proof. repeat split. cbn. set_solver. Qed.

Lemma node_ok q E i t : Rep q E → (i, t) ∈ E → node i q = (Ok t, q).
Proof. intros R Hi. unfold node, getS, mbind, ST_bind. by rewrite (rep_node _ _ _ _ R Hi). Qed.
Lemma trim_enough fuel q : len (q_current q) <= q_limit q → trim fuel q = (Ok tt, q).
Proof.
  intros H. destruct fuel; cbn [trim]; unfold getS; unfold mbind at 1, ST_bind at 1;
    by destruct (Z.ltb_spec (q_limit q) (len (q_current q))); [lia|].
Qed.
Lemma trim_ok fuel : ∀ q E F,
  Holds q E F → Known q E → 0 <= q_limit q → (length E <= fuel)%nat →
  ∃ q', trim fuel q = (Ok tt, q') ∧ Holds q' (take (Z.to_nat (q_limit q)) E) F
    ∧ Known q' (take (Z.to_nat (q_limit q)) E) ∧ shrunk q q'.
Proof.
  induction fuel as [|fuel IH]; intros q E F H K Hl Hf; pose proof H as (R & W & S).
  - destruct E; [|cbn in Hf; lia]. exists q. rewrite take_nil. split; [|done].
    apply trim_enough. rewrite (rep_size _ _ R). cbn [length]. lia.
  - destruct (Z.ltb_spec (q_limit q) (len E)) as [Hlt|Hge]; cycle 1.
    { exists q. rewrite take_ge by lia. split; [|done]. apply trim_enough. by rewrite (rep_size _ _ R). }
    destruct (exists_last (l := E)) as (E0 & [i t] & ->); [by intros ->; cbn in Hlt; lia|].
    assert ((i, t) ∈ E0 ++ [(i, t)]) as Hi by (apply elem_of_app; right; left).
    destruct (Holds_removed _ _ _ _ _ H K Hi) as [H1 K1]. rewrite without_last in H1, K1 by apply R.
    rewrite length_app in Hf, Hlt. cbn in Hf, Hlt.
    destruct (IH _ _ _ H1 K1 Hl ltac:(lia)) as (q2 & E2 & H2 & K2 & S2). exists q2. split.
    + cbn [trim]. unfold getS. unfold mbind at 1, ST_bind at 1. rewrite (rep_size _ _ R), length_app. cbn [length].
      destruct (Z.ltb_spec (q_limit q) (Z.of_nat (length E0 + 1))); [|lia].
      rewrite (rep_current _ _ R), fmap_app. cbn [fmap list_fmap]. rewrite last_snoc. cbn [fst].
      rewrite (bind_ok _ _ _ _ _ (node_ok _ _ _ _ R Hi)).
      rewrite (recoverable_hash t) by by eapply (rep_good _ _ R). rewrite (bind_ok _ _ _ (hash_of t) q) by done.
      by rewrite (bind_ok _ _ _ _ _ (remove_present _ _ _ _ R Hi)).
    + rewrite take_app_le by lia. split; [done|]. split; [done|]. etrans; [apply removed_shrunk|done].
Qed.
End Queue.
