(* ===== verification/TxQueueOps.v ===== *)
(** * The operations of the transaction queue

    [pooled q] is the queue as its clients see it: a map from senders and nonces to
    transactions.  [Inv] is what holds between any two operations.  Every operation is
    described on the map. *)
From stdpp Require Import base gmap list sorting.
From Stdlib Require Import ZArith Lia.
From S2P Require Import Prelude Rlp Config Interfaces Transaction TxQueue TxQueueProofs.
Open Scope Z_scope.

Section Operations.
Context `{CR : Crypto, CN : Containers}.
Implicit Types (q : TransactionQueue) (t : Transaction) (E : list (nat * Transaction)) (F : gmap (Address * u256) Transaction).

(** The current transactions in the order they are tried, and all transactions by key. *)
Definition ready q : list Transaction := omap (q_nodes q !!.) (q_current q).
Definition future_by_key q : gmap (Address * u256) Transaction :=
  map_uncurry (M1 := gmap Address) (M2 := gmap u256) (M12 := gmap (Address * u256)) (q_future q).
Definition pooled q : gmap (Address * u256) Transaction :=
  list_to_map ((λ t, (key_of t, t)) <$> ready q) ∪ future_by_key q.

Lemma ready_spec q E : Rep q E → ready q = E.*2.
Proof.
  intros R. unfold ready. rewrite (rep_current _ _ R).
  assert (∀ i t, (i, t) ∈ E → q_nodes q !! i = Some t) as H by (intros; by eapply rep_node).
  clear R. induction E as [|[i t] E IH]; [done|]. cbn. rewrite (H i t) by left. f_equal. apply IH. intros. apply H. by right.
Qed.
Lemma rep_unique q E t u : Rep q E → t ∈ E.*2 → u ∈ E.*2 → key_of t = key_of u → t = u.
Proof.
  intros R ([i t'] & -> & Ht)%list_elem_of_fmap ([j u'] & -> & Hu)%list_elem_of_fmap Hk. cbn in *.
  pose proof (rep_key_inj _ _ _ _ _ _ R Ht Hu Hk) as ->. by eapply rep_same_id.
Qed.
Lemma rep_keys_nodup q E : Rep q E → NoDup (key_of <$> E.*2).
Proof.
  intros R. apply NoDup_fmap_2_strong.
  - intros t u Ht Hu. by eapply rep_unique.
  - rewrite <-list_fmap_id. pose proof (rep_ids _ _ R) as Hd.
    assert (∀ i j t, (i, t) ∈ E → (j, t) ∈ E → i = j) as Hi by (intros i j t ??; by eapply rep_key_inj).
    clear R. rewrite list_fmap_id. induction E as [|[i t] E IH]; [constructor|]. rewrite fmap_cons in *. apply NoDup_cons in Hd as [Hn Hd].
    apply NoDup_cons. split.
    + intros ([j u] & Hx & Hu)%list_elem_of_fmap. cbn in Hx. subst u. apply Hn, list_elem_of_fmap. exists (j, t). split; [|done].
      cbn. apply (Hi i j t); [left|by right].
    + apply IH; [done|]. intros ? ? ? ? ?. eapply Hi; by right.
Qed.

Lemma future_spec q F : Stored q F → future_by_key q = F.
Proof. intros S. apply map_eq. intros [a n]. unfold future_by_key. rewrite lookup_map_uncurry. apply S. Qed.
Lemma pooled_spec q E F k t : Holds q E F → pooled q !! k = Some t ↔ (t ∈ E.*2 ∧ key_of t = k) ∨ F !! k = Some t.
Proof.
  intros (R & W & S). unfold pooled. rewrite (ready_spec _ _ R).
  assert (∀ u, list_to_map (M := gmap _ _) ((λ t, (key_of t, t)) <$> E.*2) !! k = Some u ↔ u ∈ E.*2 ∧ key_of u = k) as Hc.
  { intros u. rewrite <-elem_of_list_to_map.
    - rewrite list_elem_of_fmap. split; [intros (v & [= -> ->] & ?)|intros [? <-]]; eauto.
    - rewrite <-list_fmap_compose. apply (rep_keys_nodup _ _ R). }
  assert (future_by_key q = F) as -> by by apply future_spec.
  rewrite lookup_union_Some_raw, Hc. split; [tauto|].
  intros [H|H]; [auto|right]. split; [|done]. apply eq_None_not_Some. intros [u [Hu Hk]%Hc].
  destruct (w_good _ _ _ W _ _ H) as (_ & _ & _ & _ & Hx). apply Hx, elem_keys_snd. eauto.
Qed.

Definition Inv q : Prop := ∃ E F, Holds q E F ∧ Known q E
  ∧ 0 <= q_limit q ∧ 0 <= q_futureLimit q ∧ q_limit q + q_futureLimit q < 2 ^ 32
  ∧ len E + Z.of_nat (size F) <= q_limit q + q_futureLimit q.
(** ** Importing *)
Lemma Holds_signals q E F f : Holds q E F → Holds (q <| q_signals ::= f |>) E F.
Proof. intros (R & W & S). split; [rep_frame R|]. split; [by destruct W; split|by destruct S; split]. Qed.

Lemma replace_current_ok q E t :
  Rep q E →
  (key_of t ∉ keys E ∧ replace_current t q = (Ok true, q))
  ∨ ∃ i u, (i, u) ∈ E ∧ key_of u = key_of t
      ∧ replace_current t q =
          if t_gasPrice t <? t_gasPrice u then (Ok false, q)
          else (Ok true, (removed i u q) <| q_signals ::= λ l, l ++ [OnReplaced (hash_of u)] |>).
Proof.
  intros R. destruct (current_at q (safeSender t) (t_nonce t)) as [o|] eqn:Hs.
  - right. pose proof (proj1 (rep_slot _ _ R _ _ _) Hs) as (i & u & -> & Hi & Hk). exists i, u. split; [done|]. split; [done|].
    unfold replace_current, getS. unfold mbind at 1, ST_bind at 1. rewrite Hs.
    cbn [follow]. rewrite (bind_ok _ _ _ _ _ (node_ok _ _ _ _ R Hi)). destruct (t_gasPrice t <? t_gasPrice u); [done|].
    rewrite (recoverable_hash u) by by eapply (rep_good _ _ R). rewrite (bind_ok _ _ _ (hash_of u) q) by done.
    by rewrite (bind_ok _ _ _ _ _ (remove_present _ _ _ _ R Hi)).
  - left. split; [by apply (rep_slot_none _ _ _ _ R)|]. unfold replace_current, getS, mbind, ST_bind.
    by rewrite Hs.
Qed.
Lemma replace_future_ok q E F t :
  Holds q E F → Z.of_nat (size F) < 2 ^ 32 →
  (F !! key_of t = None ∧ replace_future t q = (Ok true, q))
  ∨ ∃ u, F !! key_of t = Some u
      ∧ (t_gasPrice t < t_gasPrice u ∧ replace_future t q = (Ok false, q)
         ∨ t_gasPrice u <= t_gasPrice t ∧ ∃ q', replace_future t q = (Ok true, q') ∧ Holds q' E (delete (key_of t) F) ∧ kept q q').
Proof.
  intros (R & W & S) Hs. pose proof (st_lookup _ _ S (safeSender t) (t_nonce t)) as Hl. fold (key_of t) in Hl.
  destruct (F !! key_of t) as [u|] eqn:Hu.
  - right. exists u. split; [done|].
    assert (replace_future t q = if t_gasPrice t <? t_gasPrice u then (Ok false, q) else
      (Ok true, (q <| q_future ::= erase_future (safeSender t) [t_nonce t] |>) <| q_futureSize ::= λ n, u32 (n - 1) |>)) as ->.
    { unfold replace_future, getS. unfold mbind at 1, ST_bind at 1. unfold future_at. rewrite Hl.
      by destruct (t_gasPrice t <? t_gasPrice u). }
    destruct (Z.ltb_spec (t_gasPrice t) (t_gasPrice u)); [by left|right]. split; [done|]. eexists. split; [reflexivity|]. split; [|done].
    pose proof (size_pos _ _ _ Hu). split; [rep_frame R|]. split.
    + eapply (Waiting_weaken q _ F); [done|apply delete_subseteq|done|]. cbn.
      rewrite (w_size _ _ _ W), u32_small, map_size_delete_Some by (eauto || lia). lia.
    + by eapply (Stored_erase q (safeSender t) [t_nonce t] F (q_future q)).
  - left. split; [done|]. unfold replace_future, getS. unfold mbind at 1, ST_bind at 1. unfold future_at. by rewrite Hl.
Qed.
(** After making room for [t]: the transaction with its key is gone. *)
Lemma replace_ok q E F t :
  Holds q E F → Known q E → Z.of_nat (size F) < 2 ^ 32 →
  (∃ u, pooled q !! key_of t = Some u ∧ t_gasPrice t < t_gasPrice u ∧
     make_room t q = (Ok false, q))
  ∨ (∀ u, pooled q !! key_of t = Some u → t_gasPrice u <= t_gasPrice t) ∧
    ∃ q1 E1 F1, make_room t q = (Ok true, q1)
      ∧ Holds q1 E1 F1 ∧ Known q1 E1 ∧ shrunk q q1 ∧ pooled q1 = delete (key_of t) (pooled q)
      ∧ (length E1 <= length E)%nat ∧ (∀ p, p ∈ E1 → p ∈ E) ∧ F1 = delete (key_of t) F.
Proof.
  intros H K Hs. pose proof H as (R & W & S).
  assert (∀ q1 E1 F1, Holds q1 E1 F1 → (∀ u, (u ∈ E1.*2 ↔ u ∈ E.*2 ∧ key_of u ≠ key_of t)) → F1 = delete (key_of t) F →
    pooled q1 = delete (key_of t) (pooled q)) as Hpool.
  { intros q1 E1 F1 H1 He ->. apply map_eq. intros k. apply option_eq. intros u.
    rewrite (pooled_spec _ _ _ _ _ H1), !lookup_delete_Some, (pooled_spec _ _ _ _ _ H), He. naive_solver. }
  unfold make_room. destruct (replace_current_ok q E t R) as [[Hk Hr]|(i & u & Hi & Hk & Hr)].
  - rewrite (bind_ok _ _ _ _ _ Hr). cbn [negb].
    assert (∀ u, u ∈ E.*2 → key_of u ≠ key_of t) as Hne by (intros u Hu Hx; apply Hk, elem_keys_snd; eauto).
    assert (∀ u, u ∈ E.*2 ↔ u ∈ E.*2 ∧ key_of u ≠ key_of t) as Hall.
    { intros u. split; [intros Hu; split; [done|by apply Hne]|by intros [? _]]. }
    destruct (replace_future_ok q E F t H Hs) as [[Hf Hq]|(u & Hu & [[Hlt Hq]|(Hle & q1 & Hq & H1 & K1)])].
    + right. split. { intros u [[Hu Hx]|Hu]%(pooled_spec _ _ _ _ _ H); [by apply Hne in Hu|congruence]. }
      exists q, E, F. repeat (split; [done|]). split; [|split; [lia|split; [done|]]].
      * apply (Hpool q E F); [done|exact Hall|by rewrite delete_id].
      * by rewrite delete_id.
    + left. exists u. split; [|done]. apply (pooled_spec _ _ _ _ _ H). by right.
    + right. split. { intros v [[Hv Hx]|Hv]%(pooled_spec _ _ _ _ _ H); [by apply Hne in Hv|congruence]. }
      exists q1, E, (delete (key_of t) F). split; [done|]. split; [done|]. destruct K1 as (Kn & ? & ? & ? & ?).
      split; [intros h Hh; rewrite Kn; by apply K|]. split; [split; [by rewrite Kn|done]|]. split; [|split; [lia|done]].
      apply (Hpool q1 E (delete (key_of t) F)); [done|exact Hall|done].
  - assert (pooled q !! key_of t = Some u) as Hp.
    { apply (pooled_spec _ _ _ _ _ H). left. split; [|done]. apply list_elem_of_fmap. by exists (i, u). }
    assert (F !! key_of t = None) as HF.
    { apply eq_None_not_Some. intros [v Hv]. destruct (w_good _ _ _ W _ _ Hv) as (_ & _ & _ & _ & Hx).
      apply Hx, elem_keys. eauto. }
    destruct (Z.ltb_spec (t_gasPrice t) (t_gasPrice u)) as [Hlt|Hge].
    { left. exists u. split; [done|]. split; [done|]. by rewrite (bind_ok _ _ _ _ _ Hr). }
    right. split; [intros v Hv; congruence|]. rewrite (bind_ok _ _ _ _ _ Hr). cbn [negb].
    destruct (Holds_removed _ _ _ _ _ H K Hi) as [H1 K1]. pose proof (Holds_signals _ _ _ (λ l, l ++ [OnReplaced (hash_of u)]) H1) as H2.
    destruct (replace_future_ok _ _ _ t H2 Hs) as [[_ Hq]|(v & Hv & _)]; [|congruence].
    eexists _, (without i E), F. split; [exact Hq|]. split; [done|]. split; [done|]. split; [repeat split; cbn; set_solver|].
    split; [|split; [|split; [by intros p [_ ?]%without_elem|by rewrite delete_id]]].
    + apply (Hpool _ (without i E) F); [done| |by rewrite delete_id]. intros v. split.
      * intros ([j v'] & -> & [Hj Hv]%without_elem)%list_elem_of_fmap. cbn in *. split; [apply list_elem_of_fmap; by exists (j, v')|].
        rewrite <-Hk. intros Hx. by eapply Hj, rep_key_inj.
      * intros [([j v'] & -> & Hv)%list_elem_of_fmap Hx]. apply list_elem_of_fmap. exists (j, v'). split; [done|].
        apply without_elem. split; [|done]. cbn in *. intros ->. by rewrite (rep_same_id _ _ _ _ _ R Hv Hi) in Hx.
    + rewrite (without_length i u E) by (done || apply R). lia.
Qed.
(** The first [n] of the current transactions. *)
Lemma take_snd n E u : u ∈ (take n E).*2 → u ∈ E.*2.
Proof. intros (p & -> & Hp)%list_elem_of_fmap. apply list_elem_of_fmap. exists p. split; [done|]. by eapply subseteq_take. Qed.

Definition imported q t q' : Prop :=
  Inv q' ∧ len (ready q') <= q_limit q ∧ Z.of_nat (size (future_by_key q')) <= q_futureLimit q
  ∧ pooled q' ⊆ <[key_of t := t]> (pooled q)
  ∧ (Z.of_nat (size (pooled q)) < q_limit q → Z.of_nat (size (future_by_key q)) <= q_futureLimit q →
       pooled q' = <[key_of t := t]> (pooled q) ∧ t ∈ ready q'
       ∧ ∀ k, 0 <= t_nonce t < k → k < M256 →
           (∀ j, t_nonce t < j <= k → is_Some (future_by_key q !! (safeSender t, j))) →
           ∀ u, pooled q !! (safeSender t, k) = Some u → u ∈ ready q')
  ∧ q_known q' ⊆ q_known q ∪ {[hash_of t]}
  ∧ q_dropped q' = q_dropped q ∧ q_limit q' = q_limit q ∧ q_futureLimit q' = q_futureLimit q ∧ q_unverified q' = q_unverified q.

Lemma pooled_size q E F : Holds q E F → size (pooled q) = (length E + size F)%nat.
Proof.
  intros H. pose proof H as (R & W & S). unfold pooled. rewrite (ready_spec _ _ R), (future_spec _ _ S).
  rewrite map_size_disj_union.
  - f_equal. rewrite map_size_list_to_map; [by rewrite !length_fmap|]. rewrite <-list_fmap_compose. apply (rep_keys_nodup _ _ R).
  - apply map_disjoint_spec. intros k t u Ht Hu. apply elem_of_list_to_map_2, list_elem_of_fmap in Ht as (v & [= -> ->] & Hv).
    destruct (w_good _ _ _ W _ _ Hu) as (_ & _ & _ & _ & Hx). apply Hx, elem_keys_snd. eauto.
Qed.

Lemma manageImport_ok q t :
  Inv q → recoverable t → hash_of t ∉ q_known q →
  (∃ u, pooled q !! key_of t = Some u ∧ t_gasPrice t < t_gasPrice u
     ∧ manageImport_WITH_LOCK (hash_of t) t q = (Ok OverbidGasPrice, q))
  ∨ (∀ u, pooled q !! key_of t = Some u → t_gasPrice u <= t_gasPrice t)
    ∧ ∃ q', manageImport_WITH_LOCK (hash_of t) t q = (Ok Success, q') ∧ imported q t q'.
Proof.
  intros (E & F & H & K & Hl & Hfl & Hb & Hsum) Hg Hnew.
  destruct (replace_ok q E F t H K ltac:(lia)) as [(u & Hu & Hlt & Hr)|(Hall & q1 & E1 & F1 & Hr & H1 & K1 & S1 & P1 & L1 & Sub1 & ->)].
  { left. exists u. split; [done|]. split; [done|]. unfold manageImport_WITH_LOCK, try_catch. by rewrite (bind_ok _ _ _ _ _ Hr). }
  right. split; [done|]. destruct S1 as (Kn1 & Kd1 & Kl1 & Kf1 & Ku1).
  pose proof H as (R & W & S). pose proof H1 as (R1 & W1 & S1).
  assert (new_to q1 E1 (delete (key_of t) F) t) as Hnt.
  { split; [done|]. split.
    { intros Hx. apply Hnew, Kn1, K1, Hx. }
    split.
    { intros (u & Hu & Hx)%elem_keys_snd. assert (pooled q1 !! key_of t = Some u) as Hp.
      { apply (pooled_spec _ _ _ _ _ H1). by left. }
      rewrite P1, lookup_delete_eq in Hp. done. }
    split; [apply lookup_delete_eq|]. intros k u [_ Hu]%lookup_delete_Some Hx.
    destruct (w_good _ _ _ W _ _ Hu) as (_ & _ & Hkn & _). congruence. }
  assert (Z.of_nat (size (delete (key_of t) F)) <= Z.of_nat (size F)) as Hsz.
  { apply inj_le, map_subseteq_size, delete_subseteq. }
  destruct (insertCurrent_ok q1 E1 _ t H1 Hnt ltac:(lia) ltac:(lia)) as (q2 & E2 & F2 & l & Hq2 & I2).
  destruct I2 as [H2 [Kn2 K2] (Kd2 & Kl2 & Kf2 & Ku2) L2 M2 [Nd2 In2] Fu2 Li2 A2 Run2].
  pose proof H2 as (R2 & W2 & S2). specialize (K2 K1).
  destruct (trim_ok (length (q_current q2)) q2 E2 F2 H2 K2 ltac:(lia)) as (q3 & Hq3 & H3 & K3 & S3).
  { by rewrite (rep_size _ _ R2). }
  pose proof H3 as (R3 & W3 & S3'). destruct S3 as (Kn3 & Kd3 & Kl3 & Kf3 & Ku3).
  apply (Holds_signals _ _ _ (λ l, l ++ [OnReady])) in H3.
  exists (q3 <| q_signals ::= λ l, l ++ [OnReady] |>). split.
  { unfold manageImport_WITH_LOCK, try_catch. rewrite (bind_ok _ _ _ _ _ Hr). cbn [negb]. rewrite (bind_ok _ _ _ _ _ Hq2).
    rewrite (bind_ok _ _ _ q2 q2) by done. by rewrite (bind_ok _ _ _ _ _ Hq3). }
  assert (q_futureLimit q1 = q_futureLimit q ∧ q_limit q2 = q_limit q) as [Ef El] by (split; congruence).
  set (E3 := take (Z.to_nat (q_limit q2)) E2) in *. rewrite Ef in Li2, A2.
  assert (len E3 <= q_limit q) as HE3 by (unfold E3; rewrite length_take; lia).
  assert (∀ u, u ∈ E2.*2 → u = t ∨ pooled q1 !! key_of u = Some u) as Hin.
  { intros u [->|[Hu|(k & _ & Hu)]]%M2; [by left|right..]; apply (pooled_spec _ _ _ _ _ H1); [by left|].
    right. by destruct (w_good _ _ _ W1 _ _ Hu) as (_ & -> & _). }
  assert (pooled (q3 <| q_signals ::= λ l, l ++ [OnReady] |>) ⊆ <[key_of t := t]> (pooled q)) as Hsub.
  { rewrite <-insert_delete_eq, <-P1. apply map_subseteq_spec. intros k u [[Hu Hk]|Hu]%(pooled_spec _ _ _ _ _ H3).
    - apply take_snd, Hin in Hu as [->|Hu]; [by rewrite Hk, lookup_insert_eq|]. rewrite Hk in Hu.
      rewrite lookup_insert_ne; [done|]. intros <-. by rewrite P1, lookup_delete_eq in Hu.
    - pose proof (lookup_weaken _ _ _ _ Hu Fu2) as Hv. rewrite leave_lookup in Hv. case_decide; [done|].
      rewrite lookup_insert_ne; [apply (pooled_spec _ _ _ _ _ H1); by right|]. intros <-. by rewrite lookup_delete_eq in Hv. }
  split; [|split; [|split; [|split; [done|split; [|split; [|cbn; repeat split; congruence]]]]]].
  - exists E3, F2. split; [done|]. split; [done|]. cbn. rewrite Kl3, Kf3, Kf2, Ef, El. lia.
  - by rewrite (ready_spec _ _ (proj1 H3)), length_fmap.
  - rewrite (future_spec _ _ (proj2 (proj2 H3))). lia.
  - intros Hroom Hfr. rewrite (pooled_size _ _ _ H) in Hroom. rewrite (future_spec _ _ S) in Hfr.
    pose proof (leave_size _ _ _ Nd2 In2) as Hls. rewrite <-(A2 ltac:(lia)) in Hls.
    assert (E3 = E2) as HE by (apply take_ge; lia).
    assert (ready (q3 <| q_signals ::= λ l, l ++ [OnReady] |>) = E2.*2) as Hrd by (rewrite (ready_spec _ _ (proj1 H3)); by f_equal).
    split; [|split].
    + apply map_subseteq_size_eq; [done|]. rewrite <-insert_delete_eq, <-P1, map_size_insert_None by (rewrite P1; apply lookup_delete_eq).
      rewrite (pooled_size _ _ _ H1), (pooled_size _ _ _ H3), HE. lia.
    + rewrite Hrd. apply M2. by left.
    + intros k Hk Hkb Hrun u Hu. rewrite Hrd. apply M2. right. right. exists k.
      assert (t_nonce t [+] 1 = t_nonce t + 1) as Hn by (apply w256_small; unfold in256; lia). rewrite Hn in Run2.
      assert (∀ j, t_nonce t < j <= k → is_Some (delete (key_of t) F !! (safeSender t, j))) as Hrun'.
      { intros j Hj. rewrite lookup_delete_ne by (intros [= Hx]; lia). rewrite <-(future_spec _ _ S). by apply Hrun. }
      split; [apply Run2; [lia|done|]; intros j Hj; apply Hrun'; lia|].
      rewrite lookup_delete_ne by (intros [= Hx]; lia).
      destruct (Hrun k ltac:(lia)) as [v Hv]. rewrite (future_spec _ _ S) in Hv.
      apply (pooled_spec _ _ _ _ _ H) in Hu as [[Hu Hk']|Hu]; [|done].
      destruct (w_good _ _ _ W _ _ Hv) as (_ & _ & _ & _ & Hx). destruct Hx. apply elem_keys_snd. eauto.
  - cbn. set_solver.
Qed.
Lemma import_ok q t ik :
  Inv q → recoverable t → hasZeroSignature t = false →
  (hash_of t ∈ q_known q ∧ import t ik q = (Ok AlreadyKnown, q))
  ∨ (hash_of t ∉ q_known q ∧ hash_of t ∈ q_dropped q ∧ ik = Ignore ∧ import t ik q = (Ok AlreadyInChain, q))
  ∨ hash_of t ∉ q_known q ∧ (hash_of t ∉ q_dropped q ∨ ik = Retry)
    ∧ ((∃ u, pooled q !! key_of t = Some u ∧ t_gasPrice t < t_gasPrice u ∧ import t ik q = (Ok OverbidGasPrice, q))
       ∨ (∀ u, pooled q !! key_of t = Some u → t_gasPrice u <= t_gasPrice t)
         ∧ ∃ q', import t ik q = (Ok Success, q') ∧ imported q t q').
Proof.
  intros HI Hg Hz. unfold import. rewrite Hz, (recoverable_hash _ Hg).
  repeat setoid_rewrite (λ A (k : h256 → Q A), bind_ok (lift (Ok (hash_of t))) k q (hash_of t) q eq_refl).
  repeat setoid_rewrite (λ A (k : TransactionQueue → Q A), bind_ok getS k q q q eq_refl).
  unfold check_WITH_LOCK. destruct (decide (hash_of t ∈ q_known q)) as [Hk|Hk].
  { left. by rewrite (bool_decide_true (hash_of t ∈ q_known q)) by done. }
  right. rewrite (bool_decide_false (hash_of t ∈ q_known q)) by done.
  destruct (decide (hash_of t ∈ q_dropped q ∧ ik = Ignore)) as [[Hd ->]|Hd].
  { left. rewrite (bool_decide_true (hash_of t ∈ q_dropped q)) by done. done. }
  right. split; [done|]. assert (hash_of t ∉ q_dropped q ∨ ik = Retry) as Hor.
  { destruct ik; [|by right]. left. naive_solver. }
  split; [done|]. assert (bool_decide (hash_of t ∈ q_dropped q) && bool_decide (ik = Ignore) = false) as ->.
  { apply andb_false_iff. rewrite !bool_decide_eq_false. naive_solver. }
  exact (manageImport_ok q t HI Hg Hk).
Qed.

(** ** Back to future *)
Lemma nested_eq {V} (m1 m2 : gmap Address (gmap u256 V)) :
  (∀ a m, m1 !! a = Some m → m ≠ ∅) → (∀ a m, m2 !! a = Some m → m ≠ ∅) →
  (∀ a n, m1 !! a ≫= (.!! n) = m2 !! a ≫= (.!! n)) → m1 = m2.
Proof.
  intros H1 H2 H. apply map_eq. intros a. specialize (H a).
  destruct (m1 !! a) as [x|] eqn:E1, (m2 !! a) as [y|] eqn:E2; try done.
  - f_equal. apply map_eq. exact H.
  - destruct (H1 a x E1). apply map_empty. exact H.
  - destruct (H2 a y E2). apply map_empty. intros n. symmetry. apply H.
Qed.

Lemma Waiting_demote q E F j u q' :
  Rep q E → Waiting q E F → Known q E → (j, u) ∈ E → q_known q' = q_known q →
  q_futureSize q' = q_futureSize q + 1 → Waiting q' (without j E) (<[key_of u := u]> F) ∧ Known q' (without j E).
Proof.
  intros R W K Hj Hk Hs. assert (∀ p, p ∈ without j E → p ∈ E) as Hsub by (intros p [_ Hp]%without_elem; done).
  assert (F !! key_of u = None) as HF.
  { apply eq_None_not_Some. intros [v Hv]. destruct (w_good _ _ _ W _ _ Hv) as (_ & _ & _ & _ & Hx). apply Hx, elem_keys. eauto. }
  split; [split; rewrite ?Hk|].
  - intros k v [[<- <-]|[Hne Hv]]%lookup_insert_Some.
    + split; [by eapply (rep_good _ _ R)|]. split; [done|]. split; [apply K, elem_hashes; eauto|]. split.
      * intros (i & w & [Hi Hw]%without_elem & Hx)%elem_hashes. by eapply Hi, rep_hash_inj.
      * intros (i & w & [Hi Hw]%without_elem & Hx)%elem_keys. by eapply Hi, rep_key_inj.
    + destruct (w_good _ _ _ W _ _ Hv) as (? & ? & ? & Hh & Hkk). repeat split; try done.
      * intros (i & w & Hw%Hsub & Hx)%elem_hashes. apply Hh, elem_hashes. eauto.
      * intros (i & w & Hw%Hsub & Hx)%elem_keys. apply Hkk, elem_keys. eauto.
  - assert (∀ k v, F !! k = Some v → hash_of v = hash_of u → False) as Hno.
    { intros k v Hv Hx. destruct (w_good _ _ _ W _ _ Hv) as (_ & _ & _ & Hh & _). apply Hh, elem_hashes. eauto. }
    intros k v k' v' [[<- <-]|[_ Hv]]%lookup_insert_Some [[<- <-]|[_ Hv']]%lookup_insert_Some Hx; try done.
    + by destruct (Hno _ _ Hv').
    + by destruct (Hno _ _ Hv).
    + by eapply (w_inj _ _ _ W).
  - rewrite Hs, (w_size _ _ _ W), map_size_insert_None by done. lia.
  - intros h (i & w & Hw%Hsub & <-)%elem_hashes. rewrite Hk. apply K, elem_hashes. eauto.
Qed.
(** While the account's entries move, [m_currentByAddressAndNonce] is behind: [B] is what it
    will be, and the account's future map may be empty. *)
Definition moving q E F (from : Address) (B : gmap Address (gmap u256 (option nat))) : Prop :=
  Rep (q <| q_byNonce := B |>) E ∧ Waiting q E F ∧ Known q E
  ∧ (∀ a n, q_future q !! a ≫= (.!! n) = F !! (a, n)) ∧ (∀ a m, a ≠ from → q_future q !! a = Some m → m ≠ ∅)
  ∧ is_Some (q_future q !! from).

Definition outgoing (from : Address) (c : list (u256 * option nat)) E : Prop :=
  ∀ k o, (k, o) ∈ c → ∃ j u, o = Some j ∧ (j, u) ∈ E ∧ key_of u = (from, k).

Lemma demote_ok q E F from B k j u :
  moving q E F from B → (j, u) ∈ E → key_of u = (from, k) → Z.of_nat (size F) + 1 < 2 ^ 32 →
  ∃ q', demote from (k, Some j) q = (Ok tt, q')
    ∧ moving q' (without j E) (<[(from, k) := u]> F) from (erase_slot from k B)
    ∧ kept q q' ∧ q_byNonce q' = q_byNonce q ∧ q_signals q' = q_signals q.
Proof.
  intros (R & W & K & Hl & Ho & [own Hown]) Hj Hk Hs.
  pose proof (rep_good _ _ R _ _ Hj) as Hg. injection Hk as <- <-.
  assert (F !! key_of u = None) as HF.
  { apply eq_None_not_Some. intros [v Hv]. destruct (w_good _ _ _ W _ _ Hv) as (_ & _ & _ & _ & Hx). apply Hx, elem_keys. eauto. }
  assert (own !! t_nonce u = None) as Hfree by (rewrite <-HF; unfold key_of; by rewrite <-Hl, Hown).
  eexists. split.
  { unfold demote. cbn [snd]. rewrite (bind_ok _ _ _ u q).
    2: { unfold node, getS, mbind, ST_bind. by rewrite (rep_node _ _ _ _ R Hj : q_nodes q !! j = _). }
    rewrite (recoverable_hash _ Hg). rewrite (bind_ok _ _ _ (hash_of u) q) by done. reflexivity. }
  split; [|done]. split; [|split; [|split; [|split; [|split]]]].
  - pose proof (Rep_removed _ _ _ _ R Hj) as R'. rep_frame R'.
  - apply (Waiting_demote (q <| q_byNonce := B |>) E F j u); try done; [by destruct W; split|].
    cbn. rewrite (w_size _ _ _ W). apply u32_small. lia.
  - apply (Waiting_demote (q <| q_byNonce := B |>) E F j u); try done; [by destruct W; split|].
    cbn. rewrite (w_size _ _ _ W). apply u32_small. lia.
  - intros a n. cbn. destruct (decide (a = safeSender u)) as [->|Hne].
    + rewrite lookup_alter_eq, Hown. cbn. rewrite Hfree. destruct (decide (n = t_nonce u)) as [->|Hn].
      * by rewrite !lookup_insert_eq.
      * rewrite !lookup_insert_ne by congruence. by rewrite <-Hl, Hown.
    + rewrite lookup_alter_ne, lookup_insert_ne by congruence. apply Hl.
  - intros a m Hne. cbn. rewrite lookup_alter_ne by done. by apply Ho.
  - cbn. rewrite lookup_alter_eq, Hown. eauto.
Qed.

Lemma sublist_is_filter {A} (P : A → Prop) `{∀ x, Decision (P x)} (l' l : list A) :
  l' `sublist_of` l → NoDup l → (∀ x, x ∈ l' ↔ x ∈ l ∧ P x) → l' = filter P l.
Proof.
  induction 1 as [|x l' l Hs IH|x l' l Hs IH]; intros Hd Hm; [done|..]; apply NoDup_cons in Hd as [Hx Hd].
  - rewrite filter_cons_True by (apply Hm; left). f_equal. apply IH; [done|]. intros y. specialize (Hm y).
    rewrite !elem_of_cons in Hm. split.
    + intros Hy. destruct (proj1 Hm (or_intror Hy)) as [[->|?] ?]; [|done]. destruct Hx. by eapply sublist_subseteq.
    + intros [Hy HP]. destruct (proj2 Hm (conj (or_intror Hy) HP)) as [->|?]; [done|done].
  - rewrite filter_cons_False.
    + apply IH; [done|]. intros y. rewrite Hm, elem_of_cons. split; [|tauto]. intros [[->|?] ?]; [|done].
      destruct Hx. eapply sublist_subseteq; [done|]. apply Hm. split; [left|done].
    + intros HP. apply Hx. eapply sublist_subseteq; [done|]. apply Hm. split; [left|done].
Qed.

Lemma demote_loop c : ∀ q E F from B,
  moving q E F from B → outgoing from c E → NoDup c.*1 → Z.of_nat (size F + length c) < 2 ^ 32 →
  ∃ q' E' F', forM c (demote from) q = (Ok tt, q')
    ∧ moving q' E' F' from (foldl (λ B k, erase_slot from k B) B c.*1)
    ∧ kept q q' ∧ q_byNonce q' = q_byNonce q ∧ q_signals q' = q_signals q ∧ E' `sublist_of` E
    ∧ (∀ p, p ∈ E' ↔ p ∈ E ∧ ¬ (safeSender p.2 = from ∧ t_nonce p.2 ∈ c.*1))
    ∧ (∀ k u, F' !! k = Some u ↔ F !! k = Some u ∨ (k.1 = from ∧ k.2 ∈ c.*1 ∧ key_of u = k ∧ u ∈ E.*2))
    ∧ (length E' + size F' = length E + size F)%nat.
Proof.
  induction c as [|[k o] c IH]; intros q E F from B Hm Ho Hd Hs.
  { exists q, E, F. split; [done|]. repeat (split; [done|]). split; [|split; [|done]].
    - intros p. split; [intros Hp; split; [done|by intros [_ Hx%elem_of_nil]]|by intros [? _]].
    - intros k u. split; [auto|]. intros [?|(_ & Hx%elem_of_nil & _)]; done. }
  destruct (Ho k o ltac:(left)) as (j & u & -> & Hj & Hk). rewrite fmap_cons in Hd. apply NoDup_cons in Hd as [Hkc Hd].
  cbn [length] in Hs. destruct (demote_ok q E F from B k j u Hm Hj Hk ltac:(lia)) as (q1 & Hq1 & Hm1 & K1 & B1 & S1).
  pose proof Hm as (R & W & _).
  assert (F !! (from, k) = None) as HF.
  { apply eq_None_not_Some. intros [v Hv]. destruct (w_good _ _ _ W _ _ Hv) as (_ & _ & _ & _ & Hx). apply Hx, elem_keys. eauto. }
  assert (∀ p, p ∈ without j E ↔ p ∈ E ∧ key_of p.2 ≠ (from, k)) as Hwo.
  { intros [i v]. rewrite without_elem. cbn. split; intros [H1 H2].
    - split; [done|]. rewrite <-Hk. intros Hx. by eapply H1, rep_key_inj.
    - split; [|done]. intros ->. by rewrite (rep_same_id _ _ _ _ _ R H1 Hj) in H2. }
  destruct (IH q1 (without j E) (<[(from, k) := u]> F) from (erase_slot from k B) Hm1) as
    (q2 & E2 & F2 & Hq2 & Hm2 & K2 & B2 & S2 & Sub & ME & MF & Hsz); [|done|rewrite map_size_insert_None by done; lia|].
  { intros k' o' Hin. destruct (Ho k' o' ltac:(by right)) as (j' & u' & -> & Hj' & Hk'). exists j', u'. split; [done|]. split; [|done].
    apply Hwo. split; [done|]. cbn. rewrite Hk'. intros [= ->]. apply Hkc, list_elem_of_fmap. by exists (k, Some j'). }
  exists q2, E2, F2. split; [cbn [forM]; by rewrite (bind_ok _ _ _ _ _ Hq1)|]. split; [done|]. split; [by etrans|].
  split; [congruence|]. split; [congruence|]. split; [etrans; [done|apply sublist_filter]|]. split; [|split].
  - intros [i v]. rewrite ME, Hwo, fmap_cons, elem_of_cons. unfold key_of. cbn. split; intros [H1 H2]; [split; [tauto|]|split; [split; [tauto|]|]].
    + intros [H3 [H4|H4]]; [|by apply H2]. destruct H1 as [_ []]. congruence.
    + intros [= H3 H4]. apply H2. auto.
    + intros [H3 H4]. apply H2. auto.
  - intros k' v. rewrite MF, fmap_cons, elem_of_cons. cbn. split.
    + intros [[[<- <-]|[_ Hv]]%lookup_insert_Some|(H1 & H2 & H3 & Hv)]; [|by left|].
      * right. repeat split; auto. apply list_elem_of_fmap. by exists (j, u).
      * right. repeat split; auto. apply list_elem_of_fmap in Hv as (p & -> & [? ?]%Hwo). apply list_elem_of_fmap. eauto.
    + intros [Hv|(H1 & H2 & H3 & Hv)].
      * left. apply lookup_insert_Some. right. split; [|done]. intros <-. congruence.
      * destruct (decide (k' = (from, k))) as [->|Hne].
        -- left. apply lookup_insert_Some. left. split; [done|]. apply list_elem_of_fmap in Hv as ([i w] & -> & Hw). cbn in H3.
           assert (i = j) as -> by (eapply (rep_key_inj _ _ _ _ _ _ R Hw Hj); congruence). by eapply (rep_same_id _ _ _ _ _ R).
        -- right. split; [done|]. split; [|split; [done|]].
           { destruct H2 as [H2|H2]; [|done]. destruct k'; cbn in *; congruence. }
           apply list_elem_of_fmap in Hv as (p & -> & Hp). apply list_elem_of_fmap. exists p. split; [done|]. apply Hwo. split; [done|congruence].
  - rewrite map_size_insert_None in Hsz by done. pose proof (without_length j u E (rep_ids _ _ R) Hj). lia.
Qed.
Lemma erase_slots_lookup from ks : ∀ (m : gmap Address (gmap u256 (option nat))) a n,
  foldl (λ B k, erase_slot from k B) m ks !! a ≫= (.!! n) = if decide (a = from ∧ n ∈ ks) then None else m !! a ≫= (.!! n).
Proof.
  induction ks as [|k ks IH]; intros m a n; cbn.
  - rewrite decide_False; [done|]. by intros [_ H%elem_of_nil].
  - rewrite IH, erase_slot_lookup. repeat case_decide; try done; set_solver.
Qed.
Lemma erase_slots_owner from ks : ∀ (m : gmap Address (gmap u256 (option nat))),
  (∀ b own, m !! b = Some own → own ≠ ∅) → ∀ b own, foldl (λ B k, erase_slot from k B) m ks !! b = Some own → own ≠ ∅.
Proof. induction ks as [|k ks IH]; intros m Hm; cbn; [done|]. apply IH, erase_slot_owner, Hm. Qed.

(** The account's entries from a nonce on, and what remains of the index without them. *)
Lemma cutoff_erased (m : gmap Address (gmap u256 (option nat))) from queue n :
  (∀ b own, m !! b = Some own → own ≠ ∅) → m !! from = Some queue →
  (let rest := foldr delete queue (fst <$> map_lower n queue) in
   if bool_decide (rest = ∅) then delete from (<[from := queue]> m) else <[from := rest]> (<[from := queue]> m))
  = foldl (λ B k, erase_slot from k B) m (map_lower n queue).*1.
Proof.
  intros Ho Hm. cbn zeta. set (rest := foldr delete queue _). apply nested_eq.
  - intros b own. case_bool_decide.
    + intros [Hne Hx]%lookup_delete_Some. rewrite lookup_insert_ne in Hx by done. by eapply Ho.
    + intros [[<- <-]|[Hne Hx]]%lookup_insert_Some; [done|]. rewrite lookup_insert_ne in Hx by done. by eapply Ho.
  - by apply erase_slots_owner.
  - intros b k. rewrite erase_slots_lookup. destruct (decide (b = from)) as [->|Hne].
    + transitivity (rest !! k).
      { case_bool_decide as Hr; [rewrite lookup_delete_eq, Hr; cbn; by rewrite lookup_empty|by rewrite lookup_insert_eq]. }
      unfold rest. rewrite foldr_delete_lookup, Hm. cbn. repeat case_decide; try done; naive_solver.
    + rewrite decide_False by naive_solver. case_bool_decide; rewrite ?lookup_delete_ne, !lookup_insert_ne by done; done.
Qed.

Lemma set_byNonce q f : q <| q_byNonce ::= f |> = q <| q_byNonce := f (q_byNonce q) |>.
Proof. done. Qed.
Lemma setFuture_ok q t :
  Inv q → t ∈ ready q →
  ∃ q', setFuture (hash_of t) q = (Ok tt, q') ∧ Inv q' ∧ kept q q' ∧ pooled q' = pooled q
    ∧ ready q' = filter (λ u, ¬ (safeSender u = safeSender t ∧ t_nonce t <= t_nonce u)) (ready q).
Proof.
  intros (E & F & H & K & Hl & Hfl & Hb & Hsum) Ht. pose proof H as (R & W & S).
  rewrite (ready_spec _ _ R) in *. apply list_elem_of_fmap in Ht as ([i t'] & -> & Hi). cbn [snd] in *. rename t' into t.
  set (from := safeSender t). assert (current_at q from (t_nonce t) = Some (Some i)) as Hc by (apply R; eauto 6).
  unfold current_at in Hc. destruct (q_byNonce q !! from) as [queue|] eqn:Eq; [|done]. cbn in Hc.
  set (cutoff := map_lower (t_nonce t) queue).
  set (q0 := (q <| q_byNonce ::= <[from := queue]> |>) <| q_future ::= λ m, <[from := default ∅ (m !! from)]> m |>).
  assert (moving q0 E F from (q_byNonce q)) as Hm.
  { split; [rep_frame R|]. split; [by destruct W; split|]. split; [done|]. cbn. split; [|split; [|rewrite lookup_insert_eq; eauto]].
    - intros a n. rewrite <-(st_lookup _ _ S). destruct (decide (a = from)) as [->|Hne]; [|by rewrite lookup_insert_ne].
      rewrite lookup_insert_eq. cbn. destruct (q_future q !! from); [done|]. cbn. by rewrite lookup_empty.
    - intros a m Hne. rewrite lookup_insert_ne by done. apply S. }
  assert (∀ k, k ∈ cutoff.*1 ↔ t_nonce t <= k ∧ ∃ j u, (j, u) ∈ E ∧ key_of u = (from, k)) as Hcut.
  { intros k. split.
    - intros ([k' o] & -> & [Ho Hk]%map_lower_elem)%list_elem_of_fmap. split; [done|].
      assert (current_at q from k' = Some o) as (j & u & -> & Hj & Hu)%(rep_slot _ _ R) by (unfold current_at; by rewrite Eq). eauto.
    - intros [Hk (j & u & Hj & Hu)]. assert (current_at q from k = Some (Some j)) as Hx by (apply R; eauto 6).
      unfold current_at in Hx. rewrite Eq in Hx. cbn in Hx. apply list_elem_of_fmap. exists (k, Some j). split; [done|]. by apply map_lower_elem. }
  assert (outgoing from cutoff E) as Hout.
  { intros k o [Ho _]%map_lower_elem. assert (current_at q from k = Some o) as Hx by (unfold current_at; by rewrite Eq).
    apply R in Hx as (j & u & -> & ? & ?). eauto. }
  assert (length cutoff <= length E)%nat as Hlen.
  { rewrite <-(length_fmap fst cutoff), <-(length_fmap (from,.) cutoff.*1), <-(length_fmap snd E), <-(length_fmap key_of E.*2).
    apply submseteq_length, NoDup_submseteq.
    - apply NoDup_fmap_2; [congruence|]. apply map_lower_nodup.
    - intros k (n & -> & [_ (j & u & Hj & Hu)]%Hcut)%list_elem_of_fmap. apply (elem_keys E). eauto. }
  destruct (demote_loop cutoff q0 E F from _ Hm Hout (map_lower_nodup _ _) ltac:(lia)) as
    (q1 & E1 & F1 & Hq1 & (R1 & W1 & K1 & L1 & O1 & [own1 Hown1]) & Kp & B1 & S1 & Sub & ME & MF & Hsz).
  set (B := foldl (λ B k, erase_slot from k B) (q_byNonce q) cutoff.*1) in *.
  exists (q1 <| q_byNonce := B |>). split.
  { unfold setFuture, getS. unfold mbind at 1, ST_bind at 1. rewrite (proj2 (rep_hash _ _ R (hash_of t) i)) by eauto.
    rewrite (bind_ok _ _ _ _ _ (node_ok _ _ _ _ R Hi)). fold from. rewrite Eq.
    change (default ∅ (Some queue)) with queue. fold cutoff. rewrite (bind_ok _ _ _ tt q0) by done. rewrite (bind_ok _ _ _ _ _ Hq1).
    pose proof (cutoff_erased _ _ _ (t_nonce t) (rep_owner _ _ R) Eq) as HB. fold cutoff B in HB.
    unfold modS. rewrite set_byNonce, B1. exact (f_equal (λ b, (Ok tt, q1 <| q_byNonce := b |>)) HB). }
  assert (Holds (q1 <| q_byNonce := B |>) E1 F1) as H1.
  { split; [done|]. split; [by destruct W1; split|]. split; [done|]. cbn. intros a m Ha. destruct (decide (a = from)) as [->|Hne]; [|by eapply O1].
    intros ->. specialize (L1 from (t_nonce t)). rewrite Ha in L1. cbn in L1. rewrite lookup_empty in L1. symmetry in L1.
    enough (F1 !! (from, t_nonce t) = Some t) by congruence. apply MF. right. split; [done|].
    split; [|split; [done|apply list_elem_of_fmap; by exists (i, t)]]. apply Hcut. cbn. split; [lia|]. exists i, t. done. }
  destruct Kp as (Kn & Kd & Kl & Kf & Ku).
  assert (∀ p, p ∈ E → (safeSender p.2 = from ∧ t_nonce p.2 ∈ cutoff.*1 ↔ safeSender p.2 = from ∧ t_nonce t <= t_nonce p.2)) as Hsame.
  { intros [j u] Hj. cbn. split; (intros [Hs Hn]; split; [done|]).
    - by apply Hcut in Hn as [? _].
    - apply Hcut. split; [done|]. exists j, u. split; [done|]. unfold key_of. by rewrite Hs. }
  split; [|split; [done|split]].
  - exists E1, F1. split; [done|]. split; [done|]. cbn. rewrite Kl, Kf. cbn. lia.
  - apply map_eq. intros k. apply option_eq. intros u. rewrite (pooled_spec _ _ _ _ _ H1), (pooled_spec _ _ _ _ _ H), MF. split.
    + intros [[(p & -> & [? _]%ME)%list_elem_of_fmap Hk]|[?|(_ & _ & ? & ?)]]; auto. left. split; [|done]. apply list_elem_of_fmap. eauto.
    + intros [[Hu Hk]|Hu]; [|auto]. pose proof Hu as (p & -> & Hp)%list_elem_of_fmap.
      destruct (decide (safeSender p.2 = from ∧ t_nonce p.2 ∈ cutoff.*1)) as [[Hs Hn]|Hno].
      * right. right. destruct k as [a n]. unfold key_of in Hk. injection Hk as <- <-. done.
      * left. split; [|done]. apply list_elem_of_fmap. exists p. split; [done|]. apply ME. done.
  - rewrite (ready_spec _ _ (proj1 H1)). apply sublist_is_filter.
    + by apply fmap_sublist.
    + apply (NoDup_fmap_1 key_of). apply (rep_keys_nodup _ _ R).
    + intros u. split.
      * intros (p & -> & [Hp Hno]%ME)%list_elem_of_fmap. split; [apply list_elem_of_fmap; eauto|]. by rewrite <-(Hsame p Hp).
      * intros [(p & -> & Hp)%list_elem_of_fmap Hno]. apply list_elem_of_fmap. exists p. split; [done|]. apply ME. split; [done|].
        by rewrite (Hsame p Hp).
Qed.
(** ** Dropping *)
Lemma remove_ok q E F h :
  Holds q E F → Known q E →
  ∃ b q' E', remove_WITH_LOCK h q = (Ok b, q') ∧ Holds q' E' F ∧ Known q' E' ∧ shrunk q q'
    ∧ E' `sublist_of` E ∧ (length E' <= length E)%nat
    ∧ (∀ p, p ∈ E' ↔ p ∈ E ∧ hash_of p.2 ≠ h).
Proof.
  intros H K. pose proof H as (R & W & S). destruct (decide (h ∈ hashes E)) as [(i & t & Hi & <-)%elem_hashes|Hh].
  - exists true, (removed i t q), (without i E). destruct (Holds_removed _ _ _ _ _ H K Hi) as [H1 K1].
    split; [by apply (remove_present _ E)|]. split; [done|]. split; [done|]. split; [apply removed_shrunk|].
    split; [apply sublist_filter|]. split; [rewrite (without_length i t E) by (done || apply R); lia|].
    intros [j u]. rewrite without_elem. cbn. split; intros [H2 H3].
    + split; [done|]. intros Hx. by eapply H2, rep_hash_inj.
    + split; [|done]. intros ->. by rewrite (rep_same_id _ _ _ _ _ R H2 Hi) in H3.
  - exists false, q, E. split; [by apply (remove_absent _ E)|]. repeat (split; [done|]).
    intros [j u]. split; [|by intros [? _]]. intros Hj. split; [done|]. intros Hx. apply Hh, elem_hashes. cbn in Hx. eauto.
Qed.
Lemma Inv_shrunk q q' E' F' :
  Inv q → Holds q' E' F' → Known q' E' → q_limit q' = q_limit q → q_futureLimit q' = q_futureLimit q →
  (length E' + size F' <= size (pooled q))%nat → Inv q'.
Proof.
  intros (E & F & H & K & Hl & Hfl & Hb & Hsum) H' K' El Ef Hs. rewrite (pooled_size _ _ _ H) in Hs.
  exists E', F'. split; [done|]. split; [done|]. rewrite El, Ef. lia.
Qed.
(** What is left of the pool when some of the current transactions went. *)
Lemma pooled_filter q q' E E' F (P : Transaction → Prop) `{∀ t, Decision (P t)} :
  Holds q E F → Holds q' E' F → (∀ p, p ∈ E' ↔ p ∈ E ∧ P p.2) → E' `sublist_of` E →
  ready q' = filter P (ready q) ∧ ∀ k u, pooled q' !! k = Some u ↔ pooled q !! k = Some u ∧ (u ∈ ready q → P u).
Proof.
  intros Hq Hq' Hm Hs. pose proof Hq as (R & W & _). rewrite (ready_spec _ _ (proj1 Hq')), (ready_spec _ _ R).
  assert (∀ u, u ∈ E'.*2 ↔ u ∈ E.*2 ∧ P u) as Hm2.
  { intros u. rewrite !list_elem_of_fmap. split; [intros (p & -> & [? ?]%Hm)|intros [(p & -> & ?) ?]]; [by eauto|].
    exists p. split; [done|]. by apply Hm. }
  split.
  - apply sublist_is_filter; [by apply fmap_sublist| |done]. apply (NoDup_fmap_1 key_of), (rep_keys_nodup _ _ R).
  - intros k u. rewrite (pooled_spec _ _ _ _ _ Hq), (pooled_spec _ _ _ _ _ Hq'), Hm2. split.
    + intros [[[? ?] ?]|Hu]; [by auto|]. split; [auto|]. intros Hx.
      destruct (w_good _ _ _ W _ _ Hu) as (_ & Hk & _ & _ & Hn). destruct Hn. apply elem_keys_snd. eauto.
    + intros [[[? ?]|?] ?]; auto.
Qed.

Lemma drop_ok q h :
  Inv q →
  ∃ q', drop_tx h q = (Ok tt, q') ∧ Inv q' ∧ ready q' = filter (λ u, hash_of u ≠ h) (ready q)
    ∧ (∀ k u, pooled q' !! k = Some u ↔ pooled q !! k = Some u ∧ (u ∈ ready q → hash_of u ≠ h))
    ∧ (h ∈ q_known q → h ∈ q_dropped q') ∧ q_unverified q' = q_unverified q.
Proof.
  intros HI. pose proof HI as (E & F & H & K & Hl & Hfl & Hb & Hsum). unfold drop_tx.
  rewrite (bind_ok _ _ _ q q) by done. case_bool_decide as Hh.
  - set (q0 := q <| q_dropped ::= λ d, d ∪ {[h]} |>).
    assert (Holds q0 E F) as H0 by (destruct H as (R & W & S); split; [rep_frame R|split; [by destruct W; split|by destruct S; split]]).
    destruct (remove_ok q0 E F h H0 K) as (b & q1 & E1 & Hr & H1 & K1 & (Kn & Kd & Kl & Kf & Ku) & Sub & Len & Mem).
    exists q1. rewrite (bind_ok _ _ _ tt q0) by done. rewrite (bind_ok _ _ _ _ _ Hr).
    destruct (pooled_filter q q1 E E1 F (λ u, hash_of u ≠ h) H H1 Mem Sub) as [Hrd Hp].
    split; [done|]. split; [|split; [done|split; [done|split; [|done]]]].
    + eapply (Inv_shrunk q); [done|done|done|done|done|]. rewrite (pooled_size _ _ _ H). lia.
    + intros _. rewrite Kd. cbn. set_solver.
  - exists q. split; [done|]. split; [done|]. assert (∀ u, u ∈ ready q → hash_of u ≠ h) as Hno.
    { intros u Hu <-. rewrite (ready_spec _ _ (proj1 H)) in Hu. apply Hh, K, elem_hashes_snd. eauto. }
    split; [|split; [|done]].
    + symmetry. induction (ready q) as [|u l IH]; [done|]. rewrite filter_cons_True by (apply Hno; left). f_equal. apply IH.
      intros. apply Hno. by right.
    + intros k u. split; [intros; split; auto|by intros [? _]].
Qed.

Lemma dropGood_ok q t :
  Inv q → recoverable t →
  ∃ q', dropGood t q = (Ok tt, q') ∧ Inv q' ∧ pooled q' ⊆ pooled q ∧ q_unverified q' = q_unverified q
    ∧ (∀ u, u ∈ ready q → hash_of u ≠ hash_of t → u ∈ ready q')
    ∧ (∀ u, u ∈ ready q' → hash_of u ≠ hash_of t)
    ∧ (∀ k, 0 <= t_nonce t < k → k < M256 →
         (∀ j, t_nonce t < j <= k → is_Some (future_by_key q !! (safeSender t, j))) →
         ∀ u, pooled q !! (safeSender t, k) = Some u → hash_of u ≠ hash_of t → u ∈ ready q').
Proof.
  intros HI Hg. pose proof HI as (E & F & H & K & Hl & Hfl & Hb & Hsum). pose proof H as (R & W & S).
  destruct (makeCurrent_ok t q E F H ltac:(lia) Hfl) as (q1 & E1 & F1 & l & Hq1 & [H1 (Kn1 & Kd1 & Kl1 & Kf1 & Ku1) Sub1 L1 M1 [Nd1 In1] Fu1 Li1 A1] & Run1).
  assert (Known q1 E1) as K1.
  { intros h (u & [Hu|(k & _ & Hu)]%M1 & <-)%elem_hashes_snd; rewrite Kn1.
    - apply K, elem_hashes_snd. eauto.
    - by destruct (w_good _ _ _ W _ _ Hu) as (_ & _ & ? & _). }
  destruct (remove_ok q1 E1 F1 (hash_of t) H1 K1) as (b & q2 & E2 & Hr & H2 & K2 & (Kn2 & Kd2 & Kl2 & Kf2 & Ku2) & Sub2 & Len2 & Mem2).
  assert (dropGood t q = (Ok tt, q2)) as Hq.
  { unfold dropGood. rewrite (bind_ok _ _ _ _ _ Hq1), (recoverable_hash _ Hg), (bind_ok _ _ _ (hash_of t) q1), (bind_ok _ _ _ q1 q1) by done.
    case_bool_decide as Hk; [by rewrite (bind_ok _ _ _ _ _ Hr)|]. rewrite (remove_absent q1 E1) in Hr; [by simplify_eq|apply H1|].
    intros Hx. by apply Hk, K1. }
  pose proof (leave_size _ _ _ Nd1 In1) as Hls. pose proof (map_subseteq_size _ _ Fu1) as Hfs.
  assert (∀ u, u ∈ ready q2 ↔ u ∈ E1.*2 ∧ hash_of u ≠ hash_of t) as Hrd.
  { intros u. rewrite (ready_spec _ _ (proj1 H2)), !list_elem_of_fmap. split; [intros (p & -> & [? ?]%Mem2); eauto|].
    intros [(p & -> & ?) ?]. exists p. split; [done|]. by apply Mem2. }
  rewrite (ready_spec _ _ R). exists q2. split; [done|]. split; [|split; [|split; [congruence|split; [|split]]]].
  - eapply (Inv_shrunk q); [done|done|done|congruence|congruence|]. rewrite (pooled_size _ _ _ H). lia.
  - apply map_subseteq_spec. intros k u [[Hu Hk]|Hu]%(pooled_spec _ _ _ _ _ H2); apply (pooled_spec _ _ _ _ _ H).
    + rewrite <-(ready_spec _ _ (proj1 H2)) in Hu. apply Hrd in Hu as [[Hu|(n & _ & Hu)]%M1 _]; [by left|].
      right. destruct (w_good _ _ _ W _ _ Hu) as (_ & Hx & _). congruence.
    + right. apply (lookup_weaken _ _ _ _ Hu) in Fu1. rewrite leave_lookup in Fu1. by case_decide.
  - intros u Hu Hne. apply Hrd. split; [|done]. apply M1. by left.
  - intros u Hu. by apply Hrd in Hu as [_ ?].
  - intros k Hk Hkb Hrun u Hu Hne. apply Hrd. split; [|done]. apply M1. rewrite (future_spec _ _ S) in Hrun.
    apply (pooled_spec _ _ _ _ _ H) in Hu as [[Hu _]|Hu]; [by left|right]. exists k. split; [|done].
    assert (t_nonce t [+] 1 = t_nonce t + 1) as Hn by (apply w256_small; unfold in256; lia). rewrite Hn in Run1.
    apply Run1; [lia|done|]. intros j Hj. apply Hrun. lia.
Qed.
End Operations.
