(* ===== verification/Pool.v ===== *)
(** * The transaction queue under all its clients

    The threads of the node call the queue one after the other (each operation holds the
    lock), the verifiers take transactions of peers and import them later.  [step] is one
    such call; the theorems hold after every sequence of steps. *)
From stdpp Require Import base gmap list sorting relations.
From Stdlib Require Import ZArith Lia.
From S2P Require Import Prelude Rlp Config Interfaces Transaction TransactionProofs TxQueue TxQueueProofs TxQueueOps.
Open Scope Z_scope.

(** ** Transactions that were read *)
Section Reading.
Context `{CR : Crypto}.

Lemma outcome_bind_inv {A B} (m : outcome A) (k : A → outcome B) y : m ≫= k = Ok y → ∃ x, m = Ok x ∧ k x = Ok y.
Proof. destruct m; cbn; eauto; done. Qed.
Ltac read_inv :=
  repeat match goal with
  | H : (if ?b then _ else _) = Ok _ |- _ => destruct b eqn:?; try done
  | H : (let _ := _ in _) = Ok _ |- _ => cbv zeta in H
  | H : _ ≫= _ = Ok _ |- _ => apply outcome_bind_inv in H as (? & ? & H)
  end.

Lemma sender_cached ty n v r p g d s c a :
  sender (mkTx ty n v r p g d s c 0) = Ok a → sender (mkTx ty n v r p g d s c a) = Ok a.
Proof.
  intros H. destruct (decide (a = 0)) as [->|Ha]; [done|]. unfold sender. cbn [t_sender]. by rewrite bool_decide_true.
Qed.
Lemma transaction_of_rlp_shape c b t :
  transaction_of_rlp c b = Ok t → t_type t ≠ NullTransaction ∧ is_Some (t_vrs t)
    ∧ (c = CheckEverything → ∃ a, sender t = Ok a).
Proof.
  unfold transaction_of_rlp. intros H. read_inv; simplify_eq;
    (split; [cbn; repeat case_match; done|]; split; [done|]; intros ->;
     first [ rewrite bool_decide_true in * by done; done | eexists; by apply sender_cached ]).
Qed.
Lemma signed_hash t : t_type t ≠ NullTransaction → is_Some (t_vrs t) → tx_hash t = Ok (hash_of t).
Proof.
  intros Hty [g Hg]. unfold hash_of.
  enough (∃ h, tx_hash t = Ok h) as [h ->] by done.
  unfold tx_hash, transaction_sha3, transaction_streamRLP, transaction_items, signature_items.
  rewrite bool_decide_false, Hg by done. destruct (0 <? t_chainId t); cbn; eauto.
Qed.
Lemma read_hash c b t : transaction_of_rlp c b = Ok t → ∃ h, tx_hash t = Ok h.
Proof. intros (Hty & Hg & _)%transaction_of_rlp_shape. eexists. by apply signed_hash. Qed.
(** What [import] of an RLP checks is enough for the queue. *)
Lemma checked_good b t : transaction_of_rlp CheckEverything b = Ok t → recoverable t.
Proof.
  intros H. destruct (read_hash _ _ _ H) as [h Hh]. destruct (transaction_of_rlp_shape _ _ _ H) as (_ & _ & Hs).
  destruct (Hs eq_refl) as [a Ha]. by exists h, a.
Qed.
End Reading.

Section Pool.
Context `{CR : Crypto, CN : Containers}.
Implicit Types (q : TransactionQueue) (t : Transaction).

(** ** The calls *)

(** Those that hold the lock of the queue ([eraseDropedTx] takes none, and is not called). *)
Inductive op :=
  | OImport (t : Transaction) (ik : IfDropped)
  | OImportRlp (b : bytes) (ik : IfDropped)
  | ODrop (h : h256)
  | ODropGood (t : Transaction)
  | OSetFuture (h : h256)
  | OClear
  | OEnqueue (l : list bytes) (node : Z)
  | OEnqueueRlp (b : bytes) (node : Z).
Definition queue_call (o : op) : Q unit :=
  match o with
  | OImport t ik => _ ← import t ik; mret tt
  | OImportRlp b ik => _ ← import_rlp b ik; mret tt
  | ODrop h => drop_tx h
  | ODropGood t => dropGood t
  | OSetFuture h => setFuture h
  | OClear => clear
  | OEnqueue l n => enqueue l n
  | OEnqueueRlp b n => enqueue_rlp b n
  end.
(** Transactions that come as objects are signed, and the signer can be recovered. *)
Definition signed (o : op) : Prop :=
  match o with OImport t _ | ODropGood t => recoverable t | _ => True end.
Definition signed_work (w : bytes * Z) : Prop := ∀ t, transaction_of_rlp CheckCheap w.1 = Ok t → recoverable t.

(** The queue and the transactions the verifiers have taken. *)
Inductive step : TransactionQueue * list (bytes * Z) → TransactionQueue * list (bytes * Z) → Prop :=
  | step_call o q q' r w : signed o → queue_call o q = (r, q') → step (q, w) (q', w)
  | step_take q q' x w : verifier_take q = (Ok (Some x), q') → step (q, w) (q', x :: w)
  | step_verify q q' r x w1 w2 : signed_work x → verifier_import x q = (r, q') → step (q, w1 ++ x :: w2) (q', w1 ++ w2).

Definition bounded_input q : Prop := len (q_unverified q) <= c_maxVerificationQueueSize.
Definition sound q : Prop := Inv q ∧ bounded_input q.

(** ** Every call ends well *)
Lemma import_sound q t ik : sound q → recoverable t → ∃ r q', import t ik q = (Ok r, q') ∧ sound q' ∧ q_unverified q' = q_unverified q.
Proof.
  intros [HI Hb] Hg. destruct (hasZeroSignature t) eqn:Hz.
  { exists ZeroSignature, q. unfold import. by rewrite Hz. }
  destruct (import_ok q t ik HI Hg Hz) as [[_ ->]|[(_ & _ & _ & ->)|(_ & _ & [(u & _ & _ & ->)|(_ & q' & -> & Hq)])]];
    [by eexists _, q..|]. exists Success, q'. destruct Hq as (HI' & _ & _ & _ & _ & _ & _ & _ & _ & Hu).
  split; [done|]. unfold sound, bounded_input. by rewrite Hu.
Qed.
Lemma Inv_frame q f : Inv q → Inv (q <| q_unverified ::= f |>).
Proof.
  intros (E & F & (R & W & S) & K & Hl). exists E, F. split; [|done].
  split; [rep_frame R|]. split; [by destruct W; split|by destruct S; split].
Qed.
Lemma Inv_dropped q f : Inv q → Inv (q <| q_dropped ::= f |>).
Proof.
  intros (E & F & (R & W & S) & K & Hl). exists E, F. split; [|done].
  split; [rep_frame R|]. split; [by destruct W; split|by destruct S; split].
Qed.
Lemma Inv_signals q f : Inv q → Inv (q <| q_signals ::= f |>).
Proof. intros (E & F & H & K & Hl). exists E, F. split; [by apply Holds_signals|done]. Qed.
Lemma enqueue_sound l : ∀ q n, sound q → ∃ q', enqueue l n q = (Ok tt, q') ∧ sound q'.
Proof.
  induction l as [|d l IH]; intros q n Hq; [by exists q|]. cbn [enqueue]. rewrite (bind_ok _ _ _ q q) by done.
  destruct (Z.leb_spec c_maxVerificationQueueSize (len (q_unverified q))); [by exists q|].
  rewrite (bind_ok _ _ _ tt (q <| q_unverified ::= λ l, l ++ [(d, n)] |>)) by done. apply IH. destruct Hq as [HI Hb].
  split; [by apply Inv_frame|]. unfold bounded_input. cbn. rewrite length_app. cbn. lia.
Qed.
Lemma enqueue_items_sound l d n : ∀ q, sound q → ∃ r q', enqueue_items d l n q = (r, q') ∧ total r ∧ sound q'.
Proof.
  induction l as [|i l IH]; intros q Hq; [by exists (Ok tt), q|]. cbn [enqueue_items]. rewrite (bind_ok _ _ _ q q) by done.
  destruct (Z.leb_spec c_maxVerificationQueueSize (len (q_unverified q))); [by exists (Ok tt), q|].
  pose proof (item_total d i) as Ht. unfold lift. unfold mbind at 1, ST_bind at 1.
  destruct (item d i) as [x|e| | |]; try done; [|by exists (Throw e), q].
  rewrite (bind_ok _ _ _ tt (q <| q_unverified ::= λ l, l ++ [(x, n)] |>)) by done. apply IH. destruct Hq as [HI Hb].
  split; [by apply Inv_frame|]. unfold bounded_input. cbn. rewrite length_app. cbn. lia.
Qed.
Lemma Inv_empty q :
  q_nodes q = ∅ → q_current q = [] → q_byHash q = ∅ → q_byNonce q = ∅ → q_future q = ∅ → q_futureSize q = 0 →
  0 <= q_limit q → 0 <= q_futureLimit q → q_limit q + q_futureLimit q < 2 ^ 32 → Inv q.
Proof.
  intros En Ec Eh Eb Ef Es Hl Hf Hs. exists [], ∅.
  split; [|split; [by intros h Hh%elem_of_nil|rewrite map_size_empty; cbn [length]; lia]]. split; [|split].
  - split; rewrite ?En, ?Ec, ?Eh, ?Eb; try done.
    + constructor.
    + by intros i Hi%elem_of_nil.
    + by intros i u Hi%elem_of_nil.
    + intros h i. split; [done|]. by intros (u & Hi%elem_of_nil & _).
    + intros a n o. unfold current_at. rewrite Eb. split; [done|]. by intros (i & u & _ & Hi%elem_of_nil & _).
  - by split.
  - split; by rewrite Ef.
Qed.
Lemma clear_sound q : sound q → ∃ q', clear q = (Ok tt, q') ∧ sound q'.
Proof.
  intros [(E & F & _ & _ & Hl & Hfl & Hb & _) Hu]. eexists. split; [reflexivity|]. split; [|done]. by apply Inv_empty.
Qed.
Lemma setFuture_sound q h : sound q → ∃ q', setFuture h q = (Ok tt, q') ∧ sound q'.
Proof.
  intros [HI Hb]. destruct (q_byHash q !! h) as [i|] eqn:Eh.
  - pose proof HI as (E & F & (R & _) & _). pose proof (proj1 (rep_hash _ _ R _ _) Eh) as (u & Hi & <-).
    destruct (setFuture_ok q u HI) as (q' & -> & HI' & (_ & _ & _ & _ & Hu) & _).
    { rewrite (ready_spec _ _ R). apply list_elem_of_fmap. by exists (i, u). }
    exists q'. split; [done|]. split; [done|]. unfold bounded_input. by rewrite Hu.
  - exists q. split; [|done]. unfold setFuture. rewrite (bind_ok _ _ _ q q) by done. by rewrite Eh.
Qed.

(** ... and forgetting a dropped hash, for a caller that has the queue to itself. *)
Lemma erase_sound h q : sound q → sound (eraseDropedTx h q).2.
Proof. intros [HI Hb]. split; [by apply Inv_dropped|done]. Qed.
Lemma call_sound o q : sound q → signed o → ∃ r q', queue_call o q = (r, q') ∧ total r ∧ sound q'.
Proof.
  intros Hq Ho. destruct o as [t ik|b ik|h|t|h| |l n|b n]; cbn [queue_call signed] in *.
  - destruct (import_sound q t ik Hq Ho) as (r & q' & Hr & Hs & _). exists (Ok tt), q'. by rewrite (bind_ok _ _ _ _ _ Hr).
  - pose proof (transaction_of_rlp_total CheckEverything b) as Ht. destruct (transaction_of_rlp CheckEverything b) as [t|e| | |] eqn:Et; try done.
    + destruct (import_sound q t ik Hq (checked_good _ _ Et)) as (r & q' & Hr & Hs & _). exists (Ok tt), q'. split; [|done].
      rewrite (bind_ok _ _ _ r q'); [done|]. unfold import_rlp, try_catch. rewrite Et. by rewrite (bind_ok _ _ _ t q), Hr.
    + unfold import_rlp, try_catch, lift, mbind, ST_bind. rewrite Et. destruct (is_dev_exception e);
        [by exists (Ok tt), q|by exists (Throw e), q].
  - destruct Hq as [HI Hb]. destruct (drop_ok q h HI) as (q' & -> & HI' & _ & _ & _ & Hu). exists (Ok tt), q'. split; [done|].
    split; [done|]. split; [done|]. unfold bounded_input. by rewrite Hu.
  - destruct Hq as [HI Hb]. destruct (dropGood_ok q t HI Ho) as (q' & -> & HI' & _ & Hu & _). exists (Ok tt), q'. split; [done|].
    split; [done|]. split; [done|]. unfold bounded_input. by rewrite Hu.
  - destruct (setFuture_sound q h Hq) as (q' & -> & ?). by exists (Ok tt), q'.
  - destruct (clear_sound q Hq) as (q' & -> & ?). by exists (Ok tt), q'.
  - destruct (enqueue_sound l q n Hq) as (q' & -> & ?). by exists (Ok tt), q'.
  - unfold enqueue_rlp, lift. unfold mbind at 1, ST_bind at 1. pose proof (itemCount_total b) as Ht.
    destruct (itemCount b) as [c|e| | |]; try done; [by apply enqueue_items_sound|by exists (Throw e), q].
Qed.
Lemma verifier_sound x q : sound q → signed_work x → ∃ q', verifier_import x q = (Ok tt, q') ∧ sound q'.
Proof.
  intros Hq Hx. unfold verifier_import, try_catch. pose proof (transaction_of_rlp_total CheckCheap x.1) as Ht.
  destruct (transaction_of_rlp CheckCheap x.1) as [t|e| | |] eqn:Et; try done; [|by exists q].
  rewrite (bind_ok _ _ _ t q) by done. destruct (import_sound q t Ignore Hq (Hx t Et)) as (r & q' & Hr & Hs & _).
  rewrite (bind_ok _ _ _ _ _ Hr), (recoverable_hash _ (Hx t Et)), (bind_ok _ _ _ (hash_of t) q') by done.
  eexists. split; [reflexivity|]. destruct Hs. split; [by apply Inv_signals|done].
Qed.
Lemma step_sound s s' : step s s' → sound s.1 → sound s'.1.
Proof.
  destruct 1 as [o q q' r w Ho Hc|q q' x w Hv|q q' r x w1 w2 Hx Hv]; cbn [fst]; intros Hq.
  - destruct (call_sound o q Hq Ho) as (r' & q1 & Hc' & _ & ?). congruence.
  - unfold verifier_take in Hv. rewrite (bind_ok _ _ _ q q) in Hv by done. destruct (q_unverified q) as [|y l] eqn:Eq; [done|].
    rewrite (bind_ok _ _ _ tt (q <| q_unverified := l |>)) in Hv by done. injection Hv as <- <-. destruct Hq as [HI Hb].
    split; [by apply (Inv_frame q (λ _, l))|]. unfold bounded_input in *. rewrite Eq in Hb. cbn in *. lia.
  - destruct (verifier_sound x q Hq Hx) as (q1 & Hv' & ?). congruence.
Qed.
Lemma new_sound l f : 0 <= l → 0 <= f → l + f < 2 ^ 32 → sound (TransactionQueue_new l f).
Proof.
  intros Hl Hf Hb. split; [by apply Inv_empty|by unfold bounded_input].
Qed.
(** ** Answers to peers *)
Definition is_answer (x : signal) : bool := match x with OnImport _ _ _ => true | _ => false end.
Definition answers q : list signal := List.filter is_answer (q_signals q).
Definition quiet {A} (m : Q A) : Prop := ∀ q, answers (m q).2 = answers q.

Lemma quiet_ret {A} (x : A) : quiet (mret x).
Proof. done. Qed.
Lemma quiet_lift {A} (o : outcome A) : quiet (lift o).
Proof. done. Qed.
Lemma quiet_undef {A} : quiet (undef (A := A)).
Proof. done. Qed.
Lemma quiet_fuel {A} : quiet (out_of_fuel (A := A)).
Proof. done. Qed.
Lemma quiet_get : quiet getS.
Proof. done. Qed.
Lemma quiet_mod f : (∀ q, q_signals (f q) = q_signals q) → quiet (modS f).
Proof. intros H q. unfold answers. cbn. by rewrite H. Qed.
Lemma quiet_emit x : is_answer x = false → quiet (emit x).
Proof. intros H q. unfold answers. cbn. rewrite List.filter_app. cbn. by rewrite H, app_nil_r. Qed.
Lemma quiet_bind {A B} (m : Q A) (k : A → Q B) : quiet m → (∀ x, quiet (k x)) → quiet (m ≫= k).
Proof.
  intros Hm Hk q. specialize (Hm q). unfold mbind, ST_bind. destruct (m q) as [[x|e| | |] q1]; cbn in *; try done.
  by rewrite Hk.
Qed.
Lemma quiet_try {A} (m : Q A) f h : quiet m → (∀ e, quiet (h e)) → quiet (try_catch m f h).
Proof.
  intros Hm Hh q. specialize (Hm q). unfold try_catch. destruct (m q) as [[x|e| | |] q1]; cbn in *; try done.
  destruct (f e); [by rewrite Hh|done].
Qed.
Create HintDb quiet discriminated.
#[local] Hint Resolve quiet_ret quiet_lift quiet_undef quiet_fuel quiet_get : quiet.
Ltac quiet_step :=
  lazymatch goal with
  | |- ∀ _, _ => intros ?
  | |- quiet (let _ := _ in _) => cbv zeta
  | |- quiet (if ?b then _ else _) => destruct b
  | |- quiet (match ?x with _ => _ end) => destruct x
  | |- quiet (try_catch _ _ _) => apply quiet_try
  | |- quiet (modS _) => apply quiet_mod; done
  | |- quiet (emit _) => apply quiet_emit; done
  | |- quiet _ => first [ solve [ auto with quiet ] | apply quiet_bind ]
  end.
Ltac quiet_tac := repeat quiet_step.

Lemma quiet_node i : quiet (node i).
Proof. unfold node. quiet_tac. Qed.
Lemma quiet_emplace t : quiet (emplace t).
Proof. unfold emplace. quiet_tac. Qed.
#[local] Hint Resolve quiet_node quiet_emplace : quiet.
Lemma quiet_add a t : quiet (add_current a t).
Proof. unfold add_current, reserve, assign. quiet_tac. Qed.
Lemma quiet_remove h : quiet (remove_WITH_LOCK h).
Proof. unfold remove_WITH_LOCK, erase_node. quiet_tac. Qed.
#[local] Hint Resolve quiet_add quiet_remove : quiet.
Lemma quiet_promote ft : ∀ a n, quiet (promote a n ft).
Proof. induction ft as [|[k t] ft IH]; intros a n; cbn [promote]; unfold promote_one; quiet_tac. Qed.
Lemma quiet_times m n : quiet m → quiet (times n m).
Proof. intros Hm. induction n; cbn [times]; quiet_tac; done. Qed.
Lemma quiet_drop_last : quiet drop_last_future.
Proof. unfold drop_last_future. quiet_tac. Qed.
#[local] Hint Resolve quiet_promote quiet_times quiet_drop_last : quiet.
Lemma quiet_makeCurrent t : quiet (makeCurrent_WITH_LOCK t).
Proof. unfold makeCurrent_WITH_LOCK, promote_successors, when. quiet_tac. Qed.
#[local] Hint Resolve quiet_makeCurrent : quiet.
Lemma quiet_trim n : quiet (trim n).
Proof. induction n; cbn [trim]; quiet_tac; done. Qed.
#[local] Hint Resolve quiet_trim : quiet.
Lemma quiet_import t ik : quiet (import t ik).
Proof.
  unfold import, manageImport_WITH_LOCK, make_room, replace_current, replace_future, follow, insertCurrent_WITH_LOCK. quiet_tac.
Qed.

(** One round of a verifier. *)
Definition verifier_round : Q unit :=
  w ← verifier_take; match w with Some x => verifier_import x | None => mret tt end.
(** The answers a list of works is due: one for every transaction that can be read. *)
Inductive answered : list (bytes * Z) → list signal → Prop :=
  | answered_nil : answered [] []
  | answered_bad x l s : (∀ t, transaction_of_rlp CheckCheap x.1 ≠ Ok t) → answered l s → answered (x :: l) s
  | answered_good x t r l s : transaction_of_rlp CheckCheap x.1 = Ok t → answered l s →
      answered (x :: l) (OnImport r (hash_of t) x.2 :: s).

Lemma verifier_answers x q :
  sound q → signed_work x →
  ∃ q' s, verifier_import x q = (Ok tt, q') ∧ sound q' ∧ q_unverified q' = q_unverified q
    ∧ answers q' = answers q ++ s ∧ ∀ l s', answered l s' → answered (x :: l) (s ++ s').
Proof.
  intros Hq Hx. unfold verifier_import, try_catch. pose proof (transaction_of_rlp_total CheckCheap x.1) as Ht.
  destruct (transaction_of_rlp CheckCheap x.1) as [t|e| | |] eqn:Et; try done.
  - rewrite (bind_ok _ _ _ t q) by done. destruct (import_sound q t Ignore Hq (Hx t Et)) as (r & q' & Hr & Hs & Hu).
    pose proof (quiet_import t Ignore q) as Ha. rewrite Hr in Ha. cbn in Ha.
    rewrite (bind_ok _ _ _ _ _ Hr), (recoverable_hash _ (Hx t Et)), (bind_ok _ _ _ (hash_of t) q') by done.
    eexists _, [OnImport r (hash_of t) x.2]. split; [reflexivity|]. split; [destruct Hs; split; [by apply Inv_signals|done]|].
    split; [done|]. split; [rewrite <-Ha; unfold answers; cbn; by rewrite List.filter_app|]. intros l s' Hl. by apply answered_good.
  - exists q, []. split; [done|]. split; [done|]. split; [done|]. split; [by rewrite app_nil_r|]. intros l s' Hl.
    apply answered_bad; [by rewrite Et|done].
Qed.
Lemma rounds_answer l : ∀ q,
  sound q → q_unverified q = l → (∀ x, x ∈ l → signed_work x) →
  ∃ q' s, times (length l) verifier_round q = (Ok tt, q') ∧ sound q' ∧ q_unverified q' = [] ∧ answers q' = answers q ++ s ∧ answered l s.
Proof.
  induction l as [|x l IH]; intros q Hq Hu Hw.
  { exists q, []. split; [done|]. split; [done|]. split; [done|]. split; [by rewrite app_nil_r|constructor]. }
  set (q0 := q <| q_unverified := l |>).
  assert (sound q0) as H0. { destruct Hq as [HI Hb]. split; [by apply (Inv_frame q (λ _, l))|]. unfold bounded_input in *. rewrite Hu in Hb. cbn in *. lia. }
  destruct (verifier_answers x q0 H0 ltac:(apply Hw; left)) as (q1 & s1 & Hv & H1 & Hu1 & Ha1 & Hs1).
  destruct (IH q1 H1 Hu1 ltac:(intros; apply Hw; by right)) as (q2 & s2 & Ht & H2 & Hu2 & Ha2 & Hs2).
  exists q2, (s1 ++ s2). split; [|split; [done|split; [done|split; [by rewrite Ha2, Ha1, app_assoc|by apply Hs1]]]].
  cbn [length times]. rewrite (bind_ok _ _ _ tt q1); [done|]. unfold verifier_round, verifier_take.
  rewrite (bind_ok _ _ _ (Some x) q0); [done|]. rewrite (bind_ok _ _ _ q q) by done. by rewrite Hu.
Qed.
End Pool.
