(* ===== verification/Mempool.v ===== *)
(** * What the transaction queue promises

    Safety under every interleaving of its clients, the rules of importing, what moving
    and dropping do to the pool, and that waiting transactions come to their turn; and
    where the queue falls short. *)
From stdpp Require Import base gmap list sorting relations.
From Stdlib Require Import ZArith Lia.
From S2P Require Import Prelude Rlp Config Interfaces Transaction TransactionProofs TxQueue TxQueueProofs TxQueueOps Pool.
Open Scope Z_scope.

(** ** A small queue *)

(** A transaction of the sender [a] with a nonce and a gas price. *)
Definition tx_of (a : Address) (n price : u256) : Transaction :=
  mkTx MessageCall n 1 0xb0b price 21000 [] (Some (mkSig 5 7 0)) 11 a.
Definition queue_with (txs : list Transaction) : TransactionQueue :=
  (forM txs (λ t, _ ← import t Ignore; mret tt) (TransactionQueue_new 4 4)).2.

Lemma tx_of_good a n price : a ≠ 0 → recoverable (tx_of a n price).
Proof.
  intros Ha. unfold recoverable, tx_hash, transaction_sha3, transaction_streamRLP. cbn. eexists _, a. split; [reflexivity|].
  unfold sender. cbn. by rewrite bool_decide_true.
Qed.
Lemma imports_reachable txs w : (∀ t, t ∈ txs → recoverable t) → ∀ q, sound q →
  let q' := (forM txs (λ t, _ ← import t Ignore; mret tt) q).2 in rtc step (q, w) (q', w) ∧ sound q'.
Proof.
  induction txs as [|t txs IH]; intros Hg q Hq; cbn zeta; [done|]. cbn [forM].
  destruct (import_sound q t Ignore Hq ltac:(apply Hg; left)) as (r & q1 & E1 & H1 & _).
  assert (queue_call (OImport t Ignore) q = (Ok tt, q1)) as Hc by (cbn [queue_call]; by rewrite (bind_ok _ _ _ _ _ E1)).
  cbn [queue_call] in Hc. rewrite (bind_ok _ _ _ _ _ Hc). destruct (IH ltac:(intros; apply Hg; by right) q1 H1) as [Hr Hs].
  split; [|done]. eapply rtc_l; [|done]. eapply (step_call (OImport t Ignore)); [apply Hg; left|done].
Qed.
Lemma queue_with_inv txs : (∀ t, t ∈ txs → recoverable t) → Inv (queue_with txs).
Proof. intros Hg. by apply (imports_reachable txs [] Hg (TransactionQueue_new 4 4)), new_sound. Qed.

Section Theorems.
Context `{CR : Crypto, CN : Containers}.


(** C8: The rules of importing a signed transaction.  A known hash is refused, a dropped one
    unless a retry is asked for; against a transaction of the same sender and nonce the new
    one needs at least its gas price.  Otherwise the pool becomes the pool with the
    transaction at its sender and nonce, within the limits: nothing else enters, and nothing
    else is lost while there is room; the new transaction is ready to be tried. *)
Theorem import_rules (q : TransactionQueue) (t : Transaction) (ik : IfDropped) :
  Inv q → recoverable t → hasZeroSignature t = false →
  (hash_of t ∈ q_known q ∧ import t ik q = (Ok AlreadyKnown, q))
  ∨ (hash_of t ∉ q_known q ∧ hash_of t ∈ q_dropped q ∧ ik = Ignore ∧ import t ik q = (Ok AlreadyInChain, q))
  ∨ hash_of t ∉ q_known q ∧ (hash_of t ∉ q_dropped q ∨ ik = Retry)
    ∧ ((∃ u, pooled q !! key_of t = Some u ∧ t_gasPrice t < t_gasPrice u ∧ import t ik q = (Ok OverbidGasPrice, q))
       ∨ (∀ u, pooled q !! key_of t = Some u → t_gasPrice u <= t_gasPrice t)
         ∧ ∃ q', import t ik q = (Ok Success, q') ∧ Inv q' ∧ len (ready q') <= q_limit q
           ∧ Z.of_nat (size (future_by_key q')) <= q_futureLimit q
           ∧ pooled q' ⊆ <[key_of t := t]> (pooled q)
           ∧ (Z.of_nat (size (pooled q)) < q_limit q → Z.of_nat (size (future_by_key q)) <= q_futureLimit q →
                pooled q' = <[key_of t := t]> (pooled q) ∧ t ∈ ready q')).
Proof.
  intros HI Hg Hz. destruct (import_ok q t ik HI Hg Hz) as [H|[H|(H1 & H2 & [H|(H3 & q' & Hq & H4)])]]; [by auto|by auto|..].
  - right. right. split; [done|]. split; [done|]. by left.
  - right. right. split; [done|]. split; [done|]. right. split; [done|]. exists q'. destruct H4 as (? & ? & ? & ? & Hroom & _).
    repeat (split; [done|]). intros Hr Hf. destruct (Hroom Hr Hf) as (? & ? & _). done.
Qed.

(** C33: Waiting transactions come to their turn.  When the transactions of a sender from the
    nonce after [t] up to [k] all wait in the future set, then executing [t] ([dropGood])
    makes the one at [k] ready, and so does importing [t] while there is room. *)
Theorem successors_become_ready (q : TransactionQueue) (t u : Transaction) (k : u256) :
  Inv q → recoverable t → hash_of u ≠ hash_of t → 0 <= t_nonce t < k → k < M256 →
  (∀ j, t_nonce t < j <= k → is_Some (future_by_key q !! (safeSender t, j))) →
  future_by_key q !! (safeSender t, k) = Some u →
  (∃ q', dropGood t q = (Ok tt, q') ∧ u ∈ ready q')
  ∧ (∀ ik q', import t ik q = (Ok Success, q') →
       Z.of_nat (size (pooled q)) < q_limit q → Z.of_nat (size (future_by_key q)) <= q_futureLimit q → u ∈ ready q').
Proof.
  intros HI Hg Hne Hk Hkb Hrun Hu.
  assert (pooled q !! (safeSender t, k) = Some u) as Hp.
  { destruct HI as (E & F & H & _). apply (pooled_spec _ _ _ _ _ H). right. by rewrite <-(future_spec q F) by apply H. }
  split.
  - destruct (dropGood_ok q t HI Hg) as (q' & Hq & _ & _ & _ & _ & _ & Hr). exists q'. split; [done|]. by eapply Hr.
  - intros ik q' Hi Hroom Hfr. destruct (hasZeroSignature t) eqn:Hz; [unfold import in Hi; by rewrite Hz in Hi|].
    destruct (import_ok q t ik HI Hg Hz) as [[_ Hx]|[(_ & _ & _ & Hx)|(_ & _ & [(v & _ & _ & Hx)|(_ & q1 & Hx & Him)])]];
      rewrite Hx in Hi; simplify_eq. destruct Him as (_ & _ & _ & _ & Hroom' & _). destruct (Hroom' Hroom Hfr) as (_ & _ & Hr). by eapply Hr.
Qed.

(** The transactions of peers are all dealt with: as many rounds of the verifiers as there
    are entries empty the verification queue, and every entry that is a transaction is
    answered exactly once, with its hash and the peer it came from, in the order of arrival. *)
Theorem peers_are_answered (q : TransactionQueue) :
  Inv q → len (q_unverified q) <= c_maxVerificationQueueSize → (∀ x, x ∈ q_unverified q → signed_work x) →
  ∃ q' s, times (length (q_unverified q)) verifier_round q = (Ok tt, q') ∧ q_unverified q' = []
    ∧ answers q' = answers q ++ s ∧ answered (q_unverified q) s.
Proof.
  intros HI Hb Hw. destruct (rounds_answer (q_unverified q) q (conj HI Hb) eq_refl Hw) as (q' & s & ? & _ & ? & ? & ?). eauto 6.
Qed.

(** ** The order offered to the block *)
Lemma top_loop_ok q E (avoid : gset h256) : Rep q E → ∀ l n, (∀ p, p ∈ l → p ∈ E) →
  top_loop n avoid l.*1 q = (Ok (take n (filter (λ t, hash_of t ∉ avoid) l.*2)), q).
Proof.
  intros R. induction l as [|[i t] l IH]; intros n Hl; [by destruct n|]. destruct n as [|n]; [done|].
  assert ((i, t) ∈ E) as Hi by (apply Hl; left). cbn [fmap list_fmap top_loop fst snd].
  rewrite (bind_ok _ _ _ _ _ (node_ok _ _ _ _ R Hi)), (recoverable_hash t) by by eapply (rep_good _ _ R).
  rewrite (bind_ok _ _ _ (hash_of t) q) by done. change (list_fmap _ _ fst l) with l.*1. change (list_fmap _ _ snd l) with l.*2.
  rewrite filter_cons. case_bool_decide as Ha.
  - rewrite decide_False by naive_solver. apply IH. intros; apply Hl. by right.
  - rewrite decide_True by done. rewrite (bind_ok _ _ _ _ _ (IH n ltac:(intros; apply Hl; by right))). done.
Qed.

(** [topTransactions] offers the first of the current transactions in their order,
    without those to avoid, as many as asked for; a limit of 0 asks for all. *)
Theorem top_transactions_in_order (q : TransactionQueue) (limit : nat) (avoid : gset h256) :
  Inv q →
  topTransactions limit avoid q =
    (Ok (let l := filter (λ t, hash_of t ∉ avoid) (ready q) in if bool_decide (limit = 0%nat) then l else take limit l), q).
Proof.
  intros (E & F & (R & _) & _). unfold topTransactions. rewrite (bind_ok _ _ _ q q) by done.
  rewrite (rep_size _ _ R), (rep_current _ _ R), (ready_spec _ _ R), (top_loop_ok q E avoid R E) by done.
  cbv zeta. case_bool_decide; [|done]. rewrite take_ge; [done|]. etrans; [apply length_filter|]. by rewrite length_fmap.
Qed.

(** ** Findings *)

(** The entry is made, and then the comparison throws. *)
Lemma reserved_then_throws (q : TransactionQueue) E F (t : Transaction) :
  Holds q E F → Known q E → ready q ≠ [] → sender t = Throw InvalidSignature → pooled q !! key_of t = None →
  hash_of t ∉ q_known q →
  ∃ q1, (room ← make_room t;
         if negb room then mret OverbidGasPrice
         else insertCurrent_WITH_LOCK (hash_of t) t ;; q ← getS; trim (length (q_current q)) ;; emit OnReady ;; mret Success) q
        = (Throw InvalidSignature, q1)
    ∧ current_at q1 (key_of t).1 (t_nonce t) = Some None ∧ q_known q1 = q_known q ∧ q_dropped q1 = q_dropped q.
Proof.
  intros H K Hne Hs Hp Hh. pose proof H as (R & W & S).
  assert (make_room t q = (Ok true, q)) as Hroom.
  { unfold make_room. destruct (replace_current_ok q E t R) as [[_ Hr]|(i & u & Hi & Hk & _)]; cycle 1.
    { enough (pooled q !! key_of t = Some u) by congruence. apply (pooled_spec _ _ _ _ _ H). left. split; [|done].
      apply list_elem_of_fmap. by exists (i, u). }
    rewrite (bind_ok _ _ _ _ _ Hr). cbn [negb]. unfold replace_future. rewrite (bind_ok _ _ _ q q) by done.
    unfold future_at. rewrite (st_lookup _ _ S). fold (key_of t). destruct (F !! key_of t) as [u|] eqn:Eu; [|done].
    enough (pooled q !! key_of t = Some u) by congruence. apply (pooled_spec _ _ _ _ _ H). by right. }
  assert (q_byHash q !! hash_of t = None) as Hnew by (apply (rep_hash_none _ _ _ R); intros Hx; by apply Hh, K).
  assert (current_at q (safeSender t) (t_nonce t) = None) as Hfree.
  { apply (rep_slot_none _ _ _ _ R). intros (u & Hu & Hk)%elem_keys_snd. fold (key_of t) in Hk.
    enough (pooled q !! key_of t = Some u) by congruence. apply (pooled_spec _ _ _ _ _ H). by left. }
  set (q1 := (reserve (safeSender t) (t_nonce t) q).2).
  assert (emplace t q1 = (Throw InvalidSignature, q1)) as Hem.
  { unfold emplace. rewrite (bind_ok _ _ _ q1 q1) by done. change (q_nodes q1) with (q_nodes q). change (q_current q1) with (q_current q).
    rewrite (rep_queued _ _ R). unfold lift. unfold mbind at 1, ST_bind at 1. rewrite (emplace_throws _ _ _ InvalidSignature); [done| |].
    - by rewrite <-(ready_spec _ _ R).
    - intros y Hy. assert (∃ z, height q1 y = Ok z) as [z Hzy]; [|unfold PriorityCompare; rewrite Hzy; unfold height; by rewrite Hs].
      apply list_elem_of_fmap in Hy as ([i y'] & -> & Hi). apply height_ok; [by eapply (rep_good _ _ R)|].
      assert (current_at q (safeSender y') (t_nonce y') = Some (Some i)) as Hx by (apply R; eauto 6). unfold current_at in Hx.
      destruct (q_byNonce q !! safeSender y') as [m|] eqn:Em; [|done]. cbn. unfold current_at in Hfree.
      destruct (decide (safeSender y' = safeSender t)) as [Heq|Hneq].
      + rewrite Heq in *. rewrite lookup_insert_eq, Em in *. cbn in *. rewrite Hfree. eexists. split; [done|apply insert_non_empty].
      + rewrite lookup_insert_ne by done. exists m. split; [done|]. by eapply R. }
  exists q1. split.
  - rewrite (bind_ok _ _ _ _ _ Hroom). cbn [negb]. apply bind_throw. unfold insertCurrent_WITH_LOCK.
    rewrite (bind_ok _ _ _ q q), Hnew by done. rewrite bool_decide_false by (by intros [? ?]). apply bind_throw. unfold add_current.
    rewrite (bind_ok _ _ _ tt q1) by done. by apply bind_throw.
  - split; [|done]. unfold current_at in *. cbn. rewrite lookup_insert_eq. cbn.
    destruct (q_byNonce q !! safeSender t) as [m|]; cbn in *; [rewrite Hfree|rewrite lookup_empty]; by rewrite lookup_insert_eq.
Qed.

(** C40: A transaction whose signer cannot be recovered breaks the queue.  The verifiers import
    transactions without recovering the signer first; the entry by nonce is made before the
    comparison throws, and stays without an iterator.  The next such transaction with the same
    nonce follows it: undefined behaviour. *)
Theorem unrecoverable_signer_breaks_the_queue (q : TransactionQueue) (t t' : Transaction) :
  Inv q → ready q ≠ [] → sender t = Throw InvalidSignature → sender t' = Throw InvalidSignature → t_nonce t' = t_nonce t →
  is_Some (t_vrs t) → is_Some (t_vrs t') → t_type t ≠ NullTransaction → t_type t' ≠ NullTransaction →
  hasZeroSignature t = false → hasZeroSignature t' = false →
  check_WITH_LOCK q (hash_of t) Ignore = Success → check_WITH_LOCK q (hash_of t') Ignore = Success →
  pooled q !! (0, t_nonce t) = None →
  ∃ q', import t Ignore q = (Ok Malformed, q') ∧ (import t' Ignore q').1 = Undef.
Proof.
  intros HI Hne Hs Hs' Hn Hv Hv' Hty Hty' Hz Hz' Hc Hc' Hp. pose proof HI as (E & F & H & K & _).
  assert (key_of t = (0, t_nonce t)) as Hk by (unfold key_of, safeSender; by rewrite Hs).
  rewrite <-Hk in Hp. destruct (reserved_then_throws q E F t H K Hne Hs Hp) as (q1 & Hadd & Hat & Hkn & Hdr).
  { unfold check_WITH_LOCK in Hc. by case_bool_decide. }
  rewrite Hk in Hat. cbn in Hat.
  exists q1. split.
  - unfold import. rewrite Hz, (signed_hash t Hty Hv), (bind_ok _ _ _ (hash_of t) q), (bind_ok _ _ _ q q) by done.
    rewrite Hc, (bool_decide_false (Success ≠ Success)) by naive_solver. unfold manageImport_WITH_LOCK, try_catch. by rewrite Hadd.
  - unfold import. rewrite Hz', (signed_hash t' Hty' Hv'), (bind_ok _ _ _ (hash_of t') q1), (bind_ok _ _ _ q1 q1) by done.
    unfold check_WITH_LOCK in *. rewrite Hkn, Hdr, Hc', (bool_decide_false (Success ≠ Success)) by naive_solver.
    unfold manageImport_WITH_LOCK, try_catch, make_room, replace_current.
    assert (safeSender t' = 0) as -> by (unfold safeSender; by rewrite Hs').
    unfold getS, mbind, ST_bind. rewrite Hn. by rewrite Hat.
Qed.
(** Dropping a transaction that waits in the future set does not take it out: its hash is
    noted as dropped, the pool stays as it is, and the transaction can become current again. *)
Theorem dropped_future_transaction_stays (q : TransactionQueue) (k : Address * u256) (u : Transaction) :
  Inv q → future_by_key q !! k = Some u →
  ∃ q', drop_tx (hash_of u) q = (Ok tt, q') ∧ hash_of u ∈ q_dropped q' ∧ pooled q' = pooled q ∧ pooled q' !! k = Some u.
Proof.
  intros HI Hu. pose proof HI as (E & F & H & K & _). pose proof H as (R & W & S). rewrite (future_spec _ _ S) in Hu.
  destruct (w_good _ _ _ W _ _ Hu) as (_ & _ & Hkn & Hh & _).
  destruct (drop_ok q (hash_of u) HI) as (q' & Hq & _ & _ & Hp & Hd & _). exists q'. split; [done|]. split; [by apply Hd|].
  assert (pooled q' = pooled q) as ->.
  { apply map_eq. intros k'. apply option_eq. intros v. rewrite Hp. split; [by intros [? _]|]. intros Hv. split; [done|].
    rewrite (ready_spec _ _ R). intros Hv' Hx. apply Hh, elem_hashes_snd. eauto. }
  split; [done|]. apply (pooled_spec _ _ _ _ _ H). by right.
Qed.
End Theorems.

(** ** Witnesses *)
Definition alice_txs : list Transaction := [tx_of 0xa1 5 3; tx_of 0xb2 0 2].
Lemma alice_txs_good t : t ∈ alice_txs → recoverable t.
Proof. intros Ht. repeat (apply elem_of_cons in Ht as [->|Ht]; [by apply tx_of_good|]). by apply elem_of_nil in Ht. Qed.

Lemma import_rules_small :
  size (pooled (queue_with alice_txs)) = 2%nat
  ∧ ∃ q', import (tx_of 0xa1 6 1) Ignore (queue_with alice_txs) = (Ok Success, q') ∧ tx_of 0xa1 6 1 ∈ ready q'.
Proof.
  split; [vm_compute; reflexivity|].
  destruct (import_rules (queue_with alice_txs) (tx_of 0xa1 6 1) Ignore) as [[H _]|[(_ & H & _)|(_ & _ & [(u & H & _)|(_ & q' & Hq & _ & _ & _ & _ & Hr)])]].
  - apply queue_with_inv, alice_txs_good.
  - by apply tx_of_good.
  - reflexivity.
  - exfalso. revert H. vm_compute. done.
  - exfalso. revert H. vm_compute. done.
  - exfalso. revert H. vm_compute. done.
  - exists q'. split; [done|]. apply Hr; vm_compute; done.
Defined.

(** The sender's nonces 5 and 6 wait for 4. *)
Definition waiting_queue : TransactionQueue :=
  (setFuture (hash_of (tx_of 0xa1 5 3)) (queue_with [tx_of 0xa1 5 3; tx_of 0xa1 6 3])).2.
Lemma waiting_queue_inv : Inv waiting_queue.
Proof.
  assert (Inv (queue_with [tx_of 0xa1 5 3; tx_of 0xa1 6 3])) as HI.
  { apply queue_with_inv. intros t Ht. repeat (apply elem_of_cons in Ht as [->|Ht]; [by apply tx_of_good|]). by apply elem_of_nil in Ht. }
  destruct (setFuture_sound (queue_with [tx_of 0xa1 5 3; tx_of 0xa1 6 3]) (hash_of (tx_of 0xa1 5 3))) as (q' & Hq & HI' & _);
    [split; [exact HI|vm_compute; done]|].
  unfold waiting_queue. by rewrite Hq.
Qed.
Lemma successors_become_ready_small :
  ∃ q', dropGood (tx_of 0xa1 4 3) waiting_queue = (Ok tt, q') ∧ tx_of 0xa1 6 3 ∈ ready q'.
Proof.
  apply (successors_become_ready waiting_queue (tx_of 0xa1 4 3) (tx_of 0xa1 6 3) 6).
  - apply waiting_queue_inv.
  - by apply tx_of_good.
  - vm_compute. done.
  - cbn. lia.
  - reflexivity.
  - intros j Hj. cbn in Hj. assert (j = 5 ∨ j = 6) as [->| ->] by lia; vm_compute; eauto.
  - vm_compute. reflexivity.
Defined.
Lemma dropped_future_transaction_stays_small :
  ∃ q', drop_tx (hash_of (tx_of 0xa1 6 3)) waiting_queue = (Ok tt, q') ∧ pooled q' !! (0xa1, 6) = Some (tx_of 0xa1 6 3).
Proof.
  destruct (dropped_future_transaction_stays waiting_queue (0xa1, 6) (tx_of 0xa1 6 3)) as (q' & Hq & _ & _ & Hp);
    [apply waiting_queue_inv|vm_compute; reflexivity|eauto].
Defined.

(** Two entries of a peer, of which one is a transaction. *)
Definition peer_bytes : bytes :=
  match transaction_streamRLP true false (tx_of 0 1 5) with Ok b => b | _ => [] end.
Definition busy_queue : TransactionQueue := (enqueue [peer_bytes; [0xc0]] 77 (queue_with alice_txs)).2.
Lemma peers_are_answered_small :
  ∃ q' s, times 2 verifier_round busy_queue = (Ok tt, q') ∧ q_unverified q' = [] ∧ answers q' = answers busy_queue ++ s.
Proof.
  assert (length (q_unverified busy_queue) = 2%nat) as Hl by (vm_compute; reflexivity).
  destruct (peers_are_answered busy_queue) as (q' & s & Ht & Hu & Ha & _); [| | |rewrite Hl in Ht; exists q', s; split; [exact Ht|split; [exact Hu|exact Ha]]].
  - destruct (enqueue_sound [peer_bytes; [0xc0]] (queue_with alice_txs) 77) as (q' & Hq & HI & _);
      [split; [apply queue_with_inv, alice_txs_good|vm_compute; done]|]. unfold busy_queue. by rewrite Hq.
  - vm_compute. done.
  - replace (q_unverified busy_queue) with [(peer_bytes, 77); ([0xc0], 77)] by (vm_compute; reflexivity).
    intros x [->|[->|Hx%elem_of_nil]%elem_of_cons]%elem_of_cons t Ht; [|by vm_compute in Ht|done].
    apply (f_equal (λ o, match o with Ok t => bool_decide (is_Some (match tx_hash t, sender t with Ok h, Ok a => Some (h, a) | _, _ => None end)) | _ => false end)) in Ht.
    symmetry in Ht. revert Ht. unfold recoverable. destruct (tx_hash t) as [h| | | |], (sender t) as [a| | | |]; try (vm_compute; done). eauto.
Defined.
Lemma top_transactions_in_order_small :
  topTransactions 1 ∅ (queue_with alice_txs) = (Ok [tx_of 0xa1 5 3], queue_with alice_txs).
Proof.
  rewrite (top_transactions_in_order (queue_with alice_txs) 1 ∅) by apply queue_with_inv, alice_txs_good.
  vm_compute. reflexivity.
Defined.

(** Signatures with [r = 9] have no signer here. *)
Definition partial_crypto : Crypto := {| sha3 := simple_sha3; recover := λ r _ _ _, if r =? 9 then 0 else 1 |}.
Definition unsigned_tx (price : u256) : Transaction :=
  mkTx MessageCall 1 1 0xb0b price 21000 [] (Some (mkSig 9 7 0)) 11 0.
Definition partial_queue : TransactionQueue :=
  (@import partial_crypto scan_containers (tx_of 0xa1 5 3) Ignore (TransactionQueue_new 4 4)).2.
Lemma unrecoverable_signer_breaks_the_queue_small :
  ∃ q', @import partial_crypto _ (unsigned_tx 1) Ignore partial_queue = (Ok Malformed, q')
    ∧ (@import partial_crypto _ (unsigned_tx 2) Ignore q').1 = Undef.
Proof.
  apply (@unrecoverable_signer_breaks_the_queue partial_crypto _ partial_queue (unsigned_tx 1) (unsigned_tx 2)).
  - destruct (@import_sound partial_crypto _ (TransactionQueue_new 4 4) (tx_of 0xa1 5 3) Ignore) as (r & q' & Hq & [HI _] & _).
    + by apply new_sound.
    + eexists _, 0xa1. split; vm_compute; reflexivity.
    + unfold partial_queue. by rewrite Hq.
  - vm_compute. done.
  - reflexivity.
  - reflexivity.
  - reflexivity.
  - done.
  - done.
  - done.
  - done.
  - reflexivity.
  - reflexivity.
  - vm_compute. reflexivity.
  - vm_compute. reflexivity.
  - vm_compute. reflexivity.
Defined.

(** The order goes stale.  Nodes stay where they were put although the comparison depends
    on the lowest nonce of the sender: after nonce 5, then nonce 4 of the same sender were
    imported, nonce 5 is still offered before a transaction the comparison now puts first. *)
Theorem order_goes_stale :
  let q := queue_with [tx_of 0xa1 5 3; tx_of 0xb2 0 2; tx_of 0xa1 4 1] in
  ready q = [tx_of 0xa1 4 1; tx_of 0xa1 5 3; tx_of 0xb2 0 2]
  ∧ PriorityCompare q (tx_of 0xb2 0 2) (tx_of 0xa1 5 3) = Ok true.
Proof. vm_compute. done. Qed.
