(* ===== verification/BookProofs.v ===== *)
(** * Matching against the order book

    The loops of [ExdbState::insert_operation] as functions of the book
    ([match_amount], [match_value]), what they fill, and the invariant of the
    book: distinct transaction ids, positive amounts, no buy order at or above the
    price of a sell order. *)
From stdpp Require Import base gmap list sorting.
From Stdlib Require Import ZArith Lia.
From S2P Require Import Prelude Config Objects Interfaces Account ChainState StateOps Exdb.
Open Scope Z_scope.

(** ** Fills *)

(** Spending [amount] on a list of orders, in order: the orders filled
    completely, the one filled in part and by how much, and what is left. *)
Fixpoint match_amount (amount : Z) (l : list ex_order) : list ex_order * option (ex_order * Z) * Z :=
  match l with
  | [] => ([], None, amount)
  | x :: l =>
      if 0 <? amount then
        if token_amount x <=? amount then
          let '(f, p, r) := match_amount (amount - token_amount x) l in (x :: f, p, r)
        else ([], Some (x, amount), 0)
      else ([], None, amount)
  end.
(** Spending [value] at the price of each order (a market buy). *)
Fixpoint match_value (value : Z) (l : list ex_order) : list ex_order * option (ex_order * Z) * Z :=
  match l with
  | [] => ([], None, value)
  | x :: l =>
      if 0 <? value then
        if token_amount x * price x <=? value then
          let '(f, p, r) := match_value (value - token_amount x * price x) l in (x :: f, p, r)
        else if value / price x =? 0 then ([], None, value)
        else ([], Some (x, value / price x), value mod price x)
      else ([], None, value)
  end.

Definition fills (m : list ex_order * option (ex_order * Z) * Z) : list (ex_order * Z) :=
  ((λ x, (x, token_amount x)) <$> m.1.1) ++ option_list m.1.2.
Definition part_order (p : option (ex_order * Z)) : list ex_order := match p with Some (x, _) => [x] | None => [] end.
Definition part_amount (p : option (ex_order * Z)) : Z := match p with Some (_, n) => n | None => 0 end.
Definition part_value (p : option (ex_order * Z)) : Z := match p with Some (x, n) => n * price x | None => 0 end.
Definition rest (m : list ex_order * option (ex_order * Z) * Z) : Z := m.2.

(** [addExOrderMulti] as a function of the list: the order replaces one with its id. *)
Definition upsert (o : ex_order) (l : list ex_order) : list ex_order := multi_erase (trxid o) l ++ [o].
Definition reduce (n : Z) (x : ex_order) : ex_order := x <| token_amount := token_amount x - n |>.
Definition erase_all (f : list ex_order) (l : list ex_order) : list ex_order :=
  foldl (λ b x, multi_erase (trxid x) b) l f.
(** The book once the fills are taken out of it. *)
Definition take_fills (m : list ex_order * option (ex_order * Z) * Z) (l : list ex_order) : list ex_order :=
  let b := erase_all m.1.1 l in
  match m.1.2 with Some (x, n) => upsert (reduce n x) b | None => b end.

(** An order that can be traded without leaving the 256-bit range. *)
Record order_ok (o : ex_order) : Prop := {
  ok_amount : 0 < token_amount o < M256;
  ok_price : 0 < price o < M256;
  ok_value : token_amount o * price o < M256;
  ok_time : 0 <= create_time o <= INT64_MAX;
  ok_type : type o = buy ∨ type o = sell;
  ok_token : token_type o = FUEL
}.

Lemma match_amount_spec a l f p r :
  0 <= a → Forall order_ok l → match_amount a l = (f, p, r) →
  a = sumZ token_amount f + part_amount p + r ∧ 0 <= r ∧
  (0 < r → f = l ∧ p = None) ∧
  (∃ tl, l = f ++ part_order p ++ tl) ∧
  (∀ x n, p = Some (x, n) → 0 < n < token_amount x).
Proof.
  intros Ha Hl. revert a f p r Ha. induction Hl as [|x l Hx Hl IH]; intros a f p r Ha; cbn.
  - intros [= <- <- <-]. cbn. rewrite sumZ_nil. split_and!; [lia|lia|done|by exists []|done].
  - destruct (Z.ltb_spec 0 a).
    + destruct (Z.leb_spec (token_amount x) a).
      * destruct (match_amount (a - token_amount x) l) as [[f' p'] r'] eqn:E.
        intros [= <- <- <-]. apply IH in E as (Es&Hr&Hf&[tl Ht]&Hp); [|lia]. cbn; rewrite sumZ_cons.
        split_and!; [lia|done| |exists tl; by rewrite Ht at 1|done].
        intros H'. by destruct (Hf H') as [-> ->].
      * intros [= <- <- <-]. cbn. rewrite sumZ_nil. split_and!; [lia|lia|lia|by exists l|]. intros y n [= <- <-]. lia.
    + intros [= <- <- <-]. cbn. rewrite sumZ_nil. split_and!; [lia|lia|lia|by exists (x :: l)|done].
Qed.

Lemma match_value_spec v l f p r :
  0 <= v → Forall order_ok l → match_value v l = (f, p, r) →
  v = sumZ (λ x, token_amount x * price x) f + part_value p + r ∧ 0 <= r ∧
  (∃ tl, l = f ++ part_order p ++ tl) ∧
  (∀ x n, p = Some (x, n) → 0 < n < token_amount x).
Proof.
  intros Hv Hl. revert v f p r Hv. induction Hl as [|x l Hx Hl IH]; intros v f p r Hv; cbn.
  - intros [= <- <- <-]. cbn. rewrite sumZ_nil. split_and!; [lia|lia|by exists []|done].
  - destruct Hx as [Ha Hp Hav _ _ _]. destruct (Z.ltb_spec 0 v).
    + destruct (Z.leb_spec (token_amount x * price x) v).
      * destruct (match_value (v - token_amount x * price x) l) as [[f' p'] r'] eqn:E.
        intros [= <- <- <-]. apply IH in E as (Es&Hr&[tl Ht]&Hq); [|lia]. cbn; rewrite sumZ_cons.
        split_and!; [lia|done|exists tl; by rewrite Ht at 1|done].
      * pose proof (Z.div_mod v (price x)) as Hd. pose proof (Z.mod_pos_bound v (price x)) as Hm.
        pose proof (Z.div_pos v (price x)) as Hz.
        destruct (Z.eqb_spec (v / price x) 0) as [Hq|Hq].
        -- intros [= <- <- <-]. cbn. rewrite sumZ_nil. split_and!; [lia|lia|by exists (x :: l)|done].
        -- intros [= <- <- <-]. cbn. rewrite sumZ_nil. split_and!; [lia|lia|by exists l|]. intros y n [= <- <-].
           split; [lia|]. apply Z.div_lt_upper_bound; lia.
    + intros [= <- <- <-]. cbn. rewrite sumZ_nil. split_and!; [lia|lia|by exists (x :: l)|done].
Qed.

(** ** The book as a list *)
Lemma multi_erase_id t l : multi_find t l = None → multi_erase t l = l.
Proof.
  rewrite multi_find_None. intros H. unfold multi_erase. induction l as [|x l IH]; [done|].
  rewrite filter_cons_True by (apply H; left). rewrite IH; [done|]. intros o Ho. apply H. by right.
Qed.
Lemma addExOrderMulti_book o x : m_exChangeOrder (addExOrderMulti o x) = upsert o (m_exChangeOrder x).
Proof.
  unfold addExOrderMulti, changed, upsert. acct_fields. destruct x as []; cbn.
  unfold multi_insert. destruct (multi_find (trxid o) _) as [y|] eqn:E.
  - apply multi_find_Some in E as [_ ->]. by rewrite multi_find_erase.
  - by rewrite multi_erase_id.
Qed.
Lemma multi_erase_comm t u l : multi_erase t (multi_erase u l) = multi_erase u (multi_erase t l).
Proof.
  unfold multi_erase. rewrite !list_filter_filter. apply list_filter_iff. tauto.
Qed.
Lemma multi_erase_app t l1 l2 : multi_erase t (l1 ++ l2) = multi_erase t l1 ++ multi_erase t l2.
Proof. apply filter_app. Qed.
Lemma elem_of_upsert o l x : x ∈ upsert o l ↔ x = o ∨ (x ∈ l ∧ trxid x ≠ trxid o).
Proof. unfold upsert. rewrite elem_of_app, elem_of_multi_erase, list_elem_of_singleton. tauto. Qed.
Lemma elem_of_erase_all f l x : x ∈ erase_all f l ↔ x ∈ l ∧ ∀ y, y ∈ f → trxid x ≠ trxid y.
Proof.
  unfold erase_all. revert l. induction f as [|y f IH]; intros l; cbn [foldl].
  - split; [|tauto]. intros. split; [done|]. set_solver.
  - rewrite IH, elem_of_multi_erase. split.
    + intros [[Hx Hy] Hf]. split; [done|]. intros z [->|Hz]%elem_of_cons; auto.
    + intros [Hx Hf]. split; [split|]; [done|apply Hf; left|]. intros z Hz. apply Hf. by right.
Qed.
Lemma erase_all_erase t f l : multi_erase t (erase_all f l) = erase_all f (multi_erase t l).
Proof.
  unfold erase_all. revert l. induction f as [|y f IH]; intros l; cbn [foldl]; [done|]. by rewrite IH, multi_erase_comm.
Qed.
Lemma erase_all_app f l1 l2 : erase_all f (l1 ++ l2) = erase_all f l1 ++ erase_all f l2.
Proof.
  unfold erase_all. revert l1 l2. induction f as [|y f IH]; intros l1 l2; cbn [foldl]; [done|].
  by rewrite multi_erase_app, IH.
Qed.

Lemma upsert_NoDup o l : NoDup (trxid <$> l) → NoDup (trxid <$> upsert o l).
Proof.
  intros Hl. unfold upsert. rewrite fmap_app. apply NoDup_app. split_and!.
  - by apply multi_erase_NoDup.
  - intros t Ht Hs. apply list_elem_of_fmap in Ht as (y&->&[_ Hy]%elem_of_multi_erase).
    apply list_elem_of_singleton in Hs. done.
  - apply NoDup_singleton.
Qed.
Lemma erase_all_NoDup f l : NoDup (trxid <$> l) → NoDup (trxid <$> erase_all f l).
Proof. unfold erase_all. revert l. induction f; intros l Hl; cbn [foldl]; auto using multi_erase_NoDup. Qed.

Section Book.
Context `{CR : Crypto, CF : Config, ST_ : !StorageTrie, RN : Rng, CO : !AccountCodec}.

Definition book_at (s : State) (l : list ex_order) : Prop :=
  ∃ x, m_cache s !! ExdbSystemAddress = Some x ∧ m_exChangeOrder x = l.

Lemma account_cached a x s : m_cache s !! a = Some x → account a s = (Ok (Some x), s).
Proof. intros E. unfold account. by rewrite E. Qed.
Lemma account_caches a x s t : account a s = (Ok (Some x), t) → m_cache t !! a = Some x.
Proof.
  unfold account. destruct (m_cache s !! a) eqn:E; [by intros [= <- <-]|].
  case_bool_decide; [done|]. destruct (m_state s !! a); [|done].
  destruct (load s l) as [y|]; [|done]. intros [= <- <-]. apply lookup_insert_eq.
Qed.

Lemma getExOrder_book s l t : getExOrder s = (Ok l, t) → book_at t l.
Proof.
  unfold getExOrder. intros (o&s1&H1&H)%bind_inv. destruct o as [x|].
  - injection H as <- <-. exists x. split; [by eapply account_caches|done].
  - apply bind_inv in H as (u&s2&H2&H). apply bind_inv in H as (x&s3&H3&H). injection H as <- <-.
    unfold deref in H3. apply bind_inv in H3 as (o&s4&H4&H3). destruct o as [y|]; [|done].
    injection H3 as <- <-. exists y. split; [by eapply account_caches|done].
Qed.

Lemma add_exchangeOrder_spec o s l :
  book_at s l → ∃ t, add_exchangeOrder o s = (Ok tt, t) ∧ book_at t (upsert o l).
Proof.
  intros (x&Hx&<-). unfold add_exchangeOrder, addExchangeOrder.
  rewrite (bind_ok _ _ _ _ _ (account_cached _ _ _ Hx)). unfold write, log, modS, mbind, ST_bind.
  rewrite Hx. eexists. split; [reflexivity|]. exists (addExOrderMulti o x).
  split; [apply lookup_insert_eq|]. apply addExOrderMulti_book.
Qed.
Lemma remove_exchangeOrder_spec t s l y :
  book_at s l → multi_find t l = Some y →
  ∃ u, remove_exchangeOrder t s = (Ok tt, u) ∧ book_at u (multi_erase t l).
Proof.
  intros (x&Hx&<-) Hf. unfold remove_exchangeOrder, removeExchangeOrder.
  rewrite (bind_ok _ _ _ _ _ (account_cached _ _ _ Hx)). unfold removeExOrderMulti. rewrite Hf.
  unfold write, log, modS, mbind, ST_bind. rewrite Hx. eexists. split; [reflexivity|].
  eexists. split; [apply lookup_insert_eq|]. apply multi_find_Some in Hf as [_ <-]. by destruct x.
Qed.

Lemma remove_all_spec f s l :
  book_at s l → NoDup (trxid <$> l) → NoDup (trxid <$> f) → (∀ x, x ∈ f → ∃ y, y ∈ l ∧ trxid y = trxid x) →
  ∃ t, forM (trxid <$> f) remove_exchangeOrder s = (Ok tt, t) ∧ book_at t (erase_all f l).
Proof.
  intros Hb Hn Hf Hs. revert s l Hb Hn Hs. induction f as [|x f IH]; intros s l Hb Hn Hs; cbn; [by exists s|].
  csimpl in Hf. apply NoDup_cons in Hf as [Hx Hf]. destruct (Hs x) as (y&Hy&Ht); [left|].
  destruct (remove_exchangeOrder_spec (trxid x) s l y) as (s1&E1&Hb1); [done| |].
  { rewrite <-Ht. by apply multi_find_unique. }
  destruct (IH Hf s1 (multi_erase (trxid x) l)) as (s2&E2&Hb2); [done|by apply multi_erase_NoDup| |].
  { intros z Hz. destruct (Hs z) as (w&Hw&Hwt); [by right|]. exists w. split; [|done].
    apply elem_of_multi_erase. split; [done|]. intros E. apply Hx. rewrite <-E, Hwt.
    by apply list_elem_of_fmap_2. }
  exists s2. split; [|done]. rewrite (bind_ok _ _ _ _ _ E1). apply E2.
Qed.

(** ** The loops *)
Definition limit_result (od : ex_order) (p : u256) (fl : ex_order * Z) : result_order :=
  (set_data od fl.1 fl.2 (price fl.1)) <| r_old_price := p |>.
Definition market_result (od : ex_order) (fl : ex_order * Z) : result_order := set_data od fl.1 fl.2 (price fl.1).
Lemma reduce_wrap x n :
  0 <= n <= token_amount x → token_amount x < M256 → x <| token_amount ::= λ t, t [-] n |> = reduce n x.
Proof.
  intros Hn Hx. unfold reduce. destruct x. cbn in *. unfold upd, token_amount_field. cbn.
  rewrite w256_small; [done|]. unfold in256. lia.
Qed.

Lemma only_price_loop_spec od p a l res rem s b f q r :
  0 <= a < M256 → Forall order_ok l → book_at s b → match_amount a l = (f, q, r) →
  match q with
  | None => only_price_loop od p a l res rem s = (Ok (r, res ++ (limit_result od p <$> fills (f, q, r)), rem ++ (trxid <$> f)), s)
  | Some _ => (only_price_loop od p a l res rem s).1 = Undef
  end.
Proof.
  intros Ha Hl Hb. revert a f q r res rem s Ha Hb. induction Hl as [|x l Hx Hl IH]; intros a f q r res rem s Ha Hb.
  - cbn. intros [= <- <- <-]. cbn. by rewrite !app_nil_r.
  - cbn [match_amount only_price_loop]. destruct Hx as [Hxa _ _ _ _ _].
    destruct (Z.ltb_spec 0 a); [|intros [= <- <- <-]; cbn; by rewrite !app_nil_r].
    destruct (Z.leb_spec (token_amount x) a).
    + destruct (match_amount (a - token_amount x) l) as [[f' q'] r'] eqn:E. intros [= <- <- <-].
      rewrite w256_small by (unfold in256; lia).
      pose proof (IH (a - token_amount x) f' q' r' (res ++ [limit_result od p (x, token_amount x)]) (rem ++ [trxid x]) s
        ltac:(lia) Hb E) as Ht. destruct q'; [exact Ht|]. rewrite <-!app_assoc in Ht. exact Ht.
    + intros [= <- <- <-]. destruct (add_exchangeOrder_spec (x <| token_amount ::= λ t, t [-] a |>) s b Hb) as (t&Ht&_).
      by rewrite (bind_ok _ _ _ _ _ Ht).
Qed.

Lemma process_only_price_spec od l s b :
  0 < source_amount od < M256 → Forall order_ok l → l ≠ [] → book_at s b →
  NoDup (trxid <$> b) → NoDup (trxid <$> l) → (∀ x, x ∈ l → x ∈ b) →
  let m := match_amount (source_amount od) l in
  match m.1.2 with
  | None => ∃ t, process_only_price l od (price od) (source_amount od) s = (Ok (limit_result od (price od) <$> fills m), t)
      ∧ book_at t (if 0 <? rest m then upsert (od <| token_amount := rest m |>) (take_fills m b) else take_fills m b)
  | Some _ => (process_only_price l od (price od) (source_amount od) s).1 = Undef
  end.
Proof.
  intros Ha Hl Hne Hb Hnb Hnl Hsub. cbv zeta. destruct (match_amount (source_amount od) l) as [[f q] r] eqn:E.
  unfold process_only_price. rewrite bool_decide_eq_false_2 by done.
  pose proof (only_price_loop_spec od (price od) (source_amount od) l [] [] s b f q r ltac:(lia) Hl Hb E) as E1.
  cbn [fst snd]. destruct q as [xn|].
  { unfold mbind, ST_bind. destruct (only_price_loop _ _ _ _ _ _ _) as [o s1]. cbn in E1. by subst o. }
  rewrite (bind_ok _ _ _ _ _ E1). cbn [app].
  apply match_amount_spec in E as (_&_&_&[tl Ht]&_); [|lia|done].
  assert (NoDup (trxid <$> f)) as Hnf by (rewrite Ht, !fmap_app, !NoDup_app in Hnl; by destruct Hnl as (?&_)).
  destruct (remove_all_spec f s b) as (s2&E2&Hb2); [done..| |].
  { intros y Hy. exists y. split; [|done]. apply Hsub. rewrite Ht. apply elem_of_app. by left. }
  rewrite (bind_ok _ _ _ _ _ E2). unfold rest, when, take_fills. cbn [fst snd]. destruct (0 <? r).
  - destruct (add_exchangeOrder_spec (od <| token_amount := r |>) s2 _ Hb2) as (s3&E3&Hb3).
    rewrite (bind_ok _ _ _ _ _ E3). by exists s3.
  - by exists s2.
Qed.

Lemma all_price_sell_loop_spec od a l res s b f q r :
  0 <= a < M256 → Forall order_ok l → book_at s b → match_amount a l = (f, q, r) →
  NoDup (trxid <$> b) → NoDup (trxid <$> l) → (∀ x, x ∈ l → x ∈ b) →
  ∃ t, all_price_sell_loop od false a l res s = (Ok (res ++ (market_result od <$> fills (f, q, r))), t)
       ∧ book_at t (take_fills (f, q, r) b).
Proof.
  intros Ha Hl. revert a f q r res s b Ha. induction Hl as [|x l Hx Hl IH]; intros a f q r res s b Ha Hb.
  - cbn. intros [= <- <- <-] _ _ _. exists s. cbn. by rewrite !app_nil_r.
  - cbn [match_amount all_price_sell_loop]. destruct Hx as [Hxa _ _ _ _ _]. intros Hm Hnb Hnl Hsub.
    destruct (Z.ltb_spec 0 a); [|simplify_eq; exists s; cbn; by rewrite !app_nil_r].
    destruct (Z.leb_spec (token_amount x) a); destruct (Z.ltb_spec a (token_amount x)); try lia.
    + destruct (match_amount (a - token_amount x) l) as [[f' q'] r'] eqn:E. injection Hm as <- <- <-.
      csimpl in Hnl. apply NoDup_cons in Hnl as [Hxl Hnl].
      destruct (remove_exchangeOrder_spec (trxid x) s b x) as (s1&E1&Hb1); [done| |].
      { apply multi_find_unique; [done|]. apply Hsub. left. }
      cbn [when negb]. rewrite (bind_ok _ _ _ _ _ E1). rewrite w256_small by (unfold in256; lia).
      destruct (IH (a - token_amount x) f' q' r' (res ++ [market_result od (x, token_amount x)]) s1 (multi_erase (trxid x) b))
        as (t&Ht&Hb'); [lia|done|done|by apply multi_erase_NoDup|done| |].
      { intros y Hy. apply elem_of_multi_erase. split; [apply Hsub; by right|].
        intros Ey. apply Hxl. rewrite <-Ey. by apply list_elem_of_fmap_2. }
      exists t. split; [|done]. rewrite <-app_assoc in Ht. exact Ht.
    + simplify_eq. cbn [when negb]. rewrite reduce_wrap by lia.
      destruct (add_exchangeOrder_spec (reduce a x) s b Hb) as (t&Ht&Hb'). rewrite (bind_ok _ _ _ _ _ Ht).
      by exists t.
Qed.
Lemma u256_div_ok a b (s : State) : b ≠ 0 → u256_div a b s = (Ok (a / b), s).
Proof. intros Hb. unfold u256_div. by rewrite bool_decide_eq_false_2. Qed.

Lemma all_price_buy_loop_spec od v l res s b f q r :
  0 <= v < M256 → Forall order_ok l → book_at s b → match_value v l = (f, q, r) →
  NoDup (trxid <$> b) → NoDup (trxid <$> l) → (∀ x, x ∈ l → x ∈ b) →
  ∃ t, all_price_buy_loop od false v l res s = (Ok (res ++ (market_result od <$> fills (f, q, r))), t)
       ∧ book_at t (take_fills (f, q, r) b).
Proof.
  intros Hv Hl. revert v f q r res s b Hv. induction Hl as [|x l Hx Hl IH]; intros v f q r res s b Hv Hb.
  - cbn. intros [= <- <- <-] _ _ _. exists s. cbn. by rewrite !app_nil_r.
  - cbn [match_value all_price_buy_loop]. destruct Hx as [Hxa Hxp Hxv _ _ _]. intros Hm Hnb Hnl Hsub.
    destruct (Z.ltb_spec 0 v); [|simplify_eq; exists s; cbn; by rewrite !app_nil_r].
    cbv zeta. rewrite (w256_small (token_amount x * price x)) by (unfold in256; lia).
    destruct (Z.leb_spec (token_amount x * price x) v).
    + destruct (match_value (v - token_amount x * price x) l) as [[f' q'] r'] eqn:E. injection Hm as <- <- <-.
      csimpl in Hnl. apply NoDup_cons in Hnl as [Hxl Hnl].
      destruct (remove_exchangeOrder_spec (trxid x) s b x) as (s1&E1&Hb1); [done| |].
      { apply multi_find_unique; [done|]. apply Hsub. left. }
      cbn [when negb]. rewrite (bind_ok _ _ _ _ _ E1). rewrite w256_small by (unfold in256; lia).
      destruct (IH (v - token_amount x * price x) f' q' r' (res ++ [market_result od (x, token_amount x)]) s1
                  (multi_erase (trxid x) b)) as (t&Ht&Hb'); [lia|done|done|by apply multi_erase_NoDup|done| |].
      { intros y Hy. apply elem_of_multi_erase. split; [apply Hsub; by right|].
        intros Ey. apply Hxl. rewrite <-Ey. by apply list_elem_of_fmap_2. }
      exists t. split; [|done]. rewrite <-app_assoc in Ht. exact Ht.
    + rewrite (bind_ok _ _ _ _ _ (u256_div_ok v (price x) s ltac:(lia))).
      destruct (v / price x =? 0); simplify_eq; [exists s; cbn; by rewrite app_nil_r|].
      assert (0 <= v / price x <= token_amount x)
        by (split; [apply Z.div_pos; lia|apply Z.lt_le_incl, Z.div_lt_upper_bound; lia]).
      cbn [when negb]. rewrite reduce_wrap by lia.
      destruct (add_exchangeOrder_spec (reduce (v / price x) x) s b Hb) as (t&Ht&Hb').
      rewrite (bind_ok _ _ _ _ _ Ht). by exists t.
Qed.
(** A market buy that is only tried ([reset]) finds the same fills and writes nothing. *)
Lemma all_price_buy_loop_reset od v l res s f q r :
  0 <= v < M256 → Forall order_ok l → match_value v l = (f, q, r) →
  all_price_buy_loop od true v l res s = (Ok (res ++ (market_result od <$> fills (f, q, r))), s).
Proof.
  intros Hv Hl. revert v f q r res Hv. induction Hl as [|x l Hx Hl IH]; intros v f q r res Hv.
  - cbn. intros [= <- <- <-]. cbn. by rewrite !app_nil_r.
  - cbn [match_value all_price_buy_loop]. destruct Hx as [Hxa Hxp Hxv _ _ _]. intros Hm.
    destruct (Z.ltb_spec 0 v); [|simplify_eq; cbn; by rewrite !app_nil_r].
    cbv zeta. rewrite (w256_small (token_amount x * price x)) by (unfold in256; lia).
    destruct (Z.leb_spec (token_amount x * price x) v).
    + destruct (match_value (v - token_amount x * price x) l) as [[f' q'] r'] eqn:E. injection Hm as <- <- <-.
      cbn [when negb]. unfold mbind, ST_bind, mret, ST_ret. rewrite w256_small by (unfold in256; lia).
      rewrite (IH _ f' q' r'); [|lia|done]. by rewrite <-app_assoc.
    + rewrite (bind_ok _ _ _ _ _ (u256_div_ok v (price x) s ltac:(lia))).
      destruct (v / price x =? 0); simplify_eq; [cbn; by rewrite app_nil_r|]. done.
Qed.
End Book.

(** ** Reference matching *)

(** The resting orders an incoming order can trade with, best first. *)
Definition counter_side (o : ex_order) (l : list ex_order) : list ex_order :=
  if bool_decide (buy_type o = only_price) then
    if bool_decide (type o = buy) then buy_range (token_type o) (price o) l else sell_range (token_type o) (price o) l
  else if bool_decide (type o = buy) then buy_range (token_type o) (M256 - 1) l else sell_range (token_type o) 0 l.
Definition order_match (o : ex_order) (l : list ex_order) : list ex_order * option (ex_order * Z) * Z :=
  if bool_decide (buy_type o = only_price) then match_amount (source_amount o) (counter_side o l)
  else if bool_decide (type o = buy) then match_value (price o) (counter_side o l)
  else match_amount (token_amount o) (counter_side o l).
Definition results_of (o : ex_order) (l : list ex_order) : list result_order :=
  (if bool_decide (buy_type o = only_price) then limit_result o (price o) else market_result o)
    <$> fills (order_match o l).
Definition book_after (o : ex_order) (l : list ex_order) : list ex_order :=
  let m := order_match o l in
  if bool_decide (buy_type o = only_price) && (0 <? rest m)
  then upsert (o <| token_amount := rest m |>) (take_fills m l) else take_fills m l.

Definition uncrossed (l : list ex_order) : Prop :=
  ∀ b s, b ∈ l → s ∈ l → type b = buy → type s = sell → price b < price s.
Record book_ok (l : list ex_order) : Prop := {
  bk_ids : NoDup (trxid <$> l);
  bk_orders : Forall order_ok l;
  bk_uncrossed : uncrossed l
}.

(** What [pendingOrders] hands to the book: a limit order, or a market order with an
    amount of BRC to spend (buy) or of cookies to sell (sell). *)
Definition incoming_ok (o : ex_order) : Prop :=
  token_type o = FUEL ∧ (type o = buy ∨ type o = sell) ∧
  if bool_decide (buy_type o = only_price) then order_ok o ∧ source_amount o = token_amount o
  else if bool_decide (type o = buy) then 0 < price o < M256
  else 0 < token_amount o < M256.

(** *** Ranges *)
Lemma elem_of_buy_range p l x :
  order_ok x → x ∈ buy_range FUEL p l ↔ x ∈ l ∧ type x = sell ∧ price x <= p.
Proof.
  intros [_ Hp _ Ht Hty Htk]. unfold buy_range. rewrite elem_of_index_range. unfold key_price_less.
  rewrite Htk, !lexb_cons_false. destruct Hty as [Hty|Hty]; rewrite Hty; cbn; intuition (try done; try lia).
Qed.
Lemma elem_of_sell_range p l x :
  order_ok x → x ∈ sell_range FUEL p l ↔ x ∈ l ∧ type x = buy ∧ p <= price x.
Proof.
  intros [_ Hp _ Ht Hty Htk]. unfold sell_range. rewrite elem_of_index_range. unfold key_price_greater.
  rewrite Htk, !lexb_cons_false. destruct Hty as [Hty|Hty]; rewrite Hty; cbn; intuition (try done; try lia).
Qed.

Lemma filter_NoDup_ids (P : ex_order → Prop) `{∀ x, Decision (P x)} l :
  NoDup (trxid <$> l) → NoDup (trxid <$> filter P l).
Proof.
  induction l as [|x l IH]; [done|]. csimpl. rewrite NoDup_cons. intros [Hx Hl]. rewrite filter_cons.
  case_decide; [|auto]. csimpl. apply NoDup_cons. split; [|auto]. contradict Hx.
  apply list_elem_of_fmap in Hx as (y&->&[_ Hy]%list_elem_of_filter). by apply list_elem_of_fmap_2.
Qed.
Lemma index_range_NoDup key lo hi l : NoDup (trxid <$> l) → NoDup (trxid <$> index_range key lo hi l).
Proof. intros Hl. unfold index_range. apply filter_NoDup_ids. by rewrite index_perm. Qed.
Lemma counter_side_NoDup o l : NoDup (trxid <$> l) → NoDup (trxid <$> counter_side o l).
Proof. intros Hl. unfold counter_side. repeat case_bool_decide; by apply index_range_NoDup. Qed.
Lemma counter_side_sub o l x : x ∈ counter_side o l → x ∈ l.
Proof. unfold counter_side. repeat case_bool_decide; by intros [? _]%elem_of_index_range. Qed.
Lemma counter_side_ok o l : Forall order_ok l → Forall order_ok (counter_side o l).
Proof. rewrite !Forall_forall. eauto using counter_side_sub. Qed.

Section Matching.
Context `{CR : Crypto, CF : Config, ST_ : !StorageTrie, RN : Rng, CO : !AccountCodec}.

Lemma incoming_nonzero o : incoming_ok o → (token_amount o =? 0) && (price o =? 0) = false.
Proof.
  intros (_&_&H). apply andb_false_iff. repeat case_bool_decide; [destruct H as [[[? _] _ _ _ _ _] _]|..];
    destruct (Z.eqb_spec (token_amount o) 0), (Z.eqb_spec (price o) 0); auto; lia.
Qed.

(** What a computation that starts by fetching the book does with it. *)
Lemma bind_book {A} s l s1 (g : list ex_order → list ex_order) (k : list ex_order → M A) :
  getExOrder s = (Ok l, s1) → ((book ← getExOrder; mret (g book)) ≫= k) s = k (g l) s1.
Proof. intros Hg. by rewrite bind_assoc, (bind_ok _ _ _ _ _ Hg). Qed.

Lemma process_limit o l s1 :
  book_at s1 l → NoDup (trxid <$> l) → Forall order_ok l → order_ok o → source_amount o = token_amount o →
  let m := match_amount (source_amount o) (counter_side o l) in
  match m.1.2 with
  | None => ∃ t, process_only_price (counter_side o l) o (price o) (source_amount o) s1
         = (Ok (limit_result o (price o) <$> fills m), t)
    ∧ book_at t (if 0 <? rest m then upsert (o <| token_amount := rest m |>) (take_fills m l) else take_fills m l)
  | Some _ => (process_only_price (counter_side o l) o (price o) (source_amount o) s1).1 = Undef
  end.
Proof.
  intros Hb Hn Hl Ho Hsrc. cbv zeta. destruct (decide (counter_side o l = [])) as [E|E].
  - rewrite E. unfold process_only_price. rewrite bool_decide_eq_true_2 by done.
    destruct (add_exchangeOrder_spec o s1 l Hb) as (t&Ht&Hbt). rewrite (bind_ok _ _ _ _ _ Ht).
    exists t. split; [done|]. cbn. rewrite Hsrc. destruct (Z.ltb_spec 0 (token_amount o)); [by destruct o|].
    destruct Ho. lia.
  - apply process_only_price_spec; try done.
    + rewrite Hsrc. apply Ho.
    + by apply counter_side_ok.
    + by apply counter_side_NoDup.
    + apply counter_side_sub.
Qed.

(** A limit order that ends in a fill of part of a resting order. *)
Definition ends_in_part (o : ex_order) (l : list ex_order) : Prop := buy_type o = only_price ∧ is_Some (order_match o l).1.2.
Lemma insert_operation_part o s l s1 :
  getExOrder s = (Ok l, s1) → NoDup (trxid <$> l) → Forall order_ok l → incoming_ok o →
  ends_in_part o l → (insert_operation o false s).1 = Undef.
Proof.
  intros Hg Hn Hl Hin [Hm [xn Hq]]. pose proof (getExOrder_book _ _ _ Hg) as Hb.
  unfold insert_operation. rewrite (incoming_nonzero o Hin). destruct Hin as (Htk&Hty&Ho).
  unfold order_match in Hq. rewrite Hm in *. rewrite !(bool_decide_eq_true_2 (only_price = only_price)) in * by done. cbn [andb].
  destruct Ho as [Hoo Hsrc]. pose proof (process_limit o l s1 Hb Hn Hl Hoo Hsrc) as Hp. cbv zeta in Hp. rewrite Hq in Hp.
  rewrite <-Hp. unfold counter_side at 1. rewrite Hm, (bool_decide_eq_true_2 (only_price = only_price)) by done.
  destruct (bool_decide (type o = buy)); unfold get_buy_itr, get_sell_itr; by rewrite (bind_book _ _ _ _ _ Hg).
Qed.
(** The executable matching implements the reference matching. *)
Lemma insert_operation_spec o s l s1 :
  getExOrder s = (Ok l, s1) → NoDup (trxid <$> l) → Forall order_ok l → incoming_ok o →
  buy_type o = only_price ∨ counter_side o l ≠ [] → ¬ ends_in_part o l →
  ∃ t, insert_operation o false s = (Ok (results_of o l), t) ∧ book_at t (book_after o l).
Proof.
  intros Hg Hn Hl Hin Hm Hno. pose proof (getExOrder_book _ _ _ Hg) as Hb.
  pose proof (counter_side_NoDup o l Hn) as Hcn. pose proof (counter_side_ok o l Hl) as Hcl.
  pose proof (counter_side_sub o l) as Hcs.
  unfold insert_operation. rewrite (incoming_nonzero o Hin). destruct Hin as (Htk&Hty&Ho).
  unfold results_of, book_after, order_match. cbn [andb].
  destruct (bool_decide (buy_type o = only_price)) eqn:Eb; cbn [andb].
  - destruct Ho as [Hoo Hsrc]. pose proof (process_limit o l s1 Hb Hn Hl Hoo Hsrc) as Hp. cbv zeta in Hp.
    apply bool_decide_eq_true in Eb as Eb'. assert ((match_amount (source_amount o) (counter_side o l)).1.2 = None) as Hq.
    { apply eq_None_not_Some. intros Hs. apply Hno. split; [done|]. unfold order_match. by rewrite Eb. }
    rewrite Hq in Hp. destruct Hp as (t&Ht&Hbt). exists t. split; [|done]. rewrite <-Ht. unfold counter_side at 1. rewrite Eb.
    destruct (bool_decide (type o = buy)); unfold get_buy_itr, get_sell_itr; by rewrite (bind_book _ _ _ _ _ Hg).
  - destruct Hm as [Hm|Hm]; [by rewrite bool_decide_eq_true_2 in Eb|].
    destruct (bool_decide (type o = buy)) eqn:Et.
    + destruct (match_value (price o) (counter_side o l)) as [[f q] r] eqn:E.
      destruct (all_price_buy_loop_spec o (price o) (counter_side o l) [] s1 l f q r) as (t&Ht&Hbt); [lia|done..|].
      cbn [app] in Ht. exists t. split; [|done]. rewrite <-Ht. unfold get_buy_itr. rewrite (bind_book _ _ _ _ _ Hg).
      unfold counter_side in *. rewrite Eb, Et in *. by rewrite bool_decide_eq_false_2.
    + destruct (match_amount (token_amount o) (counter_side o l)) as [[f q] r] eqn:E.
      destruct (all_price_sell_loop_spec o (token_amount o) (counter_side o l) [] s1 l f q r) as (t&Ht&Hbt); [lia|done..|].
      cbn [app] in Ht. exists t. split; [|done]. rewrite <-Ht. unfold get_sell_itr. rewrite (bind_book _ _ _ _ _ Hg).
      unfold counter_side in *. rewrite Eb, Et in *. by rewrite bool_decide_eq_false_2.
Qed.

(** A market order finds nothing to trade with. *)
Lemma insert_operation_empty o s l s1 b :
  getExOrder s = (Ok l, s1) → incoming_ok o → buy_type o = all_price → counter_side o l = [] →
  (b = true → type o = buy) → insert_operation o b s = (Throw all_price_operation_error, s1).
Proof.
  intros Hg Hin Hm Hc Hb. unfold insert_operation. rewrite (incoming_nonzero o Hin).
  unfold counter_side in Hc. rewrite Hm in *. cbn [bool_decide] in *.
  rewrite (bool_decide_eq_true_2 (all_price = all_price)) by done.
  rewrite bool_decide_eq_false_2 in Hc by done. rewrite (bool_decide_eq_false_2 (all_price = only_price)) by done.
  destruct (bool_decide (type o = buy)) eqn:Et.
  - rewrite andb_false_r. unfold get_buy_itr. rewrite (bind_book _ _ _ _ _ Hg), Hc. done.
  - destruct b; [by rewrite bool_decide_eq_true_2 in Et by auto|]. cbn [andb].
    unfold get_sell_itr. rewrite (bind_book _ _ _ _ _ Hg), Hc. done.
Qed.

(** Trying a market buy reports its fills and leaves the book alone. *)
Lemma insert_operation_try o s l s1 :
  getExOrder s = (Ok l, s1) → Forall order_ok l → incoming_ok o → buy_type o = all_price → type o = buy →
  counter_side o l ≠ [] → insert_operation o true s = (Ok (results_of o l), s1).
Proof.
  intros Hg Hl Hin Hm Ht Hc. pose proof (counter_side_ok o l Hl) as Hcl.
  unfold insert_operation. rewrite (incoming_nonzero o Hin). destruct Hin as (_&_&Hp).
  unfold results_of, order_match. destruct (match_value (price o) (counter_side o l)) as [[f q] r] eqn:E.
  unfold counter_side in *. rewrite Hm, Ht in *. rewrite !(bool_decide_eq_false_2 (all_price = only_price)) in * by done.
  rewrite !(bool_decide_eq_true_2 (buy = buy)) in * by done. rewrite (bool_decide_eq_true_2 (all_price = all_price)) by done.
  cbn [andb negb]. unfold get_buy_itr. rewrite (bind_book _ _ _ _ _ Hg), bool_decide_eq_false_2 by done.
  apply (all_price_buy_loop_reset _ _ _ []); [lia|done|done].
Qed.
End Matching.

(** ** What a match does to the book *)
Lemma order_match_spec o l f q r :
  Forall order_ok l → incoming_ok o → order_match o l = (f, q, r) →
  (∃ tl, counter_side o l = f ++ part_order q ++ tl) ∧ (∀ x n, q = Some (x, n) → 0 < n < token_amount x) ∧
  (buy_type o = only_price → 0 < r → f = counter_side o l ∧ q = None) ∧
  (buy_type o = only_price → r <= source_amount o).
Proof.
  intros Hl (_&_&Ho). pose proof (counter_side_ok o l Hl) as Hc. unfold order_match.
  case_bool_decide as Eb; [|case_bool_decide as Et].
  - destruct Ho as [[Ha _ _ _ _ _] Hs]. intros (Es&?&?&?&?)%match_amount_spec; [|lia|done].
    split_and!; try done. intros _.
    enough (0 <= sumZ token_amount f + part_amount q) by lia.
    assert (0 <= sumZ token_amount f).
    { apply sumZ_nonneg. intros x Hx. rewrite Forall_forall in Hc. destruct H1 as [tl Ht].
      destruct (Hc x) as [? _ _ _ _ _]; [|lia]. rewrite Ht. apply elem_of_app. by left. }
    destruct q as [[x n]|]; cbn; [destruct (H2 x n eq_refl); lia|lia].
  - intros (?&?&?&?)%match_value_spec; [|lia|done]. split_and!; done.
  - intros (?&?&?&?&?)%match_amount_spec; [|lia|done]. split_and!; done.
Qed.

Lemma order_ok_reduce n x : order_ok x → 0 < n < token_amount x → order_ok (reduce n x).
Proof.
  intros [Ha Hp Hv Ht Hy Hk] Hn. destruct x as [t sd p ta sa ct ty tk bt].
  cbn [token_amount price create_time type token_type] in *. split; cbn; try done; [lia|nia].
Qed.

Section BookInvariant.
Context (o : ex_order) (l f : list ex_order) (q : option (ex_order * Z)) (r : Z).
Context (Hl : book_ok l) (Ho : incoming_ok o) (Hm : order_match o l = (f, q, r)).

Lemma elem_of_take_fills x :
  x ∈ take_fills (f, q, r) l →
  (x ∈ l ∧ ∀ y, y ∈ f → trxid x ≠ trxid y) ∨ (∃ y n, q = Some (y, n) ∧ x = reduce n y).
Proof.
  unfold take_fills. cbn [fst snd]. destruct q as [[y n]|].
  - intros [->|[Hx _]]%elem_of_upsert; [by right; exists y, n|left]. by apply elem_of_erase_all.
  - intros Hx. left. by apply elem_of_erase_all.
Qed.
Lemma filled_in x : x ∈ f ++ part_order q → x ∈ counter_side o l.
Proof using Hl Ho Hm.
  destruct (order_match_spec o l f q r) as ((tl&->)&_); [apply Hl|done..|].
  rewrite app_assoc. intros Hx. apply elem_of_app. by left.
Qed.
(** Every order that is left was in the book, possibly with a larger amount. *)
Lemma take_fills_origin x :
  x ∈ take_fills (f, q, r) l → order_ok x ∧ ∃ y, y ∈ l ∧ trxid x = trxid y ∧ type x = type y ∧ price x = price y.
Proof using Hl Ho Hm.
  destruct Hl as [Hn Hok Hu]. rewrite Forall_forall in Hok.
  intros [[Hx _]|(y&n&Eq&->)]%elem_of_take_fills; [split; [auto|by exists x]|].
  assert (y ∈ l) as Hy.
  { apply (counter_side_sub o), filled_in. rewrite Eq. apply elem_of_app. right. left. }
  destruct (order_match_spec o l f q r) as (_&Hq&_); [by apply Forall_forall|done..|].
  split; [apply order_ok_reduce; eauto|]. exists y. by destruct y.
Qed.

Lemma take_fills_ok : book_ok (take_fills (f, q, r) l).
Proof using Hl Ho Hm.
  split.
  - unfold take_fills. cbn [fst snd]. destruct q as [[x n]|]; [apply upsert_NoDup|]; apply erase_all_NoDup, Hl.
  - apply Forall_forall. intros x Hx. by apply take_fills_origin.
  - intros b s Hb Hs Tb Ts. destruct (take_fills_origin b Hb) as (_&b'&Hb'&_&Eb&->).
    destruct (take_fills_origin s Hs) as (_&s'&Hs'&_&Es&->). apply (bk_uncrossed l Hl); congruence.
Qed.

(** When a limit order is not filled, nothing it could trade with is left. *)
Lemma no_counter_left x :
  buy_type o = only_price → 0 < r → x ∈ take_fills (f, q, r) l →
  (type o = buy → type x = sell → price o < price x) ∧ (type o = sell → type x = buy → price x < price o).
Proof using Hl Ho Hm.
  intros Hb Hr Hx. destruct (order_match_spec o l f q r) as (_&_&Hrem&_); [apply Hl|done..|].
  destruct (Hrem Hb Hr) as [Hf Hq].
  apply elem_of_take_fills in Hx as [[Hxl Hne]|(y&n&Eq&_)]; [|by rewrite Hq in Eq].
  assert (x ∉ counter_side o l) as Hc by (intros Hc; apply (Hne x); [by rewrite Hf|done]).
  pose proof (bk_orders l Hl) as Hok. rewrite Forall_forall in Hok. specialize (Hok x Hxl).
  unfold counter_side in Hc. rewrite (proj1 Ho), bool_decide_eq_true_2 in Hc by done.
  split; intros To Tx; rewrite To in Hc.
  - rewrite bool_decide_eq_true_2 in Hc by done. rewrite elem_of_buy_range in Hc by done.
    apply Z.lt_nge. intros Hle. by apply Hc.
  - rewrite bool_decide_eq_false_2 in Hc by done. rewrite elem_of_sell_range in Hc by done.
    apply Z.lt_nge. intros Hle. by apply Hc.
Qed.

Lemma remainder_ok : buy_type o = only_price → 0 < r → order_ok (o <| token_amount := r |>).
Proof using Hl Ho Hm.
  intros Hb Hr. destruct (order_match_spec o l f q r) as (_&_&_&Hle); [apply Hl|done..|]. specialize (Hle Hb).
  destruct Ho as (Htk&Hty&Hp). rewrite bool_decide_eq_true_2 in Hp by done. destruct Hp as [[Ha Hp Hv Ht _ _] Hs].
  destruct o as [t sd p ta sa ct ty tk bt]. cbn in *. split; cbn; try done; [lia|nia].
Qed.
End BookInvariant.

Lemma book_after_ok o l : book_ok l → incoming_ok o → book_ok (book_after o l).
Proof.
  intros Hl Ho. unfold book_after. destruct (order_match o l) as [[f q] r] eqn:Hm. unfold rest. cbn [snd].
  pose proof (take_fills_ok o l f q r Hl Ho Hm) as Ht.
  destruct (bool_decide (buy_type o = only_price)) eqn:Eb; [|done]. apply bool_decide_eq_true in Eb.
  cbn [andb]. destruct (Z.ltb_spec 0 r) as [Hr|]; [|done].
  pose proof (remainder_ok o l f q r Hl Ho Hm Eb Hr) as Hrem.
  pose proof (no_counter_left o l f q r Hl Ho Hm) as Hno.
  split.
  - apply upsert_NoDup, Ht.
  - apply Forall_forall. intros x [->|[Hx _]]%elem_of_upsert; [done|]. pose proof (bk_orders _ Ht) as H.
    rewrite Forall_forall in H. auto.
  - intros b s Hb Hs Tb Ts.
    apply elem_of_upsert in Hb as [->|[Hb _]]; apply elem_of_upsert in Hs as [->|[Hs _]].
    + by rewrite Tb in Ts.
    + destruct (Hno s Eb Hr Hs) as [H _]. by apply H.
    + destruct (Hno b Eb Hr Hb) as [_ H]. by apply H.
    + by apply (bk_uncrossed _ Ht).
Qed.

(** ** Amounts and priority *)
Lemma fills_sum f q r : sumZ snd (fills (f, q, r)) = sumZ token_amount f + part_amount q.
Proof.
  unfold fills. rewrite sumZ_app. cbn [fst snd]. f_equal.
  - induction f as [|x f IH]; [done|]. cbn [fmap list_fmap]. rewrite !sumZ_cons. by f_equal.
  - destruct q as [[x n]|]; cbn; rewrite ?sumZ_cons, ?sumZ_nil; cbn; lia.
Qed.
Lemma fills_value f q r :
  sumZ (λ p, p.2 * price p.1) (fills (f, q, r)) = sumZ (λ x, token_amount x * price x) f + part_value q.
Proof.
  unfold fills. rewrite sumZ_app. cbn [fst snd]. f_equal.
  - induction f as [|x f IH]; [done|]. cbn [fmap list_fmap]. rewrite !sumZ_cons. by f_equal.
  - destruct q as [[x n]|]; cbn; rewrite ?sumZ_cons, ?sumZ_nil; cbn; lia.
Qed.

(** Nothing is filled beyond what the order asks for, and what is asked for is filled
    or left over. *)
Lemma match_conserves o l :
  Forall order_ok l → incoming_ok o →
  let m := order_match o l in
  0 <= rest m ∧
  (if bool_decide (buy_type o = only_price) then source_amount o = sumZ snd (fills m) + rest m
   else if bool_decide (type o = buy) then price o = sumZ (λ p, p.2 * price p.1) (fills m) + rest m
   else token_amount o = sumZ snd (fills m) + rest m).
Proof.
  intros Hl (_&_&Ho). pose proof (counter_side_ok o l Hl) as Hc. cbv zeta. unfold order_match.
  case_bool_decide as Eb; [|case_bool_decide as Et].
  - destruct (match_amount _ _) as [[f q] r] eqn:E. destruct Ho as [[Ha _ _ _ _ _] Hs].
    apply match_amount_spec in E as (Es&Hr&_); [|lia|done]. rewrite fills_sum. unfold rest. cbn. lia.
  - destruct (match_value _ _) as [[f q] r] eqn:E. apply match_value_spec in E as (Es&Hr&_); [|lia|done].
    rewrite fills_value. unfold rest. cbn. lia.
  - destruct (match_amount _ _) as [[f q] r] eqn:E. apply match_amount_spec in E as (Es&Hr&_); [|lia|done].
    rewrite fills_sum. unfold rest. cbn. lia.
Qed.

Lemma elem_of_fills f q r x n :
  (x, n) ∈ fills (f, q, r) ↔ (x ∈ f ∧ n = token_amount x) ∨ q = Some (x, n).
Proof.
  unfold fills. cbn [fst snd]. rewrite elem_of_app, list_elem_of_fmap. split.
  - intros [(y&[= -> ->]&Hy)|Hq]; [by left|right].
    destruct q as [p|]; [|by apply elem_of_nil in Hq]. apply list_elem_of_singleton in Hq. by subst.
  - intros [[Hx ->]| ->]; [left; by exists x|right]. cbn. left.
Qed.

(** Each fill is with a resting order of the other side, within its amount and within
    the limit. *)
Lemma fill_within o l x n :
  Forall order_ok l → incoming_ok o → (x, n) ∈ fills (order_match o l) →
  x ∈ l ∧ 0 < n <= token_amount x ∧
  (type o = buy → type x = sell ∧ (buy_type o = only_price → price x <= price o)) ∧
  (type o = sell → type x = buy ∧ (buy_type o = only_price → price o <= price x)).
Proof.
  intros Hl Ho Hx. destruct (order_match o l) as [[f q] r] eqn:Hm.
  destruct (order_match_spec o l f q r) as ([tl Ht]&Hq&_); [done..|].
  assert (x ∈ counter_side o l ∧ (n = token_amount x ∨ 0 < n < token_amount x)) as [Hc Hn].
  { rewrite Ht. apply elem_of_fills in Hx as [[Hx ->]| ->].
    - split; [apply elem_of_app; by left|by left].
    - split; [|right; by apply Hq]. apply elem_of_app. right. left. }
  pose proof (counter_side_sub _ _ _ Hc) as Hxl. rewrite Forall_forall in Hl. specialize (Hl x Hxl).
  split; [done|]. split; [destruct Hl; lia|]. destruct Ho as (Htk&_&_). unfold counter_side in Hc. rewrite Htk in Hc.
  split; intros To; rewrite To in Hc.
  - rewrite !(bool_decide_eq_true_2 (buy = buy)) in Hc by done. case_bool_decide as Eb;
      apply elem_of_buy_range in Hc as (_&Hty&Hp); done.
  - rewrite !(bool_decide_eq_false_2 (sell = buy)) in Hc by done. case_bool_decide as Eb;
      apply elem_of_sell_range in Hc as (_&Hty&Hp); done.
Qed.

(** [y] is served before [x]: a better price, or the same price and an earlier time. *)
Definition better (o y x : ex_order) : Prop :=
  if bool_decide (type o = buy)
  then price y < price x ∨ (price y = price x ∧ create_time y < create_time x)
  else price x < price y ∨ (price y = price x ∧ create_time y < create_time x).

Lemma counter_side_sorted o l :
  StronglySorted (nlt (key_lt (if bool_decide (type o = buy) then key_price_less else key_price_greater)))
    (counter_side o l).
Proof.
  unfold counter_side. repeat case_bool_decide; apply filter_sorted; by apply (index_sorted _ 4).
Qed.
Lemma better_key o l x y :
  Forall order_ok l → incoming_ok o → x ∈ counter_side o l → y ∈ counter_side o l → better o y x →
  key_lt (if bool_decide (type o = buy) then key_price_less else key_price_greater) y x = true.
Proof.
  intros Hl (Htk&Hty&_) Hx Hy. unfold counter_side in *. rewrite Htk in *.
  assert (order_ok x ∧ order_ok y) as [Hox Hoy].
  { rewrite Forall_forall in Hl. repeat case_bool_decide; apply elem_of_index_range in Hx as [? _];
      apply elem_of_index_range in Hy as [? _]; auto. }
  unfold better. destruct Hty as [To|To]; rewrite To in *.
  - rewrite !(bool_decide_eq_true_2 (buy = buy)) in * by done.
    assert (type x = sell ∧ type y = sell) as [Tx Ty]
      by (split; case_bool_decide; [apply elem_of_buy_range in Hx|apply elem_of_buy_range in Hx|
            apply elem_of_buy_range in Hy|apply elem_of_buy_range in Hy]; naive_solver).
    intros Hb. unfold key_lt, key_price_less. rewrite Tx, Ty, (ok_token _ Hox), (ok_token _ Hoy). cbn. lia.
  - rewrite !(bool_decide_eq_false_2 (sell = buy)) in * by done.
    assert (type x = buy ∧ type y = buy) as [Tx Ty]
      by (split; case_bool_decide; [apply elem_of_sell_range in Hx|apply elem_of_sell_range in Hx|
            apply elem_of_sell_range in Hy|apply elem_of_sell_range in Hy]; naive_solver).
    intros Hb. unfold key_lt, key_price_greater. rewrite Tx, Ty, (ok_token _ Hox), (ok_token _ Hoy). cbn. lia.
Qed.

Lemma priority o l f q r x n y :
  Forall order_ok l → incoming_ok o → order_match o l = (f, q, r) →
  (x, n) ∈ fills (f, q, r) → y ∈ counter_side o l → better o y x → y ∈ f.
Proof.
  intros Hl Ho Hm Hx Hy Hb. destruct (order_match_spec o l f q r) as ([tl Ht]&_); [done..|].
  pose proof (counter_side_sorted o l) as Hs.
  assert (x ∈ f ++ part_order q) as Hxf.
  { apply elem_of_fills in Hx as [[Hx _]| ->]; apply elem_of_app; [by left|right; left]. }
  assert (x ∈ counter_side o l) as Hxc by (rewrite Ht, app_assoc; apply elem_of_app; by left).
  pose proof (better_key o l x y Hl Ho Hxc Hy Hb) as Hk.
  rewrite Ht in Hy, Hs. rewrite app_assoc in Hy, Hs. apply elem_of_app in Hy as [Hy|Hy].
  - apply elem_of_app in Hy as [Hy|Hy]; [done|exfalso].
    apply elem_of_app in Hxf as [Hxf|Hxf].
    + assert (nlt (key_lt (if bool_decide (type o = buy) then key_price_less else key_price_greater)) x y) as Hno.
      { apply StronglySorted_app_1_l in Hs. by apply (StronglySorted_app_1_elem_of _ f (part_order q)). }
      unfold nlt in Hno. congruence.
    + destruct q as [[z m]|]; [|by apply elem_of_nil in Hy]. cbn in Hxf, Hy.
      apply list_elem_of_singleton in Hxf, Hy. subst.
      unfold better in Hb. case_bool_decide; lia.
  - exfalso. pose proof (StronglySorted_app_1_elem_of _ _ _ x y Hs Hxf Hy) as Hno. unfold nlt in Hno. congruence.
Qed.
