(* ===== verification/Exchange.v ===== *)
(** * Trading (libbrcdchain/State.cpp: pendingOrders and what it calls)

    Placing orders, settling the fills the book returns, the system's automatic
    counter-orders, cancelling, and the automatic exchange that pays for a
    transfer. *)
From stdpp Require Import base gmap list sorting.
From Stdlib Require Import ZArith Lia.
From S2P Require Import Prelude Rlp Config Objects Interfaces Account ChainState StateOps Exdb Operations.
Open Scope Z_scope.

Section Exchange.
Context `{CR : Crypto, CF : Config, ST_ : !StorageTrie, RN : Rng, CO : !AccountCodec}.

(** ** Settling one fill *)
Definition is_fill_type (b : order_buy_type) : bool :=
  bool_decide (b = only_price) || bool_decide (b = all_price).

Definition pendingOrderTransfer (_from _to : Address) (_toPendingOrderNum _toPendingOrderPrice : u256)
    (ty : order_type) (tk : order_token_type) (b : order_buy_type) : M unit :=
  let num := _toPendingOrderNum in
  let cost := (num [*] _toPendingOrderPrice) / PRICEPRECISION in
  if bool_decide (ty = buy) && bool_decide (tk = FUEL) && is_fill_type b then
    let _fromFee := if bool_decide (_from ≠ systemAddress) then num / MATCHINGFEERATIO else 0 in
    let _toFee := if bool_decide (_to ≠ systemAddress) then cost / MATCHINGFEERATIO else 0 in
    subBRC _from cost ;;
    addBRC _to (cost [-] _toFee) ;;
    subFBalance _to num ;;
    addBalance _from (num [-] _fromFee) ;;
    addBRC PdSystemAddress _toFee ;;
    addBalance PdSystemAddress _fromFee
  else if bool_decide (ty = sell) && bool_decide (tk = FUEL) && is_fill_type b then
    let _fromFee := if bool_decide (_from ≠ systemAddress) then cost / MATCHINGFEERATIO else 0 in
    let _toFee := if bool_decide (_to ≠ systemAddress) then num / MATCHINGFEERATIO else 0 in
    subBalance _from num ;;
    addBalance _to (num [-] _toFee) ;;
    subFBRC _to cost ;;
    addBRC _from (cost [-] _fromFee) ;;
    addBRC PdSystemAddress _fromFee ;;
    addBalance PdSystemAddress _toFee
  else mret tt.

Definition transfer_result (r : result_order) : M unit :=
  pendingOrderTransfer (r_sender r) (r_acceptor r) (r_amount r) (r_price r)
    (r_type r) (r_token_type r) (r_buy_type r).

(** [insert_operation] inside [try { } catch (boost::exception const&)]. *)
Definition insert_or_fail (o : ex_order) : M (list result_order) :=
  try_catch (insert_operation o false) (λ _, true) (λ _, throw pendingorderAllPriceFiled).

(** [std::set<order_type>] as the set of the codes; iteration is ascending. *)
Definition order_set_iter (s : gset Z) : list order_type :=
  order_type_of <$> merge_sort Z.le (elements s).

(** ** The system's counter-orders *)
Definition system_threshold : u256 := 10000000000000.

Definition system_order (p num : u256) (now : int64) (ty : order_type) : M ex_order :=
  x ← deref ExdbSystemAddress;
  let _rlp := encode (Items [rlp_unsigned now; rlp_unsigned (len (m_exChangeOrder x)); rlp_int num]) in
  mret (mkExOrder (sha3 _rlp) systemAddress p num num now ty FUEL only_price).

(** The loop that prepares the orders; [None] is the early [return]. *)
Fixpoint system_orders (now : int64) (tys : list order_type) (acc : list ex_order * u256 * u256)
    : M (option (list ex_order * u256 * u256)) :=
  match tys with
  | [] => mret (Some acc)
  | it :: tys =>
      let '(_v, _needBrc, _needCookie) := acc in
      if bool_decide (it = buy) then
        b ← BRC systemAddress;
        if b <? system_threshold then mret None
        else
          b ← BRC systemAddress;
          let _num := (((b [*] PRICEPRECISION) / BUYCOOKIE) / 10000) [*] 10000 in
          o ← system_order BUYCOOKIE _num now buy;
          system_orders now tys (_v ++ [o], (_num [*] BUYCOOKIE) / PRICEPRECISION, _needCookie)
      else if bool_decide (it = sell) then
        b ← balance systemAddress;
        if b <? system_threshold then mret None
        else
          _num ← balance systemAddress;
          o ← system_order SELLCOOKIE _num now sell;
          system_orders now tys (_v ++ [o], _needBrc, _num)
      else system_orders now tys acc
  end.

Record system_acc := mkSys { sys_brc : u256; sys_cookie : u256; sys_auto : gset Z }.
Definition system_result (acc : system_acc) (r : result_order) : M system_acc :=
  transfer_result r ;;
  let '(mkSys b c a) := acc in
  let only := bool_decide (r_buy_type r = only_price) && bool_decide (r_token_type r = FUEL) in
  mret (mkSys
    (if only && bool_decide (r_type r = buy)
     then b [-] ((r_amount r [*] r_old_price r) / PRICEPRECISION) else b)
    (if only && bool_decide (r_type r = sell) then c [-] r_amount r else c)
    ({[ order_type_code (r_type r) ]} ∪ a)).
Definition system_place (acc : system_acc) (o : ex_order) : M system_acc :=
  _result_v ← insert_or_fail o; foldM system_result acc _result_v.

Fixpoint systemAutoPendingOrder (fuel : nat) (_set : gset Z) (now : int64) : M unit :=
  match fuel with
  | O => out_of_fuel
  | S fuel =>
      o ← system_orders now (order_set_iter _set) ([], 0, 0);
      match o with
      | None => mret tt
      | Some (_v, _needBrc, _needCookie) =>
          '(mkSys _needBrc _needCookie _autoSet) ← foldM system_place (mkSys _needBrc _needCookie ∅) _v;
          when (0 <? _needCookie)
            (subBalance systemAddress _needCookie ;; addFBalance systemAddress _needCookie) ;;
          when (negb (_needBrc =? 0))
            (subBRC systemAddress _needBrc ;; addFBRC systemAddress _needBrc) ;;
          if bool_decide (_autoSet = ∅) then mret tt else systemAutoPendingOrder fuel _autoSet now
      end
  end.

(** ** Placing orders *)
Record pend_acc := mkPend {
  total_free_brc : Z;       (** [bigint] *)
  total_free_balance : Z;   (** [bigint] *)
  _exCookieNum : u256;
  _exBRCNum : u256;
  p_set : gset Z }.

Definition order_of (a : Address) (now : int64) (h : h256) (pen : pendingorder_opearaion) : ex_order :=
  let _price :=
    if bool_decide (m_Pendingorder_buy_type pen = all_price) && bool_decide (m_Pendingorder_type pen = buy)
    then m_Pendingorder_price pen [*] PRICEPRECISION else m_Pendingorder_price pen in
  mkExOrder h a _price (m_Pendingorder_num pen) (m_Pendingorder_num pen) now
    (m_Pendingorder_type pen) (m_Pendingorder_Token_type pen) (m_Pendingorder_buy_type pen).

Definition pend_prepare (a : Address) (now : int64) (h : h256) (acc : list ex_order * Z * Z)
    (op : operation) : M (list ex_order * Z * Z) :=
  let '(_v, brc, bal) := acc in
  pen ← cast_or InvalidDynamic (as_pendingOrder op);
  let only := bool_decide (m_Pendingorder_buy_type pen = only_price)
              && bool_decide (m_Pendingorder_Token_type pen = FUEL) in
  mret (_v ++ [order_of a now h pen],
        if only && bool_decide (m_Pendingorder_type pen = buy)
        then brc + (m_Pendingorder_num pen [*] m_Pendingorder_price pen) / PRICEPRECISION else brc,
        if only && bool_decide (m_Pendingorder_type pen = sell) then bal + m_Pendingorder_num pen else bal).

Definition pend_result (acc : pend_acc) (r : result_order) : M pend_acc :=
  transfer_result r ;;
  let '(mkPend brc bal ck exb s) := acc in
  let fuel := bool_decide (r_token_type r = FUEL) in
  let isbuy := bool_decide (r_type r = buy) in
  let issell := bool_decide (r_type r = sell) in
  let only := bool_decide (r_buy_type r = only_price) in
  let all := bool_decide (r_buy_type r = all_price) in
  mret (mkPend
    (if only && isbuy && fuel then brc - (r_amount r [*] r_old_price r) / PRICEPRECISION else brc)
    (if only && issell && fuel then bal - r_amount r else bal)
    (if isbuy && fuel && all then ck [+] (r_amount r [-] r_amount r / MATCHINGFEERATIO) else ck)
    (if isbuy && fuel && all then exb [+] (r_amount r [*] r_price r) / PRICEPRECISION else exb)
    (if bool_decide (r_acceptor r = systemAddress) then {[ order_type_code (r_type r) ]} ∪ s else s)).
Definition pend_place (acc : pend_acc) (o : ex_order) : M pend_acc :=
  _result_v ← insert_or_fail o; foldM pend_result acc _result_v.

(** [fuel] bounds the recursion of [systemAutoPendingOrder]. *)
Definition pendingOrders (fuel : nat) (a : Address) (now : int64) (h : h256) (ops : list operation)
    (_blockNum : int64) : M (u256 * u256) :=
  '(_v, brc, bal) ← foldM (pend_prepare a now h) ([], 0, 0) ops;
  '(mkPend brc bal ck exb _set) ← foldM pend_place (mkPend brc bal 0 0 ∅) _v;
  if (bal <? 0) || (brc <? 0) then throw pendingorderAllPriceFiled
  else
    when (0 <? bal) (subBalance a (w256 bal) ;; addFBalance a (w256 bal)) ;;
    when (negb (brc =? 0)) (subBRC a (w256 brc) ;; addFBRC a (w256 brc)) ;;
    when (negb (bool_decide (_set = ∅)) && (_blockNum <? cancelAutoPendingOrderHeight))
      (systemAutoPendingOrder fuel _set now) ;;
    mret (ck, exb).

(** ** Cancelling *)
Definition release (val : order) : M unit :=
  let cost := (o_price_token val).2 [*] (o_price_token val).1 in
  if bool_decide (o_type val = buy) && bool_decide (o_token_type val = FUEL) then
    subFBRC (o_sender val) (cost / PRICEPRECISION) ;;
    addBRC (o_sender val) (cost / PRICEPRECISION)
  else if bool_decide (o_type val = sell) && bool_decide (o_token_type val = FUEL) then
    subFBalance (o_sender val) (o_price_token val).2 ;;
    addBalance (o_sender val) (o_price_token val).2
  else mret tt.
Definition cancelPendingOrders (ops : list operation) : M unit :=
  _hashV ← foldM (λ v op, c ← cast_or InvalidDynamic (as_cancel op); mret (v ++ [m_hash c])) [] ops;
  forM _hashV (λ h,
    val ← try_catch (cancel_order_by_trxid h) is_dev_exception (λ _, throw CancelPendingOrderFiled);
    release val).

Definition LIMITE_NUMBER : uint32 := 50.
Definition cancelSysOrder : M unit :=
  l ← get_order_by_type buy FUEL LIMITE_NUMBER;
  forM l (λ o,
    if bool_decide (e_sender o = systemAddress) then
      val ← cancel_order_by_trxid (e_trxid o);
      let cost := ((o_price_token val).2 [*] (o_price_token val).1) / PRICEPRECISION in
      subFBRC (o_sender val) cost ;; addBRC (o_sender val) cost
    else mret tt).

(** [freezeAmount] (unscaled products, unlike [pendingOrders]). *)
Definition freezeAmount (a : Address) (num p : u256) (ty : order_type) (tk : order_token_type)
    (b : order_buy_type) : M unit :=
  let brc v := subBRC a v ;; addFBRC a v in
  let bal v := subBalance a v ;; addFBalance a v in
  match ty, tk, b with
  | buy, BRC_token, only_price => brc (num [*] p)
  | buy, BRC_token, all_price => brc p
  | buy, FUEL, only_price => bal (num [*] p)
  | buy, FUEL, all_price => bal p
  | sell, BRC_token, (only_price | all_price) => brc num
  | sell, FUEL, (only_price | all_price) => bal num
  | _, _, _ => mret tt
  end.

(** ** Automatic exchange *)
Definition Balancededuction : Z := 1.
Definition Transferdeduction : Z := 2.
Definition transferAutoEx (fuel : nat) (ops : list operation) (_trxid : h256) (_timeStamp : int64)
    (_baseGas : u256) (_blockNum : int64) : M unit :=
  forM ops (λ op,
    o ← cast_unchecked (as_transferAutoEx op);
    let pd := mkPendingOp 3 (ae_from o) buy FUEL all_price 0 (m_autoExNum o) in
    '(ck, exb) ← pendingOrders fuel (ae_from o) _timeStamp _trxid [OpPendingOrder pd] _blockNum;
    if m_autoExType o =? Balancededuction then transferBRC (ae_from o) (ae_to o) (m_transferNum o)
    else if m_autoExType o =? Transferdeduction then
      transferBRC (ae_from o) (ae_to o) (m_transferNum o [-] exb) ;;
      transferBalance (ae_from o) (ae_to o) (ck [-] _baseGas)
    else mret tt).

Definition execute_transfer_BRCs (a : Address) (ops : list operation) : M unit :=
  forM ops (λ op,
    p ← cast_or InvalidDynamic (as_transcation op);
    transferBRC a (to_to p) (m_Transcation_numbers p)).

(** The genesis sell order of the system account. *)
Definition systemPendingorder (_time : int64) : M Account :=
  _ ← account VoteAddress;
  let systenCookie := 1450000000000000 in
  _ ← try_catch (insert_operation
        (mkExOrder 1 systemAddress 100000000 systenCookie systenCookie _time sell FUEL only_price) false)
      (λ _, true) (λ _, exit1);
  deref ExdbSystemAddress.
End Exchange.
