(* ===== verification/Vote.v ===== *)
(** * Voting, snapshots and elections (libbrcdchain/State.cpp)

    Ballots are bought with BRC and delegated to candidates; each account keeps
    a snapshot of its votes per voting round, the fee account keeps one of the
    fees, and a new round replaces the block producers.  A pointer obtained from
    [account] and used after other calls of [account] is re-read from the cache:
    the entry may have been evicted meanwhile, which is undefined behaviour. *)
From stdpp Require Import base gmap list.
From Stdlib Require Import ZArith Lia.
From S2P Require Import Prelude Rlp Config Objects Interfaces Account ChainState StateOps Operations.
Open Scope Z_scope.

(** [VoteType] (libbrcdchain/DposVote.h) *)
Definition EBuyVote : Z := 1.
Definition ESellVote : Z := 2.
Definition ELoginCandidate : Z := 3.
Definition ELogoutCandidate : Z := 4.
Definition EDelegate : Z := 5.
Definition EUnDelegate : Z := 6.

Section Vote.
Context `{CR : Crypto, CF : Config, ST_ : !StorageTrie, RN : Rng, CO : !AccountCodec}.

(** [account(a)], creating [Account(0)] when there is none. *)
Definition account_or_new (a : Address) : M unit :=
  o ← account a;
  match o with
  | Some _ => mret tt
  | None => createAccount a (Account_ballot 0) ;; _ ← account a; mret tt
  end.

Definition vote_data : Address → M (list PollData) := read [] m_vote_data.
Definition poll_data (a _recv_addr : Address) : M PollData :=
  read PollData_default (acc_poll_data _recv_addr) a.
Definition minerMapping : Address → M (Address * Address) := read (0, 0) m_mappingAddress.
Definition replaceMiner : Address → M (Address * Address) := minerMapping.

(** ** Delegating votes *)
Definition add_vote (_id : Address) (p_data : PollData) : M unit :=
  let _recivedAddr := m_addr p_data in
  let _value := m_poll p_data in
  o ← account _id;
  rec_o ← account _recivedAddr;
  sys_o ← account SysElectorAddress;
  match o, rec_o, sys_o with
  | Some _, Some _, Some _ =>
      a ← reread _id;
      if m_ballot a <? _value then throw NotEnoughBallot
      else
        sys_a ← reread SysElectorAddress;
        let poll_data := acc_poll_data _recivedAddr sys_a in
        write _id (acc_addBallot (0 [-] _value)) ;;
        write_opt _id (acc_addVote (_recivedAddr, _value)) ;;
        write _recivedAddr (acc_addPoll _value) ;;
        rec_a ← reread _recivedAddr;
        write_opt SysElectorAddress (acc_set_system_poll
          (mkPoll _recivedAddr (a_poll rec_a)
             (if 0 <? m_time poll_data then m_time poll_data else m_time p_data))) ;;
        when (negb (_value =? 0))
          (log (ChVote _id (_recivedAddr, 0 [-] _value)) ;;
           log (ChSystemAddressPoll _id poll_data) ;;
           log (ChBallot _id (0 [-] _value)) ;;
           log (ChPoll _recivedAddr _value))
  | _, _, _ => throw InvalidAddressAddr
  end.

Definition sub_vote (_id : Address) (p_data : PollData) : M unit :=
  let _recivedAddr := m_addr p_data in
  rec_o ← account _recivedAddr;
  o ← account _id;
  sys_o ← account SysElectorAddress;
  match o, rec_o, sys_o with
  | Some _, Some _, Some _ =>
      a ← reread _id;
      if m_poll (acc_poll_data _recivedAddr a) <? m_poll p_data then throw NotEnoughVoteLog
      else
        sys_a ← reread SysElectorAddress;
        let poll_data := acc_poll_data _recivedAddr sys_a in
        rec_a ← reread _recivedAddr;
        let _value := if a_poll rec_a <? m_poll p_data then a_poll rec_a else m_poll p_data in
        write _recivedAddr (acc_addPoll (0 [-] _value)) ;;
        write_opt _id (acc_addVote (_recivedAddr, 0 [-] _value)) ;;
        write _id (acc_addBallot _value) ;;
        rec_a ← reread _recivedAddr;
        write_opt SysElectorAddress (acc_set_system_poll
          (mkPoll _recivedAddr (a_poll rec_a)
             (if 0 <? m_time poll_data then m_time poll_data else m_time p_data))) ;;
        when (negb (_value =? 0))
          (log (ChVote _id (_recivedAddr, 0 [-] _value)) ;;
           log (ChSystemAddressPoll _id poll_data) ;;
           log (ChBallot _id _value) ;;
           log (ChPoll _recivedAddr (0 [-] _value)))
  | _, _, _ => throw InvalidAddressAddr
  end.

(** ** Candidates *)
Definition addSysVoteDate (_sysAddress _id : Address) : M unit :=
  sys_o ← account _sysAddress;
  o ← account _id;
  match sys_o with
  | None => n ← requireAccountStartNonce; createAccount _sysAddress (Account_nb n 0)
  | Some _ => mret tt
  end ;;
  match o with
  | None => throw InvalidAddressAddr
  | Some _ =>
      write _sysAddress (acc_manageSysVote _id true 0 0) ;;
      log (ChSysVoteData _sysAddress (_id, true))
  end.
Definition subSysVoteDate (_sysAddress _id : Address) : M unit :=
  sys_o ← account _sysAddress;
  o ← account _id;
  match sys_o, o with
  | None, _ => throw InvalidSysAddress
  | _, None => throw InvalidAddressAddr
  | Some _, Some a =>
      write _sysAddress (acc_manageSysVote _id false (a_poll a) 0) ;;
      log (ChSysVoteData _sysAddress (_id, false))
  end.

(** ** Income of block producers *)
Definition addCooikeIncomeNum (a : Address) (_value : u256) : M unit :=
  (o ← account a;
   match o with
   | Some _ => write a (acc_addCooikeIncome _value)
   | None => throw InvalidAddressAddr
   end) ;;
  log_amount (ChCooikeIncomeNum a _value) _value.
(** The guard rejects every account whose income is not zero. *)
Definition subCookieIncomeNum (a : Address) (_value : u256) : M unit :=
  if _value =? 0 then mret tt
  else
    o ← account a;
    match o with
    | Some x => if negb (m_CooikeIncomeNum x =? 0) then throw NotEnoughCash
                else addCooikeIncomeNum a (0 [-] _value)
    | None => throw NotEnoughCash
    end.
Definition setCookieIncomeNum (a : Address) (_value : u256) : M unit :=
  original ← read 0 m_CooikeIncomeNum a; addCooikeIncomeNum a (_value [-] original).

Definition addBlockReward (a : Address) (_blockNum _rewardNum : u256) : M unit :=
  o ← account a;
  match o with
  | Some _ => mret tt
  | None => n ← requireAccountStartNonce; createAccount a (Account_nb n 0)
  end ;;
  write a (acc_addBlockRewardRecoding (_blockNum, _rewardNum)) ;;
  when (negb (_rewardNum =? 0)) (log (ChBlockReward a (_blockNum, _rewardNum))).

(** ** Snapshots of a voter *)
Definition try_new_vote_snapshot (a : Address) (_block_num : u256) : M unit :=
  let _pair := getVotingCycle _block_num in
  if bool_decide (_pair.2 = ERRORSTAGE) then mret tt
  else
    account_or_new a ;;
    x ← reread a;
    let ret_pair := acc_get_no_record_snapshot _pair.1 _pair.2 x in
    if negb ret_pair.1 then mret tt
    else
      let _vote_sna := m_vote_sapshot x in
      write a (acc_try_new_snapshot ret_pair.2) ;;
      when (m_latest_round _vote_sna =? 0)
        (y ← reread a;
         let poll_data := m_vote_data y in
         write a clear_vote_data ;;
         subPoll a (a_poll y) ;;
         log (ChMinnerSnapshot a poll_data)) ;;
      log (ChNewVoteSnapshot a _vote_sna) ;;
      y ← reread a;
      log (ChCooikeIncomeNum a (0 [-] m_CooikeIncomeNum y)) ;;
      setCookieIncomeNum a 0.

Definition trySnapshotWithMinerMapping (a : Address) (_block_num : u256) : M unit :=
  let _pair := getVotingCycle _block_num in
  if bool_decide (_pair.2 = ERRORSTAGE) then mret tt
  else
    when (newChangeHeight <=? _block_num)
      (m ← minerMapping a;
       when (bool_decide (m.1 ≠ 0) && bool_decide (m.1 ≠ a) && bool_decide (m.2 = a))
         (try_new_vote_snapshot m.1 _block_num)) ;;
    try_new_vote_snapshot a _block_num.

(** [execute_vote]; [now] is [info.timestamp()], [number] is [info.number()]. *)
Definition execute_vote (a : Address) (ops : list operation) (number now : int64) : M unit :=
  forM ops (λ op,
    p ← cast_or InvalidDynamic (as_vote op);
    let _type := m_vote_type p in
    if _type =? EBuyVote then
      trySnapshotWithMinerMapping a number ;; transferBallotBuy a (m_vote_numbers p)
    else if _type =? ESellVote then
      trySnapshotWithMinerMapping a number ;; transferBallotSell a (m_vote_numbers p)
    else if _type =? ELoginCandidate then
      trySnapshotWithMinerMapping a number ;; addSysVoteDate SysElectorAddress a
    else if _type =? ELogoutCandidate then
      trySnapshotWithMinerMapping a number ;; subSysVoteDate SysElectorAddress a
    else if _type =? EDelegate then
      trySnapshotWithMinerMapping a number ;; trySnapshotWithMinerMapping (vo_to p) number ;;
      add_vote a (mkPoll (vo_to p) (m_vote_numbers p) now)
    else if _type =? EUnDelegate then
      trySnapshotWithMinerMapping a number ;; trySnapshotWithMinerMapping (vo_to p) number ;;
      sub_vote a (mkPoll (vo_to p) (m_vote_numbers p) now)
    else mret tt).

(** ** The snapshot of the matching fees *)
Definition map_miner (p : PollData) : M PollData :=
  m ← minerMapping (m_addr p);
  mret (if bool_decide (m.1 ≠ 0) then p <| m_addr := m.1 |> else p).

Definition tryRecordFeeSnapshot (_blockNum : int64) : M unit :=
  let _pair := getVotingCycle _blockNum in
  account_or_new PdSystemAddress ;;
  a ← reread PdSystemAddress;
  let _fee := m_couplingSystemFee a in
  let _rounds := m_rounds _fee in
  if negb (_rounds <? _pair.1) then mret tt
  else
    let no_creaters := match m_sorted_creaters _fee !! _rounds with
                       | None => true | Some v => bool_decide (v = []) end in
    if negb (_rounds =? 0) && no_creaters then mret tt
    else if (get_total_poll _fee _rounds 7 =? 0) && (2 <? _pair.1) then mret tt
    else
      _pollDataV ← vote_data SysVarlitorAddress;
      let _snapshotTotalPoll :=
        foldl (λ t p, t [+] m_poll p) 0 (take (Z.to_nat minner_rank_num) _pollDataV) in
      a ← reread PdSystemAddress;
      let remainder_brc := if _snapshotTotalPoll =? 0 then 0 else m_BRC a mod _snapshotTotalPoll in
      let remainder_ballance := if _snapshotTotalPoll =? 0 then 0 else m_balance a mod _snapshotTotalPoll in
      vote_datas ← vote_data SysVarlitorAddress;
      vote_datas ← (if newChangeHeight <=? _blockNum
                    then foldM (λ acc d, d' ← map_miner d; mret (acc ++ [d'])) [] vote_datas
                    else mret vote_datas);
      a ← reread PdSystemAddress;
      write PdSystemAddress (acc_tryRecordSnapshot _pair.1 (m_BRC a [-] remainder_brc)
        (m_balance a [-] remainder_ballance) vote_datas _blockNum) ;;
      setBRC PdSystemAddress remainder_brc ;;
      setBalance PdSystemAddress remainder_ballance ;;
      log (ChCoupingSystemFeeSnapshot PdSystemAddress _fee).

(** ** Block records *)
Definition last_block_record (_id : Address) : M int64 :=
  read 0 (acc_last_records _id) SysBlockCreateRecordAddress.

(** The times of the other producers, relative to the first block's. *)
Definition set_other_records (_id : Address) (t : int64) (varlitor_time : Z) (l : list PollData)
    (x : Account) : Account :=
  let offset := match find_addr _id l with Some (i, _) => Z.of_nat i | None => len l end in
  foldl (λ x p,
      let '(index, val) := p in
      if bool_decide (m_addr val ≠ _id)
      then acc_set_create_record (m_addr val, t + (Z.of_nat index - offset) * varlitor_time) x
      else x) x (imap pair l).
Definition set_last_block_record (_id : Address) (value : int64 * int64) (varlitor_time : Z) : M unit :=
  account_or_new SysBlockCreateRecordAddress ;;
  a ← reread SysBlockCreateRecordAddress;
  let _time := acc_last_records _id a in
  write SysBlockCreateRecordAddress (acc_set_create_record (_id, value.2)) ;;
  when (value.1 =? 1)
    (o ← account SysVarlitorAddress;
     match o with
     | None => mret tt
     | Some v => write SysBlockCreateRecordAddress
                   (set_other_records _id value.2 varlitor_time (m_vote_data v))
     end) ;;
  log (ChLastCreateRecord _id (_id, _time)).
Definition block_record : M (gmap Address int64) := read ∅ m_block_records SysBlockCreateRecordAddress.

(** ** Elections *)

(** One candidate: a producer while places are left, then a standby. *)
Definition elect_step (acc : list PollData * list PollData * u256 * u256) (val : PollData)
    : list PollData * list PollData * u256 * u256 :=
  let '(varlitors, standbys, var_num, standby_num) := acc in
  if bool_decide (var_num ≠ 0) then (varlitors ++ [val], standbys, var_num [-] 1, standby_num)
  else if bool_decide (standby_num ≠ 0) then (varlitors, standbys ++ [val], var_num, standby_num [-] 1)
  else acc.
Definition map_candidate (p : PollData) : M PollData :=
  m ← minerMapping (m_addr p);
  mret (if bool_decide (m.1 ≠ 0) && bool_decide (m.2 = m_addr p) then p <| m_addr := m.1 |> else p).

Definition try_newrounds_count_vote (curr previous : int64) : M unit :=
  let previous_pair := getVotingCycle previous in
  let curr_pair := getVotingCycle curr in
  if curr_pair.1 <=? previous_pair.1 then mret tt
  else
    tryRecordFeeSnapshot curr ;;
    o ← account SysElectorAddress;
    match o with
    | None => mret tt
    | Some _ =>
        account_or_new SysVarlitorAddress ;;
        account_or_new SysCanlitorAddress ;;
        a ← reread SysElectorAddress;
        let p_data := sort_greater (m_vote_data a) in
        '(varlitors, standbys, _, _) ←
          foldM (λ acc val,
            val ← (if newChangeHeight <=? curr then map_candidate val else mret val);
            mret (elect_step acc val)) ([], [], varlitorNum, standbyNum) p_data;
        if bool_decide (varlitors = []) then mret tt
        else
          account_or_new SysMinerSnapshotAddress ;;
          varlitor_a ← reread SysVarlitorAddress;
          standby_a ← reread SysCanlitorAddress;
          minersanp_a ← reread SysMinerSnapshotAddress;
          log (ChCoupingSystemFeeSnapshot SysMinerSnapshotAddress (m_couplingSystemFee minersanp_a)) ;;
          write SysMinerSnapshotAddress (add_new_rounds_miner_sapshot previous_pair.1
            (m_vote_data varlitor_a ++ m_vote_data standby_a)) ;;
          when ((getVotingCycle 0).1 <? previous_pair.1)
            (log (ChMinnerSnapshot SysVarlitorAddress (m_vote_data varlitor_a)) ;;
             log (ChMinnerSnapshot SysCanlitorAddress (m_vote_data standby_a)) ;;
             write SysVarlitorAddress (set_vote_data varlitors) ;;
             write SysCanlitorAddress (set_vote_data standbys))
    end.
Definition get_miner_snapshot : M (gmap u256 (list PollData)) :=
  read ∅ (λ x, m_sorted_creaters (m_couplingSystemFee x)) SysMinerSnapshotAddress.
End Vote.
