(* ===== verification/Income.v ===== *)
(** * Income of voters and block producers (libbrcdchain/State.cpp)

    Receiving the block fees and the matching fees of past voting rounds, and the
    one-off dividend. *)
From stdpp Require Import base gmap list.
From Stdlib Require Import ZArith Lia.
From S2P Require Import Prelude Rlp Config Objects Interfaces Account ChainState StateOps Operations Vote.
Open Scope Z_scope.

Definition RBlockFeeIncome : Z := 1.
Definition RPdFeeIncome : Z := 2.

(** [map.find(k)->second]: undefined when there is no such key. *)
Definition map_at {S V} (m : gmap Z V) (k : Z) : ST S V :=
  match m !! k with Some v => mret v | None => undef end.

Section Income.
Context `{CR : Crypto, CF : Config, ST_ : !StorageTrie, RN : Rng, CO : !AccountCodec}.

(** ** Block fees *)

(** The node's own part of [fee]: what is left after half of it is split
    evenly over [n] votes. *)
Definition node_part (fee n : u256) : u256 := fee [-] ((fee / 2 / n) [*] n).
(** The part of one voter with [v] of the [n] votes. *)
Definition vote_part (fee n v : u256) : u256 := (fee / 2 / n) [*] v.

(** The fee of round [r + 1]: from the snapshot when that round is over, the
    running income otherwise. *)
Definition round_fee (s : VoteSnapshot) (running : u256) (r cur : u256) : u256 :=
  if r [+] 1 <? cur then default 0 (m_blockSummaryHistory s !! (r [+] 1)) else running.

(** The entry of [_totalMap] for a vote of [_addr]. *)
Definition add_total (x : Address) (v : u256) (m : gmap Address (u256 * u256)) : gmap Address (u256 * u256) :=
  match m !! x with
  | None => <[x := (v, v)]> m
  | Some p => <[x := (p.1, p.2 [+] v)]> m
  end.

Definition block_fee_voted (cur : u256) (_blockNum : int64) (round : u256)
    (_totalMap : gmap Address (u256 * u256)) (vote : Address * u256) : M (gmap Address (u256 * u256)) :=
  o ← account vote.1;
  trySnapshotWithMinerMapping vote.1 _blockNum ;;
  match o with
  | None => undef
  | Some _ =>
      p ← reread vote.1;
      let snap := m_vote_sapshot p in
      _pollNum ← map_at (m_pollNumHistory snap) round;
      if 0 <? _pollNum then
        let fee := round_fee snap (m_CooikeIncomeNum p) round cur in
        mret (add_total vote.1 (vote_part fee _pollNum vote.2) _totalMap)
      else mret _totalMap
  end.

Definition block_fee_round (_addr : Address) (_blockNum : int64) (_receivedCookies : ReceivedCookies)
    (_votesnapshot : VoteSnapshot) (_cookieFee : u256) (it : u256 * gmap Address u256) : M u256 :=
  let cur := (getVotingCycle _blockNum).1 in
  let round := it.1 in
  _pollNum ← map_at (m_pollNumHistory _votesnapshot) round;
  a ← reread _addr;
  let _totalMap :=
    if 0 <? _pollNum then
      let _pollFee := round_fee _votesnapshot (m_CooikeIncomeNum a) round cur in
      {[ _addr := (_pollFee, node_part _pollFee _pollNum) ]}
    else ∅ in
  _totalMap ← foldM (block_fee_voted cur _blockNum round) _totalMap (map_iter it.2);
  foldM (λ fee t,
    let _receivedNum :=
      match rc_received _receivedCookies !! (round [+] 1) with
      | Some m => match m !! t.1 with Some p => p.2 | None => 0 end
      | None => 0
      end in
    write _addr (acc_addSetreceivedCookie (round [+] 1) t.1 t.2) ;;
    mret (fee [+] (t.2.2 [-] _receivedNum))) _cookieFee (map_iter _totalMap).

Definition receivingBlockFeeIncome (_addr : Address) (_blockNum : int64) : M u256 :=
  a ← deref _addr;
  let _receivedCookies := m_received_cookies a in
  let _votesnapshot := m_vote_sapshot a in
  let _numberofrounds := getvoteRound (rc_numberofRound _receivedCookies) in
  _cookieFee ← foldM (block_fee_round _addr _blockNum _receivedCookies _votesnapshot) 0
                 (map_from (_numberofrounds [-] 1) (m_voteDataHistory _votesnapshot));
  addBalance _addr _cookieFee ;;
  write _addr (acc_updateNumofround (getVotingCycle _blockNum).1) ;;
  log (ChReceiveCookies _addr _receivedCookies) ;;
  mret _cookieFee.

(** ** Matching fees *)

(** The first [minner_rank_num] producers, under the address they started with. *)
Definition current_miners (_blockNum : int64) : M (list PollData) :=
  l ← vote_data SysVarlitorAddress;
  foldM (λ acc val,
    if newChangeHeight <=? _blockNum then val' ← map_candidate val; mret (acc ++ [val'])
    else mret (acc ++ [val])) [] (take (Z.to_nat minner_rank_num) l).

Record pd_acc := mkPd {
  pd_brcs : u256; pd_cookies : u256; pd_update : bool;
  fee_temp : CouplingSystemfee; old_summary : u256 * u256 }.

(** One producer of a round; [summary] is (brc, cookies). *)
Definition pd_creater (_addr : Address) (i : u256) (received_sanp : CouplingSystemfee)
    (summary : u256 * u256) (_totalPoll : u256) (vote_log : gmap Address u256)
    (acc : pd_acc) (val : PollData) : pd_acc :=
  let n := m_poll val in
  if n =? 0 then acc
  else if bool_decide (_addr ≠ m_addr val) && negb (map_count vote_log (m_addr val)) then acc
  else
    let node_summary_cookies := (summary.2 / _totalPoll) [*] n in
    let node_summary_brcs := (summary.1 / _totalPoll) [*] n in
    let _old_get := match cf_received_cookies received_sanp !! i with
                    | Some m => default (0, 0) (m !! m_addr val) | None => (0, 0) end in
    if (node_summary_cookies <=? _old_get.2) && (node_summary_brcs <=? _old_get.1) then acc
    else
      let super x := if bool_decide (_addr = m_addr val) then 0 [+] node_part x n else 0 in
      let voter x y := match vote_log !! m_addr val with Some v => y [+] vote_part x n v | None => y end in
      let _income_brcs := voter node_summary_brcs (super node_summary_brcs) in
      let _income_cookies := voter node_summary_cookies (super node_summary_cookies) in
      mkPd
        (if _old_get.1 <? _income_brcs then pd_brcs acc [+] (_income_brcs [-] _old_get.1) else pd_brcs acc)
        (if _old_get.2 <? _income_cookies then pd_cookies acc [+] (_income_cookies [-] _old_get.2)
         else pd_cookies acc)
        (pd_update acc || (_old_get.1 <? _income_brcs) || (_old_get.2 <? _income_cookies))
        (up_received_cookies_brcs i (m_addr val) (_income_brcs, _income_cookies) summary (fee_temp acc))
        (0, 0).

(** One round; the second component is the local copy of the system's
    snapshot, in which [operator[]] may create an empty entry. *)
Definition pd_round (_addr : Address) (_blockNum : int64) (received_sanp : CouplingSystemfee)
    (vote_sanp : VoteSnapshot) (cur : u256) (now : list PollData * u256 * (u256 * u256))
    (st : pd_acc * CouplingSystemfee) (i : u256) : pd_acc * CouplingSystemfee :=
  let '(acc, system_sanp) := st in
  let '(now_miner, now_total_poll, now_total) := now in
  let is_now := i =? cur in
  match m_voteDataHistory vote_sanp !! (i - 1) with
  | None => st
  | Some vote_log =>
      if negb (map_count (m_Feesnapshot system_sanp) i) && negb is_now then st
      else if negb (map_count (m_sorted_creaters system_sanp) (i - 1)) && negb is_now then st
      else
        let creaters := default [] (m_sorted_creaters system_sanp !! i) in
        let system_sanp' := if is_now then system_sanp
                            else system_sanp <| m_sorted_creaters ::= <[i := creaters]> |> in
        let _totalPoll := if is_now then now_total_poll
                          else get_total_poll system_sanp i (Z.to_nat minner_rank_num) in
        let summary := if is_now then now_total else default (0, 0) (m_Feesnapshot system_sanp !! i) in
        let check_creater :=
          if is_now then now_miner
          else if newChangeHeight <=? _blockNum then take (Z.to_nat minner_rank_num) creaters
          else creaters in
        if bool_decide (summary = old_summary acc) then
          (mkPd (pd_brcs acc) (pd_cookies acc) (pd_update acc) (fee_temp acc) (0, 0), system_sanp')
        else if _totalPoll =? 0 then (acc, system_sanp')
        else (foldl (pd_creater _addr i received_sanp summary _totalPoll vote_log) acc check_creater,
              system_sanp')
  end.

Definition anytime_receivingPdFeeIncome (_addr : Address) (_blockNum : int64) (_is_update : bool)
    : M (u256 * u256) :=
  o ← account _addr;
  so ← account PdSystemAddress;
  match o, so with
  | Some _, Some _ =>
      a ← reread _addr;
      systemAccount ← reread PdSystemAddress;
      let received_sanp := m_couplingSystemFee a in
      let system_sanp := m_couplingSystemFee systemAccount in
      let vote_sanp := m_vote_sapshot a in
      let cur := (getVotingCycle _blockNum).1 in
      now_miner ← current_miners _blockNum;
      let now_total_poll := foldl (λ t p, t [+] m_poll p) 0 now_miner in
      systemAccount ← reread PdSystemAddress;
      let now := (now_miner, now_total_poll, (m_BRC systemAccount, m_balance systemAccount)) in
      let start_round := if bool_decide (m_numofrounds received_sanp ≠ 0)
                         then m_numofrounds received_sanp else 1 in
      let '(acc, _) :=
        foldl (pd_round _addr _blockNum received_sanp vote_sanp cur now)
          (mkPd 0 0 false received_sanp (m_total_summary received_sanp), system_sanp)
          (seqZ start_round (cur + 1 - start_round)) in
      when (pd_update acc && _is_update)
        (a ← reread _addr;
         log (ChCoupingSystemFeeSnapshot PdSystemAddress (m_couplingSystemFee a)) ;;
         write _addr (setCouplingSystemFeeSnapshot ((fee_temp acc) <| m_numofrounds := cur |>)) ;;
         write _addr (acc_addBRC (pd_brcs acc)) ;;
         write _addr (acc_addBalance (pd_cookies acc))) ;;
      mret (pd_brcs acc, pd_cookies acc)
  | _, _ => throw UnknownAccount
  end.

(** ** Receiving income *)
Definition receivingIncome (_addr : Address) (ops : list operation) (_blockNum : int64) : M unit :=
  trySnapshotWithMinerMapping _addr _blockNum ;;
  forM ops (λ op,
    o ← cast_or receivingincomeFiled (as_receiving op);
    let ty := m_receivingType o in
    if _blockNum <? newChangeHeight then
      if ty =? RBlockFeeIncome then _ ← receivingBlockFeeIncome _addr _blockNum; mret tt
      else if ty =? RPdFeeIncome then _ ← anytime_receivingPdFeeIncome _addr _blockNum true; mret tt
      else mret tt
    else
      miner_mapping ← minerMapping _addr;
      let mapping_addr := if bool_decide (miner_mapping.1 = 0) then _addr else miner_mapping.1 in
      if ty =? RBlockFeeIncome then
        _ ← receivingBlockFeeIncome _addr _blockNum;
        when (bool_decide (mapping_addr ≠ _addr))
          (ret ← receivingBlockFeeIncome mapping_addr _blockNum;
           when (0 <? ret) (addBalance _addr ret ;; subBalance mapping_addr ret))
      else if ty =? RPdFeeIncome then
        _ ← anytime_receivingPdFeeIncome _addr _blockNum true;
        when (bool_decide (mapping_addr ≠ _addr))
          (p ← anytime_receivingPdFeeIncome mapping_addr _blockNum true;
           when ((0 <? p.1) || (0 <? p.2))
             (addBalance _addr p.2 ;; addBRC _addr p.1 ;;
              subBalance mapping_addr p.2 ;; subBRC mapping_addr p.1))
      else mret tt).

(** ** Dividends *)
Definition first_round_votes : M (list PollData) :=
  m ← get_miner_snapshot; mret (default [] (m !! FIRSTROUND)).

(** [testDividend] pays each master node its table entry, and its voters their share. *)
Definition testCalculateMasterNodeDividend (_masterNodeVotes _masterNodeDividend : gmap Address u256) : M unit :=
  forM (map_iter _masterNodeDividend) (λ node,
    match _masterNodeVotes !! node.1 with
    | Some v => q ← u256_div (node.2 / 2) v; addBalance node.1 (node.2 [-] (q [*] v))
    | None => mret tt
    end).
Definition testVotingAccountDividend (_voteAddrs : list Address)
    (_masterNodeDividends _masterNodeVotes : gmap Address u256) (_blockNum : int64) : M unit :=
  forM _voteAddrs (λ a,
    try_new_vote_snapshot a _blockNum ;;
    acc ← deref a;
    let infos := default ∅ (m_voteDataHistory (m_vote_sapshot acc) !! FIRSTROUND) in
    total ← foldM (λ t v,
      match _masterNodeDividends !! v.1, _masterNodeVotes !! v.1 with
      | Some d, Some n => q ← u256_div (d / 2) n; mret (t [+] (q [*] v.2))
      | _, _ => mret t
      end) 0 (map_iter infos);
    when (0 <? total) (addBalance a total)).
Definition testDividend (_voteAddrs : list Address) (_blockNum : int64) : M unit :=
  _minerVote ← first_round_votes;
  let votes := foldl (λ m p, <[m_addr p := m_poll p]> m) ∅ _minerVote in
  testCalculateMasterNodeDividend votes getMasterNodeInfo ;;
  testVotingAccountDividend _voteAddrs getMasterNodeInfo votes _blockNum.

Definition calculateMasterNodeDividend (_masterNode : gmap Address u256)
    (_totalDividendAmount _allMinerVotes : u256) : M (gmap Address (u256 * u256)) :=
  nodes ← foldM (λ m node,
    q ← u256_div _totalDividendAmount _allMinerVotes;
    let _nodeDividend := q [*] node.2 in
    h ← u256_div (_nodeDividend / 2) node.2;
    addBalance node.1 (_nodeDividend [-] (h [*] node.2)) ;;
    mret (<[node.1 := (node.2, _nodeDividend)]> m)) ∅ (map_iter _masterNode);
  _dividendRemainder ← u256_mod _totalDividendAmount _allMinerVotes;
  _biggestVote ← foldM (λ b node,
    addBalance node.1 (_dividendRemainder / 51) ;;
    mret (if b.2 <? node.2 then node else b)) (0, 0) (map_iter _masterNode);
  addBalance _biggestVote.1 (_dividendRemainder mod 51) ;;
  mret nodes.
Definition votingAccountDividend (_voteAddrs : list Address) (info : gmap Address (u256 * u256))
    (_blockNum : int64) : M unit :=
  forM _voteAddrs (λ a,
    try_new_vote_snapshot a _blockNum ;;
    acc ← deref a;
    let infos := default ∅ (m_voteDataHistory (m_vote_sapshot acc) !! 1) in
    total ← foldM (λ t v,
      match info !! v.1 with
      | Some (n, d) => q ← u256_div (d / 2) n; mret (t [+] (q [*] v.2))
      | None => mret t
      end) 0 (map_iter infos);
    when (0 <? total) (addBalance a total)).
Definition dividend (_dividendAddrs : list Address) (_blockNum : int64) : M unit :=
  _minerVotes ← first_round_votes;
  let _superNode := foldl (λ m p, <[m_addr p := m_poll p]> m) ∅ _minerVotes in
  let _allMinerVotes := foldl (λ t p, t [+] m_poll p) 0 _minerVotes in
  info ← calculateMasterNodeDividend _superNode DIVIDENDNUM _allMinerVotes;
  votingAccountDividend _dividendAddrs info _blockNum.
End Income.
