(* ===== verification/Miner.v ===== *)
(** * Miners: replacement, gas prices and fork-height migrations
    (libbrcdchain/State.cpp, Block.cpp)

    A block producer hands its seat to another address ([changeMiner]); the
    mapping address links the two.  The functions called when a new block starts
    ([intoNewBlockToDo]) are here too. *)
From stdpp Require Import base gmap list.
From Stdlib Require Import ZArith Lia.
From S2P Require Import Prelude Rlp Config Objects Interfaces Account ChainState StateOps Exdb Operations Exchange.
From S2P Require Import Vote Income.
Open Scope Z_scope.

Section Miner.
Context `{CR : Crypto, CF : Config, ST_ : !StorageTrie, RN : Rng, CO : !AccountCodec}.

Definition listed (x : Address) (l : list PollData) : bool := bool_decide (is_Some (find_addr x l)).
Definition require (b : bool) (e : exn) : M unit := if b then mret tt else throw e.

(** ** Replacing a miner *)
Definition verifyChangeMiner (_from : Address) (number : int64) (ops : list operation) : M unit :=
  require (newChangeHeight <=? number) ChangeMinerFailed ;;
  op ← cast_or ChangeMinerFailed (head ops);
  pen ← cast_or ChangeMinerFailed (as_changeMiner op);
  require (bool_decide (_from = m_before pen)) ChangeMinerFailed ;;
  require (bool_decide (m_after pen ≠ m_before pen)) ChangeMinerFailed ;;
  bo ← account _from;
  require (bool_decide (is_Some bo)) ChangeMinerFailed ;;
  ao ← account SysVarlitorAddress;
  co ← account SysCanlitorAddress;
  match ao, co with
  | Some _, Some _ =>
      a ← reread SysVarlitorAddress;
      a_can ← reread SysCanlitorAddress;
      let miner := m_vote_data a in
      let canMiner := m_vote_data a_can in
      require (listed _from miner || listed _from canMiner) ChangeMinerFailed ;;
      require (negb (listed (m_after pen) miner || listed (m_after pen) canMiner)) ChangeMinerFailed ;;
      befor_miner ← reread _from;
      let mapping_addr := m_mappingAddress befor_miner in
      require (bool_decide (mapping_addr.2 = 0) || bool_decide (mapping_addr.2 = _from)) ChangeMinerFailed ;;
      no ← account (m_after pen);
      match no with
      | Some _ => mret tt
      | None => n ← requireAccountStartNonce; createAccount (m_after pen) (Account_nbb n 0 0 0)
      end ;;
      a_new ← deref (m_after pen);
      require (negb (bool_decide ((m_mappingAddress a_new).1 ≠ 0)
                     && bool_decide ((m_mappingAddress a_new).2 ≠ _from))) ChangeMinerFailed ;;
      when (gasPriceHeight <? number)
        (go ← account GaspriceAddress;
         a_gas ← cast_or ChangeMinerFailed go;
         require (map_count (m_minerGasPrice a_gas) (m_before pen)) ChangeMinerFailed ;;
         require (negb (map_count (m_minerGasPrice a_gas) (m_after pen))) ChangeMinerFailed)
  | _, _ => throw ChangeMinerFailed
  end.

Definition changeMiner (ops : list operation) : M unit :=
  op ← cast_or InvalidFunction (head ops);
  pen ← cast_or InvalidDynamic (as_changeMiner op);
  let before := m_before pen in
  let after := m_after pen in
  bo ← account before;
  require (bool_decide (is_Some bo)) InvalidAddressAddr ;;
  ao ← account SysVarlitorAddress;
  co ← account SysCanlitorAddress;
  match ao, co with
  | Some _, Some _ =>
      a ← reread SysVarlitorAddress;
      a_can ← reread SysCanlitorAddress;
      let change_addr := if listed before (m_vote_data a) then Some SysVarlitorAddress
                         else if listed before (m_vote_data a_can) then Some SysCanlitorAddress
                         else None in
      change_addr ← cast_or InvalidFunction change_addr;
      befor_miner ← reread before;
      let mapping_addr := m_mappingAddress befor_miner in
      require (bool_decide (mapping_addr.2 = 0) || bool_decide (mapping_addr.2 = before)) InvalidFunction ;;
      no ← account after;
      match no with
      | Some _ => mret tt
      | None => n ← requireAccountStartNonce; createAccount after (Account_nbb n 0 0 0) ;;
                _ ← account after; mret tt
      end ;;
      change_account ← reread change_addr;
      let miners_log := m_vote_data change_account in
      write change_addr (set_vote_data (rename_poll before after miners_log)) ;;
      before_addr ← (if bool_decide (mapping_addr.1 ≠ 0) && bool_decide (mapping_addr.1 ≠ before) then
          so ← account mapping_addr.1;
          match so with
          | Some _ => mret tt
          | None => n ← requireAccountStartNonce; createAccount mapping_addr.1 (Account_nbb n 0 0 0) ;;
                    _ ← account mapping_addr.1; mret tt
          end ;;
          start_a ← reread mapping_addr.1;
          log (ChNewChangeMiner mapping_addr.1 (m_mappingAddress start_a)) ;;
          write mapping_addr.1 (setChangeMiner (mapping_addr.1, after)) ;;
          mret mapping_addr.1
        else mret before);
      befor_miner ← reread before;
      log (ChNewChangeMiner before (m_mappingAddress befor_miner)) ;;
      a_new ← reread after;
      log (ChNewChangeMiner after (m_mappingAddress a_new)) ;;
      write after (setChangeMiner (before_addr, after)) ;;
      when (bool_decide (before_addr = after)) (write after (setChangeMiner (0, 0))) ;;
      write before (setChangeMiner (before_addr, after)) ;;
      befor_miner ← reread before;
      when (bool_decide ((m_mappingAddress befor_miner).2 ≠ before)
            && bool_decide ((m_mappingAddress befor_miner).1 ≠ before))
        (write before (setChangeMiner (0, 0))) ;;
      log (ChMinnerSnapshot change_addr miners_log)
  | _, _ => throw InvalidMinner
  end.

(** ** Gas prices *)
Definition getAveragegasPrice : M u256 := read 0 getAverageGasPrice GaspriceAddress.

Definition modifyGasPrice (ops : list operation) : M unit :=
  forM ops (λ op,
    a ← deref GaspriceAddress;
    o ← cast_unchecked (as_modifyGasPrice op);
    write GaspriceAddress (setMinerGasPrice (m_proposer o) (m_proposedAmount o)) ;;
    log (ChMinerGasPrice GaspriceAddress (m_minerGasPrice a))).

Definition changeMinerModifyGasPrice (ops : list operation) : M unit :=
  forM ops (λ op,
    o ← cast_or ChangeMinerFailed (as_changeMiner op);
    go ← account GaspriceAddress;
    a ← cast_or ChangeMinerFailed go;
    let old := m_minerGasPrice a in
    write GaspriceAddress (setMinerGasPrices (rename_key (m_before o) (m_after o) old)) ;;
    log (ChMinerGasPrice GaspriceAddress old)).

Definition initMinerGasPrice (number : int64) : M unit :=
  when (gasPriceHeight =? number)
    (mo ← account SysVarlitorAddress;
     co ← account SysCanlitorAddress;
     match mo, co with
     | Some _, Some _ =>
         go ← account GaspriceAddress;
         match go with
         | Some _ => mret tt
         | None => createAccount GaspriceAddress (Account_nb 0 0) ;; _ ← account GaspriceAddress; mret tt
         end ;;
         a_miner ← reread SysVarlitorAddress;
         forM (m_vote_data a_miner) (λ v, write GaspriceAddress (setMinerGasPrice (m_addr v) 10)) ;;
         a_can ← reread SysCanlitorAddress;
         forM (m_vote_data a_can) (λ v, write GaspriceAddress (setMinerGasPrice (m_addr v) 10))
     | _, _ => mret tt
     end).

(** ** Migrations at fixed heights *)

(** [changeMinerMigrationData]; [genesis] is [params.genesisState].  Nothing is
    logged: the function runs once, between blocks. *)
Definition changeMinerMigrationData (before_addr new_addr : Address) (genesis : list (Address * Account))
    : M unit :=
  oo ← account before_addr;
  require (bool_decide (is_Some oo)) InvalidAutor ;;
  no ← account new_addr;
  match no with
  | None => createAccount new_addr (Account_ballot 0) ;; _ ← account new_addr; mret tt
  | Some _ => killAccount new_addr
  end ;;
  old_a ← reread before_addr;
  write new_addr (copyByAccount old_a) ;;
  write_opt new_addr (changeMinerUpdateData before_addr new_addr) ;;
  write before_addr kill ;;
  forM [systemAddress; PdSystemAddress; SysBlockCreateRecordAddress; SysElectorAddress;
        SysVarlitorAddress; SysCanlitorAddress; SysMinerSnapshotAddress] (λ v,
    o ← account v;
    match o with
    | Some sys_a => when (isChangeMinerUpdateData before_addr sys_a)
                      (write_opt v (changeMinerUpdateData before_addr new_addr))
    | None => mret tt
    end) ;;
  forM genesis (λ v,
    if isChangeMinerUpdateData before_addr v.2 then
      o ← account v.1;
      match o with
      | Some _ => write_opt v.1 (changeMinerUpdateData before_addr new_addr)
      | None => mret tt
      end
    else mret tt).

Definition tryChangeMiner (number : int64) (chainID : Z) (genesis : list (Address * Account)) : M unit :=
  if negb (chainID =? 11) then mret tt
  else
    let change_ret := getChainMiner number in
    if negb change_ret.1 then mret tt
    else changeMinerMigrationData (before_addr change_ret.2) (new_addr change_ret.2) genesis.

(** [changeVoteData], over the table [changeVote::getChangeVote()] of (voter,
    candidate, votes). *)
Definition refresh_polls (sys : Address) : M unit :=
  l ← (x ← reread sys; mret (m_vote_data x));
  forM l (λ v, pa ← deref (m_addr v); write_opt sys (acc_set_system_poll (mkPoll (m_addr v) (a_poll pa) 0))).
Definition changeVoteData (table : list (Address * Address * u256)) (number : int64) : M unit :=
  when (changeVoteHeight =? number)
    (forM table (λ it,
       let '(voter, cand, n) := it in
       _ ← deref voter; _ ← deref cand;
       write_opt voter (acc_addVote (cand, n)) ;;
       write cand (acc_addPoll n)) ;;
     _ ← deref SysVarlitorAddress; _ ← deref SysCanlitorAddress;
     refresh_polls SysVarlitorAddress ;;
     refresh_polls SysCanlitorAddress ;;
     pd ← deref PdSystemAddress;
     poll ← vote_data SysVarlitorAddress;
     write PdSystemAddress (setCouplingSystemFeeSnapshot
       ((m_couplingSystemFee pd) <| m_sorted_creaters ::= fmap (λ _, poll) |>)) ;;
     ms ← deref SysMinerSnapshotAddress;
     poll ← vote_data SysVarlitorAddress;
     cpoll ← vote_data SysCanlitorAddress;
     write SysMinerSnapshotAddress (setCouplingSystemFeeSnapshot
       ((m_couplingSystemFee ms) <| m_sorted_creaters ::= fmap (λ _, poll ++ cpoll) |>))).

(** [standby_miners[0]] and [standby_miners[4]] are written unchecked. *)
Definition changeTestMiner (number : int64) : M unit :=
  when (number =? 4755702)
    (o ← account SysCanlitorAddress;
     match o with
     | None => mret tt
     | Some a =>
         let l := m_vote_data a in
         match l !! 0%nat, l !! 4%nat with
         | Some p, Some q =>
             write SysCanlitorAddress (set_vote_data
               (<[4%nat := q <| m_addr := 0xe3688750ecc7fa4a342c2127fe153b4306559b20 |>]>
                (<[0%nat := p <| m_addr := 0xb172c802467c5507f2919ec417873a7fae167557 |>]> l)))
         | _, _ => undef
         end
     end).

Definition updatePrecontract : M unit :=
  forM (seqZ 1 8) (λ i,
    o ← account i;
    match o with Some _ => mret tt | None => createAccount i (Account_nb 0 1) end).

(** ** Starting a block (Block.cpp) *)
Definition execute_block_record (author : Address) (number timestamp : int64) (varlitorInterval : Z) : M unit :=
  set_last_block_record author (number, timestamp) varlitorInterval.

Definition testNetAddBalance (number : int64) : M unit :=
  when ((chainId =? TESTCHAINID) && (number =? 34436000))
    (addBalance TestNetBalanceAddress 0x16345785d8a0000 ;;
     addBRC TestNetBalanceAddress 0x8ac7230489e80000).

(** [intoNewBlockToDo]: [genesisAddr] is [config::getGenesisAddr()], the accounts of
    the genesis file that have votes; registering the precompiled contracts with
    the seal engine is outside the state. *)
Definition intoNewBlockToDo (curr previous : int64) (chainID : Z) (genesis : list (Address * Account))
    (table : list (Address * Address * u256)) (genesisAddr : list Address) : M unit :=
  try_newrounds_count_vote curr previous ;;
  tryChangeMiner curr chainID genesis ;;
  when (chainID =? MAINCHAINID) (changeVoteData table curr) ;;
  initMinerGasPrice curr ;;
  when (curr =? dividendHeight) (testDividend genesisAddr curr) ;;
  when (curr =? cancelAutoPendingOrderHeight) cancelSysOrder ;;
  when (curr =? getPrecompiled) updatePrecontract ;;
  testNetAddBalance curr.
End Miner.
