(* ===== verification/Verify.v ===== *)
(** * Checks before execution and the dispatch of operations
    (libbrcdchain/DposVote.cpp, BRCTranscation.cpp, Executive.cpp)

    The checks run on the same state the execution will change. *)
From stdpp Require Import base gmap list.
From Stdlib Require Import ZArith Lia.
From S2P Require Import Prelude Rlp Config Objects Interfaces Account ChainState StateOps Exdb Operations Exchange.
From S2P Require Import Vote Income Miner.
Open Scope Z_scope.

Definition SELLCOOKIELIMIT : Z := 1000000000000.
Definition BUYCOOKIELIMIT : Z := 1000000000000.
(** [TranscationEnum] *)
Definition ETranscationNull : Z := 0.
Definition EBRCTranscation : Z := 1.
Definition ETranscationMax : Z := 2.

(** [EnvInfo]: the block a transaction is executed in. *)
Record EnvInfo := mkEnv {
  env_number : int64; env_timestamp : int64; env_chain_id : Z;
  env_author : Address; env_gasUsed : u256; env_gasLimit : u256 }.

Section Verify.
Context `{CR : Crypto, CF : Config, ST_ : !StorageTrie, RN : Rng, CO : !AccountCodec}.

(** ** Votes (DposVote.cpp) *)

(** [dType == EDelegate || EUnDelegate]: the second operand is a non-zero constant. *)
Definition is_delegate (dType : Z) : bool := (dType =? EDelegate) || negb (EUnDelegate =? 0).

Definition verify_vote_op (_from : Address) (env : EnvInfo) (op : operation) : M unit :=
  p ← cast_or VerifyVoteField (as_vote op);
  let dType := m_vote_type p in
  let num := m_vote_numbers p in
  require (negb (((dType =? EBuyVote) || (dType =? ESellVote) || (dType =? EDelegate) || (dType =? EUnDelegate))
                 && (num <=? 0))) VerifyVoteField ;;
  require (negb ((dType =? ELoginCandidate) || (dType =? ELogoutCandidate))) VerifyVoteField ;;
  require (negb (bool_decide ((getVotingCycle (env_number env)).2 ≠ VOTE) && is_delegate dType)) VerifyVoteField ;;
  if dType =? EBuyVote then
    b ← BRC _from; require (negb (b <? num [*] BALLOTPRICE)) VerifyVoteField
  else if dType =? ESellVote then
    t ← ballot _from; require (negb (t <? num)) VerifyVoteField ;;
    b ← BRC systemAddress; require (negb (b <? num [*] BALLOTPRICE)) VerifyVoteField
  else if dType =? ELoginCandidate then
    require (bool_decide (_from = vo_to p)) VerifyVoteField ;;
    p_data ← poll_data SysElectorAddress _from;
    require (negb (bool_decide (m_addr p_data = _from))) VerifyVoteField ;;
    when (newChangeHeight <=? env_number env)
      (m ← minerMapping _from;
       require (bool_decide (m.1 = 0) || bool_decide (m.1 = _from)) VerifyVoteField)
  else if dType =? ELogoutCandidate then
    require (bool_decide (_from = vo_to p)) VerifyVoteField ;;
    p_data ← poll_data SysElectorAddress _from;
    require (bool_decide (m_addr p_data = _from)) VerifyVoteField
  else if dType =? EDelegate then
    t ← ballot _from; require (negb (t <? num)) VerifyVoteField ;;
    p_data ← poll_data SysElectorAddress (vo_to p);
    require (bool_decide (m_addr p_data = vo_to p)) VerifyVoteField
  else if dType =? EUnDelegate then
    p_data ← poll_data _from (vo_to p);
    require (negb (bool_decide (m_addr p_data ≠ vo_to p) || (m_poll p_data <? num))) VerifyVoteField
  else mret tt.
Definition verifyVote (_from : Address) (env : EnvInfo) (ops : list operation) : M unit :=
  forM ops (verify_vote_op _from env).

(** ** Transfers (BRCTranscation.cpp) *)
Definition verifyTranscation (_form _to : Address) (_type : Z) (_transcationNum : u256) : M unit :=
  require (negb ((_type <=? ETranscationNull) || (ETranscationMax <=? _type)
                 || ((_type =? EBRCTranscation) && (_transcationNum =? 0)))) BrcTranscationField ;;
  when (_type =? EBRCTranscation)
    (require (bool_decide (_form ≠ _to)) BrcTranscationField ;;
     b ← BRC _form; require (negb (b <? _transcationNum)) BrcTranscationField).

(** ** Orders *)
Definition bad_order_params (ty : order_type) (tk : order_token_type) (b : order_buy_type) (num p : u256) : bool :=
  bool_decide (ty = null_type) || bool_decide (tk = BRC_token)
  || (bool_decide (b = only_price) && (bool_decide (ty = sell) || bool_decide (ty = buy))
      && ((num =? 0) || (p =? 0)))
  || (bool_decide (b = all_price)
      && ((bool_decide (ty = buy) && (negb (num =? 0) || (p =? 0)))
          || (bool_decide (ty = sell) && (negb (p =? 0) || (num =? 0))))).

Definition verify_order (_form : Address) (now : int64) (h : h256) (acc : u256 * u256 * list ex_order)
    (op : operation) : M (u256 * u256 * list ex_order) :=
  let '(total_brc, total_cost, _verfys) := acc in
  pen ← cast_or VerifyPendingOrderFiled (as_pendingOrder op);
  let ty := m_Pendingorder_type pen in
  let tk := m_Pendingorder_Token_type pen in
  let b := m_Pendingorder_buy_type pen in
  let num := m_Pendingorder_num pen in
  let p := m_Pendingorder_price pen in
  require (negb (bad_order_params ty tk b num p)) VerifyPendingOrderFiled ;;
  require ((bool_decide (ty = sell) || bool_decide (ty = buy)) && bool_decide (tk = FUEL)
           && is_fill_type b) VerifyPendingOrderFiled ;;
  require (negb ((0 <? num mod 10000) || (0 <? p mod 10000))) VerifyPendingOrderFiled ;;
  '(total_brc, total_cost) ←
    (if bool_decide (ty = buy) then
       if bool_decide (b = only_price) then
         let t := total_brc [+] (num [*] p) / PRICEPRECISION in
         bal ← BRC _form;
         require (negb (bal <? t)) VerifyPendingOrderFiled ;;
         require (negb (t <? BUYCOOKIELIMIT)) VerifyPendingOrderFiled ;;
         mret (t, total_cost)
       else
         let t := total_brc [+] p in
         bal ← BRC _form;
         require (negb (bal <? t)) VerifyPendingOrderFiled ;;
         mret (t, total_cost)
     else
       let t := total_cost [+] num in
       bal ← balance _form;
       require (negb (bal <? t)) VerifyPendingOrderFiled ;;
       require (negb ((t <? SELLCOOKIELIMIT) && bool_decide (b = only_price))) VerifyPendingOrderFiled ;;
       mret (total_brc, t));
  when (bool_decide (b = all_price))
    (l ← get_order_by_type (if bool_decide (ty = buy) then sell else buy) FUEL 10;
     require (bool_decide (l ≠ [])) VerifyPendingOrderFiled) ;;
  mret (total_brc, total_cost,
        if bool_decide (ty = buy) && bool_decide (tk = FUEL) && bool_decide (b = all_price)
        then _verfys ++ [mkExOrder h _form (p [*] PRICEPRECISION) num num now ty tk b]
        else _verfys).

Definition verifyPendingOrders (_form : Address) (_total_cost : u256) (now : int64) (_transcationGas : u256)
    (h : h256) (ops : list operation) : M unit :=
  '(_, _, _verfys) ← foldM (verify_order _form now h) (0, _total_cost, []) ops;
  forM _verfys (λ v,
    try_catch
      (_retV ← insert_operation v true;
       let _cookieNum := foldl (λ n r,
         if bool_decide (r_type r = buy) && bool_decide (r_token_type r = FUEL)
            && bool_decide (r_buy_type r = all_price) then n [+] r_amount r else n) 0 _retV in
       bal ← balance _form;
       require (negb (_cookieNum [+] bal <? _transcationGas)) VerifyPendingOrderFiled)
      (λ _, true) (λ _, throw VerifyPendingOrderFiled)).

Definition verifyCancelPendingOrders (_addr : Address) (ops : list operation) : M unit :=
  _HashV ← foldM (λ v op,
    c ← cast_or CancelPendingOrderFiled (as_cancel op);
    require (negb (m_hash c =? 0)) CancelPendingOrderFiled ;;
    mret (v ++ [m_hash c])) [] ops;
  _resultV ← try_catch (foldM (λ _ h, exits_trxid h) [] _HashV)
               (λ _, true) (λ _, throw CancelPendingOrderFiled);
  require (bool_decide (_resultV ≠ [])) CancelPendingOrderFiled ;;
  forM _resultV (λ o, require (bool_decide (_addr = sender o)) CancelPendingOrderFiled).

(** ** Income *)
Definition isMainNode (a : Address) (l : list PollData) : bool := listed a l.
Definition isMainNode_map (m : gmap Address u256) (l : list PollData) : bool :=
  existsb (λ p, listed p.1 l) (map_iter m).
Definition isMainNode_vec (v l : list PollData) : bool := existsb (λ p, listed (m_addr p) l) v.

(** The account's vote snapshot, brought up to date without keeping it. *)
Definition temp_snapshot (a : Address) (_blockNum : int64) : M VoteSnapshot :=
  let _pair := getVotingCycle _blockNum in
  x ← reread a;
  let ret_pair := acc_get_no_record_snapshot _pair.1 _pair.2 x in
  if ret_pair.1 then
    let '(s, x') := acc_try_new_temp_snapshot ret_pair.2 x in write a (λ _, x') ;; mret s
  else mret (m_vote_sapshot x).

Definition verifyBlockFeeincome (_from : Address) (_blockNum : int64) : M unit :=
  require (negb (bool_decide ((getVotingCycle _blockNum).2 = ERRORSTAGE))) receivingincomeFiled ;;
  o ← account _from; require (bool_decide (is_Some o)) receivingincomeFiled ;;
  so ← account SysVarlitorAddress; require (bool_decide (is_Some so)) receivingincomeFiled ;;
  _voteSnapshot ← temp_snapshot _from _blockNum;
  a ← reread _from;
  require (negb (bool_decide (m_voteDataHistory _voteSnapshot = ∅) && bool_decide (m_vote_data a = [])))
    receivingincomeFiled ;;
  let _numberofround := getvoteRound (rc_numberofRound (m_received_cookies a)) in
  _minerSnap ← get_miner_snapshot;
  match m_voteDataHistory _voteSnapshot !! (_numberofround [-] 1) with
  | None =>
      sysAccount ← reread SysVarlitorAddress;
      require (isMainNode_vec (m_vote_data a) (m_vote_data sysAccount)
               || isMainNode _from (m_vote_data sysAccount)) receivingincomeFiled
  | Some _ =>
      _status ← foldM (λ st it,
        nodes ← match _minerSnap !! it.1 with
                | Some v => mret v
                | None => vote_data SysVarlitorAddress
                end;
        mret (st || isMainNode_map it.2 nodes || isMainNode _from nodes))
        false (map_from (_numberofround [-] 1) (m_voteDataHistory _voteSnapshot));
      require _status receivingincomeFiled
  end.

Definition verifyPdFeeincome (_from : Address) (_blockNum : int64) : M unit :=
  let cur := (getVotingCycle _blockNum).1 in
  require (negb (bool_decide ((getVotingCycle _blockNum).2 = ERRORSTAGE))) receivingincomeFiled ;;
  o ← account _from;
  so ← account PdSystemAddress;
  mo ← account SysVarlitorAddress;
  require (bool_decide (is_Some o) && bool_decide (is_Some mo)) receivingincomeFiled ;;
  match so with
  | None => undef
  | Some _ =>
      systemAccount ← reread PdSystemAddress;
      a ← reread _from;
      let _numofRounds := m_numofrounds (m_couplingSystemFee a) in
      let _map := m_sorted_creaters (m_couplingSystemFee systemAccount) in
      _voteSnapshot ← temp_snapshot _from _blockNum;
      let hist := m_voteDataHistory _voteSnapshot in
      let past := existsb (λ i,
        match hist !! (i - 1), _map !! i with
        | Some v, Some l => existsb (λ p, negb (default 0 (v !! m_addr p) =? 0)
                                          || bool_decide (_from = m_addr p)) l
        | _, _ => false
        end) (seqZ _numofRounds (cur - _numofRounds)) in
      if past then mret tt
      else
        miners ← reread SysVarlitorAddress;
        let top := take (Z.to_nat minner_rank_num) (m_vote_data miners) in
        let voted := match hist !! (cur - 1) with
                     | Some v => existsb (λ p, map_count v (m_addr p)) top | None => false end in
        require (voted || existsb (λ p, bool_decide (_from = m_addr p)) top) receivingincomeFiled
  end.

Definition verifyreceivingincome (_from : Address) (ops : list operation) (_blockNum : int64) : M unit :=
  forM ops (λ op,
    o ← cast_or receivingincomeFiled (as_receiving op);
    if m_receivingType o =? RBlockFeeIncome then verifyBlockFeeincome _from _blockNum
    else if m_receivingType o =? RPdFeeIncome then verifyPdFeeincome _from _blockNum
    else throw receivingincomeFiled).
Definition is_receivingincomeFiled (e : exn) : bool := bool_decide (e = receivingincomeFiled).
Definition verifyreceivingincomeChanegeMiner (_from : Address) (ops : list operation) (_blockNum : int64) : M unit :=
  if _blockNum <? newChangeHeight then verifyreceivingincome _from ops _blockNum
  else
    miner_mapping ← minerMapping _from;
    require (bool_decide (miner_mapping.1 = 0) || bool_decide (miner_mapping.2 = _from)) receivingincomeFiled ;;
    let attempt a := try_catch (verifyreceivingincome a ops _blockNum ;; mret true)
                       is_receivingincomeFiled (λ _, mret false) in
    ok1 ← attempt _from;
    ok2 ← (if bool_decide (miner_mapping.1 ≠ _from) && bool_decide (miner_mapping.1 ≠ 0)
           then attempt miner_mapping.1 else mret false);
    require (ok1 || ok2) receivingincomeFiled.

(** ** Automatic exchange: the order is really inserted, not tried. *)
Definition verifyTransferAutoEx (_from : Address) (ops : list operation) (_baseGas : u256) (_trxid : h256)
    (env : EnvInfo) : M unit :=
  require (negb (((env_number env <? autoExTestNetHeight) && (env_chain_id env =? 1))
                 || ((env_number env <? autoExHeight) && (env_chain_id env =? 11)))) transferAutoExFailed ;;
  forM ops (λ op,
    o ← cast_unchecked (as_transferAutoEx op);
    require (bool_decide (ae_from o = _from)) transferAutoExFailed ;;
    require (negb (0 <? m_autoExNum o mod 10000)) transferAutoExFailed ;;
    (if m_autoExType o =? Balancededuction then
       b ← BRC _from; require (negb (b <? m_transferNum o [+] m_autoExNum o)) transferAutoExFailed
     else if m_autoExType o =? Transferdeduction then
       require (negb (m_transferNum o <? m_autoExNum o)) transferAutoExFailed ;;
       b ← BRC _from; require (negb (b <? m_transferNum o)) transferAutoExFailed
     else throw transferAutoExFailed) ;;
    _result ← try_catch
      (insert_operation (mkExOrder _trxid _from (m_autoExNum o [*] PRICEPRECISION) 0 0 (env_timestamp env)
         buy FUEL all_price) false)
      (λ _, true) (λ _, throw transferAutoExFailed);
    let _cookie := foldl (λ n r, n [+] r_amount r) 0 _result in
    require (negb (_cookie <? _baseGas)) transferAutoExFailed).

(** ** Gas prices *)
Definition verifyModifyMinerGasPrice (_from : Address) (_blockNum : int64) (ops : list operation) : M unit :=
  require (negb (_blockNum <=? gasPriceHeight)) modifyminergaspriceFailed ;;
  forM ops (λ op,
    o ← cast_or modifyminergaspriceFailed (as_modifyGasPrice op);
    require (bool_decide (_from = m_proposer o)) modifyminergaspriceFailed ;;
    go ← account GaspriceAddress;
    a ← cast_or modifyminergaspriceFailed go;
    require (map_count (m_minerGasPrice a) (m_proposer o)) modifyminergaspriceFailed ;;
    let avg := getAverageGasPrice a in
    require (negb (((avg [*] 12) / 10 <? m_proposedAmount o) || (m_proposedAmount o <? (avg [*] 8) / 10)))
      modifyminergaspriceFailed).

(** ** The dispatch of a batch (Executive.cpp) *)
Record batch_env := mkBatch {
  b_sender : Address; b_env : EnvInfo; b_hash : h256;
  b_gas : u256; b_gasPrice : u256; b_baseGasRequired : int64 }.

(** [m_addCostValue] and [totalCost] once the first operation, of type [ty], was read;
    [totalCost] is a [bigint], the products are 256 bits wide. *)
Definition add_cost (e : batch_env) (ty : Z) : u256 := c_add_value ty [*] b_gasPrice e.
Definition total_cost (e : batch_env) (ty : Z) : Z := b_gas e [*] b_gasPrice e + add_cost e ty.
Definition base_cost (e : batch_env) : u256 := b_baseGasRequired e [*] b_gasPrice e.
(** The gas an automatic exchange has to leave. *)
Definition auto_cost (e : batch_env) : u256 := (b_baseGasRequired e [+] c_add_value op_transferAutoEx) [*] b_gasPrice e.

(** One round of the loop that reads a batch.  The surcharge is added in the first
    round, and the later ones throw unless they are of the same type. *)
Definition read_op (e : batch_env) (n_ops : Z) (acc : Z * list operation) (val : bytes) : M (Z * list operation) :=
  let _type := get_type val in
  require (negb (bool_decide (acc.1 ≠ _type) && bool_decide (acc.2 ≠ []))) InvalidFunction ;;
  require (negb (negb (_type =? op_brcTranscation) && (1 <? n_ops))) InvalidFunction ;;
  require (negb ((_type =? op_brcTranscation) && (50 <? n_ops))) InvalidFunction ;;
  when (_type =? op_pendingOrder) (require (bool_decide (acc.2 = [])) VerifyPendingOrderFiled) ;;
  op ← lift (parse_operation _type val);
  is_verfy_cost ←
    match op with
    | OpTranscation o =>
        try_catch (verifyTranscation (b_sender e) (to_to o) (m_Transcation_type o) (m_Transcation_numbers o))
          is_dev_exception (λ _, throw BrcTranscationField) ;;
        mret true
    | OpPendingOrder o =>
        if bool_decide (m_Pendingorder_buy_type o = all_price) && bool_decide (m_Pendingorder_type o = buy)
           && bool_decide (m_Pendingorder_Token_type o = FUEL)
        then b ← balance (b_sender e); mret (negb (b <? total_cost e _type))
        else mret true
    | _ => mret true
    end;
  when is_verfy_cost
    (b ← balance (b_sender e);
     require (negb ((b <? total_cost e _type) && negb (_type =? op_transferAutoEx))) ExecutiveFailed) ;;
  mret (_type, acc.2 ++ [op]).

(** The batch of a transaction's data: its type and its operations. *)
Definition read_batch (e : batch_env) (data : bytes) : M (Z * list operation) :=
  _ops ← lift (_r ← RLP data; toVector toBytes _r);
  require (bool_decide (_ops ≠ [])) BadRLP ;;
  r ← foldM (read_op e (len _ops)) (op_null, []) _ops;
  require (negb (total_cost e r.1 <? base_cost e [+] add_cost e r.1)) ExecutiveFailed ;;
  mret r.

Definition verify_batch (e : batch_env) (ty : Z) (ops : list operation) : M unit :=
  let n := env_number (b_env e) in
  if ty =? op_vote then verifyVote (b_sender e) (b_env e) ops
  else if ty =? op_pendingOrder then
    verifyPendingOrders (b_sender e) (w256 (total_cost e ty)) (env_timestamp (b_env e)) (base_cost e) (b_hash e) ops
  else if ty =? op_cancelPendingOrder then verifyCancelPendingOrders (b_sender e) ops
  else if ty =? op_receivingincome then verifyreceivingincomeChanegeMiner (b_sender e) ops n
  else if ty =? op_changeMiner then verifyChangeMiner (b_sender e) n ops
  else if ty =? op_transferAutoEx then verifyTransferAutoEx (b_sender e) ops (auto_cost e) (b_hash e) (b_env e)
  else if ty =? op_modifyMinerGasPrice then verifyModifyMinerGasPrice (b_sender e) n ops
  else mret tt.

Definition execute_batch (fuel : nat) (e : batch_env) (ty : Z) (ops : list operation) : M unit :=
  let n := env_number (b_env e) in
  let now := env_timestamp (b_env e) in
  if ty =? op_vote then execute_vote (b_sender e) ops n now
  else if ty =? op_brcTranscation then execute_transfer_BRCs (b_sender e) ops
  else if ty =? op_pendingOrder then _ ← pendingOrders fuel (b_sender e) now (b_hash e) ops n; mret tt
  else if ty =? op_cancelPendingOrder then cancelPendingOrders ops
  else if ty =? op_changeMiner then
    changeMiner ops ;; when (gasPriceHeight <? n) (changeMinerModifyGasPrice ops)
  else if ty =? op_receivingincome then receivingIncome (b_sender e) ops n
  else if ty =? op_transferAutoEx then transferAutoEx fuel ops (b_hash e) now (auto_cost e) n
  else if ty =? op_modifyMinerGasPrice then modifyGasPrice ops
  else mret tt.
End Verify.
