(* ===== verification/Executive.v ===== *)
(** * The executive: one transaction from its fields to the fee (libbrcdchain/Executive.cpp)

    [Executive::initialize] checks a transaction and reads its batch, [execute] calls the
    receiver or creates a contract, [go] runs contract code, [finalize] charges the sender
    and credits the block producer.  [State::executeTransaction] runs the four.

    The executive's members are a record, [Exec], threaded through the calls.  The virtual
    machine and the precompiled contracts are interfaces: [vm_exec] may do anything to
    the state and reports how it ended. *)
From stdpp Require Import base gmap list.
From Stdlib Require Import ZArith Lia.
From S2P Require Import Prelude Rlp Config Objects Interfaces Account ChainState StateOps Exdb Operations Codec.
From S2P Require Import Transaction Exchange Vote Income Miner Verify.
Open Scope Z_scope.

(** [TransactionException]: the reasons [m_excepted] can hold. *)
Inductive TransactionException :=
  | ENone | EUnknown | EBadRLP | EInvalidFormat | EOutOfGasIntrinsic | EInvalidSignature | EInvalidNonce
  | EInvalidGasPrice | ENotEnoughCash | EOutOfGasBase | EBlockGasLimitReached | EBadInstruction
  | EBadJumpDestination | EOutOfGas | EOutOfStack | EStackUnderflow | ERevertInstruction
  | EInvalidZeroSignatureFormat | EAddressAlreadyUsed | ENotEnoughBallot | EVerifyVoteField
  | EVerifyPendingOrderFiled | ECancelPendingOrderFiled | EBadSystemAddress | EBadVoteParamter
  | EBadBRCTransactionParamter | EBrcTranscationField | EChangeMinerFailed | EDefaultError.
#[export] Instance TransactionException_eq_dec : EqDecision TransactionException.
Proof. solve_decision. Defined.

(** [toTransactionException]; the exceptions of the virtual machine stay behind its interface. *)
Definition toTransactionException (e : exn) : TransactionException :=
  match e with
  | BadCast | BadRLP | UndersizeRLP | OversizeRLP | RLPException => EBadRLP
  | OutOfGasIntrinsic => EOutOfGasIntrinsic
  | InvalidSignature => EInvalidSignature
  | InvalidNonce => EInvalidNonce
  | NotEnoughCash => ENotEnoughCash
  | NotEnoughBallot => ENotEnoughBallot
  | BlockGasLimitReached => EBlockGasLimitReached
  | _ => EUnknown
  end.

(** [initializeEnum] *)
Inductive initializeEnum := rpcinitialize | executeinitialize | estimateGas.
#[export] Instance initializeEnum_eq_dec : EqDecision initializeEnum.
Proof. solve_decision. Defined.

(** [ImportRequirements]: which checks of a block are asked for. *)
Definition IR_ValidSeal : Z := 1.
Definition IR_UncleBasic : Z := 4.
Definition IR_TransactionBasic : Z := 8.
Definition IR_UncleSeals : Z := 16.
Definition IR_TransactionSignatures : Z := 32.
Definition IR_Parent : Z := 64.
Definition IR_UncleParent : Z := 128.
Definition IR_PostGenesis : Z := 256.
Definition IR_OutOfOrderChecks : Z := 61.
Definition IR_Everything : Z := 253.
Definition ir_has (_ir flags : Z) : bool := negb (Z.land _ir flags =? 0).

(** [ChainOperationParams]: what the executive reads. *)
Record ChainParams := mkParams {
  homesteadForkBlock : Z; EIP150ForkBlock : Z; EIP158ForkBlock : Z; byzantiumForkBlock : Z;
  eWASMForkBlock : Z; constantinopleForkBlock : Z; experimentalForkBlock : Z;
  chainID : Z; m_minGasPrice : u256 }.

(** [ExtVM] and [SubState] *)
Record ExtVM := mkExt {
  x_myAddress : Address; x_caller : Address; x_origin : Address; x_value : u256; x_gasPrice : u256;
  x_data : bytes; x_code : bytes; x_codeHash : h256; x_isCreate : bool }.
Record SubState := mkSub { selfdestructs : gset Address; refunds : int64 }.
Definition sub_empty : SubState := mkSub ∅ 0.

(** How [vm->exec] ends: with output, with [RevertInstruction], with a [VMException]
    (as [toTransactionException] gives it), with [InternalVMError], or with an exception
    that makes the node exit.  The gas is the [io_gas] argument afterwards. *)
Inductive vm_result :=
  | VmOutput (out : bytes) (gas : u256) (sub : SubState)
  | VmRevert (out : bytes) (gas : u256)
  | VmFailed (e : TransactionException)
  | VmInternalError
  | VmUnexpected.

Class Machine := {
  isPrecompiled : Address → int64 → bool;
  costOfPrecompiled : Address → bytes → int64 → Z;
  executePrecompiled : Address → bytes → int64 → bool * bytes;
  vm_exec : u256 → ExtVM → EnvInfo → M vm_result }.

(** The members of [Executive]. *)
Record Exec := mkExec {
  m_excepted : TransactionException;
  m_baseGasRequired : int64;
  m_gas : u256;
  m_totalGas : u256;
  m_addCostValue : u256;
  m_needRefundGas : u256;
  m_batch_params : Z * list operation;
  m_ext : option ExtVM;
  m_sub : SubState;
  m_isCreation : bool;
  m_newAddress : Address;
  m_savepoint : nat;
  m_output : bytes }.
Definition Exec_new (base : int64) : Exec :=
  mkExec ENone base 0 0 0 0 (op_null, []) None sub_empty false 0 0 [].

#[export] Instance Exec_reshape : Reshape Exec := λ x, mkExec (m_excepted x) (m_baseGasRequired x) (m_gas x)
  (m_totalGas x) (m_addCostValue x) (m_needRefundGas x) (m_batch_params x) (m_ext x) (m_sub x) (m_isCreation x)
  (m_newAddress x) (m_savepoint x) (m_output x).
#[export] Instance m_excepted_field : Field m_excepted := ltac:(field_setter).
#[export] Instance m_gas_field : Field m_gas := ltac:(field_setter).
#[export] Instance m_totalGas_field : Field m_totalGas := ltac:(field_setter).
#[export] Instance m_addCostValue_field : Field m_addCostValue := ltac:(field_setter).
#[export] Instance m_needRefundGas_field : Field m_needRefundGas := ltac:(field_setter).
#[export] Instance m_batch_params_field : Field m_batch_params := ltac:(field_setter).
#[export] Instance m_ext_field : Field m_ext := ltac:(field_setter).
#[export] Instance m_sub_field : Field m_sub := ltac:(field_setter).
#[export] Instance m_isCreation_field : Field m_isCreation := ltac:(field_setter).
#[export] Instance m_newAddress_field : Field m_newAddress := ltac:(field_setter).
#[export] Instance m_savepoint_field : Field m_savepoint := ltac:(field_setter).
#[export] Instance m_output_field : Field m_output := ltac:(field_setter).

(** The gas schedules that differ in what the executive reads. *)
Definition FrontierSchedule : BRCSchedule := mkSchedule false 24000 200 21000 21000 4 68 (2 ^ 32 - 1).
Definition newBifurcationBvmSchedule : BRCSchedule := mkSchedule true 24000 200 21000 53000 4 16 0x6000.

Section Executive.
Context `{CR : Crypto, CF : Config, ST_ : !StorageTrie, RN : Rng, CO : !AccountCodec, MA : Machine}.
Context (p : ChainParams).

(** [ChainOperationParams::scheduleForBlockNumber]; [EWASMSchedule] lifts the limit of code sizes. *)
Definition brcSchedule (n : int64) : BRCSchedule :=
  if newBifurcationBvmHeight <=? n then newBifurcationBvmSchedule
  else if experimentalForkBlock p <=? n then EIP158Schedule
  else if constantinopleForkBlock p <=? n then EIP158Schedule
  else if eWASMForkBlock p <=? n then HomesteadSchedule
  else if byzantiumForkBlock p <=? n then EIP158Schedule
  else if EIP158ForkBlock p <=? n then EIP158Schedule
  else if EIP150ForkBlock p <=? n then HomesteadSchedule
  else if homesteadForkBlock p <=? n then HomesteadSchedule
  else FrontierSchedule.
Definition base_gas (t : Transaction) (env : EnvInfo) : int64 :=
  baseGasRequired (isCreation t) (t_data t) (brcSchedule (env_number env)).

(** [SealEngineFace::verifyTransaction]; [_ir] selects the checks. *)
Definition verifyTransaction (_ir : Z) (t : Transaction) (env : EnvInfo) : outcome unit :=
  let n := env_number env in
  let signatures := ir_has _ir IR_TransactionSignatures in
  let basic := ir_has _ir IR_TransactionBasic in
  if signatures && (n <? EIP158ForkBlock p) && isReplayProtected t then Throw InvalidSignature
  else if signatures && (n <? experimentalForkBlock p) && hasZeroSignature t then Throw InvalidSignature
  else if basic && (experimentalForkBlock p <=? n) && hasZeroSignature t
          && (negb (t_value t =? 0) || negb (t_gasPrice t =? 0) || negb (t_nonce t =? 0))
  then Throw InvalidZeroSignatureTransaction
  else
    (if (homesteadForkBlock p <=? n) && signatures && bool_decide (is_Some (t_vrs t)) then checkLowS t else Ok tt) ;;
    if basic && (t_gas t <? base_gas t env) then Throw OutOfGasIntrinsic
    else if env_gasLimit env <? env_gasUsed env + t_gas t then Throw BlockGasLimitReached
    else if signatures then checkChainId (chainID p) t else Ok tt.

(** ** [initialize] *)

(** Blocks up to a height let a nonce be ahead of the account's; a transaction that comes
    in by RPC may be ahead as well. *)
Definition checkNonce (t : Transaction) (env : EnvInfo) (enum : initializeEnum) (nonceReq : u256) : M unit :=
  if ((env_number env <=? 1740000) && (env_chain_id env =? 0xb))
     || ((env_number env <=? 1200157) && (env_chain_id env =? 0x1))
     || bool_decide (enum = rpcinitialize)
  then require (negb (t_nonce t <? nonceReq)) InvalidNonce
  else require (t_nonce t =? nonceReq) InvalidNonce.
Definition checkGasPrice (t : Transaction) (env : EnvInfo) : M unit :=
  least ← (if gasPriceHeight <? env_number env then getAveragegasPrice else mret (m_minGasPrice p));
  require (negb (t_gasPrice t <? least)) InvalidGasPrice.

(** What the batch is read, checked and executed with.  The hash is taken only for the
    types that use it. *)
Definition batch_env_of (t : Transaction) (env : EnvInfo) (from : Address) (h : h256) : batch_env :=
  mkBatch from env h (t_gas t) (t_gasPrice t) (base_gas t env).
Definition batch_hash (t : Transaction) (enum : initializeEnum) (ty : Z) : outcome h256 :=
  if (ty =? op_pendingOrder) || (ty =? op_transferAutoEx)
  then transaction_sha3 (negb (bool_decide (enum = estimateGas))) t else Ok 0.

(** A transaction that is not a batch has to be affordable. *)
Definition checkCall (t : Transaction) (env : EnvInfo) (from : Address) (x : Exec) : M Exec :=
  let totalCost := t_gas t * t_gasPrice t in
  b ← balance from;
  c ← (if b <? totalCost then mret 0 else BRC from);
  require (negb ((b <? totalCost) || (c <? t_value t) || (t_gas t <? base_gas t env))) ExecutiveFailed ;;
  mret (if modifyReciptGasHeight <? env_number env then x <| m_totalGas := w256 totalCost |> else x).

Definition checkBatch (t : Transaction) (env : EnvInfo) (enum : initializeEnum) (from : Address) (x : Exec) : M Exec :=
  r ← read_batch (batch_env_of t env from 0) (t_data t);
  h ← lift (batch_hash t enum r.1);
  let e := batch_env_of t env from h in
  verify_batch e r.1 r.2 ;;
  mret (x <| m_addCostValue := add_cost e r.1 |> <| m_totalGas := w256 (total_cost e r.1) |> <| m_batch_params := r |>).

Definition initialize (t : Transaction) (env : EnvInfo) (enum : initializeEnum) : M Exec :=
  let x := Exec_new (base_gas t env) in
  x ← match verifyTransaction IR_Everything t env with
      | Ok _ => mret x
      | Throw e => if bool_decide (e = InvalidSignature) then throw e
                   else mret (x <| m_excepted := toTransactionException e |>)
      | _ => undef
      end;
  if hasZeroSignature t then mret x
  else
    from ← lift (sender t);
    nonceReq ← getNonce from;
    checkNonce t env enum nonceReq ;;
    checkGasPrice t env ;;
    if isVoteTranction t then checkBatch t env enum from x else checkCall t env from x.

(** ** [execute] *)

(** EIP86: the entry point sends without a nonce. *)
Definition bump_nonce (from : Address) (env : EnvInfo) : M unit :=
  when (bool_decide (from ≠ MaxAddress) || (env_number env <? experimentalForkBlock p)) (incNonce from).

(** The code of the receiver, precompiled or stored.  [inr]: nothing more is to be done. *)
Definition call_code (t : Transaction) (env : EnvInfo) (from : Address) (gas : u256) (x : Exec) : M (Exec + Exec) :=
  let n := env_number env in
  let to := t_receiveAddress t in
  if isPrecompiled to n then
    let g := costOfPrecompiled to (t_data t) n in
    if gas <? g then
      when (EIP158ForkBlock p <=? n) (addBalance to 0) ;;
      mret (inr (x <| m_excepted := EOutOfGasBase |>))
    else
      let '(success, output) := executePrecompiled to (t_data t) n in
      let x := x <| m_gas := w256 (gas - g) |> <| m_output := output |> in
      mret (if success then inl x else inr (x <| m_gas := 0 |> <| m_excepted := EOutOfGas |>))
  else
    has ← addressHasCode to;
    if has : bool then
      c ← code to;
      h ← codeHash to;
      mret (inl (x <| m_gas := gas |>
        <| m_ext := Some (mkExt to from from (t_value t) (t_gasPrice t) (t_data t) c h false) |>))
    else mret (inl (x <| m_gas := gas |>)).

(** [call]; the boolean says that [go] is not needed. *)
Definition call (fuel : nat) (t : Transaction) (env : EnvInfo) (enum : initializeEnum) (from : Address) (gas : u256)
    (x : Exec) : M (bool * Exec) :=
  when (bool_decide (t_type t ≠ NullTransaction)) (bump_nonce from env) ;;
  sp ← savepoint;
  r ← call_code t env from gas (x <| m_savepoint := sp |>);
  match r with
  | inr x => mret (true, x)
  | inl x =>
      if negb (isVoteTranction t) then
        transferBRC from (t_receiveAddress t) (t_value t) ;;
        mret (bool_decide (m_ext x = None), x)
      else if bool_decide ((m_batch_params x).2 = []) then mret (false, x)
      else
        h ← lift (batch_hash t enum (m_batch_params x).1);
        execute_batch fuel (batch_env_of t env from h) (m_batch_params x).1 (m_batch_params x).2 ;;
        mret (true, x <| m_batch_params := (op_null, []) |>)
  end.

(** [revert]: back to the savepoint taken after the nonce. *)
Definition revert (x : Exec) : M Exec :=
  rollback (m_savepoint x) ;; mret (x <| m_sub := sub_empty |> <| m_newAddress := 0 |>).

(** [createOpcode] and [executeCreate] *)
Definition create (t : Transaction) (env : EnvInfo) (from : Address) (gas : u256) (x : Exec) : M (bool * Exec) :=
  nonce ← getNonce from;
  let addr := right160 (sha3 (encode (Items [rlp_hash 20 from; rlp_int nonce]))) in
  bump_nonce from env ;;
  sp ← savepoint;
  let x := x <| m_newAddress := addr |> <| m_savepoint := sp |> <| m_isCreation := true |> <| m_gas := gas |> in
  has ← addressHasCode addr;
  n ← (if has : bool then mret 0 else getNonce addr);
  if has || (0 <? n) then
    x ← revert (x <| m_gas := 0 |> <| m_excepted := EAddressAlreadyUsed |>);
    mret (true, x <| m_ext := None |>)
  else
    transferBRC from addr (t_value t) ;;
    start ← requireAccountStartNonce;
    setNonce addr (if EIP158ForkBlock p <=? env_number env then start [+] 1 else start) ;;
    clearStorage addr ;;
    mret (bool_decide (t_data t = []),
          if bool_decide (t_data t = []) then x
          else x <| m_ext := Some (mkExt addr from from (t_value t) (t_gasPrice t) [] (t_data t) (sha3 (t_data t)) true) |>).

(** The assertion at the start, that the gas is at least the base gas, is compiled out of
    release builds and left out here; where it would fail the difference below wraps. *)
Definition execute (fuel : nat) (t : Transaction) (env : EnvInfo) (enum : initializeEnum) (x : Exec) : M (bool * Exec) :=
  let base := m_baseGasRequired x in
  let x := x <| m_needRefundGas := m_totalGas x [-] (base [*] t_gasPrice t) [-] m_addCostValue x |> in
  from ← lift (sender t);
  gas ← (if modifyReciptGasHeight <? env_number env then u256_div (m_needRefundGas x) (t_gasPrice t)
         else mret (t_gas t [-] base));
  if isCreation t then create t env from gas x else call fuel t env enum from gas x.

(** ** [go] *)

(** What a creation deposits, or [None] when it runs out of gas. *)
Definition deposit (sch : BRCSchedule) (out : bytes) (gas : u256) : option (bytes * u256) :=
  if maxCodeSize sch <? len out then None
  else if len out * createDataGas sch <=? gas then Some (out, gas [-] (len out * createDataGas sch))
  else if exceptionalFailedCodeDeposit sch then None else Some ([], gas).

Definition go (env : EnvInfo) (x : Exec) : M Exec :=
  match m_ext x with
  | None => mret x
  | Some ext =>
      r ← vm_exec (m_gas x) ext env;
      match r with
      | VmOutput out gas sub =>
          let x := x <| m_gas := gas |> <| m_sub := sub |> in
          if m_isCreation x then
            match deposit (brcSchedule (env_number env)) out gas with
            | Some (c, gas) => setCode (x_myAddress ext) c ;; mret (x <| m_gas := gas |>)
            | None => revert (x <| m_gas := 0 |> <| m_excepted := EOutOfGas |>)
            end
          else mret (x <| m_output := out |>)
      | VmRevert out gas => revert (x <| m_gas := gas |> <| m_output := out |> <| m_excepted := ERevertInstruction |>)
      | VmFailed e => revert (x <| m_gas := 0 |> <| m_excepted := e |>)
      | VmInternalError => _ ← revert x; throw InternalVMError
      | VmUnexpected => exit1
      end
  end.

(** ** [finalize] *)

(** [static_cast<int64_t>] of a [u256]; only values that fit are modelled. *)
Definition to_int64 (z : u256) : M int64 := if z <=? INT64_MAX then mret z else undef.

(** Refunds of the code that ran, at most half of the gas. *)
Definition refund (t : Transaction) (env : EnvInfo) (x : Exec) : M Exec :=
  match m_ext x with
  | None => mret x
  | Some _ =>
      let r := refunds (m_sub x) + suicideRefundGas (brcSchedule (env_number env)) * Z.of_nat (size (selfdestructs (m_sub x))) in
      a ← to_int64 (t_gas t);
      b ← to_int64 (m_gas x);
      mret (x <| m_gas := m_gas x [+] Z.min (Z.quot (a - b) 2) r |> <| m_sub := mkSub (selfdestructs (m_sub x)) r |>)
  end.

(** The producer's income goes to the address it is mapped to. *)
Definition credit_author (env : EnvInfo) (fee : u256) : M unit :=
  up_addr ← (if newChangeHeight <=? env_number env then
               m ← minerMapping (env_author env); mret (if m.1 =? 0 then env_author env else m.1)
             else mret (env_author env));
  try_new_vote_snapshot up_addr (env_number env) ;;
  addCooikeIncomeNum up_addr fee.

(** The refund stays in [m_gas], from which the receipt is computed. *)
Definition finalize (t : Transaction) (env : EnvInfo) (x : Exec) : M (bool * Exec) :=
  x ← refund t env x;
  when (bool_decide (t_type t ≠ NullTransaction))
    (from ← lift (sender t);
     if modifyReciptGasHeight <=? env_number env then
       let fee := m_totalGas x [-] (m_gas x [*] t_gasPrice t) in
       subBalance from fee ;; credit_author env fee
     else
       let fee := m_totalGas x [-] m_needRefundGas x in
       subBalance from fee ;; addBlockReward (env_author env) (env_number env) fee ;; credit_author env fee) ;;
  when (bool_decide (is_Some (m_ext x))) (forM (elements (selfdestructs (m_sub x))) killAccount) ;;
  mret (bool_decide (m_excepted x = ENone), x).

(** ** The transaction *)
Definition transact (fuel : nat) (t : Transaction) (env : EnvInfo) (enum : initializeEnum) : M (bool * Exec) :=
  x ← initialize t env enum;
  '(done, x) ← execute fuel t env enum x;
  x ← (if done : bool then mret x else go env x);
  finalize t env x.

(** [gasUsed], for the receipt. *)
Definition gasUsed (t : Transaction) (env : EnvInfo) (x : Exec) : M u256 :=
  if modifyReciptGasHeight <? env_number env then
    q ← u256_div (m_totalGas x) (t_gasPrice t); mret (q [-] m_gas x)
  else if (env_chain_id env =? TESTCHAINID) && (newBifurcationBvmHeight <=? env_number env)
  then mret (m_totalGas x [-] m_needRefundGas x)
  else mret (t_gas t [-] m_gas x).

(** [State::execute]: the status and the cumulative gas of the receipt. *)
Inductive Permanence := Reverted | Committed | Uncommitted.
Definition State_execute (fuel : nat) (t : Transaction) (env : EnvInfo) (enum : initializeEnum) (_p : Permanence)
    : M (bool * u256) :=
  '(statusCode, x) ← executeTransaction (transact fuel t env enum);
  match _p with
  | Reverted => modS (λ s, s <| m_cache := ∅ |>)
  | Committed => commit (EIP158ForkBlock p <=? env_number env)
  | Uncommitted => mret tt
  end ;;
  g ← gasUsed t env x;
  mret (statusCode, env_gasUsed env [+] g).

(** [State::executeBlockTransactions] *)
Definition executeBlockTransactions (fuel : nat) (env : EnvInfo) (txs : list Transaction) : M u256 :=
  foldM (λ used t,
    let env := mkEnv (env_number env) (env_timestamp env) (env_chain_id env) (env_author env) used (env_gasLimit env) in
    '(_, x) ← executeTransaction (transact fuel t env executeinitialize);
    g ← gasUsed t env x;
    mret (used [+] g)) 0 txs.
End Executive.
