(* ===== verification/BlockVerify.v ===== *)
(** * Verification of whole blocks (libbrcdchain/BlockChain.cpp, ThreadPackTransactions.h)

    [BlockChain::verifyBlock]: header, uncles and transactions of the bytes of a block,
    with the blocks the chain has stored for the parents. *)
From stdpp Require Import base gmap list.
From Stdlib Require Import ZArith Lia.
From S2P Require Import Prelude Rlp Config Interfaces Transaction BlockHeader Verify Executive.
Open Scope Z_scope.

(** ** [Task::go_task] *)

(** The vector [source.begin() + a .. source.begin() + b]. *)
Definition slice {A} (l : list A) (a b : nat) : outcome (list A) :=
  if decide (a <= b <= length l)%nat then Ok (take (b - a) (drop a l)) else Undef.
(** The parts the threads get; the last one takes the surplus. *)
Definition split_source {A} (m_thread : nat) (source : list A) : outcome (list (list A)) :=
  let size := length source in
  if decide (m_thread = 0)%nat then Undef
  else
    let one_size := (size / m_thread)%nat in
    if decide (one_size = 0)%nat then Undef
    else
      let sp_size := (size mod one_size)%nat in
      mapO (λ i, if decide (i = m_thread - 1 ∧ sp_size ≠ 0)%nat
                 then slice source (i * one_size) ((i + 1) * one_size + sp_size)
                 else slice source (i * one_size) ((i + 1) * one_size)) (seq 0 m_thread).
(** Each thread converts its part; the results are fetched and joined in the order of the
    parts, so that the exception of the first part that has one is rethrown. *)
Definition go_task {A B} (m_thread : nat) (conver_func : A → outcome B) (source : list A) : outcome (list B) :=
  parts ← split_source m_thread source; results ← mapO (mapO conver_func) parts; Ok (concat results).

(** ** The blocks the chain has stored *)

(** The identifiers of cached values: a hash and the kind of the value; a block is of the
    kind [(unsigned)-1]. *)
Abbreviation CacheID := (h256 * Z)%type.
Definition ExtraBlock : Z := 2 ^ 32 - 1.
(** [m_cacheUsage], a deque of [c_collectionQueueSize] sets, never fewer than two. *)
Record CacheUsage := mkUsage { u_front : gset CacheID; u_second : gset CacheID; u_rest : list (gset CacheID) }.

(** [m_genesisHash], [m_genesisHeaderBytes], the cache [m_blocks], the database
    [m_blocksDB] (an empty value is as good as none), [m_cacheUsage] and [m_inUse]. *)
Record BlockStore := mkStore {
  bs_genesisHash : h256; bs_genesisHeaderBytes : bytes; bs_blocks : gmap h256 bytes; bs_blocksDB : gmap h256 bytes;
  bs_cacheUsage : CacheUsage; bs_inUse : gset CacheID }.
#[export] Instance BlockStore_reshape : Reshape BlockStore :=
  λ s, mkStore (bs_genesisHash s) (bs_genesisHeaderBytes s) (bs_blocks s) (bs_blocksDB s) (bs_cacheUsage s) (bs_inUse s).
#[export] Instance bs_blocks_field : Field bs_blocks := ltac:(field_setter).
#[export] Instance bs_blocksDB_field : Field bs_blocksDB := ltac:(field_setter).
#[export] Instance bs_cacheUsage_field : Field bs_cacheUsage := ltac:(field_setter).
#[export] Instance bs_inUse_field : Field bs_inUse := ltac:(field_setter).

Definition noteUsed (_h : h256) (_extra : Z) (s : BlockStore) : BlockStore :=
  let id := (_h, _extra) in
  let u := bs_cacheUsage s in
  if bool_decide (id ∈ u_second u)
  then s <| bs_cacheUsage := mkUsage (u_front u ∪ {[id]}) (u_second u ∖ {[id]}) (u_rest u) |>
  else s <| bs_cacheUsage := mkUsage (u_front u ∪ {[id]}) (u_second u) (u_rest u) |> <| bs_inUse ::= λ v, v ∪ {[id]} |>.
(** A block read from the database is kept in the cache. *)
Definition memo_block (_hash : h256) (d : bytes) (s : BlockStore) : BlockStore :=
  (noteUsed _hash ExtraBlock s) <| bs_blocks ::= <[_hash := d]> |>.
Definition headerData (_hash : h256) : ST BlockStore bytes :=
  s ← getS;
  if bool_decide (_hash = bs_genesisHash s) then mret (bs_genesisHeaderBytes s)
  else match bs_blocks s !! _hash with
  | Some b => lift (extractHeader b)
  | None =>
      let d := default [] (bs_blocksDB s !! _hash) in
      if bool_decide (d = []) then mret []
      else modS (memo_block _hash d) ;; lift (extractHeader d)
  end.

Record VerifiedBlockRef := mkVerified { vb_info : BlockHeader; vb_transactions : list Transaction }.
Definition c_maxSyncTransactions : Z := 1000.

Section BlockVerify.
Context `{CR : Crypto, CF : Config}.
(** Fields of one [ChainOperationParams]. *)
Context (p : ChainParams) (hp : HeaderParams).

(** The header a parent hash stands for, when the parent is asked for. *)
Definition parent_for (wanted : bool) (missing : exn) (parentHash : h256) : ST BlockStore BlockHeader :=
  if wanted then
    parentHeader ← headerData parentHash;
    if bool_decide (parentHeader = []) then throw missing else lift (header_of_data parentHeader parentHash)
  else mret header_new.
(** [sealEngine()->verify] of a header, which is left with its hashes remembered. *)
Definition verified_header (_s : Strictness) (parent : BlockHeader) (_block : bytes) (h : BlockHeader) : outcome BlockHeader :=
  let '(r, h') := seal_verify hp _s parent _block h in r ;; Ok h'.

Definition verify_uncle (_ir : Z) (uncle : bytes) : ST BlockStore unit :=
  uh ← lift (header_of_data uncle 0);
  parent ← parent_for (ir_has _ir IR_UncleParent) InvalidUncleParentHash (h_parentHash uh);
  _ ← lift (verified_header (if ir_has _ir IR_UncleSeals then StrictEverything else IgnoreSeal) parent [] uh);
  mret tt.

Definition header_env (h : BlockHeader) : EnvInfo :=
  mkEnv (h_number h) (h_timestamp h) (h_chain_id h) (h_author h) 0 (h_gasLimit h).
Definition block_tx (_ir : Z) (b : bytes) : outcome Transaction :=
  transaction_of_rlp (if ir_has _ir IR_TransactionSignatures then CheckEverything else CheckNone) b.
Definition check_tx (_ir : Z) (h : BlockHeader) (b : bytes) : outcome Transaction :=
  t ← block_tx _ir b; verifyTransaction p _ir t (header_env h) ;; Ok t.
(** Threads for [n] transactions: an even number, at most 8. *)
Definition thread_count (n : nat) : nat :=
  let th_num := (n / 200 + 1)%nat in
  let th_num := if Nat.odd th_num then (th_num - 1)%nat else th_num in
  if (8 <? th_num)%nat then 8%nat else th_num.
Definition verify_transactions (_ir : Z) (h : BlockHeader) (txs : list bytes) : outcome (list Transaction) :=
  let n := length txs in
  if c_maxSyncTransactions <? Z.of_nat n then Throw TooMuchTransaction
  else if 300 <? Z.of_nat n then
    ret_t ← go_task (thread_count n) (block_tx _ir) txs;
    _ ← mapO (λ t, verifyTransaction p _ir t (header_env h)) ret_t;
    Ok ret_t
  else mapO (check_tx _ir h) txs.

Definition verifyBlock (_block : bytes) (_ir : Z) : ST BlockStore VerifiedBlockRef :=
  h ← lift (header_of_block _block);
  if ir_has _ir IR_PostGenesis && (bool_decide (h_parentHash h = 0) || (h_number h =? 0)) then throw InvalidParentHash
  else
    parent ← parent_for (ir_has _ir IR_Parent) InvalidParentHash (h_parentHash h);
    h ← lift (verified_header (if ir_has _ir IR_ValidSeal then StrictEverything else QuickNonce) parent _block h);
    r ← lift (RLP _block);
    when (ir_has _ir (Z.lor IR_UncleBasic (Z.lor IR_UncleParent IR_UncleSeals)))
      (x ← lift (item r 2); uncles ← lift (rlp_list x); forM uncles (verify_uncle _ir)) ;;
    transactions ← (if ir_has _ir (Z.lor IR_TransactionBasic IR_TransactionSignatures) then
                      x ← lift (item r 1); txs ← lift (rlp_list x); lift (verify_transactions _ir h txs)
                    else mret []);
    mret (mkVerified h transactions).
End BlockVerify.
