(* ===== verification/BlockVerifyProofs.v ===== *)
(** * Which blocks are verified

    Splitting the transactions over threads changes nothing; and the checks that can be
    made without the rest of the chain accept exactly the blocks described by [verified]. *)
From stdpp Require Import base gmap list.
From Stdlib Require Import ZArith Lia.
From S2P Require Import Prelude Rlp RlpProofs Config Interfaces Transaction TransactionProofs Wire BlockHeader BlockHeaderProofs Blocks Verify Executive BlockVerify.
Open Scope Z_scope.

(** ** Threads *)
Lemma mapO_iff {A B} (f : A → outcome B) l ys : mapO f l = Ok ys ↔ Forall2 (λ x y, f x = Ok y) l ys.
Proof.
  split; [apply mapO_Ok|]. induction 1 as [|x y l ys Hx _ IH]; [done|]. cbn [mapO]. rewrite Hx. cbn [mbind outcome_bind]. by rewrite IH.
Qed.
Lemma mapO_app {A B} (f : A → outcome B) l1 l2 : mapO f (l1 ++ l2) = (a ← mapO f l1; b ← mapO f l2; Ok (a ++ b)).
Proof.
  induction l1 as [|x l1 IH]; cbn [mapO app mbind outcome_bind]; [by rewrite bind_Ok_r|].
  destruct (f x); cbn [mbind outcome_bind]; [|done..]. rewrite IH. destruct (mapO f l1); cbn [mbind outcome_bind]; [|done..].
  by destruct (mapO f l2).
Qed.
Lemma mapO_concat {A B} (f : A → outcome B) ls : (r ← mapO (mapO f) ls; Ok (concat r)) = mapO f (concat ls).
Proof.
  induction ls as [|l ls IH]; [done|]. cbn [mapO concat]. rewrite mapO_app, <-IH.
  destruct (mapO f l); cbn [mbind outcome_bind]; [|done..]. by destruct (mapO (mapO f) ls).
Qed.
Lemma mapO_then {A B} (f : A → outcome B) (g : B → outcome unit) l r :
  (ts ← mapO f l; _ ← mapO g ts; Ok ts) = Ok r ↔ mapO (λ x, t ← f x; g t ;; Ok t) l = Ok r.
Proof.
  rewrite mapO_iff. split.
  - intros E. ok_bind E ts Ets. ok_bind E us Eus. injection E as ->. apply mapO_iff in Ets, Eus. revert us Eus.
    induction Ets as [|x y l ys Hx _ IH]; intros us Eus; [constructor|]. apply Forall2_cons_inv_l in Eus as ([]&us'&Hg&Hus&_).
    constructor; [|by eapply IH]. rewrite Hx. cbn [mbind outcome_bind]. by rewrite Hg.
  - intros Hr. assert (Forall2 (λ x y, f x = Ok y) l r ∧ Forall2 (λ y u, g y = Ok u) r (replicate (length r) tt)) as [H1 H2].
    { induction Hr as [|x y l ys Hx _ [IH1 IH2]]; [done|]. ok_bind Hx y' Ey. ok_bind Hx u Eu. injection Hx as ->. destruct u.
      split; [by constructor|]. cbn [length replicate]. by constructor. }
    apply mapO_iff in H1 as ->. cbn [mbind outcome_bind]. by apply mapO_iff in H2 as ->.
Qed.

Section Split.
Context {A : Type} (source : list A) (m : nat) (Hm : (0 < m)%nat) (Hs : (m * m <= length source)%nat).
Let one := (length source / m)%nat.
Lemma split_one : (m <= one)%nat ∧ (length source mod one)%nat = (length source - m * one)%nat ∧ (m * one <= length source)%nat.
Proof using Hm Hs.
  assert (m <= one)%nat as Ho by (apply Nat.div_le_lower_bound; lia).
  pose proof (Nat.div_mod_eq (length source) m) as Hd. pose proof (Nat.mod_upper_bound (length source) m ltac:(lia)) as Hr. fold one in Hd.
  split; [done|]. split; [|lia]. symmetry. apply (Nat.mod_unique _ _ m); lia.
Qed.
Lemma split_front k : (k < m)%nat → ∃ parts, mapO (λ i, slice source (i * one) ((i + 1) * one)) (seq 0 k) = Ok parts ∧ concat parts = take (k * one) source.
Proof using Hm Hs.
  destruct split_one as (_&_&Ho). induction k as [|k IH]; intros Hk; [by exists []|]. destruct IH as (parts&E&Ec); [lia|].
  rewrite seq_S, mapO_app, E. cbn [mbind outcome_bind mapO Nat.add]. unfold slice. rewrite decide_True by nia. cbn [mbind outcome_bind].
  eexists. split; [done|]. rewrite concat_app, Ec. cbn [concat]. rewrite app_nil_r. replace ((k + 1) * one - k * one)%nat with one by lia.
  replace (S k * one)%nat with (k * one + one)%nat by lia. by rewrite <-take_take_drop.
Qed.
Lemma split_source_ok : ∃ parts, split_source m source = Ok parts ∧ concat parts = source.
Proof using Hm Hs.
  destruct split_one as (Ho&Hr&Hn). destruct (split_front (m - 1)) as (parts&E&Ec); [lia|].
  unfold split_source. fold one. rewrite decide_False, decide_False by lia. cbv zeta. replace (seq 0 m) with (seq 0 (m - 1) ++ [(m - 1)%nat]).
  - match goal with |- context [mapO ?f (_ ++ _)] => assert (mapO f (seq 0 (m - 1)) = Ok parts) as Ef end.
    { apply mapO_iff in E. apply mapO_iff, Forall2_same_length_lookup_2; [exact (Forall2_length _ _ _ E)|]. intros i x y Hx Hy.
      pose proof (Forall2_lookup_lr _ _ _ _ _ _ E Hx Hy) as Hxy. apply lookup_seq in Hx as [-> ?]. by rewrite decide_False by lia. }
    rewrite mapO_app, Ef.
    cbn [mbind outcome_bind mapO]. rewrite Hr. unfold slice. exists (parts ++ [drop ((m - 1) * one) source]).
    split; [|rewrite concat_app, Ec; cbn [concat]; by rewrite app_nil_r, take_drop].
    destruct (decide (m * one = length source)%nat) as [He|He].
    + rewrite decide_False, decide_True by nia. cbn [mbind outcome_bind]. do 2 f_equal. rewrite firstn_all2; [done|rewrite length_drop; nia].
    + rewrite decide_True, decide_True by nia. cbn [mbind outcome_bind]. do 2 f_equal. rewrite firstn_all2; [done|rewrite length_drop; nia].
  - replace m with (S (m - 1)) at 3 by lia. by rewrite seq_S.
Qed.
Lemma go_task_ok {B} (f : A → outcome B) : go_task m f source = mapO f source.
Proof using Hm Hs. unfold go_task. destruct split_source_ok as (parts&->&<-). cbn [mbind outcome_bind]. apply mapO_concat. Qed.
End Split.
Lemma thread_count_ok n : (300 < n <= 1000)%nat → (1 <= thread_count n <= 6)%nat.
Proof.
  intros Hn. unfold thread_count. pose proof (Nat.div_mod_eq n 200). pose proof (Nat.mod_upper_bound n 200 ltac:(lia)).
  cbv zeta. destruct (Nat.odd _) eqn:Eo; [destruct (decide (n / 200 = 0)%nat); [lia|]|]; destruct (Nat.ltb_spec 8 (n / 200 + 1 - 1)), (Nat.ltb_spec 8 (n / 200 + 1)); lia.
Qed.

(** ** Computations that leave the state alone *)
Definition yields {S A} (m : ST S A) (s : S) (P : A → Prop) : Prop := (m s).2 = s ∧ ∀ a, (m s).1 = Ok a ↔ P a.
Lemma yields_ext {S A} (m : ST S A) s (P Q : A → Prop) : yields m s P → (∀ a, P a ↔ Q a) → yields m s Q.
Proof. intros [E H] HPQ. split; [done|]. intros a. by rewrite H. Qed.
Lemma yields_ret {S A} (s : S) (a : A) : yields (mret a) s (λ b, a = b).
Proof. split; [done|]. intros b. split; [by intros [= ->]|by intros ->]. Qed.
Lemma yields_lift {S A} (o : outcome A) (s : S) : yields (lift o) s (λ a, o = Ok a).
Proof. by split. Qed.
Lemma yields_bind {S A B} (m : ST S A) (k : A → ST S B) s P (Q : A → B → Prop) :
  yields m s P → (∀ a, P a → yields (k a) s (Q a)) → yields (m ≫= k) s (λ b, ∃ a, P a ∧ Q a b).
Proof.
  intros [Em Hm] Hk. unfold yields, mbind, ST_bind. destruct (m s) as [[a|e| | |] s'] eqn:E; cbn in Em, Hm |- *; subst s'.
  { assert (P a) as Pa by by apply Hm. destruct (Hk a Pa) as [Ek Hb]. split; [done|]. intros b. rewrite Hb. split; [by exists a|].
    intros (a'&Pa'&Q'). apply Hm in Pa'. by injection Pa' as <-. }
  all: split; [done|]; intros b; split; [done|]; intros (a'&Pa'&_); by apply Hm in Pa'.
Qed.
Lemma yields_forM {S A} (f : A → ST S unit) l s (P : A → Prop) :
  (∀ x, x ∈ l → yields (f x) s (λ _, P x)) → yields (forM l f) s (λ _, Forall P l).
Proof.
  induction l as [|x l IH]; intros Hf; cbn [forM].
  - eapply yields_ext; [apply yields_ret|]. intros []. by split.
  - eapply yields_ext.
    + apply (yields_bind _ _ _ (λ _, P x) (λ _ _, Forall P l)); [apply Hf; set_solver|]. intros _ _. apply IH. intros y Hy. apply Hf. set_solver.
    + intros a. rewrite Forall_cons. split; [by intros (_&?&?)|]. intros [??]. by exists tt.
Qed.

(** ** The checks that need no other block *)
Section Verified.
Context `{CR : Crypto, CF : Config} (p : ChainParams) (hp : HeaderParams).

(** A header by itself: no parent, no content. *)
Definition uncle_ok (u : bytes) : Prop :=
  ∃ uh, header_of_data u 0 = Ok uh ∧ accepted hp StrictEverything header_new [] uh.
(** A transaction whose signature recovers to a sender and that suits the block. *)
Definition tx_ok (h : BlockHeader) (b : bytes) (t : Transaction) : Prop :=
  transaction_of_rlp CheckEverything b = Ok t ∧ verifyTransaction p IR_OutOfOrderChecks t (header_env h) = Ok tt.
Record verified (block : bytes) (res : VerifiedBlockRef) : Prop := {
  v_header : ∃ h, header_of_block block = Ok h ∧ vb_info res = remembered h ∧ accepted hp StrictEverything header_new block h;
  v_uncles : ∃ x us, item block 2 = Ok x ∧ rlp_list x = Ok us ∧ Forall uncle_ok us;
  v_transactions : ∃ x txs, item block 1 = Ok x ∧ rlp_list x = Ok txs ∧ len txs <= c_maxSyncTransactions ∧
    Forall2 (tx_ok (vb_info res)) txs (vb_transactions res) }.

Lemma verified_header_iff _s block h h' : header_wf h → h_hashWithout h = 0 →
  verified_header hp _s header_new block h = Ok h' ↔ accepted hp _s header_new block h ∧ h' = remembered h.
Proof.
  intros Hw Hm. destruct (seal_verify_ok hp _s header_new block ltac:(done) h Hw Hm) as [H1 H2]. unfold verified_header.
  destruct (seal_verify hp _s header_new block h) as [r h1]. cbn [fst snd] in H1, H2. split.
  - intros E. ok_bind E u Eu. destruct u. injection E as <-. assert (accepted hp _s header_new block h) as Ha by by apply H1. split; [done|by apply H2].
  - intros [Ha ->]. rewrite (proj2 H1 Ha), (H2 Ha). done.
Qed.
Lemma uncle_yields u st : Forall is_byte u → len u < 2 ^ 32 → yields (verify_uncle hp IR_OutOfOrderChecks u) st (λ _, uncle_ok u).
Proof.
  intros Hb Hl. unfold verify_uncle. change (ir_has IR_OutOfOrderChecks IR_UncleParent) with false. change (ir_has IR_OutOfOrderChecks IR_UncleSeals) with true.
  unfold parent_for. eapply yields_ext.
  - eapply yields_bind; [apply yields_lift|]. intros uh Huh. eapply yields_bind; [apply yields_ret|]. intros parent Hpar.
    eapply yields_bind; [apply yields_lift|]. intros h' Hh'. apply yields_ret.
  - intros []. cbn beta. unfold uncle_ok, header_of_data. split.
    + intros (uh&Huh&parent&<-&h'&Hh'&_). exists uh. split; [done|]. ok_bind Huh x Ex. apply RLP_same in Ex as ->.
      destruct (populate_wf _ _ _ Hb Hl Huh) as (Hw&_&Hm). by apply verified_header_iff in Hh' as [??].
    + intros (uh&Huh&Ha). exists uh. split; [done|]. exists header_new. split; [done|]. exists (remembered uh). split; [|done].
      ok_bind Huh x Ex. apply RLP_same in Ex as ->. destruct (populate_wf _ _ _ Hb Hl Huh) as (Hw&_&Hm). by apply verified_header_iff.
Qed.
(** The threads make no difference. *)
Lemma verify_transactions_iff _ir h txs ts : len txs <= c_maxSyncTransactions →
  verify_transactions p _ir h txs = Ok ts ↔ mapO (check_tx p _ir h) txs = Ok ts.
Proof.
  intros Hl. unfold verify_transactions. destruct (Z.ltb_spec c_maxSyncTransactions (len txs)); [lia|].
  destruct (Z.ltb_spec 300 (len txs)) as [Hn|]; [|done]. unfold c_maxSyncTransactions in Hl.
  destruct (thread_count_ok (length txs)) as [H1 H2]; [lia|]. rewrite go_task_ok by nia. apply mapO_then.
Qed.
Lemma transactions_iff h txs ts :
  verify_transactions p IR_OutOfOrderChecks h txs = Ok ts ↔ len txs <= c_maxSyncTransactions ∧ Forall2 (tx_ok h) txs ts.
Proof.
  destruct (decide (len txs <= c_maxSyncTransactions)) as [Hl|Hl].
  - rewrite verify_transactions_iff, mapO_iff by done. assert (∀ b t, check_tx p IR_OutOfOrderChecks h b = Ok t ↔ tx_ok h b t) as Hc.
    { intros b t. unfold check_tx, block_tx, tx_ok. change (ir_has IR_OutOfOrderChecks IR_TransactionSignatures) with true. split.
      - intros E. ok_bind E t' Et. ok_bind E u Eu. injection E as ->. by destruct u.
      - intros [-> E]. cbn [mbind outcome_bind]. by rewrite E. }
    split; [intros Hf; split; [done|]|intros [_ Hf]]; (eapply Forall2_impl; [exact Hf|]; intros b t; apply Hc).
  - split; [|by intros [? _]]. unfold verify_transactions. by destruct (Z.ltb_spec c_maxSyncTransactions (len txs)); [|lia].
Qed.

Lemma out_of_order_yields block st : Forall is_byte block → len block < 2 ^ 32 → yields (verifyBlock p hp block IR_OutOfOrderChecks) st (verified block).
Proof.
  intros Hb Hl. unfold verifyBlock.
  change (ir_has IR_OutOfOrderChecks IR_PostGenesis) with false. change (ir_has IR_OutOfOrderChecks IR_Parent) with false.
  change (ir_has IR_OutOfOrderChecks IR_ValidSeal) with true. change (ir_has IR_OutOfOrderChecks (Z.lor IR_UncleBasic _)) with true.
  change (ir_has IR_OutOfOrderChecks (Z.lor IR_TransactionBasic _)) with true. unfold parent_for, when. cbn [andb].
  eapply yields_ext.
  - eapply yields_bind; [apply yields_lift|]. intros h Hh. eapply yields_bind; [apply yields_ret|]. intros parent Hpar.
    eapply yields_bind; [apply yields_lift|]. intros h' Hh'. eapply yields_bind; [apply yields_lift|]. intros r Hr.
    apply RLP_same in Hr as Er. eapply yields_bind.
    { eapply yields_bind; [apply yields_lift|]. intros x Hx. eapply yields_bind; [apply yields_lift|]. intros us Hus.
      apply yields_forM. intros u Hu. subst r. apply item_sub in Hx. apply rlp_list_sub in Hus. rewrite Forall_forall in Hus.
      assert (u `sublist_of` block) as Hub by (etrans; [by apply Hus|exact Hx]). apply uncle_yields; [by eapply sublist_Forall|].
      apply sublist_length in Hub. lia. }
    intros u0 Hus. eapply yields_bind; [|intros ts Hts; apply yields_ret].
    eapply yields_bind; [apply yields_lift|]. intros x Hx. eapply yields_bind; [apply yields_lift|]. intros txs Htxs. apply yields_lift.
  - intros res. cbn beta. split.
    + intros (h&Hh&parent&<-&h'&Hh'&r&Hr&[]&(x&Hx&us&Hus&Hu)&ts&(y&Hy&txs&Htxs&Ht)&<-). apply RLP_same in Hr as ->.
      destruct (header_of_block_wf _ _ Hb Hl Hh) as [Hw Hm]. apply verified_header_iff in Hh' as [Ha ->]; [|done|done].
      apply transactions_iff in Ht as [Hc Ht]. split; cbn [vb_info vb_transactions]; eauto 10.
    + intros [(h&Hh&Ei&Ha) (x&us&Hx&Hus&Hu) (y&txs&Hy&Htxs&Hc&Ht)]. exists h. split; [done|]. exists header_new. split; [done|].
      exists (remembered h). destruct (header_of_block_wf _ _ Hb Hl Hh) as [Hw Hm]. split; [by apply verified_header_iff|].
      exists block. split; [by eapply header_of_block_RLP|]. exists tt. split; [by exists x; eauto|]. exists (vb_transactions res).
      split; [|destruct res; cbn in *; by subst]. exists y. split; [done|]. exists txs. split; [done|]. apply transactions_iff.
      rewrite <-Ei. done.
Qed.

(** ** The properties *)

(** C26: Verification off the chain is exact.  The verifier threads of the block queue check
    blocks without looking at any other block; such a check changes nothing in the chain's
    store, and it returns a result exactly when the header passes the rules by itself, every
    uncle's header does, there are at most 1000 transactions, and every transaction is
    signed and suits the block; the result then holds the header and the transactions in
    the order of the block. *)
Theorem out_of_order_checks_are_exact block st : Forall is_byte block → len block < 2 ^ 32 →
  (verifyBlock p hp block IR_OutOfOrderChecks st).2 = st ∧
  ∀ res, (verifyBlock p hp block IR_OutOfOrderChecks st).1 = Ok res ↔ verified block res.
Proof. apply out_of_order_yields. Qed.
End Verified.

(** A block with one payment in it. *)
Definition a_payment : rlp_item :=
  Items [rlp_int 1; rlp_int 9; rlp_int 21000; rlp_hash 20 0xb0b; rlp_int 1; rlp_bytes []; rlp_int (11 * 2 + 35); rlp_int 5; rlp_int 7].
Definition paying_block : bytes := Eval vm_compute in block_of [a_payment].
Definition block_params : ChainParams := mkParams 0 0 0 0 0 0 INT64_MAX 11 1.
Definition empty_store : BlockStore := mkStore 0 [] ∅ ∅ (mkUsage ∅ ∅ []) ∅.
Lemma out_of_order_checks_are_exact_small : ∃ res,
  @verified open_crypto default_config block_params small_params paying_block res ∧ length (vb_transactions res) = 1%nat ∧ h_number (vb_info res) = 1.
Proof.
  destruct (@out_of_order_checks_are_exact open_crypto default_config block_params small_params paying_block empty_store) as [_ H].
  - apply small_bytes. vm_compute. reflexivity.
  - reflexivity.
  - eexists. split; [apply H; vm_compute; reflexivity|]. split; reflexivity.
Defined.
