(* ===== verification/Turns.v ===== *)
(** * Whose turn it is to seal (libbrcdchain/Verify.cpp)

    Time is cut into slots of [varlitorInterval]; a slot belongs to one of the producers.  When
    that producer has been away for long enough, [verify_standby] says which of the stand-bys
    may seal instead.  The integer conversions of the source are written out. *)
From stdpp Require Import base gmap list.
From Stdlib Require Import ZArith Lia.
From S2P Require Import Prelude Config Interfaces Objects Account ChainState StateOps Vote.
Open Scope Z_scope.

Definition u64 (x : Z) : Z := x mod 2 ^ 64.
(** Conversion to [int]. *)
Definition int_of (x : Z) : Z := let y := u32 x in if y <? 2 ^ 31 then y else y - 2 ^ 32.

(** [std::replace(v.begin(), v.end(), v[i], y)]: the old value is a reference to the element
    [i], so that nothing behind that element is replaced. *)
Definition replace_at (i : nat) (old y : Address) (l : list Address) : list Address :=
  ((λ a, if a =? old then y else a) <$> take (S i) l) ++ drop (S i) l.
(** [std::replace] with a value that is not part of the vector. *)
Definition replace_all (old y : Address) (l : list Address) : list Address := (λ a, if a =? old then y else a) <$> l.

(** The slot of a time, of [n] slots: an [int64_t] divided by a [size_t]. *)
Definition time_slot (time interval : Z) (n : nat) : nat := Z.to_nat ((u64 time / interval) mod Z.of_nat n).

Record LastStandby := mkLast { ls_time : int64; ls_addr : Address; ls_beyond : Z }.

Section Turns.
Context `{CR : Crypto, CF : Config, ST_ : !StorageTrie, RN : Rng, CO : !AccountCodec}.

(** Rounds since [record], an [int]. *)
Definition rounds_since (block_time record interval : Z) : Z :=
  int_of (u64 (block_time - record) / u64 (interval * varlitorNum)).
(** [record + varlitorNum() * interval > block_time], in [uint64_t]. *)
Definition sealed_lately (record interval block_time : Z) : bool :=
  u64 block_time <? u64 (record + varlitorNum * interval).

(** First loop: the stand-by that sealed last in the slot. *)
Definition last_standby (records : gmap Address int64) (block_time interval : Z) (n offset : nat)
    (standbys : list Address) : LastStandby :=
  foldl (λ l a,
    match records !! a with
    | Some t =>
        if bool_decide (time_slot t interval n = offset) && (ls_time l <? t)
        then mkLast t a (rounds_since block_time t interval) else l
    | None => l
    end) (mkLast 0 0 0) standbys.
(** Second loop, when no stand-by has sealed in the slot: [beyond_num] stand-bys may. *)
Fixpoint first_time (records : gmap Address int64) (block_time interval : Z) (own : Address)
    (beyond_num : Z) (standbys : list Address) : bool :=
  match standbys with
  | [] => false
  | a :: l =>
      if 1 <=? beyond_num then
        if a =? own then true
        else
          let busy := match records !! a with Some t => sealed_lately t interval block_time | None => false end in
          first_time records block_time interval own (if busy then beyond_num - 1 else beyond_num) l
      else first_time records block_time interval own beyond_num l
  end.
(** Second loop, when one has: the ones behind it wait a round more each. *)
Fixpoint next_time (own last : Address) (beyond_standby_num : Z) (is_loop_last_standby : bool) (standbys : list Address) : bool :=
  match standbys with
  | [] => false
  | a :: l =>
      if (a =? own) && (1 <=? beyond_standby_num) then true
      else if (last =? a) || is_loop_last_standby then next_time own last (beyond_standby_num - 1) true l
      else next_time own last beyond_standby_num false l
  end.


(** The changed address of a producer that has not sealed under it yet. *)
Definition old_address (fork_change_miner : bool) (records : gmap Address int64) (a : Address) : M (option Address) :=
  if fork_change_miner then
    mapping_miner ← replaceMiner a;
    mret (if bool_decide (mapping_miner.2 ≠ 0) && negb (map_count records a) then Some mapping_miner.1 else None)
  else mret None.

Definition verify_standby (block_time : int64) (_standby_addr : Address) (interval : Z) (fork_change_miner : bool) : M bool :=
  records ← block_record;
  supers ← vote_data SysVarlitorAddress;
  let minners := m_addr <$> supers in
  if bool_decide (minners = []) || bool_decide (records = ∅) then mret false
  else if (interval =? 0) || (u64 (interval * varlitorNum) =? 0) then undef
  else
    let n := length minners in
    let offset := time_slot block_time interval n in
    let super := nth offset minners 0 in
    replaced ← old_address fork_change_miner records super;
    let minners := match replaced with Some y => replace_at offset super y minners | None => minners end in
    let super := default super replaced in
    match records !! super with
    | None => mret false
    | Some t =>
        let beyond_num := rounds_since block_time t interval in
        if u32 beyond_num <=? minimum_cycle then mret false
        else
          standby ← vote_data SysCanlitorAddress;
          let standbys := m_addr <$> standby in
          if negb (bool_decide (_standby_addr ∈ standbys)) then mret false
          else
            own_replaced ← old_address fork_change_miner records _standby_addr;
            let standbys := match own_replaced with Some y => replace_all _standby_addr y standbys | None => standbys end in
            let own := default _standby_addr own_replaced in
            if match records !! own with Some t => sealed_lately t interval block_time | None => false end then mret false
            else
              let beyond_num := int_of (beyond_num - minimum_cycle) in
              let last := last_standby records block_time interval n offset standbys in
              mret (if ls_time last =? 0 then first_time records block_time interval own beyond_num standbys
                    else next_time own (ls_addr last) (ls_beyond last) false standbys)
    end.
End Turns.
