(* ===== verification/BlockChain.v ===== *)
(** * The block chain (libbrcdchain/BlockChain.cpp, BlockChain.h, BlockDetails)

    Blocks and what is known about them live in two databases, with caches of decoded values
    in front; the "best" entry names the head.  This file models the caches, the queries, the
    routes between blocks, the Bloom index, inserting a block and switching to another branch,
    importing, rewinding and rescuing.  A write batch is the map of what it writes.  Progress
    reports, timers and the callbacks for bad and for new blocks are left out. *)
From stdpp Require Import base gmap list.
From Stdlib Require Import ZArith Lia.
From S2P Require Import Prelude Rlp Config Interfaces Receipts TrieHash Transaction Account ChainState Vote BlockHeader Executive Turns BlockVerify.
Open Scope Z_scope.

(** ** What is stored about blocks (BlockDetails.h) *)
Definition c_bloomIndexSize : Z := 16.
Definition c_bloomIndexLevels : nat := 2.
Definition c_invalidNumber : Z := 2 ^ 32 - 1.

Record BlockDetails := mkDetails { d_number : Z; d_totalDifficulty : u256; d_parent : h256; d_children : list h256 }.
Definition details_isNull (d : BlockDetails) : bool := d_number d =? c_invalidNumber.
Definition NullBlockDetails : BlockDetails := mkDetails c_invalidNumber Invalid256 0 [].
Definition details_rlp (d : BlockDetails) : bytes :=
  encode (Items [rlp_unsigned (d_number d); rlp_int (d_totalDifficulty d); rlp_hash 32 (d_parent d);
                 Items (rlp_hash 32 <$> d_children d)]).
Definition details_of_rlp (_r : bytes) : outcome BlockDetails :=
  r ← RLP _r;
  x ← item r 0; number ← toInt 4 x;
  x ← item r 1; totalDifficulty ← toInt 32 x;
  x ← item r 2; parent ← toHash 32 x;
  x ← item r 3; children ← toVector (toHash_lax 32) x;
  Ok (mkDetails number totalDifficulty parent children).

Record BlockLogBlooms := mkLogBlooms { lb_blooms : list LogBloom }.
Definition logBlooms_rlp (b : BlockLogBlooms) : bytes := encode (Items (rlp_hash 256 <$> lb_blooms b)).
Definition logBlooms_of_rlp (_r : bytes) : outcome BlockLogBlooms :=
  r ← RLP _r; l ← toVector (toHash_lax 256) r; Ok (mkLogBlooms l).

Record BlocksBlooms := mkBlooms { bb_blooms : list LogBloom }.
Definition NullBlocksBlooms : BlocksBlooms := mkBlooms (replicate (Z.to_nat c_bloomIndexSize) 0).
Definition blooms_rlp (b : BlocksBlooms) : bytes := encode (Items (rlp_hash 256 <$> bb_blooms b)).
(** [toArray]: another number of items is no error, but a string in place of the list is. *)
Definition blooms_of_rlp (_r : bytes) : outcome BlocksBlooms :=
  r ← RLP _r;
  if negb (isList r) then Throw BadCast
  else
    n ← itemCount r;
    if bool_decide (n ≠ c_bloomIndexSize) then Ok NullBlocksBlooms
    else l ← mapO (λ i, x ← item r i; toHash_lax 256 x) (seq 0 (Z.to_nat c_bloomIndexSize)); Ok (mkBlooms l).

Record BlockReceipts := mkReceipts { br_receipts : list TransactionReceipt }.
Definition receipts_rlp (b : BlockReceipts) : bytes := encode (receipts_item (br_receipts b)).
Definition receipts_of_rlp (_r : bytes) : outcome BlockReceipts :=
  r ← RLP _r; l ← rlp_list r; x ← mapO receipt_of_rlp l; Ok (mkReceipts x).

Record BlockHash := mkBlockHash { bh_value : h256 }.
Definition blockHash_rlp (b : BlockHash) : bytes := encode (rlp_hash 32 (bh_value b)).
Definition blockHash_of_rlp (_r : bytes) : outcome BlockHash := r ← RLP _r; h ← toHash 32 r; Ok (mkBlockHash h).

Record TransactionAddress := mkTA { ta_blockHash : h256; ta_index : Z }.
Definition NullTransactionAddress : TransactionAddress := mkTA 0 0.
Definition ta_rlp (t : TransactionAddress) : bytes := encode (Items [rlp_hash 32 (ta_blockHash t); rlp_unsigned (ta_index t)]).
Definition ta_of_rlp (_r : bytes) : outcome TransactionAddress :=
  r ← RLP _r; x ← item r 0; h ← toHash 32 x; x ← item r 1; i ← toInt 4 x; Ok (mkTA h i).

(** ** State *)
Definition ExtraDetails : Z := 0.
Definition ExtraBlockHash : Z := 1.
Definition ExtraTransactionAddress : Z := 2.
Definition ExtraLogBlooms : Z := 3.
Definition ExtraReceipts : Z := 4.
Definition ExtraBlocksBlooms : Z := 5.

(** The key [toSlice] makes of a hash, or of a number written as a hash, and a kind. *)
Abbreviation ExtraKey := (Z * Z)%type.
(** The members of [BlockChain]; [c_best] and [c_chainStart] are the entries "best" and
    "chainStart" of the extras database, [c_lastHashes] is the memo of [LastBlockHashes]. *)
Record Chain := mkChain {
  c_store : BlockStore;
  c_details : gmap h256 BlockDetails;
  c_logBlooms : gmap h256 BlockLogBlooms;
  c_receipts : gmap h256 BlockReceipts;
  c_transactionAddresses : gmap h256 TransactionAddress;
  c_blockHashes : gmap Z BlockHash;
  c_blocksBlooms : gmap h256 BlocksBlooms;
  c_cached_bytes : gmap h256 bytes;
  c_extrasDB : gmap ExtraKey bytes;
  c_best : option h256;
  c_chainStart : option h256;
  c_lastBlockHash : h256;
  c_lastBlockNumber : Z;
  c_lastHashes : list h256
}.
#[export] Instance Chain_reshape : Reshape Chain := λ c,
  mkChain (c_store c) (c_details c) (c_logBlooms c) (c_receipts c) (c_transactionAddresses c) (c_blockHashes c)
    (c_blocksBlooms c) (c_cached_bytes c) (c_extrasDB c) (c_best c) (c_chainStart c) (c_lastBlockHash c)
    (c_lastBlockNumber c) (c_lastHashes c).
#[export] Instance c_store_field : Field c_store := ltac:(field_setter).
#[export] Instance c_details_field : Field c_details := ltac:(field_setter).
#[export] Instance c_logBlooms_field : Field c_logBlooms := ltac:(field_setter).
#[export] Instance c_receipts_field : Field c_receipts := ltac:(field_setter).
#[export] Instance c_transactionAddresses_field : Field c_transactionAddresses := ltac:(field_setter).
#[export] Instance c_blockHashes_field : Field c_blockHashes := ltac:(field_setter).
#[export] Instance c_blocksBlooms_field : Field c_blocksBlooms := ltac:(field_setter).
#[export] Instance c_extrasDB_field : Field c_extrasDB := ltac:(field_setter).
#[export] Instance c_best_field : Field c_best := ltac:(field_setter).
#[export] Instance c_chainStart_field : Field c_chainStart := ltac:(field_setter).
#[export] Instance c_lastBlockHash_field : Field c_lastBlockHash := ltac:(field_setter).
#[export] Instance c_lastBlockNumber_field : Field c_lastBlockNumber := ltac:(field_setter).
#[export] Instance c_lastHashes_field : Field c_lastHashes := ltac:(field_setter).

Abbreviation BC := (ST Chain).
(** A member function that only touches the stored blocks. *)
Definition on_store {A} (m : ST BlockStore A) : BC A := λ c,
  let '(r, s) := m (c_store c) in (r, c <| c_store := s |>).

(** ** Queries *)

(** A kind of extra: its number, value when absent, format, cache, and whether [noteUsed]
    has an effect for its keys. *)
Class Extra (T : Type) := {
  extra_kind : Z;
  extra_null : T;
  extra_of_rlp : bytes → outcome T;
  extra_cache : Chain → gmap Z T;
  extra_upd : (gmap Z T → gmap Z T) → Chain → Chain;
  extra_noted : bool
}.
#[export] Instance details_extra : Extra BlockDetails :=
  {| extra_kind := ExtraDetails; extra_null := NullBlockDetails; extra_of_rlp := details_of_rlp;
     extra_cache := c_details; extra_upd := upd c_details; extra_noted := true |}.
#[export] Instance logBlooms_extra : Extra BlockLogBlooms :=
  {| extra_kind := ExtraLogBlooms; extra_null := mkLogBlooms []; extra_of_rlp := logBlooms_of_rlp;
     extra_cache := c_logBlooms; extra_upd := upd c_logBlooms; extra_noted := true |}.
#[export] Instance receipts_extra : Extra BlockReceipts :=
  {| extra_kind := ExtraReceipts; extra_null := mkReceipts []; extra_of_rlp := receipts_of_rlp;
     extra_cache := c_receipts; extra_upd := upd c_receipts; extra_noted := true |}.
#[export] Instance address_extra : Extra TransactionAddress :=
  {| extra_kind := ExtraTransactionAddress; extra_null := NullTransactionAddress; extra_of_rlp := ta_of_rlp;
     extra_cache := c_transactionAddresses; extra_upd := upd c_transactionAddresses; extra_noted := true |}.
#[export] Instance hash_extra : Extra BlockHash :=
  {| extra_kind := ExtraBlockHash; extra_null := mkBlockHash 0; extra_of_rlp := blockHash_of_rlp;
     extra_cache := c_blockHashes; extra_upd := upd c_blockHashes; extra_noted := false |}.
#[export] Instance blooms_extra : Extra BlocksBlooms :=
  {| extra_kind := ExtraBlocksBlooms; extra_null := NullBlocksBlooms; extra_of_rlp := blooms_of_rlp;
     extra_cache := c_blocksBlooms; extra_upd := upd c_blocksBlooms; extra_noted := true |}.

Definition queryExtras {T} `{Extra T} (_h : Z) : BC T :=
  c ← getS;
  match extra_cache c !! _h with
  | Some x => mret x
  | None =>
      let s := default [] (c_extrasDB c !! (_h, extra_kind)) in
      if bool_decide (s = []) then mret extra_null
      else
        modS (λ c, if extra_noted then c <| c_store ::= noteUsed _h extra_kind |> else c) ;;
        x ← lift (extra_of_rlp s);
        modS (extra_upd <[_h := x]>) ;; mret x
  end.
Definition details : h256 → BC BlockDetails := queryExtras.
Definition logBlooms : h256 → BC BlockLogBlooms := queryExtras.
Definition receipts : h256 → BC BlockReceipts := queryExtras.
Definition transactionAddress : h256 → BC TransactionAddress := queryExtras.
Definition blocksBlooms : h256 → BC BlocksBlooms := queryExtras.
Definition numberHash (_i : Z) : BC h256 :=
  if _i =? 0 then c ← getS; mret (bs_genesisHash (c_store c)) else x ← queryExtras _i; mret (bh_value x).
Definition block_number (_hash : h256) : BC Z := d ← details _hash; mret (d_number d).
Definition isKnownTransaction (_transactionHash : h256) : BC bool :=
  ta ← transactionAddress _transactionHash; mret (bool_decide (ta_blockHash ta ≠ 0)).
Definition transactionLocation (_transactionHash : h256) : BC (h256 * Z) :=
  ta ← transactionAddress _transactionHash;
  mret (if bool_decide (ta_blockHash ta = 0) then (0, 0) else (ta_blockHash ta, ta_index ta)).

Definition isKnown (_hash : h256) (_isCurrent : bool) : BC bool :=
  c ← getS;
  if bool_decide (_hash = bs_genesisHash (c_store c)) then mret true
  else if map_count (c_cached_bytes c) _hash then mret true
  else if negb (map_count (bs_blocks (c_store c)) _hash) && negb (map_count (bs_blocksDB (c_store c)) _hash) then mret false
  else if negb (map_count (c_details c) _hash) && negb (bool_decide (is_Some (c_extrasDB c !! (_hash, ExtraDetails)))) then mret false
  else if negb _isCurrent then mret true
  else n ← block_number _hash; c ← getS; mret (n <=? c_lastBlockNumber c).

(** [info(h)], a header that computes its own hash. *)
Definition info `{Crypto} (_hash : h256) : BC BlockHeader := d ← on_store (headerData _hash); lift (header_of_data d 0).

(** ** Routes *)

(** The loops that climb from one block: [while (fn > tn) { ... fn--; }]. *)
Fixpoint climb (n : nat) (keep : bool) (h : h256) : BC (list h256 * h256) :=
  match n with
  | O => mret ([], h)
  | S n =>
      d ← details h;
      '(l, top) ← climb n keep (d_parent d);
      mret (if keep then h :: l else l, top)
  end.
(** The loop that climbs from both; it ends when the blocks agree.  Two blocks of the same
    number have a common ancestor after that many steps: [fuel] is the number plus one. *)
Fixpoint meet (fuel : nat) (_common _pre _post : bool) (from to : h256) : BC (list h256 * list h256 * h256) :=
  match fuel with
  | O => out_of_fuel
  | S fuel =>
      let ret := if _pre && (negb (from =? to) || _common) then [from] else [] in
      let back := if _post && (negb (from =? to) || (negb _pre && _common)) then [to] else [] in
      if from =? to then mret (ret, back, from)
      else if (from =? 0) || (to =? 0) then exit1
      else
        df ← details from;
        dt ← details to;
        '(ret', back', top) ← meet fuel _common _pre _post (d_parent df) (d_parent dt);
        mret (ret ++ ret', back ++ back', top)
  end.
Definition treeRoute (_from _to : h256) (_common _pre _post : bool) : BC (list h256 * h256 * Z) :=
  if (_from =? 0) || (_to =? 0) then mret ([], 0, 0)
  else
    fromDetails ← details _from;
    toDetails ← details _to;
    if details_isNull fromDetails || details_isNull toDetails then mret ([], 0, 0)
    else
      let fn := d_number fromDetails in
      let tn := d_number toDetails in
      '(ret, from) ← climb (Z.to_nat (fn - tn)) _pre _from;
      '(back, to) ← climb (Z.to_nat (tn - fn)) _post _to;
      '(ret', back', top) ← meet (S (Z.to_nat (Z.min fn tn))) _common _pre _post from to;
      let ret := ret ++ ret' in
      let back := back ++ back' in
      let i := len ret - (if _common && negb (bool_decide (ret = [])) && negb (bool_decide (back = [])) then 1 else 0) in
      mret (ret ++ reverse back, top, i).

(** ** The Bloom index *)
Definition chunkId (_level _index : Z) : h256 := u32 (_index * 0xff + _level).
Definition bloom_at (o : Z) (b : BlocksBlooms) : LogBloom := nth (Z.to_nat o) (bb_blooms b) 0.
(** [m_blocksBlooms[id].blooms[o]]: the entry is created when there is none. *)
Definition upd_bloom (id : h256) (o : Z) (f : LogBloom → LogBloom) (c : Chain) : Chain :=
  c <| c_blocksBlooms ::= λ m,
    <[id := mkBlooms (alter f (Z.to_nat o) (bb_blooms (default NullBlocksBlooms (m !! id))))]> m |>.
(** [item != endDirty] counts in [unsigned]. *)
Definition clear_level (level : Z) (beginDirty endDirty : Z) : BC unit :=
  forM (seqZ beginDirty (u32 (endDirty - beginDirty))) (λ item,
    let bunch := item / c_bloomIndexSize in
    let offset := item mod c_bloomIndexSize in
    let id := chunkId level bunch in
    acc ← (if level =? 0 then mret 0
           else b ← blocksBlooms (chunkId (level - 1) item); mret (foldl Z.lor 0 (bb_blooms b)));
    _ ← blocksBlooms id;
    modS (upd_bloom id offset (λ _, acc))).
Fixpoint clear_levels (levels : nat) (level beginDirty endDirty : Z) : BC unit :=
  match levels with
  | O => mret tt
  | S levels =>
      clear_level level beginDirty endDirty ;;
      clear_levels levels (level + 1) (beginDirty / c_bloomIndexSize) (u32 (u32 (endDirty - 1) / c_bloomIndexSize + 1))
  end.
Definition clearBlockBlooms (_begin _end : Z) : BC unit := clear_levels c_bloomIndexLevels 0 _begin _end.
Definition clearCachesDuringChainReversion (_firstInvalid : Z) : BC unit :=
  c ← getS;
  let last := u32 (c_lastBlockNumber c + 1) in
  modS (λ c, c <| c_blockHashes ::= λ m, foldr delete m (seqZ _firstInvalid (last - _firstInvalid)) |>
               <| c_transactionAddresses := ∅ |>) ;;
  clearBlockBlooms _firstInvalid last.

(** [a] is squared [b - 1] times. *)
Definition upow (a : Z) (b : nat) : Z := match b with O => 1 | S b => Nat.iter b (λ a, u32 (a * a)) a end.
Definition ceilDiv (n d : Z) : Z := u32 (u32 (n + d - 1) / d).
Fixpoint bloom_search (_b : LogBloom) (_earliest _latest : Z) (_level : nat) (_index : Z) : BC (list Z) :=
  let uCourse := upow c_bloomIndexSize (_level + 1) in
  let uFine := upow c_bloomIndexSize _level in
  let obegin := if _index =? _earliest / uCourse then _earliest / uFine mod c_bloomIndexSize else 0 in
  let oend := if _index =? _latest / uCourse then (_latest / uFine) mod c_bloomIndexSize + 1 else c_bloomIndexSize in
  bb ← blocksBlooms (chunkId (Z.of_nat _level) _index);
  foldM (λ ret o,
    if bloom_contains (bloom_at o bb) _b then
      match _level with
      | O => mret (ret ++ [u32 (o + _index * c_bloomIndexSize)])
      | S level => l ← bloom_search _b _earliest _latest level (u32 (o + _index * c_bloomIndexSize)); mret (ret ++ l)
      end
    else mret ret) [] (seqZ obegin (oend - obegin)).
Definition withBlockBloom (_b : LogBloom) (_earliest _latest : Z) : BC (list Z) :=
  let u := upow c_bloomIndexSize c_bloomIndexLevels in
  foldM (λ ret index, l ← bloom_search _b _earliest _latest (c_bloomIndexLevels - 1) index; mret (ret ++ l)) []
    (seqZ (_earliest / u) (ceilDiv _latest u + 1 - _earliest / u)).

(** ** Memory *)

(** [garbageCollect], past the tests of its age and of the estimated sizes. *)
Definition cache_erase (id : CacheID) (c : Chain) : Chain :=
  let c := c <| c_store ::= λ s, s <| bs_inUse ::= λ u, u ∖ {[id]} |> |> in
  let '(h, k) := id in
  if k =? ExtraBlock then c <| c_store ::= λ s, s <| bs_blocks ::= delete h |> |>
  else if k =? ExtraDetails then c <| c_details ::= delete h |>
  else if k =? ExtraReceipts then c <| c_receipts ::= delete h |>
  else if k =? ExtraLogBlooms then c <| c_logBlooms ::= delete h |>
  else if k =? ExtraTransactionAddress then c <| c_transactionAddresses ::= delete h |>
  else if k =? ExtraBlocksBlooms then c <| c_blocksBlooms ::= delete h |>
  else c.
Definition garbageCollect (c : Chain) : Chain :=
  let u := bs_cacheUsage (c_store c) in
  let back := default (u_second u) (last (u_rest u)) in
  let c := foldr cache_erase c (elements back) in
  c <| c_store ::= λ s, s <| bs_cacheUsage := mkUsage ∅ (u_front u) (removelast (u_second u :: u_rest u)) |> |>.

(** ** Inserting a block *)

(** What [Block] does for the chain: the state at the end of a block ([populateFromChain]),
    and executing a block on the state of its parent ([enactOn], then the receipts; [cleanup]
    writes the state): the difficulty it adds and the receipts.  Both query the chain. *)
Class BlockFace := {
  populateFromChain : h256 → BC State;
  enactOn : VerifiedBlockRef → bytes → BC (u256 * list TransactionReceipt)
}.
Record ImportRoute := mkRoute { deadBlocks : list h256; liveBlocks : list h256; goodTranactions : list Transaction }.

(** [ChainParams] as far as the chain reads them; [genesisBlock()] is an argument. *)
Record BlockChainParams := mkBCParams {
  bp_genesisBlock : bytes; bp_allowFutureBlocks : bool; bp_varlitorInterval : Z;
  bp_operations : ChainParams; bp_headers : HeaderParams }.
Definition IR_InOrderChecks : Z := 192.
Definition FORCEBLOCKCOUNT : Z := 3.

(** The result of the last loop of [insertBlockAndExtras]: what stands before the common
    block is dead, what stands behind it is fresh. *)
Fixpoint split_route (isOld : bool) (common : h256) (route : list h256) : list h256 * list h256 :=
  match route with
  | [] => ([], [])
  | h :: l =>
      if h =? common then split_route false common l
      else
        let '(dead, fresh) := split_route isOld common l in
        if isOld then (h :: dead, fresh) else (dead, h :: fresh)
  end.
(** [for (auto i = route.rbegin(); i != route.rend() && *i != common; ++i)] *)
Fixpoint until_common (common : h256) (l : list h256) : list h256 :=
  match l with [] => [] | h :: l => if h =? common then [] else h :: until_common common l end.

Section Insert.
Context `{CR : Crypto, CF : Config}.
Context (bp : BlockChainParams).

Definition block (_hash : h256) : BC bytes :=
  c ← getS;
  if bool_decide (_hash = bs_genesisHash (c_store c)) then mret (bp_genesisBlock bp)
  else match bs_blocks (c_store c) !! _hash with
  | Some b => mret b
  | None =>
      let d := default [] (bs_blocksDB (c_store c) !! _hash) in
      if bool_decide (d = []) then mret []
      else modS (λ c, c <| c_store ::= memo_block _hash d |>) ;; mret d
  end.

(** [m_details[h].children.push_back(c)]: a null entry is created when there is none. *)
Definition push_child (h child : h256) (c : Chain) : Chain :=
  c <| c_details ::= λ m,
    let d := default NullBlockDetails (m !! h) in
    <[h := mkDetails (d_number d) (d_totalDifficulty d) (d_parent d) (d_children d ++ [child])]> m |>.
Definition cached_details (h : h256) : BC BlockDetails := c ← getS; mret (default NullBlockDetails (c_details c !! h)).

(** One block that becomes part of the best chain: its logs go into the Bloom index, its
    transactions and its number into the batch. *)
Definition note_levels (number : Z) : list (Z * Z) :=
  [(chunkId 0 (number / c_bloomIndexSize), number mod c_bloomIndexSize);
   (chunkId 1 (number / c_bloomIndexSize / c_bloomIndexSize), number / c_bloomIndexSize mod c_bloomIndexSize)].
Definition header_bloom (tbi : BlockHeader) : LogBloom := shiftBloom (h_logBloom tbi) (sha3 (toBE_n 20 (h_author tbi))).
Definition note_blooms (tbi : BlockHeader) : BC (list h256) :=
  let l := note_levels (u32 (h_number tbi)) in
  forM l (λ p, _ ← blocksBlooms p.1; mret tt) ;;
  forM l (λ p, modS (upd_bloom p.1 p.2 (Z.lor (header_bloom tbi)))) ;;
  mret l.*1.
Definition tx_entries (blockHash : h256) (blockBytes : bytes) : outcome (list (ExtraKey * bytes)) :=
  r ← RLP blockBytes;
  txs ← item r 1;
  n ← itemCount txs;
  mapO (λ i, x ← item txs i; Ok ((sha3 x, ExtraTransactionAddress), ta_rlp (mkTA blockHash (Z.of_nat i))))
    (seq 0 (Z.to_nat n)).
Definition write_all (entries : list (ExtraKey * bytes)) (batch : gmap ExtraKey bytes) : gmap ExtraKey bytes :=
  foldl (λ m e, <[e.1 := e.2]> m) batch entries.
Definition note_block (info_ : BlockHeader) (_block : bytes) (batch : gmap ExtraKey bytes) (i : h256) : BC (gmap ExtraKey bytes) :=
  tbi ← (if i =? h_hash info_ then mret info_ else b ← block i; lift (header_of_block b));
  alteredBlooms ← note_blooms tbi;
  blockBytes ← (if i =? h_hash info_ then mret _block else block i);
  txs ← lift (tx_entries (h_hash tbi) blockBytes);
  c ← getS;
  let blooms := (λ h, ((h, ExtraBlocksBlooms), blooms_rlp (default NullBlocksBlooms (c_blocksBlooms c !! h)))) <$> alteredBlooms in
  mret (write_all (txs ++ blooms ++ [((h_number tbi, ExtraBlockHash), blockHash_rlp (mkBlockHash (h_hash tbi)))]) batch).

(** [_block.info] is [info_]: [info_.hash()] is what it remembers.  The writes of the two
    batches and of "best" succeed. *)
Definition insertBlockAndExtras (ref : VerifiedBlockRef) (_block _receipts : bytes) (_totalDifficulty : u256) (_isBest : bool) : BC ImportRoute :=
  let info_ := vb_info ref in
  let hash := h_hash info_ in
  let parent := h_parentHash info_ in
  c0 ← getS;
  _ ← details parent;
  modS (push_child parent hash) ;;
  pd ← cached_details parent;
  let bd := mkDetails (u32 (h_number info_)) _totalDifficulty parent [] in
  blb ← lift (receipt_blooms _receipts);
  let extras := write_all
    [((parent, ExtraDetails), details_rlp pd); ((hash, ExtraDetails), details_rlp bd);
     ((hash, ExtraLogBlooms), logBlooms_rlp (mkLogBlooms blb)); ((hash, ExtraReceipts), _receipts)] ∅ in
  let last := c_lastBlockHash c0 in
  ld ← details last;
  '(extras, route, common, best) ←
    (if (d_number ld <=? h_number info_) && _isBest then
       '(route, common, _) ← treeRoute last parent true true true;
       let route := route ++ [hash] in
       when (negb (common =? last)) (n ← block_number common; clearCachesDuringChainReversion (u32 (n + 1))) ;;
       extras ← foldM (note_block info_ _block) extras (until_common common (reverse route));
       mret (extras, route, common, true)
     else mret (extras, [], 0, false));
  modS (λ c, c <| c_store ::= λ s, s <| bs_blocksDB ::= <[hash := _block]> |> |>
               <| c_extrasDB ::= λ m, extras ∪ m |>) ;;
  modS (λ c, if best && negb (c_lastBlockHash c =? hash)
             then c <| c_lastBlockHash := hash |> <| c_lastBlockNumber := u32 (h_number info_) |> <| c_best := Some hash |>
             else c) ;;
  modS (λ c, if bool_decide (route = []) then c else c <| c_lastHashes := [] |>) ;;
  let '(dead, fresh) := split_route true common route in
  mret (mkRoute dead fresh (vb_transactions ref)).

Definition checkBlockIsNew (ref : VerifiedBlockRef) : BC unit :=
  known ← isKnown (h_hash (vb_info ref)) true; if known : bool then throw AlreadyHaveBlock else mret tt.
(** [now] is the clock. *)
Definition checkBlockTimestamp (now : int64) (_header : BlockHeader) : BC unit :=
  if (now <? h_timestamp _header) && negb (bp_allowFutureBlocks bp) then throw FutureTime else mret tt.
Definition verify_on_chain (_block : bytes) (_ir : Z) : BC VerifiedBlockRef :=
  on_store (verifyBlock (bp_operations bp) (bp_headers bp) _block _ir).

(** Insert a block with its receipts, without executing it. *)
Definition insert (ref : VerifiedBlockRef) (_block _receipts : bytes) (now : int64) (_mustBeNew : bool) : BC unit :=
  let info_ := vb_info ref in
  let hash := h_hash info_ in
  let parent := h_parentHash info_ in
  when _mustBeNew (checkBlockIsNew ref) ;;
  known ← isKnown parent false;
  if negb known then throw EUnknownParent
  else
    r ← lift (RLP _receipts);
    rs ← lift (rlp_list r);
    receiptsRoot ← lift (orderedTrieRoot rs);
    if negb (h_receiptsRoot info_ =? receiptsRoot) then throw InvalidReceiptsStateRoot
    else
      pd ← details parent;
      if details_isNull pd then exit1
      else
        checkBlockTimestamp now info_ ;;
        _ ← verify_on_chain _block IR_InOrderChecks;
        blb ← lift (receipt_blooms _receipts);
        _ ← details parent;
        cd ← cached_details parent;
        when (negb (bool_decide (hash ∈ d_children cd))) (modS (push_child parent hash)) ;;
        cd ← cached_details parent;
        let bd := mkDetails (u32 (d_number pd + 1)) (d_totalDifficulty pd [+] h_difficulty info_) parent [] in
        modS (λ c, c <| c_store ::= λ s, s <| bs_blocksDB ::= <[hash := _block]> |> |>
                     <| c_extrasDB ::= write_all
                          [((parent, ExtraDetails), details_rlp cd); ((hash, ExtraDetails), details_rlp bd);
                           ((hash, ExtraLogBlooms), logBlooms_rlp (mkLogBlooms blb)); ((hash, ExtraReceipts), _receipts)] |>).
Definition insertWithoutParent (_block _receipts : bytes) (_totalDifficulty : u256) (now : int64) : BC ImportRoute :=
  ref ← verify_on_chain _block IR_OutOfOrderChecks;
  checkBlockIsNew ref ;;
  checkBlockTimestamp now (vb_info ref) ;;
  insertBlockAndExtras ref _block _receipts _totalDifficulty true.
End Insert.

(** ** Which branch is best *)
Section Importing.
Context `{CR : Crypto, CF : Config, ST_ : !StorageTrie, RN : Rng, CO : !AccountCodec, BF : BlockFace}.
Context (bp : BlockChainParams).

Definition is_miner (a : Address) (l : list PollData) : bool := bool_decide (a ∈ m_addr <$> l).
(** What can be read from the state that [populateFromChain] gives. *)
Definition reads_state {A} (m : M A) (s : State) : BC A := lift (m s).1.
(** [extraData().back()] *)
Definition extra_back (h : BlockHeader) : outcome Z := match last (h_extraData h) with Some x => Ok x | None => Undef end.

(** The author seals in its own slot, or stands in for a producer that is away.  (The end of
    the range of forced blocks is computed for numbers from [dividendHeight] on only: where
    the sum does not fit, on the test chain, that is the number 2^63 - 1 alone.) *)
Definition check_author (info_ : BlockHeader) (s : State) (exe_miners standby_miners : list PollData) : BC unit :=
  let author := h_author info_ in
  if is_miner author exe_miners then
    back ← lift (extra_back info_);
    if (back =? 0x66) && (dividendHeight <=? h_number info_) && (h_number info_ <=? dividendHeight + FORCEBLOCKCOUNT) then mret tt
    else if bp_varlitorInterval bp =? 0 then undef
    else
      let offset := time_slot (h_timestamp info_) (bp_varlitorInterval bp) (length exe_miners) in
      if bool_decide ((m_addr <$> exe_miners) !! offset = Some author) then mret tt else throw InvalidMinner
  else if negb (is_miner author standby_miners) then throw InvalidMinner
  else
    ok ← reads_state (verify_standby (h_timestamp info_) author (bp_varlitorInterval bp) (newChangeHeight <=? h_number info_)) s;
    if ok : bool then mret tt else throw InvalidMinner.
(** The loop over the stand-bys: the author that is listed first wins. *)
Fixpoint stands_before (author head_author : Address) (l : list PollData) : bool :=
  match l with
  | [] => false
  | v :: l =>
      if m_addr v =? author then true
      else if m_addr v =? head_author then false
      else stands_before author head_author l
  end.
(** Whether a block of the height of the head replaces it. *)
Definition replaces (author head_author : Address) (exe_miners standby_miners : list PollData) : bool :=
  if is_miner head_author exe_miners then false
  else if is_miner author exe_miners then true
  else stands_before author head_author standby_miners.

Definition current_info : BC BlockHeader := c ← getS; info (c_lastBlockHash c).
Definition verifyReplaceMiner (ref : VerifiedBlockRef) : BC bool :=
  let info_ := vb_info ref in
  head ← current_info;
  if h_number head =? 0 then mret true
  else
    s ← (if replaceMinerHeight <=? h_number info_
         then try_catch (populateFromChain (h_parentHash info_)) (λ _, true) (λ _, throw EUnknownParent)
         else populateFromChain (h_parentHash head));
    exe_miners ← reads_state (vote_data SysVarlitorAddress) s;
    standby_miners ← reads_state (vote_data SysCanlitorAddress) s;
    check_author info_ s exe_miners standby_miners ;;
    head ← current_info;
    mret (if replaceMinerHeight <=? h_number info_ then
            if h_parentHash info_ =? h_hash head then true
            else if h_number info_ <? h_number head then false
            else if h_number info_ =? h_number head
              then replaces (h_author info_) (h_author head) exe_miners standby_miners
            else h_number info_ =? h_number head + 1
          else true).

(** ** Importing *)
Definition execute_block (ref : VerifiedBlockRef) (_block : bytes) (now : int64) : BC ImportRoute :=
  let info_ := vb_info ref in
  pd ← details (h_parentHash info_);
  if details_isNull pd then exit1
  else
    is_best ← verifyReplaceMiner ref;
    checkBlockTimestamp bp now info_ ;;
    _ ← verify_on_chain bp _block IR_InOrderChecks;
    '(tdIncrease, br) ← try_catch (enactOn ref _block) (λ e, bool_decide (e = BadRoot)) (λ _, throw TransientError);
    let td := d_totalDifficulty pd [+] tdIncrease in
    insertBlockAndExtras bp ref _block (receipts_rlp (mkReceipts br)) td
      (if h_number info_ <? replaceMinerHeight then true else is_best).
Definition bc_import (ref : VerifiedBlockRef) (_block : bytes) (now : int64) (_mustBeNew : bool) : BC ImportRoute :=
  when _mustBeNew (checkBlockIsNew ref) ;;
  known ← isKnown (h_parentHash (vb_info ref)) false;
  if negb known then throw EUnknownParent else execute_block ref _block now.

Inductive ImportStatus := ISuccess | IUnknownParent | IAlreadyKnown | IFutureTimeKnown | IMalformed.
(** [noexcept]: what is not derived from [dev::Exception] ends the program. *)
Definition attemptImport (_block : bytes) (now : int64) (_mustBeNew : bool) : BC (ImportStatus * ImportRoute) := λ c,
  match (ref ← verify_on_chain bp _block IR_OutOfOrderChecks; bc_import ref _block now _mustBeNew) c with
  | (Ok r, c) => (Ok (ISuccess, r), c)
  | (Throw e, c) =>
      if is_dev_exception e then
        (Ok (match e with EUnknownParent => IUnknownParent | AlreadyHaveBlock => IAlreadyKnown | FutureTime => IFutureTimeKnown
             | _ => IMalformed end, mkRoute [] [] []), c)
      else (Exit, c)
  | (Exit, c) => (Exit, c)
  | (OutOfFuel, c) => (OutOfFuel, c)
  | (Undef, c) => (Undef, c)
  end.

(** [sync], between taking the blocks from the queue and handing the bad ones back: the
    routes, the bad blocks, the number of imported ones and the numbers given to
    [addForceBlockCount].  [nows] are the readings of the clock. *)
Record SyncResult := mkSync { sr_route : ImportRoute; sr_bad : list h256; sr_count : nat; sr_forced : list int64 }.
Definition route_app (r r' : ImportRoute) : ImportRoute :=
  mkRoute (deadBlocks r ++ deadBlocks r') (liveBlocks r ++ liveBlocks r') (goodTranactions r ++ goodTranactions r').
(** [config::dividendHeight() + FORCEBLOCKCOUNT], which overflows on the test chain. *)
Definition forced_until : outcome int64 :=
  let n := dividendHeight + FORCEBLOCKCOUNT in if n <=? INT64_MAX then Ok n else Undef.
Definition sync_one (acc : SyncResult) (b : VerifiedBlockRef * bytes * int64) : BC SyncResult := λ c,
  let '(ref, _block, now) := b in
  let bad := mkSync (sr_route acc) (sr_bad acc ++ [h_hash (vb_info ref)]) (sr_count acc) (sr_forced acc) in
  match bc_import ref _block now true c with
  | (Ok r, c) =>
      let n := h_number (vb_info ref) in
      let done r' forced := mkSync r' (sr_bad acc) (S (sr_count acc)) (sr_forced acc ++ forced) in
      let r' := route_app (sr_route acc) r in
      (until ← forced_until;
       if n <=? until then back ← extra_back (vb_info ref); Ok (done r' (if back =? 0x66 then [n] else []))
       else Ok (done r' []), c)
  | (Throw e, c) =>
      match e with
      | AlreadyHaveBlock | FutureTime | TransientError | overflow_error => (Ok acc, c)
      | _ => (Ok bad, c)
      end
  | (Exit, c) => (Exit, c)
  | (OutOfFuel, c) => (OutOfFuel, c)
  | (Undef, c) => (Undef, c)
  end.
Definition sync_blocks (blocks : list (VerifiedBlockRef * bytes * int64)) : BC SyncResult :=
  foldM sync_one (mkSync (mkRoute [] [] []) [] 0 []) blocks.
End Importing.

(** ** Moving the head back, opening the databases *)
Section Rewind.
Context `{CR : Crypto}.
Context (bp : BlockChainParams).

Definition rewind (_newHead : Z) : BC unit :=
  c ← getS;
  if c_lastBlockNumber c <=? _newHead then mret tt
  else
    clearCachesDuringChainReversion (u32 (_newHead + 1)) ;;
    h ← numberHash _newHead;
    modS (λ c, c <| c_lastBlockHash := h |> <| c_lastBlockNumber := _newHead |> <| c_best := Some h |> <| c_lastHashes := [] |>).

Definition known_number (n : Z) : BC bool := h ← numberHash n; isKnown h true.
(** The loop that doubles [u] ends on any exception. *)
Fixpoint rescue_upper (fuel : nat) (u : Z) : BC Z :=
  match fuel with
  | O => out_of_fuel
  | S fuel =>
      known ← try_catch (known_number u) (λ _, true) (λ _, mret false);
      if known : bool then rescue_upper fuel (u32 (u * 2)) else mret u
  end.
Fixpoint rescue_search (fuel : nat) (l u : Z) : BC Z :=
  match fuel with
  | O => out_of_fuel
  | S fuel =>
      if 1 <? u - l then
        let m := u32 (u + l) / 2 in
        known ← known_number m;
        if known : bool then rescue_search fuel m u else rescue_search fuel l m
      else mret l
  end.
Fixpoint rescue_known (l : nat) : BC nat :=
  match l with
  | O => mret 0%nat
  | S l' => known ← known_number (Z.of_nat l); if known : bool then mret l else rescue_known l'
  end.
(** [exists_] is [_db.exists]. *)
Fixpoint rescue_state (exists_ : h256 → bool) (l : nat) : BC nat :=
  match l with
  | O => mret 0%nat
  | S l' =>
      h ← numberHash (Z.of_nat l);
      ok ← try_catch
        (b ← block bp h; bi ← lift (header_of_block b); _ ← details h; mret (exists_ (h_stateRoot bi)))
        (λ _, true) (λ _, mret false);
      if ok : bool then mret l else rescue_state exists_ l'
  end.
(** [number] is [dbConfig.number]; the loops end within 32 doublings and halvings. *)
Definition rescue (number : int64) (exists_ : h256 → bool) : BC unit :=
  let u := u32 number in
  l ← (if u <=? 0 then u ← rescue_upper 33 1; l ← rescue_search 33 (u / 2) u; mret (Z.to_nat l)
       else c ← getS; rescue_known (Z.to_nat (Z.min u (c_lastBlockNumber c))));
  l ← rescue_state exists_ l;
  rewind (Z.of_nat l).

(** [allKinFrom]: the loop ends at the genesis block or after [_generations] blocks. *)
Fixpoint allKin_loop (_generations : nat) (p : h256) (ret : gset h256) : BC (gset h256) :=
  match _generations with
  | O => mret ret
  | S n =>
      c ← getS;
      if bool_decide (p = bs_genesisHash (c_store c)) then mret ret
      else
        d ← details p;
        b ← block bp p;
        uncles ← lift (r ← RLP b; x ← item r 2; rlp_list x);
        d' ← details p;
        allKin_loop n (d_parent d') (list_to_set (sha3 <$> uncles) ∪ ({[d_parent d]} ∪ ret))
  end.
Definition allKinFrom (_parent : h256) (_generations : nat) : BC (gset h256) := allKin_loop _generations _parent {[_parent]}.

(** [LastBlockHashes::precedingHashes]: 256 hashes, zero before the genesis block, filled
    in place: an exception leaves what was there behind it. *)
Fixpoint fill_hashes (n : nat) (i : nat) : BC unit :=
  match n with
  | O => mret tt
  | S n =>
      c ← getS;
      let h := nth i (c_lastHashes c) 0 in
      p ← (if h =? 0 then mret 0 else x ← info h; mret (h_parentHash x));
      modS (λ c, c <| c_lastHashes ::= <[S i := p]> |>) ;;
      fill_hashes n (S i)
  end.
Definition precedingHashes (_mostRecentHash : h256) : BC (list h256) :=
  c ← getS;
  when (negb (bool_decide (head (c_lastHashes c) = Some _mostRecentHash)))
    (modS (λ c, c <| c_lastHashes ::= λ l, <[0%nat := _mostRecentHash]> (resize 256 0 l) |>) ;;
     fill_hashes 255 0) ;;
  c ← getS; mret (c_lastHashes c).

Definition setChainStartBlockNumber (_number : Z) : BC unit :=
  hash ← numberHash _number;
  if hash =? 0 then throw UnknownBlockNumber else modS (λ c, c <| c_chainStart := Some hash |>).
Definition chainStartBlockNumber : BC Z :=
  c ← getS; match c_chainStart c with None => mret 0 | Some h => block_number h end.

Inductive WithExisting := Trust | WVerify | WKill | WRescue | WExport.
(** [open], from the databases on: the details of the genesis block are made up when they are
    missing, then the head is read. *)
Definition genesis_details : BC unit :=
  c ← getS;
  let g := bs_genesisHash (c_store c) in
  d ← details g;
  if details_isNull d then
    gb ← lift (header_of_block (bp_genesisBlock bp));
    let bd := mkDetails 0 (h_difficulty gb) 0 [] in
    modS (λ c, c <| c_details ::= <[g := bd]> |> <| c_extrasDB ::= <[(g, ExtraDetails) := details_rlp bd]> |>)
  else mret tt.
Definition open (_we : WithExisting) : BC unit :=
  when (match _we with WVerify => false | _ => true end) genesis_details ;;
  when (match _we with WExport => false | _ => true end) genesis_details ;;
  c ← getS;
  let h := default (bs_genesisHash (c_store c)) (c_best c) in
  n ← block_number h;
  modS (λ c, c <| c_lastBlockHash := h |> <| c_lastBlockNumber := n |>).
(** [init] and [open] on given databases. *)
Definition chain_on (blocksDB : gmap h256 bytes) (extrasDB : gmap ExtraKey bytes) (best chainStart : option h256) : outcome Chain :=
  h ← extractHeader (bp_genesisBlock bp);
  let s := mkStore (sha3 h) h ∅ blocksDB (mkUsage ∅ ∅ (replicate 18 ∅)) ∅ in
  let '(r, c) := open Trust (mkChain s ∅ ∅ ∅ ∅ ∅ ∅ ∅ extrasDB best chainStart 0 0 []) in
  r ;; Ok c.
End Rewind.
