(* ===== verification/ChainCodec.v ===== *)
(** * What the chain stores is read back

    Round trips of the values in the extras database; the bytes of a receipt, and of all
    receipts of a block, decode to what was written. *)
From stdpp Require Import base gmap list list_numbers.
From Stdlib Require Import ZArith Lia.
From S2P Require Import Prelude Rlp RlpProofs CodecProofs TransactionProofs Interfaces Receipts TrieCode BlockHeader BlockHeaderProofs BlockVerify BlockChain.
Open Scope Z_scope.

Lemma encode_hash_bound n h : (n <= 256)%nat → len (encode (rlp_hash n h)) <= Z.of_nat n + 9.
Proof.
  intros Hn. unfold rlp_hash. pose proof (encode_data_len (toBE_n n h)) as Hd. rewrite length_toBE_n in Hd. unfold SIZE_MAX in Hd. lia.
Qed.
(** A list of hashes of at most 256 bytes. *)
Lemma hashes_ok n (l : list Z) : (n <= 256)%nat → len l < 2 ^ 50 → item_ok (Items (rlp_hash n <$> l)) ∧ len (encode (Items (rlp_hash n <$> l))) < 2 ^ 60.
Proof.
  intros Hn Hl. pose proof (concat_len_le encode (rlp_hash n <$> l) (Z.of_nat n + 9)) as Hc.
  rewrite length_fmap in Hc. specialize (Hc ltac:(intros x (h&->&_)%list_elem_of_fmap; by apply encode_hash_bound)).
  pose proof (encode_items_len (rlp_hash n <$> l)) as He. unfold SIZE_MAX in He.
  assert (len (encode (Items (rlp_hash n <$> l))) < 2 ^ 60) as Hb by nia.
  split; [|done]. apply good_items; [|unfold fits, SIZE_MAX; lia]. apply Forall_fmap, Forall_true. intros h. apply good_hash_any.
Qed.
Lemma hash_item_ok n h : (n <= 256)%nat → item_ok (rlp_hash n h).
Proof. intros Hn. apply good_hash_any. unfold fits, SIZE_MAX. pose proof (encode_hash_bound n h Hn). lia. Qed.
Lemma hash_lax_256 h : 0 <= h < 256 ^ 256 → toHash_lax 256 (encode (rlp_hash 256 h)) = Ok h.
Proof.
  intros Hh. pose proof (hash_item_ok 256 h ltac:(lia)) as Ho. unfold toHash_lax.
  rewrite (requireGood_ok _ Ho), (isData_ok _ Ho), (payload_ok _ Ho). cbn [mbind outcome_bind payload_of rlp_hash is_items negb].
  change (Z.to_nat 256) with 256%nat. rewrite take_ge by (by rewrite length_toBE_n). by rewrite fromBE_toBE_n.
Qed.
Lemma encode_ne x : item_ok x → encode x ≠ [].
Proof. apply encode_nonempty. Qed.
Lemma unsigned_read n : 0 <= n < 2 ^ 32 → toInt 4 (encode (rlp_unsigned n)) = Ok n.
Proof.
  intros Hn. unfold rlp_unsigned. rewrite Z.mod_small by lia. apply (toInt_ok n 4); unfold in256, M256; lia.
Qed.
Lemma hash32_read h : in256 h → toHash 32 (encode (rlp_hash 32 h)) = Ok h.
Proof. intros Hh. apply (toHash_ok 32); [lia|exact Hh]. Qed.

Lemma hash_lax_32 h : in256 h → toHash_lax 32 (encode (rlp_hash 32 h)) = Ok h.
Proof. intros Hh. apply (toHash_lax_ok 32); [lia|exact Hh]. Qed.

Record details_wf (d : BlockDetails) : Prop := {
  dw_number : 0 <= d_number d < 2 ^ 32; dw_td : in256 (d_totalDifficulty d); dw_parent : in256 (d_parent d);
  dw_children : Forall in256 (d_children d); dw_few : len (d_children d) < 2 ^ 50 }.
Lemma details_items_ok d : details_wf d → item_ok (Items [rlp_unsigned (d_number d); rlp_int (d_totalDifficulty d); rlp_hash 32 (d_parent d);
                 Items (rlp_hash 32 <$> d_children d)]).
Proof.
  intros []. destruct (hashes_ok 32 (d_children d)) as [Hok Hlen]; [lia|done|].
  apply good_items.
  - repeat (apply Forall_cons; split); [apply good_unsigned|by apply good_int|apply good_hash_any|by intros _|by apply Forall_nil].
  - set (l := [_; _; _; _]). pose proof (encode_items_len l) as He. unfold fits, SIZE_MAX in *.
    pose proof (encode_hash_bound 32 (d_parent d) ltac:(lia)). pose proof (encode_int_len (d_totalDifficulty d) ltac:(done)).
    pose proof (encode_int_len (d_number d mod 2 ^ 32)) as Hi.
    specialize (Hi ltac:(unfold in256, M256; pose proof (Z.mod_pos_bound (d_number d) (2 ^ 32)); lia)). fold (rlp_unsigned (d_number d)) in Hi.
    assert (len (concat (encode <$> l)) < 2 ^ 61); [|lia]. unfold l. rewrite !fmap_cons, fmap_nil. cbn [concat]. rewrite !length_app. cbn [length]. lia.
Qed.
Lemma details_item d i x : details_wf d →
  [rlp_unsigned (d_number d); rlp_int (d_totalDifficulty d); rlp_hash 32 (d_parent d); Items (rlp_hash 32 <$> d_children d)] !! i = Some x →
  item (details_rlp d) i = Ok (encode x).
Proof. intros Hw. by apply item_lookup, details_items_ok. Qed.
Lemma hashes_back l : Forall in256 l → len l < 2 ^ 50 → toVector (toHash_lax 32) (encode (Items (rlp_hash 32 <$> l))) = Ok l.
Proof.
  intros Hc Hl. apply (toVector_ok (rlp_hash 32)); [by apply hashes_ok; [lia|]|].
  eapply Forall_impl; [exact Hc|]. intros h Hh _. by apply hash_lax_32.
Qed.
Lemma obind_eq {A B} (m : outcome A) (k : A → outcome B) x r : m = Ok x → k x = r → (y ← m; k y) = r.
Proof. by intros -> <-. Qed.
Lemma details_back d : details_wf d → details_rlp d ≠ [] ∧ details_of_rlp (details_rlp d) = Ok d.
Proof.
  intros Hw. split; [by apply encode_ne, details_items_ok|]. pose proof (λ i x, details_item d i x Hw) as Hi.
  eapply obind_eq; [by apply RLP_ok, details_items_ok|]. destruct Hw as [Hn Ht Hp Hc Hf].
  eapply obind_eq; [by apply (Hi 0%nat)|]. eapply obind_eq; [by apply unsigned_read|].
  eapply obind_eq; [by apply (Hi 1%nat)|]. eapply obind_eq; [by apply toInt_u256|].
  eapply obind_eq; [by apply (Hi 2%nat)|]. eapply obind_eq; [by apply hash32_read|].
  eapply obind_eq; [by apply (Hi 3%nat)|]. eapply obind_eq; [by apply hashes_back|]. by destruct d.
Qed.

Lemma blockHash_back h : in256 h → blockHash_rlp (mkBlockHash h) ≠ [] ∧ blockHash_of_rlp (blockHash_rlp (mkBlockHash h)) = Ok (mkBlockHash h).
Proof.
  intros Hh. assert (item_ok (rlp_hash 32 h)) as Ho by (apply item_ok_hash; lia). split; [by apply encode_ne|].
  eapply obind_eq; [by apply RLP_ok|]. eapply obind_eq; [by apply hash32_read|]. done.
Qed.

Definition blooms_wf (b : BlocksBlooms) : Prop := length (bb_blooms b) = 16%nat ∧ Forall (λ x, 0 <= x < 256 ^ 256) (bb_blooms b).
Lemma blooms_back b : blooms_wf b → blooms_rlp b ≠ [] ∧ blooms_of_rlp (blooms_rlp b) = Ok b.
Proof.
  intros [Hl Hb]. destruct (hashes_ok 256 (bb_blooms b)) as [Ho _]; [lia|lia|]. unfold blooms_rlp, blooms_of_rlp.
  split; [by apply encode_ne|]. eapply obind_eq; [by apply RLP_ok|]. rewrite isList_ok by done. cbn [is_items negb].
  eapply obind_eq; [by apply itemCount_ok|]. rewrite length_fmap, Hl.
  rewrite bool_decide_eq_false_2 by (intros H; by apply H). replace (Z.to_nat c_bloomIndexSize) with (length (bb_blooms b)) by exact Hl.
  apply (obind_eq _ _ (bb_blooms b)); [|by destruct b].
  revert Ho Hb. clear Hl. generalize (bb_blooms b) as l. intros l Ho Hb.
  assert (∀ k, (k <= length l)%nat → mapO (λ i, x ← item (encode (Items (rlp_hash 256 <$> l))) i; toHash_lax 256 x) (seq (length l - k) k) = Ok (drop (length l - k) l)) as H.
  { induction k as [|k IH]; intros Hk; [by rewrite drop_ge by lia|]. cbn [seq mapO].
    destruct (lookup_lt_is_Some_2 l (length l - S k)) as [x Hx]; [lia|].
    rewrite (item_lookup _ (length l - S k) (rlp_hash 256 x) Ho) by (by rewrite list_lookup_fmap, Hx). cbn [mbind outcome_bind].
    rewrite hash_lax_256 by (rewrite Forall_lookup in Hb; by eapply Hb). cbn [mbind outcome_bind].
    replace (S (length l - S k)) with (length l - k)%nat by lia. rewrite IH by lia. cbn [mbind outcome_bind].
    rewrite (drop_S _ _ _ Hx). do 3 f_equal. lia. }
  specialize (H (length l) ltac:(lia)). rewrite Nat.sub_diag in H. exact H.
Qed.

Lemma ta_back t : in256 (ta_blockHash t) → 0 <= ta_index t < 2 ^ 32 → ta_rlp t ≠ [] ∧ ta_of_rlp (ta_rlp t) = Ok t.
Proof.
  intros Hh Hi. unfold ta_rlp, ta_of_rlp. set (l := [_; _]).
  assert (item_ok (Items l)) as Ho.
  { apply good_items; [repeat (apply Forall_cons; split); [apply good_hash_any|apply good_unsigned|by apply Forall_nil]|]. unfold fits.
    pose proof (encode_items_len l) as He. unfold SIZE_MAX in *. pose proof (encode_hash_bound 32 (ta_blockHash t) ltac:(lia)).
    pose proof (encode_int_len (ta_index t mod 2 ^ 32)) as Hn.
    specialize (Hn ltac:(unfold in256, M256; pose proof (Z.mod_pos_bound (ta_index t) (2 ^ 32)); lia)). fold (rlp_unsigned (ta_index t)) in Hn.
    assert (len (concat (encode <$> l)) < 2 ^ 40); [|lia]. unfold l. rewrite !fmap_cons, fmap_nil. cbn [concat]. rewrite !length_app. cbn [length]. lia. }
  split; [by apply encode_ne|]. eapply obind_eq; [by apply RLP_ok|].
  eapply obind_eq; [by apply (item_lookup l 0 (rlp_hash 32 (ta_blockHash t)))|]. eapply obind_eq; [by apply hash32_read|].
  eapply obind_eq; [by apply (item_lookup l 1 (rlp_unsigned (ta_index t)))|]. eapply obind_eq; [by apply unsigned_read|]. by destruct t.
Qed.

(** ** Receipts *)
Record log_wf (l : LogEntry) : Prop := mkLogWf {
  lw_address : is_addr (le_address l); lw_topics : Forall in256 (le_topics l); lw_data : Forall is_byte (le_data l) }.
Definition status_wf (s : StatusOrRoot) : Prop := match s with StatusCode c => 0 <= c < 256 | StateRoot r => in256 r end.
Record receipt_wf (r : TransactionReceipt) : Prop := mkReceiptWf {
  rw_status : status_wf (r_statusCodeOrStateRoot r); rw_gas : in256 (r_gasUsed r); rw_bloom : 0 <= r_bloom r < 256 ^ 256;
  rw_log : Forall log_wf (r_log r) }.

Lemma toHash_any n h : item_ok (rlp_hash n h) → 0 <= h < 256 ^ Z.of_nat n → toHash (Z.of_nat n) (encode (rlp_hash n h)) = Ok h.
Proof.
  intros Ho Hh. unfold toHash. rewrite (requireGood_ok _ Ho), (isData_ok _ Ho), (payload_ok _ Ho).
  cbn [mbind outcome_bind payload_of rlp_hash is_items negb]. rewrite length_toBE_n, Z.ltb_irrefl. by rewrite fromBE_toBE_n.
Qed.
Lemma status_code_back c : 0 <= c < 256 → status_of_rlp (encode (rlp_int c)) = Ok (StatusCode c).
Proof.
  intros Hc. assert (forallb (λ c, match status_of_rlp (encode (rlp_int c)) with Ok (StatusCode x) => x =? c | _ => false end) (seqZ 0 256) = true) as H by (by vm_compute).
  rewrite forallb_forall in H. specialize (H c ltac:(apply list_elem_of_In, elem_of_seqZ; lia)).
  destruct (status_of_rlp _) as [[x|]| | | |]; try done. by apply Z.eqb_eq in H as ->.
Qed.
Lemma hash_length h : rlp_length (encode (rlp_hash 32 h)) = Ok 32.
Proof.
  unfold rlp_hash. cbn [encode]. destruct (encode_data_cases (toBE_n 32 h)) as [(x&Hx&_)|[-> _]].
  - apply (f_equal length) in Hx. by rewrite length_toBE_n in Hx.
  - rewrite length_toBE_n. change (header 0x80 (Z.of_nat 32)) with [160]. cbn [app]. rewrite rlp_length_cons by (by apply requireGood_cons). done.
Qed.
Lemma status_back s : status_wf s → status_of_rlp (encode (match s with StatusCode c => rlp_int c | StateRoot h => rlp_hash 32 h end)) = Ok s.
Proof.
  destruct s as [c|h]; intros Hs; [by apply status_code_back|]. unfold status_of_rlp. rewrite isData_ok by (apply item_ok_hash; lia). cbn [rlp_hash is_items negb].
  eapply obind_eq; [apply hash_length|]. cbn beta iota. rewrite Z.eqb_refl. eapply obind_eq; [by apply hash32_read|]. done.
Qed.

Lemma good_log l : log_wf l → good (log_item l).
Proof.
  intros []. apply good_items. repeat (apply Forall_cons; split); [apply good_hash_any| |by apply good_bytes|by apply Forall_nil].
  apply good_items, Forall_fmap, Forall_true. intros h. apply good_hash_any.
Qed.
Lemma good_receipt r : receipt_wf r → good (receipt_item r).
Proof.
  intros []. apply good_items. repeat (apply Forall_cons; split); [|by apply good_int|apply good_hash_any| |by apply Forall_nil].
  - destruct (r_statusCodeOrStateRoot r); [|apply good_hash_any]. apply good_int. unfold status_wf, in256, M256 in *. lia.
  - apply good_items, Forall_fmap. eapply Forall_impl; [done|]. apply good_log.
Qed.
Lemma log_back l : log_wf l → reads_back log_item log_of_rlp l.
Proof.
  intros [Ha Ht Hd] Ho. unfold log_item in *. set (fs := [_; _; _]) in *. pose proof (item_ok_items _ Ho) as Hf. unfold fs in Hf. rewrite !Forall_cons in Hf. destruct Hf as (_&Hok&Hda&_).
  unfold log_of_rlp. eapply obind_eq; [by apply itemCount_ok|]. rewrite bool_decide_eq_false_2 by (intros H; by apply H).
  eapply obind_eq; [by apply (item_lookup fs 0 (rlp_hash 20 (le_address l)))|]. eapply obind_eq; [apply (toHash_ok 20); [lia|exact Ha]|].
  eapply obind_eq; [by apply (item_lookup fs 1 (Items (rlp_hash 32 <$> le_topics l)))|].
  eapply obind_eq. { apply (toVector_ok (rlp_hash 32)); [done|]. eapply Forall_impl; [exact Ht|]. intros h Hh _. by apply hash_lax_32. }
  eapply obind_eq; [by apply (item_lookup fs 2 (rlp_bytes (le_data l)))|]. eapply obind_eq; [by apply toBytes_ok|]. by destruct l.
Qed.
Lemma receipt_back r : receipt_wf r → reads_back receipt_item receipt_of_rlp r.
Proof.
  intros [Hs Hg Hb Hl] Ho. unfold receipt_item in *. set (fs := [_; _; _; _]) in *. pose proof (item_ok_items _ Ho) as Hf. unfold fs in Hf. rewrite !Forall_cons in Hf. destruct Hf as (_&_&Hbo&Hlo&_).
  unfold receipt_of_rlp. eapply obind_eq; [by apply RLP_ok|]. eapply obind_eq; [by apply itemCount_ok|].
  rewrite isList_ok by done. rewrite bool_decide_eq_false_2 by (intros H; by apply H). cbn [is_items negb orb].
  eapply obind_eq; [by apply (item_lookup fs 0)|]. eapply obind_eq; [by apply status_back|].
  eapply obind_eq; [by apply (item_lookup fs 1 (rlp_int (r_gasUsed r)))|]. eapply obind_eq; [by apply toInt_u256|].
  eapply obind_eq; [by apply (item_lookup fs 2 (rlp_hash 256 (r_bloom r)))|]. eapply obind_eq; [by apply (toHash_any 256)|].
  eapply obind_eq; [by apply (item_lookup fs 3 (Items (log_item <$> r_log r)))|].
  eapply obind_eq; [apply (toVector_ok log_item log_of_rlp)|by destruct r]; [done|]. eapply Forall_impl; [exact Hl|]. apply log_back.
Qed.

(** All receipts of a block. *)
Definition receipts_ok (l : list TransactionReceipt) : Prop := Forall receipt_wf l ∧ fits (receipts_item l).
Lemma receipts_item_ok l : receipts_ok l → item_ok (receipts_item l).
Proof. intros [Hl Hf]. apply good_items; [|done]. apply Forall_fmap. eapply Forall_impl; [exact Hl|]. apply good_receipt. Qed.
Lemma receipts_back l : receipts_ok l → receipts_of_rlp (receipts_rlp (mkReceipts l)) = Ok (mkReceipts l).
Proof.
  intros Hl. pose proof (receipts_item_ok l Hl) as Ho. unfold receipts_of_rlp, receipts_rlp. cbn [br_receipts].
  eapply obind_eq; [by apply RLP_ok|]. eapply obind_eq; [by apply rlp_list_ok|]. eapply obind_eq; [|done].
  rewrite (mapO_ok receipt_item receipt_of_rlp id); [by rewrite list_fmap_id| |eapply Forall_impl; [apply Hl|]; apply receipt_back].
  apply item_ok_items in Ho. by rewrite Forall_fmap in Ho.
Qed.
Lemma receipt_blooms_back l : receipts_ok l → receipt_blooms (receipts_rlp (mkReceipts l)) = Ok (r_bloom <$> l).
Proof.
  intros Hl. pose proof (receipts_item_ok l Hl) as Ho. unfold receipt_blooms, receipts_rlp. cbn [br_receipts].
  eapply obind_eq; [by apply RLP_ok|]. eapply obind_eq; [by apply rlp_list_ok|].
  apply (mapO_ok receipt_item _ r_bloom); [apply item_ok_items in Ho; by rewrite Forall_fmap in Ho|].
  eapply Forall_impl; [apply Hl|]. intros r Hr Hi. eapply obind_eq; [by apply receipt_back|done].
Qed.
