(* ===== verification/ChainMemo.v ===== *)
(** * The caches of the chain are memos

    [shows c E]: what the caches of [c] hold, and what the database holds where they are
    empty, are the entries [E], for details, hashes of numbers, chunks of the index, receipts
    and log filters; cached bytes are those of the database.  The cache of the places of
    transactions is left out: the code empties it when blocks leave the branch of the head but
    not when an extension includes a transaction once more, so it can hold an older place; so
    is the memo of the latest hashes.  A query answers from [E] and leaves that so; [E] may run
    ahead of the database while a block is being inserted.  [gives] is the small logic in
    which the queries are specified. *)
From stdpp Require Import base gmap list.
From Stdlib Require Import ZArith Lia.
From S2P Require Import Prelude Rlp Interfaces Receipts BlockHeader BlockVerify BlockChain.
Open Scope Z_scope.

(** All of a chain but its caches. *)
Record Frame := mkFrame {
  f_genesisHash : h256; f_genesisHeaderBytes : bytes; f_blocksDB : gmap h256 bytes; f_cached_bytes : gmap h256 bytes;
  f_extrasDB : gmap ExtraKey bytes; f_best : option h256; f_chainStart : option h256; f_lastBlockHash : h256; f_lastBlockNumber : Z }.
Definition frame (c : Chain) : Frame :=
  mkFrame (bs_genesisHash (c_store c)) (bs_genesisHeaderBytes (c_store c)) (bs_blocksDB (c_store c)) (c_cached_bytes c)
    (c_extrasDB c) (c_best c) (c_chainStart c) (c_lastBlockHash c) (c_lastBlockNumber c).

Lemma frame_header c c' : frame c' = frame c → bs_genesisHeaderBytes (c_store c') = bs_genesisHeaderBytes (c_store c).
Proof. apply (f_equal f_genesisHeaderBytes). Qed.
(** The value of the kind [T] that entries [E] hold for [h]. *)
Definition stored {T} `{Extra T} (E : gmap ExtraKey bytes) (h : Z) : outcome T :=
  let s := default [] (E !! (h, extra_kind)) in
  if bool_decide (s = []) then Ok extra_null else extra_of_rlp s.
Definition present (E : gmap ExtraKey bytes) (k : ExtraKey) : Prop := default [] (E !! k) ≠ [].

Section Kind.
Context (T : Type) {X : Extra T}.
Definition cache_shows (c : Chain) (E : gmap ExtraKey bytes) : Prop := ∀ h,
  match extra_cache c !! h with
  | Some x => present E (h, extra_kind) ∧ stored E h = Ok (x : T)
  | None => c_extrasDB c !! (h, extra_kind) = E !! (h, extra_kind)
  end.
End Kind.
Record shows (c : Chain) (E : gmap ExtraKey bytes) : Prop := mkShows {
  sh_details : cache_shows BlockDetails c E;
  sh_hashes : cache_shows BlockHash c E;
  sh_blooms : cache_shows BlocksBlooms c E;
  sh_receipts : cache_shows BlockReceipts c E;
  sh_logBlooms : cache_shows BlockLogBlooms c E;
  sh_blocks : ∀ h b, bs_blocks (c_store c) !! h = Some b → bs_blocksDB (c_store c) !! h = Some b ∧ b ≠ [];
  sh_bytes : c_cached_bytes c = ∅ }.
(** These caches hold what the database holds. *)
Definition Coherent (c : Chain) : Prop := shows c (c_extrasDB c).

(** ** A computation that only queries *)
Definition gives {A : Type} (F : Frame) (E : gmap ExtraKey bytes) (m : BC A) (o : outcome A) : Prop :=
  ∀ c, shows c E → frame c = F → ∃ c', m c = (o, c') ∧ shows c' E ∧ frame c' = F.
Definition only_reads {A : Type} (m : BC A) : Prop :=
  ∀ c E, shows c E → shows (m c).2 E ∧ frame (m c).2 = frame c.

Section Logic.
Context {F : Frame} {E : gmap ExtraKey bytes}.
Lemma gives_ret {A} (x : A) : gives F E (mret x) (Ok x).
Proof. intros c Hc HF. by exists c. Qed.
Lemma gives_lift {A} (o : outcome A) : gives F E (lift o) o.
Proof. intros c Hc HF. by exists c. Qed.
Lemma gives_throw {A} e : gives F E (throw e : BC A) (Throw e).
Proof. intros c Hc HF. by exists c. Qed.
Lemma gives_bind {A B} (m : BC A) (k : A → BC B) x o : gives F E m (Ok x) → gives F E (k x) o → gives F E (m ≫= k) o.
Proof.
  intros Hm Hk c Hc HF. destruct (Hm c Hc HF) as (c1&E1&H1&F1). destruct (Hk c1 H1 F1) as (c2&E2&H2&F2).
  exists c2. by rewrite (bind_ok _ _ _ _ _ E1).
Qed.
Lemma gives_get {B} (k : Chain → BC B) o : (∀ c, shows c E → frame c = F → gives F E (k c) o) → gives F E (c ← getS; k c) o.
Proof. intros Hk c Hc HF. exact (Hk c Hc HF c Hc HF). Qed.
Lemma gives_when (b : bool) (m : BC unit) : (b = true → gives F E m (Ok tt)) → gives F E (when b m) (Ok tt).
Proof. destruct b; intros Hm; [by apply Hm|apply gives_ret]. Qed.
Lemma gives_forM {A} (xs : list A) (f : A → BC unit) : (∀ x, x ∈ xs → gives F E (f x) (Ok tt)) → gives F E (forM xs f) (Ok tt).
Proof.
  induction xs as [|x xs IH]; intros Hf; [apply gives_ret|]. cbn [forM].
  eapply gives_bind; [apply Hf; left|]. apply IH. intros y Hy. apply Hf. by right.
Qed.
End Logic.

Lemma reads_bind {A B} (m : BC A) (k : A → BC B) : only_reads m → (∀ x, only_reads (k x)) → only_reads (m ≫= k).
Proof.
  intros Hm Hk c E Hc. destruct (Hm c E Hc) as [H1 F1]. unfold mbind, ST_bind. destruct (m c) as [[x|e| | |] c1]; cbn [snd] in *; try done.
  destruct (Hk x c1 E H1) as [H2 F2]. split; [done|]. by rewrite F2.
Qed.
Lemma reads_ret {A} (x : A) : only_reads (mret x).
Proof. by intros c E Hc. Qed.
Lemma reads_lift {A} (o : outcome A) : only_reads (lift o).
Proof. by intros c E Hc. Qed.
Lemma reads_throw {A} e : only_reads (throw e : BC A).
Proof. by intros c E Hc. Qed.
Lemma reads_undef {A} : only_reads (undef : BC A).
Proof. by intros c E Hc. Qed.
Lemma reads_exit {A} : only_reads (exit1 : BC A).
Proof. by intros c E Hc. Qed.
Lemma reads_get : only_reads getS.
Proof. by intros c E Hc. Qed.
Lemma reads_try {A} (m : BC A) p h : only_reads m → (∀ e, only_reads (h e)) → only_reads (try_catch m p h).
Proof.
  intros Hm Hh c E Hc. destruct (Hm c E Hc) as [H1 F1]. unfold try_catch. destruct (m c) as [[x|e| | |] c1]; cbn [snd] in *; try done.
  destruct (p e); [|done]. destruct (Hh e c1 E H1) as [H2 F2]. split; [done|]. by rewrite F2.
Qed.
Lemma reads_forM {A} (xs : list A) (f : A → BC unit) : (∀ x, only_reads (f x)) → only_reads (forM xs f).
Proof. intros Hf. induction xs as [|x xs IH]; [apply reads_ret|]. cbn [forM]. by apply reads_bind. Qed.
Lemma reads_foldM {A B} (f : B → A → BC B) xs b : (∀ b x, only_reads (f b x)) → only_reads (foldM f b xs).
Proof. intros Hf. revert b. induction xs as [|x xs IH]; intros b; [apply reads_ret|]. cbn [foldM]. by apply reads_bind. Qed.
Lemma reads_when (b : bool) (m : BC unit) : only_reads m → only_reads (when b m).
Proof. destruct b; [done|intros _; apply reads_ret]. Qed.
Lemma gives_reads {A} (m : BC A) o F E c : gives F E m o → shows c E → frame c = F → ∃ c', m c = (o, c') ∧ shows c' E ∧ frame c' = F.
Proof. intros H. apply H. Qed.

Create HintDb chain.
#[export] Hint Resolve reads_ret reads_lift reads_throw reads_undef reads_exit reads_get reads_try reads_forM reads_foldM reads_when : chain.
(** Splits a computation into its steps. *)
Ltac reads := repeat first
  [ solve [eauto with chain]
  | match goal with |- only_reads (_ ≫= _) => apply reads_bind; [|intros ?] end
  | progress cbv beta zeta
  | match goal with
    | |- only_reads (match ?x with _ => _ end) => destruct x
    | |- only_reads (let '(_, _) := ?x in _) => destruct x
    end ].

(** ** Queries *)
Ltac chain_fields := cbv beta iota delta [upd on_store
    c_store_field c_details_field c_logBlooms_field c_receipts_field c_transactionAddresses_field c_blockHashes_field
    c_blocksBlooms_field c_extrasDB_field c_best_field c_chainStart_field c_lastBlockHash_field c_lastBlockNumber_field c_lastHashes_field
    c_store c_details c_logBlooms c_receipts c_transactionAddresses c_blockHashes c_blocksBlooms c_cached_bytes c_extrasDB c_best
    c_chainStart c_lastBlockHash c_lastBlockNumber c_lastHashes
    bs_blocks_field bs_blocksDB_field bs_cacheUsage_field bs_inUse_field bs_genesisHash bs_genesisHeaderBytes bs_blocks bs_blocksDB
    bs_cacheUsage bs_inUse].

(** The cache of one kind can be changed on its own. *)
Class ShownExtra (T : Type) {X : Extra T} := {
  se_get : ∀ f c, extra_cache (extra_upd f c) = f (extra_cache c);
  se_frame : ∀ f c, frame (extra_upd f c) = frame c;
  se_db : ∀ f c, c_extrasDB (extra_upd f c) = c_extrasDB c;
  se_shown : ∀ c E, shows c E → cache_shows T c E;
  se_upd : ∀ f c E, shows c E → cache_shows T (extra_upd f c) E → shows (extra_upd f c) E
}.
Ltac shown_extra := constructor; [by intros f []..|by intros ?? []|intros f [] E [] ?; by constructor].
#[export] Instance details_shown : ShownExtra BlockDetails. Proof. shown_extra. Qed.
#[export] Instance hashes_shown : ShownExtra BlockHash. Proof. shown_extra. Qed.
#[export] Instance blooms_shown : ShownExtra BlocksBlooms. Proof. shown_extra. Qed.
#[export] Instance receipts_shown : ShownExtra BlockReceipts. Proof. shown_extra. Qed.
#[export] Instance logBlooms_shown : ShownExtra BlockLogBlooms. Proof. shown_extra. Qed.

Lemma noteUsed_blocks h k s : bs_blocks (noteUsed h k s) = bs_blocks s ∧ bs_blocksDB (noteUsed h k s) = bs_blocksDB s ∧
  bs_genesisHash (noteUsed h k s) = bs_genesisHash s ∧ bs_genesisHeaderBytes (noteUsed h k s) = bs_genesisHeaderBytes s.
Proof. unfold noteUsed. destruct s. case_bool_decide; done. Qed.
(** Changes of the store that only concern caches and bookkeeping. *)
Lemma store_shows f c E :
  shows c E → (∀ h b, bs_blocks (f (c_store c)) !! h = Some b → bs_blocksDB (c_store c) !! h = Some b ∧ b ≠ []) →
  bs_blocksDB (f (c_store c)) = bs_blocksDB (c_store c) →
  bs_genesisHash (f (c_store c)) = bs_genesisHash (c_store c) → bs_genesisHeaderBytes (f (c_store c)) = bs_genesisHeaderBytes (c_store c) →
  shows (c <| c_store ::= f |>) E ∧ frame (c <| c_store ::= f |>) = frame c.
Proof.
  intros Hc Hb Hd Hg Hh. assert (c_store (c <| c_store ::= f |>) = f (c_store c)) as Es by (by destruct c). split.
  - destruct Hc. constructor; try by destruct c. rewrite Es, Hd. exact Hb.
  - unfold frame. rewrite Es, Hd, Hg, Hh. by destruct c.
Qed.
Lemma noteUsed_shows h k c E : shows c E → shows (c <| c_store ::= noteUsed h k |>) E ∧ frame (c <| c_store ::= noteUsed h k |>) = frame c.
Proof.
  intros Hc. destruct (noteUsed_blocks h k (c_store c)) as (E1&E2&E3&E4). apply store_shows; try done. rewrite E1. apply Hc.
Qed.

Section Queries.
Context {T : Type} {X : Extra T} {SX : ShownExtra T} {F : Frame} {E : gmap ExtraKey bytes}.
Lemma query_gives h : gives F E (queryExtras h) (stored E h : outcome T).
Proof using SX.
  intros c Hc HF. pose proof (se_shown c E Hc h) as Hh. unfold queryExtras.
  rewrite (bind_ok _ _ _ c c) by done. destruct (extra_cache c !! h) as [x|] eqn:Ex.
  - destruct Hh as [_ Hs]. exists c. by rewrite Hs.
  - unfold stored. rewrite Hh. case_bool_decide as Es; [by exists c|].
    set (c1 := if extra_noted then c <| c_store ::= noteUsed h extra_kind |> else c).
    assert (shows c1 E ∧ frame c1 = frame c) as [H1 F1]. { unfold c1. destruct extra_noted; [by apply noteUsed_shows|done]. }
    rewrite (bind_ok _ _ _ tt c1) by done.
    destruct (extra_of_rlp (default [] (E !! (h, extra_kind)))) as [x|e| | |] eqn:Er;
      [|exists c1; split; [done|]; by rewrite F1..].
    exists (extra_upd <[h := x]> c1). split; [done|]. split; [|by rewrite se_frame, F1].
    apply se_upd; [done|]. intros h'. rewrite se_get, se_db. destruct (decide (h' = h)) as [->|Hn].
    + rewrite lookup_insert_eq. split; [done|]. unfold stored. by rewrite bool_decide_eq_false_2 by done.
    + rewrite lookup_insert_ne by done. apply (se_shown c1 E H1 h').
Qed.
End Queries.
Lemma query_reads {T} `{ShownExtra T} h : only_reads (queryExtras h : BC T).
Proof. intros c E Hc. destruct (query_gives h c Hc eq_refl) as (c'&->&H1&H2). by split. Qed.
#[export] Hint Extern 0 (only_reads (queryExtras _)) => apply query_reads : chain.
(** Addresses of transactions are not part of what is shown. *)
Lemma address_reads h : only_reads (queryExtras h : BC TransactionAddress).
Proof.
  intros c E Hc. unfold queryExtras. rewrite (bind_ok _ _ _ c c) by done. destruct (extra_cache c !! h); [done|]. case_bool_decide; [done|].
  destruct (noteUsed_shows h ExtraTransactionAddress c E Hc) as [H1 F1]. rewrite (bind_ok _ _ _ tt (c <| c_store ::= noteUsed h ExtraTransactionAddress |>)) by done.
  destruct (extra_of_rlp _) as [x|e| | |]; [|by split..]. revert H1 F1. generalize (c <| c_store ::= noteUsed h ExtraTransactionAddress |>) as c1.
  intros c1 [] <-. destruct c1. by split.
Qed.
#[export] Hint Resolve address_reads : chain.

(** ** Blocks *)
Section Blocks.
Context {F : Frame} {E : gmap ExtraKey bytes}.
Lemma memo_block_shows h c : shows c E → bs_blocksDB (c_store c) !! h = Some (default [] (bs_blocksDB (c_store c) !! h)) →
  default [] (bs_blocksDB (c_store c) !! h) ≠ [] →
  shows (c <| c_store ::= memo_block h (default [] (bs_blocksDB (c_store c) !! h)) |>) E ∧
  frame (c <| c_store ::= memo_block h (default [] (bs_blocksDB (c_store c) !! h)) |>) = frame c.
Proof.
  intros Hc Hd Hne. set (d := default [] _) in *. destruct (noteUsed_blocks h ExtraBlock (c_store c)) as (E1&E2&E3&E4).
  assert (bs_blocks (memo_block h d (c_store c)) = <[h := d]> (bs_blocks (c_store c))) as Eb.
  { unfold memo_block. rewrite <-E1. by destruct (noteUsed _ _ _). }
  apply store_shows; [done|rewrite Eb|rewrite <-E2|rewrite <-E3|rewrite <-E4]; try (unfold memo_block; by destruct (noteUsed _ _ _)).
  intros h' b. destruct (decide (h' = h)) as [->|Hn]; [rewrite lookup_insert_eq; by intros [= <-]|rewrite lookup_insert_ne by done; apply Hc].
Qed.
(** The bytes of a stored block. *)
Definition stored_block (bp : BlockChainParams) (F : Frame) (h : h256) : bytes :=
  if bool_decide (h = f_genesisHash F) then bp_genesisBlock bp else default [] (f_blocksDB F !! h).
Lemma db_some c h : default [] (bs_blocksDB (c_store c) !! h) ≠ [] → bs_blocksDB (c_store c) !! h = Some (default [] (bs_blocksDB (c_store c) !! h)).
Proof. by destruct (_ !! h). Qed.
Lemma block_gives bp h : gives F E (block bp h) (Ok (stored_block bp F h)).
Proof.
  intros c Hc HF. unfold block, stored_block. rewrite <-HF. cbn [frame f_genesisHash f_blocksDB]. rewrite (bind_ok _ _ _ c c) by done.
  case_bool_decide; [by exists c|]. destruct (bs_blocks (c_store c) !! h) as [b|] eqn:Eb.
  - destruct (sh_blocks c E Hc h b Eb) as [-> _]. by exists c.
  - case_bool_decide as Ed; [rewrite Ed; by exists c|]. destruct (memo_block_shows h c Hc (db_some c h Ed) Ed) as [H1 F1]. eexists. split; [reflexivity|]. done.
Qed.
(** The header bytes, as [headerData] finds them. *)
Definition stored_header (F : Frame) (h : h256) : outcome bytes :=
  if bool_decide (h = f_genesisHash F) then Ok (f_genesisHeaderBytes F)
  else let d := default [] (f_blocksDB F !! h) in if bool_decide (d = []) then Ok [] else extractHeader d.
Lemma headerData_gives h : gives F E (on_store (headerData h)) (stored_header F h).
Proof.
  intros c Hc HF. unfold on_store, headerData, stored_header. rewrite <-HF. cbn [frame f_genesisHash f_blocksDB f_genesisHeaderBytes].
  rewrite (bind_ok _ _ _ (c_store c) (c_store c)) by done. case_bool_decide.
  - eexists. split; [reflexivity|]. by destruct c.
  - destruct (bs_blocks (c_store c) !! h) as [b|] eqn:Eb.
    + destruct (sh_blocks c E Hc h b Eb) as [-> Hne]. cbn [default from_option id]. rewrite bool_decide_eq_false_2 by done.
      eexists. split; [reflexivity|]. by destruct c.
    + case_bool_decide as Ed; [eexists; split; [reflexivity|]; by destruct c|].
      destruct (memo_block_shows h c Hc (db_some c h Ed) Ed) as [H1 F1].
      exists (c <| c_store ::= memo_block h (default [] (bs_blocksDB (c_store c) !! h)) |>). done.
Qed.
End Blocks.
Lemma block_reads bp h : only_reads (block bp h).
Proof. intros c E Hc. destruct (block_gives bp h c Hc eq_refl) as (c'&->&H1&H2). by split. Qed.
Lemma headerData_reads h : only_reads (on_store (headerData h)).
Proof. intros c E Hc. destruct (headerData_gives h c Hc eq_refl) as (c'&->&H1&H2). by split. Qed.
#[export] Hint Resolve block_reads headerData_reads : chain.
