(* ===== verification/ChainTree.v ===== *)
(** * The tree of blocks

    The details in the extras database form a tree with the genesis block as its root.  Ancestors,
    paths, and what [treeRoute] finds. *)
From stdpp Require Import base gmap list.
From Stdlib Require Import ZArith Lia.
From S2P Require Import Prelude Rlp Interfaces BlockHeader BlockVerify BlockChain ChainCodec ChainMemo.
Open Scope Z_scope.

Abbreviation Extras := (gmap ExtraKey (list Z)).

(** [E] holds the details [d] of the block [h]. *)
Definition has (E : Extras) (h : h256) (d : BlockDetails) : Prop := present E (h, ExtraDetails) ∧ stored E h = Ok d.
Definition parent_of (E : Extras) (h : h256) : h256 := match stored E h with Ok d => d_parent d | _ => 0 end.
Fixpoint anc (E : Extras) (n : nat) (h : h256) : h256 := match n with O => h | S n => anc E n (parent_of E h) end.
(** The first [n] blocks of the branch that ends in [h], from [h] downwards. *)
Fixpoint path (E : Extras) (n : nat) (h : h256) : list h256 := match n with O => [] | S n => h :: path E n (parent_of E h) end.

Record TreeOk (g : h256) (E : Extras) : Prop := mkTree {
  t_root : ∃ d, has E g d ∧ d_number d = 0;
  t_wf : ∀ h d, has E h d → details_wf d ∧ d_number d < c_invalidNumber ∧ h ≠ 0;
  t_zero : ∀ h d, has E h d → d_number d = 0 → h = g;
  t_parent : ∀ h d, has E h d → 0 < d_number d → ∃ dp, has E (d_parent d) dp ∧ d_number d = d_number dp + 1 ∧ h ∈ d_children dp }.
(** Listed children are known, and children. *)
Definition ChildrenOk (E : Extras) : Prop :=
  ∀ h d k, has E h d → k ∈ d_children d → ∃ dk, has E k dk ∧ d_parent dk = h ∧ 0 < d_number dk.

Lemma has_inj E h d d' : has E h d → has E h d' → d = d'.
Proof. intros [_ H1] [_ H2]. congruence. Qed.
Lemma has_parent E h d : has E h d → parent_of E h = d_parent d.
Proof. unfold parent_of. by intros [_ ->]. Qed.
Lemma has_gives F E h d : has E h d → gives F E (details h) (Ok d).
Proof. intros [_ H]. unfold details. rewrite <-H. apply query_gives. Qed.
Lemma anc_add E n m h : anc E (n + m) h = anc E m (anc E n h).
Proof. revert h. induction n as [|n IH]; intros h; [done|]. apply IH. Qed.
Lemma path_add E n m h : path E (n + m) h = path E n h ++ path E m (anc E n h).
Proof. revert h. induction n as [|n IH]; intros h; [done|]. cbn. by rewrite IH. Qed.
Lemma path_length E n h : length (path E n h) = n.
Proof. revert h. induction n as [|n IH]; intros h; [done|]. cbn. by rewrite IH. Qed.
Lemma path_lookup E n h i : (i < n)%nat → path E n h !! i = Some (anc E i h).
Proof. revert h i. induction n as [|n IH]; intros h i Hi; [lia|]. destruct i as [|i]; [done|]. cbn. apply IH. lia. Qed.
Lemma path_elem E n h x : x ∈ path E n h ↔ ∃ i, (i < n)%nat ∧ x = anc E i h.
Proof.
  rewrite list_elem_of_lookup. split.
  - intros [i Hi]. pose proof (lookup_lt_Some _ _ _ Hi) as Hl. rewrite path_length in Hl. exists i. split; [done|].
    rewrite path_lookup in Hi by done. congruence.
  - intros (i&Hi&->). exists i. by apply path_lookup.
Qed.

(** The route between two blocks [a] and [b] runs down to their latest common ancestor, [i]
    blocks below [a] and [j] blocks below [b], and up again. *)
Record route_of (E : Extras) (a b : h256) (i j : nat) (top : h256) : Prop := mkRouteOf {
  ro_from : anc E i a = top; ro_to : anc E j b = top;
  ro_disjoint : ∀ x, x ∈ path E i a → x ∉ path E j b }.

Definition route_list (E : Extras) (common pre post : bool) (a b : h256) (i j : nat) (top : h256) : list h256 :=
  (if pre then path E i a else []) ++ (if common && (pre || post) then [top] else []) ++ (if post then reverse (path E j b) else []).
Definition route_index (common pre post : bool) (i j : nat) : Z :=
  let ret := ((if pre then i else 0) + (if pre && common then 1 else 0))%nat in
  let back := ((if post then j else 0) + (if post && negb pre && common then 1 else 0))%nat in
  Z.of_nat ret - (if common && negb (Nat.eqb ret 0) && negb (Nat.eqb back 0) then 1 else 0).

Section Tree.
Context {g : h256} {E : Extras} (HT : TreeOk g E).
(** Ancestors are known, and their numbers count down. *)
Lemma anc_has n h d : has E h d → (n <= Z.to_nat (d_number d))%nat → ∃ dn, has E (anc E n h) dn ∧ d_number dn = d_number d - Z.of_nat n.
Proof using HT.
  revert h d. induction n as [|n IH]; intros h d Hd Hn; [exists d; split; [done|lia]|].
  destruct (t_wf _ _ HT h d Hd) as [[] _]. destruct (t_parent _ _ HT h d Hd) as (dp&Hp&En&_); [lia|].
  cbn [anc]. rewrite (has_parent _ _ _ Hd). destruct (IH _ _ Hp) as (dn&Hdn&Edn); [lia|]. exists dn. split; [done|lia].
Qed.
Lemma anc_root h d : has E h d → anc E (Z.to_nat (d_number d)) h = g.
Proof using HT.
  intros Hd. destruct (t_wf _ _ HT h d Hd) as [[] _]. destruct (anc_has _ h d Hd (Nat.le_refl _)) as (dn&Hn&En).
  apply (t_zero _ _ HT _ dn Hn). lia.
Qed.
(** A block is not among its ancestors. *)
Lemma anc_inj h d n m : has E h d → (n <= Z.to_nat (d_number d))%nat → (m <= Z.to_nat (d_number d))%nat → anc E n h = anc E m h → n = m.
Proof using HT.
  intros Hd Hn Hm Ee. destruct (anc_has n h d Hd Hn) as (d1&H1&E1). destruct (anc_has m h d Hd Hm) as (d2&H2&E2).
  rewrite Ee in H1. rewrite (has_inj _ _ _ _ H1 H2) in E1. lia.
Qed.
Lemma path_nodup h d n : has E h d → (n <= S (Z.to_nat (d_number d)))%nat → NoDup (path E n h).
Proof using HT.
  intros Hd Hn. apply NoDup_alt. intros i j x Hi Hj.
  pose proof (lookup_lt_Some _ _ _ Hi) as Li. pose proof (lookup_lt_Some _ _ _ Hj) as Lj. rewrite path_length in Li, Lj.
  rewrite path_lookup in Hi, Hj by done. apply (anc_inj h d); [done|lia|lia|congruence].
Qed.

Context {F : Frame}.
Lemma climb_gives n keep h d : has E h d → (n <= Z.to_nat (d_number d))%nat →
  gives F E (climb n keep h) (Ok (if keep then path E n h else [], anc E n h)).
Proof using HT.
  revert h d. induction n as [|n IH]; intros h d Hd Hn; [destruct keep; apply gives_ret|].
  cbn [climb]. eapply gives_bind; [by apply has_gives|]. destruct (t_wf _ _ HT h d Hd) as [[] _].
  destruct (t_parent _ _ HT h d Hd) as (dp&Hp&En&_); [lia|].
  eapply gives_bind; [apply (IH _ dp); [done|lia]|]. cbn [path anc]. rewrite (has_parent _ _ _ Hd). destruct keep; apply gives_ret.
Qed.

Lemma meet_gives common pre post k : ∀ a b da db, has E a da → has E b db → d_number da = Z.of_nat k → d_number db = Z.of_nat k →
  ∃ j, (j <= k)%nat ∧ anc E j a = anc E j b ∧ (∀ i, (i < j)%nat → anc E i a ≠ anc E i b) ∧
  gives F E (meet (S k) common pre post a b)
    (Ok ((if pre then path E j a ++ (if common : bool then [anc E j a] else []) else []),
         (if post then path E j b ++ (if negb pre && common then [anc E j a] else []) else []), anc E j a)).
Proof using HT.
  induction k as [|k IH]; intros a b da db Ha Hb Na Nb; destruct (Z.eqb_spec a b) as [->|Hne].
  - exists 0%nat. split; [lia|]. split; [done|]. split; [lia|]. cbn [meet]. rewrite Z.eqb_refl. destruct pre, post, common; apply gives_ret.
  - destruct Hne. transitivity g; [apply (t_zero _ _ HT _ da Ha Na)|symmetry; apply (t_zero _ _ HT _ db Hb Nb)].
  - exists 0%nat. split; [lia|]. split; [done|]. split; [lia|]. cbn [meet]. rewrite Z.eqb_refl. destruct pre, post, common; apply gives_ret.
  - destruct (t_parent _ _ HT a da Ha) as (pa&Hpa&Npa&_); [lia|]. destruct (t_parent _ _ HT b db Hb) as (pb&Hpb&Npb&_); [lia|].
    destruct (IH _ _ pa pb Hpa Hpb) as (j&Hj&Ej&Hl&Hg); [lia|lia|]. exists (S j). split; [lia|].
    cbn [anc path]. rewrite (has_parent _ _ _ Ha), (has_parent _ _ _ Hb). split; [done|]. split.
    { intros [|i] Hi; [done|]. cbn [anc]. rewrite (has_parent _ _ _ Ha), (has_parent _ _ _ Hb). apply Hl. lia. }
    destruct (t_wf _ _ HT a da Ha) as (_&_&Ha0). destruct (t_wf _ _ HT b db Hb) as (_&_&Hb0).
    assert (meet (S (S k)) common pre post a b = (df ← details a; dt ← details b;
      '(ret', back', top) ← meet (S k) common pre post (d_parent df) (d_parent dt);
      mret ((if pre then [a] else []) ++ ret', (if post then [b] else []) ++ back', top))) as ->.
    { cbn [meet]. destruct (Z.eqb_spec a b); [done|]. destruct (Z.eqb_spec a 0); [done|]. destruct (Z.eqb_spec b 0); [done|].
      cbn [orb negb]. by rewrite !andb_true_r. }
    eapply gives_bind; [by apply has_gives|]. eapply gives_bind; [by apply has_gives|].
    eapply gives_bind; [exact Hg|]. cbn beta iota. destruct pre, post; apply gives_ret.
Qed.

Lemma route_ret (common pre post : bool) i j (top : h256) (ra rb : list h256) : length ra = i → length rb = j →
  let ret := if pre then ra ++ (if common : bool then [top] else []) else [] in
  let back := if post then rb ++ (if negb pre && common then [top] else []) else [] in
  ret ++ reverse back = (if pre then ra else []) ++ (if common && (pre || post) then [top] else []) ++ (if post then reverse rb else []) ∧
  len ret - (if common && negb (bool_decide (ret = [])) && negb (bool_decide (back = [])) then 1 else 0) = route_index common pre post i j.
Proof.
  intros <- <-. unfold route_index. destruct common, pre, post; cbn [andb orb negb Nat.add]; rewrite ?app_nil_r, ?length_app, ?reverse_app; cbn [length];
    (split; [rewrite <-?(assoc_L (++)); done|]);
    rewrite ?Nat.add_0_r; try (destruct ra; cbn [length app Nat.eqb negb andb]); try (destruct rb; cbn [length app Nat.eqb negb andb]);
    rewrite ?bool_decide_eq_true_2, ?bool_decide_eq_false_2 by (try done; by destruct ra); cbn [negb andb length]; try done;
    rewrite ?Nat.add_succ_r; cbn [Nat.eqb negb andb]; try lia.
Qed.
Lemma treeRoute_gives (common pre post : bool) a b da db : has E a da → has E b db → ∃ i j top,
  route_of E a b i j top ∧ d_number da - Z.of_nat i = d_number db - Z.of_nat j ∧ (i <= Z.to_nat (d_number da))%nat ∧ (j <= Z.to_nat (d_number db))%nat ∧
  gives F E (treeRoute a b common pre post) (Ok (route_list E common pre post a b i j top, top, route_index common pre post i j)).
Proof using HT.
  intros Ha Hb. destruct (t_wf _ _ HT a da Ha) as ([Wa _ _ _ _]&Va&Za). destruct (t_wf _ _ HT b db Hb) as ([Wb _ _ _ _]&Vb&Zb).
  set (na := d_number da) in *. set (nb := d_number db) in *. set (k := Z.to_nat (Z.min na nb)).
  set (ca := Z.to_nat (na - nb)). set (cb := Z.to_nat (nb - na)).
  destruct (anc_has ca a da Ha) as (da'&Ha'&Na'); [unfold ca; lia|]. destruct (anc_has cb b db Hb) as (db'&Hb'&Nb'); [unfold cb; lia|].
  destruct (meet_gives common pre post k _ _ _ _ Ha' Hb') as (t&Ht&Et&Hl&Hg); [unfold ca, k; lia|unfold cb, k; lia|].
  exists (ca + t)%nat, (cb + t)%nat, (anc E t (anc E ca a)).
  assert (route_of E a b (ca + t) (cb + t) (anc E t (anc E ca a))) as Hr.
  { constructor; [by rewrite anc_add|by rewrite anc_add|]. intros x (i&Hi&->)%path_elem (j&Hj&Ej)%path_elem.
    destruct (anc_has i a da Ha) as (d1&H1&N1); [unfold ca, k in *; lia|]. destruct (anc_has j b db Hb) as (d2&H2&N2); [unfold cb, k in *; lia|].
    rewrite Ej in H1. rewrite (has_inj _ _ _ _ H1 H2) in N1.
    assert (∃ u, i = ca + u ∧ j = cb + u ∧ u < t)%nat as (u&->&->&Hu) by (exists (i - ca)%nat; unfold ca, cb, k in *; lia).
    rewrite !anc_add in Ej. by apply (Hl u Hu). }
  split; [done|]. split; [unfold ca, cb; lia|]. split; [unfold ca, k in *; lia|]. split; [unfold cb, k in *; lia|].
  unfold treeRoute. destruct (Z.eqb_spec a 0); [done|]. destruct (Z.eqb_spec b 0); [done|]. cbn [orb].
  eapply gives_bind; [by apply has_gives|]. eapply gives_bind; [by apply has_gives|]. unfold details_isNull. fold na nb.
  destruct (Z.eqb_spec na c_invalidNumber); [lia|]. destruct (Z.eqb_spec nb c_invalidNumber); [lia|]. cbn [orb].
  eapply gives_bind; [apply (climb_gives ca pre a da); [done|unfold ca; lia]|]. cbn beta iota.
  eapply gives_bind; [apply (climb_gives cb post b db); [done|unfold cb; lia]|]. cbn beta iota.
  eapply gives_bind; [exact Hg|]. cbn beta iota zeta.
  destruct (route_ret common pre post (ca + t) (cb + t) (anc E t (anc E ca a)) (path E (ca + t) a) (path E (cb + t) b)) as [R1 R2]; [apply path_length..|].
  rewrite !path_add in R1, R2. unfold route_list. rewrite !path_add, <-R1, <-R2.
  destruct pre, post; cbn [app]; rewrite <-?(assoc_L (++)); apply gives_ret.
Qed.
End Tree.
