(* ===== verification/ChainBlooms.v ===== *)
(** * The Bloom index

    What the functions that write the index do to it: [bloom E level n] is the filter of the
    entry [n] of a level. *)
From stdpp Require Import base gmap list list_numbers.
From Stdlib Require Import ZArith Lia.
From S2P Require Import Prelude Rlp Interfaces Receipts BlockHeader BlockVerify BlockChain ChainCodec ChainMemo ChainTree.
Open Scope Z_scope.

(** ** Computations that move what is shown *)
Definition moves {A : Type} (F : Frame) (E : Extras) (m : BC A) (x : A) (E' : Extras) : Prop :=
  ∀ c, shows c E → frame c = F → ∃ c', m c = (Ok x, c') ∧ shows c' E' ∧ frame c' = F.
Lemma gives_moves {A} F E (m : BC A) x : gives F E m (Ok x) ↔ moves F E m x E.
Proof. done. Qed.
Lemma chain_bind {A B} F E E1 E2 (m : BC A) (k : A → BC B) x y : moves F E m x E1 → moves F E1 (k x) y E2 → moves F E (m ≫= k) y E2.
Proof.
  intros Hm Hk c Hc HF. destruct (Hm c Hc HF) as (c1&R1&H1&F1). destruct (Hk c1 H1 F1) as (c2&R2&H2&F2).
  exists c2. by rewrite (bind_ok _ _ _ _ _ R1).
Qed.
Lemma chain_ret {A} F E (x : A) : moves F E (mret x) x E.
Proof. apply gives_ret. Qed.
Lemma moves_get {B} F E E' (k : Chain → BC B) y :
  (∀ c, shows c E → frame c = F → ∃ c', k c c = (Ok y, c') ∧ shows c' E' ∧ frame c' = F) → moves F E (c ← getS; k c) y E'.
Proof. intros Hk c Hc HF. exact (Hk c Hc HF). Qed.

(** A new value of one kind, in the cache only. *)
Section Put.
Context {T : Type} {X : Extra T} {SX : ShownExtra T}.
Lemma other_kind {U} {Y : Extra U} c E k b : cache_shows U c E → k.2 ≠ extra_kind (T := U) → cache_shows U c (<[k := b]> E).
Proof.
  intros Hc Hk h. specialize (Hc h). unfold stored, present in *. rewrite lookup_insert_ne by (intros ->; by apply Hk). done.
Qed.
Lemma cached_put c E h x b : cache_shows T c E → extra_of_rlp b = Ok x → b ≠ [] → cache_shows T (extra_upd <[h := x]> c) (<[(h, extra_kind) := b]> E).
Proof using SX.
  intros Hc Hb Hne h'. rewrite se_get, se_db. unfold stored, present. destruct (decide (h' = h)) as [->|Hn].
  - rewrite !lookup_insert_eq. cbn [default from_option id]. split; [done|]. by rewrite bool_decide_eq_false_2.
  - rewrite !lookup_insert_ne by congruence. apply Hc.
Qed.
End Put.
Lemma put_details c E h x b : shows c E → details_of_rlp b = Ok x → b ≠ [] → shows (c <| c_details ::= <[h := x]> |>) (<[(h, ExtraDetails) := b]> E).
Proof.
  intros Hc Hb Hne. pose proof (cached_put (T := BlockDetails) c E h x b (sh_details _ _ Hc) Hb Hne) as Hp. destruct Hc.
  constructor; [exact Hp|..]; try (apply other_kind; [|done]); by destruct c.
Qed.
Lemma put_blooms c E h x b : shows c E → blooms_of_rlp b = Ok x → b ≠ [] → shows (c <| c_blocksBlooms ::= <[h := x]> |>) (<[(h, ExtraBlocksBlooms) := b]> E).
Proof.
  intros Hc Hb Hne. pose proof (cached_put (T := BlocksBlooms) c E h x b (sh_blooms _ _ Hc) Hb Hne) as Hp. destruct Hc.
  constructor; [..|by destruct c|by destruct c]; try exact Hp; (apply other_kind; [|done]); by destruct c.
Qed.
(** A query leaves a value that is present in the cache. *)
Lemma query_cached {T} `{SX : ShownExtra T} F E h x : stored E h = Ok x → present E (h, extra_kind) →
  ∀ c, shows c E → frame c = F → ∃ c', queryExtras h c = (Ok x, c') ∧ shows c' E ∧ frame c' = F ∧ extra_cache c' !! h = Some x.
Proof.
  intros Hs Hp c Hc HF. destruct (query_gives h c Hc HF) as (c'&R&H1&F1). exists c'. rewrite R, Hs. do 3 (split; [done|]).
  pose proof (se_shown c' E H1 h) as Hh. destruct (extra_cache c' !! h) as [y|] eqn:Ey; [destruct Hh; congruence|]. exfalso.
  (** The value was queried: it cannot be missing. *)
  pose proof (se_shown c E Hc h) as Hh0. revert R. unfold queryExtras. rewrite (bind_ok _ _ _ c c) by done.
  destruct (extra_cache c !! h) as [y|] eqn:Ey0; [intros [= _ <-]; congruence|].
  rewrite Hh0. unfold present in Hp. unfold stored in Hs. rewrite bool_decide_eq_false_2 in Hs |- * by done.
  rewrite (bind_ok _ _ _ tt (if extra_noted then c <| c_store ::= noteUsed h extra_kind |> else c)) by done. rewrite Hs.
  intros [= _ <-]. rewrite se_get, lookup_insert_eq in Ey. congruence.
Qed.

(** ** Entries of the index *)
Definition blooms_of (E : Extras) (id : h256) : BlocksBlooms := match stored E id with Ok b => b | _ => NullBlocksBlooms end.
Definition bloom (E : Extras) (level n : Z) : LogBloom := bloom_at (n mod 16) (blooms_of E (chunkId level (n / 16))).
Definition BloomsWf (E : Extras) : Prop := ∀ id, ∃ b, stored E id = Ok b ∧ blooms_wf b.
Definition is_bloom (x : LogBloom) : Prop := 0 <= x < 256 ^ 256.
(** The entries a chain of 32-bit numbers uses. *)
Definition in_level (level n : Z) : Prop := (level = 0 ∧ 0 <= n < 2 ^ 32) ∨ (level = 1 ∧ 0 <= n < 2 ^ 28).
Definition set_bloom (level n : Z) (v : LogBloom) (E : Extras) : Extras :=
  let id := chunkId level (n / 16) in
  <[(id, ExtraBlocksBlooms) := blooms_rlp (mkBlooms (<[Z.to_nat (n mod 16) := v]> (bb_blooms (blooms_of E id))))]> E.
(** The filters of a chunk of the lowest level together. *)
Definition chunk_or (E : Extras) (i : Z) : LogBloom := foldl Z.lor 0 (bb_blooms (blooms_of E (chunkId 0 i))).

Lemma chunkId_inj level level' i i' :
  (level = 0 ∧ 0 <= i < 2 ^ 28 ∨ level = 1 ∧ 0 <= i < 2 ^ 24) → (level' = 0 ∧ 0 <= i' < 2 ^ 28 ∨ level' = 1 ∧ 0 <= i' < 2 ^ 24) →
  chunkId level i = chunkId level' i' → level = level' ∧ i = i'.
Proof.
  unfold chunkId, u32. intros H1 H2 Heq. pose proof (Z.div_mod (i * 255 + level) (2 ^ 32)). pose proof (Z.div_mod (i' * 255 + level') (2 ^ 32)).
  lia.
Qed.
Lemma in_level_chunk level n : in_level level n → level = 0 ∧ 0 <= n / 16 < 2 ^ 28 ∨ level = 1 ∧ 0 <= n / 16 < 2 ^ 24.
Proof. unfold in_level. intros [[-> H]|[-> H]]; [left|right]; split; try done; split; try (apply Z.div_pos; lia); apply Z.div_lt_upper_bound; lia. Qed.
Lemma blooms_of_wf E id : BloomsWf E → stored E id = Ok (blooms_of E id) ∧ blooms_wf (blooms_of E id).
Proof. intros HB. unfold blooms_of. destruct (HB id) as (b&->&Hb). done. Qed.
Lemma set_blooms_of E level n v id : BloomsWf E → is_bloom v →
  blooms_of (set_bloom level n v E) id =
    if decide (id = chunkId level (n / 16)) then mkBlooms (<[Z.to_nat (n mod 16) := v]> (bb_blooms (blooms_of E id))) else blooms_of E id.
Proof.
  intros HB Hv. unfold blooms_of at 1, set_bloom, stored. destruct (decide _) as [->|Hn].
  - destruct (blooms_of_wf E (chunkId level (n / 16)) HB) as [_ [Hl Hf]]. set (b := mkBlooms _).
    assert (blooms_wf b) as Hw. { unfold b. split; cbn [bb_blooms]; [by rewrite length_insert|]. by apply Forall_insert. }
    destruct (blooms_back b Hw) as [Hne Hb]. rewrite lookup_insert_eq. cbn [default from_option id]. rewrite bool_decide_eq_false_2 by done.
    cbn [extra_of_rlp blooms_extra]. by rewrite Hb.
  - rewrite lookup_insert_ne by (intros [= ?]; congruence). done.
Qed.
Lemma set_bloom_bytes E level n v : BloomsWf E → is_bloom v → let id := chunkId level (n / 16) in
  set_bloom level n v E !! (id, ExtraBlocksBlooms) = Some (blooms_rlp (blooms_of (set_bloom level n v E) id)).
Proof. intros HB Hv id. rewrite set_blooms_of, decide_True by done. unfold set_bloom. by rewrite lookup_insert_eq. Qed.
Lemma set_blooms_wf E level n v : BloomsWf E → is_bloom v → BloomsWf (set_bloom level n v E).
Proof.
  intros HB Hv id. exists (blooms_of (set_bloom level n v E) id). rewrite set_blooms_of by done.
  assert (blooms_wf (if decide (id = chunkId level (n / 16)) then mkBlooms (<[Z.to_nat (n mod 16) := v]> (bb_blooms (blooms_of E id))) else blooms_of E id)) as Hw.
  { destruct (blooms_of_wf E id HB) as [_ [Hl Hf]]. case_decide; [|done]. split; cbn [bb_blooms]; [by rewrite length_insert|by apply Forall_insert]. }
  split; [|done]. case_decide as Hi.
  - unfold stored, set_bloom. subst id. rewrite lookup_insert_eq. destruct (blooms_back _ Hw) as [Hne Hb]. cbn [default from_option id].
    by rewrite bool_decide_eq_false_2.
  - unfold stored, set_bloom. rewrite lookup_insert_ne by (intros [= ?]; congruence). apply (blooms_of_wf E id HB).
Qed.
Lemma set_bloom_bloom E level n v level' n' : BloomsWf E → is_bloom v → in_level level n → in_level level' n' →
  bloom (set_bloom level n v E) level' n' = if decide (level' = level ∧ n' = n) then v else bloom E level' n'.
Proof.
  intros HB Hv Hn Hn'. unfold bloom. rewrite set_blooms_of by done. destruct (blooms_of_wf E (chunkId level' (n' / 16)) HB) as [_ [Hl _]].
  case_decide as Hc.
  - apply chunkId_inj in Hc as [-> Hd]; [|by apply in_level_chunk..]. unfold bloom_at. cbn [bb_blooms]. rewrite Hd in *.
    pose proof (Z.mod_pos_bound n 16). pose proof (Z.mod_pos_bound n' 16). pose proof (Z.div_mod n 16). pose proof (Z.div_mod n' 16).
    case_decide as Hs.
    + destruct Hs as [_ ->]. by rewrite (nth_lookup _ _ 0), list_lookup_insert_eq by (rewrite Hl; lia).
    + rewrite !nth_lookup. rewrite list_lookup_insert_ne; [done|]. intros He. apply Hs. split; [done|]. lia.
  - rewrite decide_False; [done|]. intros [-> ->]. done.
Qed.

(** ** Writing entries *)
Lemma alter_is_insert {A} (f : A → A) (l : list A) (i : nat) y : l !! i = Some y → alter f i l = <[i := f y]> l.
Proof. revert i. induction l as [|x l IH]; intros [|i] Hi; simplify_eq/=; [done|]. f_equal. by apply IH. Qed.
Lemma lor_bloom a b : is_bloom a → is_bloom b → is_bloom (Z.lor a b).
Proof.
  unfold is_bloom. change (256 ^ 256) with (2 ^ 2048). intros Ha Hb. split; [apply Z.lor_nonneg; lia|].
  destruct (decide (Z.lor a b = 0)) as [->|Hn]; [lia|]. assert (0 <= Z.lor a b) by (apply Z.lor_nonneg; lia).
  apply Z.log2_lt_pow2; [lia|]. rewrite Z.log2_lor by lia. apply Z.max_lub_lt.
  - destruct (decide (a = 0)) as [->|]; [cbn; lia|]. apply Z.log2_lt_pow2; lia.
  - destruct (decide (b = 0)) as [->|]; [cbn; lia|]. apply Z.log2_lt_pow2; lia.
Qed.
Lemma zero_bloom : is_bloom 0.
Proof. unfold is_bloom. lia. Qed.
Lemma blooms_gives F E id : BloomsWf E → gives F E (blocksBlooms id) (Ok (blooms_of E id)).
Proof. intros HB. destruct (blooms_of_wf E id HB) as [<- _]. apply query_gives. Qed.
(** An entry whose chunk is in the cache, if there is such a chunk. *)
Definition warm (c : Chain) (E : Extras) (id : h256) : Prop := present E (id, ExtraBlocksBlooms) → is_Some (c_blocksBlooms c !! id).
Lemma upd_bloom_shows c E level n f : shows c E → BloomsWf E → is_bloom (f (bloom E level n)) → warm c E (chunkId level (n / 16)) →
  shows (upd_bloom (chunkId level (n / 16)) (n mod 16) f c) (set_bloom level n (f (bloom E level n)) E) ∧
  frame (upd_bloom (chunkId level (n / 16)) (n mod 16) f c) = frame c.
Proof.
  intros Hc HB Hv Hw. set (id := chunkId level (n / 16)) in *. destruct (blooms_of_wf E id HB) as [Hs [Hl Hf]].
  assert (default NullBlocksBlooms (c_blocksBlooms c !! id) = blooms_of E id) as Hd.
  { pose proof (sh_blooms c E Hc id) as Hi. cbn [extra_cache blooms_extra] in Hi. destruct (c_blocksBlooms c !! id) as [b|] eqn:Eb.
    - destruct Hi as [_ Hi]. rewrite Hs in Hi. by injection Hi as ->.
    - cbn. unfold blooms_of, stored. cbn [extra_kind blooms_extra]. rewrite bool_decide_eq_true_2; [done|].
      destruct (decide (default [] (E !! (id, ExtraBlocksBlooms)) = [])) as [|Hne]; [done|]. destruct (Hw Hne) as [? Hx]. congruence. }
  assert (alter f (Z.to_nat (n mod 16)) (bb_blooms (blooms_of E id)) = <[Z.to_nat (n mod 16) := f (bloom E level n)]> (bb_blooms (blooms_of E id))) as Ha.
  { pose proof (Z.mod_pos_bound n 16). destruct (lookup_lt_is_Some_2 (bb_blooms (blooms_of E id)) (Z.to_nat (n mod 16))) as [y Hy]; [lia|].
    rewrite (alter_is_insert f _ _ _ Hy). do 2 f_equal. unfold bloom, bloom_at. fold id. by rewrite nth_lookup, Hy. }
  split; [|unfold frame, upd_bloom; by destruct c].
  assert (upd_bloom id (n mod 16) f c = c <| c_blocksBlooms ::= <[id := mkBlooms (<[Z.to_nat (n mod 16) := f (bloom E level n)]> (bb_blooms (blooms_of E id)))]> |>) as ->.
  { unfold upd_bloom. rewrite <-Ha, <-Hd. by destruct c. }
  assert (blooms_wf (mkBlooms (<[Z.to_nat (n mod 16) := f (bloom E level n)]> (bb_blooms (blooms_of E id))))) as Hx.
  { split; cbn [bb_blooms]; [by rewrite length_insert|by apply Forall_insert]. }
  destruct (blooms_back _ Hx) as [Hne Hb]. unfold set_bloom. fold id. by apply put_blooms.
Qed.
(** [blocksBlooms(id)] memoizes. *)
Lemma memo_warm E id c : shows c E → BloomsWf E → ∃ c', blocksBlooms id c = (Ok (blooms_of E id), c') ∧ shows c' E ∧ frame c' = frame c ∧ warm c' E id.
Proof.
  intros Hc HB. destruct (blooms_of_wf E id HB) as [Hs _].
  destruct (decide (default [] (E !! (id, ExtraBlocksBlooms)) = [])) as [He|Hne].
  - destruct (blooms_gives (frame c) E id HB c Hc eq_refl) as (c'&R&H1&F1). exists c'. do 3 (split; [done|]). by intros Hp.
  - destruct (query_cached (frame c) E id _ Hs Hne c Hc eq_refl) as (c'&R&H1&F1&Hx). exists c'. do 3 (split; [done|]). intros _. by eexists.
Qed.

(** What may have changed: only chunks of the entries [P]. *)
Definition agree_off (P : Z → Z → Prop) (E E' : Extras) : Prop :=
  ∀ k, (∀ level n, P level n → k ≠ (chunkId level (n / 16), ExtraBlocksBlooms)) → E' !! k = E !! k.
Lemma agree_refl P E : agree_off P E E.
Proof. done. Qed.
Lemma agree_trans (P Q : Z → Z → Prop) E E1 E2 : agree_off P E E1 → agree_off P E1 E2 → agree_off P E E2.
Proof. intros H1 H2 k Hk. by rewrite H2, H1. Qed.
Lemma agree_mono (P Q : Z → Z → Prop) E E' : (∀ l n, P l n → Q l n) → agree_off P E E' → agree_off Q E E'.
Proof. intros HPQ H k Hk. apply H. auto. Qed.
Lemma set_agree level n v E : agree_off (λ l m, l = level ∧ m = n) E (set_bloom level n v E).
Proof. intros k Hk. unfold set_bloom. apply lookup_insert_ne. intros <-. by apply (Hk level n). Qed.

Lemma chunk_or_bloom E i : BloomsWf E → is_bloom (chunk_or E i).
Proof.
  intros HB. unfold chunk_or. destruct (blooms_of_wf E (chunkId 0 i) HB) as [_ [_ Hf]]. revert Hf.
  assert (∀ l a, is_bloom a → Forall is_bloom l → is_bloom (foldl Z.lor a l)) as H; [|intros Hf; apply H; [apply zero_bloom|exact Hf]].
  induction l as [|x l IH]; intros a Ha Hl; [done|]. apply Forall_cons in Hl as [Hx Hl]. cbn. apply IH; [|done]. by apply lor_bloom.
Qed.

(** One level is cleared: the lowest to nothing, the next to what the lowest holds. *)
Definition cleared (E : Extras) (level n : Z) : LogBloom := if level =? 0 then 0 else chunk_or E n.
Lemma chunk_or_agree E E' n0 b n : agree_off (λ l m, l = 1 ∧ 0 <= m < 2 ^ 28) E E' → 0 <= n < 2 ^ 28 → n0 = n → b = E' → chunk_or b n0 = chunk_or E n.
Proof.
  intros Ha Hn -> ->. unfold chunk_or, blooms_of, stored. cbn [extra_kind blooms_extra]. rewrite Ha; [done|].
  intros level m [-> Hm] [= Hc]. apply chunkId_inj in Hc as [? _]; [done|left; lia|right].
  split; [done|]. split; [apply Z.div_pos; lia|apply Z.div_lt_upper_bound; lia].
Qed.
Lemma clear_item F E level n : BloomsWf E → in_level level n → (level = 1 → 0 <= n < 2 ^ 28) →
  moves F E (let bunch := n / c_bloomIndexSize in
    let offset := n mod c_bloomIndexSize in
    let id := chunkId level bunch in
    acc ← (if level =? 0 then mret 0 else b ← blocksBlooms (chunkId (level - 1) n); mret (foldl Z.lor 0 (bb_blooms b)));
    _ ← blocksBlooms id;
    modS (upd_bloom id offset (λ _, acc))) tt (set_bloom level n (cleared E level n) E).
Proof.
  intros HB Hn H1. cbv zeta. change c_bloomIndexSize with 16. eapply (chain_bind _ _ E _ _ _ (cleared E level n)).
  { unfold cleared. destruct (Z.eqb_spec level 0) as [->|Hl]; [apply chain_ret|]. assert (level = 1) as -> by (destruct Hn as [[]|[]]; lia).
    eapply chain_bind; [by apply gives_moves, blooms_gives|]. apply chain_ret. }
  intros c Hc HF. destruct (memo_warm E (chunkId level (n / 16)) c Hc HB) as (c1&R1&S1&F1&W1).
  assert (is_bloom (cleared E level n)) as Hv. { unfold cleared. destruct (level =? 0); [apply zero_bloom|by apply chunk_or_bloom]. }
  destruct (upd_bloom_shows c1 E level n (λ _, cleared E level n) S1 HB Hv W1) as [S2 F2].
  eexists. split; [by rewrite (bind_ok _ _ _ _ _ R1)|]. split; [exact S2|]. by rewrite F2, F1.
Qed.
Lemma clear_level_moves F level b k : ∀ E, BloomsWf E → (∀ n, b <= n < b + Z.of_nat k → in_level level n) →
  ∃ E', moves F E (forM (seqZ b (Z.of_nat k)) (λ item,
    let bunch := item / c_bloomIndexSize in
    let offset := item mod c_bloomIndexSize in
    let id := chunkId level bunch in
    acc ← (if level =? 0 then mret 0 else b ← blocksBlooms (chunkId (level - 1) item); mret (foldl Z.lor 0 (bb_blooms b)));
    _ ← blocksBlooms id;
    modS (upd_bloom id offset (λ _, acc)))) tt E' ∧ BloomsWf E' ∧
  agree_off (λ l m, l = level ∧ b <= m < b + Z.of_nat k) E E' ∧
  ∀ l m, in_level l m → bloom E' l m = if decide (l = level ∧ b <= m < b + Z.of_nat k) then cleared E level m else bloom E l m.
Proof.
  revert b. induction k as [|k IH]; intros b E HB Hr.
  { exists E. split; [apply chain_ret|]. split; [done|]. split; [done|]. intros l m Hm. rewrite decide_False by lia. done. }
  assert (in_level level b) as Hb by (apply Hr; lia).
  set (E1 := set_bloom level b (cleared E level b) E).
  assert (is_bloom (cleared E level b)) as Hv. { unfold cleared. destruct (level =? 0); [apply zero_bloom|by apply chunk_or_bloom]. }
  assert (BloomsWf E1) as HB1 by (by apply set_blooms_wf).
  destruct (IH (b + 1) E1 HB1) as (E'&Hm&HB'&Ha&Hv'); [intros n Hn; apply Hr; lia|].
  exists E'. split.
  { rewrite seqZ_cons by lia. cbn [forM]. replace (Z.pred (Z.of_nat (S k))) with (Z.of_nat k) by lia. replace (Z.succ b) with (b + 1) by lia.
    eapply chain_bind; [apply (clear_item F E level b HB Hb)|exact Hm]. unfold in_level in Hb. lia. }
  split; [done|]. split.
  { intros key Hk. rewrite Ha by (intros l m [-> ?]; apply Hk; lia). apply set_agree. intros l m [-> ->]. apply Hk. lia. }
  intros l m Hlm. rewrite Hv' by done. unfold E1 at 2. rewrite set_bloom_bloom by done.
  assert (level ≠ 0 → chunk_or E1 m = chunk_or E m ∨ ¬ 0 <= m < 2 ^ 28) as Hchunk.
  { intros Hl. destruct (decide (0 <= m < 2 ^ 28)); [left|by right]. eapply chunk_or_agree; [|done..].
    eapply agree_mono; [|apply set_agree]. cbn. intros ?? [-> ->]. unfold in_level in Hb. lia. }
  destruct (decide (l = level ∧ b + 1 <= m < b + 1 + Z.of_nat k)) as [H1|H1].
  - rewrite decide_True by lia. unfold cleared. destruct (Z.eqb_spec level 0); [done|]. destruct Hchunk as [|[]]; [done..|].
    destruct H1 as [-> ?]. unfold in_level in Hlm. lia.
  - destruct (decide (l = level ∧ m = b)) as [[-> ->]|H2]; [rewrite decide_True by lia; done|]. rewrite decide_False by lia. done.
Qed.

(** ** The two levels *)

(** The upper level holds, for each chunk of the lower one, its filters together. *)
Definition levels_agree (E : Extras) : Prop := ∀ i, 0 <= i < 2 ^ 28 → bloom E 1 i = chunk_or E i.

Lemma blooms_list E i : BloomsWf E → 0 <= i → bb_blooms (blooms_of E (chunkId 0 i)) = (λ o, bloom E 0 (16 * i + o)) <$> seqZ 0 16.
Proof.
  intros HB Hi. destruct (blooms_of_wf E (chunkId 0 i) HB) as [_ [Hl _]]. apply list_eq_same_length with 16%nat; [by rewrite length_fmap, length_seqZ|done|].
  intros o x y Ho Hx Hy. rewrite list_lookup_fmap, lookup_seqZ_lt in Hy by lia. injection Hy as <-.
  unfold bloom, bloom_at. replace ((16 * i + (0 + Z.of_nat o)) / 16) with i by (apply Z.div_unique with (Z.of_nat o); lia).
  replace ((16 * i + (0 + Z.of_nat o)) mod 16) with (Z.of_nat o) by (apply Z.mod_unique with i; lia).
  by rewrite Nat2Z.id, nth_lookup, Hx.
Qed.
Lemma chunk_or_ext E E' i : BloomsWf E → BloomsWf E' → 0 <= i →
  (∀ o, 0 <= o < 16 → bloom E' 0 (16 * i + o) = bloom E 0 (16 * i + o)) → chunk_or E' i = chunk_or E i.
Proof.
  intros HB HB' Hi He. unfold chunk_or. rewrite !blooms_list by done. f_equal. apply list_fmap_ext. intros j o Ho%lookup_seqZ. apply He. lia.
Qed.
Lemma foldl_lor l : ∀ a b, foldl Z.lor (Z.lor a b) l = Z.lor a (foldl Z.lor b l).
Proof. induction l as [|x l IH]; intros a b; [done|]. cbn. by rewrite <-Z.lor_assoc, IH. Qed.
Lemma foldl_insert_lor (l : list Z) i x b : l !! i = Some x → ∀ a, foldl Z.lor a (<[i := Z.lor b x]> l) = Z.lor b (foldl Z.lor a l).
Proof.
  revert i. induction l as [|y l IH]; intros [|i] Hi a; simplify_eq/=.
  - by rewrite <-foldl_lor, (Z.lor_assoc a b x), (Z.lor_comm a b), <-Z.lor_assoc.
  - by apply IH.
Qed.
Lemma chunk_or_set E n B i : BloomsWf E → is_bloom B → in_level 0 n → 0 <= i < 2 ^ 28 →
  chunk_or (set_bloom 0 n (Z.lor B (bloom E 0 n)) E) i = if decide (i = n / 16) then Z.lor B (chunk_or E i) else chunk_or E i.
Proof.
  intros HB HB' Hn Hi. destruct (in_level_chunk 0 n Hn) as [[_ Hc]|[]]; [|done].
  destruct (blooms_of_wf E (chunkId 0 (n / 16)) HB) as [_ [Hl Hf]]. pose proof (Z.mod_pos_bound n 16).
  destruct (lookup_lt_is_Some_2 (bb_blooms (blooms_of E (chunkId 0 (n / 16)))) (Z.to_nat (n mod 16))) as [y Hy]; [lia|].
  assert (bloom E 0 n = y) as Ey by (unfold bloom, bloom_at; by rewrite nth_lookup, Hy).
  assert (is_bloom y) as Hyb by (rewrite Forall_lookup in Hf; by eapply Hf).
  unfold chunk_or. rewrite set_blooms_of by (done || (rewrite Ey; by apply lor_bloom)). case_decide as Hd.
  - apply chunkId_inj in Hd as [_ ->]; [|left; lia..]. rewrite decide_True by done. cbn [bb_blooms]. rewrite Ey. by apply foldl_insert_lor.
  - rewrite decide_False; [done|]. by intros ->.
Qed.

(** [clearBlockBlooms] forgets a range of numbers. *)
Definition clear_range (b e l m : Z) : Prop := l = 0 ∧ b <= m < e ∨ l = 1 ∧ b / 16 <= m <= (e - 1) / 16.
Lemma clear_moves F E b e : BloomsWf E → 0 <= b <= e → 0 < e < 2 ^ 32 → levels_agree E →
  ∃ E', moves F E (clearBlockBlooms b e) tt E' ∧ BloomsWf E' ∧ agree_off (clear_range b e) E E' ∧ levels_agree E' ∧
  ∀ m, in_level 0 m → bloom E' 0 m = if decide (b <= m < e) then 0 else bloom E 0 m.
Proof.
  intros HB Hb He HL. pose proof (Z.div_pos b 16). pose proof (Z.div_le_mono b e 16). pose proof (Z.div_pos (e - 1) 16).
  pose proof (Z.div_lt_upper_bound (e - 1) 16 (2 ^ 28)). pose proof (Z.div_mod b 16). pose proof (Z.div_mod (e - 1) 16).
  pose proof (Z.mod_pos_bound b 16). pose proof (Z.mod_pos_bound (e - 1) 16).
  destruct (clear_level_moves F 0 b (Z.to_nat (e - b)) E HB) as (E1&M1&W1&A1&V1); [intros n Hn; left; lia|]. rewrite Z2Nat.id in * by lia.
  set (e1 := (e - 1) / 16 + 1) in *.
  destruct (clear_level_moves F 1 (b / 16) (Z.to_nat (e1 - b / 16)) E1 W1) as (E2&M2&W2&A2&V2); [intros n Hn; right; unfold e1 in *; lia|].
  rewrite Z2Nat.id in * by (unfold e1; lia). replace (b + (e - b)) with e in * by lia. replace (b / 16 + (e1 - b / 16)) with e1 in * by lia.
  exists E2. split; [|split; [done|split; [|split]]].
  - unfold clearBlockBlooms, c_bloomIndexLevels, clear_levels, clear_level. cbn [clear_levels]. change c_bloomIndexSize with 16 in *.
    rewrite (u32_small (e - 1)), (u32_small ((e - 1) / 16 + 1)), (u32_small (e - b)) by (fold e1; unfold e1; lia). fold e1.
    rewrite (u32_small (e1 - b / 16)) by (unfold e1; lia).
    eapply chain_bind; [exact M1|]. eapply chain_bind; [exact M2|]. apply chain_ret.
  - intros k Hk. rewrite A2, A1; [done|..]; intros l m [-> Hm]; apply Hk; [left|right]; unfold e1 in *; lia.
  - intros i Hi. rewrite V2 by (right; lia).
    assert (chunk_or E2 i = chunk_or E1 i) as Hc.
    { apply (chunk_or_ext E1); [done..|lia|]. intros o Ho. rewrite V2 by (left; lia). rewrite decide_False by lia. done. }
    destruct (decide (1 = 1 ∧ b / 16 <= i < e1)) as [Hr|Hr]; [by rewrite Hc|]. rewrite Hc.
    rewrite V1 by (right; lia). rewrite decide_False by lia. rewrite HL by done. symmetry. apply chunk_or_ext; [done..|lia|].
    intros o Ho. rewrite V1 by (left; lia). rewrite decide_False; [done|]. unfold e1 in *. lia.
  - intros m Hm. rewrite V2 by done. rewrite decide_False by lia. rewrite V1 by done.
    destruct (decide (b <= m < e)); [by rewrite decide_True by lia|by rewrite decide_False by lia].
Qed.

(** ** A block enters the index *)
Lemma blooms_keep h h' c : is_Some (c_blocksBlooms c !! h) → is_Some (c_blocksBlooms (blocksBlooms h' c).2 !! h).
Proof.
  intros Hh. unfold blocksBlooms, queryExtras. rewrite (bind_ok _ _ _ c c) by done. cbn [extra_cache blooms_extra].
  destruct (c_blocksBlooms c !! h'); [done|]. case_bool_decide; [done|]. rewrite (bind_ok _ _ _ tt (c <| c_store ::= noteUsed h' ExtraBlocksBlooms |>)) by done.
  cbn [extra_of_rlp blooms_extra]. destruct (blooms_of_rlp _) as [x|e| | |]; [|by destruct c..].
  change (is_Some (<[h' := x]> (c_blocksBlooms (c <| c_store ::= noteUsed h' ExtraBlocksBlooms |>)) !! h)). replace (c_blocksBlooms (c <| c_store ::= _ |>)) with (c_blocksBlooms c) by (by destruct c).
  destruct (decide (h = h')) as [->|Hn]; [rewrite lookup_insert_eq; by eexists|by rewrite lookup_insert_ne].
Qed.
Lemma upd_keep id o f h c : is_Some (c_blocksBlooms c !! h) → is_Some (c_blocksBlooms (upd_bloom id o f c) !! h).
Proof.
  intros Hh. destruct c as [s1 s2 s3 s4 s5 s6 m]. change (is_Some (<[id := mkBlooms (alter f (Z.to_nat o) (bb_blooms (default NullBlocksBlooms (m !! id))))]> m !! h)).
  cbn in Hh. destruct (decide (h = id)) as [->|Hn]; [rewrite lookup_insert_eq; by eexists|by rewrite lookup_insert_ne].
Qed.
Section Note.
Context `{CR : Crypto} (tbi : BlockHeader).
(** The keys of the chunks a block of the number [n] is in. *)
Definition chunks (n : Z) : list ExtraKey := [(chunkId 0 (n / 16), ExtraBlocksBlooms); (chunkId 1 (n / 16 / 16), ExtraBlocksBlooms)].
Lemma note_blooms_moves F E : BloomsWf E → levels_agree E → 0 <= h_number tbi < 2 ^ 32 → is_bloom (header_bloom tbi) →
  let n := h_number tbi in
  ∃ E', moves F E (note_blooms tbi) [chunkId 0 (n / 16); chunkId 1 (n / 16 / 16)] E' ∧ BloomsWf E' ∧ levels_agree E' ∧ (∀ k, k ∉ chunks n → E' !! k = E !! k) ∧
  (∀ k, k ∈ chunks n → E' !! k = Some (blooms_rlp (blooms_of E' k.1))) ∧
  ∀ m, in_level 0 m → bloom E' 0 m = if decide (m = n) then Z.lor (header_bloom tbi) (bloom E 0 n) else bloom E 0 m.
Proof.
  intros HB HL Hn Hv n. set (B := header_bloom tbi) in *. fold n in Hn.
  assert (in_level 0 n) as I0 by (left; lia). assert (0 <= n / 16 < 2 ^ 28) as Hd by (split; [apply Z.div_pos|apply Z.div_lt_upper_bound]; lia).
  assert (in_level 1 (n / 16)) as I1 by (right; lia).
  assert (∀ l m, in_level l m → is_bloom (bloom E l m)) as Hbl.
  { intros l m Hm. unfold bloom, bloom_at. destruct (blooms_of_wf E (chunkId l (m / 16)) HB) as [_ [Hl Hf]]. pose proof (Z.mod_pos_bound m 16).
    destruct (lookup_lt_is_Some_2 (bb_blooms (blooms_of E (chunkId l (m / 16)))) (Z.to_nat (m mod 16))) as [y Hy]; [lia|].
    rewrite nth_lookup, Hy. rewrite Forall_lookup in Hf. by eapply Hf. }
  set (E1 := set_bloom 0 n (Z.lor B (bloom E 0 n)) E). set (E2 := set_bloom 1 (n / 16) (Z.lor B (bloom E1 1 (n / 16))) E1).
  assert (is_bloom (Z.lor B (bloom E 0 n))) as V0 by (apply lor_bloom; [done|by apply Hbl]).
  assert (BloomsWf E1) as W1 by (by apply set_blooms_wf).
  assert (bloom E1 1 (n / 16) = bloom E 1 (n / 16)) as Eb by (unfold E1; rewrite set_bloom_bloom by done; by rewrite decide_False by lia).
  assert (is_bloom (Z.lor B (bloom E1 1 (n / 16)))) as V1 by (rewrite Eb; apply lor_bloom; [done|by apply Hbl]).
  assert (BloomsWf E2) as W2 by (by apply set_blooms_wf).
  assert (chunkId 0 (n / 16) ≠ chunkId 1 (n / 16 / 16)) as Hid.
  { intros Hx. apply chunkId_inj in Hx as [? _]; [done|left; lia|right]. split; [done|]. split; [apply Z.div_pos; lia|apply Z.div_lt_upper_bound; lia]. }
  exists E2. split; [|split; [done|split; [|split; [|split]]]].
  - intros c Hc HF. unfold note_blooms, note_levels. rewrite (u32_small (h_number tbi)) by (unfold n in Hn; lia). fold n. change c_bloomIndexSize with 16.
    destruct (memo_warm E (chunkId 0 (n / 16)) c Hc HB) as (c1&R1&S1&F1&Wa). destruct (memo_warm E (chunkId 1 (n / 16 / 16)) c1 S1 HB) as (c2&R2&S2&F2&Wb).
    assert (warm c2 E (chunkId 0 (n / 16))) as Wa'. { intros Hp. pose proof (blooms_keep _ (chunkId 1 (n / 16 / 16)) c1 (Wa Hp)) as Hk. by rewrite R2 in Hk. }
    destruct (upd_bloom_shows c2 E 0 n (Z.lor B) S2 HB V0 Wa') as [S3 F3]. set (c3 := upd_bloom _ _ _ c2) in *.
    assert (warm c3 E1 (chunkId 1 (n / 16 / 16))) as Wb'.
    { intros Hp. apply upd_keep, Wb. revert Hp. unfold present, E1, set_bloom. rewrite lookup_insert_ne; [done|]. by intros [= Hx]. }
    destruct (upd_bloom_shows c3 E1 1 (n / 16) (Z.lor B) S3 W1 V1 Wb') as [S4 F4].
    eexists. split.
    { cbn [forM fst snd]. erewrite bind_ok; [|erewrite bind_ok; [|erewrite bind_ok; [reflexivity|exact R1]]; erewrite bind_ok; [|erewrite bind_ok; [reflexivity|exact R2]]; reflexivity].
      erewrite bind_ok; [|erewrite bind_ok; [|reflexivity]; erewrite bind_ok; [|reflexivity]; reflexivity]. reflexivity. }
    split; [exact S4|]. etrans; [exact F4|]. by rewrite F3, F2, F1.
  - intros i Hi. unfold E2 at 1. rewrite set_bloom_bloom by (done || (right; lia)).
    assert (chunk_or E2 i = chunk_or E1 i) as ->.
    { apply chunk_or_ext; [done..|lia|]. intros o Ho. unfold E2. rewrite set_bloom_bloom by (done || (left; lia)). by rewrite decide_False by lia. }
    unfold E1 at 3. rewrite chunk_or_set by done. destruct (decide (i = n / 16)) as [->|Hne].
    + rewrite decide_True by done. rewrite Eb. by rewrite HL.
    + rewrite decide_False by lia. unfold E1. rewrite set_bloom_bloom by (done || (right; lia)). rewrite decide_False by lia. by apply HL.
  - intros k Hk. unfold chunks in Hk. rewrite !not_elem_of_cons in Hk. unfold E2. etrans; [apply (set_agree 1 (n / 16))|apply (set_agree 0 n)]; intros l m [-> ->]; apply Hk.
  - intros k Hk. unfold chunks in Hk. rewrite !elem_of_cons in Hk. destruct Hk as [->|[->|Hk%not_elem_of_nil]]; [| |done]; cbn [fst].
    + unfold E2. rewrite set_blooms_of, decide_False by done. rewrite (set_agree 1 (n / 16) _ E1).
      * by apply set_bloom_bytes.
      * intros l m [-> ->] [= Hx]. by apply Hid.
    + unfold E2. by apply (set_bloom_bytes E1 1 (n / 16)).
  - intros m Hm. unfold E2. rewrite set_bloom_bloom by done. rewrite decide_False by lia. unfold E1. rewrite set_bloom_bloom by done.
    destruct (decide (m = n)) as [->|]; [by rewrite decide_True|by rewrite decide_False by (intros []; done)].
Qed.
End Note.

(** ** Searching *)
Lemma elem_concat {A} (x : A) ls : x ∈ concat ls ↔ ∃ l, x ∈ l ∧ l ∈ ls.
Proof.
  induction ls as [|l ls IH]; cbn.
  - split; [by intros ?%not_elem_of_nil|]. intros (l&_&?%not_elem_of_nil). done.
  - rewrite elem_of_app, IH. split.
    + intros [H|(k&H1&H2)]; [exists l; split; [done|left]|exists k; split; [done|by right]].
    + intros (k&H1&[->|H2]%elem_of_cons); [by left|right; eauto].
Qed.
Lemma gives_foldM {A B} F E (f : list B → A → BC (list B)) (s : A → list B) (xs : list A) :
  (∀ acc x, x ∈ xs → gives F E (f acc x) (Ok (acc ++ s x))) → ∀ acc, gives F E (foldM f acc xs) (Ok (acc ++ concat (s <$> xs))).
Proof.
  induction xs as [|x xs IH]; intros Hf acc; cbn [foldM fmap list_fmap concat]; [rewrite app_nil_r; apply gives_ret|].
  eapply gives_bind; [apply Hf; left|]. rewrite (assoc_L (++)). apply IH. intros a y Hy. apply Hf. by right.
Qed.
Lemma contains_lor a b c : bloom_contains b c = true → bloom_contains (Z.lor a b) c = true.
Proof.
  unfold bloom_contains. rewrite !Z.eqb_eq. intros H. apply Z.bits_inj'. intros i Hi. rewrite Z.land_spec, Z.lor_spec.
  assert (Z.testbit (Z.land b c) i = Z.testbit c i) as Hb by (by rewrite H). rewrite Z.land_spec in Hb.
  destruct (Z.testbit a i), (Z.testbit b i), (Z.testbit c i); done.
Qed.
Lemma contains_chunk E i o b : BloomsWf E → 0 <= i → 0 <= o < 16 → bloom_contains (bloom E 0 (16 * i + o)) b = true → bloom_contains (chunk_or E i) b = true.
Proof.
  intros HB Hi Ho Hb. unfold chunk_or. rewrite blooms_list by done.
  assert (bloom E 0 (16 * i + o) ∈ (λ o, bloom E 0 (16 * i + o)) <$> seqZ 0 16) as Hin.
  { apply list_elem_of_fmap. exists o. split; [done|]. apply elem_of_seqZ. lia. }
  revert Hin. generalize ((λ o, bloom E 0 (16 * i + o)) <$> seqZ 0 16) as l. generalize 0 at 2 as a. intros a l. revert a.
  induction l as [|x l IH]; intros a Hin; [by apply not_elem_of_nil in Hin|]. apply elem_of_cons in Hin as [<-|Hin]; [|cbn; by apply IH].
  cbn. clear IH. assert (bloom_contains (Z.lor a (bloom E 0 (16 * i + o))) b = true) as H by (by apply contains_lor). revert H.
  generalize (Z.lor a (bloom E 0 (16 * i + o))) as y. clear. induction l as [|x l IH]; intros y Hy; [done|]. cbn. apply IH.
  rewrite Z.lor_comm. by apply contains_lor.
Qed.

Definition hit (E : Extras) (b : LogBloom) (n : Z) : bool := bloom_contains (bloom E 0 n) b.
Section Search.
Context {F : Frame} {E : Extras} (HB : BloomsWf E) (HL : levels_agree E) (b e l : Z) (He : 0 <= e <= l) (Hl : l + 512 < 2 ^ 32).
(** The numbers the search visits below an entry of each level. *)
Definition visits0 (i n : Z) : Prop := n / 16 = i ∧ (i = e / 16 → e <= n) ∧ (i = l / 16 → n <= l).
Definition visits1 (i n : Z) : Prop := n / 256 = i ∧ (i = e / 256 → e / 16 <= n / 16) ∧ (i = l / 256 → n / 16 <= l / 16) ∧ visits0 (n / 16) n.

Lemma search_entry (i o : Z) : 0 <= i → 0 <= o < 16 → bloom_at o (blooms_of E (chunkId 0 i)) = bloom E 0 (16 * i + o).
Proof using.
  intros Hi Ho. unfold bloom. replace ((16 * i + o) / 16) with i by (apply Z.div_unique with o; lia).
  by replace ((16 * i + o) mod 16) with o by (apply Z.mod_unique with i; lia).
Qed.
Definition found0 (i : Z) : list Z :=
  let ob := if i =? e / 16 then e mod 16 else 0 in
  let oe := if i =? l / 16 then l mod 16 + 1 else 16 in
  concat ((λ o, if hit E b (16 * i + o) then [16 * i + o] else []) <$> seqZ ob (oe - ob)).
Definition found1 (i : Z) : list Z :=
  let ob := if i =? e / 256 then (e / 16) mod 16 else 0 in
  let oe := if i =? l / 256 then (l / 16) mod 16 + 1 else 16 in
  concat ((λ o, if bloom_contains (bloom E 1 (16 * i + o)) b then found0 (16 * i + o) else []) <$> seqZ ob (oe - ob)).
Definition found : list Z := concat (found1 <$> seqZ (e / 256) ((l + 255) / 256 + 1 - e / 256)).

Lemma search0 i : 0 <= i → 16 * i + 16 <= 2 ^ 32 → gives F E (bloom_search b e l 0 i) (Ok (found0 i)).
Proof using HB He.
  intros Hi Hr. cbn [bloom_search]. change (upow c_bloomIndexSize (0 + 1)) with 16. change (upow c_bloomIndexSize 0) with 1. change c_bloomIndexSize with 16.
  rewrite !Z.div_1_r. pose proof (Z.mod_pos_bound e 16). pose proof (Z.mod_pos_bound l 16).
  eapply gives_bind; [by apply blooms_gives|]. change (Z.of_nat 0) with 0. unfold found0.
  apply (gives_foldM F E _ (λ o, if hit E b (16 * i + o) then [16 * i + o] else [])). intros acc o Ho%elem_of_seqZ.
  assert (0 <= o < 16) as Ho' by (destruct (i =? e / 16), (i =? l / 16); lia).
  rewrite search_entry by lia. unfold hit. rewrite u32_small by lia. replace (o + i * 16) with (16 * i + o) by lia.
  destruct (bloom_contains _ _); [apply gives_ret|rewrite app_nil_r; apply gives_ret].
Qed.
Lemma found0_elem i n : 0 <= i → n ∈ found0 i ↔ visits0 i n ∧ hit E b n = true.
Proof using He.
  intros Hi. unfold found0. set (ob := if i =? e / 16 then e mod 16 else 0). set (oe := if i =? l / 16 then l mod 16 + 1 else 16).
  pose proof (Z.mod_pos_bound e 16). pose proof (Z.mod_pos_bound l 16). pose proof (Z.div_mod e 16). pose proof (Z.div_mod l 16).
  assert (0 <= ob < 16 ∧ 1 <= oe <= 16) as [Hob Hoe] by (unfold ob, oe; destruct (i =? e / 16), (i =? l / 16); lia).
  rewrite elem_concat. unfold visits0. split.
  - intros (x&Hx&(o&->&Ho)%list_elem_of_fmap). apply elem_of_seqZ in Ho. destruct (hit E b (16 * i + o)) eqn:Eh; [|by apply not_elem_of_nil in Hx].
    apply list_elem_of_singleton in Hx as ->. split; [|done]. replace ((16 * i + o) / 16) with i by (apply Z.div_unique with o; lia). split; [done|].
    unfold ob, oe in Ho. destruct (Z.eqb_spec i (e / 16)), (Z.eqb_spec i (l / 16)); lia.
  - intros [(<-&Q1&Q2) Hh]. pose proof (Z.div_mod n 16). pose proof (Z.mod_pos_bound n 16). exists [n]. split; [by apply list_elem_of_singleton|].
    apply list_elem_of_fmap. exists (n mod 16). replace (16 * (n / 16) + n mod 16) with n by lia. rewrite Hh. split; [done|]. apply elem_of_seqZ.
    unfold ob, oe. destruct (Z.eqb_spec (n / 16) (e / 16)), (Z.eqb_spec (n / 16) (l / 16)); lia.
Qed.
Lemma div_256 x : x / 256 = x / 16 / 16.
Proof using. by rewrite Z.div_div. Qed.
Lemma search1 i : 0 <= i → 256 * i + 256 <= 2 ^ 32 → gives F E (bloom_search b e l 1 i) (Ok (found1 i)).
Proof using HB He.
  intros Hi Hr. cbn [bloom_search]. change (upow c_bloomIndexSize (1 + 1)) with 256. change (upow c_bloomIndexSize 1) with 16. change c_bloomIndexSize with 16.
  pose proof (Z.mod_pos_bound (e / 16) 16). pose proof (Z.mod_pos_bound (l / 16) 16).
  eapply gives_bind; [by apply blooms_gives|]. change (Z.of_nat 1) with 1. unfold found1.
  apply (gives_foldM F E _ (λ o, if bloom_contains (bloom E 1 (16 * i + o)) b then found0 (16 * i + o) else [])). intros acc o Ho%elem_of_seqZ.
  assert (0 <= o < 16) as Ho' by (destruct (i =? e / 256), (i =? l / 256); lia).
  assert (bloom_at o (blooms_of E (chunkId 1 i)) = bloom E 1 (16 * i + o)) as ->.
  { unfold bloom. replace ((16 * i + o) / 16) with i by (apply Z.div_unique with o; lia). by replace ((16 * i + o) mod 16) with o by (apply Z.mod_unique with i; lia). }
  rewrite u32_small by lia. replace (o + i * 16) with (16 * i + o) by lia.
  destruct (bloom_contains _ _); [|rewrite app_nil_r; apply gives_ret]. eapply gives_bind; [apply search0; lia|]. apply gives_ret.
Qed.
Lemma found1_elem i n : 0 <= i → 256 * i + 256 <= 2 ^ 32 → n ∈ found1 i ↔ visits1 i n ∧ hit E b n = true.
Proof using HB HL He.
  intros Hi Hr. unfold found1. set (ob := if i =? e / 256 then (e / 16) mod 16 else 0). set (oe := if i =? l / 256 then (l / 16) mod 16 + 1 else 16).
  pose proof (Z.mod_pos_bound (e / 16) 16). pose proof (Z.mod_pos_bound (l / 16) 16). pose proof (Z.div_mod (e / 16) 16). pose proof (Z.div_mod (l / 16) 16).
  assert (0 <= ob < 16 ∧ 1 <= oe <= 16) as [Hob Hoe] by (unfold ob, oe; destruct (i =? e / 256), (i =? l / 256); lia).
  rewrite elem_concat. unfold visits1. rewrite div_256. split.
  - intros (x&Hx&(o&->&Ho)%list_elem_of_fmap). apply elem_of_seqZ in Ho. destruct (bloom_contains _ _); [|by apply not_elem_of_nil in Hx].
    apply found0_elem in Hx as [Hv Hh]; [|lia]. split; [|done]. destruct Hv as (Hd&Hv). rewrite Hd.
    replace ((16 * i + o) / 16) with i by (apply Z.div_unique with o; lia). split; [done|]. rewrite !div_256. unfold ob, oe in Ho. rewrite !div_256 in Ho.
    unfold visits0. destruct (Z.eqb_spec i (e / 16 / 16)), (Z.eqb_spec i (l / 16 / 16)); lia.
  - intros [(<-&Q1&Q2&Q3) Hh]. set (i := n / 16 / 16) in *. pose proof (Z.div_mod (n / 16) 16). pose proof (Z.mod_pos_bound (n / 16) 16). pose proof (Z.div_mod n 16). pose proof (Z.mod_pos_bound n 16).
    assert (16 * i + (n / 16) mod 16 = n / 16) as Ei by (unfold i; lia).
    exists (found0 (n / 16)). split; [apply found0_elem; [lia|done]|]. apply list_elem_of_fmap. exists ((n / 16) mod 16). rewrite Ei.
    rewrite HL by lia. rewrite (contains_chunk E (n / 16) (n mod 16) b HB) by (lia || (replace (16 * (n / 16) + n mod 16) with n by lia; exact Hh)).
    split; [done|]. apply elem_of_seqZ. unfold ob, oe. rewrite !div_256. rewrite !div_256 in Q1, Q2. destruct (Z.eqb_spec i (e / 16 / 16)), (Z.eqb_spec i (l / 16 / 16)); unfold i in *; lia.
Qed.
(** What the search returns: the hits between the two numbers, and those of the chunk of 256
    behind the one [l] is in, unless [l] begins a chunk. *)
Lemma search_gives : gives F E (withBlockBloom b e l) (Ok found) ∧
  ∀ n, n ∈ found ↔ hit E b n = true ∧ (e <= n <= l ∨ (l mod 256 ≠ 0 ∧ n / 256 = l / 256 + 1)).
Proof using HB HL He Hl.
  pose proof (Z.div_mod l 256). pose proof (Z.mod_pos_bound l 256). pose proof (Z.div_mod e 256). pose proof (Z.mod_pos_bound e 256).
  pose proof (Z.div_mod (l + 255) 256). pose proof (Z.mod_pos_bound (l + 255) 256). split.
  - unfold withBlockBloom. change (upow c_bloomIndexSize c_bloomIndexLevels) with 256. change (c_bloomIndexLevels - 1)%nat with 1%nat.
    unfold ceilDiv. replace (l + 256 - 1) with (l + 255) by lia. rewrite (u32_small (l + 255)), u32_small by lia. unfold found.
    apply (gives_foldM F E _ found1). intros acc i Hi%elem_of_seqZ. eapply gives_bind; [apply search1; lia|]. apply gives_ret.
  - intros n. unfold found. rewrite elem_concat. pose proof (Z.div_mod n 256). pose proof (Z.mod_pos_bound n 256). pose proof (Z.div_mod n 16). pose proof (Z.mod_pos_bound n 16).
    pose proof (Z.div_mod l 16). pose proof (Z.mod_pos_bound l 16). pose proof (Z.div_mod e 16). pose proof (Z.mod_pos_bound e 16). split.
    + intros (x&Hx&(i&->&Hi)%list_elem_of_fmap). apply elem_of_seqZ in Hi. apply found1_elem in Hx as [(Q1&Q2&Q3&Q4) Hh]; [|lia..]. split; [done|].
      unfold visits0 in Q4. lia.
    + intros [Hh Hn]. exists (found1 (n / 256)). split.
      * apply found1_elem; [lia..|]. split; [|done]. unfold visits1, visits0. lia.
      * apply list_elem_of_fmap. exists (n / 256). split; [done|]. apply elem_of_seqZ. lia.
Qed.
End Search.
