(* ===== verification/ChainInsert.v ===== *)
(** * Inserting a block

    The invariant of the chain, and that inserting a block keeps it, whether the block extends
    the head, switches to another branch or is only stored. *)
From stdpp Require Import base gmap list list_numbers.
From Stdlib Require Import ZArith Lia.
From S2P Require Import Prelude Rlp Interfaces Receipts BlockHeader BlockVerify BlockChain ChainCodec ChainMemo ChainTree ChainBlooms.
Open Scope Z_scope.

(** ** Batches *)
Lemma write_all_app a b X : write_all (a ++ b) X = write_all b (write_all a X).
Proof. apply foldl_app. Qed.
Lemma write_all_ne es X k : k ∉ es.*1 → write_all es X !! k = X !! k.
Proof.
  revert X. induction es as [|[k' v] es IH]; intros X Hk; [done|]. cbn in Hk. apply not_elem_of_cons in Hk as [Hne Hk].
  change (write_all ((k', v) :: es) X) with (write_all es (<[k' := v]> X)). rewrite IH by done. by apply lookup_insert_ne.
Qed.
Lemma write_all_kind es X (h k : Z) : Forall (λ e, e.1.2 ≠ k) es → write_all es X !! (h, k) = X !! (h, k).
Proof.
  intros Hf. apply write_all_ne. intros (e&He&Hin)%list_elem_of_fmap. rewrite Forall_forall in Hf. apply (Hf e Hin). by rewrite <-He.
Qed.

Section Inserting.
Context `{CR : Crypto} (bp : BlockChainParams).

Lemma tx_entries_kind h b es : tx_entries h b = Ok es → Forall (λ e, e.1.2 = ExtraTransactionAddress) es.
Proof.
  unfold tx_entries. destruct (RLP b) as [r|?| | |]; [|done..]. cbn [mbind outcome_bind]. destruct (item r 1) as [txs|?| | |]; [|done..]. cbn [mbind outcome_bind].
  destruct (itemCount txs) as [n|?| | |]; [|done..]. cbn [mbind outcome_bind]. generalize (seq 0 (Z.to_nat n)) as l. intros l. revert es.
  induction l as [|i l IH]; intros es; cbn [mapO]; [by intros [= <-]|]. destruct (item txs i) as [x|?| | |]; [|done..]. cbn [mbind outcome_bind].
  destruct (mapO _ l) as [ys|?| | |]; [|done..]. cbn [mbind outcome_bind]. intros [= <-]. constructor; [done|]. by apply IH.
Qed.

(** ** What leaves the numbers in the cache alone *)
Definition keeps {A : Type} (m : BC A) : Prop := ∀ c, c_blockHashes (m c).2 = c_blockHashes c.
Lemma keeps_bind {A B} (m : BC A) (k : A → BC B) : keeps m → (∀ x, keeps (k x)) → keeps (m ≫= k).
Proof.
  intros Hm Hk c. specialize (Hm c). unfold mbind, ST_bind. destruct (m c) as [[x|e| | |] c1]; cbn [snd] in *; try done. by rewrite Hk.
Qed.
Lemma keeps_same {A} (o : outcome A) : keeps (lift o).
Proof. by intros c. Qed.
Lemma keeps_mod f : (∀ c, c_blockHashes (f c) = c_blockHashes c) → keeps (modS f).
Proof. intros Hf c. apply Hf. Qed.
Lemma keeps_forM {A} (xs : list A) (f : A → BC unit) : (∀ x, keeps (f x)) → keeps (forM xs f).
Proof. intros Hf. induction xs as [|x xs IH]; [by intros c|]. cbn [forM]. by apply keeps_bind. Qed.
Lemma keeps_foldM {A B} (f : B → A → BC B) xs b : (∀ b x, keeps (f b x)) → keeps (foldM f b xs).
Proof. intros Hf. revert b. induction xs as [|x xs IH]; intros b; [by intros c|]. cbn [foldM]. by apply keeps_bind. Qed.
Lemma keeps_blooms h : keeps (blocksBlooms h).
Proof.
  unfold blocksBlooms, queryExtras. intros c. rewrite (bind_ok _ _ _ c c) by done. destruct (extra_cache c !! h); [done|]. case_bool_decide; [done|].
  cbn [extra_noted blooms_extra]. rewrite (bind_ok _ _ _ tt (c <| c_store ::= noteUsed h ExtraBlocksBlooms |>)) by done.
  destruct (extra_of_rlp _); by destruct c.
Qed.
Lemma keeps_upd_bloom i o f : keeps (modS (upd_bloom i o f)).
Proof. apply keeps_mod. by intros []. Qed.
Lemma keeps_block h : keeps (block bp h).
Proof.
  unfold block. intros c. rewrite (bind_ok _ _ _ c c) by done. case_bool_decide; [done|]. destruct (bs_blocks _ !! h); [done|]. case_bool_decide; [done|]. by destruct c.
Qed.
Hint Resolve keeps_same keeps_forM keeps_foldM keeps_blooms keeps_upd_bloom keeps_block : chain.
Ltac keeps := repeat first
  [ solve [auto with chain] | match goal with |- keeps (_ ≫= _) => apply keeps_bind; [|intros ?] end | by intros ?
  | match goal with |- keeps (if ?b then _ else _) => destruct b end
  | apply keeps_forM; intros ? | progress cbv beta zeta ].
Lemma keeps_note_block info_ _block X i : keeps (note_block bp info_ _block X i).
Proof. unfold note_block, note_blooms. keeps. Qed.
Lemma keeps_clear_level l b e : keeps (clear_level l b e).
Proof. unfold clear_level. keeps. Qed.
Lemma keeps_clear b e : keeps (clearBlockBlooms b e).
Proof.
  unfold clearBlockBlooms. generalize c_bloomIndexLevels as n, 0 as l. intros n. revert b e. induction n as [|n IH]; intros b e l; [by intros c|].
  cbn [clear_levels]. apply keeps_bind; [apply keeps_clear_level|]. intros _. apply IH.
Qed.

(** ** Blocks are noted *)
Lemma note_blooms_cached tbi c x c' : note_blooms tbi c = (Ok x, c') → Forall (λ k, is_Some (c_blocksBlooms c' !! k)) x.
Proof.
  unfold note_blooms, note_levels. set (n := u32 (h_number tbi)). cbn [forM fst snd fmap list_fmap]. intros R.
  apply bind_inv in R as ([]&c1&_&R). apply bind_inv in R as ([]&c2&R2&R). injection R as <- <-.
  apply bind_inv in R2 as ([]&c3&[= <-]&R2). apply bind_inv in R2 as ([]&c4&[= <-]&[= <-]).
  assert (∀ k o f c, is_Some (c_blocksBlooms (upd_bloom k o f c) !! k)) as Hin.
  { intros k o f c0. destruct c0 as [s1 s2 s3 s4 s5 s6 m]. change (is_Some (<[k := mkBlooms (alter f (Z.to_nat o) (bb_blooms (default NullBlocksBlooms (m !! k))))]> m !! k)).
    rewrite lookup_insert_eq. by eexists. }
  repeat (apply Forall_cons; split); [apply upd_keep, Hin|apply Hin|by apply Forall_nil].
Qed.

(** What [note_block] finds for a hash: the header and the bytes. *)
Record noted (info_ : BlockHeader) (_block : bytes) (F : Frame) (hd : BlockHeader) (b : bytes) : Prop := mkNoted {
  no_header : if decide (h_hash hd = h_hash info_) then hd = info_ ∧ b = _block else stored_block bp F (h_hash hd) = b ∧ header_of_block b = Ok hd;
  no_txs : ∃ es, tx_entries (h_hash hd) b = Ok es;
  no_number : 0 <= h_number hd < 2 ^ 32;
  no_bloom : is_bloom (header_bloom hd) }.
(** What noting blocks does to the entries that are shown, and to the batch. *)
Record effect (ts : list BlockHeader) (E X E' X' : Extras) : Prop := mkEffect {
  ef_wf : BloomsWf E';
  ef_levels : levels_agree E';
  ef_off : ∀ k, (∀ t, t ∈ ts → k ∉ chunks (h_number t)) → E' !! k = E !! k;
  ef_bloom_in : ∀ t, t ∈ ts → bloom E' 0 (h_number t) = Z.lor (header_bloom t) (bloom E 0 (h_number t));
  ef_bloom_out : ∀ m, in_level 0 m → m ∉ h_number <$> ts → bloom E' 0 m = bloom E 0 m;
  ef_batch_in : ∀ t k, t ∈ ts → k ∈ chunks (h_number t) → X' !! k = E' !! k ∧ is_Some (E' !! k);
  ef_batch_out : ∀ k, (∀ t, t ∈ ts → k ∉ chunks (h_number t) ∧ k ≠ (h_number t, ExtraBlockHash)) → k.2 ≠ ExtraTransactionAddress → X' !! k = X !! k;
  ef_hash : ∀ t, t ∈ ts → X' !! (h_number t, ExtraBlockHash) = Some (blockHash_rlp (mkBlockHash (h_hash t))) }.

Section Note.
Context (info_ : BlockHeader) (_block : bytes) (F : Frame).
Lemma chunks_kind n k : k ∈ chunks n → k.2 = ExtraBlocksBlooms.
Proof. unfold chunks. rewrite !elem_of_cons. by intros [->|[->|?%not_elem_of_nil]]. Qed.
(** The block's header, twice its bytes. *)
Lemma note_header E hd b : noted info_ _block F hd b → 
  gives F E (if h_hash hd =? h_hash info_ then mret info_ else b0 ← block bp (h_hash hd); lift (header_of_block b0)) (Ok hd) ∧
  gives F E (if h_hash hd =? h_hash info_ then mret _block else block bp (h_hash hd)) (Ok b).
Proof.
  intros [Hhd _ _ _]. destruct (decide _) as [He|Hne].
  - rewrite He, Z.eqb_refl. destruct Hhd as [-> ->]. split; apply gives_ret.
  - destruct (Z.eqb_spec (h_hash hd) (h_hash info_)); [done|]. destruct Hhd as [<- Hhd]. split; [|apply block_gives].
    eapply gives_bind; [apply block_gives|]. rewrite Hhd. apply gives_lift.
Qed.
Lemma block_blooms (i : h256) c : c_blocksBlooms ((if i =? h_hash info_ then mret _block else block bp i) c).2 = c_blocksBlooms c.
Proof.
  destruct (i =? h_hash info_); [done|]. unfold block. rewrite (bind_ok _ _ _ c c) by done.
  case_bool_decide; [done|]. destruct (bs_blocks _ !! i); [done|]. case_bool_decide; [done|]. by destruct c.
Qed.
Lemma note_block_moves E X hd b : noted info_ _block F hd b → BloomsWf E → levels_agree E →
  ∃ E' X', moves F E (note_block bp info_ _block X (h_hash hd)) X' E' ∧ effect [hd] E X E' X'.
Proof.
  intros Hno HB HL. destruct (note_blooms_moves hd F E HB HL (no_number _ _ _ _ _ Hno) (no_bloom _ _ _ _ _ Hno)) as (E'&M&W&L&A&B&V).
  destruct (no_txs _ _ _ _ _ Hno) as [es Hes]. pose proof (no_number _ _ _ _ _ Hno) as Hn. set (n := h_number hd) in *.
  set (bl := (λ h, ((h, ExtraBlocksBlooms), blooms_rlp (blooms_of E' h))) <$> [chunkId 0 (n / 16); chunkId 1 (n / 16 / 16)]).
  assert (bl.*1 = chunks n) as Hbl by done.
  assert (∀ k, k ∈ chunks n → write_all bl (write_all es X) !! k = E' !! k) as Hw.
  { intros k Hk. rewrite B by done. unfold chunks in Hk. rewrite !elem_of_cons in Hk. unfold bl. cbn [fmap list_fmap write_all foldl fst snd].
    destruct Hk as [->|[->|Hk%not_elem_of_nil]]; [| |done]; cbn [fst]; [|by rewrite lookup_insert_eq].
    destruct (decide (chunkId 0 (n / 16) = chunkId 1 (n / 16 / 16))) as [->|Hne]; [by rewrite lookup_insert_eq|].
    rewrite lookup_insert_ne by (intros [= ?]; congruence). by rewrite lookup_insert_eq. }
  exists E', (write_all (es ++ bl ++ [((n, ExtraBlockHash), blockHash_rlp (mkBlockHash (h_hash hd)))]) X). split.
  { intros c Hc HF. unfold note_block. destruct (note_header E hd b Hno) as [G1 _]. destruct (note_header E' hd b Hno) as [_ G2].
    destruct (G1 c Hc HF) as (c1&R1&S1&F1). rewrite (bind_ok _ _ _ _ _ R1). destruct (M c1 S1 F1) as (c2&R2&S2&F2). rewrite (bind_ok _ _ _ _ _ R2).
    destruct (G2 c2 S2 F2) as (c3&R3&S3&F3). pose proof (block_blooms (h_hash hd) c2) as B3. rewrite R3 in B3. cbn [snd] in B3. rewrite (bind_ok _ _ _ _ _ R3).
    rewrite Hes. rewrite (bind_ok _ _ _ es c3) by done. rewrite (bind_ok _ _ _ c3 c3) by done.
    exists c3. split; [|done]. unfold mret, ST_ret. fold n. do 5 f_equal. apply list_fmap_ext. intros j k Hk.
    pose proof (note_blooms_cached _ _ _ _ R2) as Hc'. rewrite Forall_lookup in Hc'. destruct (Hc' j k Hk) as [x Hx]. rewrite B3, Hx. cbn [default from_option id].
    pose proof (sh_blooms _ _ S2 k) as Hsx. cbn [extra_cache blooms_extra] in Hsx. rewrite Hx in Hsx. destruct Hsx as [_ Hsx].
    destruct (blooms_of_wf E' k W) as [Hst _]. rewrite Hst in Hsx. by injection Hsx as ->. }
  rewrite !write_all_app. cbn [write_all foldl fst snd].
  assert (∀ t, t ∈ [hd] → t = hd) as H1 by (intros t; apply list_elem_of_singleton).
  constructor; try done.
  - intros k Hk. apply A, Hk. by left.
  - intros t ->%H1. fold n. by rewrite V, decide_True by (done || (left; lia)).
  - intros m Hm Hk. rewrite V by done. rewrite decide_False; [done|]. intros ->. apply Hk. by left.
  - intros t k ->%H1 Hk. fold n in Hk. split; [|rewrite B by done; by eexists].
    rewrite lookup_insert_ne by (intros <-; by apply chunks_kind in Hk). by apply Hw.
  - intros k Hk Hta. destruct (Hk hd) as [Hk1 Hk2]; [left|]. rewrite lookup_insert_ne by done. rewrite write_all_ne by (by rewrite Hbl).
    destruct k as [kh kk]. apply write_all_kind. eapply Forall_impl; [by eapply tx_entries_kind|]. cbn. intros e He Hx. apply Hta. cbn. by rewrite <-Hx.
  - intros t ->%H1. apply lookup_insert_eq.
Qed.

Lemma effect_nil E X : BloomsWf E → levels_agree E → effect [] E X E X.
Proof. intros HB HL. constructor; try done; intros t; intros; by edestruct (not_elem_of_nil t). Qed.
Lemma effect_cons t ts E X E1 X1 E2 X2 : effect [t] E X E1 X1 → effect ts E1 X1 E2 X2 →
  NoDup (h_number <$> t :: ts) → Forall (λ t, 0 <= h_number t < 2 ^ 32) (t :: ts) → effect (t :: ts) E X E2 X2.
Proof.
  intros H1 H2 [Hn _]%NoDup_cons Hr. assert (t ∈ [t]) as Hin by left. assert (∀ x, x ∈ [t] → x = t) as H1' by (intros x; apply list_elem_of_singleton).
  rewrite Forall_forall in Hr.
  assert (∀ k, k ∈ concat (chunks <$> (h_number <$> ts)) ∨ (∀ x, x ∈ ts → k ∉ chunks (h_number x))) as Hdec.
  { intros k. destruct (decide (k ∈ concat (chunks <$> (h_number <$> ts)))) as [|Hk]; [by left|right]. intros x Hx Hc. apply Hk.
    apply elem_concat. exists (chunks (h_number x)). split; [done|]. apply list_elem_of_fmap. eexists. split; [done|]. by apply list_elem_of_fmap_2. }
  constructor.
  - by apply H2.
  - by apply H2.
  - intros k Hk. etrans; [apply (ef_off _ _ _ _ _ H2)|apply (ef_off _ _ _ _ _ H1)].
    + intros x Hx. apply Hk. by right.
    + intros x ->%H1'. apply Hk. by left.
  - intros x [->|Hx]%elem_of_cons.
    + rewrite (ef_bloom_out _ _ _ _ _ H2) by (done || (left; split; [done|]; apply Hr; left)). by apply (ef_bloom_in _ _ _ _ _ H1).
    + rewrite (ef_bloom_in _ _ _ _ _ H2) by done. f_equal. apply (ef_bloom_out _ _ _ _ _ H1); [left; split; [done|]; apply Hr; by right|].
      cbn. rewrite list_elem_of_singleton. intros He. apply Hn. rewrite <-He. by apply list_elem_of_fmap_2.
  - intros m Hm. rewrite fmap_cons, not_elem_of_cons. intros [Hk1 Hk2]. rewrite (ef_bloom_out _ _ _ _ _ H2) by done.
    apply (ef_bloom_out _ _ _ _ _ H1); [done|]. cbn. by rewrite list_elem_of_singleton.
  - intros x k [->|Hx]%elem_of_cons Hk; [|by eapply (ef_batch_in _ _ _ _ _ H2)]. destruct (Hdec k) as [(l&Hl&(n&->&(y&->&Hy)%list_elem_of_fmap)%list_elem_of_fmap)%elem_concat|Ho].
    + by eapply (ef_batch_in _ _ _ _ _ H2).
    + rewrite (ef_off _ _ _ _ _ H2) by done. rewrite (ef_batch_out _ _ _ _ _ H2); [by apply (ef_batch_in _ _ _ _ _ H1 t)| |].
      * intros y Hy. split; [by apply Ho|]. intros ->. by apply chunks_kind in Hk.
      * rewrite (chunks_kind _ _ Hk). done.
  - intros k Hk Hta. etrans; [apply (ef_batch_out _ _ _ _ _ H2)|apply (ef_batch_out _ _ _ _ _ H1)]; try done.
    + intros x Hx. apply Hk. by right.
    + intros x ->%H1'. apply Hk. by left.
  - intros x [->|Hx]%elem_of_cons; [|by apply (ef_hash _ _ _ _ _ H2)]. rewrite (ef_batch_out _ _ _ _ _ H2); [by apply (ef_hash _ _ _ _ _ H1)| |done].
    intros y Hy. split; [by intros ?%chunks_kind|]. intros [= He]. apply Hn. rewrite He. by apply list_elem_of_fmap_2.
Qed.
Lemma notes_move ts : NoDup (h_number <$> ts) → Forall (λ t, ∃ b, noted info_ _block F t b) ts → ∀ E X, BloomsWf E → levels_agree E →
  ∃ E' X', moves F E (foldM (note_block bp info_ _block) X (h_hash <$> ts)) X' E' ∧ effect ts E X E' X'.
Proof.
  induction ts as [|t ts IH]; intros Hnd Hf E X HB HL; [exists E, X; split; [apply chain_ret|by apply effect_nil]|].
  assert (Forall (λ t, 0 <= h_number t < 2 ^ 32) (t :: ts)) as Hr. { eapply Forall_impl; [exact Hf|]. intros x [b Hb]. by apply Hb. }
  apply Forall_cons in Hf as [[b Hb] Hf]. destruct (note_block_moves E X t b Hb HB HL) as (E1&X1&M1&H1).
  destruct (IH (NoDup_cons_1_2 _ _ Hnd) Hf E1 X1 (ef_wf _ _ _ _ _ H1) (ef_levels _ _ _ _ _ H1)) as (E2&X2&M2&H2).
  exists E2, X2. split; [|by eapply effect_cons]. cbn [foldM fmap list_fmap]. by eapply chain_bind.
Qed.
End Note.
End Inserting.
