(* ===== verification/ChainInv.v ===== *)
(** * The invariant of the chain

    What the databases hold about the blocks, and that it survives the addition of a block.
    This file is about the entries; [ChainGrow] shows that [insertBlockAndExtras] makes them. *)
From stdpp Require Import base gmap list list_numbers.
From Stdlib Require Import ZArith Lia.
From S2P Require Import Prelude Rlp Interfaces Receipts BlockHeader BlockVerify BlockChain ChainCodec ChainMemo ChainTree ChainBlooms ChainInsert.
Open Scope Z_scope.

Lemma has_some E h d : has E h d → is_Some (E !! (h, ExtraDetails)).
Proof. intros [Hp _]. unfold present in Hp. by destruct (E !! _). Qed.
(** ** Ancestors do not change when entries are added *)
Definition extends (E E' : Extras) : Prop :=
  ∀ h d, has E h d → ∃ d', has E' h d' ∧ d_number d' = d_number d ∧ d_parent d' = d_parent d.
Section Extends.
Context {g : h256} {E E' : Extras} (HT : TreeOk g E) (HX : extends E E').
Lemma anc_extends n h d : has E h d → (n <= S (Z.to_nat (d_number d)))%nat → anc E' n h = anc E n h.
Proof using HT HX.
  revert h d. induction n as [|n IH]; intros h d Hd Hn; [done|]. cbn [anc]. destruct (HX h d Hd) as (d'&Hd'&_&Ep).
  rewrite (has_parent _ _ _ Hd), (has_parent _ _ _ Hd'), Ep. destruct n as [|n]; [done|].
  destruct (t_wf _ _ HT h d Hd) as [[] _]. destruct (t_parent _ _ HT h d Hd) as (dp&Hp&En&_); [lia|]. apply (IH _ dp Hp). lia.
Qed.
Lemma path_extends n h d : has E h d → (n <= S (Z.to_nat (d_number d)))%nat → path E' n h = path E n h.
Proof using HT HX.
  intros Hd Hn. apply list_eq_same_length with n; [apply path_length..|]. intros i x y Hi Hx Hy.
  rewrite path_lookup in Hx, Hy by done. rewrite <-(anc_extends i h d) in Hy by (done || lia). congruence.
Qed.
End Extends.

Section Inv.
Context `{CR : Crypto}.

(** ** The invariant *)

(** The bytes of a block are stored, and agree with its details. *)
Record block_ok (D : gmap h256 bytes) (h : h256) (d : BlockDetails) (b : bytes) (hd : BlockHeader) : Prop := mkBlockOk {
  bo_bytes : D !! h = Some b; bo_some : b ≠ []; bo_header : header_of_block b = Ok hd;
  bo_hash : h_hash hd = h; bo_number : h_number hd = d_number d; bo_parent : h_parentHash hd = d_parent d;
  bo_time : 0 <= h_timestamp hd; bo_bloom : is_bloom (header_bloom hd); bo_txs : ∃ es, tx_entries h b = Ok es }.
Definition block_bloom (D : gmap h256 bytes) (h : h256) : LogBloom :=
  match header_of_block (default [] (D !! h)) with Ok hd => header_bloom hd | _ => 0 end.

(** The blocks form a tree with the genesis block as root; the head is as high as any; the numbers
    up to its own lead to the blocks of its branch, those beyond to none; the Bloom index holds
    the filters of the blocks of that branch and of no other. *)
Record ChainOk (g : h256) (D : gmap h256 bytes) (E : Extras) (head : h256) (N : Z) : Prop := mkOk {
  ok_tree : TreeOk g E;
  ok_children : ChildrenOk E;
  ok_read : ∀ h, is_Some (E !! (h, ExtraDetails)) → ∃ d, has E h d;
  ok_hash : ∀ h d, has E h d → in256 h;
  ok_head : ∃ d, has E head d ∧ d_number d = N;
  ok_top : ∀ h d, has E h d → d_number d <= N;
  ok_numbers : ∀ n, 0 < n <= N → E !! (n, ExtraBlockHash) = Some (blockHash_rlp (mkBlockHash (anc E (Z.to_nat (N - n)) head)));
  ok_beyond : ∀ n, ¬ 0 < n <= N → E !! (n, ExtraBlockHash) = None;
  ok_blocks : ∀ h d, has E h d → h ≠ g → ∃ b hd, block_ok D h d b hd;
  ok_known : ∀ h, is_Some (D !! h) → is_Some (E !! (h, ExtraDetails)) ∧ h ≠ g;
  ok_receipts : ∀ h, present E (h, ExtraReceipts) ∨ present E (h, ExtraLogBlooms) → is_Some (E !! (h, ExtraDetails));
  ok_blooms : BloomsWf E;
  ok_levels : levels_agree E;
  ok_index : ∀ n, in_level 0 n → bloom E 0 n = if decide (0 < n <= N) then block_bloom D (anc E (Z.to_nat (N - n)) head) else 0 }.

(** ** A new block *)
Record NewBlock (E : Extras) (dp : BlockDetails) (hd : BlockHeader) (b _receipts : bytes) (td : u256) : Prop := mkNew {
  nb_parent : has E (h_parentHash hd) dp;
  nb_number : h_number hd = d_number dp + 1;
  nb_small : h_number hd < c_invalidNumber;
  nb_few : len (d_children dp) + 1 < 2 ^ 50;
  nb_hash : in256 (h_hash hd) ∧ h_hash hd ≠ 0;
  nb_fresh : E !! (h_hash hd, ExtraDetails) = None;
  nb_td : in256 td;
  nb_bytes : b ≠ [] ∧ ∃ hd', header_of_block b = Ok hd' ∧ h_hash hd' = h_hash hd ∧ h_number hd' = h_number hd ∧
    h_parentHash hd' = h_parentHash hd ∧ header_bloom hd' = header_bloom hd ∧ 0 <= h_timestamp hd';
  nb_bloom : is_bloom (header_bloom hd);
  nb_txs : ∃ es, tx_entries (h_hash hd) b = Ok es;
  nb_receipts : ∃ l, receipt_blooms _receipts = Ok l }.
Definition with_child (d : BlockDetails) (h : h256) : BlockDetails := mkDetails (d_number d) (d_totalDifficulty d) (d_parent d) (d_children d ++ [h]).
Definition new_details (hd : BlockHeader) (td : u256) : BlockDetails := mkDetails (h_number hd) td (h_parentHash hd) [].

Section New.
Context {g : h256} {D : gmap h256 bytes} {E : Extras} {head : h256} {N : Z} (HO : ChainOk g D E head N).
Context {dp : BlockDetails} {hd : BlockHeader} {b _receipts : bytes} {td : u256} (HN : NewBlock E dp hd b _receipts td).
Abbreviation hash := (h_hash hd).
Abbreviation parent := (h_parentHash hd).
Abbreviation number := (h_number hd).

Lemma new_unknown d : ¬ has E hash d.
Proof using HN. intros [Hp _]. apply Hp. by rewrite (nb_fresh _ _ _ _ _ _ HN). Qed.
Lemma new_ne h d : has E h d → h ≠ hash.
Proof using HN. intros Hd ->. by eapply new_unknown. Qed.
Lemma parent_wf : details_wf (with_child dp hash).
Proof using HO HN.
  destruct (t_wf _ _ (ok_tree _ _ _ _ _ HO) _ _ (nb_parent _ _ _ _ _ _ HN)) as ([H1 H2 H3 H4 H5]&_). pose proof (nb_few _ _ _ _ _ _ HN). pose proof (nb_hash _ _ _ _ _ _ HN).
  constructor; cbn; try done; [|rewrite length_app; cbn; lia]. apply Forall_app. split; [done|]. apply Forall_cons. split; [apply HN|by apply Forall_nil].
Qed.
Lemma number_pos : 0 < number <= N + 1.
Proof using HO HN.
  pose proof (nb_parent _ _ _ _ _ _ HN) as Hp. pose proof (nb_number _ _ _ _ _ _ HN). pose proof (ok_top _ _ _ _ _ HO _ _ Hp).
  destruct (t_wf _ _ (ok_tree _ _ _ _ _ HO) _ _ Hp) as ([]&_). lia.
Qed.
Lemma new_wf : details_wf (new_details hd td).
Proof using HO HN.
  pose proof number_pos. pose proof (nb_small _ _ _ _ _ _ HN). unfold c_invalidNumber in *. pose proof (ok_hash _ _ _ _ _ HO _ _ (nb_parent _ _ _ _ _ _ HN)).
  constructor; cbn; try done; [lia|apply HN].
Qed.

(** The child is pushed: the tree stays. *)
Definition pushed : Extras := <[(parent, ExtraDetails) := details_rlp (with_child dp hash)]> E.
Lemma has_put h0 x E0 h d : details_wf x → has (<[(h0, ExtraDetails) := details_rlp x]> E0) h d ↔ (h = h0 ∧ d = x) ∨ (h ≠ h0 ∧ has E0 h d).
Proof using.
  intros Hx. destruct (details_back x Hx) as [Hne Hb]. unfold has, present, stored. cbn [extra_kind details_extra extra_of_rlp]. destruct (decide (h = h0)) as [->|Hn].
  - rewrite lookup_insert_eq. cbn [default from_option id]. rewrite bool_decide_eq_false_2 by done. rewrite Hb. split.
    + intros [_ [= <-]]. by left.
    + intros [[_ ->]|[[] _]]; done.
  - rewrite lookup_insert_ne by (intros [= ?]; congruence). split; [intros H; by right|]. by intros [[-> _]|[_ H]].
Qed.
Lemma pushed_has h d : has pushed h d ↔ (h = parent ∧ d = with_child dp hash) ∨ (h ≠ parent ∧ has E h d).
Proof using HO HN. apply has_put, parent_wf. Qed.
Lemma pushed_extends : extends E pushed.
Proof using HO HN.
  intros h d Hd. destruct (decide (h = parent)) as [->|Hn].
  - exists (with_child dp hash). rewrite (has_inj _ _ _ _ Hd (nb_parent _ _ _ _ _ _ HN)). split; [|done]. apply pushed_has. by left.
  - exists d. split; [|done]. apply pushed_has. by right.
Qed.
Lemma pushed_tree : TreeOk g pushed.
Proof using HO HN.
  pose proof (ok_tree _ _ _ _ _ HO) as HT. pose proof (nb_parent _ _ _ _ _ _ HN) as Hp.
  assert (∀ h d, has pushed h d → ∃ d0, has E h d0 ∧ d_number d = d_number d0 ∧ d_parent d = d_parent d0 ∧ (∀ k, k ∈ d_children d0 → k ∈ d_children d)) as Hback.
  { intros h d [[-> ->]|[_ Hd]]%pushed_has; [exists dp|exists d; done]. do 3 (split; [done|]). intros k Hk. cbn. apply elem_of_app. by left. }
  constructor.
  - destruct (t_root _ _ HT) as (d&Hd&Hz). destruct (pushed_extends _ _ Hd) as (d'&Hd'&En&_). exists d'. split; [done|congruence].
  - intros h d Hd. destruct (Hback _ _ Hd) as (d0&Hd0&En&_). destruct (t_wf _ _ HT _ _ Hd0) as (Hw&Hv&Hz). split; [|split; [congruence|done]].
    apply pushed_has in Hd as [[_ ->]|[_ Hd]]; [apply parent_wf|by apply (t_wf _ _ HT h)].
  - intros h d Hd Hz. destruct (Hback _ _ Hd) as (d0&Hd0&En&_). apply (t_zero _ _ HT _ d0); [done|congruence].
  - intros h d Hd Hpos. destruct (Hback _ _ Hd) as (d0&Hd0&En&Ep&_). destruct (t_parent _ _ HT _ _ Hd0) as (x&Hx&Nx&Cx); [congruence|].
    rewrite Ep, En. destruct (decide (d_parent d0 = parent)) as [Hq|Hq].
    + rewrite Hq in Hx. rewrite (has_inj _ _ _ _ Hx Hp) in *. exists (with_child dp hash). split; [apply pushed_has; left; done|]. cbn. split; [done|].
      apply elem_of_app. by left.
    + exists x. split; [|done]. apply pushed_has. by right.
Qed.

(** ** The entries after the insertion *)

(** The block of the new branch with a given number. *)
Definition branch_block (n : Z) : h256 := match Z.to_nat (number - n) with O => hash | S i => anc E i parent end.
Record Inserted (best : bool) (E' : Extras) (top : Z) : Prop := mkInserted {
  in_details : ∀ h, E' !! (h, ExtraDetails) = <[(hash, ExtraDetails) := details_rlp (new_details hd td)]> pushed !! (h, ExtraDetails);
  in_receipts : ∀ h k, k = ExtraReceipts ∨ k = ExtraLogBlooms → h ≠ hash → E' !! (h, k) = E !! (h, k);
  in_numbers : ∀ n, E' !! (n, ExtraBlockHash) =
    if decide (best = true ∧ top < n <= number) then Some (blockHash_rlp (mkBlockHash (branch_block n))) else E !! (n, ExtraBlockHash);
  in_wf : BloomsWf E';
  in_levels : levels_agree E';
  in_index : ∀ n, in_level 0 n → bloom E' 0 n =
    if decide (best = true ∧ top < n <= number) then block_bloom (<[hash := b]> D) (branch_block n) else bloom E 0 n }.

Section After.
Context {best : bool} {E' : Extras} {top : Z} (HI : Inserted best E' top).
Lemma after_has h d : has E' h d ↔ (h = hash ∧ d = new_details hd td) ∨ (h ≠ hash ∧ has pushed h d).
Proof using HI HO HN.
  rewrite <-(has_put hash (new_details hd td) pushed h d new_wf). unfold has, present, stored. cbn [extra_kind details_extra]. by rewrite (in_details _ _ _ HI).
Qed.
Lemma after_new : has E' hash (new_details hd td).
Proof using HI HO HN. apply after_has. by left. Qed.
Lemma after_pushed : extends pushed E'.
Proof using HI HO HN.
  intros h d Hd. exists d. split; [|done]. apply after_has. right. split; [|done]. apply pushed_has in Hd as [[-> _]|[_ Hd]]; [|by eapply new_ne].
  eapply new_ne, (nb_parent _ _ _ _ _ _ HN).
Qed.
Lemma after_extends : extends E E'.
Proof using HI HO HN.
  intros h d Hd. destruct (pushed_extends _ _ Hd) as (d1&H1&N1&P1). destruct (after_pushed _ _ H1) as (d2&H2&N2&P2). exists d2. split; [done|]. by rewrite N2, P2.
Qed.
Lemma after_back h d : has E' h d → h ≠ hash → ∃ d0, has E h d0 ∧ d_number d = d_number d0 ∧ d_parent d = d_parent d0.
Proof using HI HO HN.
  intros [[-> _]|[_ [[-> ->]|[_ Hd]]%pushed_has]]%after_has Hn; [done|exists dp; split; [apply HN|done]|by exists d].
Qed.
Lemma after_tree : TreeOk g E'.
Proof using HI HO HN.
  pose proof pushed_tree as HT. constructor.
  - destruct (t_root _ _ HT) as (d&Hd&Hz). destruct (after_pushed _ _ Hd) as (d'&Hd'&En&_). exists d'. split; [done|congruence].
  - intros h d [[-> ->]|[Hn Hd]]%after_has; [|by apply (t_wf _ _ HT)]. split; [apply new_wf|]. cbn. split; apply HN.
  - intros h d [[-> ->]|[Hn Hd]]%after_has Hz; [|by apply (t_zero _ _ HT _ d)]. cbn in Hz. pose proof number_pos. lia.
  - intros h d [[-> ->]|[Hn Hd]]%after_has Hpos.
    + exists (with_child dp hash). split; [|split; [apply HN|cbn; apply elem_of_app; right; left]]. apply after_has. right.
      split; [eapply new_ne, (nb_parent _ _ _ _ _ _ HN)|]. apply pushed_has. by left.
    + destruct (t_parent _ _ HT h d Hd Hpos) as (x&Hx&Nx&Cx). exists x. split; [|done]. apply after_has. right. split; [|done].
      apply pushed_has in Hx as [[Hq _]|[_ Hx]]; [rewrite Hq; eapply new_ne, (nb_parent _ _ _ _ _ _ HN)|by eapply new_ne].
Qed.
Lemma after_children : ChildrenOk E'.
Proof using HI HO HN.
  intros h d k [[-> ->]|[Hn Hd]]%after_has Hk; [by apply not_elem_of_nil in Hk|].
  assert (∀ h d, has E h d → k ∈ d_children d → ∃ dk, has E' k dk ∧ d_parent dk = h ∧ 0 < d_number dk) as Hold.
  { intros h0 d0 H0 Hk0. destruct (ok_children _ _ _ _ _ HO _ _ _ H0 Hk0) as (dk&Hdk&Pk&Nk). destruct (after_extends _ _ Hdk) as (d'&Hd'&En&Ep).
    exists d'. split; [done|]. split; congruence. }
  apply pushed_has in Hd as [[-> ->]|[_ Hd]]; [|by eapply Hold]. cbn in Hk. apply elem_of_app in Hk as [Hk|Hk%list_elem_of_singleton].
  - eapply Hold; [apply HN|done].
  - subst k. exists (new_details hd td). split; [apply after_new|]. split; [done|]. cbn. apply number_pos.
Qed.
Lemma after_anc n h d : has E h d → (n <= S (Z.to_nat (d_number d)))%nat → anc E' n h = anc E n h.
Proof using HI HO HN. apply (anc_extends (ok_tree _ _ _ _ _ HO) after_extends). Qed.
Lemma after_anc_new n : anc E' (S n) hash = anc E' n parent.
Proof using HI HO HN. cbn [anc]. by rewrite (has_parent _ _ _ after_new). Qed.
Lemma after_branch n : 0 <= n <= number → anc E' (Z.to_nat (number - n)) hash = branch_block n.
Proof using HI HO HN.
  intros Hn. unfold branch_block. destruct (Z.to_nat (number - n)) as [|i] eqn:Ei; [done|]. rewrite after_anc_new.
  pose proof (nb_number _ _ _ _ _ _ HN). apply (after_anc _ _ dp); [apply HN|lia].
Qed.
(** Filters of blocks that were stored before. *)
Lemma after_bloom h d : has E h d → block_bloom (<[hash := b]> D) h = block_bloom D h.
Proof using HN. intros Hd. unfold block_bloom. rewrite lookup_insert_ne; [done|]. intros <-. by eapply new_unknown. Qed.

End After.
Lemma after_ok best E' top : Inserted best E' top → (if best then N <= number else number <= N) → 
  (best = true → ∃ i, (i <= Z.to_nat N)%nat ∧ top = N - Z.of_nat i ∧ 0 <= top <= d_number dp ∧ anc E (Z.to_nat (d_number dp - top)) parent = anc E i head) →
  ChainOk g (<[hash := b]> D) E' (if best then hash else head) (if best then number else N).
Proof using HO HN.
  intros HI Hbest Htop. pose proof number_pos as Hpos. pose proof (nb_number _ _ _ _ _ _ HN) as Hnum. pose proof (nb_parent _ _ _ _ _ _ HN) as Hp.
  destruct (ok_head _ _ _ _ _ HO) as (dh&Hh&Nh). pose proof (ok_tree _ _ _ _ _ HO) as HT.
  set (N' := if best then number else N). set (head' := if best then hash else head).
  (** The branch of the new head, below the block where the branches part. *)
  assert (∀ n, ¬ (best = true ∧ top < n <= number) → 0 < n <= N' → anc E' (Z.to_nat (N' - n)) head' = anc E (Z.to_nat (N - n)) head ∧ 0 < n <= N) as Hbelow.
  { intros n Hn Hr. unfold N', head' in *. destruct best; [|split; [apply (after_anc HI _ _ dh Hh); lia|done]].
    destruct (Htop eq_refl) as (i&Hi&->&Hti&Ha). assert (n <= N - Z.of_nat i) as Hle by (destruct (decide (N - Z.of_nat i < n)); [destruct Hn|]; lia).
    split; [|lia]. replace (Z.to_nat (number - n)) with (S (Z.to_nat (d_number dp - (N - Z.of_nat i)) + Z.to_nat (N - Z.of_nat i - n)))%nat by lia.
    rewrite (after_anc_new HI). rewrite (after_anc HI _ _ dp Hp) by lia. rewrite anc_add, Ha, <-anc_add. f_equal. lia. }
  constructor.
  - apply (after_tree HI).
  - apply (after_children HI).
  - intros h Hpr. destruct (decide (h = hash)) as [->|Hn]; [eexists; apply (after_new HI)|]. destruct (decide (h = parent)) as [->|Hn'].
    + eexists. apply (after_has HI). right. split; [done|]. apply pushed_has. by left.
    + destruct (ok_read _ _ _ _ _ HO h) as [d Hd].
      { revert Hpr. rewrite (in_details _ _ _ HI). unfold pushed. by rewrite !lookup_insert_ne by (intros [= ?]; congruence). }
      exists d. apply (after_has HI). right. split; [done|]. apply pushed_has. by right.
  - intros h d Hd. destruct (decide (h = hash)) as [->|Hn]; [apply HN|]. destruct ((after_back HI) _ _ Hd Hn) as (d0&Hd0&_). by apply (ok_hash _ _ _ _ _ HO _ d0).
  - unfold N', head'. destruct best.
    + exists (new_details hd td). split; [apply (after_new HI)|done].
    + destruct ((after_extends HI) _ _ Hh) as (d'&Hd'&En&_). exists d'. split; [done|congruence].
  - intros h d Hd. destruct (decide (h = hash)) as [->|Hn].
    + rewrite (has_inj _ _ _ _ Hd (after_new HI)). cbn. unfold N'. destruct best; lia.
    + destruct ((after_back HI) _ _ Hd Hn) as (d0&Hd0&En&_). pose proof (ok_top _ _ _ _ _ HO _ _ Hd0). unfold N'. destruct best; lia.
  - intros n Hn. rewrite (in_numbers _ _ _ HI). destruct (decide _) as [[Hbt Hr]|Hr].
    { destruct (Htop Hbt) as (i&Hi&Ht&Hti&_). unfold N', head'. rewrite Hbt. by rewrite (after_branch HI) by lia. }
    destruct (Hbelow n Hr Hn) as [-> Hn']. by apply (ok_numbers _ _ _ _ _ HO).
  - intros n Hn. rewrite (in_numbers _ _ _ HI). rewrite decide_False.
    + apply (ok_beyond _ _ _ _ _ HO). unfold N' in Hn. destruct best; lia.
    + intros [-> Hr]. destruct (Htop eq_refl) as (i&Hi&Ht&Hti&_). apply Hn. unfold N'. lia.
  - intros h d Hd Hg. destruct (decide (h = hash)) as [->|Hn].
    + rewrite (has_inj _ _ _ _ Hd (after_new HI)). destruct (nb_bytes _ _ _ _ _ _ HN) as (Hb&hd'&H1&H2&H3&H4&H5&H6). exists b, hd'.
      constructor; try done; [by rewrite lookup_insert_eq|rewrite H5; apply HN|apply HN].
    + destruct ((after_back HI) _ _ Hd Hn) as (d0&Hd0&En&Ep). destruct (ok_blocks _ _ _ _ _ HO _ _ Hd0 Hg) as (b0&h0&[]). exists b0, h0.
      constructor; try done; [by rewrite lookup_insert_ne by done|congruence..].
  - intros h Hs. destruct (decide (h = hash)) as [->|Hn].
    + split; [eapply has_some, (after_new HI)|]. destruct (t_root _ _ HT) as (d&Hd&_). intros He. rewrite <-He in Hd. by eapply new_unknown.
    + rewrite lookup_insert_ne in Hs by done. destruct (ok_known _ _ _ _ _ HO h Hs) as [Hpr Hg]. split; [|done].
      destruct (ok_read _ _ _ _ _ HO h Hpr) as [d Hd]. destruct ((after_extends HI) _ _ Hd) as (d'&Hd'&_). by eapply has_some.
  - intros h Hr. destruct (decide (h = hash)) as [->|Hn]; [eapply has_some, (after_new HI)|].
    destruct (ok_read _ _ _ _ _ HO h) as [d Hd]; [apply (ok_receipts _ _ _ _ _ HO)|destruct ((after_extends HI) _ _ Hd) as (d'&Hd'&_); by eapply has_some].
    unfold present in *. rewrite !(in_receipts _ _ _ HI) in Hr by auto. done.
  - apply HI.
  - apply HI.
  - intros n Hn. rewrite (in_index _ _ _ HI n Hn). destruct (decide (best = true ∧ top < n <= number)) as [[Hbt Hr]|Hr].
    + destruct (Htop Hbt) as (i&Hi&Ht&Hti&_). unfold N', head'. rewrite Hbt. rewrite decide_True by lia. by rewrite (after_branch HI) by lia.
    + rewrite (ok_index _ _ _ _ _ HO n Hn). destruct (decide (0 < n <= N')) as [Hn'|Hn'].
      * destruct (Hbelow n Hr Hn') as [-> Hn2]. rewrite decide_True by done.
        destruct (anc_has HT (Z.to_nat (N - n)) head dh Hh) as (dn&Hdn&_); [lia|]. by rewrite (after_bloom _ _ Hdn).
      * rewrite decide_False; [done|]. intros Hn2. apply Hn'. unfold N'. destruct best; lia.
Qed.
End New.
End Inv.
