(* ===== verification/ChainGrow.v ===== *)
(** * Inserting a block keeps the invariant

    [insertBlockAndExtras] on a chain that has the invariant: the caches go on showing what the
    database holds, and the database holds the entries of a chain with one block more, whether
    the block extends the head, moves the head to another branch, or is only stored. *)
From stdpp Require Import base gmap list list_numbers.
From Stdlib Require Import ZArith Lia.
From S2P Require Import Prelude Rlp Interfaces Receipts Transaction BlockHeader BlockVerify BlockChain ChainCodec ChainMemo ChainTree ChainBlooms ChainInsert ChainInv.
Open Scope Z_scope.

(** ** Routes as lists *)
Lemma until_common_app common l l' : common ∉ l → until_common common (l ++ common :: l') = l.
Proof.
  induction l as [|x l IH]; intros Hn; cbn; [by rewrite Z.eqb_refl|]. apply not_elem_of_cons in Hn as [Hx Hn].
  destruct (Z.eqb_spec x common); [done|]. by rewrite IH.
Qed.
Lemma split_fresh common l : common ∉ l → split_route false common l = ([], l).
Proof.
  induction l as [|x l IH]; intros Hn; cbn; [done|]. apply not_elem_of_cons in Hn as [Hx Hn]. destruct (Z.eqb_spec x common); [done|]. by rewrite IH.
Qed.
Lemma split_route_app common l l' : common ∉ l → common ∉ l' → split_route true common (l ++ common :: l') = (l, l').
Proof.
  induction l as [|x l IH]; intros Hn Hn'; cbn; [rewrite Z.eqb_refl; by apply split_fresh|]. apply not_elem_of_cons in Hn as [Hx Hn].
  destruct (Z.eqb_spec x common); [done|]. by rewrite IH.
Qed.

(** ** The writes at the end *)
Definition write_out (hash : h256) (_block : bytes) (X : Extras) (c : Chain) : Chain :=
  c <| c_store ::= λ s, s <| bs_blocksDB ::= <[hash := _block]> |> |> <| c_extrasDB ::= λ m, X ∪ m |>.
Section Commit.
Context (c c' : Chain) (E E' : Extras).
Lemma cache_commit T {Y : Extra T} : cache_shows T c E → c_extrasDB c' = E' → extra_cache c' = (extra_cache c : gmap Z T) →
  (∀ h, is_Some (extra_cache c !! h : option T) → E' !! (h, extra_kind) = E !! (h, extra_kind)) → cache_shows T c' E'.
Proof using.
  intros Hc Hdb Hx Hs h. specialize (Hc h). specialize (Hs h). rewrite Hx, Hdb. destruct (extra_cache c !! h) as [x|]; [|done].
  unfold present, stored in *. rewrite Hs by (by eexists). done.
Qed.
End Commit.
(** A cached value is present. *)
Lemma cached_present {T} {Y : Extra T} c E h : cache_shows T c E → is_Some (extra_cache c !! h : option T) → is_Some (E !! (h, extra_kind)).
Proof. intros Hc [x Hx]. specialize (Hc h). rewrite Hx in Hc. destruct Hc as [Hp _]. unfold present in Hp. by destruct (E !! _). Qed.
(** Cached values are the same after the writes. *)
Definition cached_agree T {Y : Extra T} (c : Chain) (E E' : Extras) : Prop :=
  ∀ h, is_Some (extra_cache c !! h : option T) → E' !! (h, extra_kind) = E !! (h, extra_kind).
Lemma commit_shows hash b X c E (E' := X ∪ c_extrasDB c) : shows c E → bs_blocks (c_store c) !! hash = None →
  cached_agree BlockDetails c E E' → cached_agree BlockHash c E E' → cached_agree BlocksBlooms c E E' → cached_agree BlockReceipts c E E' → cached_agree BlockLogBlooms c E E' →
  shows (write_out hash b X c) E'.
Proof.
  intros [] Hb H1 H2 H3 H4 H5. set (c' := write_out hash b X c). assert (c_extrasDB c' = E') as Hdb by (by destruct c).
  constructor; try (eapply cache_commit; [eassumption|done|by destruct c|assumption]).
  - intros h x. replace (bs_blocks (c_store c')) with (bs_blocks (c_store c)) by (by destruct c).
    replace (bs_blocksDB (c_store c')) with (<[hash := b]> (bs_blocksDB (c_store c))) by (by destruct c). intros Hx.
    rewrite lookup_insert_ne by (intros <-; congruence). by apply sh_blocks.
  - replace (c_cached_bytes c') with (c_cached_bytes c) by (by destruct c). done.
Qed.

(** Entries with the same chunks have the same index. *)
Section Same.
Context {E E' : Extras} (Hs : ∀ h, E' !! (h, ExtraBlocksBlooms) = E !! (h, ExtraBlocksBlooms)).
Lemma same_stored h : stored E' h = (stored E h : outcome BlocksBlooms).
Proof using Hs. unfold stored. cbn [extra_kind blooms_extra]. by rewrite Hs. Qed.
Lemma same_bloom l n : bloom E' l n = bloom E l n.
Proof using Hs. unfold bloom, blooms_of. by rewrite same_stored. Qed.
Lemma same_wf : BloomsWf E → BloomsWf E'.
Proof using Hs. intros HB h. rewrite same_stored. apply HB. Qed.
Lemma same_levels : levels_agree E → levels_agree E'.
Proof using Hs. intros HL i Hi. rewrite same_bloom, HL by done. unfold chunk_or, blooms_of. by rewrite same_stored. Qed.
End Same.

Section Grow.
Context `{CR : Crypto} (bp : BlockChainParams).

(** The header of the genesis block. *)
Definition genesis_ok (d : bytes) : Prop := ∀ w h, header_of_data d w = Ok h → h_number h = 0 ∧ 0 <= h_timestamp h.
Record ChainInv (c : Chain) : Prop := mkInv {
  ci_coherent : Coherent c;
  ci_ok : ChainOk (bs_genesisHash (c_store c)) (bs_blocksDB (c_store c)) (c_extrasDB c) (c_lastBlockHash c) (c_lastBlockNumber c);
  ci_best : default (bs_genesisHash (c_store c)) (c_best c) = c_lastBlockHash c;
  ci_genesis : genesis_ok (bs_genesisHeaderBytes (c_store c));
  ci_genesisHash : bs_genesisHash (c_store c) = sha3 (bs_genesisHeaderBytes (c_store c)) }.

(** ** Reversion *)
Lemma foldr_delete_in {V} (m : gmap Z V) l n : n ∈ l → foldr delete m l !! n = None.
Proof.
  induction l as [|x l IH]; intros Hn; [by apply not_elem_of_nil in Hn|]. cbn. destruct (decide (n = x)) as [->|Hx]; [by rewrite lookup_delete_eq|].
  rewrite lookup_delete_ne by done. apply IH. apply elem_of_cons in Hn as [?|?]; done.
Qed.
Lemma foldr_delete_some {V} (m : gmap Z V) l n x : foldr delete m l !! n = Some x → m !! n = Some x.
Proof.
  induction l as [|y l IH]; [done|]. cbn. destruct (decide (n = y)) as [->|Hx]; [by rewrite lookup_delete_eq|]. by rewrite lookup_delete_ne by done.
Qed.
(** The numbers from [b] on are forgotten. *)
Lemma reversion_moves c E b (N := c_lastBlockNumber c) : shows c E → (∀ n, c_extrasDB c !! (n, ExtraBlockHash) = E !! (n, ExtraBlockHash)) →
  BloomsWf E → levels_agree E → 0 <= b <= N → N + 1 < 2 ^ 32 → ∃ c' E', clearCachesDuringChainReversion b c = (Ok tt, c') ∧ shows c' E' ∧ frame c' = frame c ∧
  BloomsWf E' ∧ levels_agree E' ∧ (∀ k, (∀ n, b <= n <= N → k ∉ chunks n) → E' !! k = E !! k) ∧
  (∀ m, in_level 0 m → bloom E' 0 m = if decide (b <= m <= N) then 0 else bloom E 0 m) ∧
  (∀ n, b <= n → (N < n → c_blockHashes c !! n = None) → c_blockHashes c' !! n = None).
Proof.
  intros Hc Hdb HB HL Hb HN. unfold clearCachesDuringChainReversion. rewrite (bind_ok _ _ _ c c) by done. fold N. rewrite (u32_small (N + 1)) by lia.
  set (f := λ c : Chain, c <| c_blockHashes ::= λ m, foldr delete m (seqZ b (N + 1 - b)) |> <| c_transactionAddresses := ∅ |>).
  rewrite (bind_ok _ _ _ tt (f c)) by done.
  assert (shows (f c) E ∧ frame (f c) = frame c) as [S1 F1].
  { split; [|by destruct c]. pose proof (sh_hashes _ _ Hc) as Hh. destruct Hc. constructor; try (by destruct c). intros n.
    specialize (Hh n). assert (extra_cache (f c) = foldr delete (c_blockHashes c) (seqZ b (N + 1 - b))) as -> by (by destruct c).
    replace (c_extrasDB (f c)) with (c_extrasDB c) by (by destruct c).
    destruct (foldr delete (c_blockHashes c) (seqZ b (N + 1 - b)) !! n) as [x|] eqn:Ex; [|apply Hdb].
    apply foldr_delete_some in Ex. cbn [extra_cache hash_extra] in Hh. by rewrite Ex in Hh. }
  destruct (clear_moves (frame c) E b (N + 1) HB) as (E'&M&W&A&L&V); [lia..|done|]. destruct (M (f c) S1 F1) as (c'&R&S'&F'). exists c', E'.
  do 5 (split; [done|]). split; [|split].
  - intros k Hk. apply A. intros l m Hr ->. destruct Hr as [[-> Hr]|[-> Hr]].
    + apply (Hk m); [lia|]. left.
    + pose proof (Z.div_mod (N + 1 - 1) 16). pose proof (Z.mod_pos_bound (N + 1 - 1) 16). pose proof (Z.div_mod b 16). pose proof (Z.mod_pos_bound b 16).
      assert (∃ n, b <= n <= N ∧ n / 16 = m) as (n&Hn&<-).
      { destruct (decide (b <= 16 * m)); [exists (16 * m); split; [lia|rewrite Z.mul_comm; by apply Z.div_mul]|exists b; lia]. }
      apply (Hk n Hn). right. left.
  - intros m Hm. rewrite V by done. destruct (decide (b <= m <= N)); [by rewrite decide_True by lia|by rewrite decide_False by lia].
  - intros n Hn Ha. pose proof (keeps_clear b (N + 1) (f c)) as K. rewrite R in K. cbn [snd] in K. rewrite K.
    replace (c_blockHashes (f c)) with (foldr delete (c_blockHashes c) (seqZ b (N + 1 - b))) by (by destruct c).
    destruct (decide (n <= N)) as [Hle|Hgt]; [apply foldr_delete_in, elem_of_seqZ; lia|].
    destruct (foldr delete (c_blockHashes c) (seqZ b (N + 1 - b)) !! n) as [x|] eqn:Ex; [|done]. apply foldr_delete_some in Ex. rewrite Ha in Ex by lia. done.
Qed.

(** ** The headers of a branch *)
Lemma path_headers g D E head N j : ChainOk g D E head N → ∀ h d, has E h d → (j <= Z.to_nat (d_number d))%nat →
  ∃ ts, length ts = j ∧ ∀ i t, ts !! i = Some t → h_hash t = anc E i h ∧ h_number t = d_number d - Z.of_nat i ∧
    h_hash t ≠ g ∧ ∃ dt b, has E (h_hash t) dt ∧ block_ok D (h_hash t) dt b t.
Proof.
  intros HO. pose proof (ok_tree _ _ _ _ _ HO) as HT. induction j as [|j IH]; intros h d Hd Hj; [by exists []|].
  destruct (t_parent _ _ HT h d Hd) as (dp&Hp&En&_); [lia|]. destruct (IH _ dp Hp) as (ts&Hl&Hts); [lia|].
  assert (h ≠ g) as Hg. { intros ->. destruct (t_root _ _ HT) as (dg&Hdg&Hz). rewrite (has_inj _ _ _ _ Hdg Hd) in Hz. lia. }
  destruct (ok_blocks _ _ _ _ _ HO h d Hd Hg) as (b&hd&Hb). pose proof (bo_hash _ _ _ _ _ Hb) as Eh. exists (hd :: ts). split; [cbn; by rewrite Hl|]. intros [|i] t Ht; cbn in Ht.
  - injection Ht as <-. rewrite Eh. split; [done|]. split; [rewrite (bo_number _ _ _ _ _ Hb); lia|]. split; [done|]. by exists d, b.
  - destruct (Hts i t Ht) as (E1&E2&E3&E4). cbn [anc]. rewrite (has_parent _ _ _ Hd). split; [done|]. split; [lia|]. done.
Qed.

(** ** One block is inserted *)
Section Step.
Context {c : Chain} (HI : ChainInv c).
Abbreviation E := (c_extrasDB c).
Abbreviation D := (bs_blocksDB (c_store c)).
Abbreviation g := (bs_genesisHash (c_store c)).
Abbreviation head := (c_lastBlockHash c).
Abbreviation N := (c_lastBlockNumber c).
Context {dp : BlockDetails} {hd : BlockHeader} {b _receipts : bytes} {td : u256} (HN : NewBlock E dp hd b _receipts td).
Abbreviation hash := (h_hash hd).
Abbreviation parent := (h_parentHash hd).
Abbreviation number := (h_number hd).
Abbreviation E1 := (pushed (E := E) (dp := dp) (hd := hd)).
Let HO : ChainOk g D E head N := ci_ok c HI.

Lemma head_small : 0 <= N < c_invalidNumber.
Proof using HO. destruct (ok_head _ _ _ _ _ HO) as (d&Hd&<-). destruct (t_wf _ _ (ok_tree _ _ _ _ _ HO) _ _ Hd) as ([]&?&_). lia. Qed.
Abbreviation branch_block := (ChainInv.branch_block (E := E) (hd := hd)).

(** The child is pushed to its parent, in the cache. *)
Lemma push_moves : ∃ c1 c2, details parent c = (Ok dp, c1) ∧ push_child parent hash c1 = c2 ∧ cached_details parent c2 = (Ok (with_child dp hash), c2) ∧
  shows c2 E1 ∧ frame c2 = frame c.
Proof using HI HN.
  destruct (nb_parent _ _ _ _ _ _ HN) as [Hp Hs].
  destruct (query_cached (frame c) E parent dp Hs Hp c (ci_coherent _ HI) eq_refl) as (c1&R1&S1&F1&C1). cbn [extra_cache details_extra] in C1.
  destruct (details_back _ (parent_wf HO HN)) as [Hne Hb].
  exists c1, (c1 <| c_details ::= <[parent := with_child dp hash]> |>). split; [done|]. split.
  { unfold push_child. destruct c1 as [s1 m]. cbn in C1. cbv beta iota delta [upd c_details_field c_details]. rewrite C1. done. }
  split.
  { unfold cached_details. rewrite (bind_ok _ _ _ (c1 <| c_details ::= <[parent := with_child dp hash]> |>) (c1 <| c_details ::= <[parent := with_child dp hash]> |>)) by done.
    replace (c_details (c1 <| c_details ::= _ |>)) with (<[parent := with_child dp hash]> (c_details c1)) by (by destruct c1). by rewrite lookup_insert_eq. }
  split; [by apply put_details|]. rewrite <-F1. by destruct c1.
Qed.

Lemma pushed_other k : k.2 ≠ ExtraDetails → E1 !! k = E !! k.
Proof using. intros Hk. unfold pushed. apply lookup_insert_ne. intros <-. by apply Hk. Qed.
Lemma pushed_bloom l n : bloom E1 l n = bloom E l n.
Proof using. apply same_bloom. intros h. by apply pushed_other. Qed.
Lemma pushed_blooms : BloomsWf E1 ∧ levels_agree E1.
Proof using HO. assert (∀ h, E1 !! (h, ExtraBlocksBlooms) = E !! (h, ExtraBlocksBlooms)) as Hs by (intros h; by apply pushed_other). split; [apply (same_wf Hs)|apply (same_levels Hs)]; apply HO. Qed.
Lemma above_uncached n (c5 : Chain) : shows c5 E1 → N < n → c_blockHashes c5 !! n = None.
Proof using HO.
  intros S5 Hn. destruct (c_blockHashes c5 !! n) as [x|] eqn:Ex; [|done]. destruct (cached_present _ _ n (sh_hashes _ _ S5)) as [y Hy]; [by exists x|].
  cbn [extra_kind hash_extra] in Hy. rewrite pushed_other in Hy by done. rewrite (ok_beyond _ _ _ _ _ HO) in Hy by lia. done.
Qed.

(** The first writes of the batch. *)
Definition batch0 (lb : bytes) : Extras := write_all
  [((parent, ExtraDetails), details_rlp (with_child dp hash)); ((hash, ExtraDetails), details_rlp (new_details hd td));
   ((hash, ExtraLogBlooms), lb); ((hash, ExtraReceipts), _receipts)] ∅.
Lemma batch0_details lb h : (batch0 lb ∪ E) !! (h, ExtraDetails) = <[(hash, ExtraDetails) := details_rlp (new_details hd td)]> E1 !! (h, ExtraDetails).
Proof using.
  unfold batch0, write_all, pushed. cbn [foldl fst snd]. rewrite <-!insert_union_l, (left_id_L ∅ (∪)). by rewrite !(lookup_insert_ne _ (hash, _) (h, _)) by done.
Qed.
Lemma batch0_none lb k : k.2 ≠ ExtraDetails → k.1 ≠ hash ∨ (k.2 ≠ ExtraLogBlooms ∧ k.2 ≠ ExtraReceipts) → batch0 lb !! k = None.
Proof using.
  intros H1 H2. unfold batch0. rewrite write_all_ne; [apply lookup_empty|]. cbn [fmap list_fmap fst]. rewrite !not_elem_of_cons.
  split_and!; [intros ->; by apply H1|intros ->; by apply H1|intros ->; destruct H2 as [[]|[]]; done|intros ->; destruct H2 as [[]|[]]; done|apply not_elem_of_nil].
Qed.
Lemma batch0_union X lb k : X !! k = batch0 lb !! k → (X ∪ E) !! k = (batch0 lb ∪ E) !! k.
Proof using. intros Hk. by rewrite !lookup_union, Hk. Qed.
Lemma union_other X lb k : k.2 ≠ ExtraDetails → k.1 ≠ hash ∨ (k.2 ≠ ExtraLogBlooms ∧ k.2 ≠ ExtraReceipts) → X !! k = batch0 lb !! k → (X ∪ E) !! k = E !! k.
Proof using. intros H1 H2 Hk. rewrite lookup_union, Hk, batch0_none by done. by rewrite (left_id_L None _). Qed.
Lemma stored_inserted lb t0 : Inserted (D := D) (E := E) (dp := dp) (hd := hd) (b := b) (td := td) false (batch0 lb ∪ E) t0.
Proof using HO.
  assert (∀ h, (batch0 lb ∪ E) !! (h, ExtraBlocksBlooms) = E !! (h, ExtraBlocksBlooms)) as Hs by (intros h; apply (union_other _ lb); auto).
  constructor.
  - apply batch0_details.
  - intros h k Hk Hn. apply (union_other _ lb); [by destruct Hk as [->| ->]|by left|done].
  - intros n. rewrite decide_False by (by intros [? _]). apply (union_other _ lb); auto.
  - apply (same_wf Hs), HO.
  - apply (same_levels Hs), HO.
  - intros n Hn. rewrite decide_False by (by intros [? _]). apply (same_bloom Hs).
Qed.

Section Best.
Context {c4 : Chain} (S4 : shows c4 E1) (F4 : frame c4 = frame c).
Context {i j : nat} {top : h256} (HR : route_of E head parent i j top) (Hij : N - Z.of_nat i = d_number dp - Z.of_nat j)
  (Hi : (i <= Z.to_nat N)%nat) (Hj : (j <= Z.to_nat (d_number dp))%nat) (Hbest : N <= number).
Abbreviation tn := (N - Z.of_nat i).

Lemma top_has : ∃ d, has E1 top d ∧ d_number d = tn.
Proof using HO HN HR Hi Hj Hij Hbest.
  destruct (ok_head _ _ _ _ _ HO) as (dh&Hh&Nh). destruct (anc_has (ok_tree _ _ _ _ _ HO) i head dh Hh) as (d&Hd&Nd); [lia|].
  rewrite (ro_from _ _ _ _ _ _ HR) in Hd. destruct (pushed_extends HO HN _ _ Hd) as (d'&Hd'&En&_). exists d'. split; [done|lia].
Qed.

(** The numbers above the fork are taken out of the caches and of the index. *)
Lemma revert_moves : ∃ c5 E2,
  when (negb (top =? head)) (n ← block_number top; clearCachesDuringChainReversion (u32 (n + 1))) c4 = (Ok tt, c5) ∧ shows c5 E2 ∧ frame c5 = frame c ∧
  BloomsWf E2 ∧ levels_agree E2 ∧ (∀ k, (∀ n, tn < n <= N → k ∉ chunks n) → E2 !! k = E1 !! k) ∧
  (∀ m, in_level 0 m → bloom E2 0 m = if decide (tn < m <= N) then 0 else bloom E 0 m) ∧ (∀ n, tn < n → c_blockHashes c5 !! n = None).
Proof using HI HN S4 F4 HR Hi Hij Hj Hbest.
  destruct pushed_blooms as [HB HL]. pose proof head_small as Hs. unfold c_invalidNumber in Hs. destruct (Z.eqb_spec top head) as [He|Hne]; cbn [negb when].
  - assert (i = 0%nat) as ->.
    { destruct (ok_head _ _ _ _ _ HO) as (dh&Hh&Nh). apply (anc_inj (ok_tree _ _ _ _ _ HO) head dh); [done|lia|lia|]. by rewrite (ro_from _ _ _ _ _ _ HR), He. }
    exists c4, E1. do 5 (split; [done|]). split; [done|]. split.
    + intros m Hm. rewrite decide_False by lia. apply pushed_bloom.
    + intros n Hn. apply above_uncached; [done|lia].
  - destruct top_has as (d&Hd&Nd). assert (0 < i)%nat as Hi0. { destruct i; [|lia]. destruct Hne. by rewrite <-(ro_from _ _ _ _ _ _ HR). }
    destruct (has_gives (frame c) E1 top d Hd c4 S4 F4) as (c5&R5&S5&F5).
    assert (block_number top c4 = (Ok tn, c5)) as R5' by (unfold block_number; rewrite (bind_ok _ _ _ _ _ R5), <-Nd; done).
    assert (c_lastBlockNumber c5 = N) as E5 by (by injection F5). assert (c_extrasDB c5 = E) as D5 by (by injection F5).
    destruct (reversion_moves c5 E1 (tn + 1) S5) as (c6&E2&R&S6&F6&W&L&A&V&U); [intros n; rewrite D5; symmetry; by apply pushed_other|done|done|lia|lia|].
    rewrite E5 in *. exists c6, E2. rewrite (bind_ok _ _ _ _ _ R5'), u32_small by lia. do 2 (split; [done|]). split; [by rewrite F6|]. do 2 (split; [done|]).
    split; [intros k Hk; apply A; intros n Hn; apply Hk; lia|]. split.
    + intros m Hm. rewrite V, pushed_bloom by done. destruct (decide (tn + 1 <= m <= N)); [by rewrite decide_True by lia|by rewrite decide_False by lia].
    + intros n Hn. apply U; [lia|]. intros Hgt. by apply above_uncached.
Qed.

(** The headers of the blocks above the fork, from the new one downwards. *)
Lemma branch_headers : ∃ ts, h_hash <$> ts = hash :: path E j parent ∧ length ts = S j ∧
  ∀ k t, ts !! k = Some t → h_hash t = branch_block (number - Z.of_nat k) ∧ h_number t = number - Z.of_nat k ∧
    (∃ b', noted bp hd b (frame c) t b') ∧ block_bloom (<[hash := b]> D) (h_hash t) = header_bloom t.
Proof using HI HN Hj Hi Hij Hbest.
  destruct (path_headers _ _ _ _ _ j HO parent dp (nb_parent _ _ _ _ _ _ HN) Hj) as (ts&Hl&Hts). exists (hd :: ts).
  pose proof (number_pos HO HN) as Hpos. pose proof (nb_small _ _ _ _ _ _ HN) as Hsm. unfold c_invalidNumber in Hsm. pose proof (nb_number _ _ _ _ _ _ HN) as Hnum.
  split; [|split; [cbn; by rewrite Hl|]].
  - cbn [fmap list_fmap]. f_equal. apply list_eq_same_length with j; [by apply path_length|by rewrite length_fmap|]. intros k x y Hk Hx Hy.
    rewrite list_lookup_fmap in Hx. destruct (ts !! k) as [t|] eqn:Et; [|done]. injection Hx as <-. rewrite path_lookup in Hy by done. injection Hy as <-. by apply (Hts k t).
  - intros [|k] t Ht; cbn in Ht.
    + injection Ht as <-. unfold ChainInv.branch_block. replace (number - (number - Z.of_nat 0)) with 0 by lia. split; [done|]. split; [lia|].
      destruct (nb_bytes _ _ _ _ _ _ HN) as (Hb&hd'&H1&H2&H3&H4&H5&H6). split.
      * exists b. constructor; [by rewrite decide_True|apply HN|lia|apply HN].
      * unfold block_bloom. rewrite lookup_insert_eq. cbn [default from_option id]. by rewrite H1.
    + destruct (Hts k t Ht) as (Q1&Q2&Q3&dt&b'&Hdt&Hb). pose proof (lookup_lt_Some _ _ _ Ht) as Hk.
      unfold ChainInv.branch_block. replace (Z.to_nat (number - (number - Z.of_nat (S k)))) with (S k) by lia. split; [done|]. split; [lia|].
      assert (h_hash t ≠ hash) as Hne. { rewrite Q1 in *. by eapply (new_ne HN). } destruct Hb as [B1 B2 B3 B4 B5 B6 _ B7 B8]. split.
      * exists b'. constructor; [|done|lia|done]. rewrite decide_False by done. split; [|done]. unfold stored_block. cbn [frame f_genesisHash f_blocksDB].
        rewrite bool_decide_eq_false_2 by done. by rewrite B1.
      * unfold block_bloom. rewrite lookup_insert_ne by done. rewrite B1. cbn [default from_option id]. by rewrite B3.
Qed.

Lemma best_moves lb : ∃ c6 X E3,
  (when (negb (top =? head)) (n ← block_number top; clearCachesDuringChainReversion (u32 (n + 1))) ;;
   foldM (note_block bp hd b) (batch0 lb) (hash :: path E j parent)) c4 = (Ok X, c6) ∧ shows c6 E3 ∧ frame c6 = frame c ∧
  (∀ k, k.2 ≠ ExtraBlocksBlooms → E3 !! k = E1 !! k) ∧
  (∀ k, k.2 ≠ ExtraBlocksBlooms → k.2 ≠ ExtraTransactionAddress → (k.2 = ExtraBlockHash → ¬ tn < k.1 <= number) → X !! k = batch0 lb !! k) ∧
  (∀ n, tn < n <= number → X !! (n, ExtraBlockHash) = Some (blockHash_rlp (mkBlockHash (branch_block n)))) ∧
  (∀ h, (X ∪ E) !! (h, ExtraBlocksBlooms) = E3 !! (h, ExtraBlocksBlooms)) ∧ BloomsWf E3 ∧ levels_agree E3 ∧
  (∀ n, in_level 0 n → bloom E3 0 n = if decide (tn < n <= number) then block_bloom (<[hash := b]> D) (branch_block n) else bloom E 0 n) ∧
  (∀ n, tn < n → c_blockHashes c6 !! n = None).
Proof using HI HN S4 F4 HR Hi Hij Hj Hbest.
  destruct revert_moves as (c5&E2&R5&S5&F5&W2&L2&A2&V2&U2). destruct branch_headers as (ts&Hh&Hl&Hts).
  pose proof (number_pos HO HN) as Hpos. pose proof (nb_number _ _ _ _ _ _ HN) as Hnum.
  assert (∀ n, tn < n <= number → ∃ t, t ∈ ts ∧ h_number t = n) as Hin.
  { intros n Hn. destruct (lookup_lt_is_Some_2 ts (Z.to_nat (number - n))) as [t Ht]; [lia|]. exists t. split; [by eapply list_elem_of_lookup_2|].
    destruct (Hts _ _ Ht) as (_&->&_). lia. }
  assert (∀ t, t ∈ ts → tn < h_number t <= number ∧ h_hash t = branch_block (h_number t) ∧ block_bloom (<[hash := b]> D) (h_hash t) = header_bloom t) as Hout.
  { intros t (k&Hk)%list_elem_of_lookup. pose proof (lookup_lt_Some _ _ _ Hk). destruct (Hts k t Hk) as (Q1&Q2&_&Q3). rewrite Q2. split; [lia|done]. }
  destruct (notes_move bp hd b (frame c) ts) with (E := E2) (X := batch0 lb) as (E3&X&M&HE); [| |done|done|].
  { apply NoDup_alt. intros k k' n Hk Hk'. rewrite list_lookup_fmap in Hk, Hk'. destruct (ts !! k) as [t|] eqn:Et; [|done]. destruct (ts !! k') as [t'|] eqn:Et'; [|done].
    cbn in Hk, Hk'. destruct (Hts _ _ Et) as (_&Q&_). destruct (Hts _ _ Et') as (_&Q'&_). simplify_eq. lia. }
  { apply Forall_forall. intros t (k&Hk)%list_elem_of_lookup. by apply (Hts k t Hk). }
  destruct (M c5 S5 F5) as (c6&R6&S6&F6). rewrite Hh in R6. exists c6, X, E3. rewrite (bind_ok _ _ _ _ _ R5). do 3 (split; [done|]).
  assert (∀ k, (∀ n, tn < n <= number → k ∉ chunks n) → E3 !! k = E1 !! k ∧ (k.2 = ExtraBlocksBlooms → X !! k = batch0 lb !! k)) as Hoff.
  { intros k Hk. assert (∀ t, t ∈ ts → k ∉ chunks (h_number t)) as Hk' by (intros t Ht; apply Hk, Hout, Ht). split.
    - rewrite (ef_off _ _ _ _ _ HE) by done. apply A2. intros n Hn. apply Hk. lia.
    - intros Hkk. apply (ef_batch_out _ _ _ _ _ HE); [|by rewrite Hkk]. intros t Ht. split; [by apply Hk'|]. intros ->. done. }
  split; [intros k Hk; apply Hoff; intros n _ ?%chunks_kind; done|]. split.
  { intros k Hk Hta Hbh. apply (ef_batch_out _ _ _ _ _ HE); [|done]. intros t Ht. split; [by intros ?%chunks_kind|]. intros ->. apply Hbh; [done|]. by apply Hout. }
  split; [intros n Hn; destruct (Hin n Hn) as (t&Ht&<-); rewrite (ef_hash _ _ _ _ _ HE) by done; by destruct (Hout t Ht) as (_&->&_)|].
  split.
  { intros h. destruct (decide (Exists (λ t, (h, ExtraBlocksBlooms) ∈ chunks (h_number t)) ts)) as [(t&Ht&Hk)%Exists_exists|Hno].
    - destruct (ef_batch_in _ _ _ _ _ HE t _ Ht Hk) as [Hx [y Hy]]. rewrite lookup_union, Hx, Hy. by rewrite union_Some_l.
    - assert (∀ n, tn < n <= number → (h, ExtraBlocksBlooms) ∉ chunks n) as Hk.
      { intros n Hn Hc. apply Hno, Exists_exists. destruct (Hin n Hn) as (t&Ht&<-). by exists t. }
      destruct (Hoff _ Hk) as [-> Hx]. rewrite pushed_other by done. apply (union_other _ lb); auto. }
  split; [apply HE|]. split; [apply HE|]. split.
  - intros n Hn. destruct (decide (tn < n <= number)) as [Hr|Hr].
    + destruct (Hin n Hr) as (t&Ht&<-). rewrite (ef_bloom_in _ _ _ _ _ HE) by done. destruct (Hout t Ht) as (_&<-&->).
      assert (bloom E2 0 (h_number t) = 0) as ->; [|by rewrite Z.lor_0_r]. rewrite V2 by done. destruct (decide (tn < h_number t <= N)); [done|].
      rewrite (ok_index _ _ _ _ _ HO) by done. rewrite decide_False by lia. done.
    + rewrite (ef_bloom_out _ _ _ _ _ HE); [|done|intros (t&->&Ht)%list_elem_of_fmap; by apply Hr, Hout]. rewrite V2 by done. by rewrite decide_False by lia.
  - intros n Hn. pose proof (keeps_foldM (note_block bp hd b) (hash :: path E j parent) (batch0 lb)) as K.
    specialize (K (λ X i, keeps_note_block bp hd b X i) c5). rewrite R6 in K. cbn [snd] in K. rewrite K. by apply U2.
Qed.

Lemma best_inserted lb X E3 : 
  (∀ k, k.2 ≠ ExtraBlocksBlooms → k.2 ≠ ExtraTransactionAddress → (k.2 = ExtraBlockHash → ¬ tn < k.1 <= number) → X !! k = batch0 lb !! k) →
  (∀ n, tn < n <= number → X !! (n, ExtraBlockHash) = Some (blockHash_rlp (mkBlockHash (branch_block n)))) →
  (∀ h, (X ∪ E) !! (h, ExtraBlocksBlooms) = E3 !! (h, ExtraBlocksBlooms)) → BloomsWf E3 → levels_agree E3 →
  (∀ n, in_level 0 n → bloom E3 0 n = if decide (tn < n <= number) then block_bloom (<[hash := b]> D) (branch_block n) else bloom E 0 n) →
  Inserted (D := D) (E := E) (dp := dp) (hd := hd) (b := b) (td := td) true (X ∪ E) tn.
Proof using.
  intros Hx Hn Hs HB HL Hv. constructor.
  - intros h. rewrite (batch0_union _ lb); [apply batch0_details|]. by apply Hx.
  - intros h k Hk Hne. apply (union_other _ lb); [by destruct Hk as [->| ->]|by left|]. by apply Hx; destruct Hk as [->| ->].
  - intros n. destruct (decide _) as [[_ Hr]|Hr]; [rewrite lookup_union, Hn by done; by rewrite union_Some_l|].
    apply (union_other _ lb); [done|by right|]. apply Hx; try done. intros _ ?. by apply Hr.
  - by apply (same_wf Hs).
  - by apply (same_levels Hs).
  - intros n Hl. rewrite (same_bloom Hs), Hv by done. destruct (decide (tn < n <= number)); [by rewrite decide_True|by rewrite decide_False by (by intros [_ ?])].
Qed.
End Best.

(** ** The whole function *)

(** A chain with one block more; [best] says whether the block is the new head. *)
Record grown (best : bool) (c' : Chain) (r : ImportRoute) (txs : list Transaction) : Prop := mkGrown {
  gr_inv : ChainInv c';
  gr_genesis : bs_genesisHash (c_store c') = g;
  gr_header : bs_genesisHeaderBytes (c_store c') = bs_genesisHeaderBytes (c_store c);
  gr_blocks : bs_blocksDB (c_store c') = <[hash := b]> D;
  gr_details : ∀ h d, has (c_extrasDB c') h d ↔ (h = hash ∧ d = new_details hd td) ∨ (h ≠ hash ∧ has E1 h d);
  gr_head : c_lastBlockHash c' = if best then hash else head;
  gr_number : c_lastBlockNumber c' = if best then number else N;
  gr_txs : goodTranactions r = txs;
  gr_route : if best then ∃ i j top, route_of E head parent i j top ∧ (i <= Z.to_nat N)%nat ∧ (j <= Z.to_nat (d_number dp))%nat ∧
      deadBlocks r = path E i head ∧ liveBlocks r = reverse (hash :: path E j parent)
    else deadBlocks r = [] ∧ liveBlocks r = [] }.

Definition set_head (best : bool) (c6 : Chain) : Chain :=
  if best && negb (c_lastBlockHash c6 =? hash)
  then c6 <| c_lastBlockHash := hash |> <| c_lastBlockNumber := u32 number |> <| c_best := Some hash |> else c6.
Section Finish.
Context {best : bool} {c6 : Chain} {X E3 : Extras} {t0 : Z} (S6 : shows c6 E3) (F6 : frame c6 = frame c).
Context (HIn : Inserted (D := D) (E := E) (dp := dp) (hd := hd) (b := b) (td := td) best (X ∪ E) t0).
Context (H3 : ∀ k, k.2 ≠ ExtraBlocksBlooms → E3 !! k = E1 !! k) (Hbb : ∀ h, (X ∪ E) !! (h, ExtraBlocksBlooms) = E3 !! (h, ExtraBlocksBlooms)).
Context (Hbh : ∀ n, is_Some (c_blockHashes c6 !! n) → (X ∪ E) !! (n, ExtraBlockHash) = E !! (n, ExtraBlockHash)).
(** Nothing is cached about the new block. *)
Lemma fresh_uncached T {Y : Extra T} h : cache_shows T c6 E3 → extra_kind (T := T) = ExtraReceipts ∨ extra_kind (T := T) = ExtraLogBlooms →
  is_Some (extra_cache c6 !! h : option T) → h ≠ hash.
Proof using HO HN H3.
  intros Hc Hk [x Hx] ->. specialize (Hc hash). rewrite Hx in Hc. destruct Hc as [Hp _]. unfold present in Hp. rewrite H3, pushed_other in Hp by (by destruct Hk as [->| ->]).
  assert (is_Some (E !! (hash, ExtraDetails))) as [y Hq] by (apply (ok_receipts _ _ _ _ _ HO); destruct Hk as [Hk|Hk]; rewrite Hk in Hp; auto).
  by rewrite (nb_fresh _ _ _ _ _ _ HN) in Hq.
Qed.
Lemma cached_same T {Y : Extra T} : cache_shows T c6 E3 → extra_kind (T := T) = ExtraReceipts ∨ extra_kind (T := T) = ExtraLogBlooms → cached_agree T c6 E3 (X ∪ E).
Proof using HO HN H3 HIn.
  intros Hc Hk h Hh. rewrite H3, pushed_other by (by destruct Hk as [->| ->]). apply (in_receipts _ _ _ HIn); [done|]. by eapply fresh_uncached.
Qed.
Lemma commit_new : shows (write_out hash b X c6) (X ∪ E).
Proof using All.
  injection F6 as Eg Eh Eb Ec Ee Et Es El En. rewrite <-Ee. apply (commit_shows _ _ _ _ E3); rewrite ?Ee; [done|..].
  - destruct (bs_blocks (c_store c6) !! hash) as [x|] eqn:Ex; [|done]. destruct (sh_blocks _ _ S6 _ _ Ex) as [Hd _]. rewrite Eb in Hd.
    destruct (ok_known _ _ _ _ _ HO hash) as [[y Hp] _]; [by exists x|]. by rewrite (nb_fresh _ _ _ _ _ _ HN) in Hp.
  - intros h Hh. rewrite (in_details _ _ _ HIn). cbn [extra_kind details_extra]. rewrite H3 by done. apply lookup_insert_ne. intros [= <-].
    apply (cached_present _ _ _ (sh_details _ _ S6)) in Hh as [x Hx]. cbn [extra_kind details_extra] in Hx. rewrite H3 in Hx by done. unfold pushed in Hx.
    rewrite lookup_insert_ne, (nb_fresh _ _ _ _ _ _ HN) in Hx; [done|]. intros [= Hx']. by apply (new_ne HN _ _ (nb_parent _ _ _ _ _ _ HN)).
  - intros h Hh. cbn [extra_kind hash_extra]. rewrite H3, pushed_other by done. by apply Hbh.
  - intros h _. apply Hbb.
  - apply cached_same; [apply S6|by left].
  - apply cached_same; [apply S6|by right].
Qed.
(** From the shown entries after the branches to the result. *)
Lemma finish lh : (if best then N <= number else number <= N) →
  (best = true → ∃ i, (i <= Z.to_nat N)%nat ∧ t0 = N - Z.of_nat i ∧ 0 <= t0 <= d_number dp ∧ anc E (Z.to_nat (d_number dp - t0)) parent = anc E i head) →
  let c7 := (set_head best (write_out hash b X c6)) <| c_lastHashes := lh |> in
  ChainInv c7 ∧ bs_genesisHash (c_store c7) = g ∧ bs_blocksDB (c_store c7) = <[hash := b]> D ∧ c_extrasDB c7 = X ∪ E ∧
  c_lastBlockHash c7 = (if best then hash else head) ∧ c_lastBlockNumber c7 = (if best then number else N) ∧
  bs_genesisHeaderBytes (c_store c7) = bs_genesisHeaderBytes (c_store c).
Proof using All.
  intros Hbest Htop c7. assert (hash ≠ head) as Hnh. { destruct (ok_head _ _ _ _ _ HO) as (d&Hd&_). intros He. by apply (new_ne HN _ _ Hd). }
  pose proof (number_pos HO HN) as Hpos. pose proof (nb_small _ _ _ _ _ _ HN) as Hsm. unfold c_invalidNumber in Hsm.
  pose proof commit_new as Hsh. pose proof (after_ok HO HN _ _ _ HIn Hbest Htop) as Hok. injection F6 as Eg Eh Eb Ec Ee Et Es El En.
  assert (bs_genesisHash (c_store c7) = g ∧ bs_blocksDB (c_store c7) = <[hash := b]> D ∧ c_extrasDB c7 = X ∪ E ∧
    c_lastBlockHash c7 = (if best then hash else head) ∧ c_lastBlockNumber c7 = (if best then number else N) ∧ default g (c_best c7) = (if best then hash else head) ∧
    bs_genesisHeaderBytes (c_store c7) = bs_genesisHeaderBytes (c_store c)) as (Q1&Q2&Q3&Q4&Q5&Q6&Q7).
  { pose proof (ci_best _ HI) as Hcb. unfold c7, set_head. replace (c_lastBlockHash (write_out hash b X c6)) with head by (rewrite <-El; by destruct c6).
    destruct (Z.eqb_spec head hash); [congruence|]. rewrite u32_small by lia. rewrite <-Eb, <-Ee, <-Eg, <-Eh in *. rewrite <-Et in Hcb.
    destruct best; cbn [andb negb]; (split_and!; [by destruct c6..| |by destruct c6]); destruct c6; cbn in *; done. }
  split; [|done]. constructor; [|by rewrite Q1, Q2, Q3, Q4, Q5|by rewrite Q1, Q4, Q6|rewrite Q7; apply HI|rewrite Q1, Q7; apply HI].
  unfold Coherent. rewrite Q3. unfold c7, set_head. destruct (best && _); destruct Hsh; constructor; by destruct c6.
Qed.
End Finish.

(** The end of the function, once the branches are dealt with. *)
Lemma insert_tail (m : BC (Extras * list h256 * h256 * bool)) c4 c6 X route common best txs : m c4 = (Ok (X, route, common, best), c6) → ∃ lh,
  ('(extras, route, common, best) ← m;
   modS (λ c, c <| c_store ::= λ s, s <| bs_blocksDB ::= <[hash := b]> |> |> <| c_extrasDB ::= λ m, extras ∪ m |>) ;;
   modS (λ c, if best && negb (c_lastBlockHash c =? hash)
              then c <| c_lastBlockHash := hash |> <| c_lastBlockNumber := u32 number |> <| c_best := Some hash |> else c) ;;
   modS (λ c, if bool_decide (route = []) then c else c <| c_lastHashes := [] |>) ;;
   let '(dead, fresh) := split_route true common route in mret (mkRoute dead fresh txs)) c4 =
  (Ok (mkRoute (split_route true common route).1 (split_route true common route).2 txs), (set_head best (write_out hash b X c6)) <| c_lastHashes := lh |>).
Proof using.
  intros R. exists (if bool_decide (route = []) then c_lastHashes (set_head best (write_out hash b X c6)) else []). rewrite (bind_ok _ _ _ _ _ R). cbn beta iota.
  rewrite (bind_ok _ _ _ tt (write_out hash b X c6)) by done. rewrite (bind_ok _ _ _ tt (set_head best (write_out hash b X c6))) by done.
  generalize (set_head best (write_out hash b X c6)) as c7. intros c7.
  rewrite (bind_ok _ _ _ tt (c7 <| c_lastHashes := if bool_decide (route = []) then c_lastHashes c7 else [] |>)).
  - destruct (split_route true common route) as [dead fresh]. done.
  - unfold modS. case_bool_decide; by destruct c7.
Qed.
Lemma insert_grows ref isBest : vb_info ref = hd → (number <= N ∨ isBest = true) →
  ∃ c' r, insertBlockAndExtras bp ref b _receipts td isBest c = (Ok r, c') ∧ grown ((N <=? number) && isBest) c' r (vb_transactions ref).
Proof using HI HN.
  intros Href Hb. destruct push_moves as (c1&c2&R1&R2&R3&S2&F2). destruct (nb_receipts _ _ _ _ _ _ HN) as [lb Hlb].
  destruct (ok_head _ _ _ _ _ HO) as (dh&Hh&Nh). destruct (pushed_extends HO HN _ _ Hh) as (dh'&Hh'&Nh'&_).
  destruct (has_gives (frame c) E1 head dh' Hh' c2 S2 F2) as (c4&R4&S4&F4).
  pose proof (number_pos HO HN) as Hpos. pose proof (nb_small _ _ _ _ _ _ HN) as Hsm. unfold c_invalidNumber in Hsm. pose proof (nb_number _ _ _ _ _ _ HN) as Hnum.
  unfold insertBlockAndExtras. rewrite Href. rewrite (bind_ok _ _ _ c c) by done. rewrite (bind_ok _ _ _ _ _ R1). rewrite (bind_ok _ _ _ tt c2) by (unfold modS; by rewrite R2).
  rewrite (bind_ok _ _ _ _ _ R3). rewrite Hlb. rewrite (bind_ok _ _ _ lb c2) by done. rewrite (bind_ok _ _ _ _ _ R4). rewrite Nh', Nh.
  replace (mkDetails (u32 number) td parent []) with (new_details hd td) by (unfold new_details; by rewrite u32_small by lia). fold (batch0 (logBlooms_rlp (mkLogBlooms lb))). set (lbb := logBlooms_rlp (mkLogBlooms lb)).
  destruct ((N <=? number) && isBest) eqn:Hbest.
  - apply andb_prop in Hbest as [Hbest%Z.leb_le _].
    destruct (pushed_extends HO HN _ _ (nb_parent _ _ _ _ _ _ HN)) as (dp'&Hp'&Np'&_).
    destruct (treeRoute_gives (pushed_tree HO HN) (F := frame c) true true true head parent dh' dp' Hh' Hp') as (i&j&top&HR&Hij&Hi&Hj&Hg).
    rewrite Nh', Nh in *. rewrite Np' in *. pose proof (path_extends (ok_tree _ _ _ _ _ HO) (pushed_extends HO HN) i head dh Hh ltac:(lia)) as P1.
    pose proof (path_extends (ok_tree _ _ _ _ _ HO) (pushed_extends HO HN) j parent dp (nb_parent _ _ _ _ _ _ HN) ltac:(lia)) as P2.
    pose proof (anc_extends (ok_tree _ _ _ _ _ HO) (pushed_extends HO HN) i head dh Hh ltac:(lia)) as A1.
    pose proof (anc_extends (ok_tree _ _ _ _ _ HO) (pushed_extends HO HN) j parent dp (nb_parent _ _ _ _ _ _ HN) ltac:(lia)) as A2.
    assert (route_of E head parent i j top) as HR'. { destruct HR as [Q1 Q2 Q3]. rewrite A1 in Q1. rewrite A2 in Q2. rewrite P1, P2 in Q3. by constructor. }
    destruct (Hg c4 S4 F4) as (c5&R5&S5&F5). unfold route_list in R5. cbn [andb orb] in R5. rewrite P1, P2 in R5.
    destruct (best_moves S5 F5 HR' Hij Hi Hj Hbest lbb) as (c6&X&E3&R6&S6&F6&H3&Hx&Hn&Hs&W&L&V&U).
    apply bind_inv in R6 as ([]&c5'&R6a&R6b).
    assert (top ∉ hash :: path E j parent ∧ top ∉ path E i head) as [T1 T2].
    { destruct (top_has HR' Hij Hi Hj Hbest) as (dt&Hdt&Ndt).
      assert (∃ d0, has E top d0) as [d0 Hd0]. { destruct (anc_has (ok_tree _ _ _ _ _ HO) i head dh Hh) as (d0&Hd0&_); [lia|]. rewrite (ro_from _ _ _ _ _ _ HR') in Hd0. by exists d0. }
      split.
      - rewrite not_elem_of_cons. split; [by eapply (new_ne HN)|]. intros (k&Hk&Ek)%path_elem.
        assert (j = k); [|lia]. apply (anc_inj (ok_tree _ _ _ _ _ HO) parent dp); [apply HN|lia|lia|]. by rewrite (ro_to _ _ _ _ _ _ HR').
      - intros (k&Hk&Ek)%path_elem. assert (i = k); [|lia]. apply (anc_inj (ok_tree _ _ _ _ _ HO) head dh); [done|lia|lia|]. by rewrite (ro_from _ _ _ _ _ _ HR'). }
    set (rt := (path E i head ++ [top] ++ reverse (path E j parent)) ++ [hash]).
    assert (rt = path E i head ++ top :: reverse (hash :: path E j parent)) as Ert by (unfold rt; rewrite reverse_cons, <-(assoc_L (++)); done).
    assert (until_common top (reverse rt) = hash :: path E j parent) as Hu.
    { rewrite Ert, reverse_app, reverse_cons, reverse_involutive, <-(assoc_L (++)). by apply until_common_app. }
    destruct (insert_tail ('(route, common, _) ← treeRoute head parent true true true;
       let route := route ++ [hash] in
       when (negb (common =? head)) (n ← block_number common; clearCachesDuringChainReversion (u32 (n + 1))) ;;
       extras ← foldM (note_block bp hd b) (batch0 lbb) (until_common common (reverse route));
       mret (extras, route, common, true)) c4 c6 X rt top true (vb_transactions ref)) as [lh Rt].
    { rewrite (bind_ok _ _ _ _ _ R5). cbn beta iota zeta. rewrite (bind_ok _ _ _ _ _ R6a). fold rt. rewrite Hu. rewrite (bind_ok _ _ _ _ _ R6b). done. }
    eexists _, _. split; [exact Rt|].
    rewrite Ert. rewrite split_route_app by (done || by rewrite elem_of_reverse). cbn [fst snd].
    pose proof (best_inserted lbb X E3 Hx Hn Hs W L V) as HIn.
    destruct (finish S6 F6 HIn H3 Hs) with (lh := lh) as (Q1&Q2&Q3&Q4&Q5&Q6&Q7).
    + intros n [y Hy]. rewrite (union_other _ lbb); [done|done|by right|]. apply Hx; try done. intros _ Hr. rewrite U in Hy by (cbn in Hr; lia). done.
    + done.
    + intros _. exists i. split; [done|]. split; [done|]. split; [lia|]. replace (Z.to_nat (d_number dp - (N - Z.of_nat i))) with j by lia.
      by rewrite (ro_from _ _ _ _ _ _ HR'), (ro_to _ _ _ _ _ _ HR').
    + constructor; try done; [rewrite Q4; intros h d; apply (after_has HO HN HIn)|]. exists i, j, top. done.
  - assert (number <= N) as Hle. { destruct Hb as [Hb| ->]; [done|]. rewrite andb_true_r in Hbest. lia. }
    edestruct (insert_tail (mret (batch0 lbb, [], 0, false)) c4 c4) as [lh Rt]; [done|]. eexists _, _. split; [apply Rt|]. cbn [split_route fst snd].
    assert (∀ k, k.2 ≠ ExtraBlocksBlooms → E1 !! k = E1 !! k) as Htriv by done.
    destruct (finish S4 F4 (stored_inserted lbb 0) Htriv) with (lh := lh) as (Q1&Q2&Q3&Q4&Q5&Q6&Q7); try done.
    + intros h. rewrite pushed_other by done. apply (union_other _ lbb); auto.
    + intros n _. apply (union_other _ lbb); auto.
    + constructor; try done. rewrite Q4. intros h d. apply (after_has HO HN (stored_inserted lbb 0)).
Qed.
End Step.
(** ** The branch of the head *)

(** The blocks from the head down to the one above the genesis block. *)
Definition canon (c : Chain) : list h256 := path (c_extrasDB c) (Z.to_nat (c_lastBlockNumber c)) (c_lastBlockHash c).
Section Canon.
Context {c c' : Chain} (HI : ChainInv c) {dp : BlockDetails} {hd : BlockHeader} {b rc : bytes} {td : u256} {best : bool} {r : ImportRoute} {txs : list Transaction}.
Context (HN : NewBlock (c_extrasDB c) dp hd b rc td) (HG : grown (c := c) (dp := dp) (hd := hd) (b := b) (td := td) best c' r txs).
Lemma grown_extends : extends (c_extrasDB c) (c_extrasDB c').
Proof using HI HN HG.
  intros h d Hd. destruct (pushed_extends (ci_ok _ HI) HN h d Hd) as (d'&Hd'&En&Ep). exists d'. split; [|done]. apply (gr_details _ _ _ _ HG). right.
  split; [by eapply (new_ne HN)|done].
Qed.
(** The branch of the head changes at its upper end only. *)
Lemma grown_canon : ∃ common, canon c = deadBlocks r ++ common ∧ canon c' = reverse (liveBlocks r) ++ common ∧ (∀ x, x ∈ deadBlocks r → x ∉ liveBlocks r).
Proof using HI HN HG.
  pose proof (ci_ok _ HI) as HO. pose proof (ok_tree _ _ _ _ _ HO) as HT. destruct (ok_head _ _ _ _ _ HO) as (dh&Hh&Nh). pose proof (nb_parent _ _ _ _ _ _ HN) as Hp.
  pose proof (number_pos HO HN) as Hpos. pose proof (nb_number _ _ _ _ _ _ HN) as Hnum.
  pose proof grown_extends as HX. pose proof HG as [_ _ _ _ Hdet Hhead Hnumber _ Hroute]. unfold canon. rewrite Hhead, Hnumber. clear HG. destruct best.
  - destruct Hroute as (i&j&top&HR&Hi&Hj&->&->). rewrite reverse_involutive.
    assert (has (c_extrasDB c') (h_hash hd) (new_details hd td)) as Hnew by (apply Hdet; by left).
    destruct (anc_has HT i _ dh Hh) as (d1&H1&N1); [lia|]. destruct (anc_has HT j _ dp Hp) as (d2&H2&N2); [lia|].
    rewrite (ro_from _ _ _ _ _ _ HR) in H1. rewrite (ro_to _ _ _ _ _ _ HR) in H2. rewrite (has_inj _ _ _ _ H1 H2) in N1.
    exists (path (c_extrasDB c) (Z.to_nat (c_lastBlockNumber c) - i) top). split; [|split].
    + replace (Z.to_nat (c_lastBlockNumber c)) with (i + (Z.to_nat (c_lastBlockNumber c) - i))%nat at 1 by lia. rewrite path_add. by rewrite (ro_from _ _ _ _ _ _ HR).
    + replace (Z.to_nat (h_number hd)) with (S (Z.to_nat (d_number dp))) by lia. cbn [path]. rewrite (has_parent _ _ _ Hnew). cbn [d_parent new_details].
      rewrite (path_extends HT HX _ _ dp Hp) by lia. replace (Z.to_nat (d_number dp)) with (j + (Z.to_nat (c_lastBlockNumber c) - i))%nat by lia.
      rewrite path_add. by rewrite (ro_to _ _ _ _ _ _ HR).
    + intros x Hx. rewrite elem_of_reverse, not_elem_of_cons. split; [|by apply (ro_disjoint _ _ _ _ _ _ HR)].
      apply path_elem in Hx as (k&Hk&->). destruct (anc_has HT k _ dh Hh) as (d3&H3&_); [lia|]. by eapply (new_ne HN).
  - destruct Hroute as [-> ->]. exists (path (c_extrasDB c) (Z.to_nat (c_lastBlockNumber c)) (c_lastBlockHash c)). split; [done|]. split; [|by intros x ?%not_elem_of_nil].
    apply (path_extends HT HX _ _ dh Hh). lia.
Qed.
End Canon.

(** Only the databases and the head matter. *)
Lemma grown_frame c c0 dp hd b td best c' r txs : frame c = frame c0 →
  grown (c := c) (dp := dp) (hd := hd) (b := b) (td := td) best c' r txs → grown (c := c0) (dp := dp) (hd := hd) (b := b) (td := td) best c' r txs.
Proof.
  intros Hf [H1 H2 H2' H3 H4 H5 H6 H7 H8]. injection Hf as Eg Eh Eb Ec Ee Et Es El En. rewrite Eg, Eh, Eb, Ee, El, En in *. by constructor.
Qed.
End Grow.
