(* ===== verification/ChainImport.v ===== *)
(** * Importing a block

    What [bc_import] does on a chain that has the invariant: it only queries the chain until the
    block has passed every check, and then inserts a block that [ChainGrow] can deal with.  Collecting cached values and opening
    the databases keep the invariant as well. *)
From stdpp Require Import base gmap list list_numbers.
From Stdlib Require Import ZArith Lia.
From S2P Require Import Prelude Rlp RlpProofs Config Interfaces Receipts Transaction Account ChainState Vote Executive Turns Wire BlockHeader BlockHeaderProofs Blocks BlockVerify BlockVerifyProofs BlockChain ChainCodec ChainMemo ChainTree ChainBlooms ChainInsert ChainInv ChainGrow.
Open Scope Z_scope.

(** ** Queries of the stored blocks *)
Lemma on_store_bind {A B} (m : ST BlockStore A) (k : A → ST BlockStore B) c : on_store (m ≫= k) c = (on_store m ≫= λ x, on_store (k x)) c.
Proof.
  unfold on_store, mbind, ST_bind. by destruct (m (c_store c)) as [[x|e| | |] s].
Qed.
Definition store_reads {A : Type} (m : ST BlockStore A) : Prop := only_reads (on_store m).
Lemma store_bind {A B} (m : ST BlockStore A) (k : A → ST BlockStore B) : store_reads m → (∀ x, store_reads (k x)) → store_reads (m ≫= k).
Proof. intros Hm Hk c E Hc. rewrite on_store_bind. by apply reads_bind. Qed.
Lemma store_const {A} (r : outcome A) : store_reads (λ s, (r, s)).
Proof. intros c E Hc. unfold on_store. cbn [snd]. replace (c <| c_store := c_store c |>) with c by (by destruct c). done. Qed.
Lemma store_forM {A} (xs : list A) f : (∀ x, store_reads (f x)) → store_reads (forM xs f).
Proof. intros Hf. induction xs as [|x xs IH]; [apply store_const|]. cbn [forM]. by apply store_bind. Qed.
Ltac store_reads := repeat first
  [ apply headerData_reads | match goal with |- store_reads (_ ≫= _) => apply store_bind; [|intros ?] end | apply store_const | apply store_forM; intros ?
  | match goal with |- store_reads (if ?b then _ else _) => destruct b end ].
Section Verify.
Context `{CR : Crypto, CF : Config} (p : ChainParams) (hp : HeaderParams).
Lemma parent_reads w e h : store_reads (parent_for w e h).
Proof. unfold parent_for. store_reads. Qed.
Lemma uncle_reads ir u : store_reads (verify_uncle hp ir u).
Proof. unfold verify_uncle. store_reads; apply parent_reads. Qed.
Lemma verifyBlock_reads b ir : store_reads (verifyBlock p hp b ir).
Proof. unfold verifyBlock, when. store_reads; (apply parent_reads || apply uncle_reads). Qed.

(** Headers of the same bytes differ in the hash they remember at most. *)
Lemma populate_same d w w' h h' : populate d w = Ok h → populate d w' = Ok h' → h' = h <| h_hash := w' |>.
Proof.
  unfold populate. cbv beta zeta. intros E E'.
  ok_bind E x0 E0. ok_bind E x1 E1. ok_bind E x2 E2. ok_bind E x3 E3. ok_bind E x4 E4. ok_bind E x5 E5. ok_bind E x6 E6.
  ok_bind E x7 E7. ok_bind E x8 E8. ok_bind E x9 E9. ok_bind E x10 E10. ok_bind E x11 E11. ok_bind E x12 E12. ok_bind E x13 E13.
  ok_bind E x14 E14. ok_bind E sl Es. injection E as <-.
  cbn [mbind outcome_bind] in E'. by injection E' as <-.
Qed.
Lemma populate_hash d w h : populate d w = Ok h → h_hash h = w.
Proof. intros H. rewrite (populate_same _ _ w _ _ H H). by destruct h. Qed.
End Verify.

(** ** Known blocks *)
Section Known.
Context `{CR : Crypto, CF : Config, ST_ : !StorageTrie, RN : Rng, CO : !AccountCodec}.
Context (bp : BlockChainParams) (c0 : Chain) (HI : ChainInv c0).
Abbreviation E := (c_extrasDB c0).
Abbreviation F := (frame c0).
Let HO := ci_ok c0 HI.
Lemma isKnown_gives h cur : gives F E (isKnown h cur) (Ok (bool_decide (is_Some (E !! (h, ExtraDetails))))).
Proof using HO.
  apply gives_get. intros c Hc HF. injection HF as Eg Eh Eb Ec Ee Et Es El En. rewrite Eg. case_bool_decide as H1.
  { subst h. destruct (t_root _ _ (ok_tree _ _ _ _ _ HO)) as (d&Hd&_). rewrite bool_decide_eq_true_2 by (by eapply has_some). apply gives_ret. }
  assert (map_count (c_cached_bytes c) h = false) as ->. { unfold map_count. rewrite (sh_bytes _ _ Hc), lookup_empty. done. }
  assert (is_Some (bs_blocksDB (c_store c0) !! h) ↔ is_Some (E !! (h, ExtraDetails))) as Hiff.
  { split; [by intros [? _]%(ok_known _ _ _ _ _ HO)|]. intros (d&Hd)%(ok_read _ _ _ _ _ HO). destruct (ok_blocks _ _ _ _ _ HO h d Hd H1) as (b&hd&[? _ _ _ _ _ _ _ _]). by exists b. }
  assert (negb (map_count (bs_blocks (c_store c)) h) && negb (map_count (bs_blocksDB (c_store c)) h) = bool_decide (bs_blocksDB (c_store c0) !! h = None)) as ->.
  { unfold map_count. rewrite Eb. destruct (bs_blocks (c_store c) !! h) as [x|] eqn:Ex.
    - destruct (sh_blocks _ _ Hc _ _ Ex) as [Hd _]. rewrite Eb in Hd. by rewrite Hd.
    - by destruct (bs_blocksDB (c_store c0) !! h). }
  destruct (E !! (h, ExtraDetails)) as [y|] eqn:Ey.
  - destruct (proj2 Hiff) as [x Hx]; [by eexists|]. rewrite Hx. rewrite bool_decide_eq_false_2 by done. rewrite Ee, Ey.
    rewrite (bool_decide_eq_true_2 (is_Some (Some y))) by (by eexists). rewrite andb_false_r. cbn [negb]. destruct cur; [|apply gives_ret]. cbn [negb].
    destruct (ok_read _ _ _ _ _ HO h) as [d Hd]; [by eexists|]. eapply gives_bind; [eapply gives_bind; [by apply has_gives|apply gives_ret]|].
    apply gives_get. intros c2 _ HF2. replace (c_lastBlockNumber c2) with (c_lastBlockNumber c0) by (injection HF2; congruence).
    pose proof (ok_top _ _ _ _ _ HO _ _ Hd). rewrite (proj2 (Z.leb_le _ _)) by done. apply gives_ret.
  - destruct (bs_blocksDB (c_store c0) !! h) as [x|]; [destruct (proj1 Hiff) as [? ?]; [by eexists|done]|].
    rewrite bool_decide_eq_true_2 by done. rewrite (bool_decide_eq_false_2 (is_Some None)) by (by intros [? ?]). apply gives_ret.
Qed.
Lemma info_gives h : gives F E (info h) (d ← stored_header F h; header_of_data d 0).
Proof using.
  unfold info. intros c Hc HF. destruct (headerData_gives h c Hc HF) as (c1&R&S1&F1). destruct (stored_header F h) as [d|e| | |] eqn:Es.
  - rewrite (bind_ok _ _ _ _ _ R). by exists c1.
  - exists c1. unfold mbind, ST_bind. by rewrite R.
  - exists c1. unfold mbind, ST_bind. by rewrite R.
  - exists c1. unfold mbind, ST_bind. by rewrite R.
  - exists c1. unfold mbind, ST_bind. by rewrite R.
Qed.
(** The header of a known block, with whatever hash it is given. *)
Lemma known_header h d hb w hh : has E h d → stored_header F h = Ok hb → header_of_data hb w = Ok hh →
  h_number hh = d_number d ∧ 0 <= h_timestamp hh ∧ (w ≠ 0 → h_hash hh = w) ∧ (w = 0 → h_hash hh = h).
Proof using HO HI.
  intros Hd Hs Hh. assert (w ≠ 0 → h_hash hh = w) as Hw.
  { intros Hw. unfold header_of_data in Hh. ok_bind Hh x Ex. rewrite bool_decide_eq_true_2 in Hh by done. by apply populate_hash in Hh. }
  assert (w = 0 → h_hash hh = sha3 hb) as Hw0.
  { intros ->. unfold header_of_data in Hh. ok_bind Hh x Ex. apply RLP_same in Ex as ->. by apply populate_hash in Hh. }
  revert Hs. unfold stored_header. cbn [frame f_genesisHash f_genesisHeaderBytes f_blocksDB]. case_bool_decide as Hg.
  - intros [= <-]. destruct (ci_genesis _ HI w hh Hh) as [Hn Ht]. split; [|split; [done|split; [done|]]; by rewrite Hg, (ci_genesisHash _ HI)]. destruct (t_root _ _ (ok_tree _ _ _ _ _ HO)) as (dg&Hdg&Hz).
    rewrite Hg in Hd. rewrite (has_inj _ _ _ _ Hd Hdg). congruence.
  - destruct (ok_blocks _ _ _ _ _ HO h d Hd Hg) as (b&hd&[B1 B2 B3 B4 B5 B6 B7 B8 B9]). rewrite B1. cbn [default from_option id]. rewrite bool_decide_eq_false_2 by done. intros Hx.
    unfold header_of_block in B3. rewrite Hx in B3. cbn [mbind outcome_bind] in B3. unfold header_of_data in Hh. ok_bind Hh x Ex. apply RLP_same in Ex as ->.
    rewrite <-B5. rewrite (populate_same _ _ _ _ _ B3 Hh) in Hw, Hw0 |- *. split; [by destruct hd|]. split; [by destruct hd|]. split; [done|].
    intros Hw'. rewrite (Hw0 Hw'), <-B4. symmetry. by apply populate_hash in B3.
Qed.
Lemma header_lookup c h r s' : shows c E → frame c = F → headerData h (c_store c) = (r, s') → r = stored_header F h.
Proof using.
  intros Hc HF R. destruct (headerData_gives h c Hc HF) as (c'&Rg&_). unfold on_store in Rg. rewrite R in Rg. by injection Rg.
Qed.
Lemma root_entries b h root txl x : RLP b = Ok root → item root 1 = Ok txl → transactions_root txl = Ok x → ∃ es, tx_entries h b = Ok es.
Proof using.
  intros Hr Ht Hx. unfold transactions_root in Hx. ok_bind Hx n Hn. ok_bind Hx txs Htx. unfold tx_entries. rewrite Hr. cbn [mbind outcome_bind].
  rewrite Ht. cbn [mbind outcome_bind]. rewrite Hn. cbn [mbind outcome_bind]. clear Hx Hn. revert txs Htx.
  generalize (seq 0 (Z.to_nat n)) as l. induction l as [|i l IH]; intros txs Htx; [by exists []|]. cbn [mapO] in *. ok_bind Htx y Hy. ok_bind Htx ys Hys.
  destruct (IH _ eq_refl) as [es Hes]. rewrite Hes. cbn [mbind outcome_bind]. by eexists.
Qed.
(** What the checks on the chain establish. *)
Lemma in_order_ok c b res c' h dp : shows c E → frame c = F → Forall is_byte b → len b < 2 ^ 32 →
  verify_on_chain bp b IR_InOrderChecks c = (Ok res, c') → header_of_block b = Ok h → has E (h_parentHash h) dp →
  h_number h = d_number dp + 1 ∧ 0 <= h_timestamp h ∧ ∃ es, tx_entries (h_hash h) b = Ok es.
Proof using HO HI.
  intros Hc HF Hb Hl R Hh Hp. unfold verify_on_chain, on_store in R. destruct (verifyBlock _ _ _ _ _) as [r s'] eqn:Rv. injection R as -> _. revert Rv. unfold verifyBlock.
  intros R. apply bind_inv in R as (h0&s1&R1&R). injection R1 as E1 <-. rewrite Hh in E1. injection E1 as <-.
  change (ir_has IR_InOrderChecks IR_PostGenesis) with false in R. cbn [andb] in R. change (ir_has IR_InOrderChecks IR_Parent) with true in R. change (ir_has IR_InOrderChecks IR_ValidSeal) with false in R.
  apply bind_inv in R as (parent&s2&R1&R). unfold parent_for in R1. apply bind_inv in R1 as (ph&s3&R1&R2). apply header_lookup in R1; [|done..].
  case_bool_decide; [done|]. injection R2 as R2 _. destruct (t_wf _ _ (ok_tree _ _ _ _ _ HO) _ _ Hp) as (_&_&Hz).
  destruct (known_header (h_parentHash h) dp ph (h_parentHash h) parent Hp (eq_sym R1) R2) as (Hn&Ht&Hw&_). specialize (Hw Hz).
  apply bind_inv in R as (h'&s4&R3&_). injection R3 as R3 _. unfold verified_header in R3. destruct (seal_verify _ _ _ _ _) as [rv hv] eqn:Ev. ok_bind R3 u Eu. subst rv. destruct u.
  destruct (header_of_block_wf _ _ Hb Hl Hh) as [Hwf Hm].
  assert (accepted (bp_headers bp) QuickNonce parent b h) as [_ _ _ Hpar Hcont _].
  { apply seal_verify_iff; [by rewrite Hw|done|done|by rewrite Ev]. }
  assert (header_bool parent = true) as Hbool. { unfold header_bool. destruct (Z.eqb_spec (h_timestamp parent) (-1)); [lia|done]. }
  destruct (Hpar Hbool) as [(_&Hts&Hnum) _]. split; [lia|]. split; [lia|].
  assert (b ≠ []) as Hne by (intros ->; done). destruct (Hcont Hne) as (root&txl&unc&Q1&Q2&Q3&_). by eapply root_entries.
Qed.
End Known.

(** Three bits of 2048. *)
Lemma bit_bloom i : 0 <= i < 2048 → is_bloom (Z.shiftl 1 i).
Proof.
  intros Hi. unfold is_bloom. change (256 ^ 256) with (2 ^ 2048). rewrite Z.shiftl_1_l. split; [apply Z.pow_nonneg; lia|]. apply Z.pow_lt_mono_r; lia.
Qed.
Lemma bloomPart_bloom h : is_bloom (bloomPart h).
Proof.
  assert (∀ i, 0 <= bloom_index h i < 2048) as Hi.
  { intros i. unfold bloom_index. change 2047 with (Z.ones 11). rewrite Z.land_ones by lia. apply Z.mod_pos_bound. lia. }
  unfold bloomPart. repeat apply lor_bloom; apply bit_bloom, Hi.
Qed.

(** ** What only queries *)
Lemma isKnown_reads h cur : only_reads (isKnown h cur).
Proof. unfold isKnown, block_number, details. reads. Qed.
Lemma info_reads `{CR : Crypto} h : only_reads (info h).
Proof. unfold info. reads. Qed.
#[export] Hint Resolve isKnown_reads info_reads : chain.
Lemma inv_reads `{CR : Crypto} c c' : ChainInv c → shows c' (c_extrasDB c) → frame c' = frame c → ChainInv c'.
Proof.
  intros [H1 H2 H3 H4 H5] Hs Hf. injection Hf as Eg Eh Eb Ec Ee Et Es El En. constructor; rewrite ?Eg, ?Eh, ?Eb, ?Ee, ?Et, ?El, ?En; try done.
  unfold Coherent. by rewrite Ee.
Qed.

(** The first part of a computation only queries. *)
Definition unchanged {A : Type} (E : Extras) (F : Frame) (Q : A → Chain → Prop) (r : outcome A * Chain) : Prop :=
  match r with (Ok x, c') => Q x c' | (_, c') => shows c' E ∧ frame c' = F end.
Lemma step_reads {A B} (m : BC A) (k : A → BC B) c E (Q : B → Chain → Prop) : only_reads m → shows c E →
  (∀ x c1, m c = (Ok x, c1) → shows c1 E → frame c1 = frame c → unchanged E (frame c) Q (k x c1)) → unchanged E (frame c) Q ((m ≫= k) c).
Proof.
  intros Hm Hc Hk. destruct (Hm c E Hc) as [H1 F1]. unfold mbind, ST_bind. destruct (m c) as [[x|e| | |] c1]; cbn [snd] in *; try done. by apply Hk.
Qed.

(** What the chain relies on [Block] for: it only queries the chain, and its receipts can be
    written. *)
Class BlockFaceLaws (BF : BlockFace) : Prop := {
  populate_reads : ∀ h, only_reads (populateFromChain h);
  enact_reads : ∀ ref b, only_reads (enactOn ref b);
  enact_receipts : ∀ ref b c x c', enactOn ref b c = (Ok x, c') → receipts_ok x.2 }.

Section Importing.
Context `{CR : Crypto, CF : Config, ST_ : !StorageTrie, RN : Rng, CO : !AccountCodec, BF : BlockFace, BL : !BlockFaceLaws BF}.
Context (bp : BlockChainParams).
Hint Resolve populate_reads enact_reads : chain.
Lemma verify_reads b ir : only_reads (verify_on_chain bp b ir).
Proof using. exact (verifyBlock_reads (bp_operations bp) (bp_headers bp) b ir). Qed.
Lemma author_reads i s l l' : only_reads (check_author bp i s l l').
Proof using. unfold check_author, reads_state. reads. Qed.
Hint Resolve verify_reads author_reads : chain.
Lemma replace_reads ref : only_reads (verifyReplaceMiner bp ref).
Proof using BL. unfold verifyReplaceMiner, current_info, reads_state. reads. Qed.
Lemma new_reads ref : only_reads (checkBlockIsNew ref).
Proof using. unfold checkBlockIsNew. reads. Qed.
Lemma timestamp_reads now h : only_reads (checkBlockTimestamp bp now h).
Proof using. unfold checkBlockTimestamp. reads. Qed.
Hint Resolve replace_reads new_reads timestamp_reads : chain.

Section Step.
Context {c0 : Chain} (HI : ChainInv c0).
Abbreviation E := (c_extrasDB c0).
Abbreviation F := (frame c0).
Abbreviation N := (c_lastBlockNumber c0).
Let HO := ci_ok c0 HI.

(** Which block becomes the head, once there is a head beside the genesis block. *)
Definition fork_rule (info_ head : BlockHeader) (exe standby : list PollData) : bool :=
  if replaceMinerHeight <=? h_number info_ then
    if h_parentHash info_ =? h_hash head then true
    else if h_number info_ <? h_number head then false
    else if h_number info_ =? h_number head then replaces (h_author info_) (h_author head) exe standby
    else h_number info_ =? h_number head + 1
  else true.
(** The header the head's bytes decode to. *)
Definition head_header (hh : BlockHeader) : Prop := (d ← stored_header F (c_lastBlockHash c0); header_of_data d 0) = Ok hh.
Lemma head_info c r c' : shows c E → frame c = F → current_info c = (Ok r, c') → head_header r ∧ h_number r = N ∧ h_hash r = c_lastBlockHash c0 ∧ shows c' E ∧ frame c' = F.
Proof using HI HO.
  intros Hc HF R. unfold current_info in R. apply bind_inv in R as (c1&c2&[= <- <-]&R). replace (c_lastBlockHash c) with (c_lastBlockHash c0) in R by (by injection HF).
  destruct (info_gives c0 (c_lastBlockHash c0) c Hc HF) as (c3&Rg&S3&F3). rewrite R in Rg. injection Rg as Rr <-. symmetry in Rr. split; [exact Rr|]. ok_bind Rr d Ed.
  destruct (ok_head _ _ _ _ _ HO) as (dh&Hh&Nh). destruct (known_header c0 HI _ dh d 0 r Hh Ed Rr) as (Q1&_&_&Q2). split; [congruence|]. split; [by apply Q2|done].
Qed.
(** The state, the head and the lists of producers and stand-bys an author was judged by. *)
Record judged (info_ : BlockHeader) (s : State) (hh : BlockHeader) (exe standby : list PollData) : Prop := mkJudged {
  ju_head : head_header hh; ju_number : h_number hh = N; ju_hash : h_hash hh = c_lastBlockHash c0;
  ju_state : ∃ c c', shows c E ∧ frame c = F ∧
    populateFromChain (if replaceMinerHeight <=? h_number info_ then h_parentHash info_ else h_parentHash hh) c = (Ok s, c');
  ju_exe : (vote_data SysVarlitorAddress s).1 = Ok exe; ju_standby : (vote_data SysCanlitorAddress s).1 = Ok standby;
  ju_author : ∃ c c', check_author bp info_ s exe standby c = (Ok tt, c') }.
Lemma replace_rule ref c r c' : shows c E → frame c = F → verifyReplaceMiner bp ref c = (Ok r, c') →
  (N = 0 ∧ r = true) ∨ ∃ s head exe standby, judged (vb_info ref) s head exe standby ∧ r = fork_rule (vb_info ref) head exe standby.
Proof using HI HO BL.
  intros Hc HF R. unfold verifyReplaceMiner in R. apply bind_inv in R as (hh&c1&R1&R). destruct (head_info _ _ _ Hc HF R1) as (Hd1&Hn&_&S1&F1).
  destruct (Z.eqb_spec (h_number hh) 0) as [Hz|Hz]; [injection R as <- <-; left; split; [congruence|done]|right].
  apply bind_inv in R as (s&c2&R2&R). set (m := if _ : bool then _ else _) in R2. assert (only_reads m) as Hm by (unfold m; reads). destruct (Hm c1 E S1) as [S2 F2].
  rewrite R2 in S2, F2. cbn [snd] in *.
  assert (populateFromChain (if replaceMinerHeight <=? h_number (vb_info ref) then h_parentHash (vb_info ref) else h_parentHash hh) c1 = (Ok s, c2)) as Hs.
  { unfold m in R2. destruct (replaceMinerHeight <=? h_number (vb_info ref)); [|done]. unfold try_catch in R2.
    destruct (populateFromChain (h_parentHash (vb_info ref)) c1) as [[x|e| | |] c3]; try done. }
  apply bind_inv in R as (exe&c3&R3&R). injection R3 as R3 <-. apply bind_inv in R as (sb&c4&R4&R). injection R4 as R4 <-.
  apply bind_inv in R as ([]&c5&R5&R). destruct (author_reads (vb_info ref) s exe sb c2 E S2) as [S5 F5]. rewrite R5 in S5, F5. cbn [snd] in *.
  apply bind_inv in R as (h2&c6&R6&R). destruct (head_info c5 h2 c6 S5 ltac:(congruence) R6) as (Hd2&Hn2&Hh2&_). injection R as <- <-.
  assert (h2 = hh) as -> by (unfold head_header in *; congruence).
  exists s, hh, exe, sb. split; [|done]. constructor; try done; [by exists c1, c2|by exists c2, c5].
Qed.

(** ** A block is imported *)

(** [ref] describes the bytes, as verification leaves it. *)
Record described (ref : VerifiedBlockRef) (b : bytes) : Prop := mkDescribed {
  de_bytes : Forall is_byte b; de_len : len b < 2 ^ 32;
  de_header : ∃ h, header_of_block b = Ok h ∧ vb_info ref = remembered h;
  de_hash : 0 < h_hash (vb_info ref) < 2 ^ 256 }.
(** Numbers are far from the end of their type, and no block has 2^50 children. *)
Definition room_left : Prop := N + 1 < c_invalidNumber ∧ ∀ h d, has E h d → len (d_children d) + 1 < 2 ^ 50.
(** The order of authors: a producer comes before a stand-by, stand-bys come in the order of
    their list, and nobody comes before a producer. *)
Definition precedes (exe standby : list Address) (a a' : Address) : Prop :=
  a' ∉ exe ∧ (a ∈ exe ∨ ∃ i, standby !! i = Some a ∧ ∀ j, (j < i)%nat → standby !! j ≠ Some a').
Lemma stands_before_spec a a' l : stands_before a a' l = true ↔ ∃ i, (m_addr <$> l) !! i = Some a ∧ ∀ j, (j < i)%nat → (m_addr <$> l) !! j ≠ Some a'.
Proof using.
  induction l as [|v l IH]; cbn [stands_before]; [split; [done|by intros (i&Hi&_)]|]. destruct (Z.eqb_spec (m_addr v) a) as [He|He].
  - split; [|done]. intros _. exists 0%nat. split; [by rewrite <-He|]. intros j Hj. lia.
  - destruct (Z.eqb_spec (m_addr v) a') as [He'|He'].
    + split; [done|]. intros ([|i]&Hi&Hj); [by injection Hi|]. by destruct (Hj 0%nat ltac:(lia)); rewrite <-He'.
    + rewrite IH. split.
      * intros (i&Hi&Hj). exists (S i). split; [done|]. intros [|j] Hl; [by intros [=]|]. apply Hj. lia.
      * intros ([|i]&Hi&Hj); [by injection Hi|]. exists i. split; [done|]. intros j Hl. apply (Hj (S j)). lia.
Qed.
Lemma replaces_spec a a' exe standby : replaces a a' exe standby = true ↔ precedes (m_addr <$> exe) (m_addr <$> standby) a a'.
Proof using.
  unfold replaces, precedes, is_miner. rewrite <-stands_before_spec. repeat case_bool_decide; naive_solver.
Qed.
(** Which block is the head afterwards: a higher one, and of two of the same height the one
    whose author comes first. *)
Definition chosen (info_ : BlockHeader) (best : bool) : Prop :=
  h_number info_ = N + 1 ∧ best = true ∨ h_number info_ < N ∧ best = false ∨
  h_number info_ = N ∧ h_number info_ < replaceMinerHeight ∧ best = true ∨
  h_number info_ = N ∧ replaceMinerHeight <= h_number info_ ∧ ∃ s hh exe standby, judged info_ s hh exe standby ∧
    (best = true ↔ precedes (m_addr <$> exe) (m_addr <$> standby) (h_author info_) (h_author hh)).
Record block_imported (ref : VerifiedBlockRef) (b : bytes) (r : ImportRoute) (c' : Chain) : Prop := mkImported {
  im_grown : ∃ dp rc td best, NewBlock E dp (vb_info ref) b rc td ∧ chosen (vb_info ref) best ∧
    grown (c := c0) (dp := dp) (hd := vb_info ref) (b := b) (td := td) best c' r (vb_transactions ref);
  im_author : 0 < N → ∃ s hh exe standby, judged (vb_info ref) s hh exe standby }.

Lemma remembered_fields h : h_hash (remembered h) = h_hash h ∧ h_number (remembered h) = h_number h ∧ h_parentHash (remembered h) = h_parentHash h ∧
  header_bloom (remembered h) = header_bloom h ∧ h_timestamp (remembered h) = h_timestamp h.
Proof using. unfold remembered. destruct (h_number h <=? 0); by destruct h. Qed.
Lemma new_block ref b c res c' dp td br : shows c E → frame c = F → described ref b → room_left → E !! (h_hash (vb_info ref), ExtraDetails) = None →
  has E (h_parentHash (vb_info ref)) dp → verify_on_chain bp b IR_InOrderChecks c = (Ok res, c') → in256 td → receipts_ok br →
  NewBlock E dp (vb_info ref) b (receipts_rlp (mkReceipts br)) td.
Proof using HI HO.
  intros Hc HF [Hb Hl (h&Hh&Hv) Hhash] [HN Hroom] Hfresh Hp R Htd Hbr. rewrite Hv in *. destruct (remembered_fields h) as (R1&R2&R3&R4&R5). rewrite R1, R3 in *.
  destruct (in_order_ok bp c0 HI c b res c' h dp Hc HF Hb Hl R Hh Hp) as (Hn&Ht&Htx). pose proof (ok_top _ _ _ _ _ HO _ _ Hp).
  destruct (header_of_block_wf _ _ Hb Hl Hh) as [Hw _].
  constructor; rewrite ?R1, ?R2, ?R3, ?R4; try done.
  - lia.
  - by eapply Hroom.
  - unfold in256, M256. lia.
  - split; [by intros ->|]. by exists h.
  - unfold header_bloom, shiftBloom. apply lor_bloom; [apply Hw|apply bloomPart_bloom].
  - exists (r_bloom <$> br). by apply receipt_blooms_back.
Qed.
Lemma best_choice ref dp b rc td ib : NewBlock E dp (vb_info ref) b rc td →
  (N = 0 ∧ ib = true) ∨ (∃ s head exe standby, judged (vb_info ref) s head exe standby ∧ ib = fork_rule (vb_info ref) head exe standby) →
  let isBest := if h_number (vb_info ref) <? replaceMinerHeight then true else ib in
  chosen (vb_info ref) ((N <=? h_number (vb_info ref)) && isBest) ∧ (h_number (vb_info ref) <= N ∨ isBest = true).
Proof using HI HO.
  intros HN Hrule isBest. pose proof (number_pos HO HN) as Hpos. set (i := vb_info ref) in *. unfold chosen. unfold isBest. clear isBest.
  destruct (Z.ltb_spec (h_number i) replaceMinerHeight) as [Hr|Hr].
  { rewrite andb_true_r. split; [|by right]. destruct (Z.leb_spec N (h_number i)); [|right; left; lia].
    destruct (decide (h_number i = N + 1)); [by left|]. right. right. left. lia. }
  destruct Hrule as [[Hz ->]|(s&hh&exe&sb&Hj&->)].
  { rewrite andb_true_r. split; [|by right]. left. split; [lia|]. apply Z.leb_le. lia. }
  unfold fork_rule. rewrite (proj2 (Z.leb_le _ _) Hr), (ju_number _ _ _ _ _ Hj), (ju_hash _ _ _ _ _ Hj).
  assert (h_number i = N + 1 → (if h_parentHash i =? c_lastBlockHash c0 then true else if h_number i <? N then false else
    if h_number i =? N then replaces (h_author i) (h_author hh) exe sb else h_number i =? N + 1) = true) as Hup.
  { intros Hup. destruct (h_parentHash i =? c_lastBlockHash c0); [done|]. destruct (Z.ltb_spec (h_number i) N); [lia|]. destruct (Z.eqb_spec (h_number i) N); [lia|]. by apply Z.eqb_eq. }
  destruct (decide (h_number i = N + 1)) as [He|He].
  { rewrite (Hup He), andb_true_r. split; [|by right]. left. split; [done|]. apply Z.leb_le. lia. }
  split; [|left; lia]. right. destruct (Z.leb_spec N (h_number i)) as [Hle|Hlt]; [|by left]. assert (h_number i = N) as Heq by lia. right. right. split; [done|]. split; [done|].
  exists s, hh, exe, sb. split; [done|]. cbn [andb]. destruct (Z.eqb_spec (h_parentHash i) (c_lastBlockHash c0)) as [Hp|_].
  - exfalso. destruct (ok_head _ _ _ _ _ HO) as (dh&Hh&Nh). pose proof (nb_parent _ _ _ _ _ _ HN) as Hpd. fold i in Hpd. rewrite Hp in Hpd.
    rewrite (has_inj _ _ _ _ Hpd Hh) in HN. pose proof (nb_number _ _ _ _ _ _ HN) as Hnn. fold i in Hnn. lia.
  - rewrite (proj2 (Z.ltb_ge _ _)), (proj2 (Z.eqb_eq _ _)) by lia. apply replaces_spec.
Qed.
Lemma import_step ref b now c : shows c E → frame c = F → described ref b → room_left → unchanged E F (block_imported ref b) (bc_import bp ref b now true c).
Proof using HI HO BL.
  intros Hc HF Hd Hroom. rewrite <-HF. unfold bc_import, when. apply step_reads; [reads|done|]. intros [] c1 R1 S1 F1. rewrite <-F1.
  assert (E !! (h_hash (vb_info ref), ExtraDetails) = None) as Hfresh.
  { unfold checkBlockIsNew in R1. apply bind_inv in R1 as (known&c2&R1&R2). destruct (isKnown_gives c0 HI (h_hash (vb_info ref)) true c Hc HF) as (c3&Rg&_).
    rewrite R1 in Rg. injection Rg as -> _. destruct (E !! (h_hash (vb_info ref), ExtraDetails)); [|done]. rewrite bool_decide_eq_true_2 in R2 by (by eexists). done. }
  apply step_reads; [reads|done|]. intros known c2 R2 S2 F2. destruct (isKnown_gives c0 HI (h_parentHash (vb_info ref)) false c1 S1 ltac:(congruence)) as (c2'&Rg&_).
  rewrite R2 in Rg. injection Rg as -> _. case_bool_decide as Hk; [|by split]. cbn [negb]. destruct (ok_read _ _ _ _ _ HO _ Hk) as [dp Hp].
  unfold execute_block. rewrite <-F2. apply step_reads; [unfold details; reads|done|]. intros pd c3 R3 S3 F3. rewrite <-F3.
  destruct (has_gives F E _ dp Hp c2 S2 ltac:(congruence)) as (c3'&Rg&_). rewrite R3 in Rg. injection Rg as -> _.
  destruct (t_wf _ _ (ok_tree _ _ _ _ _ HO) _ _ Hp) as (_&Hni&_). unfold details_isNull. destruct (Z.eqb_spec (d_number dp) c_invalidNumber); [lia|].
  apply step_reads; [reads|done|]. intros ib c4 R4 S4 F4. rewrite <-F4. apply step_reads; [reads|done|]. intros [] c5 R5 S5 F5. rewrite <-F5.
  apply step_reads; [reads|done|]. intros res c6 R6 S6 F6. rewrite <-F6. apply step_reads; [reads|done|]. intros [tdi br] c7 R7 S7 F7. rewrite <-F7.
  assert (receipts_ok br) as Hbr. { unfold try_catch in R7. destruct (enactOn ref b c6) as [[x|e| | |] c8] eqn:Ex; try done; [|by case_bool_decide]. injection R7 as -> ->. by apply (enact_receipts _ _ _ _ _ Ex). }
  set (td := d_totalDifficulty dp [+] tdi). assert (frame c5 = F) as F5' by congruence. assert (frame c3 = F) as F3' by congruence. assert (frame c7 = F) as F7' by congruence.
  assert (in256 td) as Htd by (apply w256_in).
  pose proof (new_block ref b c5 res c6 dp td br S5 F5' Hd Hroom Hfresh Hp R6 Htd Hbr) as HN.
  pose proof (inv_reads c0 c7 HI S7 F7') as HI7. pose proof (number_pos HO HN) as Hpos. pose proof (replace_rule ref c3 ib c4 S3 F3' R4) as Hrule.
  set (isBest := if h_number (vb_info ref) <? replaceMinerHeight then true else ib).
  assert (chosen (vb_info ref) ((N <=? h_number (vb_info ref)) && isBest) ∧ (h_number (vb_info ref) <= N ∨ isBest = true)) as [Hch Hbest].
  { by apply (best_choice ref dp b _ td ib HN). }
  assert (c_extrasDB c7 = E) as E7 by (by injection F7'). assert (c_lastBlockNumber c7 = N) as N7 by (by injection F7').
  pose proof HN as HN7. rewrite <-E7 in HN7. destruct (insert_grows bp HI7 HN7 ref isBest eq_refl) as (c8&r&R8&G8); [by rewrite N7|].
  change (unchanged E (frame c7) (block_imported ref b) (insertBlockAndExtras bp ref b (receipts_rlp (mkReceipts br)) td isBest c7)).
  rewrite R8. cbn [unchanged]. rewrite N7 in G8. constructor.
  - exists dp, (receipts_rlp (mkReceipts br)), td, ((N <=? h_number (vb_info ref)) && isBest). split; [done|]. split; [done|]. by apply (grown_frame c7).
  - intros Hpos'. destruct Hrule as [[Hz _]|(s&hh&exe&sb&Hj&_)]; [lia|]. by exists s, hh, exe, sb.
Qed.
End Step.
End Importing.

(** ** Collecting cached values *)
Lemma shrink_kind T {Y : Extra T} c c' : cache_shows T c (c_extrasDB c) → c_extrasDB c' = c_extrasDB c →
  (∀ h x, extra_cache c' !! h = Some (x : T) → extra_cache c !! h = Some x) → cache_shows T c' (c_extrasDB c').
Proof.
  intros Hc Hd Hx h. rewrite Hd. specialize (Hc h). destruct (extra_cache c' !! h) as [x|] eqn:Ex; [|done]. by rewrite (Hx _ _ Ex) in Hc.
Qed.
Lemma erase_coherent i c : Coherent c → Coherent (cache_erase i c) ∧ frame (cache_erase i c) = frame c.
Proof.
  intros Hc. destruct i as [h k]. unfold cache_erase. set (c1 := c <| c_store ::= λ s, s <| bs_inUse ::= λ u, u ∖ {[(h, k)]} |> |>).
  assert (Coherent c1 ∧ frame c1 = frame c) as [H1 F1]. { unfold Coherent. destruct Hc. split; [constructor|]; by destruct c. }
  rewrite <-F1. generalize dependent c1. intros c1 H1 _. clear Hc c.
  assert (∀ {V} (m : gmap Z V) j x, delete h m !! j = Some x → m !! j = Some x) as Hdel.
  { intros V m j x. rewrite lookup_delete_Some. by intros [_ ?]. }
  unfold Coherent in *. destruct H1 as [S1 S2 S3 S4 S5 S6 S7].
  repeat match goal with |- context [if ?b then _ else _] => destruct b end;
    (split; [constructor|by destruct c1]);
    try (eapply shrink_kind; [eassumption|by destruct c1|intros j x; destruct c1; first [done|apply Hdel]]); try (by destruct c1).
  intros j x. destruct c1 as [s]. destruct s. intros Hj%Hdel. by apply S6.
Qed.
Lemma collect_inv `{CR : Crypto} c : ChainInv c → ChainInv (garbageCollect c) ∧ frame (garbageCollect c) = frame c.
Proof.
  intros HI. unfold garbageCollect. generalize (elements (default (u_second (bs_cacheUsage (c_store c))) (last (u_rest (bs_cacheUsage (c_store c)))))) as l. intros l.
  assert (Coherent (foldr cache_erase c l) ∧ frame (foldr cache_erase c l) = frame c) as [H1 F1].
  { induction l as [|i l [IH IF]]; [split; [apply HI|done]|]. cbn. destruct (erase_coherent i _ IH) as [H1 F1]. split; [done|congruence]. }
  generalize dependent (foldr cache_erase c l). intros c1 H1 F1. set (c2 := c1 <| c_store ::= _ |>).
  assert (Coherent c2 ∧ frame c2 = frame c1) as [H2 F2]. { unfold Coherent. destruct H1. split; [constructor|]; by destruct c1. }
  split; [|congruence]. apply (inv_reads c); [done| |congruence]. unfold Coherent in H2. assert (f_extrasDB (frame c2) = f_extrasDB (frame c)) as He by congruence. cbn [frame f_extrasDB] in He. by rewrite He in H2.
Qed.

(** ** Opening the databases *)
Section Open.
Context `{CR : Crypto} (bp : BlockChainParams).

(** The genesis block of the parameters. *)
Record GenesisOk (gh : bytes) (gb : BlockHeader) : Prop := mkGenesis {
  ge_header : extractHeader (bp_genesisBlock bp) = Ok gh;
  ge_block : header_of_block (bp_genesisBlock bp) = Ok gb;
  ge_hash : 0 < sha3 gh < 2 ^ 256;
  ge_difficulty : in256 (h_difficulty gb);
  ge_fields : genesis_ok gh }.

(** No block but the genesis block. *)
Section Fresh.
Context (g : h256) (Hg : 0 < g < 2 ^ 256) (diff : u256) (Hdiff : in256 diff).
Definition genesis_bd : BlockDetails := mkDetails 0 diff 0 [].
Definition E0 : Extras := <[(g, ExtraDetails) := details_rlp genesis_bd]> ∅.
Lemma genesis_bd_wf : details_wf genesis_bd.
Proof using Hdiff. constructor; cbn; try done; unfold in256, M256; lia. Qed.
Lemma E0_has h d : has E0 h d ↔ h = g ∧ d = genesis_bd.
Proof using Hdiff.
  unfold E0. rewrite has_put by apply genesis_bd_wf. split; [intros [?|[_ [Hp _]]]; [done|]|by left]. by destruct Hp.
Qed.
Lemma E0_blooms i : stored E0 i = Ok NullBlocksBlooms.
Proof using. unfold stored, E0. rewrite lookup_insert_ne by done. done. Qed.
Lemma E0_bloom l n : 0 <= n → bloom E0 l n = 0.
Proof using.
  intros Hn. unfold bloom, blooms_of. rewrite E0_blooms. unfold bloom_at. cbn [bb_blooms NullBlocksBlooms].
  rewrite nth_lookup. destruct (replicate (Z.to_nat c_bloomIndexSize) 0 !! Z.to_nat (n mod 16)) as [x|] eqn:Ex; [|done]. by apply lookup_replicate in Ex as [-> _].
Qed.
Lemma genesis_chain_ok : ChainOk g ∅ E0 g 0.
Proof using Hg Hdiff.
  constructor.
  - constructor.
    + exists genesis_bd. split; [by apply E0_has|done].
    + intros h d [-> ->]%E0_has. split; [apply genesis_bd_wf|]. cbn. unfold c_invalidNumber. lia.
    + by intros h d [-> _]%E0_has.
    + intros h d [-> ->]%E0_has. cbn. lia.
  - intros h d k [-> ->]%E0_has Hk. by apply not_elem_of_nil in Hk.
  - intros h [x Hx]. unfold E0 in Hx. destruct (decide (h = g)) as [->|Hn]; [exists genesis_bd; by apply E0_has|]. rewrite lookup_insert_ne in Hx by congruence. done.
  - intros h d [-> _]%E0_has. unfold in256, M256. lia.
  - exists genesis_bd. split; [by apply E0_has|done].
  - by intros h d [_ ->]%E0_has.
  - intros n Hn. lia.
  - intros n _. unfold E0. by rewrite lookup_insert_ne.
  - by intros h d [-> _]%E0_has.
  - intros h [x Hx]. done.
  - intros h. unfold present, E0. rewrite !lookup_insert_ne by done. by intros [?|?].
  - intros i. exists NullBlocksBlooms. split; [apply E0_blooms|]. split; [done|]. cbn [bb_blooms NullBlocksBlooms]. apply Forall_replicate. lia.
  - intros i Hi. rewrite E0_bloom by lia. unfold chunk_or, blooms_of. by rewrite E0_blooms.
  - intros n Hn. rewrite E0_bloom by (destruct Hn; lia). by rewrite decide_False by lia.
Qed.
End Fresh.

Lemma details_known F E d : has E (f_genesisHash F) d → d_number d = 0 → gives F E (genesis_details bp) (Ok tt).
Proof.
  intros Hd Hz. apply gives_get. intros c Hc HF. replace (bs_genesisHash (c_store c)) with (f_genesisHash F) by (by rewrite <-HF).
  eapply gives_bind; [by apply has_gives|]. unfold details_isNull. rewrite Hz. apply gives_ret.
Qed.
(** The end of [open]. *)
Lemma open_tail c g D E head N gh : Coherent c → ChainOk g D E head N → genesis_ok gh → g = sha3 gh →
  bs_genesisHash (c_store c) = g → bs_genesisHeaderBytes (c_store c) = gh → bs_blocksDB (c_store c) = D → c_extrasDB c = E → default g (c_best c) = head →
  ∃ c', (c ← getS; let h := default (bs_genesisHash (c_store c)) (c_best c) in n ← block_number h;
         modS (λ c, c <| c_lastBlockHash := h |> <| c_lastBlockNumber := n |>)) c = (Ok tt, c') ∧ ChainInv c' ∧
    frame c' = mkFrame g gh D ∅ E (c_best c) (c_chainStart c) head N.
Proof.
  intros Hc HO Hgh Hsha Hg Hb HD HE Hbest. rewrite (bind_ok _ _ _ c c) by done. cbv zeta. rewrite Hg, Hbest.
  destruct (ok_head _ _ _ _ _ HO) as (d&Hd&Hn). unfold Coherent in Hc. rewrite HE in Hc.
  destruct (has_gives (frame c) E head d Hd c Hc eq_refl) as (c1&R1&S1&F1).
  assert (block_number head c = (Ok N, c1)) as R by (unfold block_number; rewrite (bind_ok _ _ _ _ _ R1), <-Hn; done).
  rewrite (bind_ok _ _ _ _ _ R). eexists. split; [reflexivity|]. injection F1 as Q1 Q2 Q3 Q4 Q5 Q6 Q7 Q8 Q9. pose proof (sh_bytes _ _ S1) as Hby. split.
  - assert (shows (c1 <| c_lastBlockHash := head |> <| c_lastBlockNumber := N |>) E) as Hs by (destruct S1; constructor; by destruct c1).
    destruct c1 as [s1]. destruct s1. cbn in *. subst. constructor; cbn; try done; congruence.
  - destruct c1 as [s1]. destruct s1. cbn in *. subst. unfold frame. cbn. congruence.
Qed.

Lemma open_on_nothing gh gb : GenesisOk gh gb → ∃ c, chain_on bp ∅ ∅ None None = Ok c ∧ ChainInv c ∧
  frame c = mkFrame (sha3 gh) gh ∅ ∅ (E0 (sha3 gh) (h_difficulty gb)) None None (sha3 gh) 0.
Proof.
  intros [G1 G2 G3 G4 G5]. unfold chain_on. rewrite G1. cbn [mbind outcome_bind]. set (s := mkStore _ _ _ _ _ _). set (c := mkChain _ _ _ _ _ _ _ _ _ _ _ _ _ _).
  set (bd := genesis_bd (h_difficulty gb)). set (E := E0 (sha3 gh) (h_difficulty gb)).
  set (c1 := c <| c_details ::= <[sha3 gh := bd]> |> <| c_extrasDB ::= <[(sha3 gh, ExtraDetails) := details_rlp bd]> |>).
  assert (genesis_details bp c = (Ok tt, c1)) as R1.
  { unfold genesis_details. rewrite (bind_ok _ _ _ c c) by done. rewrite (bind_ok _ _ _ NullBlockDetails c) by done. cbn [details_isNull d_number NullBlockDetails]. rewrite G2. done. }
  assert (Coherent c1) as H1.
  { destruct (details_back bd (genesis_bd_wf _ G4)) as [Hne Hbk].
    assert (shows c ∅) as Hc by (constructor; done). unfold Coherent. change (c_extrasDB c1) with E.
    pose proof (put_details c ∅ (sha3 gh) bd _ Hc Hbk Hne) as [P1 P2 P3 P4 P5 P6 P7]. change (<[(sha3 gh, ExtraDetails) := details_rlp bd]> ∅) with E in *.
    constructor; try done; intros h; cbn; try done.
    specialize (P1 h). cbn in P1. destruct (decide (h = sha3 gh)) as [->|Hn]; [by rewrite lookup_insert_eq in P1 |- *|]. by rewrite lookup_insert_ne. }
  assert (genesis_details bp c1 = (Ok tt, c1)) as R2.
  { unfold genesis_details. rewrite (bind_ok _ _ _ c1 c1) by done. rewrite (bind_ok _ _ _ bd c1); [done|]. change (bs_genesisHash (c_store c1)) with (sha3 gh).
    unfold details, queryExtras. rewrite (bind_ok _ _ _ c1 c1) by done. cbn [extra_cache details_extra]. change (c_details c1) with (<[sha3 gh := bd]> (∅ : gmap Z BlockDetails)). by rewrite lookup_insert_eq. }
  destruct (open_tail c1 (sha3 gh) ∅ E (sha3 gh) 0 gh H1 (genesis_chain_ok _ G3 _ G4) G5) as (c'&R&HI&HF); [done..|].
  exists c'. unfold open, when. cbv iota. rewrite (bind_ok _ _ _ _ _ R1), (bind_ok _ _ _ _ _ R2). cbv zeta in R |- *. rewrite R. done.
Qed.
(** The databases of a chain are opened again. *)
Lemma open_again c gh gb : ChainInv c → GenesisOk gh gb → bs_genesisHeaderBytes (c_store c) = gh → c_cached_bytes c = ∅ →
  ∃ c', chain_on bp (bs_blocksDB (c_store c)) (c_extrasDB c) (c_best c) (c_chainStart c) = Ok c' ∧ ChainInv c' ∧ frame c' = frame c.
Proof.
  intros HI [G1 G2 G3 G4 G5] Hgh Hby. pose proof (ci_genesisHash _ HI) as Hg. rewrite Hgh in Hg. pose proof (ci_ok _ HI) as HO. rewrite Hg in HO. unfold chain_on. rewrite G1. cbn [mbind outcome_bind].
  set (s := mkStore _ _ _ _ _ _). set (c0 := mkChain _ _ _ _ _ _ _ _ _ _ _ _ _ _).
  assert (Coherent c0) as H0 by (unfold Coherent; constructor; try done; by intros h).
  destruct (t_root _ _ (ok_tree _ _ _ _ _ HO)) as (d&Hd&Hz).
  destruct (details_known (frame c0) (c_extrasDB c) d Hd Hz c0 H0 eq_refl) as (c1&R1&S1&F1). destruct (details_known (frame c0) (c_extrasDB c) d Hd Hz c1 S1 F1) as (c2&R2&S2&F2).
  injection F2 as Q1 Q2 Q3 Q4 Q5 Q6 Q7 Q8 Q9.
  destruct (open_tail c2 (sha3 gh) (bs_blocksDB (c_store c)) (c_extrasDB c) (c_lastBlockHash c) (c_lastBlockNumber c) gh) as (c'&R&HI'&HF); try done.
  - unfold Coherent. by rewrite Q5.
  - rewrite Q6. change (c_best c0) with (c_best c). rewrite <-Hg. apply (ci_best _ HI).
  - exists c'. unfold open, when. cbv iota. rewrite (bind_ok _ _ _ _ _ R1), (bind_ok _ _ _ _ _ R2). cbv zeta in R |- *. rewrite R. split; [done|]. split; [done|].
    rewrite HF, Q6, Q7. unfold frame. by rewrite Hby, Hg, Hgh.
Qed.
End Open.
