(* ===== verification/ChainProps.v ===== *)
(** * What holds of every chain

    The chains that can be reached by opening, importing, querying, collecting and opening
    again; their properties; a small chain on which they are tried. *)
From stdpp Require Import base gmap list list_numbers.
From stdpp Require Import relations.
From Stdlib Require Import ZArith Lia.
From S2P Require Import Prelude Rlp RlpProofs Config Interfaces Receipts Transaction Account ChainState Vote Executive Turns Wire TrieHash TrieProps Codec Objects.
From S2P Require Import BlockHeader BlockHeaderProofs Blocks BlockVerify BlockVerifyProofs BlockChain ChainCodec ChainMemo ChainTree ChainBlooms ChainInsert ChainInv ChainGrow ChainImport.
Open Scope Z_scope.

Section Reach.
Context `{CR : Crypto, CF : Config, ST_ : !StorageTrie, RN : Rng, CO : !AccountCodec} (bp : BlockChainParams).

(** A block as the queue hands it over: verified without the chain, with a hash that is not
    zero. *)
Record handed (ref : VerifiedBlockRef) (b : bytes) : Prop := mkHanded {
  ha_bytes : Forall is_byte b; ha_len : len b < 2 ^ 32;
  ha_verified : ∃ st, (verifyBlock (bp_operations bp) (bp_headers bp) b IR_OutOfOrderChecks st).1 = Ok ref;
  ha_hash : 0 < h_hash (vb_info ref) < 2 ^ 256 }.
Lemma handed_described ref b : handed ref b → described ref b.
Proof.
  intros [H1 H2 [st Hv] H4]. constructor; try done. destruct (out_of_order_yields (bp_operations bp) (bp_headers bp) b st H1 H2) as [_ Hy].
  apply Hy in Hv as [(h&Hh&Hi&_) _ _]. by exists h.
Qed.

Inductive step : Chain → Chain → Prop :=
| step_import (BF : BlockFace) (BL : BlockFaceLaws BF) ref b now c : handed ref b → room_left (c0 := c) → step c (bc_import bp ref b now true c).2
| step_query A (m : BC A) c : only_reads m → step c (m c).2
| step_collect c : step c (garbageCollect c)
| step_open c c' : chain_on bp (bs_blocksDB (c_store c)) (c_extrasDB c) (c_best c) (c_chainStart c) = Ok c' → step c c'.
Definition reachable (c : Chain) : Prop := ∃ c0, chain_on bp ∅ ∅ None None = Ok c0 ∧ rtc step c0 c.

Context {gh : bytes} {gb : BlockHeader} (HG : GenesisOk bp gh gb).
Definition SoundChain (c : Chain) : Prop := ChainInv c ∧ bs_genesisHeaderBytes (c_store c) = gh.
Lemma step_keeps c c' : step c c' → SoundChain c → SoundChain c'.
Proof using HG.
  intros Hs [HI Hgh]. destruct Hs as [BF BL ref b now c Hh Hr|A m c Hm|c|c c' Ho].
  - pose proof (import_step bp HI ref b now c (ci_coherent _ HI) eq_refl (handed_described _ _ Hh) Hr) as Hi.
    destruct (bc_import bp ref b now true c) as [[r|e| | |] c']; cbn [unchanged snd] in *.
    2-5: destruct Hi as [Hs Hf]; split; [by apply (inv_reads c)|]; by rewrite (frame_header _ _ Hf).
    destruct Hi as [(dp&rc&td&best&_&_&Hgr) _]. split; [apply Hgr|]. by rewrite (gr_header _ _ _ _ Hgr).
  - destruct (Hm c _ (ci_coherent _ HI)) as [Hs Hf]. split; [by apply (inv_reads c)|]. by rewrite (frame_header _ _ Hf).
  - destruct (collect_inv c HI) as [H1 Hf]. split; [done|]. by rewrite (frame_header _ _ Hf).
  - destruct (open_again bp c gh gb HI HG Hgh (sh_bytes _ _ (ci_coherent _ HI))) as (c2&R&H2&Hf). rewrite Ho in R. injection R as <-. split; [done|]. by rewrite (frame_header _ _ Hf).
Qed.
Lemma reachable_sound c : reachable c → SoundChain c.
Proof using HG.
  intros (c0&Ho&Hr). revert Hr. apply rtc_ind_r.
  - destruct (open_on_nothing bp gh gb HG) as (c1&R&HI&Hf). rewrite Ho in R. injection R as <-. split; [done|]. by apply (f_equal f_genesisHeaderBytes) in Hf.
  - intros c1 c2 _ Hs Hc. by eapply step_keeps.
Qed.

(** Two chains with the same databases and head. *)
Lemma same_answer {A} (m : BC A) o c c' : ChainInv c → ChainInv c' → frame c' = frame c → gives (frame c) (c_extrasDB c) m o → (m c').1 = (m c).1.
Proof using.
  intros HI HI' Hf Hg. destruct (Hg c (ci_coherent _ HI) eq_refl) as (c1&->&_). pose proof (f_equal f_extrasDB Hf) as He. cbn [frame f_extrasDB] in He.
  pose proof (ci_coherent _ HI') as Hc. unfold Coherent in Hc. rewrite He in Hc. destruct (Hg c' Hc Hf) as (c2&->&_). done.
Qed.
Lemma numberHash_gives F E n : gives F E (numberHash n) (if n =? 0 then Ok (f_genesisHash F) else x ← stored E n; Ok (bh_value x)).
Proof using.
  unfold numberHash. destruct (n =? 0).
  - apply gives_get. intros c _ <-. apply gives_ret.
  - intros c Hc HF. destruct (query_gives (T := BlockHash) n c Hc HF) as (c'&R&H1&H2). exists c'. split; [|done]. unfold mbind, ST_bind. rewrite R. by destruct (stored E n).
Qed.

(** What [withBlockBloom] returns. *)
Lemma search_exact c b e l : reachable c → 0 < b → 0 <= e <= l → l + 512 < 2 ^ 32 →
  let N := c_lastBlockNumber c in
  ∃ ns, (withBlockBloom b e l c).1 = Ok ns ∧ ∀ n, n ∈ ns ↔
    0 < n <= N ∧ bloom_contains (block_bloom (bs_blocksDB (c_store c)) (anc (c_extrasDB c) (Z.to_nat (N - n)) (c_lastBlockHash c))) b = true ∧
    (e <= n <= l ∨ l mod 256 ≠ 0 ∧ n / 256 = l / 256 + 1).
Proof using HG.
  intros Hr Hb He Hl N. destruct (reachable_sound c Hr) as [HI _]. pose proof (ci_ok _ HI) as HO.
  destruct (search_gives (F := frame c) (ok_blooms _ _ _ _ _ HO) (ok_levels _ _ _ _ _ HO) b e l He Hl) as [Hg Hin].
  destruct (Hg c (ci_coherent _ HI) eq_refl) as (c'&->&_). eexists. split; [done|]. intros n. rewrite Hin. unfold hit.
  assert (e <= n <= l ∨ l mod 256 ≠ 0 ∧ n / 256 = l / 256 + 1 → in_level 0 n) as Hlev.
  { pose proof (Z.div_mod n 256). pose proof (Z.mod_pos_bound n 256). pose proof (Z.div_mod l 256). pose proof (Z.mod_pos_bound l 256). left. lia. }
  split.
  - intros [Hh Hn]. rewrite (ok_index _ _ _ _ _ HO) in Hh by auto. case_decide; [done|]. unfold bloom_contains in Hh. rewrite Z.land_0_l in Hh. apply Z.eqb_eq in Hh. lia.
  - intros (Hn&Hh&Hr'). split; [|done]. rewrite (ok_index _ _ _ _ _ HO) by auto. by rewrite decide_True by done.
Qed.

(** What it means that the author passes. *)
Lemma author_passes i s exe sb c c' : check_author bp i s exe sb c = (Ok tt, c') →
  (h_author i ∈ m_addr <$> exe ∧
    ((m_addr <$> exe) !! time_slot (h_timestamp i) (bp_varlitorInterval bp) (length exe) = Some (h_author i) ∨
     last (h_extraData i) = Some 0x66 ∧ dividendHeight <= h_number i <= dividendHeight + FORCEBLOCKCOUNT)) ∨
  (h_author i ∉ m_addr <$> exe ∧ h_author i ∈ m_addr <$> sb ∧
    (verify_standby (h_timestamp i) (h_author i) (bp_varlitorInterval bp) (newChangeHeight <=? h_number i) s).1 = Ok true).
Proof using.
  intros Ha. unfold check_author, is_miner in Ha. case_bool_decide as H1.
  - left. split; [done|]. apply bind_inv in Ha as (x&c3&Hx&Ha). injection Hx as Hx <-. unfold extra_back in Hx. destruct (last (h_extraData i)) as [y|]; [|done]. injection Hx as ->.
    destruct ((x =? 0x66) && (dividendHeight <=? h_number i) && (h_number i <=? dividendHeight + FORCEBLOCKCOUNT)) eqn:Ef.
    + right. apply andb_prop in Ef as [[->%Z.eqb_eq ?%Z.leb_le]%andb_prop ?%Z.leb_le]. split; [done|lia].
    + left. destruct (bp_varlitorInterval bp =? 0); [done|]. by case_bool_decide.
  - right. split; [done|]. case_bool_decide as H2; cbn [negb] in Ha; [|done]. split; [done|]. apply bind_inv in Ha as (x&c3&Hx&Ha). injection Hx as Hx <-. by destruct x.
Qed.

(** ** The properties *)

(** C1: A chain stays consistent.  Whatever sequence of imports (accepted or refused, with
    whatever [Block] computes), queries, collections of cached values and restarts a chain goes
    through: the caches of details, log filters, receipts, hashes of numbers and chunks of the
    index, and that of the bytes of blocks, hold what the databases hold (the cache of the
    places of transactions need not: it is emptied only when blocks leave the branch, so a place
    read before a block includes the transaction once more stays; nor is anything said of the
    list of the latest hashes); the blocks form a tree whose root is the
    genesis block, with numbers that count the generations and with parents and children that
    name each other; the bytes of every block are stored and decode to a header with that
    hash, number and parent; no block is higher than the head; the numbers up to that of the
    head lead to the blocks of its branch and no number beyond leads anywhere; both levels
    of the Bloom index hold the filters of exactly these blocks. *)
Theorem chains_stay_consistent c : reachable c → ChainInv c.
Proof using HG. intros Hr. by apply reachable_sound. Qed.

(** C2: An import replaces the upper end of the branch of the head.  It either changes
    nothing but caches, or stores the block and takes the dead blocks it reports off the
    branch and puts the live ones on it, what is below staying as it was; no block is both
    dead and live.  The new block is the head exactly if it is higher than the head was, or as
    high and preferred: before the fork height always, from there on if its author precedes
    the author of the head (a producer before a stand-by, stand-bys by their rank in the state
    of the parent). *)
Theorem imports_switch_branches {BF : BlockFace} {BL : BlockFaceLaws BF} c ref b now : reachable c → handed ref b → room_left (c0 := c) →
  match bc_import bp ref b now true c with
  | (Ok r, c') => ∃ common best, canon c = deadBlocks r ++ common ∧ canon c' = reverse (liveBlocks r) ++ common ∧
      (∀ x, x ∈ deadBlocks r → x ∉ liveBlocks r) ∧ chosen bp (c0 := c) (vb_info ref) best ∧
      c_lastBlockHash c' = (if best then h_hash (vb_info ref) else c_lastBlockHash c) ∧
      bs_blocksDB (c_store c') = <[h_hash (vb_info ref) := b]> (bs_blocksDB (c_store c)) ∧ goodTranactions r = vb_transactions ref
  | (_, c') => frame c' = frame c
  end.
Proof using HG.
  intros Hr Hh Hroom. destruct (reachable_sound c Hr) as [HI _].
  pose proof (import_step bp HI ref b now c (ci_coherent _ HI) eq_refl (handed_described _ _ Hh) Hroom) as Hi.
  destruct (bc_import bp ref b now true c) as [[r|e| | |] c']; cbn [unchanged] in Hi; [|by destruct Hi..].
  destruct Hi as [(dp&rc&td&best&HN&Hch&Hgr) _]. destruct (grown_canon HI HN Hgr) as (common&H1&H2&H3). exists common, best.
  do 4 (split; [done|]). destruct Hgr. done.
Qed.

(** C9: Every imported block was sealed by someone whose turn it was.  Once there is a block
    besides the genesis block, a block is imported only if its author passes by the state that
    [populateFromChain] gives, on this chain, for the parent of the block (below
    [replaceMinerHeight] for the parent of the head): the author is one of the producers listed
    there and the slot of the block's time is that producer's (or it is one of the forced blocks
    around the dividend height), or the author is a listed stand-by and [verify_standby] lets it
    stand in at that time. *)
Theorem authors_seal_in_turn {BF : BlockFace} {BL : BlockFaceLaws BF} c ref b now r c' : reachable c → handed ref b → room_left (c0 := c) →
  0 < c_lastBlockNumber c → bc_import bp ref b now true c = (Ok r, c') → let i := vb_info ref in
  ∃ head s exe standby c1 c2, (current_info c).1 = Ok head ∧ h_number head = c_lastBlockNumber c ∧ ChainInv c1 ∧ frame c1 = frame c ∧
    populateFromChain (if replaceMinerHeight <=? h_number i then h_parentHash i else h_parentHash head) c1 = (Ok s, c2) ∧
    (vote_data SysVarlitorAddress s).1 = Ok exe ∧ (vote_data SysCanlitorAddress s).1 = Ok standby ∧
    ((h_author i ∈ m_addr <$> exe ∧
      ((m_addr <$> exe) !! time_slot (h_timestamp i) (bp_varlitorInterval bp) (length exe) = Some (h_author i) ∨
       last (h_extraData i) = Some 0x66 ∧ dividendHeight <= h_number i <= dividendHeight + FORCEBLOCKCOUNT)) ∨
     (h_author i ∉ m_addr <$> exe ∧ h_author i ∈ m_addr <$> standby ∧
      (verify_standby (h_timestamp i) (h_author i) (bp_varlitorInterval bp) (newChangeHeight <=? h_number i) s).1 = Ok true)).
Proof using HG.
  intros Hr Hh Hroom Hpos Ri i. destruct (reachable_sound c Hr) as [HI _].
  pose proof (import_step bp HI ref b now c (ci_coherent _ HI) eq_refl (handed_described _ _ Hh) Hroom) as Hi. rewrite Ri in Hi. cbn [unchanged] in Hi.
  destruct (im_author _ _ _ _ _ Hi Hpos) as (s&hh&exe&sb&[Hd Hn _ (c1&c2&Hc1&Hf1&Hs) He Hb (c3&c4&Ha)]). exists hh, s, exe, sb, c1, c2.
  split. { destruct (info_gives c (c_lastBlockHash c) c (ci_coherent _ HI) eq_refl) as (c5&R5&_). change (current_info c) with (info (c_lastBlockHash c) c). rewrite R5. exact Hd. }
  split; [done|]. split; [by apply (inv_reads c)|]. do 4 (split; [done|]). by eapply author_passes.
Qed.

(** C13: Numbers lead to the blocks of the branch of the head.  On every chain the hash of a
    number is that of the ancestor of the head with this number, the genesis block for 0, and
    zero for a number beyond the head.  A block is known exactly if its details are stored;
    the number it is known by is not beyond that of the head, is 0 for the genesis block, and is
    for every other block the number in the header of its stored bytes, which has its hash. *)
Theorem numbers_lead_to_the_branch c n : reachable c → 0 <= n < 2 ^ 32 →
  (numberHash n c).1 = Ok (if n <=? c_lastBlockNumber c then anc (c_extrasDB c) (Z.to_nat (c_lastBlockNumber c - n)) (c_lastBlockHash c) else 0) ∧
  ∀ h, (isKnown h true c).1 = Ok (bool_decide (is_Some (c_extrasDB c !! (h, ExtraDetails)))) ∧
    (is_Some (c_extrasDB c !! (h, ExtraDetails)) → ∃ d, (block_number h c).1 = Ok (d_number d) ∧ has (c_extrasDB c) h d ∧
      0 <= d_number d <= c_lastBlockNumber c ∧
      if bool_decide (h = bs_genesisHash (c_store c)) then d_number d = 0
      else ∃ b hd, bs_blocksDB (c_store c) !! h = Some b ∧ header_of_block b = Ok hd ∧ h_hash hd = h ∧ h_number hd = d_number d).
Proof using HG.
  intros Hr Hn. destruct (reachable_sound c Hr) as [HI _]. pose proof (ci_ok _ HI) as HO. pose proof (ok_tree _ _ _ _ _ HO) as HT. destruct (ok_head _ _ _ _ _ HO) as (dh&Hh&Nh). split.
  - unfold numberHash. destruct (Z.eqb_spec n 0) as [->|Hz].
    + destruct (t_wf _ _ HT _ _ Hh) as ([? _ _ _ _]&_). rewrite (proj2 (Z.leb_le _ _)) by lia. rewrite Z.sub_0_r, <-Nh, (anc_root HT _ _ Hh). done.
    + assert (gives (frame c) (c_extrasDB c) (x ← queryExtras n; mret (bh_value x))
        (Ok (if n <=? c_lastBlockNumber c then anc (c_extrasDB c) (Z.to_nat (c_lastBlockNumber c - n)) (c_lastBlockHash c) else 0))) as Hg.
      { destruct (Z.leb_spec n (c_lastBlockNumber c)).
        - assert (stored (c_extrasDB c) n = Ok (mkBlockHash (anc (c_extrasDB c) (Z.to_nat (c_lastBlockNumber c - n)) (c_lastBlockHash c)))) as Hst.
          { destruct (anc_has HT (Z.to_nat (c_lastBlockNumber c - n)) _ dh Hh) as (da&Ha&_); [lia|]. destruct (blockHash_back _ (ok_hash _ _ _ _ _ HO _ _ Ha)) as [Hne Hb].
            unfold stored. cbn [extra_kind hash_extra extra_of_rlp]. rewrite (ok_numbers _ _ _ _ _ HO) by lia. cbn [default from_option id]. by rewrite bool_decide_eq_false_2. }
          eapply gives_bind; [rewrite <-Hst; apply query_gives|apply gives_ret].
        - assert (stored (c_extrasDB c) n = Ok (mkBlockHash 0)) as Hst.
          { unfold stored. cbn [extra_kind hash_extra]. by rewrite (ok_beyond _ _ _ _ _ HO) by lia. }
          eapply gives_bind; [rewrite <-Hst; apply query_gives|apply gives_ret]. }
      destruct (Hg c (ci_coherent _ HI) eq_refl) as (c'&->&_). done.
  - intros h. split; [by destruct (isKnown_gives c HI h true c (ci_coherent _ HI) eq_refl) as (c'&->&_)|]. intros Hs.
    destruct (ok_read _ _ _ _ _ HO h Hs) as [d Hd]. exists d. destruct (t_wf _ _ HT _ _ Hd) as ([? _ _ _ _]&_). pose proof (ok_top _ _ _ _ _ HO _ _ Hd). split_and!; [|done|lia|done|].
    + destruct (has_gives (frame c) _ h d Hd c (ci_coherent _ HI) eq_refl) as (c1&R1&_). unfold block_number. by rewrite (bind_ok _ _ _ _ _ R1).
    + case_bool_decide as Hg; [|destruct (ok_blocks _ _ _ _ _ HO h d Hd Hg) as (b&hd&[]); by exists b, hd].
      destruct (t_root _ _ HT) as (dg&Hdg&Hz). rewrite Hg in Hd. by rewrite (has_inj _ _ _ _ Hd Hdg).
Qed.

(** C10: Blocks with given logs are found.  On every chain [withBlockBloom] returns the
    numbers of the blocks of the head's branch whose filter covers the one that is asked for:
    all of those between the two limits, none that is not on the branch, and beyond the upper
    limit only ones in the chunk of 256 numbers that follows its own.  (The filter that is asked
    for is not empty, and the limits stay 512 below 2^32.) *)
Theorem logs_are_found c b e l : reachable c → 0 < b → 0 <= e <= l → l + 512 < 2 ^ 32 →
  let N := c_lastBlockNumber c in
  ∃ ns, (withBlockBloom b e l c).1 = Ok ns ∧ ∀ n, n ∈ ns ↔
    0 < n <= N ∧ bloom_contains (block_bloom (bs_blocksDB (c_store c)) (anc (c_extrasDB c) (Z.to_nat (N - n)) (c_lastBlockHash c))) b = true ∧
    (e <= n <= l ∨ l mod 256 ≠ 0 ∧ n / 256 = l / 256 + 1).
Proof using HG. apply search_exact. Qed.

(** C14: [treeRoute] goes down to the latest common ancestor and up again.  Between two
    known blocks there are numbers of generations [i] and [j] after which their branches meet
    in one block and before which they share none; the route lists, as asked for, the [i] blocks of the
    first branch downwards, the common block, and the [j] blocks of the second upwards, and
    names the common block and its index.  (This is what the code computes.  The examples in the
    comment above [treeRoute] in BlockChain.h say otherwise where one block descends from the
    other: for a block 2a and its parent 1a they list both even if the common block is not
    asked for, where the code lists 2a only, and they give the index 1 where the code, with the
    common block listed last, gives 2.) *)
Theorem routes_meet_at_the_fork c from to (common pre post : bool) : reachable c → (isKnown from true c).1 = Ok true → (isKnown to true c).1 = Ok true →
  let E := c_extrasDB c in
  ∃ i j top, anc E i from = top ∧ anc E j to = top ∧ (∀ x, x ∈ path E i from → x ∉ path E j to) ∧
    (treeRoute from to common pre post c).1 =
      Ok ((if pre then path E i from else []) ++ (if common && (pre || post) then [top] else []) ++ (if post then reverse (path E j to) else []),
          top, route_index common pre post i j).
Proof using HG.
  intros Hr Hf Ht E. destruct (reachable_sound c Hr) as [HI _]. pose proof (ci_ok _ HI) as HO.
  assert (∀ h, (isKnown h true c).1 = Ok true → ∃ d, has E h d) as Hk.
  { intros h Hh. destruct (isKnown_gives c HI h true c (ci_coherent _ HI) eq_refl) as (c'&R&_). rewrite R in Hh. cbn [fst] in Hh. case_bool_decide as Hs; [|done]. by apply (ok_read _ _ _ _ _ HO). }
  destruct (Hk _ Hf) as [df Hdf], (Hk _ Ht) as [dt Hdt].
  destruct (treeRoute_gives (ok_tree _ _ _ _ _ HO) (F := frame c) common pre post from to df dt Hdf Hdt) as (i&j&top&HR&_&_&_&Hg).
  destruct (Hg c (ci_coherent _ HI) eq_refl) as (c'&->&_). exists i, j, top. by destruct HR.
Qed.

(** C15: Caches do not matter.  Two chains with the same databases and the same head, however
    they came about and whatever is cached in either, give the same answers: details, log
    filters, receipts, chunks of the index, hashes of numbers, bytes of blocks, and which
    blocks are known (not the places of transactions, whose cache may be out of date).
    Collecting the oldest cached values leads to such a chain, so it changes no answer. *)
Theorem answers_come_from_the_databases c c' : reachable c → reachable c' → frame c' = frame c →
  (∀ h, (details h c').1 = (details h c).1 ∧ (logBlooms h c').1 = (logBlooms h c).1 ∧ (receipts h c').1 = (receipts h c).1 ∧
        (blocksBlooms h c').1 = (blocksBlooms h c).1 ∧ (numberHash h c').1 = (numberHash h c).1 ∧ (block bp h c').1 = (block bp h c).1 ∧
        ∀ cur, (isKnown h cur c').1 = (isKnown h cur c).1) ∧
  reachable (garbageCollect c) ∧ frame (garbageCollect c) = frame c.
Proof using HG.
  intros Hr Hr' Hf. destruct (reachable_sound c Hr) as [HI _], (reachable_sound c' Hr') as [HI' _]. split.
  - intros h. split_and!; try (eapply (same_answer _ _ c c'); [done..|apply query_gives]).
    + eapply (same_answer _ _ c c'); [done..|apply numberHash_gives].
    + eapply (same_answer _ _ c c'); [done..|apply block_gives].
    + intros cur. eapply (same_answer _ _ c c'); [done..|by apply isKnown_gives].
  - destruct (collect_inv c HI) as [_ Hc]. split; [|done]. destruct Hr as (c0&Ho&Hr). exists c0. split; [done|]. eapply rtc_r; [done|apply step_collect].
Qed.

(** C16: A chain can be opened again.  On the databases a chain leaves behind, at whatever
    point between two operations, [open] succeeds and finds the same chain: the same blocks,
    the same head, the same entries. *)
Theorem chains_can_be_reopened c : reachable c →
  ∃ c', chain_on bp (bs_blocksDB (c_store c)) (c_extrasDB c) (c_best c) (c_chainStart c) = Ok c' ∧ reachable c' ∧ frame c' = frame c.
Proof using HG.
  intros Hr. destruct (reachable_sound c Hr) as [HI Hgh].
  destruct (open_again bp c gh gb HI HG Hgh (sh_bytes _ _ (ci_coherent _ HI))) as (c'&R&_&Hf). exists c'. split; [done|]. split; [|done].
  destruct Hr as (c0&Ho&Hr). exists c0. split; [done|]. eapply rtc_r; [done|by apply step_open].
Qed.
End Reach.

(** ** A small chain *)
Module Small.
#[local] Existing Instance open_crypto.
#[local] Existing Instance default_config.
#[local] Instance open_storage : StorageTrie.
Proof.
  refine {| storage_at := simple_at; storage_commit := simple_commit |}; [|apply (@storage_commit_at simple_crypto simple_storage)].
  intros k. unfold simple_at, simple_decode. by vm_compute (EmptyTrie <? M256).
Defined.
Definition header_on (parent : h256) (number time : Z) (extra : bytes) : BlockHeader :=
  let root := match orderedTrieRoot [] with Ok r => r | _ => 0 end in
  mkHeader parent (fold_sha3 [0xc0]) 1 root 2 0 number 1000000 0 extra time (right160 (fold_sha3 (toBE_n 64 producer_key))) 3 11 [] 0 0 (mkSig 0 0 0).
Definition sealed (h : BlockHeader) : bytes :=
  encode (Items [Items (header_items WithSeal (sign_block producer_sign h).2 []); Items []; Items []]).
Definition genesis_block : bytes := Eval vm_compute in sealed (header_on 0 0 100 []).
Definition genesis_bytes : bytes := Eval vm_compute in match extractHeader genesis_block with Ok h => h | _ => [] end.
(** Two blocks on the genesis block. *)
Definition block_1 : bytes := Eval vm_compute in sealed (header_on (fold_sha3 genesis_bytes) 1 200 [1]).
Definition block_1' : bytes := Eval vm_compute in sealed (header_on (fold_sha3 genesis_bytes) 1 201 [2]).
Definition params : BlockChainParams := mkBCParams genesis_block true 1000 block_params small_params.
(** The producer of the blocks is the first of two. *)
Definition producer : Address := Eval vm_compute in right160 (fold_sha3 (toBE_n 64 producer_key)).
Definition both_producers : list PollData := [mkPoll producer 1 1; mkPoll 7 1 1].
Definition two_producers : State :=
  mkState ∅ ∅ (<[SysVarlitorAddress := (Account_ballot 0) <| m_vote_data := both_producers |>]> ∅) [] ∅ ∅ 0 0 0 1 [].
#[local] Instance idle_face : BlockFace := {| populateFromChain := λ _, mret two_producers; enactOn := λ _ _, mret (3, []) |}.
#[local] Instance idle_laws : BlockFaceLaws idle_face.
Proof. constructor; [intros h; apply reads_ret|intros ref b; apply reads_ret|]. intros ref b c x c' [= <- _]. by split; [apply Forall_nil|]. Qed.
Definition ref_of (b : bytes) : VerifiedBlockRef :=
  match (verifyBlock block_params small_params b IR_OutOfOrderChecks empty_store).1 with Ok r => r | _ => mkVerified header_new [] end.
(** Two blocks on the second one, in the slots of the first and of the second producer. *)
Definition block_2 : bytes := Eval vm_compute in sealed (header_on (h_hash (header_in block_1')) 2 2300 [1]).
Definition block_2' : bytes := Eval vm_compute in sealed (header_on (h_hash (header_in block_1')) 2 3300 [1]).
Definition ref_2 : VerifiedBlockRef := Eval vm_compute in ref_of block_2.
Definition ref_2' : VerifiedBlockRef := Eval vm_compute in ref_of block_2'.
Definition ref_1 : VerifiedBlockRef := Eval vm_compute in ref_of block_1.
Definition ref_1' : VerifiedBlockRef := Eval vm_compute in ref_of block_1'.
Definition hash_1 : h256 := Eval vm_compute in h_hash (vb_info ref_1).
Definition hash_1' : h256 := Eval vm_compute in h_hash (vb_info ref_1').
(** Opened on empty databases, then with one block, then with the other as well. *)
Definition start : Chain :=
  Eval vm_compute in match chain_on params ∅ ∅ None None with Ok c => c | _ => mkChain empty_store ∅ ∅ ∅ ∅ ∅ ∅ ∅ ∅ None None 0 0 [] end.
Definition with_1 : Chain := Eval vm_compute in (bc_import params ref_1 block_1 1000 true start).2.
Definition with_2 : Chain := Eval vm_compute in (bc_import params ref_1' block_1' 1000 true with_1).2.
Lemma import_1 : bc_import params ref_1 block_1 1000 true start = (Ok (mkRoute [] [hash_1] []), with_1).
Proof. vm_compute. reflexivity. Qed.
Lemma import_2 : bc_import params ref_1' block_1' 1000 true with_1 = (Ok (mkRoute [hash_1] [hash_1'] []), with_2).
Proof. vm_compute. reflexivity. Qed.
Definition with_3 : Chain := Eval vm_compute in (bc_import params ref_2 block_2 5000 true with_2).2.
Lemma import_3 : bc_import params ref_2 block_2 5000 true with_2 = (Ok (mkRoute [] [h_hash (vb_info ref_2)] []), with_3).
Proof. vm_compute. reflexivity. Qed.

(** [room_left] can be computed. *)
Definition room_check (c : Chain) : bool :=
  (c_lastBlockNumber c + 1 <? c_invalidNumber) &&
  forallb (λ e, match details_of_rlp e.2 with Ok d => len (d_children d) + 1 <? 2 ^ 50 | _ => true end) (map_to_list (c_extrasDB c)).
Lemma room_checked c : room_check c = true → room_left (c0 := c).
Proof.
  intros [H1%Z.ltb_lt H2]%andb_prop. split; [done|]. intros h d [Hp Hs]. rewrite forallb_forall in H2. unfold present in Hp. unfold BlockChain.extra_kind, ChainMemo.stored in Hs.
  cbn [extra_kind details_extra extra_of_rlp] in Hs. destruct (c_extrasDB c !! (h, ExtraDetails)) as [v|] eqn:Ev; [|done]. cbn [default from_option id] in *. rewrite bool_decide_eq_false_2 in Hs by done.
  specialize (H2 ((h, ExtraDetails), v) ltac:(by apply list_elem_of_In, elem_of_map_to_list)). cbn [snd] in H2. rewrite Hs in H2. by apply Z.ltb_lt in H2.
Qed.
Lemma genesis_small : GenesisOk params genesis_bytes (header_in genesis_block).
Proof.
  constructor; try (vm_compute; done). intros w h Hh. unfold header_of_data in Hh. ok_bind Hh x Ex. apply RLP_same in Ex as ->.
  assert (populate genesis_bytes (fold_sha3 genesis_bytes) = Ok (header_in genesis_block)) as Hg by (vm_compute; done).
  rewrite (populate_same _ _ _ _ _ Hg Hh). split; vm_compute; done.
Qed.
Lemma handed_1 : handed params ref_1 block_1.
Proof. constructor; [apply small_bytes; by vm_compute|by vm_compute|exists empty_store; by vm_compute|by vm_compute]. Qed.
Lemma handed_1' : handed params ref_1' block_1'.
Proof. constructor; [apply small_bytes; by vm_compute|by vm_compute|exists empty_store; by vm_compute|by vm_compute]. Qed.
Lemma handed_2 : handed params ref_2 block_2.
Proof. constructor; [apply small_bytes; by vm_compute|by vm_compute|exists empty_store; by vm_compute|by vm_compute]. Qed.
Lemma start_reachable : reachable params start.
Proof. exists start. split; [by vm_compute|done]. Qed.
Lemma room_start : room_left (c0 := start).
Proof. apply room_checked. by vm_compute. Qed.
Lemma room_1 : room_left (c0 := with_1).
Proof. apply room_checked. by vm_compute. Qed.
Lemma import_reachable c ref b now : reachable params c → handed params ref b → room_left (c0 := c) → reachable params (bc_import params ref b now true c).2.
Proof. intros (c0&Ho&Hr) Hh Hroom. exists c0. split; [done|]. eapply rtc_r; [done|]. by apply (step_import _ idle_face idle_laws). Qed.
Lemma with_1_reachable : reachable params with_1.
Proof. change with_1 with (Ok (mkRoute [] [hash_1] []), with_1).2. rewrite <-import_1. apply import_reachable; [apply start_reachable|apply handed_1|apply room_start]. Qed.
Lemma with_2_reachable : reachable params with_2.
Proof. change with_2 with (Ok (mkRoute [hash_1] [hash_1'] []), with_2).2. rewrite <-import_2. apply import_reachable; [apply with_1_reachable|apply handed_1'|apply room_1]. Qed.
Lemma room_2 : room_left (c0 := with_2).
Proof. apply room_checked. by vm_compute. Qed.
(** Opened again on the same databases, and after many collections. *)
Definition reopened : Chain :=
  Eval vm_compute in match chain_on params (bs_blocksDB (c_store with_2)) (c_extrasDB with_2) (c_best with_2) (c_chainStart with_2) with Ok c => c | _ => start end.
Lemma reopened_reachable : reachable params reopened.
Proof. destruct with_2_reachable as (c0&Ho&Hr). exists c0. split; [done|]. eapply rtc_r; [done|]. apply step_open. by vm_compute. Qed.
Definition collected : Chain := Eval vm_compute in Nat.iter 40 garbageCollect with_2.
Lemma collected_reachable : reachable params collected.
Proof.
  assert (collected = Nat.iter 40 garbageCollect with_2) as -> by (by vm_compute). generalize 40%nat as n. induction n as [|n IH]; [apply with_2_reachable|].
  destruct IH as (c0&Ho&Hr). exists c0. split; [done|]. eapply rtc_r; [done|apply step_collect].
Qed.

(** The second block took the place of the first. *)
Lemma chains_stay_consistent_small : ChainInv with_2 ∧ c_lastBlockNumber with_2 = 1 ∧ c_lastBlockHash with_2 = hash_1'.
Proof. split; [apply (chains_stay_consistent params genesis_small), with_2_reachable|]. split; by vm_compute. Defined.
Lemma imports_switch_branches_small : ∃ common best, canon with_1 = [hash_1] ++ common ∧ canon with_2 = reverse [hash_1'] ++ common ∧
  c_lastBlockHash with_2 = (if best : bool then hash_1' else c_lastBlockHash with_1).
Proof.
  pose proof (imports_switch_branches params genesis_small with_1 ref_1' block_1' 1000 with_1_reachable handed_1' room_1) as H. rewrite import_2 in H.
  destruct H as (common&best&H1&H2&_&_&H3&_). exists common, best. split; [exact H1|]. split; [exact H2|exact H3].
Defined.
(** The author of block 2 was judged by the state of its parent, and seals in its slot; in the
    slot of the other producer its block is refused. *)
Lemma authors_seal_in_turn_small : ∃ s exe, (vote_data SysVarlitorAddress s).1 = Ok exe ∧ s = two_producers ∧
  (m_addr <$> exe) !! time_slot 2300 1000 (length exe) = Some producer ∧
  (bc_import params ref_2' block_2' 5000 true with_2).1 = Throw InvalidMinner.
Proof.
  destruct (authors_seal_in_turn params genesis_small with_2 ref_2 block_2 5000 _ _ with_2_reachable handed_2 room_2 eq_refl import_3) as (hh&s&exe&sb&c1&c2&_&_&_&_&Hs&He&_&Hor).
  injection Hs as <- _. injection He as <-. exists two_producers, both_producers. split; [by vm_compute|]. split; [done|]. split; [|by vm_compute].
  destruct Hor as [[_ [H|[_ [H _]]]]|[H _]]; [exact H|by apply (Z.leb_le _ _) in H|]. destruct H. by left.
Defined.
Lemma numbers_lead_to_the_branch_small : (numberHash 1 with_2).1 = Ok hash_1' ∧ (numberHash 2 with_2).1 = Ok 0 ∧
  (isKnown hash_1 true with_2).1 = Ok true ∧ (block_number hash_1 with_2).1 = Ok 1.
Proof.
  destruct (numbers_lead_to_the_branch params genesis_small with_2 1 with_2_reachable ltac:(lia)) as [-> Hk].
  destruct (numbers_lead_to_the_branch params genesis_small with_2 2 with_2_reachable ltac:(lia)) as [-> _]. split; [by vm_compute|]. split; [by vm_compute|].
  destruct (Hk hash_1) as [Hb Hd]. rewrite Hb. split; [by vm_compute|]. by vm_compute.
Defined.
Definition author_bloom : LogBloom := bloomPart (fold_sha3 (toBE_n 20 (right160 (fold_sha3 (toBE_n 64 producer_key))))).
Lemma logs_are_found_small : ∃ ns, (withBlockBloom author_bloom 0 5 with_2).1 = Ok ns ∧ 1 ∈ ns ∧ 2 ∉ ns.
Proof.
  destruct (logs_are_found params genesis_small with_2 author_bloom 0 5 with_2_reachable) as (ns&Hn&Hi); [by vm_compute|lia|lia|].
  assert (c_lastBlockNumber with_2 = 1) as HN by reflexivity. rewrite HN in Hi. exists ns. split; [exact Hn|]. split.
  - apply (proj2 (Hi 1)). split; [lia|]. split; [vm_compute; reflexivity|]. left. lia.
  - intros H. apply (proj1 (Hi 2)) in H as [H _]. lia.
Defined.
Lemma routes_meet_at_the_fork_small : ∃ i j top, anc (c_extrasDB with_2) i hash_1 = top ∧ anc (c_extrasDB with_2) j hash_1' = top ∧
  Ok ([hash_1; fold_sha3 genesis_bytes; hash_1'], fold_sha3 genesis_bytes, 1) =
  Ok (path (c_extrasDB with_2) i hash_1 ++ [top] ++ reverse (path (c_extrasDB with_2) j hash_1'), top, route_index true true true i j).
Proof.
  destruct (routes_meet_at_the_fork params genesis_small with_2 hash_1 hash_1' true true true with_2_reachable) as (i&j&top&H1&H2&_&H3);
    [by vm_compute..|]. exists i, j, top. split; [exact H1|]. split; [exact H2|].
  transitivity (treeRoute hash_1 hash_1' true true true with_2).1; [by vm_compute|exact H3].
Defined.
(** Opened again, the chain has neither details nor bytes of the first block in its caches, and
    after the collections neither is left there; the answers are the same. *)
Lemma answers_come_from_the_databases_small :
  (is_Some (c_details with_2 !! hash_1) ∧ c_details reopened !! hash_1 = None ∧ c_details collected !! hash_1 = None) ∧
  (is_Some (bs_blocks (c_store with_2) !! hash_1) ∧ bs_blocks (c_store reopened) !! hash_1 = None ∧ bs_blocks (c_store collected) !! hash_1 = None) ∧
  (details hash_1 reopened).1 = (details hash_1 with_2).1 ∧ (details hash_1 collected).1 = (details hash_1 with_2).1 ∧
  (numberHash 1 collected).1 = (numberHash 1 reopened).1.
Proof.
  destruct (answers_come_from_the_databases params genesis_small with_2 reopened with_2_reachable reopened_reachable ltac:(by vm_compute)) as [H1 _].
  destruct (answers_come_from_the_databases params genesis_small with_2 collected with_2_reachable collected_reachable ltac:(by vm_compute)) as [H2 _].
  split; [split; [by vm_compute; eexists|split; by vm_compute]|]. split; [split; [by vm_compute; eexists|split; by vm_compute]|].
  split; [apply H1|]. split; [apply H2|].
  destruct (H1 1) as (_&_&_&_&H3&_), (H2 1) as (_&_&_&_&H4&_). by rewrite H3, H4.
Defined.
Lemma chains_can_be_reopened_small : ∃ c', chain_on params (bs_blocksDB (c_store with_2)) (c_extrasDB with_2) (c_best with_2) (c_chainStart with_2) = Ok c' ∧
  c_lastBlockHash c' = c_lastBlockHash with_2.
Proof.
  destruct (chains_can_be_reopened params genesis_small with_2 with_2_reachable) as (c'&R&_&Hf). exists c'. split; [done|]. by apply (f_equal f_lastBlockHash) in Hf.
Defined.
End Small.
