(* ===== verification/LogFilter.v ===== *)
(** * Searching for logs (libbrcdchain/LogFilter)

    A filter asks for addresses and for topics by position.  [bloomPossibilities] turns it into
    Bloom filters for [withBlockBloom], [matches] picks the entries of a receipt.  Sets are
    visited in the order of [elements]. *)
From stdpp Require Import base gmap list.
From Stdlib Require Import ZArith Lia.
From S2P Require Import Prelude Rlp Config Interfaces Receipts Transaction Account ChainState Vote Executive BlockHeader BlockVerify BlockChain ChainTree ChainInv ChainGrow ChainImport ChainProps Blocks TrieProps Codec Objects.
Open Scope Z_scope.

(** [m_addresses] and the four entries of [m_topics]; the hashes of the first and of the last
    block are read by the client only. *)
Record LogFilter := mkFilter { lf_addresses : gset Address; lf_topics : list (gset h256); lf_earliest : h256; lf_latest : h256 }.
Definition isRangeFilter (f : LogFilter) : bool :=
  bool_decide (lf_addresses f = ∅) && forallb (λ t, bool_decide (t = ∅)) (lf_topics f).

Section Filter.
Context `{CR : Crypto}.
Definition address_part (a : Address) : LogBloom := bloomPart (sha3 (toBE_n 20 a)).
Definition topic_part (t : h256) : LogBloom := bloomPart (sha3 (toBE_n 32 t)).

(** [matches(LogBloom)] *)
Definition matches_bloom (f : LogFilter) (_bloom : LogBloom) : bool :=
  (bool_decide (lf_addresses f = ∅) || existsb (λ a, bloom_contains _bloom (address_part a)) (elements (lf_addresses f))) &&
  forallb (λ t, bool_decide (t = ∅) || existsb (λ i, bloom_contains _bloom (topic_part i)) (elements t)) (lf_topics f).

(** [b] with all alternatives of one position. *)
Definition with_topics (b : LogBloom) (t : gset h256) : LogBloom := foldl (λ b j, Z.lor b (topic_part j)) b (elements t).
Definition used_topics (f : LogFilter) : list (gset h256) := base.filter (λ t, t ≠ ∅) (lf_topics f).
Definition bloomPossibilities (f : LogFilter) : list LogBloom :=
  let as_ := elements (lf_addresses f) in
  let ret := i ← as_; (λ t, with_topics (address_part i) t) <$> used_topics f in
  let ret := if bool_decide (ret = []) then address_part <$> as_ else ret in
  ret ++ (if bool_decide (as_ = []) then with_topics 0 <$> used_topics f else []).

(** The inner loop of [matches(TransactionReceipt)]: [e.topics[i]] is read when there are
    [i] topics, one too few. *)
Fixpoint topics_match (i : nat) (ts : list (gset h256)) (e : LogEntry) : outcome bool :=
  match ts with
  | [] => Ok true
  | t :: ts =>
      if bool_decide (t = ∅) then topics_match (S i) ts e
      else if decide (length (le_topics e) < i)%nat then Ok false
      else match le_topics e !! i with
      | None => Undef
      | Some x => if bool_decide (x ∈ t) then topics_match (S i) ts e else Ok false
      end
  end.
Fixpoint matching (f : LogFilter) (l : list LogEntry) : outcome (list LogEntry) :=
  match l with
  | [] => Ok []
  | e :: l =>
      ok ← (if negb (bool_decide (lf_addresses f = ∅)) && negb (bool_decide (le_address e ∈ lf_addresses f)) then Ok false
            else topics_match 0 (lf_topics f) e);
      ret ← matching f l;
      Ok (if ok : bool then e :: ret else ret)
  end.
Definition filter_matches (f : LogFilter) (_m : TransactionReceipt) : outcome (list LogEntry) :=
  if isRangeFilter f then Ok (r_log _m)
  else if matches_bloom f (r_bloom _m) then matching f (r_log _m) else Ok [].

(** ** What a filter means *)

(** An entry of one of the addresses, with one of the topics at every position that names some. *)
Definition wanted (f : LogFilter) (e : LogEntry) : Prop :=
  (lf_addresses f = ∅ ∨ le_address e ∈ lf_addresses f) ∧
  ∀ i t, lf_topics f !! i = Some t → t = ∅ ∨ ∃ x, le_topics e !! i = Some x ∧ x ∈ t.
(** No entry ends just before a position that names topics. *)
Definition readable_topics (f : LogFilter) (l : list LogEntry) : Prop :=
  ∀ e i t, e ∈ l → lf_topics f !! i = Some t → t ≠ ∅ → length (le_topics e) ≠ i.

Lemma contains_bits b c : 0 <= c → bloom_contains b c = true ↔ ∀ k, 0 <= k → Z.testbit c k = true → Z.testbit b k = true.
Proof using.
  intros Hc. unfold bloom_contains. rewrite Z.eqb_eq. split.
  - intros H k Hk Ht. rewrite <-H, Z.land_spec in Ht. by apply andb_prop in Ht as [].
  - intros H. apply Z.bits_inj'. intros k Hk. rewrite Z.land_spec. specialize (H k Hk). destruct (Z.testbit c k); [by rewrite H|by rewrite andb_false_r].
Qed.
Lemma part_nonneg h : 0 <= bloomPart h.
Proof using. unfold bloomPart. rewrite !Z.lor_nonneg. split; [split|]; by apply Z.shiftl_nonneg. Qed.
Lemma contains_lor_iff b c c' : 0 <= c → 0 <= c' → bloom_contains b (Z.lor c c') = true ↔ bloom_contains b c = true ∧ bloom_contains b c' = true.
Proof using.
  intros H H'. assert (0 <= Z.lor c c') by (by apply Z.lor_nonneg). rewrite !contains_bits by done. setoid_rewrite Z.lor_spec. setoid_rewrite orb_true_iff. naive_solver.
Qed.
Lemma contains_trans b c d : 0 <= c → 0 <= d → bloom_contains b c = true → bloom_contains c d = true → bloom_contains b d = true.
Proof using. intros Hc Hd. rewrite !contains_bits by done. auto. Qed.
Lemma fold_parts {A} (g : A → LogBloom) b l b0 : (∀ x, 0 <= g x) → 0 <= b0 → 0 <= foldl (λ b x, Z.lor b (g x)) b0 l ∧
  (bloom_contains b (foldl (λ b x, Z.lor b (g x)) b0 l) = true ↔ bloom_contains b b0 = true ∧ ∀ x, x ∈ l → bloom_contains b (g x) = true).
Proof using.
  intros Hg. revert b0. induction l as [|x l IH]; intros b0 H0; cbn [foldl]; [split; [done|set_solver]|].
  assert (0 <= Z.lor b0 (g x)) as H1 by (by apply Z.lor_nonneg). destruct (IH _ H1) as [I1 I2]. split; [done|]. rewrite I2, contains_lor_iff by done. set_solver.
Qed.
Lemma contains_refl b : 0 <= b → bloom_contains b b = true.
Proof using. intros. by apply contains_bits. Qed.

(** What a filter that covers an entry covers. *)
Lemma log_bloom_parts b e : 0 <= log_bloom e ∧ (bloom_contains b (log_bloom e) = true ↔
  bloom_contains b (address_part (le_address e)) = true ∧ ∀ t, t ∈ le_topics e → bloom_contains b (topic_part t) = true).
Proof using. apply (fold_parts topic_part); [intros; apply part_nonneg|]. apply part_nonneg. Qed.
Lemma logs_bloom_covers l e : e ∈ l → bloom_contains (logs_bloom l) (log_bloom e) = true.
Proof using.
  intros He. assert (∀ x, 0 <= log_bloom x) as Hn by (intros x; apply (log_bloom_parts 0)). destruct (fold_parts log_bloom (logs_bloom l) l 0 Hn (Z.le_refl 0)) as [H1 H2].
  apply H2; [|done]. by apply contains_refl.
Qed.
Lemma wanted_covered f e b : bloom_contains b (log_bloom e) = true → wanted f e → matches_bloom f b = true.
Proof using.
  intros Hb [Ha Ht]. apply (log_bloom_parts b e) in Hb as [Hb Hbt]. unfold matches_bloom. apply andb_true_intro. split.
  - destruct Ha as [->|Ha]; [by rewrite bool_decide_eq_true_2|]. apply orb_true_intro. right. apply existsb_exists. exists (le_address e). split; [|done]. by apply list_elem_of_In, elem_of_elements.
  - apply forallb_forall. intros t Hin%list_elem_of_In. apply list_elem_of_lookup in Hin as [i Hi]. apply orb_true_intro. destruct (Ht i t Hi) as [->|(x&Hx&Hin)]; [left; by apply bool_decide_eq_true_2|right].
    apply existsb_exists. exists x. split; [by apply list_elem_of_In, elem_of_elements|]. apply Hbt. by eapply list_elem_of_lookup_2.
Qed.
Lemma topics_match_spec e i ts : (∀ j t, ts !! j = Some t → t ≠ ∅ → length (le_topics e) ≠ (i + j)%nat) →
  ∃ r, topics_match i ts e = Ok r ∧ (r = true ↔ ∀ j t, ts !! j = Some t → t = ∅ ∨ ∃ x, le_topics e !! (i + j)%nat = Some x ∧ x ∈ t).
Proof using.
  revert i. induction ts as [|t ts IH]; intros i Hl; cbn [topics_match]; [exists true; split; [done|]; split; [by intros _ []|done]|].
  destruct (IH (S i)) as (r&R&Hr). { intros j t' Hj Hne. specialize (Hl (S j) t' Hj Hne). lia. }
  assert ((∀ j t', (t :: ts) !! j = Some t' → t' = ∅ ∨ ∃ x, le_topics e !! (i + j)%nat = Some x ∧ x ∈ t') ↔
    (t = ∅ ∨ ∃ x, le_topics e !! i = Some x ∧ x ∈ t) ∧ (r = true)) as Hc.
  { rewrite Hr. split.
    - intros H. split; [specialize (H 0%nat t eq_refl); by rewrite Nat.add_0_r in H|]. intros j t' Hj. specialize (H (S j) t' Hj). by rewrite <-Nat.add_succ_comm in H.
    - intros [H0 H1] [|j] t' Hj; [injection Hj as <-; by rewrite Nat.add_0_r|]. rewrite <-Nat.add_succ_comm. by apply H1. }
  setoid_rewrite Hc. clear Hc Hr.
  case_bool_decide as Ht; [exists r; split; [done|]; tauto|]. specialize (Hl 0%nat t eq_refl Ht). rewrite Nat.add_0_r in Hl.
  destruct (decide (length (le_topics e) < i)%nat) as [Hs|Hs].
  - exists false. split; [done|]. split; [done|]. intros [[|(x&Hx&_)] _]; [done|]. apply lookup_lt_Some in Hx. lia.
  - destruct (lookup_lt_is_Some_2 (le_topics e) i ltac:(lia)) as [x Hx]. rewrite Hx. case_bool_decide as Hin.
    + exists r. split; [done|]. split; [intros H; split; [right; by exists x|done]|tauto].
    + exists false. split; [done|]. split; [done|]. intros [[|(y&[= <-]&Hy)] _]; done.
Qed.
Lemma matching_spec f l : readable_topics f l → ∃ l', matching f l = Ok l' ∧ l' `sublist_of` l ∧ ∀ e, e ∈ l' ↔ e ∈ l ∧ wanted f e.
Proof using.
  induction l as [|e l IH]; intros Hr; cbn [matching]; [exists []; set_solver|].
  destruct IH as (l'&R&Hs&Hl). { intros e' i t He. apply Hr. by constructor. }
  assert (∃ r, (if negb (bool_decide (lf_addresses f = ∅)) && negb (bool_decide (le_address e ∈ lf_addresses f)) then Ok false
    else topics_match 0 (lf_topics f) e) = Ok r ∧ (r = true ↔ wanted f e)) as (r&Rr&Hw).
  { destruct (topics_match_spec e 0 (lf_topics f)) as (r&Rr&Hm). { intros j t. apply Hr. by left. }
    unfold wanted. destruct (_ && _) eqn:Ea.
    - exists false. split; [done|]. split; [done|]. intros [Ha _]. apply andb_prop in Ea as [H1%negb_true_iff%bool_decide_eq_false H2%negb_true_iff%bool_decide_eq_false]. tauto.
    - exists r. split; [done|]. rewrite Hm. split; [|by intros [_ H]]. intros H. split; [|done]. apply andb_false_iff in Ea as [H1%negb_false_iff%bool_decide_eq_true|H1%negb_false_iff%bool_decide_eq_true]; tauto. }
  rewrite Rr, R. cbn. exists (if r then e :: l' else l'). split; [done|]. destruct r.
  - split; [by constructor|]. intros e'. rewrite !elem_of_cons, Hl. split; [intros [->|[]]; [split; [by left|by apply Hw]|tauto]|intros [[->|] ?]; tauto].
  - split; [by constructor|]. intros e'. rewrite elem_of_cons, Hl. split; [tauto|]. intros [[->|] Hx]; [|tauto]. by apply Hw in Hx.
Qed.
Lemma picks_wanted f r : (∀ e, e ∈ r_log r → bloom_contains (r_bloom r) (log_bloom e) = true) → readable_topics f (r_log r) →
  ∃ l, filter_matches f r = Ok l ∧ l `sublist_of` r_log r ∧ ∀ e, e ∈ l ↔ e ∈ r_log r ∧ wanted f e.
Proof using.
  intros Hb Hr. unfold filter_matches. destruct (isRangeFilter f) eqn:Er.
  - apply andb_prop in Er as [Ha%bool_decide_eq_true Ht]. rewrite forallb_forall in Ht. exists (r_log r). split; [done|]. split; [done|]. intros e. split; [|by intros []].
    intros He. split; [done|]. split; [by left|]. intros i t Hi. left. eapply bool_decide_eq_true_1, Ht, list_elem_of_In. by apply (list_elem_of_lookup_2 _ i).
  - destruct (matches_bloom f (r_bloom r)) eqn:Em; [by apply matching_spec|]. exists []. split; [done|]. split; [apply sublist_nil_l|].
    intros e. split; [by intros ?%elem_of_nil|]. intros [He Hw]. by rewrite (wanted_covered f e (r_bloom r) (Hb e He) Hw) in Em.
Qed.

(** Every possibility of a filter is a proper filter, and one of them finds a wanted entry. *)
Definition single_topics (f : LogFilter) : Prop := ∀ t, t ∈ lf_topics f → (size t <= 1)%nat.
Lemma part_pos h : 0 < bloomPart h.
Proof using.
  pose proof (part_nonneg h). assert (bloomPart h ≠ 0); [|lia]. intros H0. unfold bloomPart in H0. rewrite Z.lor_eq_0_iff in H0. destruct H0 as [_ H0].
  rewrite Z.shiftl_mul_pow2 in H0 by (unfold bloom_index; apply Z.land_nonneg; by right). pose proof (Z.pow_pos_nonneg 2 (bloom_index h 2)). unfold bloom_index in *.
  assert (0 <= Z.land (Z.shiftr h (256 - 16 * (2 + 1))) 2047) by (apply Z.land_nonneg; by right). lia.
Qed.
Lemma lor_pos a b : 0 <= a → 0 <= b → 0 < a ∨ 0 < b → 0 < Z.lor a b.
Proof using. intros Ha Hb H. assert (0 <= Z.lor a b) by (by apply Z.lor_nonneg). assert (Z.lor a b ≠ 0); [|lia]. rewrite Z.lor_eq_0_iff. lia. Qed.
Lemma with_topics_spec b0 b t x : 0 <= b0 → x ∈ t → (size t <= 1)%nat → bloom_contains b b0 = true → bloom_contains b (topic_part x) = true →
  0 < with_topics b0 t ∧ bloom_contains b (with_topics b0 t) = true.
Proof using.
  intros H0 Hx Hs Hb Hp. assert (elements t = [x]) as He.
  { apply elem_of_elements in Hx. change (length (elements t) <= 1)%nat in Hs. destruct (elements t) as [|y [|z l]]; cbn [length] in Hs; [by apply elem_of_nil in Hx| |lia]. apply list_elem_of_singleton in Hx as ->. done. }
  unfold with_topics. rewrite He. cbn [foldl]. split; [apply lor_pos; [done|apply part_nonneg|right; apply part_pos]|]. apply contains_lor_iff; [done|apply part_nonneg|done].
Qed.
Lemma possibility f e b : isRangeFilter f = false → single_topics f → wanted f e → bloom_contains b (log_bloom e) = true →
  ∃ p, p ∈ bloomPossibilities f ∧ 0 < p ∧ bloom_contains b p = true.
Proof using.
  intros Hr Hs [Ha Ht] Hb. apply (log_bloom_parts b e) in Hb as [Hb Hbt]. unfold bloomPossibilities.
  assert (∀ t, t ∈ used_topics f → ∃ x, x ∈ t ∧ bloom_contains b (topic_part x) = true ∧ (size t <= 1)%nat) as Hu.
  { intros t [Hne Hin]%list_elem_of_filter. pose proof (Hs t Hin). apply list_elem_of_lookup in Hin as [i Hi]. destruct (Ht i t Hi) as [|(x&Hx&Hxt)]; [done|]. exists x. split; [done|]. split; [|done]. apply Hbt. by eapply list_elem_of_lookup_2. }
  destruct (decide (lf_addresses f = ∅)) as [Hea|Hea].
  - rewrite Hea, elements_empty. cbn [fmap list_fmap mbind list_bind]. rewrite bool_decide_eq_true_2 by done. cbn [app].
    destruct (used_topics f) as [|t l] eqn:Eu.
    + unfold isRangeFilter in Hr. rewrite Hea in Hr. rewrite bool_decide_eq_true_2 in Hr by done. cbn [andb] in Hr. exfalso. apply not_true_iff_false in Hr. apply Hr. apply forallb_forall.
      intros t Hin%list_elem_of_In. case_bool_decide as Hne; [done|]. assert (t ∈ used_topics f) as Hx by (by apply list_elem_of_filter). rewrite Eu in Hx. by apply elem_of_nil in Hx.
    + destruct (Hu t) as (x&Hx&Hc&Hz); [by left|]. exists (with_topics 0 t). split; [by left|]. apply (with_topics_spec 0 b t x); try done. unfold bloom_contains. by rewrite Z.land_0_r.
  - destruct Ha as [|Ha]; [done|]. assert (elements (lf_addresses f) ≠ []) as Hne by (intros H; by apply elements_empty_iff, leibniz_equiv in H). apply elem_of_elements in Ha.
    rewrite (bool_decide_eq_false_2 _ Hne), app_nil_r. destruct (used_topics f) as [|t l] eqn:Eu.
    + exists (address_part (le_address e)). split; [|split; [apply part_pos|done]]. case_bool_decide as Hn; [by apply list_elem_of_fmap_2|]. exfalso. apply Hn. clear. induction (elements (lf_addresses f)); done.
    + destruct (Hu t) as (x&Hx&Hc&Hz); [by left|]. exists (with_topics (address_part (le_address e)) t). split.
      * assert (with_topics (address_part (le_address e)) t ∈ (elements (lf_addresses f) ≫= λ i, (λ t, with_topics (address_part i) t) <$> t :: l)) as Hin.
        { apply list_elem_of_bind. exists (le_address e). split; [|done]. by left. }
        case_bool_decide as Hn; [|done]. rewrite Hn in Hin. by apply elem_of_nil in Hin.
      * apply (with_topics_spec _ b t x); try done. apply part_nonneg.
Qed.
End Filter.

Section LogSearch.
Context `{CR : Crypto, CF : Config, ST_ : !StorageTrie, RN : Rng, CO : !AccountCodec} (bp : BlockChainParams).
Context {gh : bytes} {gb : BlockHeader} (HG : GenesisOk bp gh gb).

(** C11: Logs are found.  When a filter names at most one topic at each position, and addresses
    or topics at all, then every entry it wants is reported: for one of the possibilities of
    the filter [withBlockBloom] returns the number of the block, whichever block of the head's
    branch between the limits it is, and from the receipt of the transaction [matches] picks
    that entry (and nothing that is not wanted).  The header's filter has to cover the
    receipt's, and no entry of the receipt may end just before a position at which the filter
    names topics ([readable_topics]): an entry that does is read past its end, which is
    undefined behaviour, see [short_entry_is_read_past_its_end]; the numbers stay below 2^32. *)
Theorem wanted_logs_are_reported c f e l n st g log x : reachable bp c → isRangeFilter f = false → single_topics f → 0 <= e <= n → n <= l → l + 512 < 2 ^ 32 →
  let N := c_lastBlockNumber c in 0 < n <= N →
  bloom_contains (block_bloom (bs_blocksDB (c_store c)) (anc (c_extrasDB c) (Z.to_nat (N - n)) (c_lastBlockHash c))) (logs_bloom log) = true →
  x ∈ log → wanted f x → readable_topics f log →
  (∃ p ns, p ∈ bloomPossibilities f ∧ (withBlockBloom p e l c).1 = Ok ns ∧ n ∈ ns) ∧
  ∃ es, filter_matches f (receipt_new st g log) = Ok es ∧ x ∈ es ∧ ∀ y, y ∈ es → y ∈ log ∧ wanted f y.
Proof using HG.
  intros Hr Hf Hs He Hl Hw N Hn Hb Hx Hwant Hread. pose proof (logs_bloom_covers log x Hx) as Hc.
  assert (∀ y, 0 <= log_bloom y) as Hpos by (intros y; apply (log_bloom_parts 0)). split.
  - destruct (possibility f x _ Hf Hs Hwant (contains_trans _ _ _ (proj1 (fold_parts log_bloom 0 log 0 Hpos (Z.le_refl 0))) (Hpos x) Hb Hc)) as (p&Hp&Hp0&Hcp).
    destruct (search_exact bp HG c p e l Hr Hp0 ltac:(lia) Hw) as (ns&Hns&Hin). exists p, ns. split; [done|]. split; [done|]. apply Hin. split; [done|]. split; [done|]. left. lia.
  - destruct (picks_wanted f (receipt_new st g log)) as (es&R&_&Hes); [intros y Hy; by apply logs_bloom_covers|done|]. exists es. split; [done|]. split; [by apply Hes|]. intros y Hy. by apply Hes.
Qed.
End LogSearch.

(** ** Samples *)
Module FilterSmall.
#[local] Existing Instance open_crypto.
#[local] Existing Instance default_config.
#[local] Existing Instance Small.open_storage.
(** An entry of the producer of the blocks of the small chain. *)
Definition producer : Address := Eval vm_compute in right160 (fold_sha3 (toBE_n 64 producer_key)).
Definition its_entry : LogEntry := mkLog producer [] [7].
Definition its_filter : LogFilter := mkFilter {[producer]} [∅; ∅; ∅; ∅] 1 0.
Lemma no_topics t : t ∈ lf_topics its_filter → t = ∅.
Proof. intros Ht. repeat (apply elem_of_cons in Ht as [->|Ht]; [done|]). by apply elem_of_nil in Ht. Qed.
Lemma wanted_logs_are_reported_small :
  (∃ p ns, p ∈ bloomPossibilities its_filter ∧ (withBlockBloom p 0 5 Small.with_2).1 = Ok ns ∧ 1 ∈ ns) ∧
  ∃ es, filter_matches its_filter (receipt_new (StatusCode 1) 0 [its_entry]) = Ok es ∧ its_entry ∈ es ∧ ∀ y, y ∈ es → y ∈ [its_entry] ∧ wanted its_filter y.
Proof.
  apply (wanted_logs_are_reported Small.params Small.genesis_small Small.with_2 its_filter 0 5 1 (StatusCode 1) 0 [its_entry] its_entry Small.with_2_reachable).
  - vm_compute. reflexivity.
  - intros t Ht. rewrite (no_topics t Ht). vm_compute. lia.
  - lia.
  - lia.
  - lia.
  - change (c_lastBlockNumber Small.with_2) with 1. lia.
  - vm_compute. reflexivity.
  - by left.
  - split; [right; change (producer ∈ ({[producer]} : gset Address)); set_solver|]. intros i t Ht%list_elem_of_lookup_2. left. by apply no_topics.
  - intros e i t _ Ht%list_elem_of_lookup_2 Hne. destruct Hne. by apply no_topics.
Defined.

(** Of two alternatives at one position the search asks for both at once: a block with one of
    them is not looked at (here with the last byte in place of the hash). *)
Definition last_byte : Crypto := {| sha3 := λ b, default 0 (last b) * 2 ^ 208; recover := λ _ _ _ _, 0 |}.
Definition two_topics : LogFilter := mkFilter ∅ [{[1; 2]}; ∅; ∅; ∅] 1 0.
Definition one_topic : LogEntry := mkLog 5 [1] [].
Lemma alternatives_are_missed : wanted two_topics one_topic ∧
  forallb (λ p, negb (bloom_contains (@log_bloom last_byte one_topic) p)) (@bloomPossibilities last_byte two_topics) = true.
Proof.
  split; [|by vm_compute]. split; [by left|]. intros [|[|[|[|i]]]] t Ht; [injection Ht as <-; right; exists 1; split; [done|set_solver]|injection Ht as <-; by left..|done].
Qed.
(** An entry without topics beside one that matches: the topic behind its end is read. *)
Lemma short_entry_is_read_past_its_end :
  filter_matches (mkFilter ∅ [{[1]}; ∅; ∅; ∅] 1 0) (receipt_new (StatusCode 1) 0 [one_topic; mkLog 5 [] []]) = Undef.
Proof. by vm_compute. Qed.
End FilterSmall.
