(* ===== verification/BlockQueue.v ===== *)
(** * The block queue (libbrcdchain/BlockQueue.cpp, BlockQueue.h)

    Blocks from the network wait here until their parent is there, until their time has
    come and until a verifier thread has checked them; then the chain drains them.  The
    verifier threads hold the locks only while they take a block and while they report the
    result: those two critical sections are the operations [block_take] and
    [verifier_done]. *)
From stdpp Require Import base gmap list.
From Stdlib Require Import ZArith Lia.
From S2P Require Import Prelude Rlp Interfaces Transaction TxQueue BlockHeader BlockVerify Executive.
Open Scope Z_scope.

(** ** [SizedBlockQueue] *)

(** [blockData] of an element; what is left of an element that was moved from: hashes and
    headers are copied, byte vectors are emptied. *)
Class QueueItem (T : Type) := { blockData : T → bytes; moved_from : T → T }.
Record SizedBlockQueue (T : Type) := mkQueue { q_queue : list T; q_size : Z }.
Arguments mkQueue {T} _ _.
Arguments q_queue {T} _.
Arguments q_size {T} _.
(** [std::atomic<size_t>] *)
Definition w64 (n : Z) : Z := n mod 2 ^ 64.

Section SizedBlockQueue.
Context {T : Type} `{QueueItem T}.
Definition queue_new : SizedBlockQueue T := mkQueue [] 0.
Definition queue_count (q : SizedBlockQueue T) : Z := len (q_queue q).
Definition queue_isEmpty (q : SizedBlockQueue T) : bool := bool_decide (q_queue q = []).
Definition queue_enqueue (t : T) (q : SizedBlockQueue T) : SizedBlockQueue T :=
  mkQueue (q_queue q ++ [t]) (w64 (q_size q + len (blockData t))).
(** [dequeue] is only called on a queue that is not empty. *)
Definition queue_dequeue (q : SizedBlockQueue T) : option (T * SizedBlockQueue T) :=
  match q_queue q with
  | [] => None
  | t :: rest => Some (t, mkQueue rest (w64 (q_size q - len (blockData t))))
  end.
Definition data_size (l : list T) : Z := sumZ (λ t, len (blockData t)) l.
Definition queue_dequeueMultiple (n : nat) (q : SizedBlockQueue T) : list T * SizedBlockQueue T :=
  let ret := take n (q_queue q) in (ret, mkQueue (drop n (q_queue q)) (w64 (q_size q - data_size ret))).
(** [std::remove_if] moves the elements that stay to the front; what is returned is the
    rest of the range as it is then: a removed element where nothing was moved, the shell
    of an element that stays where it was moved away. *)
Definition remove_if_tail (pred : T → bool) (l : list T) : list T :=
  drop (length (filter (λ t, pred t = false) l)) ((λ t, if pred t then t else moved_from t) <$> l).
Definition queue_removeIf (pred : T → bool) (q : SizedBlockQueue T) : list T * SizedBlockQueue T :=
  let ret := remove_if_tail pred (q_queue q) in
  (ret, mkQueue (filter (λ t, pred t = false) (q_queue q)) (w64 (q_size q - data_size ret))).
End SizedBlockQueue.

(** ** [SizedBlockMap]: a multimap *)
Record SizedBlockMap := mkMap { m_map : list (Z * (h256 * bytes)); m_size : Z }.
Definition map_new : SizedBlockMap := mkMap [] 0.
Definition map_isEmpty (m : SizedBlockMap) : bool := bool_decide (m_map m = []).
(** The size is taken from the vector after it was moved into the map: it is 0. *)
Definition map_insert (_key : Z) (_hash : h256) (_blockData : bytes) (m : SizedBlockMap) : SizedBlockMap :=
  mkMap (insert_upper (λ a b, a.1 <? b.1) (_key, (_hash, _blockData)) (m_map m)) (w64 (m_size m + 0)).
Definition map_removeRange (P : Z → bool) (m : SizedBlockMap) : list (h256 * bytes) * SizedBlockMap :=
  let removed := snd <$> filter (λ e, P e.1 = true) (m_map m) in
  (removed, mkMap (filter (λ e, P e.1 = false) (m_map m)) (w64 (m_size m - sumZ (λ e, len e.2) removed))).
Definition removeByKeyEqual (_key : Z) : SizedBlockMap → list (h256 * bytes) * SizedBlockMap :=
  map_removeRange (λ k, k =? _key).
Definition removeByKeyNotGreater (_key : Z) : SizedBlockMap → list (h256 * bytes) * SizedBlockMap :=
  map_removeRange (λ k, k <=? _key).

(** ** The queue *)
Record UnverifiedBlock := mkUnverified { u_hash : h256; u_parentHash : h256; u_blockData : bytes }.
Record VerifiedBlock := mkVerifiedBlock { vb_verified : VerifiedBlockRef; vb_blockData : bytes }.
#[export] Instance UnverifiedBlock_item : QueueItem UnverifiedBlock :=
  {| blockData := u_blockData; moved_from := λ u, mkUnverified (u_hash u) (u_parentHash u) [] |}.
#[export] Instance VerifiedBlock_item : QueueItem VerifiedBlock :=
  {| blockData := vb_blockData; moved_from := λ b, mkVerifiedBlock (mkVerified (vb_info (vb_verified b)) []) [] |}.
Definition vb_header (b : VerifiedBlock) : BlockHeader := vb_info (vb_verified b).
(** [info.hash()]: a verified header has its hash. *)
Definition vb_hash (b : VerifiedBlock) : h256 := h_hash (vb_header b).
Definition vb_parent (b : VerifiedBlock) : h256 := h_parentHash (vb_header b).
(** In [m_verifying] a block that is not finished is a header with the hash of the block
    in the field of the uncles, and no data. *)
Definition vb_uncles (b : VerifiedBlock) : h256 := h_sha3Uncles (vb_header b).
Definition placeholder (work : UnverifiedBlock) : VerifiedBlock :=
  mkVerifiedBlock (mkVerified (setParentHash (u_parentHash work) (setSha3Uncles (u_hash work) header_new)) []) [].
Definition finished (b : VerifiedBlock) : bool := negb (bool_decide (vb_blockData b = [])).

Record BlockQueue := mkBlockQueue {
  bq_drainingSet : gset h256; bq_readySet : gset h256; bq_unknownSet : gset h256; bq_knownBad : gset h256; bq_futureSet : gset h256;
  bq_unknown : SizedBlockMap; bq_future : SizedBlockMap;
  bq_verified : SizedBlockQueue VerifiedBlock; bq_verifying : SizedBlockQueue VerifiedBlock; bq_unverified : SizedBlockQueue UnverifiedBlock;
  bq_difficulty : u256; bq_now_height : int64; bq_drainingDifficulty : u256 }.
#[export] Instance BlockQueue_reshape : Reshape BlockQueue :=
  λ q, mkBlockQueue (bq_drainingSet q) (bq_readySet q) (bq_unknownSet q) (bq_knownBad q) (bq_futureSet q) (bq_unknown q) (bq_future q)
    (bq_verified q) (bq_verifying q) (bq_unverified q) (bq_difficulty q) (bq_now_height q) (bq_drainingDifficulty q).
#[export] Instance bq_drainingSet_field : Field bq_drainingSet := ltac:(field_setter).
#[export] Instance bq_readySet_field : Field bq_readySet := ltac:(field_setter).
#[export] Instance bq_unknownSet_field : Field bq_unknownSet := ltac:(field_setter).
#[export] Instance bq_knownBad_field : Field bq_knownBad := ltac:(field_setter).
#[export] Instance bq_futureSet_field : Field bq_futureSet := ltac:(field_setter).
#[export] Instance bq_unknown_field : Field bq_unknown := ltac:(field_setter).
#[export] Instance bq_future_field : Field bq_future := ltac:(field_setter).
#[export] Instance bq_verified_field : Field bq_verified := ltac:(field_setter).
#[export] Instance bq_verifying_field : Field bq_verifying := ltac:(field_setter).
#[export] Instance bq_unverified_field : Field bq_unverified := ltac:(field_setter).
#[export] Instance bq_difficulty_field : Field bq_difficulty := ltac:(field_setter).
#[export] Instance bq_now_height_field : Field bq_now_height := ltac:(field_setter).
#[export] Instance bq_drainingDifficulty_field : Field bq_drainingDifficulty := ltac:(field_setter).

(** [clear]; [m_knownBad] is kept. *)
Definition bq_clear (q : BlockQueue) : BlockQueue :=
  mkBlockQueue ∅ ∅ ∅ (bq_knownBad q) ∅ map_new map_new queue_new queue_new queue_new 0 0 0.
Definition bq_empty : BlockQueue := mkBlockQueue ∅ ∅ ∅ ∅ ∅ map_new map_new queue_new queue_new queue_new 0 0 0.

Notation BQ := (ST BlockQueue).

Definition ready_erase (h : h256) (q : BlockQueue) : BlockQueue := q <| bq_readySet ::= λ s, s ∖ {[h]} |>.
Definition bad_insert (h : h256) (q : BlockQueue) : BlockQueue := q <| bq_knownBad ::= λ s, s ∪ {[h]} |>.
Definition is_bad (q : BlockQueue) (h : h256) : bool := bool_decide (h ∈ bq_knownBad q).

(** ** Verifiers *)

(** A block that is done goes on to [m_verified], unless its parent is bad. *)
Definition settle (b : VerifiedBlock) (q : BlockQueue) : BlockQueue :=
  if is_bad q (vb_parent b) then bad_insert (vb_hash b) (ready_erase (vb_hash b) q)
  else q <| bq_verified ::= queue_enqueue b |>.
(** [drainVerified_WITH_BOTH_LOCKS]; at most all of [m_verifying] is taken. *)
Fixpoint drainVerified_loop (fuel : nat) (q : BlockQueue) : BlockQueue :=
  match fuel, queue_dequeue (bq_verifying q) with
  | S fuel, Some (b, rest) =>
      if finished b then drainVerified_loop fuel (settle b (q <| bq_verifying := rest |>)) else q
  | _, _ => q
  end.
Definition drainVerified (q : BlockQueue) : BlockQueue := drainVerified_loop (length (q_queue (bq_verifying q))) q.

(** First critical section of [verifierBody]: a block is taken, a placeholder marks its
    turn. *)
Definition block_take : BQ (option UnverifiedBlock) :=
  q ← getS;
  match queue_dequeue (bq_unverified q) with
  | None => mret None
  | Some (work, rest) =>
      modS (λ q, q <| bq_unverified := rest |> <| bq_verifying ::= queue_enqueue (placeholder work) |>) ;; mret (Some work)
  end.
Definition uncles_equal (h : h256) (b : VerifiedBlock) : bool := vb_uncles b =? h.
(** [SizedBlockQueue::replace] *)
Fixpoint replace_first (h : h256) (b : VerifiedBlock) (l : list VerifiedBlock) : list VerifiedBlock :=
  match l with
  | [] => []
  | x :: l => if uncles_equal h x then b :: l else x :: replace_first h b l
  end.
Definition queue_replace (h : h256) (b : VerifiedBlock) (q : SizedBlockQueue VerifiedBlock) : SizedBlockQueue VerifiedBlock :=
  match filter (λ x, uncles_equal h x = true) (q_queue q) with
  | [] => q
  | x :: _ => mkQueue (replace_first h b (q_queue q)) (w64 (w64 (q_size q - len (vb_blockData x)) + len (vb_blockData b)))
  end.
(** Second critical section: the result of [verifyBlock] is reported; [true] when
    [m_onReady] is to be signalled. *)
Definition verifier_done (work : UnverifiedBlock) (result : outcome VerifiedBlockRef) : BQ bool :=
  match result with
  | Throw _ =>
      modS (λ q, bad_insert (u_hash work) (ready_erase (u_hash work) q)) ;;
      modS (λ q, q <| bq_verifying ::= λ v, (queue_removeIf (uncles_equal (u_hash work)) v).2 |>) ;;
      modS drainVerified ;;
      mret false
  | Ok ref =>
      let res := mkVerifiedBlock ref (u_blockData work) in
      q ← getS;
      match queue_dequeue (bq_verifying q) with
      | Some (b, rest) =>
          if vb_uncles b =? u_hash work then
            modS (λ q, q <| bq_verifying := rest |>) ;; modS (settle res) ;; modS drainVerified ;; mret true
          else modS (λ q, q <| bq_verifying ::= queue_replace (u_hash work) res |>) ;; mret false
      | None => mret false
      end
  | _ => lift (_ ← result; Ok false)
  end.

(** ** Blocks whose parent comes or turns out to be bad *)

(** [noteReady_WITH_LOCK] and [collectUnknownBad_WITH_BOTH_LOCKS] follow the descendants in
    [m_unknown]; each is taken from there once. *)
Definition enqueue_ready (parent : h256) (newReady : h256 * bytes) (q : BlockQueue) : BlockQueue :=
  q <| bq_unverified ::= queue_enqueue (mkUnverified newReady.1 parent newReady.2) |>
    <| bq_unknownSet ::= λ s, s ∖ {[newReady.1]} |> <| bq_readySet ::= λ s, s ∪ {[newReady.1]} |>.
Definition take_unknown (parent : h256) : BQ (list (h256 * bytes)) :=
  q ← getS;
  let '(removed, rest) := removeByKeyEqual parent (bq_unknown q) in
  modS (λ q, q <| bq_unknown := rest |>) ;; mret removed.
Fixpoint noteReady_loop (fuel : nat) (goodQueue : list h256) : BQ unit :=
  match goodQueue with
  | [] => mret tt
  | parent :: goodQueue =>
      match fuel with
      | O => out_of_fuel
      | S fuel =>
          removed ← take_unknown parent;
          forM removed (λ newReady, modS (enqueue_ready parent newReady)) ;;
          noteReady_loop fuel (goodQueue ++ (fst <$> removed))
      end
  end.
Definition noteReady (_good : h256) : BQ unit := q ← getS; noteReady_loop (S (length (m_map (bq_unknown q)))) [_good].

Definition condemn_unknown (newBad : h256 * bytes) (q : BlockQueue) : BlockQueue :=
  bad_insert newBad.1 (q <| bq_unknownSet ::= λ s, s ∖ {[newBad.1]} |>).
Fixpoint collectUnknownBad_loop (fuel : nat) (badQueue : list h256) : BQ unit :=
  match badQueue with
  | [] => mret tt
  | bad :: badQueue =>
      match fuel with
      | O => out_of_fuel
      | S fuel =>
          removed ← take_unknown bad;
          forM removed (λ newBad, modS (condemn_unknown newBad)) ;;
          collectUnknownBad_loop fuel (badQueue ++ (fst <$> removed))
      end
  end.
Definition collectUnknownBad (_bad : h256) : BQ unit := q ← getS; collectUnknownBad_loop (S (length (m_map (bq_unknown q)))) [_bad].

(** One of the three loops of [updateBad_WITH_LOCK]: the blocks [removeIf] returns. *)
Definition condemn (h : h256) : BQ unit := modS (bad_insert h) ;; modS (ready_erase h) ;; collectUnknownBad h.
Definition bad_verified (q : BlockQueue) (b : VerifiedBlock) : bool := is_bad q (vb_parent b) || is_bad q (vb_hash b).
Definition bad_unverified (q : BlockQueue) (b : UnverifiedBlock) : bool := is_bad q (u_parentHash b) || is_bad q (u_hash b).
Definition bad_verifying (q : BlockQueue) (b : VerifiedBlock) : bool := is_bad q (vb_parent b) || is_bad q (vb_uncles b).
Definition verifying_hash (b : VerifiedBlock) : h256 := if finished b then vb_hash b else vb_uncles b.
(** Whether there was any. *)
Definition updateBad_round : BQ bool :=
  q ← getS;
  let '(badVerified, rest) := queue_removeIf (bad_verified q) (bq_verified q) in
  modS (λ q, q <| bq_verified := rest |>) ;; forM badVerified (λ b, condemn (vb_hash b)) ;;
  q ← getS;
  let '(badUnverified, rest) := queue_removeIf (bad_unverified q) (bq_unverified q) in
  modS (λ q, q <| bq_unverified := rest |>) ;; forM badUnverified (λ b, condemn (u_hash b)) ;;
  q ← getS;
  let '(badVerifying, rest) := queue_removeIf (bad_verifying q) (bq_verifying q) in
  modS (λ q, q <| bq_verifying := rest |>) ;; forM badVerifying (λ b, condemn (verifying_hash b)) ;;
  mret (negb (bool_decide (badVerified = [])) || negb (bool_decide (badUnverified = [])) || negb (bool_decide (badVerifying = []))).
Fixpoint updateBad_loop (fuel : nat) : BQ unit :=
  match fuel with
  | O => out_of_fuel
  | S fuel => moreBad ← updateBad_round; when moreBad (updateBad_loop fuel)
  end.
Definition knownCount (q : BlockQueue) : Z :=
  queue_count (bq_verified q) + queue_count (bq_unverified q) + queue_count (bq_verifying q).
Definition updateBad (_bad : h256) : BQ unit :=
  collectUnknownBad _bad ;; q ← getS; updateBad_loop (S (Z.to_nat (knownCount q))).

(** ** Import *)

(** What the queue calls of the chain: [verifyBlock] without the checks that need other
    blocks, and (at each call) [isKnown]. *)
Class ChainFace := { chain_verify : bytes → Z → outcome VerifiedBlockRef }.

Section Importing.
Context `{CR : Crypto, CH : ChainFace}.

Definition all_known (q : BlockQueue) (h : h256) : bool :=
  bool_decide (h ∈ bq_readySet q ∪ bq_drainingSet q ∪ bq_unknownSet q ∪ bq_knownBad q ∪ bq_futureSet q).
(** Every block that is queued counts for the totals. *)
Definition count_block (bi : BlockHeader) (q : BlockQueue) : BlockQueue :=
  q <| bq_difficulty ::= λ d, w256 (d + h_difficulty bi) |> <| bq_now_height ::= λ n, if n <? h_number bi then h_number bi else n |>.
Definition queue_future (h : h256) (bi : BlockHeader) (_block : bytes) (isKnown : h256 → bool) : BQ ImportResult :=
  modS (λ q, q <| bq_future ::= map_insert (h_timestamp bi) h _block |> <| bq_futureSet ::= λ s, s ∪ {[h]} |>) ;;
  modS (count_block bi) ;;
  q ← getS;
  let unknown := negb (bool_decide (h_parentHash bi ∈ bq_readySet q ∪ bq_drainingSet q ∪ bq_futureSet q)) && negb (isKnown (h_parentHash bi)) in
  mret (if unknown then FutureTimeUnknown else FutureTimeKnown).
Definition queue_block (h : h256) (bi : BlockHeader) (_block : bytes) (isKnown : h256 → bool) : BQ ImportResult :=
  q ← getS;
  let parent := h_parentHash bi in
  if is_bad q parent then
    modS (bad_insert (h_hash bi)) ;; updateBad (h_hash bi) ;; mret BadChain
  else if negb (bool_decide (parent ∈ bq_readySet q)) && negb (bool_decide (parent ∈ bq_drainingSet q)) && negb (isKnown parent) then
    modS (λ q, q <| bq_unknown ::= map_insert parent h _block |> <| bq_unknownSet ::= λ s, s ∪ {[h]} |>) ;;
    modS (count_block bi) ;; mret UnknownParent
  else
    modS (λ q, q <| bq_unverified ::= queue_enqueue (mkUnverified h parent _block) |> <| bq_readySet ::= λ s, s ∪ {[h]} |>) ;;
    modS (count_block bi) ;; noteReady h ;; mret Success.
(** [import]; [now] is the clock. *)
Definition bq_import (_block : bytes) (_isOurs : bool) (now : int64) (isKnown : h256 → bool) : BQ ImportResult :=
  h ← lift (headerHashFromBlock _block);
  q ← getS;
  if all_known q h then mret AlreadyKnown
  else
    info ← try_catch (r ← lift (chain_verify _block IR_PostGenesis); mret (Some (vb_info r))) is_dev_exception (λ _, mret None);
    match info with
    | None => mret Malformed
    | Some bi =>
        if isKnown h then mret AlreadyInChain
        else if (now <? h_timestamp bi) && negb _isOurs then queue_future h bi _block isKnown
        else queue_block h bi _block isKnown
    end.

(** [tick]: the blocks whose time has come are imported again. *)
Definition take_future (now : int64) : BQ (list (h256 * bytes)) :=
  q ← getS;
  match m_map (bq_future q) with
  | [] => mret []
  | (firstKey, _) :: _ =>
      if now <? firstKey then mret []
      else
        let '(todo, rest) := removeByKeyNotGreater now (bq_future q) in
        modS (λ q, q <| bq_future := rest |>) ;;
        forM todo (λ e, modS (λ q, q <| bq_futureSet ::= λ s, s ∖ {[e.1]} |>)) ;;
        mret todo
  end.
Definition tick (now : int64) (isKnown : h256 → bool) : BQ unit :=
  todo ← take_future now; forM todo (λ e, _ ← bq_import e.2 false now isKnown; mret tt).

(** ** The chain takes the blocks *)
Definition c_maxKnownCount : Z := 100000.
Definition c_maxKnownSize : Z := 128 * 1024 * 1024.
Definition c_maxUnknownCount : Z := 100000.
Definition c_maxUnknownSize : Z := 512 * 1024 * 1024.
Definition knownSize (q : BlockQueue) : Z := w64 (q_size (bq_verified q) + q_size (bq_unverified q) + q_size (bq_verifying q)).
Definition knownFull (q : BlockQueue) : bool := (c_maxKnownSize <? knownSize q) || (c_maxKnownCount <? knownCount q).
Definition unknownSize (q : BlockQueue) : Z := w64 (m_size (bq_future q) + m_size (bq_unknown q)).
Definition unknownCount (q : BlockQueue) : Z := len (m_map (bq_future q)) + len (m_map (bq_unknown q)).
Definition unknownFull (q : BlockQueue) : bool := (c_maxUnknownSize <? unknownSize q) || (c_maxUnknownCount <? unknownCount q).

Definition drain_block (b : VerifiedBlock) (q : BlockQueue) : BlockQueue :=
  ready_erase (vb_hash b) (q <| bq_drainingSet ::= λ s, s ∪ {[vb_hash b]} |>
    <| bq_drainingDifficulty ::= λ d, w256 (d + h_difficulty (vb_header b)) |>).
(** [drain]: the blocks, and whether [m_onRoomAvailable] is signalled. *)
Definition drain (_max : nat) : BQ (list VerifiedBlock * bool) :=
  q ← getS;
  let wasFull := knownFull q in
  o_out ← (if bool_decide (bq_drainingSet q = ∅) then
             modS (λ q, q <| bq_drainingDifficulty := 0 |>) ;;
             let '(o_out, rest) := queue_dequeueMultiple (Nat.min _max (length (q_queue (bq_verified q)))) (bq_verified q) in
             modS (λ q, q <| bq_verified := rest |>) ;;
             forM o_out (λ b, modS (drain_block b)) ;;
             mret o_out
           else mret []);
  q ← getS;
  mret (o_out, wasFull && negb (knownFull q)).
Definition doneDrain (_bad : list h256) : BQ bool :=
  modS (λ q, q <| bq_drainingSet := ∅ |> <| bq_difficulty ::= λ d, w256 (d - bq_drainingDifficulty q) |> <| bq_drainingDifficulty := 0 |>) ;;
  modS (λ q, q <| bq_knownBad ::= λ s, s ∪ list_to_set _bad |>) ;;
  forM _bad updateBad ;;
  q ← getS;
  mret (negb (bool_decide (bq_readySet q = ∅))).
Fixpoint retryAllUnknown_loop (fuel : nat) : BQ unit :=
  q ← getS;
  match m_map (bq_unknown q) with
  | [] => mret tt
  | (parent, _) :: _ =>
      match fuel with
      | O => out_of_fuel
      | S fuel =>
          removed ← take_unknown parent;
          forM removed (λ newReady, modS (enqueue_ready parent newReady)) ;;
          retryAllUnknown_loop fuel
      end
  end.
Definition retryAllUnknown : BQ unit := q ← getS; retryAllUnknown_loop (length (m_map (bq_unknown q))).

(** ** Queries *)
Inductive QueueStatus := QReady | QImporting | QUnknownParent | QBad | QUnknown.
Definition blockStatus (q : BlockQueue) (h : h256) : QueueStatus :=
  if bool_decide (h ∈ bq_readySet q) then QReady
  else if bool_decide (h ∈ bq_drainingSet q) then QImporting
  else if bool_decide (h ∈ bq_unknownSet q) then QUnknownParent
  else if bool_decide (h ∈ bq_knownBad q) then QBad
  else QUnknown.
Definition isActive (q : BlockQueue) : bool :=
  negb (bool_decide (bq_readySet q = ∅) && bool_decide (bq_drainingSet q = ∅)
        && queue_isEmpty (bq_verified q) && queue_isEmpty (bq_verifying q) && queue_isEmpty (bq_unverified q)).
(** [invariants]: what the code checks of itself. *)
Definition invariants (q : BlockQueue) : bool := Z.of_nat (size (bq_readySet q)) =? knownCount q.
End Importing.
