(* ===== verification/BlockQueueProofs.v ===== *)
(** * The block queue as a pipeline

    The ready blocks form one sequence, [pipe]: the verified ones, those being verified and
    those not yet verified.  The invariant [Inv] ties the hash sets, the maps and the jobs of
    the verifier threads to that sequence; every operation that does not have to condemn
    queued blocks keeps it. *)
From stdpp Require Import base gmap list fin_sets.
From Stdlib Require Import ZArith Lia.
From S2P Require Import Prelude Rlp Interfaces Transaction TxQueue BlockHeader Executive BlockVerify BlockQueue.
Open Scope Z_scope.

(** ** Generic *)
Lemma insert_upper_elem {A} lt (x y : A) l : y ∈ insert_upper lt x l ↔ y = x ∨ y ∈ l.
Proof. rewrite insert_upper_perm. apply elem_of_cons. Qed.
Lemma forM_modS {S A} (f : A → S → S) l s : forM l (λ x, modS (f x)) s = (Ok tt, foldl (λ s x, f x s) s l).
Proof. revert s. induction l as [|x l IH]; intros s; [done|]. cbn [forM foldl]. by rewrite (bind_ok _ _ _ tt (f x s)). Qed.
Lemma filter_split {A} (f : A → bool) (l : list A) : filter (λ x, f x = true) l ++ filter (λ x, f x = false) l ≡ₚ l.
Proof.
  induction l as [|x l IH]; [done|]. destruct (f x) eqn:E.
  - rewrite filter_cons_True, filter_cons_False by congruence. by apply Permutation_skip.
  - rewrite filter_cons_False, filter_cons_True by congruence. rewrite <-Permutation_middle. by apply Permutation_skip.
Qed.
Lemma filter_all {A} (P : A → Prop) `{∀ x, Decision (P x)} l : Forall P l → filter P l = l.
Proof. induction 1; [done|]. by rewrite filter_cons_True, IHForall. Qed.
Lemma filter_none {A} (P : A → Prop) `{∀ x, Decision (P x)} l : Forall (λ x, ¬ P x) l → filter P l = [].
Proof. induction 1; [done|]. by rewrite filter_cons_False, IHForall. Qed.

Lemma fst_elem {A B} (e : A * B) l : e ∈ l → e.1 ∈ l.*1.
Proof. apply list_elem_of_fmap_2. Qed.

Lemma pairs_fst {A B} (l : list A) (p : B) : ((λ h, (h, p)) <$> l).*1 = l.
Proof. induction l as [|x l IH]; [done|]. cbn. by rewrite IH. Qed.

(** ** The view *)
Abbreviation entry := (h256 * h256)%type.
Definition verified_entry (b : VerifiedBlock) : entry := (vb_hash b, vb_parent b).
Definition verifying_entry (b : VerifiedBlock) : entry := (verifying_hash b, vb_parent b).
Definition unverified_entry (u : UnverifiedBlock) : entry := (u_hash u, u_parentHash u).
(** The ready blocks in order, with their parents. *)
Definition pipe (q : BlockQueue) : list entry :=
  (verified_entry <$> q_queue (bq_verified q)) ++ (verifying_entry <$> q_queue (bq_verifying q)) ++
  (unverified_entry <$> q_queue (bq_unverified q)).
Definition map_hashes (m : SizedBlockMap) : list h256 := (λ e, e.2.1) <$> m_map m.
(** Blocks that wait for something. *)
Definition parked (q : BlockQueue) : list h256 := map_hashes (bq_unknown q) ++ map_hashes (bq_future q).

Section Inv.
Context `{CR : Crypto, CH : ChainFace}.

(** The hash of a block that passed the check of [import]. *)
Definition block_hash (h : h256) : Prop := ∃ d r, chain_verify d IR_PostGenesis = Ok r ∧ h_hash (vb_info r) = h.
(** The bytes [d] are those of the block [h] with parent [parent]. *)
Definition is_block (h parent : h256) (d : bytes) : Prop :=
  block_hash h ∧ d ≠ [] ∧ ∃ x, header_of_block d = Ok x ∧ h_hash x = h ∧ h_parentHash x = parent.
Definition unverified_ok (u : UnverifiedBlock) : Prop := is_block (u_hash u) (u_parentHash u) (u_blockData u).
(** A block that is done; its uncles are no block. *)
Definition done_ok (b : VerifiedBlock) : Prop :=
  is_block (vb_hash b) (vb_parent b) (vb_blockData b) ∧ ∀ h, block_hash h → vb_uncles b ≠ h.

(** What the queue and the verifiers that run ([jobs]) have in common. *)
Record Inv (jobs : list UnverifiedBlock) (q : BlockQueue) : Prop := {
  i_ready : bq_readySet q = list_to_set (pipe q).*1;
  i_unknown : bq_unknownSet q = list_to_set (map_hashes (bq_unknown q));
  i_future : bq_futureSet q = list_to_set (map_hashes (bq_future q));
  i_once : NoDup ((pipe q).*1 ++ parked q);
  i_apart : ∀ h, h ∈ (pipe q).*1 ++ parked q → h ∉ bq_drainingSet q ∧ h ∉ bq_knownBad q;
  i_unverified : Forall unverified_ok (q_queue (bq_unverified q));
  i_verified : Forall done_ok (q_queue (bq_verified q));
  i_verifying : Forall (λ b, finished b = true → done_ok b) (q_queue (bq_verifying q));
  i_jobs : filter (λ b, finished b = false) (q_queue (bq_verifying q)) ≡ₚ placeholder <$> jobs;
  i_jobs_ok : Forall unverified_ok jobs;
  i_unknown_ok : Forall (λ e, is_block e.2.1 e.1 e.2.2) (m_map (bq_unknown q));
  i_future_ok : Forall (λ e, ∃ parent, is_block e.2.1 parent e.2.2) (m_map (bq_future q)) }.
(** The first block in [m_verifying] is not done. *)
Definition head_waits (q : BlockQueue) : Prop :=
  match q_queue (bq_verifying q) with [] => True | b :: _ => finished b = false end.

(** [q'] is [q] less the blocks that have been found bad. *)
Record dropped (q q' : BlockQueue) : Prop := {
  d_pipe : pipe q' = filter (λ e, e.1 ∉ bq_knownBad q') (pipe q);
  d_bad : bq_knownBad q ⊆ bq_knownBad q';
  d_bad_ready : bq_knownBad q' ⊆ bq_knownBad q ∪ bq_readySet q;
  d_draining : bq_drainingSet q' = bq_drainingSet q }.

Lemma placeholder_entry u : verifying_entry (placeholder u) = unverified_entry u.
Proof. done. Qed.
Lemma placeholder_unfinished u : finished (placeholder u) = false.
Proof. done. Qed.
Lemma pipe_not_bad jobs q e : Inv jobs q → e ∈ pipe q → e.1 ∉ bq_knownBad q.
Proof. intros HI He. apply HI, elem_of_app. left. by apply fst_elem. Qed.
Lemma dropped_refl jobs q : Inv jobs q → dropped q q.
Proof.
  intros HI. split; try set_solver. symmetry. apply filter_all, Forall_forall. intros e He. by eapply pipe_not_bad.
Qed.
Lemma dropped_trans jobs q1 q2 q3 : Inv jobs q1 → bq_readySet q2 = list_to_set (pipe q2).*1 → dropped q1 q2 → dropped q2 q3 → dropped q1 q3.
Proof.
  intros HI R2 [P1 B1 C1 D1] [P2 B2 C2 D2]. split; [|set_solver| |congruence].
  - rewrite P2, P1, list_filter_filter. apply list_filter_iff. intros e. set_solver.
  - intros h Hh. apply C2, elem_of_union in Hh as [Hh|Hh]; [by apply C1|]. apply elem_of_union. right.
    rewrite R2 in Hh. rewrite (i_ready _ _ HI). apply elem_of_list_to_set in Hh. apply elem_of_list_to_set.
    apply list_elem_of_fmap in Hh as (e&->&He). rewrite P1 in He. apply list_elem_of_filter in He as [_ He]. by apply fst_elem.
Qed.

(** The fields a step of the verifiers does not touch. *)
Definition same_waiting (q q' : BlockQueue) : Prop :=
  bq_unknownSet q' = bq_unknownSet q ∧ bq_unknown q' = bq_unknown q ∧ bq_futureSet q' = bq_futureSet q ∧ bq_future q' = bq_future q ∧
  bq_drainingSet q' = bq_drainingSet q.
(** The invariant of the three queues. *)
Record queues_ok (jobs : list UnverifiedBlock) (q : BlockQueue) : Prop := {
  qo_unverified : Forall unverified_ok (q_queue (bq_unverified q));
  qo_verified : Forall done_ok (q_queue (bq_verified q));
  qo_verifying : Forall (λ b, finished b = true → done_ok b) (q_queue (bq_verifying q));
  qo_jobs : filter (λ b, finished b = false) (q_queue (bq_verifying q)) ≡ₚ placeholder <$> jobs;
  qo_jobs_ok : Forall unverified_ok jobs }.
Lemma Inv_queues jobs q : Inv jobs q → queues_ok jobs q.
Proof. by intros []. Qed.

Lemma Inv_same jobs jobs' q q' : Inv jobs q → queues_ok jobs' q' → pipe q' = pipe q → same_waiting q q' →
  bq_readySet q' = bq_readySet q → bq_knownBad q' = bq_knownBad q → Inv jobs' q' ∧ dropped q q'.
Proof.
  intros HI [] Hp (E1&E2&E3&E4&E5) Er Eb. split.
  - destruct HI. split; unfold parked in *; rewrite ?Hp, ?E1, ?E2, ?E3, ?E4, ?E5, ?Er, ?Eb; done.
  - destruct (dropped_refl _ _ HI). split; rewrite ?Hp, ?Eb, ?E5; done.
Qed.
Lemma remove_entry (bad : gset h256) (A B : list entry) e : NoDup (A ++ e :: B).*1 → (∀ x, x ∈ A ++ e :: B → x.1 ∉ bad) →
  filter (λ x, x.1 ∉ bad ∪ {[e.1]}) (A ++ e :: B) = A ++ B.
Proof.
  intros Hn Hb. rewrite fmap_app, fmap_cons in Hn. apply NoDup_app in Hn as (_&HA&[HB _]%NoDup_cons).
  rewrite filter_app, filter_cons_False by set_solver. f_equal; apply filter_all, Forall_forall; intros x Hx.
  - intros [Hin|Hin%elem_of_singleton]%elem_of_union; [apply (Hb x); set_solver|]. apply (HA x.1); [by apply fst_elem|]. rewrite Hin. set_solver.
  - intros [Hin|Hin%elem_of_singleton]%elem_of_union; [apply (Hb x); set_solver|]. apply HB. rewrite <-Hin. by apply fst_elem.
Qed.
Lemma Inv_drop jobs jobs' q q' A e B : Inv jobs q → queues_ok jobs' q' → pipe q = A ++ e :: B → pipe q' = A ++ B → same_waiting q q' →
  bq_readySet q' = bq_readySet q ∖ {[e.1]} → bq_knownBad q' = bq_knownBad q ∪ {[e.1]} → Inv jobs' q' ∧ dropped q q'.
Proof.
  intros HI HQ Hp Hp' (E1&E2&E3&E4&E5) Er Eb.
  assert (NoDup (A ++ e :: B).*1 ∧ e.1 ∉ parked q) as [Hnd Hew].
  { pose proof (i_once _ _ HI) as Ho. rewrite Hp in Ho. apply NoDup_app in Ho as (?&Hd&_). split; [done|]. apply Hd. rewrite fmap_app. set_solver. }
  assert (filter (λ x, x.1 ∉ bq_knownBad q') (pipe q) = pipe q') as Hf.
  { rewrite Hp, Hp', Eb. apply remove_entry; [done|]. intros x Hx. apply (pipe_not_bad jobs); [done|]. by rewrite Hp. }
  split.
  - destruct HI, HQ. split; unfold parked in *; rewrite ?E1, ?E2, ?E3, ?E4, ?E5, ?Er; try done.
    + rewrite i_ready0, Hp, Hp'. clear -Hnd. rewrite !fmap_app, fmap_cons in *. apply NoDup_app in Hnd as (_&HA&[HB _]%NoDup_cons). set_solver.
    + rewrite Hp in i_once0. rewrite Hp'. clear -i_once0. rewrite !fmap_app, fmap_cons in *. eapply sublist_NoDup; [exact i_once0|].
      apply sublist_app; [|done]. apply sublist_app; [done|]. by apply sublist_cons.
    + intros h Hh. assert (h ∈ (pipe q).*1 ++ map_hashes (bq_unknown q) ++ map_hashes (bq_future q)) as Hh'.
      { rewrite Hp. rewrite Hp' in Hh. rewrite !fmap_app, fmap_cons in *. set_solver. }
      destruct (i_apart0 h Hh') as [? Hnk]. split; [done|]. rewrite Eb. intros [?|Heq%elem_of_singleton]%elem_of_union; [done|]. subst h.
      rewrite Hp' in Hh. apply elem_of_app in Hh as [Hh|Hh]; [|done]. rewrite fmap_app in *. clear -Hnd Hh. rewrite fmap_cons in Hnd.
      apply NoDup_app in Hnd as (_&HA&[HB _]%NoDup_cons). set_solver.
  - split; [done|set_solver| |done]. rewrite Eb. intros h [?|Heq%elem_of_singleton]%elem_of_union; [set_solver|]. subst h. apply elem_of_union. right.
    rewrite (i_ready _ _ HI), Hp. apply elem_of_list_to_set, fst_elem. set_solver.
Qed.

(** ** Verifiers *)
Lemma pipe_split q b rest : q_queue (bq_verifying q) = b :: rest →
  pipe q = (verified_entry <$> q_queue (bq_verified q)) ++ verifying_entry b :: (verifying_entry <$> rest) ++ (unverified_entry <$> q_queue (bq_unverified q)).
Proof. intros E. unfold pipe. by rewrite E. Qed.
Lemma queue_dequeue_Some {T} `{QueueItem T} (q : SizedBlockQueue T) b rest :
  queue_dequeue q = Some (b, rest) → q_queue q = b :: q_queue rest.
Proof. unfold queue_dequeue. destruct (q_queue q); [done|]. by intros [= -> <-]. Qed.
Lemma settle_pop jobs q b rest : Inv jobs q → queue_dequeue (bq_verifying q) = Some (b, rest) → finished b = true →
  let q' := settle b (q <| bq_verifying := rest |>) in (Inv jobs q' ∧ dropped q q') ∧ bq_verifying q' = rest.
Proof.
  intros HI Ed%queue_dequeue_Some Hf. cbv zeta. pose proof (Inv_queues _ _ HI) as [Qu Qv Qi Qj Qo]. rewrite Ed in Qi, Qj.
  apply Forall_cons in Qi as [Hb Qi]. rewrite filter_cons_False in Qj by congruence.
  unfold settle, is_bad. case_bool_decide as Hbad; (split; [|done]).
  - eapply (Inv_drop jobs jobs q); [exact HI|by split|by apply pipe_split|done|done| |];
      unfold verifying_entry, verifying_hash; by rewrite Hf.
  - apply (Inv_same jobs jobs q _ HI); try done.
    + split; try done. apply Forall_app. split; [done|]. by constructor; [apply Hb|].
    + rewrite (pipe_split q b (q_queue rest)) by done. unfold pipe. cbn. rewrite fmap_app, <-app_assoc. cbn.
      unfold verified_entry, verifying_entry, verifying_hash. by rewrite Hf.
Qed.
Lemma drainVerified_ok jobs q : Inv jobs q → Inv jobs (drainVerified q) ∧ dropped q (drainVerified q) ∧ head_waits (drainVerified q).
Proof.
  intros HI. unfold drainVerified. remember (length (q_queue (bq_verifying q))) as n eqn:Hn. assert (length (q_queue (bq_verifying q)) <= n)%nat as Hl by lia.
  clear Hn. revert q HI Hl. induction n as [|n IH]; intros q HI Hl; cbn [drainVerified_loop].
  { split; [done|]. split; [by eapply dropped_refl|]. unfold head_waits. by destruct (q_queue (bq_verifying q)); [|cbn in Hl; lia]. }
  destruct (queue_dequeue (bq_verifying q)) as [[b rest]|] eqn:Ed.
  - destruct (finished b) eqn:Hf.
    + destruct (settle_pop jobs q b rest HI Ed Hf) as ([HI' HD]&Hr). apply queue_dequeue_Some in Ed. destruct (IH _ HI') as (HI2&HD2&HW).
      { rewrite Hr. rewrite Ed in Hl. cbn in Hl. lia. }
      split; [done|]. split; [|done]. eapply dropped_trans; [done| |done|done]. apply HI'.
    + split; [done|]. split; [by eapply dropped_refl|]. apply queue_dequeue_Some in Ed. unfold head_waits. by rewrite Ed.
  - split; [done|]. split; [by eapply dropped_refl|]. unfold head_waits, queue_dequeue in *. by destruct (q_queue (bq_verifying q)).
Qed.
Lemma drainVerified_unverified q : bq_unverified (drainVerified q) = bq_unverified q.
Proof.
  unfold drainVerified. generalize (length (q_queue (bq_verifying q))) as n. intros n. revert q. induction n as [|n IH]; intros q; [done|].
  cbn [drainVerified_loop]. destruct (queue_dequeue (bq_verifying q)) as [[b rest]|]; [|done]. destruct (finished b); [|done].
  rewrite IH. unfold settle. by destruct (is_bad _ _).
Qed.

(** A job and its place in the queue. *)
Lemma job_place jobs q work : Inv jobs q → work ∈ jobs → ∃ A B, q_queue (bq_verifying q) = A ++ placeholder work :: B.
Proof.
  intros HI Hw. apply list_elem_of_split. assert (placeholder work ∈ placeholder <$> jobs) as Hp by by apply list_elem_of_fmap_2.
  rewrite <-(i_jobs _ _ HI) in Hp. by apply list_elem_of_filter in Hp as [_ ?].
Qed.
Lemma place_unique jobs q work A B : Inv jobs q → unverified_ok work → q_queue (bq_verifying q) = A ++ placeholder work :: B →
  Forall (λ b, uncles_equal (u_hash work) b = false) A ∧ Forall (λ b, uncles_equal (u_hash work) b = false) B.
Proof.
  intros HI (Hbh&_) Eq. pose proof (i_once _ _ HI) as Ho. apply NoDup_app in Ho as (Ho&_).
  unfold pipe in Ho. rewrite Eq, !fmap_app in Ho. apply NoDup_app in Ho as (_&_&Ho). apply NoDup_app in Ho as (Ho&_).
  rewrite !fmap_cons in Ho. apply NoDup_app in Ho as (_&HA&[HB _]%NoDup_cons).
  pose proof (i_verifying _ _ HI) as Hv. rewrite Eq in Hv. apply Forall_app in Hv as [HvA [_ HvB]%Forall_cons]. rewrite Forall_forall in HvA, HvB.
  assert (∀ b, (finished b = true → done_ok b) → (finished b = false → vb_uncles b ≠ u_hash work) → uncles_equal (u_hash work) b = false) as Hne.
  { intros b H1 H2. unfold uncles_equal. apply Z.eqb_neq. destruct (finished b) eqn:Ef; [|by apply H2]. by apply (proj2 (H1 eq_refl)). }
  split; apply Forall_forall; intros b Hb; apply Hne; auto; intros Hf Hu.
  - apply (HA (u_hash work)); [|set_solver]. apply list_elem_of_fmap. exists (verifying_entry b). split; [|by apply list_elem_of_fmap_2].
    unfold verifying_entry, verifying_hash. by rewrite Hf.
  - apply HB. apply list_elem_of_fmap. exists (verifying_entry b). split; [|by apply list_elem_of_fmap_2].
    unfold verifying_entry, verifying_hash. by rewrite Hf.
Qed.

Lemma block_take_ok jobs q : Inv jobs q → head_waits q →
  match q_queue (bq_unverified q) with
  | [] => block_take q = (Ok None, q)
  | work :: _ => ∃ q', block_take q = (Ok (Some work), q') ∧ Inv (work :: jobs) q' ∧ pipe q' = pipe q ∧ dropped q q' ∧ head_waits q' ∧
      q_queue (bq_unverified q) = work :: q_queue (bq_unverified q')
  end.
Proof.
  intros HI HW. unfold block_take. rewrite (bind_ok _ _ _ q q) by done. destruct (queue_dequeue (bq_unverified q)) as [[work rest]|] eqn:Ed.
  - apply queue_dequeue_Some in Ed. rewrite Ed. set (q' := q <| bq_unverified := rest |> <| bq_verifying ::= queue_enqueue (placeholder work) |>).
    exists q'. split; [reflexivity|]. pose proof (Inv_queues _ _ HI) as [Qu Qv Qi Qj Qo].
    rewrite Ed in Qu. apply Forall_cons in Qu as [Hw Qu].
    assert (pipe q' = pipe q) as Hp.
    { unfold pipe. rewrite Ed. cbn. rewrite fmap_app, <-app_assoc. done. }
    destruct (Inv_same jobs (work :: jobs) q q') as [HI' HD]; try done.
    { split; cbn; try done.
      - apply Forall_app. split; [done|]. by repeat constructor.
      - rewrite filter_app, Qj, filter_cons_True, filter_nil by done. by rewrite Permutation_app_comm.
      - by constructor. }
    split_and!; try done. unfold head_waits in *. cbn. by destruct (q_queue (bq_verifying q)).
  - unfold queue_dequeue in Ed. by destruct (q_queue (bq_unverified q)).
Qed.
Lemma job_leaves jobs q work jobs' A B : Inv jobs q → jobs ≡ₚ work :: jobs' → q_queue (bq_verifying q) = A ++ placeholder work :: B →
  filter (λ b, finished b = false) (A ++ B) ≡ₚ placeholder <$> jobs' ∧ Forall unverified_ok jobs'.
Proof.
  intros HI Hj Eq. pose proof (i_jobs _ _ HI) as Hp. rewrite Eq, Hj, filter_app, filter_cons_True, <-Permutation_middle in Hp by done. cbn in Hp.
  apply Permutation_cons_inv in Hp. rewrite filter_app. split; [done|].
  pose proof (i_jobs_ok _ _ HI) as Ho. rewrite Hj in Ho. by apply Forall_cons in Ho as [_ ?].
Qed.
Lemma verifier_failed jobs q work jobs' e : Inv jobs q → jobs ≡ₚ work :: jobs' →
  ∃ q', verifier_done work (Throw e) q = (Ok false, q') ∧ Inv jobs' q' ∧ dropped q q' ∧ head_waits q' ∧ u_hash work ∈ bq_knownBad q' ∧
    bq_unverified q' = bq_unverified q.
Proof.
  intros HI Hj. assert (work ∈ jobs) as Hin by (rewrite Hj; set_solver).
  assert (unverified_ok work) as Hw by (pose proof (i_jobs_ok _ _ HI) as Ho; rewrite Forall_forall in Ho; by apply Ho).
  destruct (job_place jobs q work HI Hin) as (A&B&Eq). destruct (place_unique jobs q work A B HI Hw Eq) as [HA HB].
  destruct (job_leaves _ _ _ _ _ _ HI Hj Eq) as [Hjl Hjo]. pose proof (Inv_queues _ _ HI) as [Qu Qv Qi Qj Qo].
  set (q1 := bad_insert (u_hash work) (ready_erase (u_hash work) q) <| bq_verifying ::= λ v, (queue_removeIf (uncles_equal (u_hash work)) v).2 |>).
  assert (q_queue (bq_verifying q1) = A ++ B) as Ev.
  { cbn. rewrite Eq, filter_app, filter_cons_False by (unfold uncles_equal; cbn; by rewrite Z.eqb_refl). by rewrite !filter_all. }
  destruct (Inv_drop jobs jobs' q q1 ((verified_entry <$> q_queue (bq_verified q)) ++ (verifying_entry <$> A)) (unverified_entry work)
    ((verifying_entry <$> B) ++ (unverified_entry <$> q_queue (bq_unverified q)))) as [HI1 HD1]; try done.
  { split; try done; rewrite Ev; [|done]. rewrite Eq in Qi. apply Forall_app in Qi as [? [_ ?]%Forall_cons]. by apply Forall_app. }
  { unfold pipe. rewrite Eq, fmap_app, fmap_cons, <-!app_assoc. done. }
  { unfold pipe. rewrite Ev, fmap_app, <-!app_assoc. done. }
  destruct (drainVerified_ok _ _ HI1) as (HI2&HD2&HW2). exists (drainVerified q1). split_and!; try done.
  - eapply dropped_trans; [exact HI|apply HI1|done|done].
  - apply (d_bad _ _ HD2). cbn. set_solver.
  - by rewrite drainVerified_unverified.
Qed.
(** The verified block that comes back for a job. *)
Definition result_for (work : UnverifiedBlock) (ref : VerifiedBlockRef) : Prop :=
  ∃ x, header_of_block (u_blockData work) = Ok x ∧ h_hash (vb_info ref) = h_hash x ∧ h_parentHash (vb_info ref) = h_parentHash x ∧
    ∀ h, block_hash h → h_sha3Uncles (vb_info ref) ≠ h.
Lemma result_ok work ref : unverified_ok work → result_for work ref →
  let res := mkVerifiedBlock ref (u_blockData work) in
  done_ok res ∧ finished res = true ∧ verifying_entry res = unverified_entry work.
Proof.
  intros (Hb&Hd&x&Ex&Eh&Ep) (y&Ey&Rh&Rp&Ru). cbv zeta. rewrite Ex in Ey. injection Ey as <-.
  assert (finished (mkVerifiedBlock ref (u_blockData work)) = true) as Hf by (unfold finished; cbn; by rewrite bool_decide_eq_false_2).
  assert (vb_hash (mkVerifiedBlock ref (u_blockData work)) = u_hash work) as Hh by (unfold vb_hash, vb_header; cbn; congruence).
  assert (vb_parent (mkVerifiedBlock ref (u_blockData work)) = u_parentHash work) as Hp by (unfold vb_parent, vb_header; cbn; congruence).
  split_and!; [|done|].
  - split; [|exact Ru]. rewrite Hh, Hp. split; [done|]. split; [done|]. by exists x.
  - unfold verifying_entry, verifying_hash, unverified_entry. by rewrite Hf, Hh, Hp.
Qed.
Lemma replace_first_at h b A x B : Forall (λ y, uncles_equal h y = false) A → uncles_equal h x = true →
  replace_first h b (A ++ x :: B) = A ++ b :: B.
Proof. intros HA Hx. induction HA as [|y A Hy _ IH]; cbn; [by rewrite Hx|]. by rewrite Hy, IH. Qed.
(** The result takes the place of the job. *)
Lemma place_result jobs q work jobs' ref A B q1 : Inv jobs q → jobs ≡ₚ work :: jobs' → unverified_ok work → result_for work ref →
  q_queue (bq_verifying q) = A ++ placeholder work :: B →
  q1 = q <| bq_verifying := bq_verifying q1 |> → q_queue (bq_verifying q1) = A ++ mkVerifiedBlock ref (u_blockData work) :: B →
  Inv jobs' q1 ∧ dropped q q1.
Proof.
  intros HI Hj Hw Hr Eq E1 Ev. destruct (result_ok _ _ Hw Hr) as (Hd&Hf&He). destruct (job_leaves _ _ _ _ _ _ HI Hj Eq) as [Hjl Hjo].
  pose proof (Inv_queues _ _ HI) as [Qu Qv Qi Qj Qo]. rewrite E1. apply (Inv_same jobs jobs' q _ HI); try done.
  - split; cbn; rewrite ?Ev; try done.
    + rewrite Eq in Qi. apply Forall_app in Qi as [? [_ ?]%Forall_cons]. apply Forall_app. split; [done|]. by constructor.
    + rewrite filter_app, filter_cons_False, <-filter_app by congruence. done.
  - unfold pipe. cbn. rewrite Ev, Eq, !fmap_app, !fmap_cons. by rewrite He.
Qed.
Lemma verifier_succeeded jobs q work jobs' ref : Inv jobs q → head_waits q → jobs ≡ₚ work :: jobs' → result_for work ref →
  ∃ b q', verifier_done work (Ok ref) q = (Ok b, q') ∧ Inv jobs' q' ∧ dropped q q' ∧ head_waits q' ∧ bq_unverified q' = bq_unverified q.
Proof.
  intros HI HW Hj Hr. assert (work ∈ jobs) as Hin by (rewrite Hj; set_solver).
  assert (unverified_ok work) as Hw by (pose proof (i_jobs_ok _ _ HI) as Ho; rewrite Forall_forall in Ho; by apply Ho).
  destruct (job_place jobs q work HI Hin) as (A&B&Eq). destruct (place_unique jobs q work A B HI Hw Eq) as [HA HB].
  assert (uncles_equal (u_hash work) (placeholder work) = true) as Hpl by (unfold uncles_equal; cbn; apply Z.eqb_refl).
  set (res := mkVerifiedBlock ref (u_blockData work)). unfold verifier_done. cbv zeta. rewrite (bind_ok _ _ _ q q) by done.
  destruct (queue_dequeue (bq_verifying q)) as [[b rest]|] eqn:Ed; [|unfold queue_dequeue in Ed; rewrite Eq in Ed; by destruct A].
  pose proof (queue_dequeue_Some _ _ _ Ed) as Ed'. destruct A as [|a A].
  - rewrite Eq in Ed'. injection Ed' as <- Erest. fold (uncles_equal (u_hash work) (placeholder work)). rewrite Hpl.
    set (q1 := q <| bq_verifying := mkQueue (res :: B) (q_size rest + len (u_blockData work)) |>).
    destruct (place_result jobs q work jobs' ref [] B q1) as [HI1 HD1]; try done.
    assert (queue_dequeue (bq_verifying q1) = Some (res, rest)) as Ed1.
    { cbn. do 2 f_equal. unfold queue_dequeue in Ed. rewrite Eq in Ed. cbn in Ed. injection Ed as <-. cbn. f_equal. unfold w64.
      replace (_ + _ - _) with ((q_size (bq_verifying q) - len (vb_blockData (placeholder work))) mod 2 ^ 64) by (cbn; lia). by rewrite Z.mod_mod by lia. }
    destruct (settle_pop jobs' q1 res rest HI1 Ed1) as ([HI2 HD2]&_); [by destruct (result_ok _ _ Hw Hr) as (_&?&_)|].
    destruct (drainVerified_ok _ _ HI2) as (HI3&HD3&HW3).
    exists true, (drainVerified (settle res (q <| bq_verifying := rest |>))). split; [reflexivity|].
    change (q <| bq_verifying := rest |>) with (q1 <| bq_verifying := rest |>). split_and!; try done.
    + eapply dropped_trans; [exact HI|apply HI2| |done]. eapply dropped_trans; [exact HI|apply HI1|done|done].
    + rewrite drainVerified_unverified. unfold settle. by destruct (is_bad _ _).
  - rewrite Eq in Ed'. injection Ed' as <- Erest. apply Forall_cons in HA as [Ha HA]. fold (uncles_equal (u_hash work) a). rewrite Ha.
    set (q1 := q <| bq_verifying ::= queue_replace (u_hash work) res |>).
    assert (q_queue (bq_verifying q1) = (a :: A) ++ res :: B) as Ev.
    { cbn. unfold queue_replace. rewrite Eq, filter_app, (filter_none _ (a :: A)), filter_cons_True; [|done|].
      - cbn [app q_queue]. cbn [replace_first]. rewrite Ha. f_equal. by apply replace_first_at.
      - constructor; [congruence|]. eapply Forall_impl; [exact HA|]. cbn. congruence. }
    destruct (place_result jobs q work jobs' ref (a :: A) B q1) as [HI1 HD1]; try done.
    exists false, q1. split; [reflexivity|]. split_and!; try done. unfold head_waits in *. rewrite Ev. rewrite Eq in HW. done.
Qed.

(** ** Blocks whose parent has come *)
Lemma map_removeRange_perm P m : map_hashes m ≡ₚ (map_removeRange P m).1.*1 ++ map_hashes (map_removeRange P m).2.
Proof.
  unfold map_hashes. cbn. rewrite <-(filter_split (λ e, P e.1) (m_map m)) at 1. rewrite fmap_app. f_equiv. by rewrite <-!list_fmap_compose.
Qed.
Lemma fold_enqueue parent l : ∀ q, let q' := foldl (λ q e, enqueue_ready parent e q) q l in
  q_queue (bq_unverified q') = q_queue (bq_unverified q) ++ ((λ e, mkUnverified e.1 parent e.2) <$> l) ∧
  bq_unknownSet q' = bq_unknownSet q ∖ list_to_set l.*1 ∧ bq_readySet q' = bq_readySet q ∪ list_to_set l.*1 ∧
  bq_drainingSet q' = bq_drainingSet q ∧ bq_knownBad q' = bq_knownBad q ∧ bq_futureSet q' = bq_futureSet q ∧ bq_unknown q' = bq_unknown q ∧
  bq_future q' = bq_future q ∧ bq_verified q' = bq_verified q ∧ bq_verifying q' = bq_verifying q.
Proof.
  induction l as [|e l IH]; intros q; cbn [foldl].
  - cbn. rewrite app_nil_r. split_and!; try done; set_solver.
  - destruct (IH (enqueue_ready parent e q)) as (H1&H2&H3&H4&H5&H6&H7&H8&H9&H10). cbv zeta.
    rewrite H1, H2, H3, H4, H5, H6, H7, H8, H9, H10. cbn. rewrite <-app_assoc. split_and!; try done; set_solver.
Qed.
Definition ready_children (parent : h256) (q : BlockQueue) : BlockQueue :=
  let '(removed, rest) := removeByKeyEqual parent (bq_unknown q) in
  foldl (λ q e, enqueue_ready parent e q) (q <| bq_unknown := rest |>) removed.
Definition children_of (parent : h256) (q : BlockQueue) : list h256 := (removeByKeyEqual parent (bq_unknown q)).1.*1.
(** What does not change when blocks become ready. *)
Definition same_but_ready (q q' : BlockQueue) : Prop :=
  bq_drainingSet q' = bq_drainingSet q ∧ bq_knownBad q' = bq_knownBad q ∧ bq_future q' = bq_future q ∧ bq_verified q' = bq_verified q ∧
  bq_verifying q' = bq_verifying q.
Lemma same_but_ready_trans q1 q2 q3 : same_but_ready q1 q2 → same_but_ready q2 q3 → same_but_ready q1 q3.
Proof. intros (?&?&?&?&?) (?&?&?&?&?). split_and!; congruence. Qed.
Lemma ready_children_ok jobs q parent : Inv jobs q → let q' := ready_children parent q in
  Inv jobs q' ∧ pipe q' = pipe q ++ ((λ h, (h, parent)) <$> children_of parent q) ∧ same_but_ready q q' ∧
  (length (m_map (bq_unknown q')) + length (children_of parent q) = length (m_map (bq_unknown q)))%nat.
Proof.
  intros HI. cbv zeta. unfold ready_children, children_of. pose proof (map_removeRange_perm (λ k, k =? parent) (bq_unknown q)) as Hperm.
  fold (removeByKeyEqual parent) in Hperm.
  assert (Forall (λ e, is_block e.1 parent e.2) (removeByKeyEqual parent (bq_unknown q)).1 ∧
    Forall (λ e, is_block e.2.1 e.1 e.2.2) (m_map (removeByKeyEqual parent (bq_unknown q)).2)) as [Hr1 Hr2].
  { pose proof (i_unknown_ok _ _ HI) as Ho. rewrite Forall_forall in Ho. cbn. split.
    - apply Forall_fmap, Forall_forall. intros e [Hk He]%list_elem_of_filter. apply Z.eqb_eq in Hk. rewrite <-Hk. by apply Ho.
    - apply Forall_forall. intros e [_ He]%list_elem_of_filter. by apply Ho. }
  assert (length (m_map (removeByKeyEqual parent (bq_unknown q)).2) + length (removeByKeyEqual parent (bq_unknown q)).1.*1 = length (m_map (bq_unknown q)))%nat as Hlen.
  { apply Permutation_length in Hperm. unfold map_hashes in Hperm. rewrite length_app, !length_fmap in Hperm. rewrite length_fmap. lia. }
  destruct (removeByKeyEqual parent (bq_unknown q)) as [removed rest]. cbn [fst snd] in *.
  destruct (fold_enqueue parent removed (q <| bq_unknown := rest |>)) as (Hu&Hus&Hrs&Hd&Hb&Hf&Hk&Hm&Hv&Hi).
  set (q' := foldl _ _ removed) in *. cbn in Hu, Hus, Hrs, Hd, Hb, Hf, Hk, Hm, Hv, Hi.
  assert (pipe q' = pipe q ++ ((λ h, (h, parent)) <$> removed.*1)) as Hp.
  { unfold pipe. rewrite Hv, Hi, Hu, fmap_app, <-!app_assoc. do 3 f_equal. by rewrite <-!list_fmap_compose. }
  assert ((pipe q').*1 ++ parked q' ≡ₚ (pipe q).*1 ++ parked q) as Hall.
  { rewrite Hp, fmap_app. unfold parked. rewrite Hk, Hm, Hperm, <-!app_assoc. do 2 f_equiv. by rewrite pairs_fst. }
  split_and!; [|done|done..|by rewrite Hk].
  pose proof (i_once _ _ HI) as Ho. destruct HI. split; unfold parked in *; rewrite ?Hd, ?Hb, ?Hv, ?Hi, ?Hm, ?Hf, ?Hk; try done.
  - rewrite Hrs, i_ready0, Hp, fmap_app, list_to_set_app_L. f_equal. by rewrite pairs_fst.
  - rewrite Hus, i_unknown0. apply NoDup_app in Ho as (_&_&Ho). apply NoDup_app in Ho as (Ho&_). rewrite Hperm in Ho |- *.
    apply NoDup_app in Ho as (_&Ho&_). set_solver.
  - rewrite Hk, Hm in Hall. by rewrite Hall.
  - intros h Hh. apply i_apart0. rewrite Hk, Hm in Hall. by rewrite <-Hall.
  - rewrite Hu. apply Forall_app. split; [done|]. apply Forall_fmap. exact Hr1.
Qed.
Lemma take_and_enqueue parent q (k : list h256 → BQ unit) :
  (removed ← take_unknown parent; forM removed (λ e, modS (enqueue_ready parent e)) ;; k (removed.*1)) q =
  k (children_of parent q) (ready_children parent q).
Proof.
  unfold take_unknown, ready_children, children_of. rewrite bind_assoc, (bind_ok _ _ _ q q) by done.
  destruct (removeByKeyEqual parent (bq_unknown q)) as [removed rest].
  rewrite bind_assoc. erewrite bind_ok by reflexivity. erewrite bind_ok by reflexivity. erewrite bind_ok; [|apply forM_modS]. done.
Qed.

(** ** Parents first *)

(** Every block comes after its parent, or its parent is settled. *)
Definition parents_first (S : h256 → Prop) (l : list entry) : Prop :=
  ∀ i e, l !! i = Some e → S e.2 ∨ e.2 ∈ (take i l).*1.
Lemma parents_first_mono (S S' : h256 → Prop) l : (∀ h, S h → S' h) → parents_first S l → parents_first S' l.
Proof. intros HS Hp i e He. destruct (Hp i e He); auto. Qed.
Lemma parents_first_app S l k : parents_first S l → (∀ e, e ∈ k → S e.2 ∨ e.2 ∈ l.*1) → parents_first S (l ++ k).
Proof.
  intros Hp Hk i e He. destruct (decide (i < length l)%nat) as [Hi|Hi].
  - rewrite lookup_app_l in He by done. rewrite take_app_le by lia. by apply Hp.
  - rewrite lookup_app_r in He by lia. rewrite take_app_ge by lia. apply list_elem_of_lookup_2, Hk in He as [?|?]; [by left|right].
    rewrite fmap_app. set_solver.
Qed.
Lemma parents_first_filter (S : h256 → Prop) (bad : gset h256) l : parents_first S l → parents_first (λ h, S h ∨ h ∈ bad) (filter (λ e, e.1 ∉ bad) l).
Proof.
  induction l as [|x l IH] using rev_ind; intros Hp; [done|]. rewrite filter_app.
  assert (parents_first S l) as Hl.
  { intros i e He. pose proof (lookup_lt_Some _ _ _ He). specialize (Hp i e). rewrite lookup_app_l, take_app_le in Hp by lia. auto. }
  apply parents_first_app; [by apply IH|]. intros e [Hb [->|[]%elem_of_nil]%elem_of_cons]%list_elem_of_filter.
  destruct (Hp (length l) x) as [?|Hin]; [by rewrite lookup_app_r, Nat.sub_diag by lia|by left; left|].
  rewrite take_app_le, firstn_all2 in Hin by lia. destruct (decide (x.2 ∈ bad)) as [|Hn]; [by left; right|right].
  apply list_elem_of_fmap in Hin as (y&Ey&Hy). apply list_elem_of_fmap. exists y. split; [done|]. apply list_elem_of_filter. by rewrite <-Ey.
Qed.
Lemma parents_first_dropped S q q' : dropped q q' → parents_first S (pipe q) → parents_first (λ h, S h ∨ h ∈ bq_knownBad q') (pipe q').
Proof. intros HD Hp. rewrite (d_pipe _ _ HD). by apply parents_first_filter. Qed.
Lemma parents_first_drop S pre l : parents_first S (pre ++ l) → parents_first (λ h, S h ∨ h ∈ pre.*1) l.
Proof.
  intros Hp i e He. destruct (Hp (length pre + i)%nat e) as [?|Hin].
  - by rewrite lookup_app_r, Nat.add_comm, Nat.add_sub by lia.
  - by left; left.
  - rewrite take_app_ge, Nat.add_comm, Nat.add_sub, fmap_app in Hin by lia. apply elem_of_app in Hin as [?|?]; [left|]; by right.
Qed.

(** A round of blocks that become ready behind what is there. *)
Definition grows (S : h256 → Prop) (jobs : list UnverifiedBlock) (q q' : BlockQueue) : Prop :=
  Inv jobs q' ∧ parents_first S (pipe q') ∧ same_but_ready q q' ∧ (∃ new, pipe q' = pipe q ++ new).
Lemma noteReady_loop_ok (S : h256 → Prop) jobs fuel : ∀ goods q, Inv jobs q → parents_first S (pipe q) → (∀ g, g ∈ goods → S g ∨ g ∈ (pipe q).*1) →
  (length goods + length (m_map (bq_unknown q)) <= fuel)%nat →
  ∃ q', noteReady_loop fuel goods q = (Ok tt, q') ∧ grows S jobs q q'.
Proof.
  induction fuel as [|fuel IH]; intros goods q HI Hp Hg Hl.
  { destruct goods; [|cbn in Hl; lia]. exists q. split; [done|]. split_and!; try done. exists []. by rewrite app_nil_r. }
  destruct goods as [|g goods]; cbn [noteReady_loop].
  { exists q. split; [done|]. split_and!; try done. exists []. by rewrite app_nil_r. }
  rewrite (take_and_enqueue g q (λ hs, noteReady_loop fuel (goods ++ hs))).
  destruct (ready_children_ok jobs q g HI) as (HI1&Hp1&Hs1&Hl1). destruct (IH (goods ++ children_of g q) (ready_children g q) HI1) as (q'&E&HI2&Hpf&Hs2&new&En).
  - rewrite Hp1. apply parents_first_app; [done|]. intros e (h&->&_)%list_elem_of_fmap. apply Hg. set_solver.
  - intros x [Hx|Hx]%elem_of_app; rewrite Hp1, fmap_app.
    + destruct (Hg x); [set_solver|by left|right; set_solver].
    + right. apply elem_of_app. right. by rewrite pairs_fst.
  - cbn in Hl. rewrite length_app. lia.
  - exists q'. split; [done|]. split_and!; try done; [by eapply same_but_ready_trans|]. eexists. by rewrite En, Hp1, <-app_assoc.
Qed.
Lemma noteReady_ok (S : h256 → Prop) jobs q h : Inv jobs q → parents_first S (pipe q) → S h ∨ h ∈ (pipe q).*1 →
  ∃ q', noteReady h q = (Ok tt, q') ∧ grows S jobs q q'.
Proof.
  intros HI Hp Hh. unfold noteReady. rewrite (bind_ok _ _ _ q q) by done. apply noteReady_loop_ok; try done.
  intros g Hg. apply elem_of_cons in Hg as [->|[]%elem_of_nil]. done.
Qed.
Definition unknown_parents (q : BlockQueue) : list h256 := (m_map (bq_unknown q)).*1.
Lemma retryAllUnknown_ok (S : h256 → Prop) jobs q : Inv jobs q → parents_first S (pipe q) → (∀ h, h ∈ unknown_parents q → S h) →
  ∃ q', retryAllUnknown q = (Ok tt, q') ∧ grows S jobs q q'.
Proof.
  unfold retryAllUnknown. intros HI Hp Hk. rewrite (bind_ok _ _ _ q q) by done.
  assert (length (m_map (bq_unknown q)) <= length (m_map (bq_unknown q)))%nat as Hl by lia. revert Hl.
  generalize (length (m_map (bq_unknown q))) at 2 3. intros fuel. revert q HI Hp Hk.
  induction fuel as [|fuel IH]; intros q HI Hp Hk Hl; cbn [retryAllUnknown_loop]; rewrite (bind_ok _ _ _ q q) by done; destruct (m_map (bq_unknown q)) as [|[parent e] l] eqn:Em.
  - exists q. split; [done|]. split_and!; try done. exists []. by rewrite app_nil_r.
  - cbn in Hl. lia.
  - exists q. split; [done|]. split_and!; try done. exists []. by rewrite app_nil_r.
  - rewrite (take_and_enqueue parent q (λ _, retryAllUnknown_loop fuel)).
    destruct (ready_children_ok jobs q parent HI) as (HI1&Hp1&Hs1&Hl1). rewrite Em in Hl1.
    destruct (IH (ready_children parent q) HI1) as (q'&E&HI2&Hpf&Hs2&new&En).
    + rewrite Hp1. apply parents_first_app; [done|]. intros x (h&->&_)%list_elem_of_fmap. left. apply Hk. unfold unknown_parents. rewrite Em. set_solver.
    + intros h Hh. apply Hk. unfold unknown_parents in *. apply list_elem_of_fmap in Hh as (x&->&Hx). apply list_elem_of_fmap_2.
      unfold ready_children in Hx. destruct (removeByKeyEqual parent (bq_unknown q)) as [removed rest] eqn:Er.
      destruct (fold_enqueue parent removed (q <| bq_unknown := rest |>)) as (_&_&_&_&_&_&Hk'&_). rewrite Hk' in Hx. cbn in Hx.
      unfold removeByKeyEqual, map_removeRange in Er. injection Er as _ <-. cbn in Hx. by apply list_elem_of_filter in Hx as [_ ?].
    + assert (1 <= length (children_of parent q))%nat; [|cbn [length] in Hl, Hl1; lia]. unfold children_of. cbn. rewrite Em, filter_cons_True by apply Z.eqb_refl. cbn. lia.
    + exists q'. split; [done|]. split_and!; try done; [by eapply same_but_ready_trans|]. eexists. by rewrite En, Hp1, <-app_assoc.
Qed.
End Inv.
