(* ===== verification/BlockPipeline.v ===== *)
(** * The life of a block in the queue

    The operations of the queue as a step relation over the queue, the jobs of the verifier
    threads and the blocks that are settled; its invariant; and what follows: the sets the
    code keeps are exact, blocks are handed to the chain behind their parents whatever the
    order in which the verifiers finish, and every block is verified in the end. *)
From stdpp Require Import base gmap list fin_sets relations.
From Stdlib Require Import ZArith Lia.
From S2P Require Import Prelude Rlp RlpProofs Config Interfaces Transaction TxQueue Wire BlockHeader BlockHeaderProofs Blocks Executive BlockVerify BlockVerifyProofs BlockQueue BlockQueueProofs.
Open Scope Z_scope.

(** What the queue relies on: a verified header is the one in the bytes, and the uncles of
    a block that passed all checks do not hash to a block. *)
Class ChainFaceOk `{CR : Crypto, CH : !ChainFace} : Prop := {
  verify_reads : ∀ d ir r, ir = IR_PostGenesis ∨ ir = IR_OutOfOrderChecks → chain_verify d ir = Ok r →
    ∃ x, header_of_block d = Ok x ∧ h_hash (vb_info r) = h_hash x ∧ h_parentHash (vb_info r) = h_parentHash x;
  uncles_no_block : ∀ d r h, chain_verify d IR_OutOfOrderChecks = Ok r → block_hash h → h_sha3Uncles (vb_info r) ≠ h }.

(** ** Import *)
Section Importing.
Context `{CR : Crypto, CH : !ChainFace}.
Lemma count_block_Inv jobs bi q : Inv jobs q → Inv jobs (count_block bi q).
Proof. by intros []. Qed.
Context (jobs : list UnverifiedBlock) (q : BlockQueue) (h : h256) (bi : BlockHeader) (d : bytes) (isKnown : h256 → bool).
Context (HI : Inv jobs q) (Hb : is_block h (h_parentHash bi) d) (Hnew : all_known q h = false).

Lemma new_hash : h ∉ (pipe q).*1 ∧ h ∉ parked q ∧ h ∉ bq_drainingSet q ∧ h ∉ bq_knownBad q.
Proof using HI Hnew.
  pose proof Hnew as Hn. unfold all_known in Hn. apply bool_decide_eq_false in Hn.
  rewrite (i_ready _ _ HI), (i_unknown _ _ HI), (i_future _ _ HI), !elem_of_union, !elem_of_list_to_set in Hn.
  unfold parked. rewrite elem_of_app. clear -Hn. tauto.
Qed.
(** A block is put into one of the maps. *)
Lemma NoDup_more (l k : list h256) : NoDup l → h ∉ l → k ≡ₚ h :: l → NoDup k.
Proof using. intros Hn Hh ->. by constructor. Qed.
Lemma queue_future_ok : ∃ r q', queue_future h bi d isKnown q = (Ok r, q') ∧ Inv jobs q' ∧ pipe q' = pipe q ∧ bq_knownBad q' = bq_knownBad q ∧
  bq_verifying q' = bq_verifying q.
Proof using HI Hb Hnew.
  destruct new_hash as (N1&N2&N3&N4). eexists _, _. split; [reflexivity|].
  set (q1 := q <| bq_future ::= map_insert (h_timestamp bi) h d |> <| bq_futureSet ::= λ s, s ∪ {[h]} |>).
  assert (map_hashes (bq_future q1) ≡ₚ h :: map_hashes (bq_future q)) as Hm.
  { unfold map_hashes. cbn. by rewrite insert_upper_perm. }
  assert ((pipe q1).*1 ++ parked q1 ≡ₚ h :: (pipe q).*1 ++ parked q) as Hall.
  { unfold parked. rewrite Hm. change (pipe q1) with (pipe q). change (bq_unknown q1) with (bq_unknown q).
    rewrite (app_assoc (pipe q).*1), <-Permutation_middle. by rewrite <-app_assoc. }
  split; [|done]. apply count_block_Inv. fold q1. pose proof HI as [R1 R2 R3 R4 R5 ???????]. split; try done.
  - transitivity (list_to_set (C := gset h256) (h :: map_hashes (bq_future q))).
    + cbn. rewrite R3. clear. set_solver.
    + symmetry. apply list_to_set_perm_L, Hm.
  - eapply NoDup_more; [exact R4| |exact Hall]. by apply not_elem_of_app.
  - intros x Hx. rewrite Hall in Hx. apply elem_of_cons in Hx as [->|Hx]; [done|by apply R5].
  - cbn. rewrite insert_upper_perm. constructor; [by eexists|done].
Qed.
Lemma queue_block_ok S : parents_first S (pipe q) → h_parentHash bi ∉ bq_knownBad q →
  ∃ r q', queue_block h bi d isKnown q = (Ok r, q') ∧ Inv jobs q' ∧
    parents_first (λ x, S x ∨ isKnown x = true ∨ x ∈ bq_drainingSet q) (pipe q') ∧ bq_knownBad q' = bq_knownBad q ∧ bq_verifying q' = bq_verifying q.
Proof using HI Hb Hnew.
  intros Hp Hgood. destruct new_hash as (N1&N2&N3&N4). unfold queue_block. rewrite (bind_ok _ _ _ q q) by done. cbv zeta.
  unfold is_bad. rewrite bool_decide_eq_false_2 by done. set (S' := λ x, S x ∨ isKnown x = true ∨ x ∈ bq_drainingSet q).
  assert (parents_first S' (pipe q)) as Hp' by (eapply parents_first_mono; [|exact Hp]; unfold S'; auto).
  destruct (negb _ && negb _ && negb _) eqn:Eu.
  - eexists _, _. split; [reflexivity|]. set (q1 := q <| bq_unknown ::= map_insert (h_parentHash bi) h d |> <| bq_unknownSet ::= λ s, s ∪ {[h]} |>).
    assert (map_hashes (bq_unknown q1) ≡ₚ h :: map_hashes (bq_unknown q)) as Hm.
    { unfold map_hashes. cbn. by rewrite insert_upper_perm. }
    assert ((pipe q1).*1 ++ parked q1 ≡ₚ h :: (pipe q).*1 ++ parked q) as Hall.
    { unfold parked. rewrite Hm. change (pipe q1) with (pipe q). change (bq_future q1) with (bq_future q). cbn [app]. by rewrite <-Permutation_middle. }
    split; [|done]. apply count_block_Inv. fold q1. pose proof HI as [R1 R2 R3 R4 R5 ???????]. split; try done.
    + transitivity (list_to_set (C := gset h256) (h :: map_hashes (bq_unknown q))).
      * cbn. rewrite R2. clear. set_solver.
      * symmetry. apply list_to_set_perm_L, Hm.
    + eapply NoDup_more; [exact R4| |exact Hall]. by apply not_elem_of_app.
    + intros x Hx. rewrite Hall in Hx. apply elem_of_cons in Hx as [->|Hx]; [done|by apply R5].
    + cbn. rewrite insert_upper_perm. by constructor.
  - set (q1 := count_block bi (q <| bq_unverified ::= queue_enqueue (mkUnverified h (h_parentHash bi) d) |> <| bq_readySet ::= λ s, s ∪ {[h]} |>)).
    assert (pipe q1 = pipe q ++ [(h, h_parentHash bi)]) as Hp1.
    { unfold pipe. cbn. by rewrite fmap_app, !app_assoc. }
    assert (S' (h_parentHash bi) ∨ h_parentHash bi ∈ (pipe q).*1) as Hpar.
    { unfold S'. rewrite !andb_false_iff, !negb_false_iff, !bool_decide_eq_true, (i_ready _ _ HI), elem_of_list_to_set in Eu. clear -Eu. tauto. }
    assert (Inv jobs q1) as HI1.
    { apply count_block_Inv. pose proof HI as [R1 R2 R3 R4 R5 ???????]. split; try done.
      - cbn. rewrite R1. change (pipe _) with (pipe q1) at 2. rewrite Hp1, fmap_app, list_to_set_app_L. f_equal. clear. set_solver.
      - change (pipe _) with (pipe q1). change (parked _) with (parked q). rewrite Hp1, fmap_app. cbn.
        eapply (NoDup_more _ _ R4); [by apply not_elem_of_app|]. rewrite <-app_assoc. cbn [app]. by rewrite <-Permutation_middle.
      - change (pipe _) with (pipe q1). change (parked _) with (parked q). rewrite Hp1, fmap_app. cbn. intros x Hx.
        assert (x = h ∨ x ∈ (pipe q).*1 ++ parked q) as [->|Hx'] by (rewrite !elem_of_app, list_elem_of_singleton in Hx; rewrite elem_of_app; clear -Hx; tauto); [done|by apply R5].
      - cbn. apply Forall_app. split; [done|]. constructor; [exact Hb|constructor]. }
    destruct (noteReady_ok S' jobs q1 h HI1) as (q'&E&HI2&Hpf&(Hs1&Hs2&Hs3&Hs4&Hs5)&_).
    + rewrite Hp1. apply parents_first_app; [done|]. intros e [->|[]%elem_of_nil]%elem_of_cons. done.
    + right. rewrite Hp1, fmap_app. clear. set_solver.
    + exists Success, q'. split; [|done]. erewrite bind_ok by reflexivity. erewrite bind_ok by reflexivity. fold q1. erewrite bind_ok by exact E. done.
Qed.
End Importing.

Section Ops.
Context `{OK : ChainFaceOk}.

Lemma verified_is_block d r : chain_verify d IR_PostGenesis = Ok r →
  is_block (h_hash (vb_info r)) (h_parentHash (vb_info r)) d ∧ headerHashFromBlock d = Ok (h_hash (vb_info r)).
Proof.
  intros E. destruct (verify_reads d _ r (or_introl eq_refl) E) as (x&Ex&Eh&Ep).
  destruct (block_header_hash d x Ex) as (y&Ey&Hy). destruct (extractHeader_hash d y Ey) as [Hh Hd].
  split; [|by rewrite Hh, Eh, Hy]. split; [by exists d, r|]. split; [done|]. by exists x.
Qed.
Lemma job_result work ref : chain_verify (u_blockData work) IR_OutOfOrderChecks = Ok ref → result_for work ref.
Proof.
  intros E. destruct (verify_reads _ _ _ (or_intror eq_refl) E) as (x&Ex&Eh&Ep). exists x. split_and!; try done.
  intros h Hh. by eapply uncles_no_block.
Qed.

(** The block is not a child of one that is known to be bad. *)
Definition not_condemned (q : BlockQueue) (d : bytes) : Prop :=
  ∀ r, chain_verify d IR_PostGenesis = Ok r → h_parentHash (vb_info r) ∉ bq_knownBad q.
Lemma bq_import_ok S jobs q d ours now known : Inv jobs q → parents_first S (pipe q) → not_condemned q d →
  let q' := (bq_import d ours now known q).2 in
  Inv jobs q' ∧ parents_first (λ x, S x ∨ known x = true ∨ x ∈ bq_drainingSet q) (pipe q') ∧ bq_knownBad q' = bq_knownBad q ∧
  bq_verifying q' = bq_verifying q.
Proof.
  intros HI Hp Hnc. cbv zeta. unfold bq_import. set (S' := λ x, S x ∨ known x = true ∨ x ∈ bq_drainingSet q).
  assert (parents_first S' (pipe q)) as Hp' by (eapply parents_first_mono; [|exact Hp]; unfold S'; auto).
  destruct (headerHashFromBlock d) as [h|e| | |] eqn:Eh; [|done..].
  rewrite (bind_ok _ _ q h q), (bind_ok _ _ q q q) by done. destruct (all_known q h) eqn:Ek; [done|].
  destruct (chain_verify d IR_PostGenesis) as [r|e| | |] eqn:Ev; [|destruct (is_dev_exception e) eqn:Ee|done..].
  - rewrite (bind_ok _ _ q (Some (vb_info r)) q) by done. destruct (known h); [done|].
    destruct (verified_is_block d r Ev) as [Hb Hh]. assert (h = h_hash (vb_info r)) as Hhr by congruence. rewrite <-Hhr in Hb.
    destruct ((now <? _) && _).
    + destruct (queue_future_ok jobs q h (vb_info r) d known HI Hb Ek) as (x&q'&->&HI'&Ep&Eb&Evf). cbn [snd]. rewrite Ep. done.
    + destruct (queue_block_ok jobs q h (vb_info r) d known HI Hb Ek S Hp (Hnc r Ev)) as (x&q'&->&?). done.
  - rewrite (bind_ok _ _ q None q); [done|]. unfold try_catch, mbind, ST_bind, lift. by rewrite Ee.
  - erewrite bind_throw; [done|]. unfold try_catch, mbind, ST_bind, lift. rewrite Ee. reflexivity.
Qed.

(** ** Time passes; the chain takes blocks *)
Lemma fold_future l : ∀ q, foldl (λ q (e : h256 * bytes), q <| bq_futureSet ::= λ s, s ∖ {[e.1]} |>) q l =
  q <| bq_futureSet := bq_futureSet q ∖ list_to_set l.*1 |>.
Proof.
  induction l as [|e l IH]; intros q; cbn [foldl].
  - destruct q. cbn. by rewrite difference_empty_L.
  - rewrite IH. destruct q. cbn. by rewrite difference_difference_l_L.
Qed.
Lemma take_future_ok jobs q now : Inv jobs q → ∃ todo q', take_future now q = (Ok todo, q') ∧ Inv jobs q' ∧ pipe q' = pipe q ∧
  bq_knownBad q' = bq_knownBad q ∧ bq_verifying q' = bq_verifying q.
Proof.
  intros HI. unfold take_future. rewrite (bind_ok _ _ q q q) by done. destruct (m_map (bq_future q)) as [|[k0 e0] l] eqn:Em; [by exists [], q|].
  destruct (now <? k0); [by exists [], q|]. pose proof (map_removeRange_perm (λ k, k <=? now) (bq_future q)) as Hperm.
  fold (removeByKeyNotGreater now) in Hperm.
  assert (Forall (λ e, ∃ parent, is_block e.2.1 parent e.2.2) (m_map (removeByKeyNotGreater now (bq_future q)).2)) as Hok.
  { pose proof (i_future_ok _ _ HI) as Ho. rewrite Forall_forall in Ho. apply Forall_forall. intros e [_ He]%list_elem_of_filter. by apply Ho. }
  destruct (removeByKeyNotGreater now (bq_future q)) as [todo rest]. cbn [fst snd] in *.
  exists todo. eexists. split; [rewrite (bind_ok _ _ q tt (q <| bq_future := rest |>)) by done; erewrite bind_ok; [|apply forM_modS]; reflexivity|].
  rewrite fold_future. split; [|done]. pose proof HI as [R1 R2 R3 R4 R5 ???????].
  split; try done; cbn.
  - rewrite R3. apply NoDup_app in R4 as (_&_&R4). apply NoDup_app in R4 as (_&_&R4). rewrite Hperm in R4 |- *. apply NoDup_app in R4 as (_&R4&_).
    clear -R4. set_solver.
  - assert ((pipe q).*1 ++ map_hashes (bq_unknown q) ++ map_hashes rest ++ todo.*1 ≡ₚ (pipe q).*1 ++ parked q) as Hall.
    { unfold parked. rewrite Hperm. by rewrite (Permutation_app_comm (map_hashes rest)). }
    rewrite <-Hall, !app_assoc in R4. apply NoDup_app in R4 as [R4 _]. by rewrite <-app_assoc in R4.
  - intros h Hh. apply R5. unfold parked in *. rewrite Hperm. cbn in Hh. rewrite !elem_of_app in *. clear -Hh. tauto.
Qed.
Lemma fold_drain l : ∀ q, let q' := foldl (λ q b, drain_block b q) q l in
  bq_drainingSet q' = bq_drainingSet q ∪ list_to_set (vb_hash <$> l) ∧ bq_readySet q' = bq_readySet q ∖ list_to_set (vb_hash <$> l) ∧
  bq_unknownSet q' = bq_unknownSet q ∧ bq_knownBad q' = bq_knownBad q ∧ bq_futureSet q' = bq_futureSet q ∧ bq_unknown q' = bq_unknown q ∧
  bq_future q' = bq_future q ∧ bq_verified q' = bq_verified q ∧ bq_verifying q' = bq_verifying q ∧ bq_unverified q' = bq_unverified q.
Proof.
  induction l as [|b l IH]; intros q; cbn [foldl]; cbv zeta.
  - split_and!; try done; set_solver.
  - destruct (IH (drain_block b q)) as (H1&H2&H3&H4&H5&H6&H7&H8&H9&H10). cbv zeta in *.
    rewrite H1, H2, H3, H4, H5, H6, H7, H8, H9, H10. cbn. split_and!; try done; set_solver.
Qed.
Lemma drain_ok jobs q n : Inv jobs q → ∃ o_out room q', drain n q = (Ok (o_out, room), q') ∧ Inv jobs q' ∧
  pipe q = (verified_entry <$> o_out) ++ pipe q' ∧ bq_knownBad q' = bq_knownBad q ∧ bq_verifying q' = bq_verifying q ∧
  (bq_drainingSet q = ∅ → o_out = take n (q_queue (bq_verified q))).
Proof.
  intros HI. unfold drain. rewrite (bind_ok _ _ q q q) by done. case_bool_decide as Hd.
  - set (k := Nat.min n (length (q_queue (bq_verified q)))). assert (take k (q_queue (bq_verified q)) = take n (q_queue (bq_verified q))) as Ht.
    { unfold k. destruct (Nat.min_spec n (length (q_queue (bq_verified q)))) as [[? ->]|[? ->]]; [done|]. by rewrite !firstn_all2. }
    cbn [queue_dequeueMultiple]. set (o := take k (q_queue (bq_verified q))).
    set (rest := mkQueue (drop k (q_queue (bq_verified q))) (w64 (q_size (bq_verified q) - data_size o))).
    set (q1 := foldl (λ q b, drain_block b q) (q <| bq_drainingDifficulty := 0 |> <| bq_verified := rest |>) o).
    destruct (fold_drain o (q <| bq_drainingDifficulty := 0 |> <| bq_verified := rest |>)) as (H1&H2&H3&H4&H5&H6&H7&H8&H9&H10). fold q1 in H1, H2, H3, H4, H5, H6, H7, H8, H9, H10.
    cbn in H1, H2, H3, H4, H5, H6, H7, H8, H9, H10. eexists o, _, q1. split.
    { erewrite bind_ok; [|erewrite bind_ok by reflexivity; erewrite bind_ok by reflexivity; erewrite bind_ok by apply forM_modS; reflexivity].
      fold rest. erewrite bind_ok by reflexivity. reflexivity. }
    assert (pipe q = (verified_entry <$> o) ++ pipe q1) as Hp.
    { unfold pipe. rewrite H8, H9, H10. cbn. rewrite <-(take_drop k (q_queue (bq_verified q))) at 1. by rewrite fmap_app, <-app_assoc. }
    assert ((verified_entry <$> o).*1 = vb_hash <$> o) as Hf by (by rewrite <-list_fmap_compose).
    split_and!; try done. pose proof HI as [R1 R2 R3 R4 R5 R6 R7 ?????]. rewrite Hp, fmap_app, Hf in R4. rewrite Hp, fmap_app, Hf in R5.
    rewrite <-app_assoc in R4. apply NoDup_app in R4 as (_&R4a&R4).
    split; unfold parked in *; rewrite ?H3, ?H5, ?H6, ?H7, ?H8, ?H9, ?H10; try done.
    + rewrite H2, R1, Hp, fmap_app, Hf. apply set_eq. intros x. rewrite elem_of_difference, !elem_of_list_to_set, elem_of_app.
      split; [clear; tauto|]. intros Hx. split; [by right|]. intros Hin. apply (R4a x Hin), elem_of_app. by left.
    + intros h Hh. rewrite H1, H4. rewrite Hd, union_empty_l_L, elem_of_list_to_set. split; [intros Hin; by apply (R4a h Hin)|].
      apply R5. rewrite <-app_assoc. apply elem_of_app. by right.
    + cbn. eapply Forall_drop in R7. exact R7.
  - exists [], (knownFull q && negb (knownFull q)), q. split; [reflexivity|]. split_and!; try done.
Qed.
Lemma doneDrain_ok jobs q : Inv jobs q → ∃ b q', doneDrain [] q = (Ok b, q') ∧ Inv jobs q' ∧ pipe q' = pipe q ∧ bq_knownBad q' = bq_knownBad q ∧
  bq_verifying q' = bq_verifying q.
Proof.
  intros HI. eexists _, _. split; [reflexivity|]. split_and!; try done.
  - pose proof HI as [R1 R2 R3 R4 R5 ???????]. split; try done. intros h Hh. cbn. split; [apply not_elem_of_empty|]. rewrite union_empty_r_L. by apply R5.
  - cbn. by rewrite union_empty_r_L.
Qed.
End Ops.

(** ** The system *)

(** The queue, the blocks the verifier threads work on, and the blocks that are settled:
    drained, found bad, vouched for by the chain or by the caller. *)
Record sys := mkSys { s_queue : BlockQueue; s_jobs : list UnverifiedBlock; s_settled : h256 → Prop }.

Section System.
Context `{OK : ChainFaceOk}.

(** What the verifiers do, in any order. *)
Inductive vstep : sys → sys → Prop :=
  | step_take q J S w q' : block_take q = (Ok (Some w), q') → vstep (mkSys q J S) (mkSys q' (w :: J) S)
  | step_done q J J' S w b q' : J ≡ₚ w :: J' → verifier_done w (chain_verify (u_blockData w) IR_OutOfOrderChecks) q = (Ok b, q') →
      vstep (mkSys q J S) (mkSys q' J' (λ h, S h ∨ h ∈ bq_knownBad q')).
Inductive bstep : sys → sys → Prop :=
  | step_verifier s s' : vstep s s' → bstep s s'
  | step_import q J S d ours now known : not_condemned q d →
      bstep (mkSys q J S) (mkSys (bq_import d ours now known q).2 J (λ h, S h ∨ known h = true ∨ h ∈ bq_drainingSet q))
  | step_future q J S now : bstep (mkSys q J S) (mkSys (take_future now q).2 J S)
  | step_drain q J S n o room q' : drain n q = (Ok (o, room), q') → bstep (mkSys q J S) (mkSys q' J (λ h, S h ∨ h ∈ vb_hash <$> o))
  | step_doneDrain q J S : bstep (mkSys q J S) (mkSys (doneDrain [] q).2 J S)
  | step_noteReady q J S h : bstep (mkSys q J S) (mkSys (noteReady h q).2 J (λ x, S x ∨ x = h))
  | step_retry q J S : bstep (mkSys q J S) (mkSys (retryAllUnknown q).2 J (λ x, S x ∨ x ∈ unknown_parents q))
  | step_clear q S : bstep (mkSys q [] S) (mkSys (bq_clear q) [] S).
Definition sys_new : sys := mkSys bq_empty [] (λ _, False).
Definition reached (s : sys) : Prop := rtc bstep sys_new s.

Record good (s : sys) : Prop := {
  g_inv : Inv (s_jobs s) (s_queue s); g_head : head_waits (s_queue s); g_order : parents_first (s_settled s) (pipe (s_queue s)) }.

Lemma verifying_same q q' : bq_verifying q' = bq_verifying q → head_waits q → head_waits q'.
Proof. unfold head_waits. by intros ->. Qed.
Lemma vstep_good s s' : vstep s s' → good s → good s' ∧ dropped (s_queue s) (s_queue s') ∧
  (2 * length (q_queue (bq_unverified (s_queue s'))) + length (s_jobs s') < 2 * length (q_queue (bq_unverified (s_queue s))) + length (s_jobs s))%nat.
Proof.
  intros [q J S w q' E|q J J' S w b q' HJ E] [HI HW HP]; cbn [s_queue s_jobs s_settled] in *.
  - pose proof (block_take_ok J q HI HW) as Ht. destruct (q_queue (bq_unverified q)) as [|w' l] eqn:Eu; [congruence|].
    destruct Ht as (q2&E2&HI2&Hp2&HD&HW2&Hu). rewrite E in E2. injection E2 as <- <-.
    split; [split; cbn [s_queue s_jobs s_settled]; [done|done|by rewrite Hp2]|]. split; [done|]. injection Hu as ->. cbn [length]. lia.
  - assert (∃ b q2, verifier_done w (chain_verify (u_blockData w) IR_OutOfOrderChecks) q = (Ok b, q2) ∧ Inv J' q2 ∧ dropped q q2 ∧ head_waits q2 ∧
      bq_unverified q2 = bq_unverified q) as (b2&q2&E2&HI2&HD&HW2&Hu).
    { destruct (chain_verify (u_blockData w) IR_OutOfOrderChecks) as [r|e| | |] eqn:Er; [| |done..].
      - apply (verifier_succeeded J q w J' r); try done. by apply job_result.
      - destruct (verifier_failed J q w J' e HI HJ) as (q2&E2&?&?&?&_&?). by exists false, q2. }
    rewrite E in E2. injection E2 as <- <-. split; [split; cbn [s_queue s_jobs s_settled]; [done|done|by apply (parents_first_dropped S q)]|]. split; [done|].
    rewrite Hu. apply Permutation_length in HJ. cbn in HJ. lia.
Qed.
Lemma clear_good q S : good (mkSys (bq_clear q) [] S).
Proof.
  split; cbn [s_queue s_jobs s_settled]; [|done|by intros ???]. split; try done; try (by constructor). by intros h Hh%elem_of_nil.
Qed.
Lemma bstep_good s s' : bstep s s' → good s → good s'.
Proof.
  intros [s1 s1' Hv|q J S d ours now known Hnc|q J S now|q J S n o room q' E|q J S|q J S h|q J S|q S] HG; [by apply (vstep_good s1)|..];
    destruct HG as [HI HW HP]; cbn [s_queue s_jobs s_settled] in *.
  - destruct (bq_import_ok S J q d ours now known HI HP Hnc) as (?&?&_&Hv). split; try done. by eapply verifying_same.
  - destruct (take_future_ok J q now HI) as (todo&q'&->&?&Hp&_&Hv). split; cbn [s_queue s_jobs s_settled snd]; [done|by eapply verifying_same|by rewrite Hp].
  - destruct (drain_ok J q n HI) as (o2&room2&q2&E2&?&Hp&_&Hv&_). rewrite E in E2. injection E2 as <- <- <-.
    split; cbn [s_queue s_jobs s_settled snd]; [done|by eapply verifying_same|]. rewrite Hp in HP. apply parents_first_drop in HP. eapply parents_first_mono; [|exact HP].
    cbn. intros x. by rewrite <-list_fmap_compose.
  - destruct (doneDrain_ok J q HI) as (b&q'&->&?&Hp&_&Hv). split; cbn [s_queue s_jobs s_settled snd]; [done|by eapply verifying_same|by rewrite Hp].
  - destruct (noteReady_ok (λ x, S x ∨ x = h) J q h HI) as (q'&->&?&Hp&(_&_&_&_&Hv)&_); [|by left; right|].
    { eapply parents_first_mono; [|exact HP]. auto. }
    split; cbn [s_queue s_jobs s_settled snd]; [done|by eapply verifying_same|done].
  - destruct (retryAllUnknown_ok (λ x, S x ∨ x ∈ unknown_parents q) J q HI) as (q'&->&?&Hp&(_&_&_&_&Hv)&_); [|auto|].
    { eapply parents_first_mono; [|exact HP]. auto. }
    split; cbn [s_queue s_jobs s_settled snd]; [done|by eapply verifying_same|done].
  - apply clear_good.
Qed.
Lemma reached_good s : reached s → good s.
Proof.
  intros Hr. assert (good sys_new) as H0.
  { apply (clear_good bq_empty). }
  unfold reached in Hr. revert H0. induction Hr as [s|s1 s2 s3 Hs _ IH]; [done|]. intros Hg. apply IH. by eapply bstep_good.
Qed.
Lemma nvsteps_good n s s' : nsteps vstep n s s' → good s → good s' ∧ dropped (s_queue s) (s_queue s') ∧
  (n + 2 * length (q_queue (bq_unverified (s_queue s'))) + length (s_jobs s') <= 2 * length (q_queue (bq_unverified (s_queue s))) + length (s_jobs s))%nat.
Proof.
  induction 1 as [s|n s1 s2 s3 Hv _ IH]; intros Hg.
  - split; [done|]. split; [|lia]. eapply dropped_refl, Hg.
  - destruct (vstep_good _ _ Hv Hg) as (Hg2&HD&Hm). destruct (IH Hg2) as (Hg3&HD2&Hm2). split; [done|]. split; [|lia].
    eapply dropped_trans; [apply Hg|apply Hg2|done|done].
Qed.

(** ** The properties *)

(** The sets of hashes say where the blocks are. *)
Record sets_exact (q : BlockQueue) : Prop := {
  se_invariants : invariants q = true;
  se_ready : ∀ h, h ∈ bq_readySet q ↔ h ∈ (pipe q).*1;
  se_unknown : ∀ h, h ∈ bq_unknownSet q ↔ h ∈ map_hashes (bq_unknown q);
  se_future : ∀ h, h ∈ bq_futureSet q ↔ h ∈ map_hashes (bq_future q);
  se_once : NoDup ((pipe q).*1 ++ map_hashes (bq_unknown q) ++ map_hashes (bq_future q));
  se_apart : ∀ h, h ∈ bq_readySet q ∪ bq_unknownSet q ∪ bq_futureSet q → h ∉ bq_drainingSet q ∪ bq_knownBad q }.

(** C24: The block queue keeps its books.  After any interleaving of imports, ticks, verifier
    threads, drains and retries: the self-check of the code ([invariants]) holds, the ready,
    unknown and future sets hold exactly the hashes of the blocks that are queued there, no
    block is queued twice, and no queued block is being drained or known to be bad.  (Steps
    that have to condemn queued blocks are left out.) *)
Theorem queue_sets_are_exact s : reached s → sets_exact (s_queue s).
Proof.
  intros Hr. destruct (reached_good s Hr) as [HI _ _]. destruct HI as [R1 R2 R3 R4 R5 _ _ _ _ _ _ _]. split; try done.
  - unfold invariants. apply Z.eqb_eq. rewrite R1, size_list_to_set by (by apply NoDup_app in R4 as [? _]).
    unfold knownCount, queue_count, pipe. rewrite !fmap_app, !length_app, !length_fmap. lia.
  - intros h. by rewrite R1, elem_of_list_to_set.
  - intros h. by rewrite R2, elem_of_list_to_set.
  - intros h. by rewrite R3, elem_of_list_to_set.
  - intros h Hh. rewrite R1, R2, R3, !elem_of_union, !elem_of_list_to_set in Hh. rewrite elem_of_union.
    destruct (R5 h); [|tauto]. unfold parked. rewrite !elem_of_app. tauto.
Qed.

(** C23: Blocks are handed to the chain in the right order.  Whatever the order in which the
    verifier threads finish, when the chain drains blocks, the parent of each is an earlier
    block of the same batch, or settled before: drained, found bad, or vouched for by the
    chain when the block came in (or by whoever called [noteReady] or [retryAllUnknown]).
    (Steps that have to condemn queued blocks are left out: drains that report bad blocks and
    imports under a bad parent.  After such a step it need not hold: [updateBad] can drop a block
    and leave its hash in the ready set, so that a child passes for ready, see
    [child_of_a_dropped_block_is_ready].) *)
Theorem drained_parents_first s n o room q' i b : reached s → drain n (s_queue s) = (Ok (o, room), q') → o !! i = Some b →
  s_settled s (vb_parent b) ∨ ∃ j c, (j < i)%nat ∧ o !! j = Some c ∧ vb_hash c = vb_parent b.
Proof.
  intros Hr E Hb. destruct (reached_good s Hr) as [HI _ HP]. destruct (drain_ok _ _ n HI) as (o2&room2&q2&E2&_&Hp&_).
  rewrite E in E2. injection E2 as <- <- <-. rewrite Hp in HP. pose proof (lookup_lt_Some _ _ _ Hb) as Hi.
  destruct (HP i (verified_entry b)) as [?|Hin]; [|by left|right].
  - rewrite lookup_app_l by (by rewrite length_fmap). by rewrite list_lookup_fmap, Hb.
  - rewrite take_app_le in Hin by (rewrite length_fmap; lia). apply list_elem_of_fmap in Hin as (e&He&Hin).
    apply list_elem_of_lookup in Hin as [j Hj]. apply lookup_take_Some in Hj as [Hj Hlt].
    rewrite list_lookup_fmap in Hj. destruct (o !! j) as [c|] eqn:Ec; [|done]. injection Hj as <-. by exists j, c.
Qed.

(** C25: Every ready block gets verified.  However the verifier threads are scheduled, they
    come to an end after at most two steps for each block not yet taken and one for each
    block being verified; and when none of them can go on, no block is left unverified or
    stuck behind another: each block that was ready is verified, in the order it had, or
    known to be bad.  Assumed: the check of a block returns or throws.  (Again no step
    condemns queued blocks before; if one does, a block can be left finished in [m_verifying],
    see [finished_block_is_stuck].) *)
Theorem verifiers_finish s n s' : reached s → (∀ d, (∃ x, chain_verify d IR_OutOfOrderChecks = Ok x) ∨ ∃ e, chain_verify d IR_OutOfOrderChecks = Throw e) →
  nsteps vstep n s s' →
  (n <= 2 * length (q_queue (bq_unverified (s_queue s))) + length (s_jobs s))%nat ∧
  ((∀ s'', ¬ vstep s' s'') →
   q_queue (bq_unverified (s_queue s')) = [] ∧ q_queue (bq_verifying (s_queue s')) = [] ∧
   verified_entry <$> q_queue (bq_verified (s_queue s')) = filter (λ e, e.1 ∉ bq_knownBad (s_queue s')) (pipe (s_queue s))).
Proof.
  intros Hr Htot Hn. destruct (nvsteps_good _ _ _ Hn (reached_good s Hr)) as ([HI HW HP]&HD&Hm). split; [lia|]. intros Hstop.
  destruct s' as [q' J' S']. cbn [s_queue s_jobs s_settled] in *.
  assert (q_queue (bq_unverified q') = []) as Hu.
  { pose proof (block_take_ok J' q' HI HW) as Ht. destruct (q_queue (bq_unverified q')) as [|w l]; [done|].
    destruct Ht as (q2&E2&_). destruct (Hstop (mkSys q2 (w :: J') S')). by constructor. }
  assert (J' = []) as HJ.
  { destruct J' as [|w J']; [done|]. pose proof (Htot (u_blockData w)) as Hx.
    assert (∃ b q2, verifier_done w (chain_verify (u_blockData w) IR_OutOfOrderChecks) q' = (Ok b, q2)) as (b&q2&E).
    { destruct Hx as [[x Ex]|[e Ex]]; rewrite Ex.
      - destruct (verifier_succeeded (w :: J') q' w J' x HI HW ltac:(done) (job_result w x Ex)) as (b&q2&E&_). eauto.
      - destruct (verifier_failed (w :: J') q' w J' e HI ltac:(done)) as (q2&E&_). eauto. }
    destruct (Hstop (mkSys q2 J' (λ h, S' h ∨ h ∈ bq_knownBad q2))). by econstructor. }
  assert (q_queue (bq_verifying q') = []) as Hv.
  { pose proof (i_jobs _ _ HI) as Hj. rewrite HJ in Hj. unfold head_waits in HW. destruct (q_queue (bq_verifying q')) as [|b l]; [done|].
    rewrite filter_cons_True in Hj by done. by apply Permutation_nil_r in Hj. }
  split_and!; [done|done|]. rewrite <-(d_pipe _ _ HD). unfold pipe. rewrite Hu, Hv. cbn. by rewrite app_nil_r.
Qed.
End System.

(** ** The chain behind the queue *)
Section Chain.
Context `{CR : Crypto, CF : Config} (p : ChainParams) (hp : HeaderParams) (st : BlockStore).
Definition chain_face : ChainFace := {| chain_verify := λ d ir, (verifyBlock p hp d ir st).1 |}.

Lemma header_hash_state _i h : ∃ m, (header_hash _i h).2 = h <| h_hashWithout := m |> ∨ has_flag _i WithSeal = true.
Proof.
  destruct (has_flag _i WithSeal) eqn:Ef; [exists 0; by right|]. unfold header_hash. rewrite (bind_ok _ _ h h h) by done. rewrite Ef.
  assert (h = h <| h_hashWithout := h_hashWithout h |>) as Hs by by destruct h.
  case_bool_decide; [eexists; left; exact Hs|]. destruct (header_streamRLP _i h stream_empty) as [s| | | |]; [|eexists; left; exact Hs..].
  rewrite (bind_ok _ _ h s h) by done. destruct (out s) as [b| | | |]; [|eexists; left; exact Hs..].
  rewrite (bind_ok _ _ h b h) by done. destruct (has_flag _i WithoutSeal); [by exists (sha3 b); left|eexists; left; exact Hs].
Qed.
Lemma verfy_sign_state h : ∃ m, (verfy_sign h).2 = h <| h_hashWithout := m |>.
Proof.
  assert (h = h <| h_hashWithout := h_hashWithout h |>) as Hs by by destruct h.
  unfold verfy_sign. rewrite (bind_ok _ _ h h h) by done. destruct (h_number h <=? 0); [eexists; exact Hs|].
  destruct (header_hash_state (Z.lor WithoutSign WithoutSeal) h) as [m [Em|Em]]; [|done]. exists m.
  unfold signed_hash, mbind, ST_bind. destruct (header_hash (Z.lor WithoutSign WithoutSeal) h) as [[x| | | |] h']; exact Em.
Qed.
Lemma verified_header_state _s block h h' : verified_header hp _s header_new block h = Ok h' → ∃ m, h' = h <| h_hashWithout := m |>.
Proof.
  unfold verified_header. destruct (seal_verify hp _s header_new block h) as [[[]| | | |] h1] eqn:E; try done. intros [= <-].
  rewrite seal_verify_split in E. destruct (verfy_sign_state h) as [m Em]. unfold mbind, ST_bind in E.
  destruct (verfy_sign h) as [[ok| | | |] h2]; try done. cbn in Em. destruct ok; [|done]. cbn [negb] in E. exists m. rewrite <-Em.
  destruct (verify_rest_checks hp _s header_new block ltac:(done) h2) as [Es _]. by rewrite E in Es.
Qed.
(** The first half of the contract holds of [BlockChain::verifyBlock]. *)
Lemma chain_face_reads d ir r : ir = IR_PostGenesis ∨ ir = IR_OutOfOrderChecks → @chain_verify chain_face d ir = Ok r →
  ∃ x, header_of_block d = Ok x ∧ h_hash (vb_info r) = h_hash x ∧ h_parentHash (vb_info r) = h_parentHash x.
Proof.
  intros Hir E. cbn in E. unfold verifyBlock, parent_for in E. replace (ir_has ir IR_Parent) with false in E by (by destruct Hir as [-> | ->]).
  destruct (header_of_block d) as [x| | | |] eqn:Ex; [|discriminate E..]. rewrite (bind_ok _ _ st x st) in E by done. exists x. split; [done|].
  destruct (_ && _); [discriminate E|]. rewrite (bind_ok _ _ st header_new st) in E by done.
  destruct (verified_header hp _ header_new d x) as [h'| | | |] eqn:Eh; [|discriminate E..]. rewrite (bind_ok _ _ st h' st) in E by done.
  apply verified_header_state in Eh as [m ->]. destruct (RLP d) as [b| | | |]; [|discriminate E..]. rewrite (bind_ok _ _ st b st) in E by done.
  unfold mbind, ST_bind in E. repeat (case_match; try discriminate E); simplify_eq/=; done.
Qed.
(** Nothing is assumed but that uncles and blocks do not share a hash. *)
Lemma chain_face_ok :
  (∀ d r d' r', (verifyBlock p hp d IR_OutOfOrderChecks st).1 = Ok r → (verifyBlock p hp d' IR_PostGenesis st).1 = Ok r' →
     h_sha3Uncles (vb_info r) ≠ h_hash (vb_info r')) → @ChainFaceOk CR chain_face.
Proof.
  intros Hu. split; [apply chain_face_reads|]. intros d r h E (d'&r'&E'&<-). exact (Hu d r d' r' E E').
Qed.
End Chain.

(** ** Two blocks, the child first *)
Definition block_with (h : BlockHeader) : bytes :=
  encode (Items [Items (header_items WithSeal (@sign_block open_crypto producer_sign h).2 []); Items []; Items []]).
Definition first_block : bytes := Eval vm_compute in block_with (header_for []).
Definition hash_of_block (d : bytes) : h256 := match @headerHashFromBlock open_crypto d with Ok h => h | _ => 0 end.
Definition second_block : bytes :=
  Eval vm_compute in block_with ((header_for []) <| h_parentHash := hash_of_block first_block |> <| h_number := 2 |> <| h_timestamp := 300 |>).
(** A chain that takes these two. *)
Definition pair_face : ChainFace :=
  {| chain_verify := λ d _, if bool_decide (d = first_block ∨ d = second_block)
       then h ← @header_of_block open_crypto d; Ok (mkVerified h []) else Throw BadRLP |}.
Lemma pair_face_ok : @ChainFaceOk open_crypto pair_face.
Proof.
  split.
  - intros d ir r _ E. unfold chain_verify, pair_face in E. destruct (bool_decide _); [|discriminate E]. destruct (@header_of_block open_crypto d) as [x| | | |]; [|discriminate E..].
    exists x. by injection E as <-.
  - intros d r h E (d'&r'&E'&<-). unfold chain_verify, pair_face in E, E'. destruct (bool_decide (d = _ ∨ _)) eqn:Hd; [|discriminate E]. destruct (bool_decide (d' = _ ∨ _)) eqn:Hd'; [|discriminate E'].
    apply bool_decide_eq_true in Hd, Hd'.
    destruct Hd as [-> | ->], Hd' as [-> | ->]; vm_compute in E, E'; injection E as <-; injection E' as <-; vm_compute; intros Hx; discriminate Hx.
Qed.
(** The child comes first and waits; two verifiers take the blocks, the second is done
    before the first. *)
Definition only_77 (h : h256) : bool := h =? 77.
Definition imported (d : bytes) (q : BlockQueue) : BlockQueue := (@bq_import open_crypto pair_face d false 1000 only_77 q).2.
Definition q_waiting : BlockQueue := Eval vm_compute in imported second_block bq_empty.
Definition q_ready : BlockQueue := Eval vm_compute in imported first_block q_waiting.
Definition job_1 : UnverifiedBlock := mkUnverified (hash_of_block first_block) 77 first_block.
Definition job_2 : UnverifiedBlock := mkUnverified (hash_of_block second_block) (hash_of_block first_block) second_block.
Definition q_taken : BlockQueue := Eval vm_compute in (block_take (block_take q_ready).2).2.
Definition reported (w : UnverifiedBlock) (q : BlockQueue) : BlockQueue :=
  (verifier_done w (@chain_verify pair_face (u_blockData w) IR_OutOfOrderChecks) q).2.
Definition q_done : BlockQueue := Eval vm_compute in reported job_1 (reported job_2 q_taken).
Lemma nothing_bad q d : bq_knownBad q = ∅ → @not_condemned pair_face q d.
Proof. intros E r _. rewrite E. apply not_elem_of_empty. Qed.
Lemma nothing_to_do q S : block_take q = (Ok None, q) → ∀ s'', ¬ @vstep pair_face (mkSys q [] S) s''.
Proof.
  intros E0 s'' Hv. inversion Hv as [q1 J S1 w q' E|q1 J J' S1 w b q' HJ E]; subst.
  - rewrite E0 in E. discriminate E.
  - by apply Permutation_nil_l in HJ.
Qed.
Lemma ready_reached : ∃ S, @reached open_crypto pair_face (mkSys q_ready [] S).
Proof.
  eexists. unfold reached, sys_new. assert (q_ready = imported first_block q_waiting) as -> by (vm_compute; reflexivity).
  eapply rtc_l; [|eapply rtc_l; [|apply rtc_refl]].
  - apply step_import with (d := second_block) (ours := false) (now := 1000) (known := only_77). apply nothing_bad. reflexivity.
  - fold (imported second_block bq_empty). assert (imported second_block bq_empty = q_waiting) as -> by (vm_compute; reflexivity).
    unfold imported. apply step_import with (d := first_block) (ours := false) (now := 1000) (known := only_77). apply nothing_bad. reflexivity.
Qed.
Lemma verifiers_run S : ∃ S', nsteps (@vstep pair_face) 4 (mkSys q_ready [] S) (mkSys q_done [] S').
Proof.
  eexists. eapply nsteps_l; [apply (step_take _ _ _ job_1 (block_take q_ready).2); vm_compute; reflexivity|].
  eapply nsteps_l; [apply (step_take _ _ _ job_2 q_taken); vm_compute; reflexivity|].
  eapply nsteps_l; [apply (step_done _ _ [job_1] _ job_2 false (reported job_2 q_taken)); [reflexivity|vm_compute; reflexivity]|].
  eapply nsteps_l; [apply (step_done _ _ [] _ job_1 true q_done); [reflexivity|vm_compute; reflexivity]|]. apply nsteps_O.
Qed.
Lemma done_reached : ∃ S, @reached open_crypto pair_face (mkSys q_done [] S).
Proof.
  destruct ready_reached as [S0 H0]. destruct (verifiers_run S0) as [S1 H1]. exists S1. unfold reached in *. etrans; [exact H0|].
  clear H0. induction H1 as [s|n s1 s2 s3 Hv _ IH]; [apply rtc_refl|]. eapply rtc_l; [by apply step_verifier|exact IH].
Qed.

Lemma queue_sets_are_exact_small : sets_exact q_done ∧ bq_readySet q_done = {[hash_of_block first_block; hash_of_block second_block]}.
Proof.
  split; [|vm_compute; reflexivity]. destruct done_reached as [S HS].
  pose proof (@queue_sets_are_exact open_crypto pair_face pair_face_ok _ HS) as H. cbn [s_queue] in H. exact H.
Defined.
Lemma drained_parents_first_small : ∃ S o, (drain 10 q_done).1 = Ok (o, false) ∧ vb_parent <$> o = [77; hash_of_block first_block] ∧
  (S (hash_of_block first_block) ∨ ∃ j c, (j < 1)%nat ∧ o !! j = Some c ∧ vb_hash c = hash_of_block first_block).
Proof.
  destruct done_reached as [S HS]. exists S, (q_queue (bq_verified q_done)).
  assert (drain 10 q_done = (Ok (q_queue (bq_verified q_done), false), (drain 10 q_done).2)) as E by (vm_compute; reflexivity).
  assert (∃ b, q_queue (bq_verified q_done) !! 1%nat = Some b ∧ vb_parent b = hash_of_block first_block) as (b&Eb&Ep)
    by (eexists; split; [vm_compute; reflexivity|vm_compute; reflexivity]).
  split; [by rewrite E|]. split; [vm_compute; reflexivity|]. rewrite <-Ep.
  pose proof (@drained_parents_first open_crypto pair_face pair_face_ok _ 10%nat _ _ _ 1%nat b HS E Eb) as H. cbn [s_settled] in H. exact H.
Defined.
Lemma verifiers_finish_small : ∃ S', (∀ s'', ¬ @vstep pair_face (mkSys q_done [] S') s'') ∧
  verified_entry <$> q_queue (bq_verified q_done) = filter (λ e, e.1 ∉ bq_knownBad q_done) (pipe q_ready).
Proof.
  destruct ready_reached as [S0 H0]. destruct (verifiers_run S0) as [S1 H1].
  destruct (λ Htot, @verifiers_finish open_crypto pair_face pair_face_ok _ 4%nat _ H0 Htot H1) as [_ Hf].
  - intros d. unfold chain_verify, pair_face. case_bool_decide as Hd; [|right; by eexists]. left. destruct Hd as [-> | ->]; eexists; vm_compute; reflexivity.
  - exists S1. assert (block_take q_done = (Ok None, q_done)) as E0 by (vm_compute; reflexivity).
    pose proof (nothing_to_do q_done S1 E0) as Hstop.
    cbn [s_queue] in Hf.
    destruct (Hf Hstop) as (_&_&H). split; [exact Hstop|exact H].
Defined.
