(* ===== verification/BlockPurge.v ===== *)
(** * When a block turns out to be bad

    [updateBad] always ends, and what is left in the queues afterwards; but the blocks it
    condemns on the way are not always the bad ones, and some bad ones it does not find. *)
From stdpp Require Import base gmap list fin_sets.
From Stdlib Require Import ZArith Lia.
From S2P Require Import Prelude Rlp Interfaces Transaction TxQueue BlockHeader Executive BlockVerify BlockQueue BlockQueueProofs.
Open Scope Z_scope.

(** ** [removeIf] *)
Section RemoveIf.
Context {T : Type} `{QueueItem T} (pred : T → bool).
Lemma remove_if_tail_length l : (length (remove_if_tail pred l) + length (filter (λ t, pred t = false) l) = length l)%nat.
Proof.
  unfold remove_if_tail. rewrite length_drop, length_fmap. pose proof (length_filter (λ t, pred t = false) l). lia.
Qed.
Lemma remove_if_none l : remove_if_tail pred l = [] → Forall (λ t, pred t = false) l ∧ filter (λ t, pred t = false) l = l.
Proof.
  intros E. pose proof (remove_if_tail_length l) as Hl. rewrite E in Hl. cbn [length Nat.add] in Hl. clear E.
  enough (Forall (λ t, pred t = false) l) as Hf by (split; [done|by apply filter_all]).
  induction l as [|t l IH]; [done|]. pose proof (length_filter (λ t, pred t = false) l). destruct (pred t) eqn:Ep.
  - rewrite filter_cons_False in Hl by congruence. cbn [length] in Hl. lia.
  - rewrite filter_cons_True in Hl by done. cbn [length] in Hl. constructor; [done|]. apply IH. lia.
Qed.
End RemoveIf.

(** ** Condemning *)

(** The queues stay as they are while descendants are condemned. *)
Definition same_queues (q q' : BlockQueue) : Prop :=
  bq_verified q' = bq_verified q ∧ bq_verifying q' = bq_verifying q ∧ bq_unverified q' = bq_unverified q ∧ bq_future q' = bq_future q ∧
  bq_knownBad q ⊆ bq_knownBad q'.
#[export] Instance same_queues_preorder : PreOrder same_queues.
Proof.
  split; [by intros q|]. intros q1 q2 q3 (?&?&?&?&?) (?&?&?&?&?). split_and!; [congruence..|]. by etrans.
Qed.
(** Nobody waits for a block that is bad but was not in [K], those in [todo] aside. *)
Definition none_waits (K : gset h256) (todo : list h256) (q : BlockQueue) : Prop :=
  ∀ b, b ∈ bq_knownBad q → b ∉ K → b ∉ todo → b ∉ (m_map (bq_unknown q)).*1.
Lemma fold_condemn l : ∀ q, let q' := foldl (λ q e, condemn_unknown e q) q l in
  same_queues q q' ∧ bq_unknown q' = bq_unknown q ∧ bq_knownBad q' = bq_knownBad q ∪ list_to_set l.*1.
Proof.
  induction l as [|e l IH]; intros q; cbn [foldl]; [split_and!; try done; cbn; set_solver|]. destruct (IH (condemn_unknown e q)) as (Hs&Hu&Hb). split_and!; [|done|].
  - etrans; [|exact Hs]. split_and!; try done. cbn. apply union_subseteq_l.
  - rewrite Hb. cbn. set_solver.
Qed.
Lemma collectUnknownBad_loop_ok fuel : ∀ bads q, (length bads + length (m_map (bq_unknown q)) <= fuel)%nat →
  ∃ q', collectUnknownBad_loop fuel bads q = (Ok tt, q') ∧ same_queues q q' ∧ ∀ K, none_waits K bads q → none_waits K [] q'.
Proof.
  induction fuel as [|fuel IH]; intros [|b bads] q Hl; cbn [length] in Hl; try lia; [by exists q..|]. cbn [collectUnknownBad_loop].
  unfold take_unknown. rewrite bind_assoc, (bind_ok _ _ q q q) by done.
  pose proof (map_removeRange_perm (λ k, k =? b) (bq_unknown q)) as Hperm%Permutation_length. fold (removeByKeyEqual b) in Hperm.
  unfold map_hashes in Hperm. rewrite length_app, !length_fmap in Hperm.
  assert (∀ x, x ∈ (m_map (removeByKeyEqual b (bq_unknown q)).2).*1 → x ≠ b ∧ x ∈ (m_map (bq_unknown q)).*1) as Hrest.
  { intros x. cbn. intros (e&->&[He Hin]%list_elem_of_filter)%list_elem_of_fmap. apply Z.eqb_neq in He. split; [done|]. apply list_elem_of_fmap. by exists e. }
  destruct (removeByKeyEqual b (bq_unknown q)) as [removed rest]. cbn [fst snd] in Hperm, Hrest. rewrite bind_assoc.
  erewrite bind_ok by reflexivity. erewrite bind_ok by reflexivity. erewrite bind_ok by apply forM_modS.
  destruct (fold_condemn removed (q <| bq_unknown := rest |>)) as (Hs&Hu&Hb). set (q1 := foldl _ _ removed) in *.
  destruct (IH (bads ++ removed.*1) q1) as (q'&E&Hs'&Hw).
  - rewrite Hu. cbn. rewrite length_app, length_fmap. lia.
  - exists q'. split; [done|]. split; [etrans; [|exact Hs']; etrans; [|exact Hs]; by split_and!|]. intros K HK. apply Hw. intros x Hx HxK Hxt Hin. rewrite Hu in Hin. cbn in Hin.
    apply Hrest in Hin as [Hne Hin]. rewrite elem_of_app in Hxt. rewrite Hb, elem_of_union, elem_of_list_to_set in Hx. cbn in Hx. destruct Hx as [Hx|Hx]; [|tauto].
    apply (HK x); try done. rewrite elem_of_cons. tauto.
Qed.
Lemma collectUnknownBad_ok h q : ∃ q', collectUnknownBad h q = (Ok tt, q') ∧ same_queues q q' ∧ ∀ K, none_waits K [h] q → none_waits K [] q'.
Proof. unfold collectUnknownBad. rewrite (bind_ok _ _ q q q) by done. apply collectUnknownBad_loop_ok. cbn. lia. Qed.
Lemma condemn_ok h q : ∃ q', condemn h q = (Ok tt, q') ∧ same_queues q q' ∧ ∀ K, none_waits K [] q → none_waits K [] q'.
Proof.
  unfold condemn. erewrite bind_ok by reflexivity. erewrite bind_ok by reflexivity.
  destruct (collectUnknownBad_ok h (ready_erase h (bad_insert h q))) as (q'&E&Hs&Hw). exists q'. split; [done|]. split.
  - etrans; [|exact Hs]. split_and!; try done. cbn. apply union_subseteq_l.
  - intros K HK. apply Hw. intros b Hb HbK Hbt. rewrite list_elem_of_singleton in Hbt. apply HK; [|done|apply not_elem_of_nil].
    cbn in Hb. rewrite elem_of_union, elem_of_singleton in Hb. tauto.
Qed.
Lemma condemn_all {T} (f : T → h256) l : ∀ q, ∃ q', forM l (λ b, condemn (f b)) q = (Ok tt, q') ∧ same_queues q q' ∧ (l = [] → q' = q) ∧
  ∀ K, none_waits K [] q → none_waits K [] q'.
Proof.
  induction l as [|b l IH]; intros q; cbn [forM]; [by exists q|]. destruct (condemn_ok (f b) q) as (q1&E1&H1&W1).
  destruct (IH q1) as (q2&E2&H2&_&W2). exists q2. erewrite bind_ok by exact E1. split; [done|]. split; [by etrans|]. split; [done|]. auto.
Qed.

(** ** Rounds *)
(** Nothing bad is queued. *)
Definition clean (q : BlockQueue) : Prop :=
  Forall (λ b, bad_verified q b = false) (q_queue (bq_verified q)) ∧ Forall (λ b, bad_unverified q b = false) (q_queue (bq_unverified q)) ∧
  Forall (λ b, bad_verifying q b = false) (q_queue (bq_verifying q)).
Lemma removeIf_count {T} `{QueueItem T} pred (q : SizedBlockQueue T) :
  queue_count (queue_removeIf pred q).2 + len (queue_removeIf pred q).1 = queue_count q.
Proof. unfold queue_count. cbn. pose proof (remove_if_tail_length pred (q_queue q)). lia. Qed.
(** What a round keeps besides. *)
Definition kept (q q' : BlockQueue) : Prop :=
  bq_knownBad q ⊆ bq_knownBad q' ∧ bq_future q' = bq_future q ∧ ∀ K, none_waits K [] q → none_waits K [] q'.
Lemma updateBad_round_ok q : ∃ b q', updateBad_round q = (Ok b, q') ∧ kept q q' ∧ knownCount q' <= knownCount q ∧
  (if b then knownCount q' < knownCount q else clean q').
Proof.
  unfold updateBad_round. rewrite (bind_ok _ _ q q q) by done.
  pose proof (removeIf_count (bad_verified q) (bq_verified q)) as C1. pose proof (remove_if_none (bad_verified q) (q_queue (bq_verified q))) as N1.
  destruct (queue_removeIf (bad_verified q) (bq_verified q)) as [r1 v1] eqn:E1. cbn [fst snd] in C1. erewrite bind_ok by reflexivity.
  destruct (condemn_all vb_hash r1 (q <| bq_verified := v1 |>)) as (q1&F1&(S1a&S1b&S1c&S1f&S1d)&Z1&W1). erewrite bind_ok by exact F1. cbn in S1a, S1b, S1c, S1d, S1f.
  rewrite (bind_ok _ _ q1 q1 q1) by done.
  pose proof (removeIf_count (bad_unverified q1) (bq_unverified q1)) as C2. pose proof (remove_if_none (bad_unverified q1) (q_queue (bq_unverified q1))) as N2.
  destruct (queue_removeIf (bad_unverified q1) (bq_unverified q1)) as [r2 v2] eqn:E2. cbn [fst snd] in C2. erewrite bind_ok by reflexivity.
  destruct (condemn_all u_hash r2 (q1 <| bq_unverified := v2 |>)) as (q2&F2&(S2a&S2b&S2c&S2f&S2d)&Z2&W2). erewrite bind_ok by exact F2. cbn in S2a, S2b, S2c, S2d, S2f.
  rewrite (bind_ok _ _ q2 q2 q2) by done.
  pose proof (removeIf_count (bad_verifying q2) (bq_verifying q2)) as C3. pose proof (remove_if_none (bad_verifying q2) (q_queue (bq_verifying q2))) as N3.
  destruct (queue_removeIf (bad_verifying q2) (bq_verifying q2)) as [r3 v3] eqn:E3. cbn [fst snd] in C3. erewrite bind_ok by reflexivity.
  destruct (condemn_all verifying_hash r3 (q2 <| bq_verifying := v3 |>)) as (q3&F3&(S3a&S3b&S3c&S3f&S3d)&Z3&W3). erewrite bind_ok by exact F3. cbn in S3a, S3b, S3c, S3d, S3f.
  eexists _, q3. split; [reflexivity|]. split.
  { split; [by etrans; [exact S1d|etrans; [exact S2d|exact S3d]]|]. split; [congruence|]. intros K HK. by apply W3, W2, W1. }
  assert (knownCount q3 = knownCount q - len r1 - len r2 - len r3) as Hc.
  { unfold knownCount. rewrite S3a, S3b, S3c, S2a, S2c, S1a. rewrite S2b in C3. rewrite S1c in C2. rewrite S1b in C3. lia. }
  split; [lia|]. destruct (negb (bool_decide (r1 = [])) || negb (bool_decide (r2 = [])) || negb (bool_decide (r3 = []))) eqn:Eb.
  - assert (r1 ≠ [] ∨ r2 ≠ [] ∨ r3 ≠ []) as Hne.
    { rewrite !orb_true_iff, !negb_true_iff, !bool_decide_eq_false in Eb. tauto. }
    assert (0 < len r1 ∨ 0 < len r2 ∨ 0 < len r3) as Hpos.
    { destruct Hne as [?|[?|?]]; [left|right; left|right; right]; [destruct r1|destruct r2|destruct r3]; try done; cbn; lia. }
    lia.
  - rewrite !orb_false_iff, !negb_false_iff, !bool_decide_eq_true in Eb. destruct Eb as [[-> ->] ->].
    injection E1 as T1 <-. injection E2 as T2 <-. injection E3 as T3 <-.
    destruct (N1 T1) as [A1 B1], (N2 T2) as [A2 B2], (N3 T3) as [A3 B3].
    rewrite (Z3 eq_refl). clear Z3 F3 S3a S3b S3c S3d S3f W1 W2 W3 Hc. specialize (Z2 eq_refl). specialize (Z1 eq_refl). subst q2 q1.
    clear C1 C2 C3 N1 N2 N3 S1a S1b S1c S1d S1f S2a S2b S2c S2d S2f F1 F2. unfold clean, bad_verified, bad_unverified, bad_verifying, is_bad in *.
    cbn in *. by rewrite B1, B2, B3.
Qed.
Lemma kept_trans q1 q2 q3 : kept q1 q2 → kept q2 q3 → kept q1 q3.
Proof. intros (H1&F1&W1) (H2&F2&W2). split; [by etrans|]. split; [congruence|auto]. Qed.
Lemma updateBad_loop_ok fuel : ∀ q, knownCount q < Z.of_nat fuel → ∃ q', updateBad_loop fuel q = (Ok tt, q') ∧ clean q' ∧ kept q q'.
Proof.
  induction fuel as [|fuel IH]; intros q Hf.
  { unfold knownCount, queue_count in Hf. lia. }
  cbn [updateBad_loop]. destruct (updateBad_round_ok q) as ([]&q1&E&Hs&_&Hb); erewrite bind_ok by exact E; cbn [when].
  - destruct (IH q1) as (q2&E2&Hc&Hs2); [lia|]. exists q2. split; [done|]. split; [done|]. by eapply kept_trans.
  - by exists q1.
Qed.

(** What is left when the blocks [K] were bad before. *)
Record purged (K : gset h256) (q : BlockQueue) : Prop := {
  pu_verified : ∀ b, b ∈ q_queue (bq_verified q) → vb_hash b ∉ bq_knownBad q ∧ vb_parent b ∉ bq_knownBad q;
  pu_unverified : ∀ b, b ∈ q_queue (bq_unverified q) → u_hash b ∉ bq_knownBad q ∧ u_parentHash b ∉ bq_knownBad q;
  pu_verifying : ∀ b, b ∈ q_queue (bq_verifying q) → vb_parent b ∉ bq_knownBad q ∧ (finished b = false → verifying_hash b ∉ bq_knownBad q);
  pu_unknown : ∀ h, h ∈ bq_knownBad q → h ∉ K → h ∉ (m_map (bq_unknown q)).*1 }.
Lemma is_bad_false q h : is_bad q h = false ↔ h ∉ bq_knownBad q.
Proof. unfold is_bad. by rewrite bool_decide_eq_false. Qed.
Lemma clean_purged K q : clean q → none_waits K [] q → purged K q.
Proof.
  intros (H1&H2&H3) HK. rewrite !Forall_forall in *. split.
  - intros b Hb. specialize (H1 b Hb). unfold bad_verified in H1. apply orb_false_iff in H1. rewrite !is_bad_false in H1. tauto.
  - intros b Hb. specialize (H2 b Hb). unfold bad_unverified in H2. apply orb_false_iff in H2. rewrite !is_bad_false in H2. tauto.
  - intros b Hb. specialize (H3 b Hb). unfold bad_verifying in H3. apply orb_false_iff in H3. rewrite !is_bad_false in H3. unfold verifying_hash.
    split; [tauto|]. intros ->. tauto.
  - intros h Hh Hn. apply HK; [done|done|apply not_elem_of_nil].
Qed.

(** C29: Condemning comes to an end.  Whatever is queued, when a block is found bad [updateBad]
    returns.  Afterwards no verified and no unverified block is known to be bad or has a
    parent that is; no block in verification has a parent that is, and none that is still
    being worked on is known to be bad; no block waits for a block that has become bad by
    this.  Nothing that was known to be bad is forgotten.  (Not promised, and not so: a block in
    [m_verifying] whose verification is finished is tested by its [sha3Uncles] and may be known to
    be bad; in [m_unknown] blocks may wait for others that were known to be bad before; [m_future]
    is not looked at.) *)
Theorem bad_blocks_are_purged h q : ∃ q', updateBad h q = (Ok tt, q') ∧ purged (bq_knownBad q ∖ {[h]}) q' ∧
  bq_knownBad q ⊆ bq_knownBad q' ∧ bq_future q' = bq_future q.
Proof.
  unfold updateBad. destruct (collectUnknownBad_ok h q) as (q1&E1&(_&_&_&F1&S1)&W1). erewrite bind_ok by exact E1.
  rewrite (bind_ok _ _ q1 q1 q1) by done. destruct (updateBad_loop_ok (S (Z.to_nat (knownCount q1))) q1) as (q2&E2&Hc&Hs&Hf&Hw).
  - unfold knownCount, queue_count. lia.
  - exists q2. split; [done|]. split; [|split; [by etrans|congruence]]. apply clean_purged; [done|]. apply Hw, W1.
    intros b Hb Hn. rewrite elem_of_difference, elem_of_singleton in Hn. rewrite list_elem_of_singleton. tauto.
Qed.

(** ** What goes wrong *)
Definition simple_block (h parent : h256) (data : bytes) : VerifiedBlock :=
  mkVerifiedBlock (mkVerified (header_new <| h_hash := h |> <| h_parentHash := parent |>) []) data.
(** Block 1 is a child of block 9, which the chain is importing; block 2 has nothing to do
    with either. *)
Definition two_blocks : BlockQueue :=
  bq_empty <| bq_drainingSet := {[9]} |> <| bq_readySet := {[1; 2]} |>
    <| bq_verified := queue_enqueue (simple_block 2 8 [7]) (queue_enqueue (simple_block 1 9 [5]) queue_new) |>.
(** The chain reports block 9 as bad: [removeIf] returns the shell of block 2, which was
    moved to the front.  Block 2 is condemned and dropped; block 1 is dropped as well, but
    stays in the ready set and is not known to be bad; the self-check of the queue fails. *)
Lemma good_block_is_condemned :
  let q := (doneDrain [9] two_blocks).2 in
  invariants two_blocks = true ∧ bq_knownBad q = {[9; 2]} ∧ bq_readySet q = {[1]} ∧ q_queue (bq_verified q) = [] ∧ invariants q = false.
Proof. vm_compute. done. Qed.

(** A child of block 1 that comes in after that is queued as ready: its parent was dropped, and
    is neither known to the chain nor bad. *)
Lemma child_of_a_dropped_block_is_ready :
  let q := (queue_block 5 (header_new <| h_hash := 5 |> <| h_parentHash := 1 |>) [3] (λ _, false) (doneDrain [9] two_blocks).2).2 in
  q_queue (bq_unverified q) = [mkUnverified 5 1 [3]] ∧ q_queue (bq_verified q) = [] ∧ is_bad q 1 = false.
Proof. vm_compute. done. Qed.
(** A finished block that is known to be bad stays in [m_verifying], and in [m_unknown] a block
    that waits for one that was bad before. *)
Lemma bad_blocks_may_stay :
  let q := (updateBad 9 (bq_empty <| bq_knownBad := {[9; 2; 3]} |> <| bq_readySet := {[2]} |>
    <| bq_verifying := queue_enqueue (simple_block 2 8 [7]) queue_new |> <| bq_unknown := map_insert 3 4 [5] map_new |>)).2 in
  q_queue (bq_verifying q) = [simple_block 2 8 [7]] ∧ is_bad q 2 = true ∧ m_map (bq_unknown q) = [(3, (4, [5]))] ∧ is_bad q 3 = true.
Proof. vm_compute. done. Qed.
(** Three blocks are being verified, the one in the middle is finished; the parent of the first
    turns out bad.  The first is dropped and the last one condemned; when both have reported, the
    one in the middle is where it was, finished and not bad, and nobody takes it on. *)
Definition work_1 : UnverifiedBlock := mkUnverified 1 9 [5].
Definition work_3 : UnverifiedBlock := mkUnverified 3 7 [6].
Definition three_blocks : BlockQueue :=
  bq_empty <| bq_drainingSet := {[9]} |> <| bq_readySet := {[1; 2; 3]} |>
    <| bq_verifying := queue_enqueue (placeholder work_3) (queue_enqueue (simple_block 2 8 [7]) (queue_enqueue (placeholder work_1) queue_new)) |>.
Lemma finished_block_is_stuck :
  let q1 := (verifier_done work_1 (Ok (vb_verified (simple_block 1 9 [5]))) (doneDrain [9] three_blocks).2).2 in
  let q := (verifier_done work_3 (Ok (vb_verified (simple_block 3 7 [6]))) q1).2 in
  q_queue (bq_verifying q) = [simple_block 2 8 [7]] ∧ q_queue (bq_verified q) = [] ∧ q_queue (bq_unverified q) = [] ∧ bq_knownBad q = {[9; 3]}.
Proof. vm_compute. done. Qed.

(** The size of a multimap of blocks: nothing is added for a block, its size is subtracted
    when it leaves, so the counter wraps and the queue is full for good. *)
Lemma unknown_size_wraps :
  let q := (noteReady 9 (bq_empty <| bq_unknown := map_insert 9 1 [5; 6] map_new |> <| bq_unknownSet := {[1]} |>)).2 in
  m_map (bq_unknown q) = [] ∧ m_size (bq_unknown q) = 2 ^ 64 - 2 ∧ unknownFull q = true.
Proof. vm_compute. done. Qed.
