(* ===== verification/Scenario.v ===== *)
(** * A small chain

    Concrete instances of the interfaces and a concrete state, on which the
    hypotheses of the theorems are evaluated. *)
From stdpp Require Import base gmap list.
From Stdlib Require Import ZArith Lia.
From S2P Require Import Prelude Rlp Config Objects Interfaces Account ChainState Operations Codec Transaction.
From S2P Require Import Exchange Vote Income Miner Verify Executive.
Open Scope Z_scope.

(** The configuration [config::getInstance] starts with (the test network). *)
#[export] Instance test_net : Config := default_config.

Definition alice : Address := 0xa11ce.
Definition bob : Address := 0xb0b.
Definition carol : Address := 0xca401.

(** An account with some BRC and cookies, free and frozen. *)
Definition holder (brc fbrc bal fbal : u256) : Account :=
  (Account_nbb 1 bal brc fbal) <| m_FBRC := fbrc |>.

(** Resting orders: Alice sells cookies at 2, Carol at 3 (in units of 10^-8), Bob buys at 1. *)
Definition ask (id : h256) (who : Address) (p amount : u256) (t : int64) : ex_order :=
  mkExOrder id who p amount amount t sell FUEL only_price.
Definition bid (id : h256) (who : Address) (p amount : u256) (t : int64) : ex_order :=
  mkExOrder id who p amount amount t buy FUEL only_price.
Definition small_book : list ex_order :=
  [ask 11 alice 200000000 10 1; ask 12 carol 300000000 20 2; bid 13 bob 100000000 5 3].
Definition exchange_account (l : list ex_order) : Account := (Account_ballot 0) <| m_exChangeOrder := l |>.

Definition stored (x : Account) : bytes := encode_account 100 (m_storageRoot x) x.
(** A state just after a commit at height 100: all accounts are in the trie. *)
Definition fresh_state (l : list (Address * Account)) : State :=
  mkState (list_to_map (prod_map id stored <$> l)) ∅ ∅ [] ∅ ∅ 0 0 100 101 [].
Definition small_chain : State :=
  fresh_state [(alice, holder 100 0 1000 10); (bob, holder 50 5 1000 0); (carol, holder 70 0 1000 20);
               (ExdbSystemAddress, exchange_account small_book)].

(** Transfers of BRC from Alice to Bob. *)
Definition transfer (n : u256) : operation := OpTranscation (mkTransOp op_brcTranscation alice bob 1 n).

(** The same chain with senders that can pay fees. *)
Definition paying_chain : State :=
  fresh_state [(alice, holder 100 0 1000000 10); (bob, holder 50 5 1000000 0); (carol, holder 70 0 1000 20);
               (ExdbSystemAddress, exchange_account small_book)].
(** Signed transactions of Alice with nonce 1: a batch, and a plain transfer to Bob. *)
Definition alice_sends (data : bytes) : Transaction :=
  mkTx VoteMassage 1 0 VoteAddress 2 100000 data (Some (mkSig 1 1 0)) 1 alice.
Definition alice_calls (to : Address) (v : u256) : Transaction :=
  mkTx MessageCall 1 v to 2 100000 [] (Some (mkSig 1 1 0)) 1 alice.
Definition at_block (n : int64) : EnvInfo := mkEnv n 5 1 carol 0 100000000.
(** All forks but the experimental one are active; no contract is ever run. *)
Definition test_params : ChainParams := mkParams 0 0 0 0 0 0 INT64_MAX 1 1.
#[export] Instance no_machine : Machine :=
  {| isPrecompiled := λ _ _, false; costOfPrecompiled := λ _ _ _, 0; executePrecompiled := λ _ _ _, (true, []);
     vm_exec := λ gas _ _, mret (VmOutput [] gas sub_empty) |}.
