(* ===== verification/VoteProofs.v ===== *)
(** * Voting, elections and shares

    The order of candidates, who is elected, which producers a fee snapshot
    remembers, how an income is shared, and what a vote does to an account. *)
From stdpp Require Import base gmap list.
From Stdlib Require Import ZArith Lia.
From S2P Require Import Prelude Rlp Config Objects Interfaces Account ChainState StateOps Operations Vote Income.
From S2P Require Import Miner Verify.
Open Scope Z_scope.

(** ** Sorting and electing *)
Lemma sort_body_id i j l : sort_body i j l = l.
Proof.
  unfold sort_body. destruct (l !! i) as [x|]; [|done]. destruct (l !! j) as [y|] eqn:Hj; [|done].
  destruct (poll_gt y x); [|done]. rewrite list_insert_insert_eq. by apply list_insert_id.
Qed.
Lemma sort_greater_id l : sort_greater l = l.
Proof.
  unfold sort_greater. cbv zeta. generalize (length l). intros n. generalize (seq 0 (n - 1)). intros outer.
  induction outer as [|i outer IH] using rev_ind; [done|]. rewrite foldl_app, IH. cbn.
  generalize (seq (S i) (n - S i)). intros js. induction js as [|j js IHj] using rev_ind; [done|].
  rewrite foldl_app, IHj. cbn. apply sort_body_id.
Qed.

Lemma tuple_eq {A B C D} (a a' : A) (b b' : B) (c c' : C) (d d' : D) :
  a = a' → b = b' → c = c' → d = d' → (a, b, c, d) = (a', b', c', d').
Proof. by intros -> -> -> ->. Qed.
Lemma elect_fold vs sb v s l :
  0 <= v < M256 → 0 <= s < M256 →
  foldl elect_step (vs, sb, v, s) l =
    (vs ++ take (Z.to_nat v) l, sb ++ take (Z.to_nat s) (drop (Z.to_nat v) l),
     Z.max 0 (v - Z.of_nat (length l)), Z.max 0 (s - Z.of_nat (length (drop (Z.to_nat v) l)))).
Proof.
  revert vs sb v s. induction l as [|x l IH]; intros vs sb v s Hv Hs; cbn [foldl].
  - rewrite drop_nil, !take_nil, !app_nil_r. cbn. apply tuple_eq; try done; lia.
  - unfold elect_step at 2. case_bool_decide as E1; [|case_bool_decide as E2].
    + rewrite w256_small by (unfold in256; lia). rewrite IH by lia.
      replace (Z.to_nat v) with (S (Z.to_nat (v - 1))) by lia. cbn [firstn skipn length]. rewrite <-app_assoc.
      apply tuple_eq; try done; lia.
    + assert (v = 0) as -> by lia. rewrite w256_small by (unfold in256; lia). rewrite IH by lia.
      cbn [Z.to_nat]. rewrite !drop_0. cbn [firstn length]. rewrite !app_nil_r.
      replace (Z.to_nat s) with (S (Z.to_nat (s - 1))) by lia. cbn [firstn]. rewrite <-app_assoc.
      apply tuple_eq; try done; lia.
    + assert (v = 0) as -> by lia. assert (s = 0) as -> by lia. rewrite IH by lia.
      cbn [Z.to_nat]. rewrite !drop_0. cbn [firstn length]. rewrite !app_nil_r. apply tuple_eq; try done; lia.
Qed.

(** ** Which producers a fee snapshot remembers *)
Lemma find_addr_None a l : find_addr a l = None ↔ a ∉ m_addr <$> l.
Proof.
  unfold find_addr. rewrite list_find_None, Forall_forall, list_elem_of_fmap. split.
  - intros H (p&->&Hp). by apply (H p).
  - intros H p Hp <-. apply H. eauto.
Qed.
Lemma not_listed v l data : NoDup (m_addr <$> data ++ v :: l) → ¬ is_Some (find_addr (m_addr v) data).
Proof.
  intros Hn [p Hp]. rewrite fmap_app, NoDup_app in Hn. destruct Hn as (_&Hd&_).
  rewrite (proj2 (find_addr_None (m_addr v) data)) in Hp; [done|]. intros Hv. apply (Hd _ Hv). left.
Qed.
Lemma record_late data i l :
  NoDup (m_addr <$> data ++ l) → foldl (record_step false) (data, i) l = (data ++ l, i).
Proof.
  revert data. induction l as [|v l IH]; intros data Hn; cbn [foldl]; [by rewrite app_nil_r|].
  unfold record_step at 2. rewrite bool_decide_eq_false_2 by (by eapply not_listed).
  rewrite IH; rewrite <-app_assoc; done.
Qed.
(** While the index has not reached zero, everything is kept. *)
Lemma record_keep data i l :
  NoDup (m_addr <$> data ++ l) → 0 < i < 2 ^ 32 → Z.of_nat (length l) < i →
  foldl (record_step true) (data, i) l = (data ++ l, i - Z.of_nat (length l)).
Proof.
  revert data i. induction l as [|v l IH]; intros data i Hn Hi Hl; cbn [foldl length] in *.
  - rewrite app_nil_r. f_equal. lia.
  - unfold record_step at 2. rewrite bool_decide_eq_false_2 by (by eapply not_listed).
    rewrite Z.mod_small by lia. rewrite bool_decide_eq_true_2 by lia.
    rewrite IH; [|by rewrite <-app_assoc|lia|lia]. rewrite <-app_assoc. f_equal. lia.
Qed.
(** Past zero it wraps around to 2^32 - 1. *)
Lemma record_wrapped data l :
  NoDup (m_addr <$> data ++ l) → Z.of_nat (length l) < 2 ^ 32 →
  (foldl (record_step true) (data, 0) l).1 = data ++ l.
Proof.
  intros Hn Hl. destruct l as [|v l]; [by rewrite app_nil_r|]. cbn [foldl length] in *.
  unfold record_step at 2. rewrite bool_decide_eq_false_2 by (by eapply not_listed).
  change ((0 - 1) mod 2 ^ 32) with (2 ^ 32 - 1). rewrite bool_decide_eq_true_2 by lia.
  rewrite record_keep; [|by rewrite <-app_assoc|lia|lia]. cbn. by rewrite <-app_assoc.
Qed.
Lemma record_select_early l :
  NoDup (m_addr <$> l) → Z.of_nat (length l) < 2 ^ 32 → record_select true l = take 7 l ++ drop 8 l.
Proof.
  intros Hn Hl. unfold record_select. change (minner_rank_num + 1) with 8.
  destruct (decide (length l <= 7)%nat) as [Hs|Hs].
  - rewrite record_keep by (try done; lia). by rewrite take_ge, drop_ge, app_nil_r by lia.
  - rewrite <-(take_drop 7 l) in Hn. rewrite <-(take_drop 7 l) at 1. rewrite foldl_app.
    assert (length (take 7 l) = 7%nat) as H7 by (rewrite length_take; lia).
    rewrite record_keep, H7; [|rewrite fmap_app, NoDup_app in Hn; by apply Hn|lia|lia].
    cbn [app]. change (8 - Z.of_nat 7) with 1.
    destruct (drop 7 l) as [|x l2] eqn:Ed; [apply (f_equal length) in Ed; rewrite length_drop in Ed; cbn in Ed; lia|].
    cbn [foldl]. unfold record_step at 2. rewrite bool_decide_eq_false_2 by (by eapply not_listed).
    change ((1 - 1) mod 2 ^ 32) with 0. rewrite bool_decide_eq_false_2 by lia.
    replace (drop 8 l) with l2 by (change 8%nat with (7 + 1)%nat; by rewrite <-drop_drop, Ed).
    apply (f_equal length) in Ed. rewrite length_drop in Ed. cbn in Ed.
    apply record_wrapped; [|lia].
    rewrite !fmap_app, !NoDup_app in *. destruct Hn as (H1&H2&H3). split_and!; [done| |].
    + intros a Ha Hb. apply (H2 a Ha). by right.
    + by inversion H3.
Qed.

(** ** Voting rounds *)
Section Rounds.
Context {cfg : Config}.

Lemma votingCycle_cases n :
  (n = 0 ∧ getVotingCycle n = (1, VOTE)) ∨
  (0 < n < one_year - one_month ∧ getVotingCycle n = (2, RECEIVINGINCOME)) ∨
  (one_year - one_month <= n < one_year ∧ 0 < n ∧ getVotingCycle n = (2, VOTE)) ∨
  ((n < 0 ∨ one_year <= n) ∧ getVotingCycle n = (3, RECEIVINGINCOME)).
Proof.
  unfold getVotingCycle. pose proof one_month_lt_year.
  destruct (Z.eqb_spec n 0); [by left|right].
  destruct (Z.ltb_spec 0 n), (Z.ltb_spec n one_year); cbn [andb]; try (right; right; split; [lia|done]).
  destruct (Z.ltb_spec n (one_year - one_month)), (Z.leb_spec (one_year - one_month) n); cbn [andb]; try lia.
  - left. split; [lia|done].
  - right. left. split_and!; [lia|lia|lia|done].
Qed.
End Rounds.

(** ** Sharing an income *)
Lemma node_part_exact fee n : in256 fee → 0 < n → node_part fee n = fee - fee / 2 / n * n.
Proof.
  intros Hf Hn. unfold node_part. pose proof (Z.mul_div_le (fee / 2) n). pose proof (Z.div_pos (fee / 2) n).
  pose proof (Z.div_pos fee 2). pose proof (Z.mul_div_le fee 2). unfold in256 in *.
  assert (0 <= fee / 2 / n * n <= fee) by nia.
  rewrite (w256_small (fee / 2 / n * n)) by (unfold in256; lia). apply w256_small. unfold in256. lia.
Qed.
Lemma vote_part_exact fee n v : in256 fee → 0 < n → 0 <= v <= n → vote_part fee n v = fee / 2 / n * v.
Proof.
  intros Hf Hn Hv. unfold vote_part. pose proof (Z.mul_div_le (fee / 2) n). pose proof (Z.div_pos (fee / 2) n).
  pose proof (Z.div_pos fee 2). pose proof (Z.mul_div_le fee 2). unfold in256 in *.
  apply w256_small. unfold in256. nia.
Qed.
Lemma shares_sum fee n vs :
  in256 fee → 0 < n → Forall (λ v, 0 <= v) vs → sumZ id vs <= n →
  sumZ (vote_part fee n) vs = fee / 2 / n * sumZ id vs.
Proof.
  intros Hf Hn Hv. induction Hv as [|v vs Hv0 Hvs IH]; intros Hs; [rewrite !sumZ_nil; lia|].
  rewrite !sumZ_cons in *. assert (0 <= sumZ id vs).
  { apply sumZ_nonneg. rewrite Forall_forall in Hvs. auto. }
  unfold id in Hs at 1. rewrite IH by (unfold id in *; lia). rewrite vote_part_exact by (try done; lia).
  unfold id at 2. lia.
Qed.

(** ** Votes *)
Lemma foldl_w256_sum {A} (f : A → Z) l n :
  foldl (λ t p, t [+] f p) (w256 n) l = w256 (n + sumZ f l).
Proof.
  revert n. induction l as [|x l IH]; intros n; cbn [foldl]; [by rewrite sumZ_nil, Z.add_0_r|].
  rewrite w256_add_l, IH, sumZ_cons. f_equal. lia.
Qed.
Lemma sumZ_insert {A} (f : A → Z) l i p q :
  l !! i = Some p → sumZ f (<[i := q]> l) = sumZ f l - f p + f q.
Proof.
  intros Hi. rewrite <-(take_drop_middle l i p Hi) at 2. rewrite insert_take_drop by (by eapply lookup_lt_Some).
  rewrite !sumZ_app, !sumZ_cons. lia.
Qed.
Lemma sumZ_erase {A} (f : A → Z) l i p : l !! i = Some p → sumZ f (erase_at i l) = sumZ f l - f p.
Proof.
  intros Hi. rewrite <-(take_drop_middle l i p Hi) at 2. unfold erase_at. rewrite !sumZ_app, sumZ_cons. lia.
Qed.
Lemma find_addr_Some a l i p : find_addr a l = Some (i, p) → l !! i = Some p ∧ m_addr p = a.
Proof. unfold find_addr. rewrite list_find_Some. tauto. Qed.

Section Votes.
Context `{CR : Crypto}.

Lemma voteAll_sum a : voteAll a = w256 (sumZ m_poll (m_vote_data a)).
Proof. unfold voteAll. change 0 with (w256 0). rewrite foldl_w256_sum. done. Qed.

Lemma vote_data_upd f a : m_vote_data (changed (a <| m_vote_data ::= f |>)) = f (m_vote_data a).
Proof. by destruct a. Qed.

(** Adding a vote of [v] (or taking one back: the negation) changes the account's
    votes by [v], whether the entry is new, updated or erased. *)
Lemma addVote_sum r v a a' : acc_addVote (r, v) a = Some a' → voteAll a' = voteAll a [+] v.
Proof.
  unfold acc_addVote. cbn [fst snd]. rewrite !voteAll_sum. set (l := m_vote_data a).
  destruct (find_addr r l) as [[i p]|] eqn:E.
  - apply find_addr_Some in E as [Hi _]. intros [= <-]. rewrite vote_data_upd. fold l.
    destruct (Z.ltb_spec 0 (m_poll p [+] v)) as [Hp|Hp].
    + rewrite (sumZ_insert _ _ _ _ _ Hi). change (m_poll (p <| m_poll ::= _ |>)) with (m_poll p [+] v).
      u256_norm. f_equal. lia.
    + rewrite (sumZ_erase _ _ _ _ Hi). pose proof (w256_in (m_poll p + v)) as Hw. unfold in256 in Hw.
      assert (m_poll p [+] v = 0) as Hz by lia. rewrite w256_add_l.
      replace (sumZ m_poll l + v) with ((sumZ m_poll l - m_poll p) + (m_poll p + v)) by lia.
      by rewrite <-w256_add_r, Hz, Z.add_0_r.
  - case_bool_decide; [|done]. intros [= <-]. rewrite vote_data_upd. fold l.
    rewrite sumZ_app, sumZ_cons, sumZ_nil. cbn. u256_norm. f_equal. lia.
Qed.

Lemma ballot_addBallot v a : m_ballot (acc_addBallot v a) = m_ballot a [+] v.
Proof. by destruct a. Qed.
Lemma voteAll_addBallot v a : voteAll (acc_addBallot v a) = voteAll a.
Proof. by destruct a. Qed.
Lemma ballot_addVote r v a a' : acc_addVote (r, v) a = Some a' → m_ballot a' = m_ballot a.
Proof.
  unfold acc_addVote. destruct (find_addr _ _) as [[i p]|]; [|case_bool_decide; [|done]]; intros [= <-]; by destruct a.
Qed.
End Votes.

(** ** Snapshots of votes *)
Section Snapshots.
Context `{CR : Crypto}.

(** No round from [k] on has been recorded. *)
Definition unrecorded (k : Z) (s : VoteSnapshot) : Prop :=
  ∀ j, k <= j → m_pollNumHistory s !! j = None ∧ m_blockSummaryHistory s !! j = None.
(** Round [j] is recorded with the votes and polls of [a] and the income [c]. *)
Definition recorded (a : Account) (c : u256) (j : Z) (s : VoteSnapshot) : VoteSnapshot :=
  mkSnapshot (<[j := vote_map (m_vote_data a)]> (m_voteDataHistory s)) (<[j := a_poll a]> (m_pollNumHistory s))
    (<[j := c]> (m_blockSummaryHistory s)) (numberofrounds s) (m_latest_round s).

Lemma map_count_None {V} (m : gmap Z V) j : m !! j = None → map_count m j = false.
Proof. intros E. unfold map_count. rewrite E. apply bool_decide_eq_false_2. by intros [??]. Qed.
Lemma snapshot_step_new a s c j :
  unrecorded j s → snapshot_step a (s, c) j = (recorded a c j s, 0).
Proof.
  intros H. destruct (H j) as [Hp Hb]; [lia|]. unfold snapshot_step. rewrite (map_count_None _ _ Hb).
  destruct s as [vd pn bs nr lr]. cbn [m_pollNumHistory m_blockSummaryHistory] in *.
  unfold upd, m_voteDataHistory_field, m_pollNumHistory_field, m_blockSummaryHistory_field. cbn.
  rewrite ?(map_count_None _ _ Hp), ?(map_count_None _ _ Hb). cbn. by rewrite ?(map_count_None _ _ Hb).
Qed.
Lemma unrecorded_recorded a c j s : unrecorded j s → unrecorded (j + 1) (recorded a c j s).
Proof. intros H i Hi. cbn. rewrite !lookup_insert_ne by lia. apply H. lia. Qed.

Lemma snapshot_fold a n k s c :
  unrecorded k s →
  let r := foldl (snapshot_step a) (s, c) (seqZ k (Z.of_nat n)) in
  m_latest_round r.1 = m_latest_round s ∧
  ∀ j, m_voteDataHistory r.1 !! j = (if (k <=? j) && (j <? k + Z.of_nat n) then Some (vote_map (m_vote_data a)) else m_voteDataHistory s !! j) ∧
       m_pollNumHistory r.1 !! j = (if (k <=? j) && (j <? k + Z.of_nat n) then Some (a_poll a) else m_pollNumHistory s !! j) ∧
       m_blockSummaryHistory r.1 !! j =
         (if (k <=? j) && (j <? k + Z.of_nat n) then Some (if j =? k then c else 0) else m_blockSummaryHistory s !! j).
Proof.
  revert k s c. induction n as [|n IH]; intros k s c Hs; cbv zeta.
  - change (Z.of_nat 0) with 0. rewrite Z.add_0_r. split; [done|]. intros j.
    destruct (Z.leb_spec k j), (Z.ltb_spec j k); cbn [andb]; (lia || done).
  - rewrite seqZ_cons by lia. cbn [foldl]. rewrite snapshot_step_new by done.
    replace (Z.pred (Z.of_nat (S n))) with (Z.of_nat n) by lia. replace (Z.succ k) with (k + 1) by lia.
    destruct (IH (k + 1) (recorded a c k s) 0) as [Hl Hj]; [by apply unrecorded_recorded|].
    split; [done|]. intros j. destruct (Hj j) as (->&->&->). cbn [recorded m_voteDataHistory m_pollNumHistory m_blockSummaryHistory].
    destruct (Z.leb_spec (k + 1) j), (Z.ltb_spec j (k + 1 + Z.of_nat n)), (Z.leb_spec k j),
      (Z.ltb_spec j (k + Z.of_nat (S n))); cbn [andb]; try lia; try (rewrite !lookup_insert_ne by lia; done).
    + destruct (Z.eqb_spec j (k + 1)), (Z.eqb_spec j k); try lia; done.
    + assert (j = k) as -> by lia. rewrite !lookup_insert_eq, Z.eqb_refl. done.
Qed.
End Snapshots.

(** ** Checks *)
Section Checks.
Context `{CR : Crypto, CF : Config, ST_ : !StorageTrie, RN : Rng, CO : !AccountCodec}.

(** Outside the voting phase every operation on votes is refused. *)
Lemma verify_vote_op_closed from env op s :
  (getVotingCycle (env_number env)).2 ≠ VOTE → verify_vote_op from env op s = (Throw VerifyVoteField, s).
Proof.
  intros Hs. unfold verify_vote_op. destruct (as_vote op) as [p|]; [|done]. cbn [cast_or].
  unfold mbind, ST_bind, mret, ST_ret, require. cbv zeta.
  destruct (negb (_ && (m_vote_numbers p <=? 0))); [|done]. unfold mret, ST_ret.
  destruct (negb (_ || _)); [|done]. rewrite bool_decide_eq_true_2 by done.
  unfold is_delegate. change (negb (EUnDelegate =? 0)) with true. by rewrite orb_true_r.
Qed.
End Checks.
