(* ===== verification/Rollback.v ===== *)
(** * Rolling back (State::rollback, State::executeTransaction)

    The change log is correct when undoing what an operation logged leads back
    to a state no reader can tell from the one before.  [acct_equiv] compares
    accounts up to the cache flags and the representation of storage, amounts
    as residues modulo 2^256; [st_equiv] compares states through [view].
    [WF] is the invariant every rollback step keeps; [undoable] is a Hoare triple
    that adds "can be rolled back" to its postcondition. *)
From stdpp Require Import base gmap list.
From Stdlib Require Import ZArith Lia.
From S2P Require Import Prelude Config Objects Interfaces Account ChainState StateOps.
Open Scope Z_scope.

Section Rollback.
Context `{CR : Crypto, CF : Config, ST_ : !StorageTrie, RN : Rng, CO : !AccountCodec}.

(** ** Equivalent accounts *)
Definition norm (x : Account) : Account :=
  x <| m_isUnchanged := false |> <| m_hasNewCode := false |> <| m_codeCache := [] |>
    <| m_storageOverlay := ∅ |> <| m_storageOriginal := ∅ |>
    <| m_balance ::= w256 |> <| m_BRC ::= w256 |> <| m_FBRC ::= w256 |> <| m_FBalance ::= w256 |>
    <| m_ballot ::= w256 |> <| a_poll ::= w256 |> <| m_CooikeIncomeNum ::= w256 |>.

(** The word stored at a key. *)
Definition sval (x : Account) (k : u256) : u256 := (acc_storageValue k x).1.

Definition acct_equiv (x y : Account) : Prop := norm x = norm y ∧ ∀ k, sval x k = sval y k.
#[export] Instance Account_equiv : Equiv Account := acct_equiv.
#[export] Instance acct_equivalence : Equivalence (≡@{Account}).
Proof.
  split.
  - done.
  - intros x y [??]. split; [done|]. by intros.
  - intros x y z [??] [??]. split; congruence.
Qed.

Lemma w256_add_cong b b' v : w256 b = w256 b' → w256 (b + v) = w256 (b' + v).
Proof. intros E. by rewrite <-(w256_add_l b), E, w256_add_l. Qed.

Ltac acct :=
  unfold norm, sval, acc_storageValue, acc_originalStorageValue, changed, untouch in *;
  cbn in *.

Lemma sval_unfold x k :
  sval x k = default (default (storage_at (m_storageRoot x) k) (m_storageOriginal x !! k)) (m_storageOverlay x !! k).
Proof.
  unfold sval, acc_storageValue, acc_originalStorageValue.
  by destruct (m_storageOverlay x !! k), (m_storageOriginal x !! k).
Qed.

Ltac norm_solve :=
  autounfold with acc_ops; unfold norm; acct_fields; f_equal; rewrite ?w256_idem; solve [auto using w256_add_cong].

(** Operations that leave the storage alone, and the facts [norm] equality gives. *)
Definition same_storage (x y : Account) : Prop :=
  m_storageRoot x = m_storageRoot y ∧ m_storageOriginal x = m_storageOriginal y
  ∧ m_storageOverlay x = m_storageOverlay y.

Lemma same_storage_sval x y k : same_storage x y → sval x k = sval y k.
Proof. intros (?&?&?). rewrite !sval_unfold. congruence. Qed.

Lemma equiv_changed x : x ≡ changed x.
Proof. split; [by destruct x|]. intros k. by apply same_storage_sval. Qed.
Lemma equiv_untouch x : x ≡ untouch x.
Proof. split; [by destruct x|]. intros k. by apply same_storage_sval. Qed.

(** [undo_account] acts on equivalent accounts in the same way. *)
Lemma undo_norm_cong c x y x' :
  norm x = norm y → undo_account c x = Some x' →
  ∃ y', undo_account c y = Some y' ∧ norm x' = norm y'.
Proof.
  intros Hn Hu. destruct x, y. injection Hn as -> -> Eb -> -> Eba Ep EB EF EFb EC -> -> -> -> -> -> -> -> -> -> ->.
  destruct c; cbn [undo_account] in *; simplify_eq; try (eexists; split; [done|norm_solve]).
  - unfold acc_addVote in *; cbn in *.
    repeat case_match; simplify_eq; eexists; (split; [done|norm_solve]).
  - eexists; split; [done|]. unfold acc_manageSysVote; cbn. repeat case_match; norm_solve.
  - unfold acc_set_system_poll in *; cbn in *.
    repeat case_match; simplify_eq; eexists; (split; [done|norm_solve]).
Qed.

(** Every entry but the two that rewrite storage leaves it alone (or replaces the
    whole account). *)
Lemma undo_sval_cong c x y x' y' :
  x ≡ y → undo_account c x = Some x' → undo_account c y = Some y' → ∀ k, sval x' k = sval y' k.
Proof.
  intros [Hn Hs] Hx Hy k. assert (m_storageRoot x = m_storageRoot y) as Hr
    by by apply (f_equal m_storageRoot) in Hn.
  assert (∀ u v, same_storage u x → same_storage v y → sval u k = sval v k) as Hsame.
  { intros u v Hu Hv. by rewrite (same_storage_sval u x), (same_storage_sval v y). }
  destruct c; cbn [undo_account] in *; simplify_eq; try (apply Hsame; by repeat split).
  - specialize (Hs k). rewrite !sval_unfold in *.
    autounfold with acc_ops. change (m_storageOverlay _) with (<[key:=value]> (m_storageOverlay x)) at 1.
    change (m_storageOverlay _) with (<[key:=value]> (m_storageOverlay y)) at 2.
    destruct (decide (key = k)) as [->|]; [by rewrite !lookup_insert_eq|by rewrite !lookup_insert_ne].
  - by rewrite !sval_unfold.
  - unfold acc_addVote in *. apply Hsame; repeat case_match; simplify_eq; by repeat split.
  - unfold acc_manageSysVote in *. apply Hsame; repeat case_match; simplify_eq; by repeat split.
  - unfold acc_set_system_poll in *. apply Hsame; repeat case_match; simplify_eq; by repeat split.
  - by rewrite !sval_unfold.
Qed.

Lemma undo_account_cong c x y x' :
  x ≡ y → undo_account c x = Some x' → ∃ y', undo_account c y = Some y' ∧ x' ≡ y'.
Proof.
  intros E Hx. destruct (undo_norm_cong c x y x') as (y'&Hy&Hn); [apply E|done|].
  exists y'. split; [done|]. split; [done|]. eauto using undo_sval_cong.
Qed.

(** ** What a reader sees *)
Definition trie_view (s : State) (a : Address) : option Account := m_state s !! a ≫= load s.
Definition view (s : State) (a : Address) : option Account :=
  match m_cache s !! a with Some x => Some x | None => trie_view s a end.

(** Everything but the caches is the same, and every account reads the same. *)
Definition same_base (s t : State) : Prop :=
  m_state s = m_state t ∧ m_codeDB s = m_codeDB t ∧ m_accountStartNonce s = m_accountStartNonce t
  ∧ m_block_number s = m_block_number t ∧ m_curr_number s = m_curr_number t
  ∧ m_changeLog s = m_changeLog t.
Definition st_equiv (s t : State) : Prop := same_base s t ∧ ∀ a, view s a ≡ view t a.
#[export] Instance State_equiv : Equiv State := st_equiv.
#[export] Instance same_base_equivalence : Equivalence same_base.
Proof.
  split.
  - by repeat split.
  - intros s t (?&?&?&?&?&?). by repeat split.
  - intros s t u (?&?&?&?&?&?) (?&?&?&?&?&?). repeat split; congruence.
Qed.
#[export] Instance st_equivalence : Equivalence (≡@{State}).
Proof.
  split.
  - by split.
  - intros s t [B E]. split; [by symmetry|]. intros a. symmetry. apply E.
  - intros s t u [B1 E1] [B2 E2]. split; [by etrans|]. intros a. by rewrite (E1 a).
Qed.
Lemma same_base_relog s t l : same_base s t → same_base (s <| m_changeLog := l |>) (t <| m_changeLog := l |>).
Proof. intros (?&?&?&?&?&?). by repeat split. Qed.

Lemma trie_view_base s t a : same_base s t → trie_view s a = trie_view t a.
Proof. intros (E1&_&_&E2&E3&_). unfold trie_view, load. by rewrite E1, E2, E3. Qed.

(** ** The invariant *)

(** A logged account replacement must leave a dirty account. *)
Definition log_ok (c : Change) : Prop :=
  match c with ChChangeMiner _ o => isDirty o = true | _ => True end.

(** The caches agree with the trie, and every logged address is cached and dirty. *)
Record WF (s : State) : Prop := {
  coh_none : ∀ a, a ∈ m_nonExistingAccountsCache s → m_state s !! a = None;
  coh_clean : ∀ a x, m_cache s !! a = Some x → isDirty x = false → Some x ≡ trie_view s a;
  coh_log : ∀ c, c ∈ m_changeLog s → ∃ x, m_cache s !! ch_address c = Some x ∧ isDirty x = true;
  coh_ok : ∀ c, c ∈ m_changeLog s → log_ok c
}.

(** ... and stays so along the next [n] steps of a rollback. *)
Fixpoint WFn (n : nat) (s : State) : Prop :=
  WF s ∧
  match n with
  | O => True
  | S n => match m_changeLog s with
           | [] => False
           | c :: l => ∃ s', undo c s = Some s' ∧ WFn n (s' <| m_changeLog := l |>)
           end
  end.

Lemma WFn_WF n s : WFn n s → WF s.
Proof. by destruct n; intros []. Qed.

Lemma WF_fresh s :
  m_cache s = ∅ → m_changeLog s = [] →
  (∀ a, a ∈ m_nonExistingAccountsCache s → m_state s !! a = None) → WF s.
Proof.
  intros Hc Hl Hn. split; [done| | |].
  - intros a x. by rewrite Hc, lookup_empty.
  - intros c. rewrite Hl. by intros ?%elem_of_nil.
  - intros c. rewrite Hl. by intros ?%elem_of_nil.
Qed.

Lemma touch_or c : (∃ a, c = ChTouch a) ∨ (∀ a, c ≠ ChTouch a).
Proof. destruct c; eauto. Qed.

(** A dirty account stays dirty when an entry other than [Touch] is undone. *)
Lemma undo_dirty c x x' :
  isDirty x = true → log_ok c → (∀ a, c ≠ ChTouch a) → undo_account c x = Some x' → isDirty x' = true.
Proof.
  intros Hd Hok Ht Hu. destruct c; cbn [undo_account] in *; simplify_eq; try done.
  - by destruct (Ht a).
  - unfold acc_addVote in *. repeat case_match; by simplify_eq.
  - unfold acc_manageSysVote in *. repeat case_match; by simplify_eq.
  - unfold acc_set_system_poll in *. repeat case_match; by simplify_eq.
Qed.

(** ** One step of a rollback *)
Definition undo_cache (c : Change) (x' : Account) (m : gmap Address Account) : gmap Address Account :=
  match c with ChCreate a => delete a m | _ => <[ch_address c := x']> m end.

Lemma undo_inv c s s' :
  undo c s = Some s' ↔
  ∃ x', undo_account c (cache_at (ch_address c) s) = Some x' ∧
    s' = match c with
         | ChTouch a => s <| m_cache := undo_cache c x' (m_cache s) |>
                          <| m_unchangedCacheEntries ::= λ l, l ++ [a] |>
         | _ => s <| m_cache := undo_cache c x' (m_cache s) |>
         end.
Proof.
  unfold undo. destruct (undo_account c _) as [x'|] eqn:E; simpl.
  - split; [intros [= <-]; exists x'; split; [done|]; by destruct c|].
    intros (?&[= <-]&->). by destruct c.
  - split; [done|]. by intros (?&?&?).
Qed.

(** The state after undoing [c] and popping it. *)
Lemma undo_pop_fields c s s' l :
  undo c s = Some s' →
  ∃ x', undo_account c (cache_at (ch_address c) s) = Some x' ∧
    m_cache (s' <| m_changeLog := l |>) = undo_cache c x' (m_cache s) ∧
    m_nonExistingAccountsCache (s' <| m_changeLog := l |>) = m_nonExistingAccountsCache s ∧
    same_base (s' <| m_changeLog := l |>) (s <| m_changeLog := l |>).
Proof.
  intros (x'&Hx&->)%undo_inv. exists x'. split; [done|]. by destruct c; repeat split.
Qed.

Lemma undo_cache_ne c x' m b : b ≠ ch_address c → undo_cache c x' m !! b = m !! b.
Proof. intros. destruct c; simpl in *; (rewrite lookup_delete_ne || rewrite lookup_insert_ne); done. Qed.

Lemma undo_cache_eq c x' m :
  undo_cache c x' m !! ch_address c = match c with ChCreate _ => None | _ => Some x' end.
Proof. destruct c; simpl; (rewrite lookup_delete_eq || rewrite lookup_insert_eq); done. Qed.

Lemma view_cached s a x : m_cache s !! a = Some x → view s a = Some x.
Proof. intros E. unfold view. by rewrite E. Qed.

Lemma equiv_cached s t a x y :
  s ≡ t → m_cache s !! a = Some x → m_cache t !! a = Some y → x ≡ y.
Proof.
  intros [_ E] Hx Hy. specialize (E a). rewrite (view_cached _ _ _ Hx), (view_cached _ _ _ Hy) in E.
  by apply (inj Some).
Qed.

Lemma undo_step_cong c l s t s' :
  s ≡ t → WF s → WF t → m_changeLog s = c :: l →
  undo c s = Some s' → WF (s' <| m_changeLog := l |>) →
  ∃ t', undo c t = Some t' ∧ s' <| m_changeLog := l |> ≡ t' <| m_changeLog := l |>
        ∧ WF (t' <| m_changeLog := l |>).
Proof.
  intros E Hs Ht Hl Hu Hs'.
  assert (m_changeLog t = c :: l) as Hlt by by destruct E as [(?&?&?&?&?&<-) _].
  destruct (coh_log s Hs c) as (x&Hx&Dx); [rewrite Hl; left|].
  destruct (coh_log t Ht c) as (y&Hy&Dy); [rewrite Hlt; left|].
  pose proof (equiv_cached s t _ x y E Hx Hy) as Exy.
  destruct (undo_pop_fields c s s' l Hu) as (x'&Hx'&Cs&Ns&Bs).
  unfold cache_at in Hx'. rewrite Hx in Hx'. simpl in Hx'.
  destruct (undo_account_cong c x y x' Exy Hx') as (y'&Hy'&Exy').
  assert (∃ t', undo c t = Some t') as [t' Hu'].
  { unfold undo, cache_at. rewrite Hy. simpl. rewrite Hy'. eauto. }
  exists t'. split; [done|].
  destruct (undo_pop_fields c t t' l Hu') as (y''&Hy''&Ct&Nt&Bt).
  unfold cache_at in Hy''. rewrite Hy in Hy''. simpl in Hy''. rewrite Hy' in Hy''. injection Hy'' as <-.
  assert (same_base (s' <| m_changeLog := l |>) (t' <| m_changeLog := l |>)) as B.
  { etrans; [exact Bs|]. etrans; [|symmetry; exact Bt]. apply same_base_relog, E. }
  assert (∀ b, trie_view (s' <| m_changeLog := l |>) b = trie_view s b) as Ts.
  { intros b. by rewrite (trie_view_base _ _ b Bs). }
  assert (∀ b, trie_view (t' <| m_changeLog := l |>) b = trie_view t b) as Tt.
  { intros b. by rewrite (trie_view_base _ _ b Bt). }
  assert (∀ b, trie_view s b = trie_view t b) as Tst by (intros b; apply trie_view_base, E).
  split; [split; [done|]|].
  - intros b. unfold view. rewrite Cs, Ct, Ts, Tt.
    destruct (decide (b = ch_address c)) as [->|Hb].
    + rewrite !undo_cache_eq. destruct c; by rewrite ?Tst, ?Exy'.
    + rewrite !undo_cache_ne by done. rewrite <-(Ts b), (trie_view_base _ _ b B), Tt.
      destruct E as [_ E]. specialize (E b). unfold view in E. by rewrite Tst in E.
  - assert (∀ c', c' ∈ l → ch_address c' = ch_address c →
              match c with ChCreate _ | ChTouch _ => False | _ => True end) as Hfresh.
    { intros c' Hc' Ha. destruct (coh_log _ Hs' c' Hc') as (z&Hz&Dz).
      rewrite Cs, Ha, undo_cache_eq in Hz.
      destruct c; try exact I; [done|]. simpl in Hx'. by simplify_eq. }
    split.
    + intros b. rewrite Nt. destruct Bt as (->&_). apply (coh_none t Ht).
    + intros b z. rewrite Ct, Tt. destruct (decide (b = ch_address c)) as [->|Hb].
      * rewrite undo_cache_eq. intros Hz Dz.
        destruct (touch_or c) as [[a ->]|Hnt].
        -- cbn [undo_account] in *. simplify_eq. rewrite <-Exy', <-Tst, <-Ts. apply (coh_clean _ Hs').
           ++ by rewrite Cs, undo_cache_eq.
           ++ reflexivity.
        -- assert (isDirty y' = true) as D.
           { apply (undo_dirty c y); [done|apply (coh_ok t Ht); rewrite Hlt; left|done..]. }
           destruct c; simplify_eq; congruence.
      * rewrite undo_cache_ne by done. apply (coh_clean t Ht).
    + intros c' Hc'. change (m_changeLog _) with l in Hc'.
      destruct (coh_log t Ht c') as (z&Hz&Dz); [rewrite Hlt; by right|].
      rewrite Ct. destruct (decide (ch_address c' = ch_address c)) as [Ha|Ha].
      * specialize (Hfresh c' Hc' Ha). rewrite Ha, undo_cache_eq.
        assert (isDirty y' = true) as D.
        { apply (undo_dirty c y); [done|apply (coh_ok t Ht); rewrite Hlt; left|by intros a ->|done]. }
        destruct c; eauto; done.
      * rewrite undo_cache_ne by done. eauto.
    + intros c' Hc'. change (m_changeLog _) with l in Hc'. apply (coh_ok t Ht). rewrite Hlt. by right.
Qed.

(** ** Whole rollbacks *)
Lemma rollback_cong n s t :
  s ≡ t → WFn n s → WF t →
  WFn n t ∧ ∃ s' t', rollback_n n s = Some s' ∧ rollback_n n t = Some t' ∧ s' ≡ t'.
Proof.
  revert s t. induction n as [|n IH]; intros s t E Hs Ht; simpl.
  - split; [done|]. eauto.
  - destruct Hs as [Hcs Hs]. assert (m_changeLog t = m_changeLog s) as Hl
      by by destruct E as [(?&?&?&?&?&<-) _].
    destruct (m_changeLog s) as [|c l] eqn:Hls; [done|]. destruct Hs as (s1&Hu&Hs1).
    destruct (undo_step_cong c l s t s1) as (t1&Hut&E1&Ht1); eauto using WFn_WF.
    destruct (IH _ _ E1 Hs1 Ht1) as (Hwf&s'&t'&?&?&?).
    rewrite Hl. split; [eauto|]. exists s', t'. by rewrite Hu, Hut.
Qed.

Lemma WFn_rollback n s : WFn n s → ∃ s', rollback_n n s = Some s' ∧ WF s'.
Proof.
  revert s. induction n as [|n IH]; intros s [Hc Hs]; simpl; [eauto|].
  destruct (m_changeLog s) as [|c l]; [done|]. destruct Hs as (s1&->&Hs1). simpl. auto.
Qed.

Lemma rollback_n_add n m s s1 :
  rollback_n n s = Some s1 → rollback_n (n + m) s = rollback_n m s1.
Proof.
  revert s. induction n as [|n IH]; intros s; simpl; [by intros [= ->]|].
  destruct (m_changeLog s) as [|c l]; [done|]. destruct (undo c s); simpl; [apply IH|done].
Qed.

Lemma rollback_n_log n s s' :
  rollback_n n s = Some s' → m_changeLog s' = drop n (m_changeLog s) ∧ (n <= length (m_changeLog s))%nat.
Proof.
  revert s. induction n as [|n IH]; intros s; simpl; [intros [= ->]; split; [done|lia]|].
  destruct (m_changeLog s) as [|c l]; [done|]. destruct (undo c s) as [s1|]; simpl; [|done].
  intros [-> ?]%IH. split; [done|]. simpl in *. lia.
Qed.

Lemma WFn_add n m s s1 : rollback_n n s = Some s1 → WFn (n + m) s ↔ WFn n s ∧ WFn m s1.
Proof.
  revert s. induction n as [|n IH]; intros s; simpl.
  - intros [= ->]. split; [|tauto]. intros H. split; [split; [by eapply WFn_WF|done]|done].
  - destruct (m_changeLog s) as [|c l]; [done|]. destruct (undo c s) as [s2|]; simpl; [|done].
    intros [H1 H2]%IH. split.
    + intros [? (s3&[= <-]&?)]. destruct H1 as [??]; [done|]. split; [|done]. split; [done|eauto].
    + intros [[? (s3&[= <-]&?)] ?]. split; [done|]. exists s2. split; [done|]. auto.
Qed.

(** [Undo s t]: [t] is well-formed, its log extends that of [s], and rolling the
    extension back leads to a state equivalent to [s]. *)
Definition Undo (s t : State) : Prop :=
  WFn (length (m_changeLog t) - length (m_changeLog s)) t ∧ (length (m_changeLog s) <= length (m_changeLog t))%nat ∧
  ∃ s', rollback_n (length (m_changeLog t) - length (m_changeLog s)) t = Some s' ∧ s ≡ s'.

Lemma Undo_refl s : WF s → Undo s s.
Proof. intros. unfold Undo. rewrite Nat.sub_diag. split; [done|]. split; [lia|]. by exists s. Qed.

Lemma Undo_WF s t : Undo s t → WF t.
Proof. intros [H _]. by apply WFn_WF in H. Qed.

Lemma Undo_equiv s t : WF t → s ≡ t → Undo s t.
Proof.
  intros Ht E. assert (m_changeLog t = m_changeLog s) as Hl by by destruct E as [(?&?&?&?&?&<-) _].
  unfold Undo. rewrite Hl, Nat.sub_diag. split; [done|]. split; [lia|]. by exists t.
Qed.

(** One logged change: [t] logs [c], undoing it gives back [s]. *)
Lemma Undo_log s t c s' :
  WF t → m_changeLog t = c :: m_changeLog s → undo c t = Some s' →
  s ≡ s' <| m_changeLog := m_changeLog s |> → WF (s' <| m_changeLog := m_changeLog s |>) → Undo s t.
Proof.
  intros Ht Hl Hu E Hs'. unfold Undo. rewrite Hl. simpl length. rewrite Nat.sub_succ_l, Nat.sub_diag by lia. simpl.
  rewrite Hl. split; [split; [done|]; exists s'; by destruct Hs'|]. split; [lia|]. rewrite Hu. simpl. eauto.
Qed.

Lemma Undo_trans s t u : Undo s t → Undo t u → Undo s u.
Proof.
  intros (Ht&L1&s'&R1&E1) (Hu&L2&t'&R2&E2).
  set (n := (length (m_changeLog u) - length (m_changeLog t))%nat) in *.
  set (m := (length (m_changeLog t) - length (m_changeLog s))%nat) in *.
  assert (WF t') as Ht'.
  { destruct (WFn_rollback n u Hu) as (t''&R''&?). congruence. }
  destruct (rollback_cong m t t' E2 Ht Ht') as (Hm&a&b&Ra&Rb&Eab).
  unfold Undo. replace (length (m_changeLog u) - length (m_changeLog s))%nat with (n + m)%nat by lia.
  split; [by apply (WFn_add n m u t' R2)|]. split; [lia|].
  exists b. rewrite (rollback_n_add n m u t' R2). split; [done|]. rewrite R1 in Ra. injection Ra as <-.
  by rewrite E1.
Qed.

(** ** The edits operations are made of *)
Definition put (a : Address) (x : Account) (s : State) : State := s <| m_cache ::= <[a := x]> |>.
Definition logc (c : Change) (s : State) : State := s <| m_changeLog ::= cons c |>.

Lemma put_put a x y s : put a y (put a x s) = put a y s.
Proof. destruct s. unfold put. state_fields. by rewrite insert_insert_eq. Qed.
Lemma put_logc a x c s : put a x (logc c s) = logc c (put a x s).
Proof. by destruct s. Qed.
Lemma put_id a x s : m_cache s !! a = Some x → put a x s = s.
Proof. destruct s. unfold put. state_fields. intros. by rewrite insert_id. Qed.
Lemma lookup_put a x s : m_cache (put a x s) !! a = Some x.
Proof. apply lookup_insert_eq. Qed.
Lemma lookup_put_ne a b x s : a ≠ b → m_cache (put a x s) !! b = m_cache s !! b.
Proof. apply lookup_insert_ne. Qed.
Lemma view_put_ne a b x s : a ≠ b → view (put a x s) b = view s b.
Proof. intros. unfold view. by rewrite lookup_put_ne. Qed.

(** Replacing an entry by a dirty one keeps the caches coherent. *)
Lemma WF_put s a x x' : WF s → m_cache s !! a = Some x → isDirty x' = true → WF (put a x' s).
Proof.
  intros Hs Hx D. split.
  - apply (coh_none s Hs).
  - intros b y. destruct (decide (a = b)) as [<-|]; [rewrite lookup_put|rewrite lookup_put_ne by done].
    + intros [= <-]. congruence.
    + apply (coh_clean s Hs).
  - intros c Hc. destruct (coh_log s Hs c Hc) as (y&?&?).
    destruct (decide (a = ch_address c)) as [->|]; [rewrite lookup_put|rewrite lookup_put_ne by done]; eauto.
  - apply (coh_ok s Hs).
Qed.
Lemma WF_logc s c x :
  WF s → m_cache s !! ch_address c = Some x → isDirty x = true → log_ok c → WF (logc c s).
Proof.
  intros Hs Hx D Hok. split; [apply (coh_none s Hs)|apply (coh_clean s Hs)| |];
    intros c' [->|Hc']%elem_of_cons; eauto; [apply (coh_log s Hs _ Hc')|apply (coh_ok s Hs _ Hc')].
Qed.
Lemma equiv_put s a x x' : m_cache s !! a = Some x → x ≡ x' → s ≡ put a x' s.
Proof.
  intros Hx E. split; [done|]. intros b. destruct (decide (a = b)) as [<-|].
  - by rewrite (view_cached _ _ _ Hx), (view_cached _ _ _ (lookup_put _ _ _)), E.
  - by rewrite view_put_ne.
Qed.

Lemma Undo_silent s a x x' :
  WF s → m_cache s !! a = Some x → x ≡ x' → isDirty x' = true → Undo s (put a x' s).
Proof. intros. apply Undo_equiv; eauto using WF_put, equiv_put. Qed.

Lemma undo_put c s x y y' :
  m_cache s !! ch_address c = Some x → undo_account c y = Some y' →
  (∀ a, c ≠ ChCreate a) → (∀ a, c ≠ ChTouch a) →
  undo c (logc c (put (ch_address c) y s)) = Some (logc c (put (ch_address c) y' s)).
Proof.
  intros Hx Hy Hc Ht. apply undo_inv. exists y'. unfold cache_at.
  change (m_cache (logc c ?s)) with (m_cache s). rewrite lookup_put. split; [done|].
  rewrite <-(put_put (ch_address c) y y').
  destruct c; solve [done | by destruct (Hc a) | by destruct (Ht a)].
Qed.

(** A logged edit whose undoing gives back the old account. *)
Lemma Undo_edit s c x y y' :
  WF s → m_cache s !! ch_address c = Some x → isDirty y = true → log_ok c →
  (∀ a, c ≠ ChCreate a) → (∀ a, c ≠ ChTouch a) →
  undo_account c y = Some y' → x ≡ y' → Undo s (logc c (put (ch_address c) y s)).
Proof.
  intros Hs Hx Dy Hok Hc Ht Hy E.
  assert (isDirty y' = true) as Dy' by by eapply undo_dirty.
  eapply (Undo_log s _ c); eauto using undo_put.
  - eapply WF_logc; eauto using WF_put, lookup_put.
  - change (s ≡ put (ch_address c) y' s). eauto using equiv_put.
  - change (WF (put (ch_address c) y' s)). eauto using WF_put.
Qed.

(** The first touch of a clean account. *)
Lemma Undo_touch s a x :
  WF s → m_cache s !! a = Some x → isDirty x = false → Undo s (logc (ChTouch a) (put a (changed x) s)).
Proof.
  intros HC Hx Dx.
  pose proof (equiv_untouch x) as E.
  assert (WF (put a (untouch x) s)) as HC'.
  { split; [apply (coh_none s HC)| | |apply (coh_ok s HC)].
    - intros b y. destruct (decide (a = b)) as [<-|]; [rewrite lookup_put|rewrite lookup_put_ne by done].
      + intros [= <-] _. change (trie_view (put a _ s) a) with (trie_view s a).
        rewrite <-(coh_clean s HC a x Hx Dx). by constructor.
      + apply (coh_clean s HC).
    - intros c Hc. destruct (coh_log s HC c Hc) as (y&Hy&Dy).
      destruct (decide (a = ch_address c)) as [->|]; [congruence|]. rewrite lookup_put_ne by done. eauto. }
  eapply (Undo_log s _ (ChTouch a)); [|done|..].
  - apply (WF_logc _ _ (changed x)); [by eapply WF_put|apply lookup_put|done..].
  - apply undo_inv. eexists. unfold cache_at. change (m_cache (logc ?c ?s)) with (m_cache s).
    simpl ch_address. by rewrite lookup_put.
  - change (s ≡ (put a (untouch (changed x)) (put a (changed x) s)) <| m_unchangedCacheEntries ::= λ l, l ++ [a] |>).
    rewrite put_put. by destruct (equiv_put s a x (untouch x)).
  - rewrite <-(put_put a (changed x)) in HC'. destruct HC'. by split.
Qed.

(** Creating an account that does not exist. *)
Definition created (a : Address) (x : Account) (s : State) : State :=
  s <| m_cache ::= <[a := x]> |> <| m_nonExistingAccountsCache ::= λ n, n ∖ {[a]} |>
    <| m_changeLog ::= cons (ChCreate a) |>.
Lemma Undo_create s a x :
  WF s → m_cache s !! a = None → trie_view s a = None → isDirty x = true → Undo s (created a x s).
Proof.
  intros HC Hx Hv Dx.
  assert (∀ c, c ∈ m_changeLog s → ch_address c ≠ a) as Hne.
  { intros c Hc <-. destruct (coh_log s HC c Hc) as (y&Hy&_). congruence. }
  set (s' := (created a x s) <| m_cache ::= delete a |>).
  assert (m_cache s' = m_cache s) as Hcache.
  { unfold s'. change (delete a (<[a := x]> (m_cache s)) = m_cache s).
    by rewrite delete_insert_eq, delete_id. }
  eapply (Undo_log s _ (ChCreate a) s'); [|done| | |].
  - eapply WF_logc with (x := x); [|apply lookup_insert_eq|done..].
    split; [| | |apply (coh_ok s HC)].
    + intros b Hb. apply (coh_none s HC). 
      change (b ∈ m_nonExistingAccountsCache s ∖ {[a]}) in Hb. by apply elem_of_difference in Hb as [? _].
    + intros b y. change (m_cache _ !! b) with (<[a := x]> (m_cache s) !! b).
      destruct (decide (a = b)) as [<-|].
      * rewrite lookup_insert_eq. intros [= <-]. congruence.
      * rewrite lookup_insert_ne by done. apply (coh_clean s HC).
    + intros c Hc. destruct (coh_log s HC c Hc) as (y&Hy&Dy). exists y. split; [|done].
      change (<[a := x]> (m_cache s) !! ch_address c = Some y).
      rewrite lookup_insert_ne; [done|]. by apply not_eq_sym, Hne.
  - apply undo_inv. eexists. split; [done|]. done.
  - split; [done|]. intros b. unfold view. change (m_cache (s' <| m_changeLog := _ |>)) with (m_cache s').
    by rewrite Hcache.
  - split; [| | |apply (coh_ok s HC)].
    + intros b Hb. apply (coh_none s HC). 
      change (b ∈ m_nonExistingAccountsCache s ∖ {[a]}) in Hb. by apply elem_of_difference in Hb as [? _].
    + intros b y. change (m_cache (s' <| m_changeLog := _ |>)) with (m_cache s'). rewrite Hcache. apply (coh_clean s HC).
    + intros c Hc. change (m_cache (s' <| m_changeLog := _ |>)) with (m_cache s'). rewrite Hcache. apply (coh_log s HC c Hc).
Qed.

(** ** Reading through the cache *)
Lemma evict_spec s : WF s → WF (evict_one s) ∧ s ≡ evict_one s.
Proof.
  intros HC. unfold evict_one. destruct (_ !! random_index _) as [a|]; [|done].
  destruct (last _) as [back|]; [|done].
  destruct (m_cache s !! a) as [x|] eqn:Hx; [destruct (isDirty x) eqn:Dx|]; try by destruct HC; repeat split.
  set (t := _ <| m_cache ::= _ |>).
  assert (∀ b, m_cache t !! b = if decide (a = b) then None else m_cache s !! b) as Ht.
  { intros b. change (m_cache t) with (delete a (m_cache s)). case_decide; subst.
    - by rewrite lookup_delete_eq. - by rewrite lookup_delete_ne. }
  split.
  - split; [apply (coh_none s HC)| | |apply (coh_ok s HC)].
    + intros b y. rewrite Ht. case_decide; [done|]. apply (coh_clean s HC).
    + intros c Hc. destruct (coh_log s HC c Hc) as (y&Hy&Dy). rewrite Ht. case_decide; [congruence|eauto].
  - split; [done|]. intros b. unfold view. rewrite Ht. change (trie_view t b) with (trie_view s b).
    case_decide; [subst|done]. rewrite Hx. by apply (coh_clean s HC).
Qed.

Lemma clearCache_spec s : WF s → WF (clearCacheIfTooLarge s) ∧ s ≡ clearCacheIfTooLarge s.
Proof.
  intros HC. unfold clearCacheIfTooLarge. induction (length _ - 1000)%nat as [|n IH]; [done|].
  destruct IH as [HC' E]. destruct (evict_spec _ HC') as [HC'' E']. split; [done|]. by etrans.
Qed.

(** [account] changes nothing a reader can see, and returns what [view] shows. *)
Lemma account_reads a s :
  WF s →
  (WF (account a s).2 ∧ s ≡ (account a s).2) ∧
  match (account a s).1 with
  | Ok (Some x) => m_cache (account a s).2 !! a = Some x
  | Ok None => m_cache (account a s).2 !! a = None ∧ trie_view (account a s).2 a = None
  | Undef => True
  | _ => False
  end.
Proof.
  intros HC. unfold account.
  destruct (m_cache s !! a) as [x|] eqn:Hx; [by split|].
  case_bool_decide as Hn.
  { split; [by split|]. simpl. split; [done|]. unfold trie_view. by rewrite (coh_none s HC a Hn). }
  destruct (m_state s !! a) as [b|] eqn:Hb; simpl.
  - destruct (clearCache_spec s HC) as [HC' E]. set (t := clearCacheIfTooLarge s) in *.
    destruct (load s b) as [x|] eqn:Hl; simpl; [|by split].
    assert (trie_view t a = Some x) as Ht.
    { rewrite <-(trie_view_base s t a (proj1 E)). unfold trie_view. rewrite Hb. done. }
    split; [|apply lookup_insert_eq].
    split.
    + split; [apply (coh_none t HC')| | |apply (coh_ok t HC')].
      * intros c y. change (m_cache _ !! c) with (<[a := x]> (m_cache t) !! c).
        change (trie_view _ c) with (trie_view t c).
        destruct (decide (a = c)) as [<-|].
        -- rewrite lookup_insert_eq. intros [= <-] _. by rewrite Ht.
        -- rewrite lookup_insert_ne by done. apply (coh_clean t HC').
      * intros c Hc. destruct (coh_log t HC' c Hc) as (y&Hy&Dy).
        assert (ch_address c ≠ a) as Hne.
        { intros Ha. destruct (coh_log s HC c) as (z&Hz&_); [|congruence].
          by destruct E as [(?&?&?&?&?&->) _]. }
        exists y. split; [|done]. change (<[a := x]> (m_cache t) !! ch_address c = Some y).
        by rewrite lookup_insert_ne.
    + split; [exact (proj1 E)|]. intros c. destruct E as [B E]. rewrite (E c).
      unfold view. change (m_cache (_ <| m_unchangedCacheEntries ::= _ |>) !! c) with (<[a := x]> (m_cache t) !! c).
      change (trie_view (_ <| m_unchangedCacheEntries ::= _ |>) c) with (trie_view t c).
      destruct (decide (a = c)) as [<-|]; [|by rewrite lookup_insert_ne].
      rewrite lookup_insert_eq, <-Ht. change (view t a ≡ trie_view t a). rewrite <-(E a).
      unfold view. by rewrite Hx, (trie_view_base s t a B).
  - assert (trie_view s a = None) as Ht by (unfold trie_view; by rewrite Hb).
    split; [|split; [done|exact Ht]].
    split; [|done]. split; [|apply (coh_clean s HC)|apply (coh_log s HC)|apply (coh_ok s HC)].
    intros c [->%elem_of_singleton|Hc]%elem_of_union; [done|by apply (coh_none s HC)].
Qed.
Lemma account_spec a s :
  WF s →
  Undo s (account a s).2 ∧
  match (account a s).1 with
  | Ok (Some x) => m_cache (account a s).2 !! a = Some x
  | Ok None => m_cache (account a s).2 !! a = None ∧ trie_view (account a s).2 a = None
  | Undef => True
  | _ => False
  end.
Proof. intros Hs. destruct (account_reads a s Hs) as [[? ?] ?]. split; [by apply Undo_equiv|done]. Qed.
End Rollback.
