(* ===== verification/Undoable.v ===== *)
(** * Operations that can be rolled back

    [undoable P m Q]: from a well-formed state satisfying [P], whatever the
    outcome of [m], the state it leaves can be rolled back to one equivalent to
    the start; when [m] returns [x], [Q x] holds.  The primitives are proved
    against the edits of [Rollback], the composites follow by the rules. *)
From stdpp Require Import base gmap list.
From Stdlib Require Import ZArith Lia.
From S2P Require Import Prelude Rlp Config Objects Interfaces Account ChainState StateOps Exdb Operations Exchange.
From S2P Require Import Vote Income Miner Verify Rollback.
Open Scope Z_scope.

Section Undoable.
Context `{CR : Crypto, CF : Config, ST_ : !StorageTrie, RN : Rng, CO : !AccountCodec}.

Definition undoable {A} (P : State → Prop) (m : M A) (Q : A → State → Prop) : Prop :=
  ∀ s, WF s → P s → Undo s (m s).2 ∧ ∀ x, (m s).1 = Ok x → Q x (m s).2.
(** The triple with trivial conditions. *)
Definition undo_ok {A} (m : M A) : Prop := undoable (λ _, True) m (λ _ _, True).

(** ** Rules *)
Lemma undoable_conseq {A} (P P' : State → Prop) (m : M A) (Q Q' : A → State → Prop) :
  undoable P' m Q' → (∀ s, P s → P' s) → (∀ x s, Q' x s → Q x s) → undoable P m Q.
Proof. intros H HP HQ s Hs Hp. destruct (H s Hs (HP s Hp)) as [? H']. split; auto. Qed.

Lemma undoable_ext {A} P (m m' : M A) Q : (∀ s, m s = m' s) → undoable P m' Q → undoable P m Q.
Proof. intros E H s. rewrite E. apply H. Qed.
Lemma undoable_pre {A} (φ : Prop) P (m : M A) Q : (φ → undoable P m Q) → undoable (λ s, φ ∧ P s) m Q.
Proof. intros H s Hs [??]. by apply H. Qed.
Lemma undoable_bind {A B} P (m : M A) R (k : A → M B) Q :
  undoable P m R → (∀ x, undoable (R x) (k x) Q) → undoable P (m ≫= k) Q.
Proof.
  intros Hm Hk s Hs Hp. destruct (Hm s Hs Hp) as [Hu HR]. unfold mbind, ST_bind.
  destruct (m s) as [[x|e| | |] s1]; simpl in *; try (split; [done|by intros]).
  destruct (Hk x s1 (Undo_WF _ _ Hu) (HR x eq_refl)) as [Hu' HQ]. split; [by eapply Undo_trans|done].
Qed.
Lemma undo_ok_bind {A B} (m : M A) (k : A → M B) :
  undo_ok m → (∀ x, undo_ok (k x)) → undo_ok (m ≫= k).
Proof. intros. by eapply undoable_bind. Qed.

Lemma undoable_ret {A} (P : State → Prop) (x : A) (Q : A → State → Prop) :
  (∀ s, P s → Q x s) → undoable P (mret x) Q.
Proof. intros H s Hs Hp. split; [by apply Undo_refl|]. intros y [= <-]. auto. Qed.
Lemma undo_ok_ret {A} (x : A) : undo_ok (mret x).
Proof. by apply undoable_ret. Qed.

(** A computation that leaves the state alone. *)
Lemma undoable_pure {A} P (m : M A) Q :
  (∀ s, (m s).2 = s) → (∀ s x, P s → (m s).1 = Ok x → Q x s) → undoable P m Q.
Proof. intros H1 H2 s Hs Hp. rewrite H1. split; [by apply Undo_refl|]. eauto. Qed.
Lemma undoable_throw {A} P e Q : undoable P (throw (A:=A) e) Q.
Proof. by apply undoable_pure. Qed.
Lemma undoable_undef {A} P Q : undoable P (undef (A:=A)) Q.
Proof. by apply undoable_pure. Qed.
Lemma undoable_exit {A} P Q : undoable P (exit1 (A:=A)) Q.
Proof. by apply undoable_pure. Qed.
Lemma undoable_fuel {A} P Q : undoable P (out_of_fuel (A:=A)) Q.
Proof. by apply undoable_pure. Qed.
Lemma undo_ok_getS : undo_ok getS.
Proof. by apply undoable_pure. Qed.
Lemma undo_ok_div a b : undo_ok (u256_div a b).
Proof. unfold u256_div. case_bool_decide; by apply undoable_pure. Qed.
Lemma undo_ok_require b e : undo_ok (require b e).
Proof. destruct b; by apply undoable_pure. Qed.
Lemma undo_ok_cast_or {A} e (o : option A) : undo_ok (cast_or e o).
Proof. destruct o; by apply undoable_pure. Qed.
Lemma undo_ok_cast_unchecked {A} (o : option A) : undo_ok (cast_unchecked o).
Proof. destruct o; by apply undoable_pure. Qed.

Lemma undo_ok_try {A} (m : M A) hd h :
  undo_ok m → (∀ e, undo_ok (h e)) → undo_ok (try_catch m hd h).
Proof.
  intros Hm Hh s Hs _. destruct (Hm s Hs I) as [Hu _]. unfold try_catch.
  destruct (m s) as [[x|e| | |] s1]; simpl in *; try by split.
  destruct (hd e); simpl; [|by split]. destruct (Hh e s1 (Undo_WF _ _ Hu) I) as [Hu' _].
  split; [by eapply Undo_trans|done].
Qed.
Lemma undo_ok_when b m : undo_ok m → undo_ok (when b m).
Proof. destruct b; [done|]. intros. apply undo_ok_ret. Qed.
Lemma undo_ok_forM {A} (l : list A) f : (∀ x, undo_ok (f x)) → undo_ok (forM l f).
Proof.
  intros Hf. induction l as [|x l IH]; simpl; [apply undo_ok_ret|]. apply undo_ok_bind; auto.
Qed.
Lemma undo_ok_foldM {A B} (f : B → A → M B) b l : (∀ b x, undo_ok (f b x)) → undo_ok (foldM f b l).
Proof.
  intros Hf. revert b. induction l as [|x l IH]; intros b; simpl; [apply undo_ok_ret|].
  apply undo_ok_bind; auto.
Qed.

(** ** Reading *)
Definition cached (a : Address) (x : Account) (s : State) : Prop := m_cache s !! a = Some x.
Definition absent (a : Address) (s : State) : Prop := m_cache s !! a = None ∧ trie_view s a = None.
Definition exists_at (a : Address) (s : State) : Prop := ∃ x, cached a x s.

Lemma undoable_account P a :
  undoable P (account a) (λ o, match o with Some x => cached a x | None => absent a end).
Proof.
  intros s Hs _. destruct (account_spec a s Hs) as [Hu Ho]. split; [done|].
  intros o Eo. rewrite Eo in Ho. by destruct o.
Qed.
Lemma undo_ok_account a : undo_ok (account a).
Proof. by eapply undoable_conseq; [apply (undoable_account (λ _, True))|..]. Qed.
Lemma undo_ok_read {A} (d : A) f a : undo_ok (read d f a).
Proof. apply undo_ok_bind; [apply undo_ok_account|]. intros. apply undo_ok_ret. Qed.
Lemma undoable_deref P a : undoable P (deref a) (cached a).
Proof.
  eapply undoable_bind; [apply undoable_account|]. intros [x|]; [|apply undoable_undef].
  by apply undoable_ret.
Qed.
Lemma undo_ok_deref a : undo_ok (deref a).
Proof. by eapply undoable_conseq; [apply (undoable_deref (λ _, True))|..]. Qed.
Lemma undo_ok_reread a : undo_ok (reread a).
Proof. unfold reread. apply undoable_pure; [|done]. intros s. by destruct (m_cache s !! a). Qed.

(** ** Edits *)
Definition plain (c : Change) : Prop :=
  (∀ a, c ≠ ChCreate a) ∧ (∀ a, c ≠ ChTouch a) ∧ log_ok c.

Lemma write_eq a f x s : cached a x s → write a f s = (Ok tt, put a (f x) s).
Proof. unfold cached, write. by intros ->. Qed.

(** Writing an account and logging the entry that undoes the write. *)
Lemma undoable_edit x f c :
  isDirty (f x) = true → plain c → (∃ y, undo_account c (f x) = Some y ∧ x ≡ y) →
  undoable (cached (ch_address c) x) (write (ch_address c) f ;; log c) (λ _, cached (ch_address c) (f x)).
Proof.
  intros D (?&?&?) (y&Hy&E) s Hs Hx. unfold mbind, ST_bind. rewrite (write_eq _ _ _ _ Hx).
  split; [by eapply Undo_edit|]. intros _ _. apply lookup_put.
Qed.

(** Facts that only depend on what readers see survive a read. *)
Definition stable (P : State → Prop) : Prop := ∀ s t, s ≡ t → P s → P t.
Definition known (a : Address) (s : State) : Prop := is_Some (view s a).

Lemma stable_known a : stable (known a).
Proof.
  intros s t [_ E] [x Hx]. specialize (E a). rewrite Hx in E. unfold known.
  destruct (view t a); [eauto|inversion E].
Qed.
Lemma stable_or P b : stable P → stable (λ s, b = 0 ∨ P s).
Proof. intros H s t E [?|?]; [by left|right; eauto]. Qed.
Lemma cached_known a x s : cached a x s → known a s.
Proof. unfold known. intros H. rewrite (view_cached _ _ _ H). eauto. Qed.
Lemma absent_not_known a s : absent a s → ¬ known a s.
Proof. intros [H1 H2]. unfold known, view. rewrite H1, H2. by intros [??]. Qed.

Lemma account_equiv a s : WF s → s ≡ (account a s).2.
Proof.
  intros Hs. by destruct (account_reads a s Hs) as [[_ E] _].
Qed.
Lemma undoable_account_frame P a :
  stable P →
  undoable P (account a) (λ o s, P s ∧ match o with Some x => cached a x s | None => absent a s end).
Proof.
  intros HP s Hs Hp. destruct (undoable_account P a s Hs Hp) as [Hu Ho]. split; [done|].
  intros o Eo. split; [eapply HP; [by apply account_equiv|done]|]. specialize (Ho o Eo). by destruct o.
Qed.

(** ** Amounts *)
Lemma touch_write_eq a x f s :
  cached a x s →
  (log_touch a x ;; write a f) s =
  (Ok tt, put a (f x) (if negb (isDirty x) && isEmpty x then logc (ChTouch a) (put a (changed x) s) else s)).
Proof.
  intros Hx. unfold log_touch, when. destruct (negb (isDirty x) && isEmpty x); simpl.
  - unfold mbind, ST_bind. cbn -[write]. rewrite (write_eq a f x) by done.
    by rewrite !put_logc, put_put.
  - unfold mbind, ST_bind. cbn -[write]. by rewrite (write_eq a f x).
Qed.

(** The shape shared by [addBalance], [addBRC], ...: [f] adds the amount, [c] is the entry. *)
Record amount_op (f : Account → Account) (c : Change) (v : u256) : Prop := {
  am_plain : plain c;
  am_dirty : ∀ x, isDirty (f x) = true;
  am_changed : ∀ x, f (changed x) = f x;
  am_zero : ∀ x, v = 0 → x ≡ f x;
  am_undo : ∀ x, ∃ y, undo_account c (f x) = Some y ∧ x ≡ y
}.

Lemma undoable_touch_amount x f c v :
  amount_op f c v →
  undoable (cached (ch_address c) x)
    ((log_touch (ch_address c) x ;; write (ch_address c) f) ;; log_amount c v)
    (λ _, known (ch_address c)).
Proof.
  intros [(Hc&Ht&Hok) Hd Hch Hz Hu] s Hs Hx. set (a := ch_address c) in *.
  rewrite (bind_ok _ _ _ _ _ (touch_write_eq a x f s Hx)).
  set (s1 := if negb (isDirty x) && isEmpty x then logc (ChTouch a) (put a (changed x) s) else s).
  assert (∃ x1, Undo s s1 ∧ cached a x1 s1 ∧ f x1 = f x) as (x1&Hs1&Hx1&Ef).
  { unfold s1. destruct (isDirty x) eqn:D; simpl; [|destruct (isEmpty x)].
    - exists x. auto using Undo_refl.
    - exists (changed x). split; [by apply Undo_touch|]. split; [apply lookup_put|done].
    - exists x. auto using Undo_refl. }
  rewrite <-Ef. unfold log_amount, when. destruct (v =? 0) eqn:Ev; simpl.
  - split; [|intros _ _; eapply cached_known, lookup_put].
    eapply Undo_trans; [done|]. eapply Undo_silent; eauto using Undo_WF. apply Hz. lia.
  - split; [|intros _ _; eapply (cached_known a (f x1)), lookup_put].
    destruct (Hu x1) as (y&Hy&Ey). eapply Undo_trans; [done|]. eapply Undo_edit; eauto using Undo_WF.
Qed.

Lemma undoable_add P f c v missing (R : State → Prop) :
  amount_op f c v → stable P → (∀ s, known (ch_address c) s → R s) →
  undoable (λ s, P s ∧ absent (ch_address c) s) (missing ;; log_amount c v) (λ _, R) →
  undoable P
    ((o ← account (ch_address c);
      match o with
      | Some x => log_touch (ch_address c) x ;; write (ch_address c) f
      | None => missing
      end) ;; log_amount c v)
    (λ _, R).
Proof.
  intros Ha HP HR Hm. eapply undoable_ext; [intros s; apply bind_assoc|].
  eapply undoable_bind; [by apply undoable_account_frame|]. intros [x|]; [|done].
  eapply undoable_conseq; [by apply (undoable_touch_amount x)|by intros ? [_ ?]|by eauto].
Qed.

(** Creating the account with the amount already in it, and logging the amount. *)
Lemma undoable_create_amount (mk : u256 → u256 → Account) c v P :
  plain c → (∀ n w, isDirty (mk n w) = true) →
  (∀ n, ∃ y, undo_account c (mk n v) = Some y ∧ mk n 0 ≡ y) →
  undoable (λ s, P s ∧ absent (ch_address c) s)
    ((n ← requireAccountStartNonce; createAccount (ch_address c) (mk n v)) ;; log_amount c v)
    (λ _, known (ch_address c)).
Proof.
  intros (Hc&Ht&Hok) Hd Hu s Hs [_ [Hx Hv]]. set (a := ch_address c) in *.
  unfold mbind, ST_bind, requireAccountStartNonce, mbind, ST_bind, getS. simpl.
  destruct (m_accountStartNonce s =? Invalid256); [split; [by apply Undo_refl|done]|].
  set (n := m_accountStartNonce s). unfold createAccount, modS, mret, ST_ret. simpl.
  change (_ <| m_changeLog ::= cons (ChCreate a) |>) with (created a (mk n v) s).
  unfold log_amount, when. destruct (v =? 0) eqn:Ev; simpl.
  - split; [by apply Undo_create|]. intros _ _. eapply (cached_known a (mk n v)), lookup_insert_eq.
  - split; [|intros _ _; eapply (cached_known a (mk n v)), lookup_insert_eq].
    eapply Undo_trans; [by apply (Undo_create s a (mk n 0))|].
    destruct (Hu n) as (y&Hy&Ey).
    assert (logc c (created a (mk n v) s) = logc c (put a (mk n v) (created a (mk n 0) s))) as Heq.
    { destruct s. unfold logc, put, created. state_fields. by rewrite insert_insert_eq. }
    change (_ <| m_changeLog ::= cons c |>) with (logc c (created a (mk n v) s)). rewrite Heq.
    eapply (Undo_edit _ c (mk n 0)); eauto.
    + apply (Undo_WF s), (Undo_create s a (mk n 0)); eauto.
    + apply lookup_insert_eq.
Qed.

Ltac amount_equiv :=
  split;
  [ autounfold with acc_ops; unfold norm; acct_fields; f_equal; u256_norm; f_equal; lia
  | intros ?; by apply same_storage_sval ].
Ltac amount_tac :=
  split;
  [ by repeat split
  | done
  | done
  | intros [] ->; amount_equiv
  | intros []; eexists; split; [reflexivity|amount_equiv] ].

Lemma balance_op a v : amount_op (acc_addBalance v) (ChBalance a v) v.
Proof. amount_tac. Qed.
Lemma BRC_op a v : amount_op (acc_addBRC v) (ChBRC a v) v.
Proof. amount_tac. Qed.
Lemma ballot_op a v : amount_op (acc_addBallot v) (ChBallot a v) v.
Proof. amount_tac. Qed.
Lemma FBRC_op a v : amount_op (acc_addFBRC v) (ChFBRC a v) v.
Proof. amount_tac. Qed.
Lemma FBalance_op a v : amount_op (acc_addFBalance v) (ChFBalance a v) v.
Proof. amount_tac. Qed.

Lemma stable_true : stable (λ _, True).
Proof. done. Qed.

Lemma addBalance_undoable a v : undoable (λ _, True) (addBalance a v) (λ _, known a).
Proof.
  apply (undoable_add _ _ (ChBalance a v)); [apply balance_op|done|done|].
  apply (undoable_create_amount (λ n w, Account_nb n w) (ChBalance a v)); [by repeat split|done|].
  intros n. eexists. split; [reflexivity|amount_equiv].
Qed.
Lemma addBRC_undoable a v : undoable (λ _, True) (addBRC a v) (λ _, known a).
Proof.
  apply (undoable_add _ _ (ChBRC a v)); [apply BRC_op|done|done|].
  apply (undoable_create_amount (λ n w, Account_nbb n 0 w 0) (ChBRC a v)); [by repeat split|done|].
  intros n. eexists. split; [reflexivity|amount_equiv].
Qed.
Lemma addBallot_undoable a v : undoable (λ _, True) (addBallot a v) (λ _, known a).
Proof. apply (undoable_add _ _ (ChBallot a v)); [apply ballot_op|done|done|]. by apply undoable_pure. Qed.

(** Frozen amounts: only when the account exists (or the amount is zero). *)
Lemma no_account_undoable c v :
  undoable (λ s, (v = 0 ∨ known (ch_address c) s) ∧ absent (ch_address c) s)
    (mret tt ;; log_amount c v) (λ _ s, v = 0 ∨ known (ch_address c) s).
Proof.
  intros s Hs [[->|Hk] Ha]; [|by destruct (absent_not_known _ _ Ha)].
  split; [by apply Undo_refl|]. by left.
Qed.
Lemma addFBRC_undoable a v : undoable (λ s, v = 0 ∨ known a s) (addFBRC a v) (λ _ s, v = 0 ∨ known a s).
Proof.
  apply (undoable_add _ _ (ChFBRC a v)); [apply FBRC_op|apply stable_or, stable_known|by right|].
  apply (no_account_undoable (ChFBRC a v)).
Qed.
Lemma addFBalance_undoable a v :
  undoable (λ s, v = 0 ∨ known a s) (addFBalance a v) (λ _ s, v = 0 ∨ known a s).
Proof.
  apply (undoable_add _ _ (ChFBalance a v)); [apply FBalance_op|apply stable_or, stable_known|by right|].
  apply (no_account_undoable (ChFBalance a v)).
Qed.

(** Subtraction: check, then add the 256-bit negation. *)
Lemma undoable_sub a v (f : Account → u256) e (add none : M unit) R :
  (∀ P Q, undoable P none Q) → undoable (known a) add (λ _, R) →
  undoable (λ _, True)
    (if v =? 0 then mret tt
     else o ← account a;
          match o with Some x => if f x <? v then throw e else add | None => none end)
    (λ _ s, v = 0 ∨ R s).
Proof.
  intros Hn Ha. destruct (v =? 0) eqn:Ev; [apply undoable_ret; intros; left; lia|].
  eapply undoable_bind; [apply undoable_account|]. intros [x|]; [|apply Hn].
  destruct (f x <? v); [apply undoable_throw|].
  eapply undoable_conseq; [exact Ha|intros s; apply cached_known|by auto].
Qed.
Lemma subBalance_undoable a v : undoable (λ _, True) (subBalance a v) (λ _ s, v = 0 ∨ known a s).
Proof.
  apply undoable_sub; [intros; apply undoable_throw|].
  by eapply undoable_conseq; [apply addBalance_undoable|..].
Qed.
Lemma subBRC_undoable a v : undoable (λ _, True) (subBRC a v) (λ _ s, v = 0 ∨ known a s).
Proof.
  apply undoable_sub; [intros; apply undoable_undef|].
  by eapply undoable_conseq; [apply addBRC_undoable|..].
Qed.
Lemma subBallot_undoable a v : undoable (λ _, True) (subBallot a v) (λ _ s, v = 0 ∨ known a s).
Proof.
  apply undoable_sub; [intros; apply undoable_throw|].
  by eapply undoable_conseq; [apply addBallot_undoable|..].
Qed.

(** ** The primitives, with trivial conditions *)
Lemma undo_ok_weaken {A} (m : M A) Q : undoable (λ _, True) m Q → undo_ok m.
Proof. intros. by eapply undoable_conseq. Qed.
Lemma undo_ok_addBalance a v : undo_ok (addBalance a v).
Proof. eapply undo_ok_weaken, addBalance_undoable. Qed.
Lemma undo_ok_addBRC a v : undo_ok (addBRC a v).
Proof. eapply undo_ok_weaken, addBRC_undoable. Qed.
Lemma undo_ok_addBallot a v : undo_ok (addBallot a v).
Proof. eapply undo_ok_weaken, addBallot_undoable. Qed.
Lemma undo_ok_subBalance a v : undo_ok (subBalance a v).
Proof. eapply undo_ok_weaken, subBalance_undoable. Qed.
Lemma undo_ok_subBRC a v : undo_ok (subBRC a v).
Proof. eapply undo_ok_weaken, subBRC_undoable. Qed.
Lemma undo_ok_subBallot a v : undo_ok (subBallot a v).
Proof. eapply undo_ok_weaken, subBallot_undoable. Qed.
Lemma undo_ok_subFBRC a v : undo_ok (subFBRC a v).
Proof.
  eapply undo_ok_weaken, (undoable_sub _ _ _ _ _ _ (λ s, 0 [-] v = 0 ∨ known a s));
    [intros; apply undoable_undef|].
  eapply undoable_conseq; [apply addFBRC_undoable|intros s ?; by right|done].
Qed.
Lemma undo_ok_subFBalance a v : undo_ok (subFBalance a v).
Proof.
  eapply undo_ok_weaken, (undoable_sub _ _ _ _ _ _ (λ s, 0 [-] v = 0 ∨ known a s));
    [intros; apply undoable_undef|].
  eapply undoable_conseq; [apply addFBalance_undoable|intros s ?; by right|done].
Qed.
(** Moving an amount of the same account into its frozen part. *)
Lemma undo_ok_freeze_BRC a v : undo_ok (subBRC a v ;; addFBRC a v).
Proof.
  eapply undoable_bind; [apply subBRC_undoable|]. intros u.
  by eapply undoable_conseq; [apply addFBRC_undoable|..].
Qed.
Lemma undo_ok_freeze_balance a v : undo_ok (subBalance a v ;; addFBalance a v).
Proof.
  eapply undoable_bind; [apply subBalance_undoable|]. intros u.
  by eapply undoable_conseq; [apply addFBalance_undoable|..].
Qed.

(** ** The order book *)
Lemma undo_ok_createExdb (x : Account) :
  isDirty x = true → undoable (absent ExdbSystemAddress) (createAccount ExdbSystemAddress x) (λ _ _, True).
Proof. intros D s Hs [Hx Hv]. split; [by apply (Undo_create s ExdbSystemAddress x)|done]. Qed.

Lemma undo_ok_getExOrder : undo_ok getExOrder.
Proof.
  eapply undoable_bind; [apply undoable_account|]. intros [x|]; [apply undoable_ret; done|].
  eapply undoable_bind; [by apply undo_ok_createExdb|]. intros u.
  eapply undoable_bind; [apply undoable_deref|]. intros x. by apply undoable_ret.
Qed.

Lemma multi_equiv x l : x ≡ setExOrderMulti (m_exChangeOrder x) (setExOrderMulti l x).
Proof. split; [by destruct x|]. intros k. by apply same_storage_sval. Qed.

Lemma undo_ok_addExchangeOrder a o : undo_ok (addExchangeOrder a o).
Proof.
  eapply undoable_bind; [apply undoable_account|]. intros [x|]; [|apply undoable_throw].
  eapply undoable_conseq; [|exact (λ s H, H)|done].
  apply (undoable_edit x (addExOrderMulti o) (ChUpExOrder a _)); [done|by repeat split|].
  eexists. split; [reflexivity|]. apply (multi_equiv x).
Qed.
Lemma undo_ok_removeExchangeOrder a t : undo_ok (removeExchangeOrder a t).
Proof.
  eapply undoable_bind; [apply undoable_account|]. intros [x|]; [|apply undoable_throw].
  unfold removeExOrderMulti. destruct (multi_find t (m_exChangeOrder x)) as [o|].
  - eapply undoable_conseq; [|exact (λ s H, H)|done].
    apply (undoable_edit x (λ _, _) (ChUpExOrder a _)); [done|by repeat split|].
    eexists. split; [reflexivity|]. apply (multi_equiv x).
  - intros s Hs Hx. unfold mbind, ST_bind. rewrite (write_eq _ _ _ _ Hx).
    rewrite put_id by done. split; [by apply Undo_refl|done].
Qed.

Lemma undo_ok_throw {A} e : undo_ok (throw (A:=A) e).
Proof. apply undoable_throw. Qed.
Lemma undo_ok_undef {A} : undo_ok (undef (A:=A)).
Proof. apply undoable_undef. Qed.
Lemma undo_ok_exit {A} : undo_ok (exit1 (A:=A)).
Proof. apply undoable_exit. Qed.
Lemma undo_ok_fuel {A} : undo_ok (out_of_fuel (A:=A)).
Proof. apply undoable_fuel. Qed.
End Undoable.

Create HintDb undo discriminated.
#[export] Hint Constants Opaque : undo.
#[export] Hint Variables Opaque : undo.
#[export] Hint Resolve undo_ok_ret undo_ok_throw undo_ok_undef undo_ok_exit undo_ok_fuel undo_ok_getS undo_ok_div
  undo_ok_require undo_ok_cast_or undo_ok_cast_unchecked undo_ok_account undo_ok_read undo_ok_deref
  undo_ok_reread undo_ok_addBalance undo_ok_addBRC undo_ok_addBallot undo_ok_subBalance undo_ok_subBRC
  undo_ok_subBallot undo_ok_subFBRC undo_ok_subFBalance undo_ok_freeze_BRC undo_ok_freeze_balance
  undo_ok_getExOrder undo_ok_addExchangeOrder undo_ok_removeExchangeOrder : undo.

(** Decomposes a program along its control flow; the leaves are resolved from the hints. *)
Ltac undo_step :=
  lazymatch goal with
  | |- ∀ _, _ => intros ?
  | |- undo_ok (let _ := _ in _) => cbv zeta
  | |- undo_ok (if ?b then _ else _) => destruct b
  | |- undo_ok (match ?x with _ => _ end) => destruct x
  | |- undo_ok (when _ _) => apply undo_ok_when
  | |- undo_ok (forM _ _) => apply undo_ok_forM
  | |- undo_ok (foldM _ _ _) => apply undo_ok_foldM
  | |- undo_ok (try_catch _ _ _) => apply undo_ok_try
  | |- undo_ok (subBRC ?a ?v ≫= λ _, addFBRC ?a ?v) => apply undo_ok_freeze_BRC
  | |- undo_ok (subBalance ?a ?v ≫= λ _, addFBalance ?a ?v) => apply undo_ok_freeze_balance
  | |- undo_ok (_ ≫= _) => apply undo_ok_bind
  | |- undo_ok _ => solve [ auto with undo ]
  end.
Ltac undo_tac := repeat undo_step.

Section Composites.
Context `{CR : Crypto, CF : Config, ST_ : !StorageTrie, RN : Rng, CO : !AccountCodec}.

(** ** Transfers *)
Lemma undo_ok_transferBalance a b v : undo_ok (transferBalance a b v).
Proof. unfold transferBalance. undo_tac. Qed.
Lemma undo_ok_transferBRC a b v : undo_ok (transferBRC a b v).
Proof. unfold transferBRC. undo_tac. Qed.
Lemma undo_ok_transferBallotBuy a v : undo_ok (transferBallotBuy a v).
Proof. unfold transferBallotBuy. undo_tac. Qed.
Lemma undo_ok_transferBallotSell a v : undo_ok (transferBallotSell a v).
Proof. unfold transferBallotSell. undo_tac. Qed.
#[local] Hint Resolve undo_ok_transferBalance undo_ok_transferBRC undo_ok_transferBallotBuy
  undo_ok_transferBallotSell : undo.
Lemma undo_ok_execute_transfer_BRCs a ops : undo_ok (execute_transfer_BRCs a ops).
Proof. unfold execute_transfer_BRCs. undo_tac. Qed.

(** ** Matching *)
Lemma undo_ok_only_price_loop od p spend l r h : undo_ok (only_price_loop od p spend l r h).
Proof.
  revert spend r h. induction l as [|x l IH]; intros spend r h; simpl; [auto with undo|].
  unfold add_exchangeOrder. undo_tac; auto.
Qed.
Lemma undo_ok_all_price_buy_loop itr b t l r : undo_ok (all_price_buy_loop itr b t l r).
Proof.
  revert t r. induction l as [|x l IH]; intros t r; simpl; [auto with undo|].
  unfold add_exchangeOrder, remove_exchangeOrder. undo_tac; auto.
Qed.
Lemma undo_ok_all_price_sell_loop itr b t l r : undo_ok (all_price_sell_loop itr b t l r).
Proof.
  revert t r. induction l as [|x l IH]; intros t r; simpl; [auto with undo|].
  unfold add_exchangeOrder, remove_exchangeOrder. undo_tac; auto.
Qed.
#[local] Hint Resolve undo_ok_only_price_loop undo_ok_all_price_buy_loop undo_ok_all_price_sell_loop : undo.
Lemma undo_ok_insert_operation o b : undo_ok (insert_operation o b).
Proof.
  unfold insert_operation, get_buy_itr, get_sell_itr, process_only_price, add_exchangeOrder, remove_exchangeOrder.
  undo_tac.
Qed.
#[local] Hint Resolve undo_ok_insert_operation : undo.

(** ** Trading *)
Lemma undo_ok_transfer_result r : undo_ok (transfer_result r).
Proof. unfold transfer_result, pendingOrderTransfer. undo_tac. Qed.
#[local] Hint Resolve undo_ok_transfer_result : undo.
Lemma undo_ok_system_orders now tys acc : undo_ok (system_orders now tys acc).
Proof.
  revert acc. induction tys as [|ty tys IH]; intros [[v b] c]; simpl; [auto with undo|].
  unfold system_order, BRC, balance. undo_tac; auto.
Qed.
#[local] Hint Resolve undo_ok_system_orders : undo.
Lemma undo_ok_system_place acc o : undo_ok (system_place acc o).
Proof. unfold system_place, insert_or_fail, system_result. undo_tac. Qed.
Lemma undo_ok_pend_place acc o : undo_ok (pend_place acc o).
Proof. unfold pend_place, insert_or_fail, pend_result. undo_tac. Qed.
#[local] Hint Resolve undo_ok_system_place undo_ok_pend_place : undo.
Lemma undo_ok_systemAuto fuel set now : undo_ok (systemAutoPendingOrder fuel set now).
Proof.
  revert set. induction fuel as [|fuel IH]; intros set; simpl; [auto with undo|]. undo_tac; auto.
Qed.
#[local] Hint Resolve undo_ok_systemAuto : undo.
Lemma undo_ok_pendingOrders fuel a now h ops n : undo_ok (pendingOrders fuel a now h ops n).
Proof. unfold pendingOrders, pend_prepare. undo_tac. Qed.
#[local] Hint Resolve undo_ok_pendingOrders : undo.
Lemma undo_ok_cancelPendingOrders ops : undo_ok (cancelPendingOrders ops).
Proof. unfold cancelPendingOrders, cancel_order_by_trxid, release, remove_exchangeOrder. undo_tac. Qed.
Lemma undo_ok_transferAutoEx fuel ops t now g n : undo_ok (transferAutoEx fuel ops t now g n).
Proof. unfold transferAutoEx. undo_tac. Qed.

(** ** Gas prices *)
Lemma gasprice_equiv x m : x ≡ setMinerGasPrices (m_minerGasPrice x) (setMinerGasPrices m x).
Proof. split; [by destruct x|]. intros k. by apply same_storage_sval. Qed.
Lemma undoable_gasprice x f :
  isDirty (f x) = true → (∃ m, f x = setMinerGasPrices m x) →
  undoable (cached GaspriceAddress x)
    (write GaspriceAddress f ;; log (ChMinerGasPrice GaspriceAddress (m_minerGasPrice x))) (λ _ _, True).
Proof.
  intros D [m Hm]. eapply undoable_conseq; [|exact (λ s H, H)|done].
  apply (undoable_edit x f (ChMinerGasPrice GaspriceAddress _)); [done|by repeat split|].
  eexists. split; [reflexivity|]. rewrite Hm. apply gasprice_equiv.
Qed.
Lemma undo_ok_modify_op op :
  undo_ok (a ← deref GaspriceAddress; o ← cast_unchecked (as_modifyGasPrice op);
           write GaspriceAddress (setMinerGasPrice (m_proposer o) (m_proposedAmount o)) ;;
           log (ChMinerGasPrice GaspriceAddress (m_minerGasPrice a))).
Proof.
  eapply undoable_bind; [apply undoable_deref|]. intros x.
  destruct (as_modifyGasPrice op) as [o|]; [|by apply undoable_pure]. simpl.
  eapply undoable_bind; [by apply (undoable_ret _ o (λ _, cached GaspriceAddress x))|]. intros o'.
  apply undoable_gasprice; [done|]. by eexists.
Qed.
Lemma undo_ok_modifyGasPrice ops : undo_ok (modifyGasPrice ops).
Proof. apply undo_ok_forM. intros op. apply undo_ok_modify_op. Qed.
Lemma undo_ok_changeMinerModifyGasPrice ops : undo_ok (changeMinerModifyGasPrice ops).
Proof.
  apply undo_ok_forM. intros op. apply undo_ok_bind; [auto with undo|]. intros o.
  eapply undoable_bind; [apply undoable_account|]. intros [x|]; [|by apply undoable_pure].
  eapply undoable_bind; [by apply (undoable_ret _ x (λ y s, y = x ∧ cached GaspriceAddress x s))|].
  intros y. apply undoable_pre. intros ->. apply undoable_gasprice; [done|]. by eexists.
Qed.
End Composites.
