(* ===== verification/Commit.v ===== *)
(** * Commit and reload

    [State::commit] with the codec of [Codec]: what every account reads as after
    its encoding went to the trie and the cache was dropped. *)
From stdpp Require Import base gmap list.
From Stdlib Require Import ZArith Lia.
From S2P Require Import Prelude Rlp RlpProofs Config Objects Interfaces Account ChainState Codec CodecProofs Rollback.
Open Scope Z_scope.

Section Commit.
Context `{CR : Crypto, CF : Config, ST_ : !StorageTrie, RN : Rng}.

(** The entry [commit] leaves in the trie for an address. *)
Definition trie_entry (s : State) (a : Address) : option bytes :=
  match m_cache s !! a with
  | Some x =>
      if isDirty x then
        if m_isAlive x then Some (encode_account (m_block_number s) (committed_root x) x) else None
      else m_state s !! a
  | None => m_state s !! a
  end.

Lemma commit_trie_lookup s a : commit_trie s !! a = trie_entry s a.
Proof.
  unfold commit_trie, trie_entry.
  set (f := λ (a : Address) x (t : gmap Address bytes), if isDirty x then _ else t).
  generalize (m_cache s). intros c.
  apply (map_fold_weak_ind (λ r c, r !! a = match c !! a with Some x => _ | None => m_state s !! a end));
    [by rewrite lookup_empty|].
  intros b x m t Hb IH. unfold f at 1. destruct (decide (a = b)) as [->|Hne].
  - rewrite lookup_insert_eq. rewrite Hb in IH. destruct (isDirty x); [|done].
    destruct (m_isAlive x); [by rewrite lookup_insert_eq|by rewrite lookup_delete_eq].
  - rewrite lookup_insert_ne by done. destruct (isDirty x); [|done].
    destruct (m_isAlive x); [by rewrite lookup_insert_ne|by rewrite lookup_delete_ne].
Qed.

(** The cache as [commit] sees it. *)
Definition pruned (remove_empty : bool) (s : State) : State :=
  if remove_empty then removeEmptyAccounts s else s.
Definition committed (remove_empty : bool) (s : State) : State := (commit remove_empty s).2.

Lemma committed_fields re s :
  m_cache (committed re s) = ∅ ∧ m_changeLog (committed re s) = [] ∧
  m_state (committed re s) = commit_trie (pruned re s) ∧
  m_block_number (committed re s) = m_block_number s ∧ m_curr_number (committed re s) = m_curr_number s ∧
  m_nonExistingAccountsCache (committed re s) = m_nonExistingAccountsCache s.
Proof. by destruct re. Qed.

(** Accounts a node can write: in range, and of a size a [size_t] can hold. *)
Definition writable (s : State) (x : Account) : Prop :=
  account_wf x ∧ in256 (committed_root x) ∧
  fits (Items (account_items (m_block_number s) (committed_root x) x)).

(** The account that is read back after a commit. *)
Definition reread_after (s : State) (x : Account) : Account :=
  let y := reloaded (m_block_number s) (m_block_number s) (m_curr_number s) (committed_root x) x in
  if gasPriceHeight <=? m_curr_number s then untouch y else changed y.

Lemma load_committed s x :
  writable s x → load s (encode_account (m_block_number s) (committed_root x) x) = Some (reread_after s x).
Proof.
  intros (Hx&Hr&Hf). unfold load, decode_account, encode_account, account_codec, account_encode.
  rewrite decode_encode_ok; [done|done|done|]. by apply good_account.
Qed.

Lemma trie_view_committed re s a :
  (∀ x, m_cache (pruned re s) !! a = Some x → isDirty x = true → m_isAlive x = true → writable s x) →
  trie_view (committed re s) a =
    match m_cache (pruned re s) !! a with
    | Some x => if isDirty x then if m_isAlive x then Some (reread_after s x) else None else trie_view s a
    | None => trie_view s a
    end.
Proof.
  intros Hw. destruct (committed_fields re s) as (_&_&Hs&Hb&Hc&_). unfold trie_view, load. rewrite Hb, Hc, Hs.
  rewrite commit_trie_lookup. unfold trie_entry.
  assert (m_block_number (pruned re s) = m_block_number s) as -> by by destruct re.
  assert (m_state (pruned re s) = m_state s) as -> by by destruct re.
  destruct (m_cache (pruned re s) !! a) as [x|] eqn:E; [|done].
  destruct (isDirty x) eqn:D; [|done]. destruct (m_isAlive x) eqn:A; [|done].
  apply load_committed; auto.
Qed.

(** Storage survives: the overlay has become part of the trie. *)
Lemma storage_committed s x k :
  (∀ k v, m_storageOriginal x !! k = Some v → v = storage_at (m_storageRoot x) k) →
  sval (reread_after s x) k = sval x k.
Proof.
  intros Ho. rewrite !sval_unfold. unfold reread_after.
  assert (∀ y, m_storageRoot y = committed_root x → m_storageOverlay y = ∅ → m_storageOriginal y = ∅ →
    default (default (storage_at (m_storageRoot y) k) (m_storageOriginal y !! k)) (m_storageOverlay y !! k)
    = default (default (storage_at (m_storageRoot x) k) (m_storageOriginal x !! k)) (m_storageOverlay x !! k)) as H.
  { intros y -> -> ->. rewrite !lookup_empty. cbn. unfold committed_root.
    assert (default (storage_at (m_storageRoot x) k) (m_storageOriginal x !! k) = storage_at (m_storageRoot x) k) as ->
      by (destruct (m_storageOriginal x !! k) eqn:E; [by apply Ho|done]).
    case_bool_decide as E; [by rewrite E, lookup_empty|]. by rewrite storage_commit_at. }
  by destruct (gasPriceHeight <=? m_curr_number s); apply H.
Qed.
End Commit.
