(* ===== verification/Atomic.v ===== *)
(** * Failed transactions leave no trace

    [State::executeTransaction] takes a savepoint, runs a transaction and, when it
    throws a [dev::Exception], rolls the change log back.  For the batches whose
    operations log what they change, the state after such a failure is the state
    before the transaction. *)
From stdpp Require Import base gmap list.
From Stdlib Require Import ZArith Lia.
From S2P Require Import Prelude Rlp Config Objects Interfaces Account ChainState StateOps Exdb Operations Codec.
From S2P Require Import Exchange Vote Income Miner Verify Rollback Undoable.
Open Scope Z_scope.

Section Atomic.
Context `{CR : Crypto, CF : Config, ST_ : !StorageTrie, RN : Rng, CO : !AccountCodec}.

Lemma undo_ok_lift {A} (m : outcome A) : undo_ok (lift m).
Proof. apply undoable_pure; [done|]. by intros. Qed.
#[local] Hint Resolve undo_ok_lift undo_ok_insert_operation undo_ok_cancelPendingOrders undo_ok_transferAutoEx
  undo_ok_modifyGasPrice undo_ok_pendingOrders undo_ok_execute_transfer_BRCs : undo.

(** ** Checks *)
Lemma undo_ok_verifyTranscation f t ty n : undo_ok (verifyTranscation f t ty n).
Proof. unfold verifyTranscation, BRC. undo_tac. Qed.
Lemma undo_ok_verifyPendingOrders f c now g h ops : undo_ok (verifyPendingOrders f c now g h ops).
Proof. unfold verifyPendingOrders, verify_order, get_order_by_type, balance, BRC. undo_tac. Qed.
Lemma undo_ok_verifyCancelPendingOrders a ops : undo_ok (verifyCancelPendingOrders a ops).
Proof. unfold verifyCancelPendingOrders, exits_trxid. undo_tac. Qed.
Lemma undo_ok_verifyTransferAutoEx f ops g t env : undo_ok (verifyTransferAutoEx f ops g t env).
Proof. unfold verifyTransferAutoEx, BRC. undo_tac. Qed.
Lemma undo_ok_verifyModifyMinerGasPrice f n ops : undo_ok (verifyModifyMinerGasPrice f n ops).
Proof. unfold verifyModifyMinerGasPrice. undo_tac. Qed.
#[local] Hint Resolve undo_ok_verifyTranscation undo_ok_verifyPendingOrders undo_ok_verifyCancelPendingOrders
  undo_ok_verifyTransferAutoEx undo_ok_verifyModifyMinerGasPrice : undo.

Lemma undo_ok_read_batch e data : undo_ok (read_batch e data).
Proof. unfold read_batch, read_op, balance. undo_tac. Qed.

(** The types whose operations log every change they make. *)
Definition logged_type (ty : Z) : bool :=
  negb ((ty =? op_vote) || (ty =? op_changeMiner) || (ty =? op_receivingincome)).

Lemma undo_ok_verify_batch e ty ops : logged_type ty = true → undo_ok (verify_batch e ty ops).
Proof.
  unfold logged_type, verify_batch. intros Hl.
  destruct (ty =? op_vote); [done|]. destruct (ty =? op_pendingOrder); [auto with undo|].
  destruct (ty =? op_cancelPendingOrder); [auto with undo|].
  destruct (ty =? op_receivingincome); [by rewrite orb_true_r in Hl|].
  destruct (ty =? op_changeMiner); [done|]. undo_tac.
Qed.
Lemma undo_ok_execute_batch fuel e ty ops : logged_type ty = true → undo_ok (execute_batch fuel e ty ops).
Proof.
  unfold logged_type, execute_batch. intros Hl.
  destruct (ty =? op_vote); [done|]. destruct (ty =? op_brcTranscation); [auto with undo|].
  destruct (ty =? op_pendingOrder); [undo_tac|].
  destruct (ty =? op_cancelPendingOrder); [auto with undo|].
  destruct (ty =? op_changeMiner); [done|].
  destruct (ty =? op_receivingincome); [done|]. undo_tac.
Qed.

(** ** What a batch consists of *)
Lemma require_inv b ex (s : State) u t : require b ex s = (Ok u, t) → b = true ∧ t = s.
Proof. destruct b; [|done]. by intros [= <- <-]. Qed.
Lemma lift_inv {A} (m : outcome A) (s : State) x t : lift m s = (Ok x, t) → m = Ok x ∧ t = s.
Proof. by intros [= -> ->]. Qed.

Lemma read_op_inv e n acc val s acc' t :
  read_op e n acc val s = (Ok acc', t) →
  ∃ op, parse_operation (get_type val) val = Ok op ∧ acc' = (get_type val, acc.2 ++ [op]) ∧
    (acc.2 ≠ [] → acc.1 = get_type val) ∧ (get_type val ≠ op_brcTranscation → n <= 1) ∧ n <= 50.
Proof.
  unfold read_op. cbv zeta. intros (u&s1&H1&H)%bind_inv. apply require_inv in H1 as [H1 ->].
  apply bind_inv in H as (u2&s2&H2&H). apply require_inv in H2 as [H2 ->].
  apply bind_inv in H as (u3&s3&H3&H). apply require_inv in H3 as [H3 ->].
  apply bind_inv in H as (u4&s4&_&H). apply bind_inv in H as (op&s5&H5&H). apply lift_inv in H5 as [H5 ->].
  apply bind_inv in H as (v&s6&_&H). apply bind_inv in H as (u7&s7&_&H). injection H as <- <-.
  exists op. split; [done|]. split; [done|]. split.
  - intros Hne. destruct (decide (acc.1 = get_type val)); [done|].
    by rewrite !bool_decide_eq_true_2 in H1.
  - destruct (Z.eqb_spec (get_type val) op_brcTranscation); cbn in *; lia.
Qed.

Lemma read_ops_inv e n vals acc s r t :
  foldM (read_op e n) acc vals s = (Ok r, t) → vals ≠ [] →
  ∃ ops, Forall2 (λ v o, parse_operation (get_type v) v = Ok o) vals ops ∧ r.2 = acc.2 ++ ops ∧
    Forall (λ v, get_type v = r.1) vals ∧ (acc.2 ≠ [] → acc.1 = r.1) ∧ (r.1 ≠ op_brcTranscation → n <= 1) ∧ n <= 50.
Proof.
  revert acc s. induction vals as [|v vals IH]; intros acc s H Hne; [done|]. simpl in H.
  apply bind_inv in H as (acc1&s1&(op&Hp&->&Ht&Hn&Hm)%read_op_inv&H).
  destruct (decide (vals = [])) as [->|Hv].
  - injection H as <- <-. exists [op]. cbn. by repeat (constructor || split).
  - apply IH in H as (ops&Hf&Hr&Hty&Hacc&Hn'&_); [|done].
    assert (get_type v = r.1) as Hv1 by (apply Hacc; by destruct acc.2).
    exists (op :: ops). rewrite Hr. cbn [snd]. rewrite <-app_assoc. split_and!; auto.
    intros Ha. rewrite <-Hv1. auto.
Qed.

(** The operations of a batch are the encodings in the data, all of one type; only
    transfers come in batches, and at most fifty of them. *)
Lemma read_batch_inv e data s ty ops t :
  read_batch e data s = (Ok (ty, ops), t) →
  ∃ vals, (RLP data ≫= toVector toBytes) = Ok vals ∧ vals ≠ [] ∧
    Forall2 (λ v o, get_type v = ty ∧ parse_operation ty v = Ok o) vals ops ∧
    (ty ≠ op_brcTranscation → length ops = 1%nat) ∧ (length ops <= 50)%nat.
Proof.
  unfold read_batch. intros (vals&s1&[H1 ->]%lift_inv&H)%bind_inv.
  apply bind_inv in H as (u&s2&[H2 ->]%require_inv&H). apply bool_decide_eq_true in H2.
  apply bind_inv in H as (r&s3&H3&H). apply bind_inv in H as (u4&s4&_&H). injection H as -> ->.
  apply read_ops_inv in H3 as (ops'&Hf&Hr&Hty&_&Hn&Hm); [|done]. cbn in *. subst.
  exists vals. pose proof (Forall2_length _ _ _ Hf) as Hl. split_and!; [done|done| |..].
  - rewrite Forall_lookup in Hty. apply Forall2_same_length_lookup_2; [done|].
    intros i v o Hv Ho. assert (get_type v = ty) as E by eauto. split; [done|].
    rewrite <-E. by eapply Forall2_lookup_lr in Hf.
  - intros Hb. specialize (Hn Hb). destruct vals; [done|]. cbn [length] in *. lia.
  - lia.
Qed.

Definition data_logged (data : bytes) : Prop :=
  ∀ vals v, (RLP data ≫= toVector toBytes) = Ok vals → v ∈ vals → logged_type (get_type v) = true.

Lemma undoable_result {A} (m : M A) (φ : A → Prop) :
  undo_ok m → (∀ s x t, m s = (Ok x, t) → φ x) → undoable (λ _, True) m (λ x _, φ x).
Proof.
  intros Hm Hφ s Hs _. destruct (Hm s Hs I) as [Hu _]. split; [done|].
  intros x Hx. apply (Hφ s x (m s).2). rewrite <-Hx. by destruct (m s).
Qed.

Lemma read_batch_logged e data s r t :
  data_logged data → read_batch e data s = (Ok r, t) → logged_type r.1 = true.
Proof.
  destruct r as [ty ops]. intros Hd (vals&Hv&Hne&Hf&_)%read_batch_inv. destruct vals as [|v vals]; [done|].
  apply Forall2_cons_inv_l in Hf as (o&ops'&[<- _]&_&_). apply (Hd _ _ Hv). left.
Qed.

(** ** [executeTransaction] *)
(** A body that can be rolled back when it throws. *)
Definition atomic {A} (body : M A) (s : State) : Prop := ∀ e t, body s = (Throw e, t) → Undo s t.
Lemma undo_ok_atomic {A} (body : M A) s : undo_ok body → WF s → atomic body s.
Proof. intros H Hs e t E. destruct (H s Hs I) as [Hu _]. by rewrite E in Hu. Qed.
Lemma Undo_rollback s t :
  Undo s t → ∃ u, rollback (length (m_changeLog s)) t = (Ok tt, u) ∧ u ≡ s ∧ WF u.
Proof.
  intros (Hwf&Hle&u&Hr&E). exists u. unfold rollback. rewrite (bool_decide_eq_true_2 _ Hle), Hr.
  split_and!; [done|by symmetry|]. destruct (WFn_rollback _ _ Hwf) as (u'&Hr'&?). congruence.
Qed.
Lemma executeTransaction_failed {A} (body : M A) s e t :
  atomic body s → executeTransaction body s = (Throw e, t) → is_dev_exception e = true → t ≡ s ∧ WF t.
Proof.
  intros Hb. unfold executeTransaction, savepoint, try_catch.
  unfold mbind, ST_bind, getS, mret, ST_ret.
  destruct (body s) as [[x|e'| | |] u] eqn:E; simpl in *; try done.
  destruct (Undo_rollback s u) as (v&Hr&Ev&Hv); [by eapply Hb|]. rewrite Hr.
  destruct (is_dev_exception e') eqn:De; simpl; intros [= <- <-]; [by intros _|congruence].
Qed.
Lemma executeTransaction_inv {A} (body : M A) s x t : executeTransaction body s = (Ok x, t) → body s = (Ok x, t).
Proof.
  unfold executeTransaction, savepoint, try_catch, rollback, mbind, ST_bind, getS, mret, ST_ret.
  destruct (body s) as [[y|e| | |] u]; try done. destruct (is_dev_exception e); [|done].
  by destruct (bool_decide _); [destruct (rollback_n _ _)|].
Qed.
(** The exceptions of the body are the exceptions of the transaction: a rollback never fails. *)
Lemma executeTransaction_outcome {A} (body : M A) s :
  atomic body s → (executeTransaction body s).1 = (body s).1.
Proof.
  intros Hb. unfold executeTransaction, savepoint, try_catch.
  unfold mbind, ST_bind, getS, mret, ST_ret.
  destruct (body s) as [[x|e'| | |] u] eqn:E; simpl in *; try done.
  destruct (Undo_rollback s u) as (v&Hr&_); [by eapply Hb|]. rewrite Hr. by destruct (is_dev_exception e').
Qed.
End Atomic.
