(* ===== verification/Supply.v ===== *)
(** * Conservation of BRC and of cookies

    The totals over all accounts of free and frozen BRC, and of free and frozen
    cookies, modulo 2^256.  [moves P m b c]: a run of [m] that returns changes the
    totals by [b] and [c]; what a batch of transfers, orders, cancellations or
    automatic exchanges does comes to zero. *)
From stdpp Require Import base gmap list.
From Stdlib Require Import ZArith Lia.
From S2P Require Import Prelude Rlp Config Objects Interfaces Account ChainState StateOps Exdb Operations Codec.
From S2P Require Import Exchange Vote Income Miner Verify Rollback Undoable Atomic.
Open Scope Z_scope.

(** ** Totals *)
Section Total.
Context {A : Type} (f : A → Z).

Definition total (m : gmap Address A) : Z := map_fold (λ _ x acc, f x + acc) 0 m.

Lemma total_empty : total ∅ = 0.
Proof. apply map_fold_empty. Qed.
Lemma total_insert m a x : m !! a = None → total (<[a := x]> m) = f x + total m.
Proof. intros Ha. unfold total. rewrite map_fold_insert_L; [done| |done]. intros. lia. Qed.
Lemma total_split m a : total m = match m !! a with Some x => f x | None => 0 end + total (delete a m).
Proof.
  destruct (m !! a) as [x|] eqn:E; [|by rewrite delete_id].
  rewrite <-(insert_delete_id m a x E) at 1. rewrite total_insert; [done|apply lookup_delete_eq].
Qed.
Lemma total_cong `{!Equiv A} (Hf : ∀ x y, x ≡ y → w256 (f x) = w256 (f y)) (m m' : gmap Address A) :
  (∀ a, m !! a ≡ m' !! a) → w256 (total m) = w256 (total m').
Proof.
  revert m'. induction m as [|a x m Ha IH] using map_ind; intros m' H.
  - assert (m' = ∅) as ->; [|done]. apply map_empty. intros a. specialize (H a).
    rewrite lookup_empty in H. inversion H. done.
  - pose proof (H a) as Hx. rewrite lookup_insert_eq in Hx. 
    destruct (m' !! a) as [y|] eqn:Em'; [|inversion Hx]. apply (inj Some) in Hx.
    rewrite total_insert by done. rewrite (total_split m' a), Em'.
    rewrite <-w256_add_r, <-w256_add_l, (Hf x y), (IH (delete a m')); [by u256_norm| |done].
    intros b. destruct (decide (a = b)) as [<-|Hne]; [rewrite lookup_delete_eq, Ha; constructor|].
    rewrite lookup_delete_ne by done. specialize (H b). by rewrite lookup_insert_ne in H.
Qed.
End Total.

Definition held_BRC (x : Account) : Z := m_BRC x + m_FBRC x.
Definition held_cookies (x : Account) : Z := m_balance x + m_FBalance x.

Section Supply.
Context `{CR : Crypto, CF : Config, ST_ : !StorageTrie, RN : Rng, CO : !AccountCodec}.

Definition accounts (s : State) : gmap Address Account := m_cache s ∪ omap (load s) (m_state s).
Lemma accounts_view s a : accounts s !! a = view s a.
Proof.
  unfold accounts, view, trie_view. rewrite lookup_union, lookup_omap.
  by destruct (m_cache s !! a), (m_state s !! a ≫= load s).
Qed.

Definition supply (f : Account → Z) (s : State) : u256 := w256 (total f (accounts s)).
Definition BRC_supply : State → u256 := supply held_BRC.
Definition cookie_supply : State → u256 := supply held_cookies.

(** A quantity of an account that readers see modulo 2^256. *)
Definition visible (f : Account → Z) : Prop := ∀ x y : Account, x ≡ y → w256 (f x) = w256 (f y).
Lemma held_BRC_visible : visible held_BRC.
Proof.
  intros x y [E _]. unfold held_BRC. pose proof (f_equal m_BRC E) as E1. pose proof (f_equal m_FBRC E) as E2.
  unfold norm in E1, E2. acct_fields in E1. acct_fields in E2.
  rewrite <-(w256_add_l (m_BRC x)), <-(w256_add_l (m_BRC y)), <-(w256_add_r _ (m_FBRC x)), <-(w256_add_r _ (m_FBRC y)).
  by destruct x, y; cbn in *; rewrite E1, E2.
Qed.
Lemma held_cookies_visible : visible held_cookies.
Proof.
  intros x y [E _]. unfold held_cookies. pose proof (f_equal m_balance E) as E1. pose proof (f_equal m_FBalance E) as E2.
  unfold norm in E1, E2. acct_fields in E1. acct_fields in E2.
  rewrite <-(w256_add_l (m_balance x)), <-(w256_add_l (m_balance y)), <-(w256_add_r _ (m_FBalance x)), <-(w256_add_r _ (m_FBalance y)).
  by destruct x, y; cbn in *; rewrite E1, E2.
Qed.

Section Visible.
Context (f : Account → Z) (Hf : visible f).

Lemma supply_equiv s t : s ≡ t → supply f s = supply f t.
Proof using Hf. intros [_ E]. unfold supply. apply (total_cong f Hf). intros a. rewrite !accounts_view. apply E. Qed.

Definition at_account (s : State) (a : Address) : Z := match view s a with Some x => f x | None => 0 end.
(** Only the account at [a] changes. *)
Lemma supply_at s t a :
  (∀ b, b ≠ a → view t b = view s b) → supply f t = supply f s [+] (at_account t a - at_account s a).
Proof.
  intros E. unfold supply. rewrite (total_split f (accounts t) a), (total_split f (accounts s) a).
  rewrite !accounts_view. fold (at_account t a) (at_account s a).
  assert (delete a (accounts t) = delete a (accounts s)) as ->.
  { apply map_eq. intros b. destruct (decide (a = b)) as [<-|Hne]; [by rewrite !lookup_delete_eq|].
    rewrite !lookup_delete_ne by done. rewrite !accounts_view. by apply E. }
  u256_norm. f_equal. lia.
Qed.
End Visible.

(** Every account is still there, with the nonce it had. *)
Definition nonces_kept (s t : State) : Prop :=
  ∀ a x, view s a = Some x → ∃ y, view t a = Some y ∧ m_nonce y = m_nonce x.
Lemma nonces_equiv s t : s ≡ t → nonces_kept s t.
Proof.
  intros [_ E] a x Hx. specialize (E a). rewrite Hx in E. destruct (view t a) as [y|]; [|inversion E].
  exists y. split; [done|]. apply (inj Some) in E as [E _]. by apply (f_equal m_nonce) in E; destruct x, y.
Qed.
Lemma nonces_trans s t u : nonces_kept s t → nonces_kept t u → nonces_kept s u.
Proof. intros H1 H2 a x (y&Hy&Ey)%H1. apply H2 in Hy as (z&Hz&Ez). exists z. split; [done|congruence]. Qed.

(** ** Moves *)
Definition moves {A} (P : State → Prop) (m : M A) (b c : Z) : Prop :=
  ∀ s x t, WF s → P s → m s = (Ok x, t) →
    BRC_supply t = BRC_supply s [+] b ∧ cookie_supply t = cookie_supply s [+] c ∧ nonces_kept s t.
(** A computation that can be rolled back and does not change the totals. *)
Definition neutral {A} (m : M A) : Prop := undo_ok m ∧ moves (λ _, True) m 0 0.

Lemma supply_in256 f s : in256 (supply f s).
Proof. apply w256_in. Qed.
Lemma moves_same {A} P (m : M A) :
  (∀ s x t, WF s → P s → m s = (Ok x, t) → s ≡ t) → moves P m 0 0.
Proof.
  intros H s x t Hs Hp E. specialize (H s x t Hs Hp E). unfold BRC_supply, cookie_supply.
  rewrite <-(supply_equiv held_BRC held_BRC_visible s t H), <-(supply_equiv held_cookies held_cookies_visible s t H).
  rewrite !Z.add_0_r, !w256_small by apply supply_in256. auto using nonces_equiv.
Qed.
Lemma moves_bind {A B} P (m : M A) R (k : A → M B) b c b' c' :
  undoable P m R → moves P m b c → (∀ x, moves (R x) (k x) b' c') → moves P (m ≫= k) (b + b') (c + c').
Proof.
  intros Hu Hm Hk s y t Hs Hp (x&s1&E1&E2)%bind_inv.
  destruct (Hu s Hs Hp) as [Hw%Undo_WF HR]. rewrite E1 in *. cbn in *.
  destruct (Hm s x s1 Hs Hp E1) as (H1&H2&N1).
  destruct (Hk x s1 y t Hw (HR x eq_refl) E2) as (H3&H4&N2). rewrite H3, H4, H1, H2.
  u256_norm. split_and!; [f_equal; lia|f_equal; lia|by eapply nonces_trans].
Qed.
Lemma moves_then {A B} (m : M A) (k : A → M B) b c b' c' :
  undo_ok m → moves (λ _, True) m b c → (∀ x, moves (λ _, True) (k x) b' c') →
  moves (λ _, True) (m ≫= k) (b + b') (c + c').
Proof. apply (moves_bind _ _ (λ _ _, True)). Qed.
Lemma moves_conseq {A} (P P' : State → Prop) (m : M A) b c b' c' :
  moves P' m b' c' → (∀ s, P s → P' s) → w256 b = w256 b' → w256 c = w256 c' → moves P m b c.
Proof.
  intros H HP Eb Ec s x t Hs Hp E. destruct (H s x t Hs (HP s Hp) E) as (->&->&?).
  rewrite <-(w256_add_r _ b), <-(w256_add_r _ c), Eb, Ec. by u256_norm.
Qed.
Lemma moves_throw {A} P e b c : moves P (throw (A:=A) e) b c.
Proof. by intros s x t _ _ [=]. Qed.
Lemma moves_undef {A} P b c : moves P (undef (A:=A)) b c.
Proof. by intros s x t _ _ [=]. Qed.

(** *** One account *)

(** [t] is [s] with the account at [a] replaced; the log may have grown. *)
Definition edited (a : Address) (y : Account) (s t : State) : Prop :=
  (∀ b, b ≠ a → view t b = view s b) ∧ view t a = Some y.
Lemma edited_put a y s : edited a y s (put a y s).
Proof. split; [|by apply view_cached, lookup_put]. intros b Hb. by apply view_put_ne. Qed.
Lemma edited_logc a y s t c : edited a y s t → edited a y s (logc c t).
Proof. done. Qed.
Lemma edited_equiv_moves s s1 a y t :
  s ≡ s1 → edited a y s1 t →
  BRC_supply t = BRC_supply s [+] (held_BRC y - at_account held_BRC s1 a)
  ∧ cookie_supply t = cookie_supply s [+] (held_cookies y - at_account held_cookies s1 a).
Proof.
  intros E [Hne Hy]. unfold BRC_supply, cookie_supply.
  rewrite (supply_equiv _ held_BRC_visible s s1 E), (supply_equiv _ held_cookies_visible s s1 E).
  rewrite (supply_at held_BRC s1 t a Hne), (supply_at held_cookies s1 t a Hne).
  unfold at_account. rewrite Hy. done.
Qed.

Lemma edited_nonces s s1 a y t :
  s ≡ s1 → edited a y s1 t → (∀ x, view s1 a = Some x → m_nonce y = m_nonce x) → nonces_kept s t.
Proof.
  intros E [Hne Hy] Hn. eapply nonces_trans; [by apply nonces_equiv|]. intros b x Hx.
  destruct (decide (b = a)) as [->|Hb]; [|rewrite (Hne b Hb); eauto]. exists y. auto.
Qed.

(** The shape of [addBalance], [addBRC], ...: an existing account is edited, a missing
    one is left to [missing]. *)
Lemma add_inv c f v missing s u t :
  WF s →
  ((o ← account (ch_address c);
    match o with
    | Some x => log_touch (ch_address c) x ;; write (ch_address c) f
    | None => missing
    end) ;; log_amount c v) s = (Ok u, t) →
  ∃ s1, s ≡ s1 ∧ WF s1 ∧
    ((∃ x, cached (ch_address c) x s1 ∧ edited (ch_address c) (f x) s1 t) ∨
     (absent (ch_address c) s1 ∧ (missing ;; log_amount c v) s1 = (Ok u, t))).
Proof.
  intros Hs E. rewrite bind_assoc in E. apply bind_inv in E as (o&s1&E1&E).
  pose proof (account_equiv (ch_address c) s Hs) as Es. destruct (account_spec (ch_address c) s Hs) as [Hw%Undo_WF Ho].
  rewrite E1 in *. cbn in Es, Hw, Ho. exists s1. split_and!; [done..|]. destruct o as [x|]; [left|by right].
  exists x. split; [done|]. rewrite (bind_ok _ _ _ _ _ (touch_write_eq _ x f s1 Ho)) in E.
  set (s2 := if negb (isDirty x) && isEmpty x then _ else s1) in E.
  assert (edited (ch_address c) (f x) s1 (put (ch_address c) (f x) s2)) as He2.
  { unfold s2. destruct (negb (isDirty x) && isEmpty x); [|apply edited_put].
    rewrite put_logc, put_put. apply edited_put. }
  unfold log_amount, when in E. destruct (negb (v =? 0)); by injection E as <- <-.
Qed.
Lemma edited_created a x s : edited a x s (created a x s).
Proof.
  split; [|by apply view_cached, lookup_insert_eq]. intros b Hne. unfold view, created, trie_view, load.
  state_fields. by rewrite lookup_insert_ne.
Qed.
Lemma create_inv (mk : u256 → Account) c v s u t :
  ((n ← requireAccountStartNonce; createAccount (ch_address c) (mk n)) ;; log_amount c v) s = (Ok u, t) →
  ∃ n, edited (ch_address c) (mk n) s t.
Proof.
  intros (u1&s1&(n&s2&E2&E1)%bind_inv&E)%bind_inv. exists n. assert (s2 = s) as ->.
  { unfold requireAccountStartNonce in E2. apply bind_inv in E2 as (s3&s4&[= <- <-]&E2).
    destruct (_ =? _); [done|by injection E2]. }
  injection E1 as <- <-. pose proof (edited_created (ch_address c) (mk n) s) as He.
  unfold log_amount, when in E. destruct (negb (v =? 0)); by injection E as <- <-.
Qed.

(** [db], [dc] are what [f] adds. *)
Lemma moves_add P f c v missing db dc :
  stable P → (∀ x, w256 (held_BRC (f x)) = held_BRC x [+] db) → (∀ x, w256 (held_cookies (f x)) = held_cookies x [+] dc) →
  (∀ x, m_nonce (f x) = m_nonce x) →
  moves (λ s, P s ∧ absent (ch_address c) s) (missing ;; log_amount c v) db dc →
  moves P
    ((o ← account (ch_address c);
      match o with
      | Some x => log_touch (ch_address c) x ;; write (ch_address c) f
      | None => missing
      end) ;; log_amount c v) db dc.
Proof.
  intros HP Hb Hc Hn Hm s u t Hs Hp E. apply add_inv in E as (s1&Es&Hw&[(x&Hx&He)|[Ha E]]); [..|done].
  - destruct (edited_equiv_moves s s1 _ _ _ Es He) as [-> ->]. unfold at_account. rewrite (view_cached _ _ _ Hx).
    split_and!; try (rewrite <-(w256_add_r _ (_ - _)), <-w256_sub_l).
    + rewrite Hb. u256_norm. f_equal. lia.
    + rewrite Hc. u256_norm. f_equal. lia.
    + eapply edited_nonces; [done..|]. intros z. rewrite (view_cached _ _ _ Hx). by intros [= <-].
  - destruct (Hm s1 u t Hw) as (->&->&N); [split; [by eapply HP|done]|done|].
    unfold BRC_supply, cookie_supply.
    rewrite (supply_equiv _ held_BRC_visible s s1 Es), (supply_equiv _ held_cookies_visible s s1 Es).
    split_and!; [done..|]. eapply nonces_trans; [by apply nonces_equiv|done].
Qed.

Lemma moves_create (mk : u256 → Account) c v P db dc :
  (∀ n, w256 (held_BRC (mk n)) = w256 db) → (∀ n, w256 (held_cookies (mk n)) = w256 dc) →
  moves (λ s, P s ∧ absent (ch_address c) s)
    ((n ← requireAccountStartNonce; createAccount (ch_address c) (mk n)) ;; log_amount c v) db dc.
Proof.
  intros Hb Hc s u t Hs [_ [Hx Hv]] [n He]%create_inv.
  destruct (edited_equiv_moves s s _ _ _ (reflexivity s) He) as [-> ->].
  unfold at_account, view. rewrite Hx, Hv, !Z.sub_0_r.
  rewrite <-(w256_add_r _ (held_BRC _)), <-(w256_add_r _ (held_cookies _)), Hb, Hc, !w256_add_r.
  split_and!; [done..|]. eapply edited_nonces; [done..|]. intros x. unfold view. by rewrite Hx, Hv.
Qed.
(** A missing account and nothing to add: nothing happens. *)
Lemma moves_nothing c v P b d :
  (v = 0 → w256 b = 0 ∧ w256 d = 0) →
  moves (λ s, (v = 0 ∨ known (ch_address c) s) ∧ absent (ch_address c) s ∧ P s) (mret tt ;; log_amount c v) b d.
Proof.
  intros Hz s u t Hs [[Hv|Hk] [Ha _]] E; [|by destruct (absent_not_known _ _ Ha)].
  rewrite Hv in E. injection E as <- <-. destruct (Hz Hv) as [Hb Hd].
  rewrite <-(w256_add_r _ b), <-(w256_add_r _ d), Hb, Hd, !Z.add_0_r, !w256_small by apply supply_in256.
  auto using nonces_equiv.
Qed.

Ltac held := intros []; autounfold with acc_ops; unfold held_BRC, held_cookies; acct_fields; u256_norm; f_equal; lia.
Ltac held_new := intros n; unfold held_BRC, held_cookies, Account_nb, Account_nbb; acct_fields; f_equal; cbn; lia.

Lemma addBalance_moves a v : moves (λ _, True) (addBalance a v) 0 v.
Proof.
  apply (moves_add _ (acc_addBalance v) (ChBalance a v)); [done|held|held|by intros []|].
  apply (moves_create (λ n, Account_nb n v) (ChBalance a v)); held_new.
Qed.
Lemma addBRC_moves a v : moves (λ _, True) (addBRC a v) v 0.
Proof.
  apply (moves_add _ (acc_addBRC v) (ChBRC a v)); [done|held|held|by intros []|].
  apply (moves_create (λ n, Account_nbb n 0 v 0) (ChBRC a v)); held_new.
Qed.
Lemma addBallot_moves a v : moves (λ _, True) (addBallot a v) 0 0.
Proof. apply (moves_add _ (acc_addBallot v) (ChBallot a v)); [done|held|held|by intros []|]. by intros s x t _ _ [=]. Qed.
Lemma addFBRC_moves a v : moves (λ s, v = 0 ∨ known a s) (addFBRC a v) v 0.
Proof.
  apply (moves_add _ (acc_addFBRC v) (ChFBRC a v)); [apply stable_or, stable_known|held|held|by intros []|].
  eapply moves_conseq; [apply (moves_nothing (ChFBRC a v) v (λ _, True) v 0)|..]; [by intros ->|tauto|done|done].
Qed.
Lemma addFBalance_moves a v : moves (λ s, v = 0 ∨ known a s) (addFBalance a v) 0 v.
Proof.
  apply (moves_add _ (acc_addFBalance v) (ChFBalance a v)); [apply stable_or, stable_known|held|held|by intros []|].
  eapply moves_conseq; [apply (moves_nothing (ChFBalance a v) v (λ _, True) 0 v)|..]; [by intros ->|tauto|done|done].
Qed.

Lemma moves_account P a : moves P (account a) 0 0.
Proof. apply moves_same. intros s x t Hs _ E. pose proof (account_equiv a s Hs) as H. by rewrite E in H. Qed.
Lemma moves_sub a v (f : Account → u256) e (add none : M unit) b c :
  (∀ s x t, none s ≠ (Ok x, t)) → moves (known a) add (- b) (- c) → (v = 0 → b = 0 ∧ c = 0) →
  moves (λ _, True)
    (if v =? 0 then mret tt
     else o ← account a;
          match o with Some x => if f x <? v then throw e else add | None => none end) (- b) (- c).
Proof.
  intros Hn Ha Hz. destruct (Z.eqb_spec v 0) as [Hv|Hv].
  - destruct (Hz Hv) as [-> ->]. apply moves_same. by intros s x t _ _ [= <- <-].
  - eapply moves_conseq with (P' := λ _, True); [|done|..].
    + eapply moves_bind; [apply undoable_account|apply moves_account|]. intros [x|].
      * destruct (f x <? v); [apply moves_throw|].
        eapply moves_conseq; [exact Ha|intros s; apply cached_known|reflexivity|reflexivity].
      * intros s x t _ _ E. by destruct (Hn s x t).
    + done.
    + done.
Qed.

(** The amount is itself the result of 256-bit arithmetic. *)
Lemma addBRC_moves_w a e : moves (λ _, True) (addBRC a (w256 e)) e 0.
Proof. eapply moves_conseq; [apply addBRC_moves|done|by u256_norm|done]. Qed.
Lemma addBalance_moves_w a e : moves (λ _, True) (addBalance a (w256 e)) 0 e.
Proof. eapply moves_conseq; [apply addBalance_moves|done|done|by u256_norm]. Qed.

Lemma neg_w256 v : w256 (- v) = w256 (0 [-] v).
Proof. u256_norm. f_equal. Qed.
(** The call that adds the negation. *)
Ltac by_negation H :=
  eapply moves_conseq; [apply H|intros ??; first [done|by right]|u256_norm; f_equal; lia|u256_norm; f_equal; lia].

Lemma subBalance_moves a v : moves (λ _, True) (subBalance a v) 0 (- v).
Proof. apply (moves_sub a v m_balance NotEnoughCash _ _ 0 v); [done|by_negation addBalance_moves|done]. Qed.
Lemma subBRC_moves a v : moves (λ _, True) (subBRC a v) (- v) 0.
Proof. apply (moves_sub a v m_BRC NotEnoughCash _ _ v 0); [done|by_negation addBRC_moves|done]. Qed.
Lemma subBallot_moves a v : moves (λ _, True) (subBallot a v) 0 0.
Proof. apply (moves_sub a v m_ballot NotEnoughBallot _ _ 0 0); [done|by_negation addBallot_moves|done]. Qed.
Lemma subFBRC_moves a v : moves (λ _, True) (subFBRC a v) (- v) 0.
Proof. apply (moves_sub a v m_FBRC NotEnoughCash _ _ v 0); [done|by_negation addFBRC_moves|done]. Qed.
Lemma subFBalance_moves a v : moves (λ _, True) (subFBalance a v) 0 (- v).
Proof. apply (moves_sub a v m_FBalance NotEnoughCash _ _ 0 v); [done|by_negation addFBalance_moves|done]. Qed.

Lemma subBRC_moves_w a e : moves (λ _, True) (subBRC a (w256 e)) (- e) 0.
Proof.
  eapply moves_conseq; [apply subBRC_moves|done| |done]. 
  replace (- w256 e) with (0 - w256 e) by lia. rewrite w256_sub_r. done.
Qed.

Lemma freeze_BRC_moves a v : moves (λ _, True) (subBRC a v ;; addFBRC a v) 0 0.
Proof.
  eapply moves_conseq with (P' := λ _, True);
    [eapply moves_bind; [apply subBRC_undoable|apply subBRC_moves|intros u; apply addFBRC_moves]|done|f_equal; lia|f_equal; lia].
Qed.
Lemma freeze_balance_moves a v : moves (λ _, True) (subBalance a v ;; addFBalance a v) 0 0.
Proof.
  eapply moves_conseq with (P' := λ _, True);
    [eapply moves_bind; [apply subBalance_undoable|apply subBalance_moves|intros u; apply addFBalance_moves]
    |done|f_equal; lia|f_equal; lia].
Qed.

(** *** The order book and the gas prices hold no amounts *)
Lemma moves_edit a x (g : Account → Account) c :
  held_BRC (g x) = held_BRC x → held_cookies (g x) = held_cookies x → m_nonce (g x) = m_nonce x →
  moves (cached a x) (write a g ;; log c) 0 0.
Proof.
  intros Hb Hc Hn s u t Hs Hx E. rewrite (bind_ok _ _ _ _ _ (write_eq a g x s Hx)) in E. injection E as <- <-.
  destruct (edited_equiv_moves s s a (g x) (logc c (put a (g x) s)) (reflexivity s)) as [H1 H2];
    [apply edited_logc, edited_put|].
  change (_ <| m_changeLog ::= cons c |>) with (logc c (put a (g x) s)). rewrite H1, H2.
  unfold at_account. rewrite (view_cached _ _ _ Hx), Hb, Hc. split_and!; [f_equal; lia|f_equal; lia|].
  eapply (edited_nonces s s); [done|apply edited_logc, edited_put|]. intros z.
  rewrite (view_cached _ _ _ Hx). by intros [= <-].
Qed.
Lemma moves_ret {A} P (x : A) : moves P (mret x) 0 0.
Proof. apply moves_same. by intros s y t _ _ [= <- <-]. Qed.

Lemma getExOrder_moves : moves (λ _, True) getExOrder 0 0.
Proof.
  apply (moves_bind _ _ _ _ 0 0 0 0 (undoable_account _ _) (moves_account _ _)). intros [x|]; [apply moves_ret|].
  apply (moves_bind _ _ (λ _ _, True) _ 0 0 0 0).
  - by apply undo_ok_createExdb.
  - intros s u t Hs [Hx Hv] [= <- <-].
    set (t := _ <| m_changeLog ::= _ |>).
    destruct (edited_equiv_moves s s ExdbSystemAddress (Account_ballot 0) t (reflexivity s)) as [-> ->].
    { apply edited_created. }
    unfold at_account, view. rewrite Hx, Hv. split_and!; [done..|].
    eapply (edited_nonces s s); [done|apply edited_created|]. intros x. unfold view. by rewrite Hx, Hv.
  - intros u. apply (moves_bind _ _ (λ _ _, True) _ 0 0 0 0).
    + eapply undo_ok_deref.
    + apply (moves_bind _ _ _ _ 0 0 0 0 (undoable_account _ _) (moves_account _ _)).
      intros [x|]; [apply moves_ret|apply moves_undef].
    + intros x. apply moves_ret.
Qed.
Lemma addExchangeOrder_moves a o : moves (λ _, True) (addExchangeOrder a o) 0 0.
Proof.
  apply (moves_bind _ _ _ _ 0 0 0 0 (undoable_account _ _) (moves_account _ _)). intros [x|]; [|apply moves_throw].
  by apply moves_edit; destruct x.
Qed.
Lemma removeExchangeOrder_moves a h : moves (λ _, True) (removeExchangeOrder a h) 0 0.
Proof.
  apply (moves_bind _ _ _ _ 0 0 0 0 (undoable_account _ _) (moves_account _ _)). intros [x|]; [|apply moves_throw].
  unfold removeExOrderMulti. destruct (multi_find h (m_exChangeOrder x)) as [o|].
  - by apply moves_edit; destruct x.
  - intros s u t Hs Hx. rewrite (bind_ok _ _ _ _ _ (write_eq a _ x s Hx)). by intros [=].
Qed.

(** ** Neutral computations *)
Lemma neutral_intro {A} (m : M A) : undo_ok m → moves (λ _, True) m 0 0 → neutral m.
Proof. by split. Qed.
Lemma neutral_bind {A B} (m : M A) (k : A → M B) : neutral m → (∀ x, neutral (k x)) → neutral (m ≫= k).
Proof.
  intros [Hu Hm] Hk. split; [apply undo_ok_bind; [done|apply Hk]|].
  apply (moves_bind _ _ (λ _ _, True) _ 0 0 0 0); [done|done|]. intros x. apply Hk.
Qed.
(** The continuation only has to be neutral for results that can occur. *)
Lemma neutral_bind_result {A B} (m : M A) (φ : A → Prop) (k : A → M B) :
  neutral m → (∀ s x t, m s = (Ok x, t) → φ x) → (∀ x, φ x → neutral (k x)) → neutral (m ≫= k).
Proof.
  intros [Hu Hm] Hφ Hk. pose proof (undoable_result m φ Hu Hφ) as Hr. split.
  - eapply undoable_bind; [exact Hr|]. intros x s Hs Hx. by apply (Hk x Hx).
  - apply (moves_bind _ _ (λ x _, φ x) _ 0 0 0 0 Hr Hm). intros x s y t Hs Hx. by apply (Hk x Hx).
Qed.
(** Reads: the state afterwards is equivalent. *)
Lemma neutral_pure {A} (m : M A) : (∀ s, (m s).2 = s) → neutral m.
Proof.
  intros H. split; [by apply undoable_pure|]. apply moves_same. intros s x t _ _ E.
  pose proof (H s) as Hs. rewrite E in Hs. cbn in Hs. by subst.
Qed.
Lemma neutral_ret {A} (x : A) : neutral (mret x).
Proof. by apply neutral_pure. Qed.
Lemma neutral_throw {A} e : neutral (throw (A:=A) e).
Proof. by apply neutral_pure. Qed.
Lemma neutral_undef {A} : neutral (undef (A:=A)).
Proof. by apply neutral_pure. Qed.
Lemma neutral_exit {A} : neutral (exit1 (A:=A)).
Proof. by apply neutral_pure. Qed.
Lemma neutral_fuel {A} : neutral (out_of_fuel (A:=A)).
Proof. by apply neutral_pure. Qed.
Lemma neutral_div a b : neutral (u256_div a b).
Proof. unfold u256_div. case_bool_decide; by apply neutral_pure. Qed.
Lemma neutral_require b e : neutral (require b e).
Proof. destruct b; by apply neutral_pure. Qed.
Lemma neutral_cast_or {A} e (o : option A) : neutral (cast_or e o).
Proof. destruct o; by apply neutral_pure. Qed.
Lemma neutral_cast_unchecked {A} (o : option A) : neutral (cast_unchecked o).
Proof. destruct o; by apply neutral_pure. Qed.
Lemma neutral_lift {A} (m : outcome A) : neutral (lift m).
Proof. by apply neutral_pure. Qed.
Lemma neutral_account a : neutral (account a).
Proof. split; [apply undo_ok_account|apply moves_account]. Qed.
Lemma neutral_read {A} (d : A) f a : neutral (read d f a).
Proof. apply neutral_bind; [apply neutral_account|]. intros. apply neutral_ret. Qed.
Lemma neutral_deref a : neutral (deref a).
Proof. apply neutral_bind; [apply neutral_account|]. intros [x|]; [apply neutral_ret|apply neutral_undef]. Qed.
Lemma neutral_when b m : neutral m → neutral (when b m).
Proof. destruct b; [done|]. intros. apply neutral_ret. Qed.
Lemma neutral_forM {A} (l : list A) f : (∀ x, neutral (f x)) → neutral (forM l f).
Proof. intros Hf. induction l as [|x l IH]; [apply neutral_ret|]. apply neutral_bind; auto. Qed.
Lemma neutral_foldM {A B} (f : B → A → M B) b l : (∀ b x, neutral (f b x)) → neutral (foldM f b l).
Proof.
  intros Hf. revert b. induction l as [|x l IH]; intros b; [apply neutral_ret|]. apply neutral_bind; auto.
Qed.
(** A handler that only throws never returns from a half-done computation. *)
Lemma neutral_try {A} (m : M A) hd (g : exn → exn) : neutral m → neutral (try_catch m hd (λ e, throw (g e))).
Proof.
  intros [Hu Hm]. split; [apply undo_ok_try; [done|intros; apply undo_ok_throw]|].
  intros s x t Hs _ E. unfold try_catch in E. destruct (m s) as [[y|e| | |] s1] eqn:Em; try done.
  - injection E as <- <-. by apply (Hm s y s1).
  - by destruct (hd e).
Qed.

Lemma neutral_freeze_BRC a v : neutral (subBRC a v ;; addFBRC a v).
Proof. split; [apply undo_ok_freeze_BRC|apply freeze_BRC_moves]. Qed.
Lemma neutral_freeze_balance a v : neutral (subBalance a v ;; addFBalance a v).
Proof. split; [apply undo_ok_freeze_balance|apply freeze_balance_moves]. Qed.
Lemma neutral_addBallot a v : neutral (addBallot a v).
Proof. split; [apply undo_ok_addBallot|apply addBallot_moves]. Qed.
Lemma neutral_subBallot a v : neutral (subBallot a v).
Proof. split; [apply undo_ok_subBallot|apply subBallot_moves]. Qed.
Lemma neutral_getExOrder : neutral getExOrder.
Proof. split; [apply undo_ok_getExOrder|apply getExOrder_moves]. Qed.
Lemma neutral_addExchangeOrder a o : neutral (addExchangeOrder a o).
Proof. split; [apply undo_ok_addExchangeOrder|apply addExchangeOrder_moves]. Qed.
Lemma neutral_removeExchangeOrder a h : neutral (removeExchangeOrder a h).
Proof. split; [apply undo_ok_removeExchangeOrder|apply removeExchangeOrder_moves]. Qed.
Lemma neutral_modifyGasPrice ops : neutral (modifyGasPrice ops).
Proof.
  apply neutral_forM. intros op. split; [apply undo_ok_modify_op|].
  apply (moves_bind _ _ (cached GaspriceAddress) _ 0 0 0 0); [apply undoable_deref|apply neutral_deref|]. intros x.
  destruct (as_modifyGasPrice op) as [o|]; [|apply moves_undef].
  apply (moves_bind _ _ (λ _, cached GaspriceAddress x) _ 0 0 0 0); [by apply undoable_ret|apply moves_ret|].
  intros o'. by apply moves_edit; destruct x.
Qed.
End Supply.

Create HintDb neutral discriminated.
#[export] Hint Constants Opaque : neutral.
#[export] Hint Variables Opaque : neutral.
#[export] Hint Resolve neutral_ret neutral_throw neutral_undef neutral_exit neutral_fuel neutral_div neutral_require
  neutral_cast_or neutral_cast_unchecked neutral_lift neutral_account neutral_read neutral_deref neutral_freeze_BRC
  neutral_freeze_balance neutral_addBallot neutral_subBallot neutral_getExOrder neutral_addExchangeOrder
  neutral_removeExchangeOrder neutral_modifyGasPrice : neutral.

(** Decomposes a program along its control flow, as [undo_tac] does. *)
Ltac neutral_step :=
  lazymatch goal with
  | |- ∀ _, _ => intros ?
  | |- neutral (let _ := _ in _) => cbv zeta
  | |- neutral (if ?b then _ else _) => destruct b
  | |- neutral (match ?x with _ => _ end) => destruct x
  | |- neutral (when _ _) => apply neutral_when
  | |- neutral (forM _ _) => apply neutral_forM
  | |- neutral (foldM _ _ _) => apply neutral_foldM
  | |- neutral (try_catch _ _ (λ _, throw ?e)) => apply (neutral_try _ _ (λ _, e))
  | |- neutral (subBRC ?a ?v ≫= λ _, addFBRC ?a ?v) => apply neutral_freeze_BRC
  | |- neutral (subBalance ?a ?v ≫= λ _, addFBalance ?a ?v) => apply neutral_freeze_balance
  | |- neutral (_ ≫= _) => apply neutral_bind
  | |- neutral _ => solve [ auto with neutral ]
  end.
Ltac neutral_tac := repeat neutral_step.

(** A sequence of additions and subtractions that comes to nothing. *)
Ltac moves_prim :=
  lazymatch goal with
  | |- moves _ (addBRC _ (w256 _)) _ _ => apply addBRC_moves_w
  | |- moves _ (addBRC _ _) _ _ => apply addBRC_moves
  | |- moves _ (addBalance _ (w256 _)) _ _ => apply addBalance_moves_w
  | |- moves _ (addBalance _ _) _ _ => apply addBalance_moves
  | |- moves _ (subBRC _ (w256 _)) _ _ => apply subBRC_moves_w
  | |- moves _ (subBRC _ _) _ _ => apply subBRC_moves
  | |- moves _ (subBalance _ _) _ _ => apply subBalance_moves
  | |- moves _ (subFBRC _ _) _ _ => apply subFBRC_moves
  | |- moves _ (subFBalance _ _) _ _ => apply subFBalance_moves
  | |- moves _ (addBallot _ _) _ _ => apply addBallot_moves
  | |- moves _ (subBallot _ _) _ _ => apply subBallot_moves
  end.
Ltac moves_seq :=
  apply neutral_intro; [undo_tac|];
  eapply moves_conseq with (P' := λ _, True);
  [ repeat (lazymatch goal with |- moves _ (_ ≫= _) _ _ => eapply moves_then; [solve [auto with undo]|moves_prim|intros ?] end); moves_prim
  | done
  | f_equal; ring
  | f_equal; ring ].

Section Conservation.
Context `{CR : Crypto, CF : Config, ST_ : !StorageTrie, RN : Rng, CO : !AccountCodec}.

Lemma neutral_transferBalance a b v : neutral (transferBalance a b v).
Proof. unfold transferBalance. moves_seq. Qed.
Lemma neutral_transferBRC a b v : neutral (transferBRC a b v).
Proof. unfold transferBRC. moves_seq. Qed.
Lemma neutral_transferBallotBuy a v : neutral (transferBallotBuy a v).
Proof. unfold transferBallotBuy. moves_seq. Qed.
Lemma neutral_transferBallotSell a v : neutral (transferBallotSell a v).
Proof. unfold transferBallotSell. moves_seq. Qed.
Lemma neutral_pendingOrderTransfer f t n p ty tk b : neutral (pendingOrderTransfer f t n p ty tk b).
Proof.
  unfold pendingOrderTransfer. cbv zeta. generalize ((n [*] p) / PRICEPRECISION). intros cost.
  generalize (if bool_decide (f ≠ systemAddress) then n / MATCHINGFEERATIO else 0),
    (if bool_decide (t ≠ systemAddress) then cost / MATCHINGFEERATIO else 0),
    (if bool_decide (f ≠ systemAddress) then cost / MATCHINGFEERATIO else 0),
    (if bool_decide (t ≠ systemAddress) then n / MATCHINGFEERATIO else 0). intros fee1 fee2 fee3 fee4.
  destruct (bool_decide (ty = buy) && _ && _); [moves_seq|].
  destruct (bool_decide (ty = sell) && _ && _); [moves_seq|auto with neutral].
Qed.
Lemma neutral_release o : neutral (release o).
Proof.
  unfold release. cbv zeta. destruct (bool_decide (o_type o = buy) && _); [moves_seq|].
  destruct (bool_decide (o_type o = sell) && _); [moves_seq|auto with neutral].
Qed.
#[local] Hint Resolve neutral_transferBalance neutral_transferBRC neutral_transferBallotBuy
  neutral_transferBallotSell neutral_pendingOrderTransfer neutral_release : neutral.

(** *** Matching *)
Lemma neutral_only_price_loop od p spend l r h : neutral (only_price_loop od p spend l r h).
Proof.
  revert spend r h. induction l as [|x l IH]; intros spend r h; simpl; [auto with neutral|].
  unfold add_exchangeOrder. neutral_tac; auto.
Qed.
Lemma neutral_all_price_buy_loop itr b t l r : neutral (all_price_buy_loop itr b t l r).
Proof.
  revert t r. induction l as [|x l IH]; intros t r; simpl; [auto with neutral|].
  unfold add_exchangeOrder, remove_exchangeOrder. neutral_tac; auto.
Qed.
Lemma neutral_all_price_sell_loop itr b t l r : neutral (all_price_sell_loop itr b t l r).
Proof.
  revert t r. induction l as [|x l IH]; intros t r; simpl; [auto with neutral|].
  unfold add_exchangeOrder, remove_exchangeOrder. neutral_tac; auto.
Qed.
#[local] Hint Resolve neutral_only_price_loop neutral_all_price_buy_loop neutral_all_price_sell_loop : neutral.
Lemma neutral_insert_operation o b : neutral (insert_operation o b).
Proof.
  unfold insert_operation, get_buy_itr, get_sell_itr, process_only_price, add_exchangeOrder, remove_exchangeOrder.
  neutral_tac.
Qed.
#[local] Hint Resolve neutral_insert_operation : neutral.

(** *** Trading *)
Lemma neutral_system_orders now tys acc : neutral (system_orders now tys acc).
Proof.
  revert acc. induction tys as [|ty tys IH]; intros [[v b] c]; simpl; [auto with neutral|].
  unfold system_order, BRC, balance. neutral_tac; auto.
Qed.
#[local] Hint Resolve neutral_system_orders : neutral.
Lemma neutral_system_place acc o : neutral (system_place acc o).
Proof. unfold system_place, insert_or_fail, system_result, transfer_result. neutral_tac. Qed.
Lemma neutral_pend_place acc o : neutral (pend_place acc o).
Proof. unfold pend_place, insert_or_fail, pend_result, transfer_result. neutral_tac. Qed.
#[local] Hint Resolve neutral_system_place neutral_pend_place : neutral.
Lemma neutral_systemAuto fuel set now : neutral (systemAutoPendingOrder fuel set now).
Proof.
  revert set. induction fuel as [|fuel IH]; intros set; simpl; [auto with neutral|]. neutral_tac; auto.
Qed.
#[local] Hint Resolve neutral_systemAuto : neutral.
Lemma neutral_pendingOrders fuel a now h ops n : neutral (pendingOrders fuel a now h ops n).
Proof. unfold pendingOrders, pend_prepare. neutral_tac. Qed.
#[local] Hint Resolve neutral_pendingOrders : neutral.
Lemma neutral_cancelPendingOrders ops : neutral (cancelPendingOrders ops).
Proof. unfold cancelPendingOrders, cancel_order_by_trxid, remove_exchangeOrder. neutral_tac. Qed.
Lemma neutral_transferAutoEx fuel ops t now g n : neutral (transferAutoEx fuel ops t now g n).
Proof. unfold transferAutoEx. neutral_tac. Qed.
Lemma neutral_execute_transfer_BRCs a ops : neutral (execute_transfer_BRCs a ops).
Proof. unfold execute_transfer_BRCs. neutral_tac. Qed.
#[local] Hint Resolve neutral_cancelPendingOrders neutral_transferAutoEx neutral_execute_transfer_BRCs : neutral.

(** *** Checks and batches *)
Lemma neutral_read_batch e data : neutral (read_batch e data).
Proof. unfold read_batch, read_op, verifyTranscation, balance, BRC. neutral_tac. Qed.
Lemma neutral_verify_batch e ty ops : logged_type ty = true → neutral (verify_batch e ty ops).
Proof.
  unfold logged_type, verify_batch. intros Hl. destruct (ty =? op_vote); [done|].
  destruct (ty =? op_receivingincome); [by rewrite orb_true_r in Hl|]. destruct (ty =? op_changeMiner); [done|].
  unfold verifyPendingOrders, verify_order, get_order_by_type, verifyCancelPendingOrders, exits_trxid,
    verifyTransferAutoEx, verifyModifyMinerGasPrice, balance, BRC. cbv zeta. neutral_tac.
Qed.
Lemma neutral_execute_batch fuel e ty ops : logged_type ty = true → neutral (execute_batch fuel e ty ops).
Proof.
  unfold logged_type, execute_batch. intros Hl. destruct (ty =? op_vote); [done|].
  destruct (ty =? op_receivingincome); [by rewrite orb_true_r in Hl|]. destruct (ty =? op_changeMiner); [done|].
  cbv zeta. neutral_tac.
Qed.
End Conservation.
