(* ===== verification/StateProofs.v ===== *)
(** * Reading and moving amounts

    What [State::account] returns and leaves unchanged, and the transfers on every
    branch: exact amounts when they return, an exception and an unchanged view when
    they do not. *)
From stdpp Require Import base gmap list.
From Stdlib Require Import ZArith Lia.
From S2P Require Import Prelude Rlp Config Objects Interfaces Account ChainState StateOps Exdb Operations Exchange.
From S2P Require Import Vote Income Miner Verify Rollback Undoable Atomic Supply.
Open Scope Z_scope.

Section Reading.
Context `{CR : Crypto, CF : Config, ST_ : !StorageTrie, RN : Rng, CO : !AccountCodec}.

(** The encoding of [a] in the trie, if any, can be read. *)
Definition readable (s : State) (a : Address) : Prop :=
  m_cache s !! a = None → ∀ b, m_state s !! a = Some b → is_Some (load s b).

Lemma account_view a s o t : WF s → account a s = (Ok o, t) → o = view s a.
Proof.
  intros Hc. unfold account, view, trie_view. destruct (m_cache s !! a) as [x|]; [by intros [= <- <-]|].
  case_bool_decide as Hn.
  - intros [= <- <-]. by rewrite (coh_none s Hc a Hn).
  - destruct (m_state s !! a) as [b|]; [|by intros [= <- <-]].
    cbn. destruct (load s b); [|done]. by intros [= <- <-].
Qed.
Lemma account_total a s : WF s → readable s a → ∃ t, account a s = (Ok (view s a), t).
Proof.
  intros Hc Hr. destruct (account a s) as [[o|e| | |] t] eqn:E;
    [exists t; by rewrite (account_view a s o t)|exfalso..]; unfold account in E;
    destruct (m_cache s !! a) eqn:Em; try done; case_bool_decide; try done;
    destruct (m_state s !! a) as [b|] eqn:Es; try done;
    destruct (Hr Em b Es) as [y Hy]; by rewrite Hy in E.
Qed.
Lemma account_keeps a s o t : WF s → account a s = (Ok o, t) → s ≡ t ∧ WF t.
Proof.
  intros Hs E. pose proof (account_equiv a s Hs) as Es. destruct (account_spec a s Hs) as [Hw%Undo_WF _].
  by rewrite E in *.
Qed.
Lemma view_readable s a x : view s a = Some x → readable s a.
Proof.
  unfold view, trie_view, readable. intros Hv Hc b Hb. rewrite Hc, Hb in Hv. cbn in Hv. by rewrite Hv.
Qed.
Lemma account_some a s x :
  WF s → view s a = Some x →
  ∃ t, account a s = (Ok (Some x), t) ∧ s ≡ t ∧ WF t ∧ m_cache t !! a = Some x.
Proof.
  intros Hs Hv. destruct (account_total a s) as [t Ht]; [done|by eapply view_readable|].
  rewrite Hv in Ht. exists t. split; [done|]. pose proof (account_equiv a s Hs) as E.
  destruct (account_spec a s Hs) as [Hw%Undo_WF Hc]. rewrite Ht in *. done.
Qed.

(** A getter returns the field of the visible account. *)
Lemma read_view {A} (d : A) f a s v t :
  WF s → read d f a s = (Ok v, t) → v = match view s a with Some x => f x | None => d end.
Proof.
  intros Hs (o&s1&E&H)%bind_inv. injection H as <- <-. by rewrite (account_view a s o s1 Hs E).
Qed.

(** An existing account is edited by the operations that add an amount. *)
Lemma add_edited c v f missing s x :
  WF s → view s (ch_address c) = Some x →
  ∃ s1 t,
    ((o ← account (ch_address c);
      match o with
      | Some x => log_touch (ch_address c) x ;; write (ch_address c) f
      | None => missing
      end) ;; log_amount c v) s = (Ok tt, t)
    ∧ s ≡ s1 ∧ edited (ch_address c) (f x) s1 t.
Proof.
  intros Hs Hv. destruct (account_some _ s x Hs Hv) as (s1&E1&Es&Hw&Hx). exists s1.
  rewrite bind_assoc, (bind_ok _ _ _ _ _ E1), (bind_ok _ _ _ _ _ (touch_write_eq _ x f s1 Hx)).
  set (s2 := if negb (isDirty x) && isEmpty x then _ else s1).
  assert (edited (ch_address c) (f x) s1 (put (ch_address c) (f x) s2)) as He.
  { unfold s2. destruct (negb (isDirty x) && isEmpty x); [|apply edited_put].
    rewrite put_logc, put_put. apply edited_put. }
  unfold log_amount, when. destruct (negb (v =? 0)); eexists; (split; [reflexivity|done]).
Qed.
Lemma addBRC_edited a v s x :
  WF s → view s a = Some x → ∃ s1 t, addBRC a v s = (Ok tt, t) ∧ s ≡ s1 ∧ edited a (acc_addBRC v x) s1 t.
Proof. apply (add_edited (ChBRC a v)). Qed.
Lemma addBalance_edited a v s x :
  WF s → view s a = Some x → ∃ s1 t, addBalance a v s = (Ok tt, t) ∧ s ≡ s1 ∧ edited a (acc_addBalance v x) s1 t.
Proof. apply (add_edited (ChBalance a v)). Qed.

(** ** Transfers *)
Definition BRC_at (s : State) (a : Address) : u256 := match view s a with Some x => w256 (m_BRC x) | None => 0 end.
#[export] Instance BRC_at_proper : Proper ((≡) ==> (=) ==> (=)) BRC_at.
Proof.
  intros s t [_ E] a ? <-. unfold BRC_at. specialize (E a). destruct (view s a), (view t a); inversion E as [x y [Hn _]|]; [|done].
  subst. by apply (f_equal m_BRC) in Hn.
Qed.

Lemma BRC_addBRC v x : m_BRC (acc_addBRC v x) = m_BRC x [+] v.
Proof. by destruct x. Qed.

(** Taking [v] from an account that has it. *)
Lemma subBRC_ok a v s x :
  WF s → view s a = Some x → in256 (m_BRC x) → 0 <= v <= m_BRC x →
  ∃ t, subBRC a v s = (Ok tt, t) ∧ BRC_at t a = m_BRC x - v ∧ (∀ c, c ≠ a → view t c ≡ view s c) ∧ is_Some (view t a).
Proof.
  intros Hs Hx Hr Hv. unfold subBRC. destruct (Z.eqb_spec v 0) as [->|Hz].
  - exists s. split; [done|]. unfold BRC_at. rewrite Hx, w256_small by done. split; [lia|]. split; [done|by eexists].
  - destruct (account_some a s x Hs Hx) as (s1&E1&Es&Hw&Hc). rewrite (bind_ok _ _ _ _ _ E1).
    destruct (Z.ltb_spec (m_BRC x) v); [lia|].
    destruct (addBRC_edited a (0 [-] v) s1 x Hw (view_cached _ _ _ Hc)) as (s2&t&E2&Es2&[Hne Hy]).
    exists t. split; [done|]. split; [|split].
    + unfold BRC_at. rewrite Hy, BRC_addBRC, w256_sub_exact by (done || lia). apply w256_small. unfold in256 in *. lia.
    + intros c Hca. rewrite (Hne c Hca). destruct Es as [_ Es], Es2 as [_ Es2]. by rewrite <-Es2, <-Es.
    + rewrite Hy. by eexists.
Qed.
Lemma subBRC_short a v s x :
  WF s → view s a = Some x → m_BRC x < v → v ≠ 0 → ∃ t, subBRC a v s = (Throw NotEnoughCash, t) ∧ s ≡ t.
Proof.
  intros Hs Hx Hv Hz. unfold subBRC. destruct (Z.eqb_spec v 0); [done|].
  destruct (account_some a s x Hs Hx) as (s1&E1&Es&_). rewrite (bind_ok _ _ _ _ _ E1).
  destruct (Z.ltb_spec (m_BRC x) v); [|lia]. by exists s1.
Qed.

Lemma undo_ok_WF {A} (m : M A) s x t : undo_ok m → WF s → m s = (x, t) → WF t.
Proof. intros Hm Hs E. destruct (Hm s Hs I) as [Hw%Undo_WF _]. by rewrite E in Hw. Qed.

Lemma transferBRC_ok a b v s x y :
  WF s → a ≠ b → view s a = Some x → view s b = Some y → in256 (m_BRC x) → 0 <= v <= m_BRC x →
  0 <= m_BRC y → m_BRC y + v < M256 →
  ∃ t, transferBRC a b v s = (Ok tt, t) ∧ BRC_at t a = m_BRC x - v ∧ BRC_at t b = m_BRC y + v ∧
    ∀ c, c ≠ a → c ≠ b → view t c ≡ view s c.
Proof.
  intros Hs Hab Hx Hy Hr Hv Hy0 Hy1. destruct (subBRC_ok a v s x Hs Hx Hr Hv) as (s1&E1&Ha&Hne&_).
  unfold transferBRC. rewrite (bind_ok _ _ _ _ _ E1).
  assert (WF s1) as Hs1 by (eapply undo_ok_WF; [apply undo_ok_subBRC|exact Hs|exact E1]).
  pose proof (Hne b (not_eq_sym Hab)) as Hb. rewrite Hy in Hb.
  destruct (view s1 b) as [y1|] eqn:Hy1'; [|inversion Hb]. apply (inj Some) in Hb as [Hn _].
  apply (f_equal m_BRC) in Hn. change (w256 (m_BRC y1) = w256 (m_BRC y)) in Hn.
  destruct (addBRC_edited b v s1 y1 Hs1 Hy1') as (s2&t&E2&Es2&[Hne2 Hyt]). exists t. split; [done|].
  destruct Es2 as [_ Es2]. split_and!.
  - rewrite <-Ha. unfold BRC_at. specialize (Es2 a). rewrite (Hne2 a Hab).
    destruct (view s1 a), (view s2 a); inversion Es2 as [? ? [Hq _]|]; [|done].
    subst. apply (f_equal m_BRC) in Hq. by symmetry.
  - unfold BRC_at. rewrite Hyt, BRC_addBRC, w256_idem, <-w256_add_l, Hn, w256_add_l. apply w256_small. unfold in256. lia.
  - intros c Hca Hcb. rewrite (Hne2 c Hcb), <-(Es2 c). by apply Hne.
Qed.
End Reading.
