(* ===== verification/ExecutiveProofs.v ===== *)
(** * Whole transactions: reading, nonces, execution and fees

    What [transact] does to the state: reads leave it equivalent ([peek]), everything up
    to the fee can be rolled back and moves no amounts ([neutral]), the fee is taken from
    the sender, and crediting the producer touches one account and never throws
    ([settled]). *)
From stdpp Require Import base gmap list.
From Stdlib Require Import ZArith Lia.
From S2P Require Import Prelude Rlp Config Objects Interfaces Account ChainState StateOps Exdb Operations Codec.
From S2P Require Import Transaction Exchange Vote Income Miner Verify Executive VoteProofs Rollback Undoable Atomic Supply.
From S2P Require Import StateProofs.
Open Scope Z_scope.

(** ** Reads *)
Section Peek.
Context `{CR : Crypto, CF : Config, ST_ : !StorageTrie, RN : Rng, CO : !AccountCodec}.

(** Nothing a reader can see changes, whatever the outcome. *)
Definition peek {A} (m : M A) : Prop := ∀ s, WF s → WF (m s).2 ∧ s ≡ (m s).2.

Lemma peek_neutral {A} (m : M A) : peek m → neutral m.
Proof.
  intros H. split.
  - intros s Hs _. destruct (H s Hs). split; [by apply Undo_equiv|done].
  - apply moves_same. intros s x t Hs _ E. destruct (H s Hs) as [_ E']. by rewrite E in E'.
Qed.
Lemma peek_same {A} (m : M A) : (∀ s, (m s).2 = s) → peek m.
Proof. intros H s Hs. by rewrite H. Qed.
Lemma peek_ret {A} (x : A) : peek (mret x).
Proof. by apply peek_same. Qed.
Lemma peek_throw {A} e : peek (throw (A:=A) e).
Proof. by apply peek_same. Qed.
Lemma peek_undef {A} : peek (undef (A:=A)).
Proof. by apply peek_same. Qed.
Lemma peek_require b e : peek (require b e).
Proof. apply peek_same. by destruct b. Qed.
Lemma peek_lift {A} (m : outcome A) : peek (lift m).
Proof. by apply peek_same. Qed.
Lemma peek_getS : peek getS.
Proof. by apply peek_same. Qed.
Lemma peek_bind {A B} (m : M A) (k : A → M B) : peek m → (∀ x, peek (k x)) → peek (m ≫= k).
Proof.
  intros Hm Hk s Hs. destruct (Hm s Hs) as [H1 E1]. unfold mbind, ST_bind.
  destruct (m s) as [[x|e| | |] s1]; cbn in *; try by split.
  destruct (Hk x s1 H1) as [H2 E2]. split; [done|by etrans].
Qed.
Lemma peek_account a : peek (account a).
Proof. intros s Hs. by destruct (account_reads a s Hs) as [? _]. Qed.
Lemma peek_read {A} (d : A) f a : peek (read d f a).
Proof. apply peek_bind; [apply peek_account|]. intros. apply peek_ret. Qed.
Lemma peek_getNonce a : peek (getNonce a).
Proof. apply peek_bind; [apply peek_getS|]. intros. apply peek_read. Qed.

(** Replacing an entry by an equivalent one that is as clean. *)
Lemma WF_put_equiv s a x y :
  WF s → m_cache s !! a = Some x → x ≡ y → isDirty y = isDirty x → WF (put a y s).
Proof.
  intros Hs Hx E D. split; [apply (coh_none s Hs)| | |apply (coh_ok s Hs)].
  - intros b z. destruct (decide (a = b)) as [<-|]; [rewrite lookup_put|rewrite lookup_put_ne by done].
    + intros [= <-] Dz. rewrite D in Dz. change (trie_view (put a y s) a) with (trie_view s a).
      rewrite <-(coh_clean s Hs a x Hx Dz). by constructor.
    + apply (coh_clean s Hs).
  - intros c Hc. destruct (coh_log s Hs c Hc) as (z&Hz&Dz).
    destruct (decide (a = ch_address c)) as [->|]; [|rewrite lookup_put_ne by done; eauto].
    rewrite lookup_put. exists y. split; [done|]. by simplify_eq; rewrite D.
Qed.
Lemma peek_code a : peek (code a).
Proof.
  intros s Hs. unfold code, mbind, ST_bind, getS.
  destruct (account_reads a s Hs) as [[H1 E1] Ho]. destruct (account a s) as [[o|e| | |] s1]; cbn in *; try by split.
  destruct o as [x|]; [|by split]. destruct (m_codeHash x =? EmptySHA3); [by split|].
  case_bool_decide; [|by split]. rewrite (write_eq _ _ _ _ Ho). cbn.
  assert (x ≡ acc_noteCode (default [] (m_codeDB s1 !! m_codeHash x)) x) as E
    by (split; [by destruct x|]; intros k; by apply same_storage_sval).
  split; [by eapply WF_put_equiv|]. etrans; [exact E1|]. by eapply equiv_put.
Qed.
End Peek.

Create HintDb peek discriminated.
#[export] Hint Constants Opaque : peek.
#[export] Hint Variables Opaque : peek.
#[export] Hint Resolve peek_ret peek_throw peek_undef peek_require peek_lift peek_getS peek_account peek_read
  peek_getNonce peek_code : peek.
Ltac peek_step :=
  lazymatch goal with
  | |- ∀ _, _ => intros ?
  | |- peek (let _ := _ in _) => cbv zeta
  | |- peek (if ?b then _ else _) => destruct b
  | |- peek (match ?x with _ => _ end) => destruct x
  | |- peek (_ ≫= _) => apply peek_bind
  | |- peek _ => solve [ auto with peek ]
  end.
Ltac peek_tac := repeat peek_step.

(** ** Nonces *)
Section Nonce.
Context `{CR : Crypto, CF : Config, ST_ : !StorageTrie, RN : Rng, CO : !AccountCodec}.

(** The account at [a] in [t], when it is the account [x] of [s] with its nonce and
    nothing else changed. *)
Definition same_but_nonce (x y : Account) : Prop :=
  held_BRC y = held_BRC x ∧ held_cookies y = held_cookies x ∧ m_codeHash y = m_codeHash x.

Lemma requireAccountStartNonce_same s : (requireAccountStartNonce s).2 = s.
Proof. unfold requireAccountStartNonce, mbind, ST_bind, getS. by destruct (_ =? _). Qed.
Lemma requireAccountStartNonce_cases s :
  (∃ n, requireAccountStartNonce s = (Ok n, s)) ∨ ∃ e, requireAccountStartNonce s = (Throw e, s).
Proof. unfold requireAccountStartNonce, mbind, ST_bind, getS. destruct (_ =? _); eauto. Qed.
Lemma undo_ok_incNonce a : undo_ok (incNonce a).
Proof.
  eapply undoable_bind; [apply undoable_account|]. intros [x|].
  - eapply undoable_conseq; [|exact (λ s H, H)|done].
    apply (undoable_edit x acc_incNonce (ChNonce a (m_nonce x))); [done|by repeat split|].
    eexists. split; [reflexivity|]. split; [by destruct x|]. intros k. by apply same_storage_sval.
  - eapply undoable_bind; [apply (undoable_pure _ _ (λ _, absent a)); [apply requireAccountStartNonce_same|done]|].
    intros n s Hs [Hx Hv]. split; [by apply (Undo_create s a)|done].
Qed.

(** [incNonce] rewrites one account. *)
Lemma incNonce_inv a s u t :
  WF s → incNonce a s = (Ok u, t) →
  ∃ s1 y, s ≡ s1 ∧ edited a y s1 t ∧
    match view s1 a with
    | Some x => m_nonce y = m_nonce x [+] 1 ∧ same_but_nonce x y
    | None => held_BRC y = 0 ∧ held_cookies y = 0 ∧ m_codeHash y = EmptySHA3
    end.
Proof.
  intros Hs (o&s1&E1&E)%bind_inv. destruct (account_reads a s Hs) as [[_ Es] Ho]. rewrite E1 in *. cbn in Es, Ho.
  destruct o as [x|].
  - rewrite (bind_ok _ _ _ _ _ (write_eq _ _ _ _ Ho)) in E. injection E as <- <-.
    exists s1, (acc_incNonce x). split; [done|]. split; [apply edited_logc, edited_put|].
    rewrite (view_cached _ _ _ Ho). by destruct x.
  - apply bind_inv in E as (n&s2&E2&E). pose proof (requireAccountStartNonce_same s1) as H2. rewrite E2 in H2.
    cbn in H2. subst s2. injection E as <- <-. exists s1, (Account_nb (n [+] 1) 0). split; [done|].
    split; [apply edited_created|]. unfold view. destruct Ho as [-> ->]. done.
Qed.

(** The sender's nonce goes up by one and nothing else that is counted changes. *)
Record bumped (a : Address) (s t : State) : Prop := {
  bumped_BRC : BRC_supply t = BRC_supply s;
  bumped_cookies : cookie_supply t = cookie_supply s;
  bumped_nonce : ∀ x, view s a = Some x → ∃ y, view t a = Some y ∧ m_nonce y = m_nonce x [+] 1;
  bumped_other : ∀ b x, b ≠ a → view s b = Some x → ∃ y, view t b = Some y ∧ m_nonce y = m_nonce x }.
(** No code is stored at [a]. *)
Definition codeless (a : Address) (s : State) : Prop :=
  match view s a with Some x => m_codeHash x = EmptySHA3 | None => True end.
Lemma stable_codeless a : stable (codeless a).
Proof.
  intros s t [_ E]. specialize (E a). unfold codeless. inversion E as [x y [Ev _] Hx Hy|]; [|done].
  apply (f_equal m_codeHash) in Ev. by destruct x, y; cbn in *; subst.
Qed.

Lemma incNonce_bumped a s u t : WF s → incNonce a s = (Ok u, t) → bumped a s t.
Proof.
  intros Hs (s1&y&Es&He&Hy)%incNonce_inv; [|done].
  destruct (edited_equiv_moves s s1 a y t Es He) as [HB HC]. destruct He as [Hne Hya].
  assert (∀ b x, view s b = Some x → ∃ z, view s1 b = Some z ∧ m_nonce z = m_nonce x) as Hk by by apply nonces_equiv.
  split.
  - rewrite HB. unfold at_account. destruct (view s1 a); [destruct Hy as (_&->&_)|destruct Hy as (->&_)];
      rewrite ?Z.sub_diag, ?Z.sub_0_r, Z.add_0_r; apply w256_small, supply_in256.
  - rewrite HC. unfold at_account. destruct (view s1 a); [destruct Hy as (_&_&->&_)|destruct Hy as (_&->&_)];
      rewrite ?Z.sub_diag, ?Z.sub_0_r, Z.add_0_r; apply w256_small, supply_in256.
  - intros x (z&Hz&Ez)%Hk. rewrite Hz in Hy. exists y. split; [done|]. destruct Hy as [-> _]. by rewrite Ez.
  - intros b x Hb Hx. rewrite (Hne b Hb). by apply Hk.
Qed.
Lemma incNonce_codeless a b s u t : WF s → incNonce a s = (Ok u, t) → codeless b s → codeless b t.
Proof.
  intros Hs (s1&y&Es&[Hne Hya]&Hy)%incNonce_inv; [|done]. intros Hc%(stable_codeless b s s1 Es).
  unfold codeless in *. destruct (decide (b = a)) as [->|Hb]; [|by rewrite (Hne b Hb)].
  rewrite Hya. destruct (view s1 a) as [x|]; [destruct Hy as (_&_&_&->); done|by destruct Hy as (_&_&->)].
Qed.
Lemma bumped_kept a s t u :
  bumped a s t → nonces_kept t u → BRC_supply u = BRC_supply t → cookie_supply u = cookie_supply t → bumped a s u.
Proof.
  intros [B C N O] K HB HC. split; [congruence|congruence| |].
  - intros x (y&Hy&Ey)%N. apply K in Hy as (z&Hz&Ez). exists z. split; [done|congruence].
  - intros b x Hb (y&Hy&Ey)%O; [|done]. apply K in Hy as (z&Hz&Ez). exists z. split; [done|congruence].
Qed.
Lemma kept_bumped a s t u :
  nonces_kept s t → BRC_supply t = BRC_supply s → cookie_supply t = cookie_supply s → bumped a t u → bumped a s u.
Proof.
  intros K HB HC [B C N O]. split; [congruence|congruence| |].
  - intros x (y&Hy&Ey)%K. apply N in Hy as (z&Hz&Ez). exists z. split; [done|congruence].
  - intros b x Hb (y&Hy&Ey)%K. apply O in Hy as (z&Hz&Ez); [|done]. exists z. split; [done|congruence].
Qed.
(** A neutral computation that returns. *)
Lemma neutral_inv {A} (m : M A) s x t :
  neutral m → WF s → m s = (Ok x, t) →
  Undo s t ∧ BRC_supply t = BRC_supply s ∧ cookie_supply t = cookie_supply s ∧ nonces_kept s t.
Proof.
  intros [Hu Hm] Hs E. destruct (Hu s Hs I) as [H _]. rewrite E in H. destruct (Hm s x t Hs I E) as (HB&HC&HN).
  rewrite !Z.add_0_r, !w256_small in * by apply supply_in256. done.
Qed.
End Nonce.

(** ** Before the fee *)
Section Run.
Context `{CR : Crypto, CF : Config, ST_ : !StorageTrie, RN : Rng, CO : !AccountCodec, MA : Machine}.
Context (p : ChainParams).

(** The type of the first operation in the data. *)
Definition batch_type (data : bytes) : Z :=
  match RLP data ≫= toVector toBytes with Ok (v :: _) => get_type v | _ => op_null end.
(** The operations of a batch log their changes. *)
Definition logged_tx (t : Transaction) : Prop := isVoteTranction t = true → data_logged (t_data t).

Lemma peek_checkGasPrice t env : peek (checkGasPrice p t env).
Proof. unfold checkGasPrice, getAveragegasPrice. peek_tac. Qed.
Lemma peek_checkNonce t env enum n : peek (checkNonce t env enum n).
Proof. unfold checkNonce. peek_tac. Qed.
Lemma peek_checkCall t env from x : peek (checkCall p t env from x).
Proof. unfold checkCall, balance, BRC. peek_tac. Qed.
Lemma read_batch_type e data s r t : read_batch e data s = (Ok r, t) → r.1 = batch_type data ∧ r.2 ≠ [].
Proof.
  destruct r as [ty ops]. intros (vals&Hv&Hne&Hf&_)%read_batch_inv. unfold batch_type. rewrite Hv.
  destruct Hf as [|v o vals ops [Hty _] _]; [done|]. by split.
Qed.
Lemma neutral_checkBatch t env enum from x :
  data_logged (t_data t) → neutral (checkBatch p t env enum from x).
Proof.
  intros Hd. apply (neutral_bind_result _ (λ r, logged_type r.1 = true)); [apply neutral_read_batch|..].
  - intros s r u. by apply read_batch_logged.
  - intros r Hl. apply neutral_bind; [auto with neutral|]. intros h.
    apply neutral_bind; [by apply neutral_verify_batch|auto with neutral].
Qed.
#[local] Hint Resolve peek_checkGasPrice peek_checkNonce peek_checkCall : peek.
#[local] Hint Resolve neutral_checkBatch : neutral.

Lemma neutral_initialize t env enum : logged_tx t → neutral (initialize p t env enum).
Proof.
  intros Hl. unfold initialize. cbv zeta. apply neutral_bind; [neutral_tac|]. intros x.
  destruct (hasZeroSignature t); [auto with neutral|]. apply neutral_bind; [auto with neutral|]. intros from.
  apply neutral_bind; [apply peek_neutral; auto with peek|]. intros n.
  apply neutral_bind; [apply peek_neutral; auto with peek|]. intros u.
  apply neutral_bind; [apply peek_neutral; auto with peek|]. intros u'.
  destruct (isVoteTranction t) eqn:Hv; [|apply peek_neutral; auto with peek]. by apply neutral_checkBatch, Hl.
Qed.
Lemma peek_initialize t env enum : isVoteTranction t = false → peek (initialize p t env enum).
Proof. intros Hv. unfold initialize. rewrite Hv. peek_tac. Qed.

(** What the executive holds after [initialize], for a batch and for a plain call. *)
Definition batch_costs (t : Transaction) (env : EnvInfo) (from : Address) (ty : Z) (x : Exec) : Prop :=
  let e := batch_env_of p t env from 0 in
  m_addCostValue x = add_cost e ty ∧ m_totalGas x = w256 (total_cost e ty) ∧
  base_cost e [+] add_cost e ty <= total_cost e ty.
Definition call_costs (t : Transaction) (env : EnvInfo) (x : Exec) : Prop :=
  m_addCostValue x = 0 ∧ base_gas p t env <= t_gas t ∧
  m_totalGas x = if modifyReciptGasHeight <? env_number env then w256 (t_gas t * t_gasPrice t) else 0.
Record initialized (t : Transaction) (env : EnvInfo) (from : Address) (x : Exec) : Prop := {
  ini_base : m_baseGasRequired x = base_gas p t env;
  ini_ext : m_ext x = None;
  ini_sub : m_sub x = sub_empty;
  ini_kind : if isVoteTranction t
             then batch_costs t env from (batch_type (t_data t)) x ∧
                  ∃ ops, m_batch_params x = (batch_type (t_data t), ops) ∧ ops ≠ []
             else call_costs t env x }.

Lemma read_batch_covers e data s r t :
  read_batch e data s = (Ok r, t) → base_cost e [+] add_cost e r.1 <= total_cost e r.1.
Proof.
  unfold read_batch. intros (vals&s1&_&H)%bind_inv. apply bind_inv in H as (u&s2&_&H).
  apply bind_inv in H as (r'&s3&_&H). apply bind_inv in H as (u4&s4&H4&H). injection H as -> ->.
  apply require_inv in H4 as [H4 _]. lia.
Qed.
Lemma checkBatch_inv t env enum from x s y u :
  checkBatch p t env enum from x s = (Ok y, u) → isVoteTranction t = true →
  m_baseGasRequired x = base_gas p t env → m_ext x = None → m_sub x = sub_empty → initialized t env from y.
Proof.
  intros (r&s1&E1&H)%bind_inv Hv Hb He Hsub. apply bind_inv in H as (h&s2&_&H). apply bind_inv in H as (u3&s3&_&H).
  injection H as <- <-. destruct (read_batch_type _ _ _ _ _ E1) as [Hty Hne]. pose proof (read_batch_covers _ _ _ _ _ E1).
  split; [done..|]. rewrite Hv, <-Hty. split; [done|]. exists r.2. by destruct r.
Qed.
Lemma checkCall_inv t env from x s y u :
  checkCall p t env from x s = (Ok y, u) → isVoteTranction t = false → m_totalGas x = 0 → m_addCostValue x = 0 →
  m_baseGasRequired x = base_gas p t env → m_ext x = None → m_sub x = sub_empty → initialized t env from y.
Proof.
  intros (b&s1&_&H)%bind_inv Hv Ht Ha Hb He Hsub. apply bind_inv in H as (c&s2&_&H). apply bind_inv in H as (u3&s3&H3&H).
  apply require_inv in H3 as [H3 _]. injection H as <- <-.
  destruct (modifyReciptGasHeight <? env_number env) eqn:Hn; (split; [done..|]); rewrite Hv; unfold call_costs;
    rewrite Hn; (split_and!; [done|lia|done]).
Qed.

(** The steps of [initialize] that succeeded. *)
Lemma initialize_inv t env enum s y u :
  initialize p t env enum s = (Ok y, u) → hasZeroSignature t = false →
  ∃ from n s1, sender t = Ok from ∧ getNonce from s = (Ok n, s1) ∧ (checkNonce t env enum n s1).1 = Ok tt ∧
    initialized t env from y.
Proof.
  intros (x&s0&E0&H)%bind_inv Hz. rewrite Hz in H. apply bind_inv in H as (from&s1&[Hf ->]%lift_inv&H).
  apply bind_inv in H as (n&s2&E2&H). apply bind_inv in H as ([]&s3&E3&H). apply bind_inv in H as (u4&s4&_&H).
  assert (s0 = s ∧ ∃ e, x = (Exec_new (base_gas p t env)) <| m_excepted := e |>) as [-> [ex ->]].
  { destruct (verifyTransaction p IR_Everything t env); [injection E0 as <- <-; by eauto| |done..].
    case_bool_decide; [done|]. injection E0 as <- <-. eauto. }
  exists from, n, s2. rewrite E3. split_and!; [done..|]. destruct (isVoteTranction t) eqn:Hv.
  - by eapply checkBatch_inv.
  - by eapply checkCall_inv.
Qed.

(** ** [execute] *)
Lemma neutral_addBalance_zero a : neutral (addBalance a 0).
Proof. split; [apply undo_ok_addBalance|apply addBalance_moves]. Qed.
Lemma neutral_call_code t env from gas x : neutral (call_code p t env from gas x).
Proof.
  unfold call_code. cbv zeta. destruct (isPrecompiled _ _).
  - destruct (_ <? _); [|destruct (executePrecompiled _ _ _); auto with neutral].
    apply neutral_bind; [|auto with neutral]. apply neutral_when, neutral_addBalance_zero.
  - apply peek_neutral. unfold addressHasCode, codeHash. peek_tac.
Qed.
(** [call_code] only fills in the gas, the output and the code to run. *)
Definition same_plan (x y : Exec) : Prop :=
  m_batch_params y = m_batch_params x ∧ m_totalGas y = m_totalGas x ∧ m_needRefundGas y = m_needRefundGas x ∧
  m_sub y = m_sub x.
Lemma call_code_plan t env from gas x s r u :
  call_code p t env from gas x s = (Ok r, u) → same_plan x (match r with inl y | inr y => y end).
Proof.
  unfold call_code. cbv zeta. destruct (isPrecompiled _ _).
  - destruct (_ <? _).
    + intros (u1&s1&_&H)%bind_inv. by injection H as <- <-.
    + destruct (executePrecompiled _ _ _) as [[] out]; by intros [= <- <-].
  - intros (has&s1&_&H)%bind_inv. destruct has; [|by injection H as <- <-].
    apply bind_inv in H as (c&s2&_&H). apply bind_inv in H as (h&s3&_&H). by injection H as <- <-.
Qed.
Lemma call_code_gas t env from gas x s r u :
  WF s → isPrecompiled (t_receiveAddress t) (env_number env) = false → m_ext x = None →
  call_code p t env from gas x s = (Ok r, u) →
  ∃ y, r = inl y ∧ m_gas y = gas ∧ (codeless (t_receiveAddress t) s → m_ext y = None).
Proof.
  intros Hs Hp He. unfold call_code. cbv zeta. rewrite Hp. intros (has&s1&Eh&H)%bind_inv.
  apply read_view in Eh; [|done]. destruct has.
  - apply bind_inv in H as (c&s2&_&H). apply bind_inv in H as (h&s3&_&H). injection H as <- <-.
    eexists. split_and!; [done..|]. unfold codeless. intros Hc. destruct (view s _) as [z|]; [|done].
    rewrite Hc, Z.eqb_refl in Eh. done.
  - injection H as <- <-. eexists. by split_and!.
Qed.

Lemma undo_ok_bump_nonce from env : undo_ok (bump_nonce p from env).
Proof. apply undo_ok_when, undo_ok_incNonce. Qed.
Lemma undo_ok_call fuel t env enum from gas x :
  (isVoteTranction t = true → logged_type (m_batch_params x).1 = true) → undo_ok (call p fuel t env enum from gas x).
Proof.
  intros Hl. apply undo_ok_bind; [apply undo_ok_when, undo_ok_bump_nonce|]. intros _.
  apply undo_ok_bind; [unfold savepoint; undo_tac|]. intros sp.
  eapply undoable_bind; [apply (undoable_result _ (λ r, match r with inl y => m_batch_params y = m_batch_params x | _ => True end))|].
  - apply neutral_call_code.
  - intros s r u E%call_code_plan. destruct r; [by destruct E as (->&_)|done].
  - intros [y|y]; [|eapply undoable_conseq; [apply (undo_ok_ret (true, y))|done|done]].
    eapply undoable_conseq with (P' := λ _, m_batch_params y = m_batch_params x ∧ True); [|by intros|done].
    apply undoable_pre. intros Hy. destruct (isVoteTranction t); cbn [negb].
    + case_bool_decide; [apply undo_ok_ret|]. apply undo_ok_bind; [apply undo_ok_lift|]. intros h.
      apply undo_ok_bind; [|intros; apply undo_ok_ret]. apply undo_ok_execute_batch. rewrite Hy. auto.
    + apply undo_ok_bind; [apply undo_ok_transferBRC|intros; apply undo_ok_ret].
Qed.
Lemma undo_ok_execute fuel t env enum x :
  isCreation t = false → (isVoteTranction t = true → logged_type (m_batch_params x).1 = true) →
  undo_ok (execute p fuel t env enum x).
Proof.
  intros Hc Hl. unfold execute. cbv zeta. rewrite Hc. apply undo_ok_bind; [apply undo_ok_lift|]. intros from.
  apply undo_ok_bind; [destruct (_ <? _); [apply undo_ok_div|apply undo_ok_ret]|]. intros gas. by apply undo_ok_call.
Qed.

(** Transactions whose execution is settled without running code: batches of logged
    operations, and calls of addresses that hold no code. *)
Definition counts (from : Address) (env : EnvInfo) : Prop :=
  from ≠ MaxAddress ∨ env_number env < experimentalForkBlock p.
Definition ready (t : Transaction) (s : State) (x : Exec) : Prop :=
  if isVoteTranction t then logged_type (m_batch_params x).1 = true ∧ (m_batch_params x).2 ≠ []
  else codeless (t_receiveAddress t) s.

Lemma bump_inv from env t s u s1 :
  t_type t ≠ NullTransaction → counts from env →
  when (bool_decide (t_type t ≠ NullTransaction)) (bump_nonce p from env) s = (Ok u, s1) → incNonce from s = (Ok u, s1).
Proof.
  intros Ht Hc. rewrite bool_decide_eq_true_2 by done. unfold bump_nonce, when.
  destruct Hc as [Hc|Hc]; [by rewrite bool_decide_eq_true_2|]. apply Z.ltb_lt in Hc. by rewrite Hc, orb_true_r.
Qed.
Lemma call_inv fuel t env enum from gas x s done y u :
  WF s → t_type t ≠ NullTransaction → counts from env →
  isPrecompiled (t_receiveAddress t) (env_number env) = false → m_ext x = None → ready t s x →
  call p fuel t env enum from gas x s = (Ok (done, y), u) →
  bumped from s u ∧ done = true ∧ m_gas y = gas ∧ m_totalGas y = m_totalGas x ∧ m_needRefundGas y = m_needRefundGas x
  ∧ m_sub y = m_sub x.
Proof.
  intros Hs Ht Hb Hp He Hr (u1&s1&E1&H)%bind_inv. apply bump_inv in E1; [|done..].
  pose proof (undo_ok_WF _ _ _ _ (undo_ok_incNonce from) Hs E1) as Hs1.
  pose proof (incNonce_bumped _ _ _ _ Hs E1) as HB.
  apply bind_inv in H as (sp&s2&E2&H). injection E2 as <- <-. apply bind_inv in H as (r&s3&E3&H).
  match type of E3 with call_code _ _ _ _ _ ?x1 _ = _ => assert (m_ext x1 = None) as He1 by exact He end.
  destruct (call_code_gas t env from gas _ s1 r s3 Hs1 Hp He1 E3) as (z&->&Hg&Hext).
  assert (same_plan x z) as (Hbp&Htot&Hneed&Hsub) by exact (call_code_plan _ _ _ _ _ _ _ _ E3).
  destruct (neutral_inv _ _ _ _ (neutral_call_code t env from gas _) Hs1 E3) as (Hw3%Undo_WF&B3&C3&N3).
  pose proof (bumped_kept _ _ _ _ HB N3 B3 C3) as HB3. unfold ready in Hr. destruct (isVoteTranction t); cbn [negb] in H.
  - destruct Hr as [Hl Hne]. rewrite bool_decide_eq_false_2 in H by (by rewrite Hbp).
    apply bind_inv in H as (h&s4&E4&H). apply lift_inv in E4 as [_ ->]. apply bind_inv in H as (u5&s5&E5&H).
    injection H as <- <- <-.
    rewrite Hbp in E5. destruct (neutral_inv _ _ _ _ (neutral_execute_batch fuel _ _ _ Hl) Hw3 E5) as (_&B5&C5&N5).
    split_and!; try done. by eapply bumped_kept.
  - apply bind_inv in H as (u4&s4&E4&H). injection H as <- <- <-.
    destruct (neutral_inv _ _ _ _ (neutral_transferBRC from _ _) Hw3 E4) as (_&B4&C4&N4).
    split_and!; try done; [by eapply bumped_kept|]. apply bool_decide_eq_true_2, Hext.
    by apply (incNonce_codeless from _ s u1 s1).
Qed.

(** What the executive holds after [execute]. *)
Definition needed_refund (t : Transaction) (x : Exec) : u256 :=
  m_totalGas x [-] (m_baseGasRequired x [*] t_gasPrice t) [-] m_addCostValue x.
Record executed (t : Transaction) (env : EnvInfo) (x y : Exec) : Prop := {
  exe_total : m_totalGas y = m_totalGas x;
  exe_need : m_needRefundGas y = needed_refund t x;
  exe_gas : if modifyReciptGasHeight <? env_number env
            then t_gasPrice t ≠ 0 ∧ m_gas y = needed_refund t x / t_gasPrice t
            else m_gas y = t_gas t [-] m_baseGasRequired x;
  exe_sub : m_sub y = m_sub x }.
Lemma execute_inv fuel t env enum from x s done y u :
  WF s → isCreation t = false → t_type t ≠ NullTransaction → sender t = Ok from → counts from env →
  isPrecompiled (t_receiveAddress t) (env_number env) = false → m_ext x = None → ready t s x →
  execute p fuel t env enum x s = (Ok (done, y), u) → bumped from s u ∧ done = true ∧ executed t env x y.
Proof.
  intros Hs Hc Ht Hf Hb Hp He Hr. unfold execute. cbv zeta. rewrite Hc.
  intros (from'&s1&[Hf' ->]%lift_inv&H)%bind_inv. rewrite Hf in Hf'. injection Hf' as <-.
  apply bind_inv in H as (gas&s2&E2&H).
  assert (s2 = s ∧ if modifyReciptGasHeight <? env_number env
                   then t_gasPrice t ≠ 0 ∧ gas = needed_refund t x / t_gasPrice t
                   else gas = t_gas t [-] m_baseGasRequired x) as [-> Hg].
  { destruct (_ <? _); [|by injection E2]. unfold u256_div in E2. case_bool_decide; [done|]. by injection E2 as <- <-. }
  eapply call_inv in H as (HB&Hd&Hgy&Htot&Hneed&Hsub); [|done..]. split_and!; [done..|].
  split; [done|done|by rewrite Hgy|done].
Qed.
End Run.

(** ** Crediting the producer

    The producer's account is brought up to the current voting round and its income is
    increased.  Not every step of this can be rolled back, so what matters is that it
    does not throw: [quietly P m Q] says that [m] returns (or does something undefined),
    keeps the caches coherent, and moves no amounts and no nonces. *)
Section Settle.
Context `{CR : Crypto, CF : Config, ST_ : !StorageTrie, RN : Rng, CO : !AccountCodec}.

Record quiet (s t : State) : Prop := {
  quiet_WF : WF t;
  quiet_BRC : BRC_supply t = BRC_supply s;
  quiet_cookies : cookie_supply t = cookie_supply s;
  quiet_nonces : nonces_kept s t }.
Lemma quiet_equiv s t : WF t → s ≡ t → quiet s t.
Proof.
  intros Ht E. split; [done| | |by apply nonces_equiv]; symmetry; apply supply_equiv;
    auto using held_BRC_visible, held_cookies_visible.
Qed.
Lemma quiet_trans s t u : quiet s t → quiet t u → quiet s u.
Proof. intros [? ? ? ?] [? ? ? ?]. split; [done|congruence|congruence|by eapply nonces_trans]. Qed.

Definition quietly {A} (P : State → Prop) (m : M A) (Q : A → State → Prop) : Prop :=
  ∀ s, WF s → P s →
    match m s with
    | (Ok x, t) => quiet s t ∧ Q x t
    | (Undef, _) => True
    | _ => False
    end.
Lemma quietly_bind {A B} P (m : M A) R (k : A → M B) Q :
  quietly P m R → (∀ x, quietly (R x) (k x) Q) → quietly P (m ≫= k) Q.
Proof.
  intros Hm Hk s Hs Hp. specialize (Hm s Hs Hp). unfold mbind, ST_bind.
  destruct (m s) as [[x|e| | |] s1]; try done. destruct Hm as [H1 HR]. specialize (Hk x s1 (quiet_WF _ _ H1) HR).
  destruct (k x s1) as [[y|e| | |] t]; try done. destruct Hk as [H2 HQ]. split; [by eapply quiet_trans|done].
Qed.
Lemma quietly_ret {A} (P : State → Prop) (x : A) (Q : A → State → Prop) : (∀ s, P s → Q x s) → quietly P (mret x) Q.
Proof. intros H s Hs Hp. split; [by apply quiet_equiv|auto]. Qed.
Lemma quietly_undef {A} P Q : quietly P (undef (A:=A)) Q.
Proof. done. Qed.
Lemma quietly_conseq {A} (P P' : State → Prop) (m : M A) (Q Q' : A → State → Prop) :
  quietly P' m Q' → (∀ s, P s → P' s) → (∀ x s, Q' x s → Q x s) → quietly P m Q.
Proof.
  intros H HP HQ s Hs Hp. specialize (H s Hs (HP s Hp)). destruct (m s) as [[x|e| | |] t]; try done.
  destruct H. auto.
Qed.
Lemma quietly_ex {A B} (P : B → State → Prop) (m : M A) Q :
  (∀ y, quietly (P y) m Q) → quietly (λ s, ∃ y, P y s) m Q.
Proof. intros H s Hs [y Hy]. by apply (H y). Qed.
Lemma quietly_pre {A} (φ : Prop) P (m : M A) Q : (φ → quietly P m Q) → quietly (λ s, φ ∧ P s) m Q.
Proof. intros H s Hs [??]. by apply H. Qed.
Lemma quietly_account P a :
  quietly P (account a) (λ o, match o with Some x => cached a x | None => absent a end).
Proof.
  intros s Hs _. destruct (account_reads a s Hs) as [[Ht E] Ho]. destruct (account a s) as [[o|e| | |] t]; try done.
  split; [by apply quiet_equiv|]. by destruct o.
Qed.
Lemma quietly_read {A} (d : A) f a : quietly (λ _, True) (read d f a) (λ _ _, True).
Proof. eapply quietly_bind; [apply quietly_account|]. intros o. by apply quietly_ret. Qed.
Lemma quietly_cached a x : quietly (cached a x) (account a) (λ o s, o = Some x ∧ cached a x s).
Proof. intros s Hs Hx. unfold account. rewrite Hx. split; [by apply quiet_equiv|done]. Qed.
Lemma quietly_reread a x : quietly (cached a x) (reread a) (λ y s, y = x ∧ cached a x s).
Proof. intros s Hs Hx. unfold reread. rewrite Hx. split; [by apply quiet_equiv|done]. Qed.

(** Replacing an account by one with the same amounts and the same nonce. *)
Lemma quiet_edited s a y t :
  WF t → edited a y s t → at_account held_BRC s a = held_BRC y → at_account held_cookies s a = held_cookies y →
  (∀ x, view s a = Some x → m_nonce y = m_nonce x) → quiet s t.
Proof.
  intros Ht He HB HC HN. destruct (edited_equiv_moves s s a y t (reflexivity s) He) as [EB EC].
  rewrite HB, Z.sub_diag, Z.add_0_r, w256_small in EB by apply supply_in256.
  rewrite HC, Z.sub_diag, Z.add_0_r, w256_small in EC by apply supply_in256.
  split; [done|done|done|]. by eapply (edited_nonces s s).
Qed.
Definition inert (f : Account → Account) (x : Account) : Prop :=
  isDirty (f x) = true ∧ held_BRC (f x) = held_BRC x ∧ held_cookies (f x) = held_cookies x ∧ m_nonce (f x) = m_nonce x.
Lemma quietly_write a x f : inert f x → quietly (cached a x) (write a f) (λ _, cached a (f x)).
Proof.
  intros (D&HB&HC&HN) s Hs Hx. rewrite (write_eq _ _ _ _ Hx). split; [|apply lookup_put].
  apply (quiet_edited s a (f x)); [by eapply WF_put|apply edited_put|..]; unfold at_account;
    rewrite (view_cached _ _ _ Hx); [done|done|]. by intros z [= <-].
Qed.
Lemma quietly_log a x c :
  ch_address c = a → isDirty x = true → log_ok c → quietly (cached a x) (log c) (λ _, cached a x).
Proof.
  intros <- D Hok s Hs Hx. split; [|done]. split; [by eapply WF_logc|done|done|]. intros b y Hy. by exists y.
Qed.
Lemma quietly_log_amount a x c v :
  ch_address c = a → isDirty x = true → log_ok c → quietly (cached a x) (log_amount c v) (λ _, cached a x).
Proof. intros. unfold log_amount, when. destruct (negb _); [by apply quietly_log|by apply quietly_ret]. Qed.
Lemma quietly_create a x :
  isDirty x = true → held_BRC x = 0 → held_cookies x = 0 →
  quietly (absent a) (createAccount a x) (λ _, cached a x).
Proof.
  intros D HB HC s Hs [Hx Hv]. unfold createAccount, modS. split; [|apply lookup_insert_eq].
  change (_ <| m_changeLog ::= _ |>) with (created a x s).
  apply (quiet_edited s a x); [by eapply Undo_WF, Undo_create|apply edited_created|..]; unfold at_account, view;
    rewrite Hx, Hv; done.
Qed.
Lemma quietly_add a x f e c v :
  inert f x → ch_address c = a → log_ok c →
  quietly (cached a x)
    ((o ← account a; match o with Some _ => write a f | None => throw e end) ;; log_amount c v) (λ _, cached a (f x)).
Proof.
  intros Hf Ha Hok. eapply quietly_bind; [|intros u; apply quietly_log_amount; [done|apply Hf|done]].
  eapply quietly_bind; [apply quietly_cached|]. intros o. apply quietly_pre. intros ->. by apply quietly_write.
Qed.

Ltac inert_tac := match goal with |- inert _ ?x => split_and!; by destruct x end.
Lemma quietly_addCooike a x v :
  quietly (cached a x) (addCooikeIncomeNum a v) (λ _, cached a (acc_addCooikeIncome v x)).
Proof. apply quietly_add; [inert_tac|done|done]. Qed.
Lemma quietly_subPoll a x :
  isDirty x = true → quietly (cached a x) (subPoll a (a_poll x)) (λ _ s, ∃ y, isDirty y = true ∧ cached a y s).
Proof.
  intros D. unfold subPoll. destruct (_ =? 0); [apply quietly_ret; eauto|].
  eapply quietly_bind; [apply quietly_cached|]. intros o. apply quietly_pre. intros ->.
  rewrite Z.ltb_irrefl. eapply quietly_conseq; [apply quietly_add with (x := x); [inert_tac|done|done]|done|].
  intros u s Hs. eexists. split; [|exact Hs]. done.
Qed.

Definition hot (a : Address) (s : State) : Prop := ∃ x, isDirty x = true ∧ cached a x s.
Lemma quietly_account_or_new a : quietly (λ _, True) (account_or_new a) (λ _, exists_at a).
Proof.
  eapply quietly_bind; [apply quietly_account|]. intros [x|]; [apply quietly_ret; by eexists|].
  eapply quietly_bind; [by apply quietly_create|]. intros u.
  eapply quietly_bind; [apply quietly_cached|]. intros o. apply quietly_ret. intros s [_ Hs]. eexists. exact Hs.
Qed.
Lemma inert_snapshot r x : inert (acc_try_new_snapshot r) x.
Proof. unfold inert, acc_try_new_snapshot. destruct (foldl _ _ _). split_and!; by destruct x. Qed.
Lemma quietly_setCookie a x :
  quietly (cached a x) (setCookieIncomeNum a 0) (λ _, exists_at a).
Proof.
  eapply quietly_bind with (R := λ _, cached a x).
  - eapply quietly_bind; [apply quietly_cached|]. intros o. apply quietly_pre. intros ->. by apply quietly_ret.
  - intros v. eapply quietly_conseq; [apply quietly_addCooike|done|]. intros u s Hs. eexists. exact Hs.
Qed.
(** The first snapshot of an account clears its votes and polls. *)
Lemma quietly_clear_votes a x b :
  isDirty x = true →
  quietly (cached a x)
    (when b (y ← reread a; write a clear_vote_data ;; subPoll a (a_poll y) ;; log (ChMinnerSnapshot a (m_vote_data y))))
    (λ _, hot a).
Proof.
  intros D. unfold when. destruct b; [|apply quietly_ret; by exists x].
  eapply quietly_bind; [apply quietly_reread|]. intros y. apply quietly_pre. intros ->.
  eapply quietly_bind; [apply quietly_write; split_and!; by destruct x|]. intros [].
  replace (a_poll x) with (a_poll (clear_vote_data x)) by by destruct x.
  eapply quietly_bind; [apply quietly_subPoll; by destruct x|]. intros [].
  apply quietly_ex. intros y. apply quietly_pre. intros Dy.
  eapply quietly_conseq; [by apply quietly_log|done|]. intros [] s Hs. by exists y.
Qed.
Lemma quietly_snapshot a n : quietly (λ _, True) (try_new_vote_snapshot a n) (λ _, exists_at a).
Proof.
  unfold try_new_vote_snapshot. cbv zeta. rewrite bool_decide_eq_false_2
    by (destruct (votingCycle_cases n) as [[_ ->]|[[_ ->]|[(_&_&->)|[_ ->]]]]; done).
  eapply quietly_bind; [apply quietly_account_or_new|]. intros []. apply quietly_ex. intros x.
  eapply quietly_bind; [apply quietly_reread|]. intros y. apply quietly_pre. intros ->.
  destruct (negb _); [apply quietly_ret; by eexists|].
  eapply quietly_bind; [apply quietly_write, inert_snapshot|]. intros [].
  eapply quietly_bind; [apply quietly_clear_votes; apply inert_snapshot|]. intros [].
  apply quietly_ex. intros y. apply quietly_pre. intros Dy.
  eapply quietly_bind; [by apply quietly_log|]. intros [].
  eapply quietly_bind; [apply quietly_reread|]. intros z. apply quietly_pre. intros ->.
  eapply quietly_bind; [by apply quietly_log|]. intros []. apply quietly_setCookie.
Qed.
Lemma quietly_credit env fee : quietly (λ _, True) (credit_author env fee) (λ _ _, True).
Proof.
  unfold credit_author. eapply quietly_bind with (R := λ _ _, True).
  - destruct (_ <=? _); [|by apply quietly_ret].
    eapply quietly_bind; [apply quietly_read|]. intros m. by apply quietly_ret.
  - intros up. eapply quietly_bind; [apply quietly_snapshot|]. intros []. apply quietly_ex. intros x.
    by eapply quietly_conseq; [apply quietly_addCooike|..].
Qed.
(** The record of a reward; it throws, without having changed anything, only when the
    account is missing and the state has no starting nonce. *)
Lemma addBlockReward_cases a n v s :
  WF s →
  match addBlockReward a n v s with
  | (Ok _, t) => quiet s t
  | (Throw _, t) => WF t ∧ s ≡ t
  | (Undef, _) => True
  | _ => False
  end.
Proof.
  intros Hs. set (tail := write a (acc_addBlockRewardRecoding (n, v)) ;; when (negb (v =? 0)) (log (ChBlockReward a (n, v)))).
  assert (∀ x, quietly (cached a x) tail (λ _ _, True)) as Hw.
  { intros x. eapply quietly_bind; [apply quietly_write; split_and!; by destruct x|]. intros []. unfold when.
    destruct (negb _); [|by apply quietly_ret].
    eapply quietly_conseq; [apply (quietly_log a (acc_addBlockRewardRecoding (n, v) x)); [done|by destruct x|done]|done|done]. }
  assert (∀ s1 x, quiet s s1 → cached a x s1 → match tail s1 with
    | (Ok _, t) => quiet s t | (Throw _, t) => WF t ∧ s ≡ t | (Undef, _) => True | _ => False end) as Hrest.
  { intros s1 x Hq Hx. specialize (Hw x s1 (quiet_WF _ _ Hq) Hx). destruct (tail s1) as [[y|e| | |] t]; try done.
    eapply quiet_trans; [done|apply Hw]. }
  unfold addBlockReward. destruct (account_reads a s Hs) as [[H1 E1] Ho].
  destruct (account a s) as [[o|e| | |] s1] eqn:Ea; cbn in H1, E1, Ho; try done;
    [|unfold mbind, ST_bind; by rewrite Ea].
  rewrite (bind_ok _ _ _ _ _ Ea). pose proof (quiet_equiv _ _ H1 E1) as Hq. destruct o as [x|].
  - rewrite (bind_ok _ _ _ tt s1) by done. by eapply Hrest.
  - destruct (requireAccountStartNonce_cases s1) as [[st Er]|[e Er]].
    + rewrite (bind_ok _ _ _ tt (created a (Account_nb st 0) s1)) by (by rewrite (bind_ok _ _ _ _ _ Er)).
      destruct (quietly_create a (Account_nb st 0) eq_refl eq_refl eq_refl s1 H1 Ho) as [Hc Hx].
      eapply Hrest; [by eapply quiet_trans|exact Hx].
    + unfold mbind, ST_bind. rewrite Er. by split.
Qed.
End Settle.

(** ** The fee *)
Section Fee.
Context `{CR : Crypto, CF : Config, ST_ : !StorageTrie, RN : Rng, CO : !AccountCodec, MA : Machine}.
Context (p : ChainParams).

(** The gas added for the type of a batch, and the fee in cookies. *)
Definition surcharge (t : Transaction) : Z := if isVoteTranction t then c_add_value (batch_type (t_data t)) else 0.
Definition fee (t : Transaction) (env : EnvInfo) : Z := (base_gas p t env + surcharge t) * t_gasPrice t.
(** The gas limit covers the base gas and no product leaves 256 bits. *)
Definition priced (t : Transaction) (env : EnvInfo) : Prop :=
  base_gas p t env <= t_gas t < M256 ∧ 0 <= t_gasPrice t ∧ (t_gas t + surcharge t) * t_gasPrice t < M256.

Lemma baseGasRequired_nonneg c data sch :
  0 <= txCreateGas sch → 0 <= txGas sch → 0 <= txDataZeroGas sch → 0 <= txDataNonZeroGas sch →
  0 <= baseGasRequired c data sch.
Proof.
  intros H1 H2 H3 H4. unfold baseGasRequired. assert (0 <= if c then txCreateGas sch else txGas sch) as H by by destruct c.
  revert H. generalize (if c then txCreateGas sch else txGas sch). induction data as [|b data IH]; intros g Hg; [done|].
  apply IH. destruct (b =? 0); lia.
Qed.
Lemma base_gas_nonneg t env : 0 <= base_gas p t env.
Proof.
  unfold base_gas, brcSchedule. repeat (case_match; [by apply baseGasRequired_nonneg|]). by apply baseGasRequired_nonneg.
Qed.
Lemma surcharge_nonneg t : 0 <= surcharge t.
Proof. unfold surcharge, c_add_value. repeat case_match; lia. Qed.

(** The fee [finalize] computes from what [execute] left. *)
Definition final_fee (t : Transaction) (env : EnvInfo) (x : Exec) : u256 :=
  if modifyReciptGasHeight <=? env_number env then m_totalGas x [-] (m_gas x [*] t_gasPrice t)
  else m_totalGas x [-] m_needRefundGas x.

(** The costs [initialize] fixed, without wrap-around. *)
Lemma initialized_costs t env from x :
  initialized p t env from x → priced t env →
  m_addCostValue x = surcharge t * t_gasPrice t ∧
  (isVoteTranction t = true ∨ modifyReciptGasHeight < env_number env →
   m_totalGas x = (t_gas t + surcharge t) * t_gasPrice t) ∧
  (isVoteTranction t = false → env_number env <= modifyReciptGasHeight → m_totalGas x = 0).
Proof.
  intros [_ _ _ Hk] ([Hb Hg]&Hp&Hm). pose proof (base_gas_nonneg t env). pose proof (surcharge_nonneg t).
  assert (0 <= surcharge t * t_gasPrice t) by nia. assert (0 <= t_gas t * t_gasPrice t) by nia.
  unfold surcharge in *. destruct (isVoteTranction t).
  - destruct Hk as [(Ha&Ht&_) _]. unfold total_cost, add_cost in *. cbn [b_gas b_gasPrice batch_env_of] in *.
    rewrite Ha, Ht, (w256_small (c_add_value _ * _)), (w256_small (t_gas t * _)), w256_small by (unfold in256; lia).
    split_and!; [done| |done]. intros _. lia.
  - destruct Hk as (Ha&_&Ht). split_and!; [lia| |].
    + intros [?|Hn]; [done|]. rewrite Ht. destruct (Z.ltb_spec modifyReciptGasHeight (env_number env)); [|lia].
      rewrite w256_small by (unfold in256; lia). lia.
    + intros _ Hn. rewrite Ht. by destruct (Z.ltb_spec modifyReciptGasHeight (env_number env)); [lia|].
Qed.

Lemma needed_refund_exact t env from x :
  initialized p t env from x → priced t env → isVoteTranction t = true ∨ modifyReciptGasHeight < env_number env →
  needed_refund t x = (t_gas t - base_gas p t env) * t_gasPrice t.
Proof.
  intros Hi Hpr Hv. destruct (initialized_costs _ _ _ _ Hi Hpr) as (Ha&Ht1&_). destruct Hpr as ([Hb Hg]&Hp&Hm).
  pose proof (base_gas_nonneg t env). pose proof (surcharge_nonneg t). unfold needed_refund.
  rewrite (ini_base _ _ _ _ _ Hi), Ha, (Ht1 Hv). u256_norm.
  replace ((t_gas t + surcharge t) * t_gasPrice t - base_gas p t env * t_gasPrice t - surcharge t * t_gasPrice t)
    with ((t_gas t - base_gas p t env) * t_gasPrice t) by lia.
  apply w256_small. unfold in256. nia.
Qed.
(** The gas that is left is what the limit leaves over the base gas. *)
Lemma executed_gas t env from x y :
  initialized p t env from x → executed t env x y → priced t env → m_gas y = t_gas t - base_gas p t env.
Proof.
  intros Hi [_ _ Egas _] Hpr. pose proof (needed_refund_exact _ _ _ _ Hi Hpr) as Hn.
  destruct Hpr as ([Hb Hg]&Hp&Hm). pose proof (base_gas_nonneg t env).
  destruct (Z.ltb_spec modifyReciptGasHeight (env_number env)).
  - destruct Egas as [Hp0 ->]. rewrite Hn by by right. by rewrite Z.div_mul.
  - rewrite Egas, (ini_base _ _ _ _ _ Hi). apply w256_small. unfold in256. lia.
Qed.
(** The fee: for a batch at every height, for a plain call at every height but one. *)
Lemma executed_fee t env from x y :
  initialized p t env from x → executed t env x y → priced t env →
  (isVoteTranction t = true ∨ env_number env ≠ modifyReciptGasHeight) → final_fee t env y = fee t env.
Proof.
  intros Hi He Hpr Hn. pose proof (executed_gas _ _ _ _ _ Hi He Hpr) as Hgas. destruct He as [Etot Eneed _ _].
  destruct (initialized_costs _ _ _ _ Hi Hpr) as (Ha&Ht1&Ht0).
  pose proof (needed_refund_exact _ _ _ _ Hi Hpr) as Hnd. pose proof Hpr as ([Hb Hg]&Hp&Hm).
  pose proof (base_gas_nonneg t env). pose proof (surcharge_nonneg t). unfold final_fee, fee. rewrite Etot, Eneed, Hgas.
  destruct (decide (isVoteTranction t = true ∨ modifyReciptGasHeight < env_number env)) as [Hv|Hv].
  - rewrite (Ht1 Hv), (Hnd Hv). destruct (_ <=? _); u256_norm; replace ((t_gas t + surcharge t) * t_gasPrice t -
      (t_gas t - base_gas p t env) * t_gasPrice t) with ((base_gas p t env + surcharge t) * t_gasPrice t) by lia;
      apply w256_small; unfold in256; nia.
  - assert (isVoteTranction t = false) as Hf by (destruct (isVoteTranction t); tauto).
    assert (surcharge t = 0) as Hc by (unfold surcharge; by rewrite Hf).
    destruct (Z.leb_spec modifyReciptGasHeight (env_number env)) as [?|_]; [exfalso; destruct Hn as [?|?]; [congruence|lia]|].
    unfold needed_refund. rewrite (ini_base _ _ _ _ _ Hi), Ha, (Ht0 Hf), Hc by lia.
    rewrite Z.mul_0_l, Z.sub_0_r, Z.add_0_r, (w256_small (base_gas p t env * t_gasPrice t)) by (unfold in256; nia).
    u256_norm. replace (0 - (0 - base_gas p t env * t_gasPrice t)) with (base_gas p t env * t_gasPrice t) by lia.
    apply w256_small. unfold in256. nia.
Qed.

(** *** [finalize] *)

(** Without code that ran there is nothing to refund. *)
Definition same_bill (x y : Exec) : Prop :=
  m_gas y = m_gas x ∧ m_totalGas y = m_totalGas x ∧ m_needRefundGas y = m_needRefundGas x ∧ m_sub y = sub_empty.
Lemma refund_nothing t env x s :
  m_sub x = sub_empty → 0 <= m_gas x <= t_gas t → t_gas t < M256 →
  refund p t env x s = (Undef, s) ∨ ∃ y, refund p t env x s = (Ok y, s) ∧ same_bill x y.
Proof.
  intros Hs Hg Ht. unfold refund. destruct (m_ext x); [|right; by exists x]. cbv zeta. unfold to_int64.
  destruct (t_gas t <=? INT64_MAX); [|by left]. destruct (m_gas x <=? INT64_MAX); [|by left]. right.
  eexists. split; [reflexivity|]. split_and!; [|done|done|].
  - cbn. rewrite Hs. cbn. rewrite Z.mul_0_r. assert (0 <= Z.quot (t_gas t - m_gas x) 2) by (apply Z.quot_pos; lia).
    rewrite Z.min_r, Z.add_0_r by lia. apply w256_small. unfold in256. lia.
  - cbn. rewrite Hs. cbn. by rewrite Z.mul_0_r.
Qed.

(** Charging the sender and crediting the producer. *)
Definition charge (from : Address) (env : EnvInfo) (v : u256) : M unit :=
  if modifyReciptGasHeight <=? env_number env then subBalance from v ;; credit_author env v
  else subBalance from v ;; addBlockReward (env_author env) (env_number env) v ;; credit_author env v.

(** What is left when it returns. *)
Definition charged (s : State) (v : u256) (t : State) : Prop :=
  WF t ∧ BRC_supply t = BRC_supply s ∧ cookie_supply t = cookie_supply s [-] v ∧ nonces_kept s t.
Lemma charged_quiet s v t u : charged s v t → quiet t u → charged s v u.
Proof. intros (_&B&C&N) [W' B' C' N']. split_and!; [done|congruence|congruence|by eapply nonces_trans]. Qed.
Lemma subBalance_charged from v s u t : WF s → subBalance from v s = (Ok u, t) → Undo s t ∧ charged s v t.
Proof.
  intros Hs E. destruct (undo_ok_subBalance from v s Hs I) as [Hu _]. rewrite E in Hu.
  destruct (subBalance_moves from v s u t Hs I E) as (HB&HC&HN).
  rewrite Z.add_0_r, w256_small in HB by apply supply_in256. split; [done|]. split_and!; try done. by eapply Undo_WF.
Qed.
Lemma credit_charged env v s t u w : charged s v t → credit_author env v t = (Ok u, w) → charged s v w.
Proof.
  intros Ht E. pose proof (quietly_credit env v t (proj1 Ht) I) as Hq. rewrite E in Hq. destruct Hq. by eapply charged_quiet.
Qed.
Lemma credit_no_throw env v t e w : WF t → credit_author env v t ≠ (Throw e, w).
Proof. intros Ht E. pose proof (quietly_credit env v t Ht I) as Hq. by rewrite E in Hq. Qed.

Lemma charge_ok from env v s u t : WF s → charge from env v s = (Ok u, t) → charged s v t.
Proof.
  intros Hs. unfold charge. destruct (_ <=? _).
  - intros (u1&s1&[_ H1]%subBalance_charged&H)%bind_inv; [|done]. by eapply credit_charged.
  - intros (u1&s1&[_ H1]%subBalance_charged&H)%bind_inv; [|done]. apply bind_inv in H as (u2&s2&E2&H).
    pose proof (addBlockReward_cases (env_author env) (env_number env) v s1 (proj1 H1)) as H2. rewrite E2 in H2.
    eapply credit_charged; [|exact H]. by eapply charged_quiet.
Qed.
Lemma charge_throw from env v s e t : WF s → charge from env v s = (Throw e, t) → Undo s t.
Proof.
  intros Hs. pose proof (undo_ok_atomic _ s (undo_ok_subBalance from v) Hs) as Hsub. unfold charge. destruct (_ <=? _).
  - intros [H|(u1&s1&[_ H1]%subBalance_charged&H)]%bind_throw_inv; [by eapply Hsub|by destruct (credit_no_throw _ _ _ _ _ (proj1 H1) H)|done].
  - intros [H|(u1&s1&[Hu H1]%subBalance_charged&H)]%bind_throw_inv; [by eapply Hsub| |done].
    pose proof (addBlockReward_cases (env_author env) (env_number env) v s1 (proj1 H1)) as H2.
    apply bind_throw_inv in H as [E2|(u2&s2&E2&H)]; rewrite E2 in H2.
    + destruct H2. eapply Undo_trans; [exact Hu|by apply Undo_equiv].
    + by destruct (credit_no_throw _ _ _ _ _ (quiet_WF _ _ H2) H).
Qed.

(** [finalize], when nothing is to be refunded. *)
Lemma finalize_shape t env x s :
  m_sub x = sub_empty → 0 <= m_gas x <= t_gas t → t_gas t < M256 → t_type t ≠ NullTransaction →
  finalize p t env x s = (Undef, s) ∨
  ∃ (b : bool) y, same_bill x y ∧
    finalize p t env x s = (from ← lift (sender t); charge from env (final_fee t env x) ;; mret (b, y)) s.
Proof.
  intros Hsub Hg Ht Hty. unfold finalize.
  destruct (refund_nothing t env x s Hsub Hg Ht) as [Ef|(y&Ef&Hy1&Hy2&Hy3&Hy4)].
  { left. unfold mbind, ST_bind. by rewrite Ef. }
  right. rewrite (bind_ok _ _ _ _ _ Ef). rewrite (bool_decide_eq_true_2 (t_type t ≠ NullTransaction)) by done.
  assert (∀ b : bool, (when b (forM (elements (selfdestructs (m_sub y))) killAccount)) = mret tt) as Hk.
  { intros []; cbn [when]; [|done]. by rewrite Hy4. }
  exists (bool_decide (m_excepted y = ENone)), y. split; [done|]. rewrite Hk. unfold when, final_fee, charge. rewrite Hy1, Hy2, Hy3.
  unfold mbind, ST_bind. destruct (lift (sender t) s) as [[from|e| | |] s1]; try done.
  destruct (modifyReciptGasHeight <=? env_number env);
    (destruct (subBalance from _ s1) as [[u|e| | |] s2]; [|done..]).
  - by destruct (credit_author env _ s2) as [[u'|e| | |] s3].
  - destruct (addBlockReward _ _ _ s2) as [[u'|e| | |] s3]; [|done..]. by destruct (credit_author env _ s3) as [[u''|e| | |] s4].
Qed.

(** *** The transaction *)

(** What the theorems ask of a transaction: it is signed, creates no contract, and is
    settled without running code. *)
Record simple (t : Transaction) (env : EnvInfo) (s : State) : Prop := {
  sm_type : t_type t ≠ NullTransaction;
  sm_call : isCreation t = false;
  sm_signed : hasZeroSignature t = false;
  sm_precompiled : isPrecompiled (t_receiveAddress t) (env_number env) = false;
  sm_kind : if isVoteTranction t then data_logged (t_data t) else codeless (t_receiveAddress t) s;
  sm_counts : ∀ from, sender t = Ok from → counts p from env }.

Lemma batch_type_logged data : data_logged data → logged_type (batch_type data) = true.
Proof.
  unfold data_logged, batch_type. intros Hd. destruct (RLP data ≫= toVector toBytes) as [[|v vals]| | | |]; try done.
  apply (Hd (v :: vals) v); [done|left].
Qed.
Lemma simple_logged t env s : simple t env s → logged_tx t.
Proof. intros H Hv. pose proof (sm_kind _ _ _ H) as Hk. by rewrite Hv in Hk. Qed.

(** [initialize] and [execute] of such a transaction. *)
Lemma started_inv enum t env s x s1 :
  WF s → simple t env s → initialize p t env enum s = (Ok x, s1) →
  Undo s s1 ∧ (BRC_supply s1 = BRC_supply s ∧ cookie_supply s1 = cookie_supply s ∧ nonces_kept s s1) ∧ ready t s1 x ∧
  ∃ from, sender t = Ok from ∧ initialized p t env from x.
Proof.
  intros Hs Hsm E. destruct (neutral_inv _ _ _ _ (neutral_initialize p t env enum (simple_logged _ _ _ Hsm)) Hs E)
    as (Hu&HB&HC&HN).
  destruct (initialize_inv p _ _ _ _ _ _ E (sm_signed _ _ _ Hsm)) as (from&n&s0&Hf&_&_&Hi).
  split_and!; [done..| |by exists from]. pose proof (sm_kind _ _ _ Hsm) as Hk. pose proof (ini_kind _ _ _ _ _ Hi) as Hki.
  unfold ready. destruct (isVoteTranction t) eqn:Hv.
  - destruct Hki as [_ (ops&->&Hne)]. split; [by apply batch_type_logged|done].
  - destruct (peek_initialize p t env enum Hv s Hs) as [_ Ep]. rewrite E in Ep. by eapply stable_codeless.
Qed.
Lemma ready_logged t s x : ready t s x → isVoteTranction t = true → logged_type (m_batch_params x).1 = true.
Proof. unfold ready. intros H Hv. rewrite Hv in H. tauto. Qed.

Lemma transact_throw fuel t env enum s e u :
  WF s → simple t env s → priced t env → transact p fuel t env enum s = (Throw e, u) → Undo s u.
Proof.
  intros Hs Hsm Hpr H. pose proof (neutral_initialize p t env enum (simple_logged _ _ _ Hsm)) as Hini.
  apply bind_throw_inv in H as [H|(x&s1&E1&H)]; [by eapply (undo_ok_atomic _ s (proj1 Hini))|].
  destruct (started_inv _ _ _ _ _ _ Hs Hsm E1) as (Hu&_&Hr&from&Hf&Hi). pose proof (Undo_WF _ _ Hu) as Hs1.
  pose proof (undo_ok_execute p fuel t env enum x (sm_call _ _ _ Hsm) (ready_logged _ _ _ Hr)) as Hex.
  apply bind_throw_inv in H as [H|([done y]&s2&E2&H)];
    [eapply Undo_trans; [exact Hu|by eapply (undo_ok_atomic _ s1 Hex)]|].
  destruct (Hex s1 Hs1 I) as [Hu2 _]. rewrite E2 in Hu2. cbn [snd] in Hu2.
  destruct (execute_inv p fuel t env enum from x s1 done y s2) as (_&->&Hexe); try done; try apply Hsm; [done|apply Hi|].
  pose proof (executed_gas _ _ _ _ _ Hi Hexe Hpr) as Hg.
  pose proof Hpr as ([Hb Hgm]&_&_). pose proof (base_gas_nonneg t env).
  rewrite (bind_ok _ _ _ y s2) in H by done.
  assert (Undo s s2) as Hu12 by by eapply Undo_trans.
  destruct (finalize_shape t env y s2) as [Ef|(b&z&_&Ef)]; [by rewrite (exe_sub _ _ _ _ Hexe), (ini_sub _ _ _ _ _ Hi)|lia|done|apply Hsm|..].
  { by rewrite Ef in H. }
  rewrite Ef in H.
  apply bind_throw_inv in H as [H|(from'&s3&[_ ->]%lift_inv&H)]; [by injection H as _ <-|].
  apply bind_throw_inv in H as [H|(u4&s4&_&H)]; [|done]. eapply Undo_trans; [exact Hu12|].
  eapply charge_throw; [by eapply Undo_WF|exact H].
Qed.

(** The effect of a transaction that succeeds: the fee leaves the circulation (it becomes
    income of the producer), BRC stay, and of all nonces the sender's alone goes up. *)
Record settled (from : Address) (v : Z) (s t : State) : Prop := {
  st_WF : WF t;
  st_BRC : BRC_supply t = BRC_supply s;
  st_cookies : cookie_supply t = cookie_supply s [-] v;
  st_nonce : ∀ x, view s from = Some x → ∃ y, view t from = Some y ∧ m_nonce y = m_nonce x [+] 1;
  st_other : ∀ b x, b ≠ from → view s b = Some x → ∃ y, view t b = Some y ∧ m_nonce y = m_nonce x }.
Lemma bumped_charged from v s t u : bumped from s t → charged t v u → settled from v s u.
Proof.
  intros [B C N O] (W&B'&C'&K). split; [done|congruence|congruence| |].
  - intros x (y&Hy&Ey)%N. apply K in Hy as (z&Hz&Ez). exists z. split; [done|congruence].
  - intros b x Hb (y&Hy&Ey)%O; [|done]. apply K in Hy as (z&Hz&Ez). exists z. split; [done|congruence].
Qed.
(** The numbers the receipt is computed from. *)
Definition billed (t : Transaction) (env : EnvInfo) (y : Exec) : Prop :=
  m_gas y = t_gas t - base_gas p t env ∧
  (isVoteTranction t = true ∨ modifyReciptGasHeight < env_number env →
   m_totalGas y = (t_gas t + surcharge t) * t_gasPrice t).

Lemma transact_ok fuel t env enum s ok y u :
  WF s → simple t env s → priced t env → isVoteTranction t = true ∨ env_number env ≠ modifyReciptGasHeight →
  transact p fuel t env enum s = (Ok (ok, y), u) →
  ∃ from, sender t = Ok from ∧ settled from (fee t env) s u ∧ billed t env y.
Proof.
  intros Hs Hsm Hpr Hn (x&s1&E1&H)%bind_inv.
  destruct (started_inv _ _ _ _ _ _ Hs Hsm E1) as (Hu&(HB&HC&HN)&Hr&from&Hf&Hi). pose proof (Undo_WF _ _ Hu) as Hs1.
  apply bind_inv in H as ([done z]&s2&E2&H).
  pose proof (undo_ok_execute p fuel t env enum x (sm_call _ _ _ Hsm) (ready_logged _ _ _ Hr)) as Hex.
  pose proof (undo_ok_WF _ _ _ _ Hex Hs1 E2) as Hs2.
  destruct (execute_inv p fuel t env enum from x s1 done z s2) as (Hb2&->&Hexe); try done; try apply Hsm; [done|apply Hi|].
  pose proof (executed_gas _ _ _ _ _ Hi Hexe Hpr) as Hg. pose proof (executed_fee _ _ _ _ _ Hi Hexe Hpr Hn) as Hfee.
  pose proof Hpr as ([Hb Hgm]&_&_). pose proof (base_gas_nonneg t env). rewrite (bind_ok _ _ _ z s2) in H by done.
  destruct (finalize_shape t env z s2) as [Ef|(b&w&(Hw1&Hw2&_&_)&Ef)];
    [by rewrite (exe_sub _ _ _ _ Hexe), (ini_sub _ _ _ _ _ Hi)|lia|done|apply Hsm|by rewrite Ef in H|].
  rewrite Ef, Hfee in H. apply bind_inv in H as (from'&s3&[Hf' ->]%lift_inv&H). rewrite Hf in Hf'. injection Hf' as <-.
  apply bind_inv in H as (u4&s4&E4&H). injection H as <- <- <-.
  exists from. split; [done|]. split.
  - eapply bumped_charged; [by eapply kept_bumped|]. by eapply charge_ok.
  - split; [by rewrite Hw1|]. rewrite Hw2, (exe_total _ _ _ _ Hexe). apply (initialized_costs _ _ _ _ Hi Hpr).
Qed.

(** After [modifyReciptGasHeight] a receipt counts the base gas and the surcharge. *)
Lemma gasUsed_billed t env y s g u :
  billed t env y → priced t env → modifyReciptGasHeight < env_number env →
  gasUsed t env y s = (Ok g, u) → g = base_gas p t env + surcharge t ∧ u = s.
Proof.
  intros [Hg Ht] ([Hb Hgm]&Hp&Hm) Hn. unfold gasUsed. rewrite (proj2 (Z.ltb_lt _ _) Hn).
  pose proof (base_gas_nonneg t env). pose proof (surcharge_nonneg t). rewrite (Ht (or_intror Hn)), Hg.
  intros (q&s1&E1&H1)%bind_inv. unfold u256_div in E1. case_bool_decide as Hz; [done|].
  injection E1 as <- <-. injection H1 as <- <-. split; [|done]. rewrite Z.div_mul by done.
  replace (t_gas t + surcharge t - (t_gas t - base_gas p t env)) with (base_gas p t env + surcharge t) by lia.
  apply w256_small. unfold in256. nia.
Qed.
End Fee.
