(* ===== verification/Sealing.v ===== *)
(** * When a node seals (libshdposseal/SHDpos.cpp, SHDposClient.cpp)

    A node asks the clock and the list of producers whether to seal ([isBlockSeal]); the time
    it writes into the header comes from [populateFromParent].  Other nodes check the author
    against that time ([check_author] of the chain).  Both sides are compared here. *)
From stdpp Require Import base gmap list.
From Stdlib Require Import ZArith Lia.
From S2P Require Import Prelude Rlp Config Interfaces Objects Account ChainState StateOps Vote BlockHeader BlockVerify Turns BlockChain Codec Transaction Executive Rollback StateProofs ExecutiveProofs Scenario.
Open Scope Z_scope.

(** ** Data *)

(** [SHDposConfigParams], as far as the sealing of blocks reads it. *)
Record SHDposConfigParams := mkSHDposConfig { cf_varlitorInterval : Z; cf_blockInterval : Z }.
(** The members of [SHDpos] that sealing uses. *)
Record SHDpos := mkSHDpos { sd_curr_varlitors : list Address; sd_next_block_time : int64; sd_last_block_time : int64 }.
(** What the client shows: the hash of the head and its header, the hash of the genesis block,
    the author of the node, and the state and the number of the block under construction. *)
Record SealView := mkView {
  sv_currBlockhash : h256; sv_genesisHash : h256; sv_currHeader : BlockHeader; sv_author : Address;
  sv_preSeal : State; sv_preSealNumber : Z }.
(** Conversion of [uint64_t] to [int64_t]. *)
Definition i64 (x : Z) : int64 := let y := u64 x in if y <? 2 ^ 63 then y else y - 2 ^ 64.

Section Sealing.
Context `{CR : Crypto, CF : Config, ST_ : !StorageTrie, RN : Rng, CO : !AccountCodec}.
Context (cf : SHDposConfigParams).
Abbreviation bi := (cf_blockInterval cf).
Abbreviation vi := (cf_varlitorInterval cf).

(** ** Operations *)

(** [SHDpos::populateFromParent]: [now] is the clock. *)
Definition dpos_populateFromParent (now : int64) (_parent h : BlockHeader) : outcome BlockHeader :=
  if bi =? 0 then Undef
  else
    let time1 := i64 (u64 now / bi * bi) in
    let time2 := i64 (u64 (h_timestamp _parent) / bi * bi + bi) in
    Ok (setTimestamp (if time2 <? time1 then time1 else time2) (populateFromParent _parent h)).

Definition checkDeadline (v : SealView) (_now : Z) : ST SHDpos bool :=
  if bi =? 0 then undef
  else
    modS (λ d,
      if sv_currBlockhash v =? sv_genesisHash v then
        if (sd_next_block_time d =? 0) && (sd_last_block_time d =? 0) then
          let last := i64 (_now / bi * bi + 1) in
          mkSHDpos (sd_curr_varlitors d) (i64 (u64 last + bi)) last
        else d
      else mkSHDpos (sd_curr_varlitors d) (sd_next_block_time d) (h_timestamp (sv_currHeader v))) ;;
    d ← getS;
    if sd_last_block_time d <=? 0 then mret false
    else if _now <? u64 (sd_next_block_time d + 50) then mret false
    else
      let next_slot := u64 (_now / bi * bi + bi) in
      let last_slot := u64 (sd_last_block_time d) / bi * bi in
      let curr_slot := u64 (last_slot + bi) in
      if (curr_slot <=? _now) || (u64 (next_slot - _now) <=? 1) then
        modS (λ d, mkSHDpos (sd_curr_varlitors d) (i64 next_slot) (sd_last_block_time d)) ;; mret true
      else mret false.

(** [SHDpos::verify_standby] through [SHDposClient::verify_standby], whose interval is 32 bits wide. *)
Definition dpos_verify_standby (v : SealView) (block_time : int64) (own_addr : Address) : outcome bool :=
  (verify_standby block_time own_addr (u32 vi) (newChangeHeight <=? sv_preSealNumber v) (sv_preSeal v)).1.
Definition CheckValidator (v : SealView) (_now : Z) : ST SHDpos bool :=
  creaters ← lift (vote_data SysVarlitorAddress (sv_preSeal v)).1;
  let varlitors := m_addr <$> creaters in
  modS (λ d, mkSHDpos varlitors (sd_next_block_time d) (sd_last_block_time d)) ;;
  if bool_decide (varlitors = []) then mret false
  else if vi =? 0 then undef
  else
    let offet := Z.to_nat ((_now / vi) mod len varlitors) in
    if bool_decide (varlitors !! offet = Some (sv_author v)) then mret true
    else if bool_decide (sv_author v ∈ varlitors) then mret false
    else
      let number := h_number (sv_currHeader v) in
      if number <=? u32 (varlitorNum * minimum_cycle) then mret false
      else if replaceMinerHeight <=? number then lift (dpos_verify_standby v (i64 (_now - _now mod vi)) (sv_author v))
      else mret false.
(** [SHDposClient::isBlockSeal]; [SHDpos::isBolckSeal] is [CheckValidator]. *)
Definition isBlockSeal (v : SealView) (_now : Z) : ST SHDpos bool :=
  ok ← checkDeadline v _now;
  if negb ok then mret false else CheckValidator v _now.

(** [working] is the header of the block under construction. *)
Definition checkPreviousBlock (now : int64) (working _ph : BlockHeader) : outcome bool :=
  if h_author _ph =? 0 then Ok true
  else if bi =? 0 then Undef
  else Ok (negb (h_timestamp working <? i64 (u64 now / bi * bi))).

(** ** Forced blocks *)

(** The counters of [Client] for the forced blocks at the dividend height. *)
Record Force := mkForce { fo_authorCount : Z; fo_beginTime : int64; fo_errorCount : Z }.
Definition MAXFORCEBLOCKAUTHOR : Z := 7.
(** [now] is the clock in seconds; nothing is returned when [at] throws [std::out_of_range]. *)
Definition isForceBlock (number : int64) (author : Address) (now : int64) (creaters : list Address) (f : Force) : option bool * Force :=
  let timeout := 600 in
  let at_ f := creaters !! Z.to_nat (fo_errorCount f) in
  let later f := mkForce (fo_authorCount f) now (u32 (fo_errorCount f + 1)) in
  if number =? dividendHeight then
    let f := if negb (fo_authorCount f =? 0) && negb (fo_beginTime f =? 0) then
               if timeout <? now - fo_beginTime f then later f else f
             else mkForce FORCEBLOCKCOUNT now (fo_errorCount f) in
    (match at_ f with None => None | Some a => Some (author =? a) end, f)
  else if fo_authorCount f =? 0 then (Some true, f)
  else match at_ f with
  | None => (None, f)
  | Some a =>
      if (author =? a) || (fo_beginTime f =? 0) then (Some true, f)
      else if (timeout <=? now - fo_beginTime f) && (fo_errorCount f <? MAXFORCEBLOCKAUTHOR) then (Some true, later f)
      else (Some false, if fo_errorCount f =? MAXFORCEBLOCKAUTHOR - 1 then mkForce (fo_authorCount f) now 0 else f)
  end.

(** ** Both sides agree *)

(** Times and intervals of this age. *)
Definition small_time (t : Z) : Prop := 0 <= t < 2 ^ 62.
Lemma u64_id x : 0 <= x < 2 ^ 64 → u64 x = x.
Proof using. intros. unfold u64. by rewrite Z.mod_small by lia. Qed.
Lemma i64_id x : 0 <= x < 2 ^ 63 → i64 x = x.
Proof using. intros. unfold i64. rewrite u64_id by lia. by rewrite (proj2 (Z.ltb_lt _ _)) by lia. Qed.
Lemma floor_bounds x n : 0 < n → 0 <= x → 0 <= x / n * n <= x ∧ x < x / n * n + n.
Proof using. intros. pose proof (Z.div_mod x n). pose proof (Z.mod_pos_bound x n). pose proof (Z.div_pos x n). nia. Qed.
(** A coarser grid does not see the rounding to a finer one. *)
Lemma floor_slot x n m : 0 < n → 0 < m → (n | m) → (x / n * n) / m = x / m.
Proof using.
  intros Hn Hm [k ->]. assert (0 < k) by nia. rewrite (Z.mul_comm k n), <-!Z.div_div, Z.div_mul by lia. done.
Qed.

(** Reading does not change what is read next. *)
Lemma votes_same s t b y y' t' : WF s → WF t → s ≡ t → (vote_data b s).1 = Ok y → vote_data b t = (Ok y', t') → y' = y.
Proof using.
  intros Hs Ht [_ Hv] R R2. apply (read_view _ _ _ _ _ _ Ht) in R2 as ->. destruct (vote_data b s) as [o u] eqn:R3. cbn [fst] in R. subst o. apply (read_view _ _ _ _ _ _ Hs) in R3 as ->.
  specialize (Hv b). destruct (view s b) as [q|], (view t b) as [q'|]; inversion Hv as [? ? [Hn _]|]; subst; [|done]. symmetry. exact (f_equal m_vote_data Hn).
Qed.
Lemma peek_ok {A} (m : M A) s x t : peek m → WF s → m s = (Ok x, t) → WF t ∧ s ≡ t.
Proof using. intros Hm Hs R. specialize (Hm s Hs). by rewrite R in Hm. Qed.
Lemma old_address_peek fork r a : peek (old_address fork r a).
Proof using. unfold old_address. destruct fork; [|apply peek_ret]. apply peek_bind; [apply peek_read|]. intros. apply peek_ret. Qed.
(** Who may stand in is listed. *)
Lemma standby_listed time a iv fork s sb : WF s → (verify_standby time a iv fork s).1 = Ok true → (vote_data SysCanlitorAddress s).1 = Ok sb → a ∈ m_addr <$> sb.
Proof using.
  intros Hs R Hsb. destruct (verify_standby time a iv fork s) as [o u] eqn:R0. cbn [fst] in R. subst o. unfold verify_standby in R0.
  apply bind_inv in R0 as (rec&s1&R1&R0). destruct (peek_ok _ _ _ _ (peek_read _ _ _) Hs R1) as [W1 E1].
  apply bind_inv in R0 as (sup&s2&R2&R0). destruct (peek_ok _ _ _ _ (peek_read _ _ _) W1 R2) as [W2 E2]. destruct (_ || _); [done|]. destruct (_ || _); [done|].
  apply bind_inv in R0 as (rep&s3&R3&R0). destruct (peek_ok _ _ _ _ (old_address_peek _ _ _) W2 R3) as [W3 E3]. destruct (rec !! _) as [t|]; [|done]. destruct (_ <=? minimum_cycle); [done|].
  apply bind_inv in R0 as (sb'&s4&R4&R0). assert (s ≡ s3) as E by (etrans; [exact E1|]; etrans; [exact E2|exact E3]). rewrite <-(votes_same s s3 _ _ _ _ Hs W3 E Hsb R4).
  case_bool_decide as Hin; [done|]. done.
Qed.
Lemma deadline_passed v now d d' : 0 < bi < 2 ^ 62 → small_time now → small_time (h_timestamp (sv_currHeader v)) → sv_currBlockhash v ≠ sv_genesisHash v →
  (now + 1) mod bi ≠ 0 → checkDeadline v now d = (Ok true, d') → h_timestamp (sv_currHeader v) / bi * bi + bi <= now.
Proof using.
  unfold small_time. intros Hb Hn Ht Hg Hlast R. unfold checkDeadline in R. rewrite (proj2 (Z.eqb_neq bi 0)), (proj2 (Z.eqb_neq _ _) Hg) in R by lia. cbv [mbind ST_bind modS getS mret ST_ret] in R. cbn [sd_last_block_time sd_next_block_time sd_curr_varlitors] in R.
  destruct (_ <=? 0); [done|]. destruct (_ <? u64 _); [done|]. pose proof (floor_bounds now bi). pose proof (floor_bounds (h_timestamp (sv_currHeader v)) bi).
  rewrite (u64_id (h_timestamp _)), (u64_id (_ / bi * bi + bi)), (u64_id (now / bi * bi + bi)), (u64_id (_ - now)) in R by lia.
  destruct (Z.leb_spec (h_timestamp (sv_currHeader v) / bi * bi + bi) now); [done|].
  destruct (Z.leb_spec (now / bi * bi + bi - now) 1); [|done]. destruct Hlast. replace (now + 1) with ((now / bi + 1) * bi) by lia. apply Z.mod_mul. lia.
Qed.
(** The block gets the beginning of the current slot as its time. *)
Lemma stamped t now now' parent h0 h : 0 < bi < 2 ^ 62 → small_time now → small_time (h_timestamp parent) → 0 <= t <= now → now' / bi = now / bi →
  h_timestamp parent / bi * bi + bi <= now → dpos_populateFromParent t parent h0 = Ok h →
  (t / bi = now / bi ∨ h_author parent ≠ 0 ∧ checkPreviousBlock now' h parent = Ok true ∧ small_time now') → h_timestamp h = now / bi * bi.
Proof using.
  unfold small_time. intros Hb Hn Hp Ht Hsame Hd R Hor. unfold dpos_populateFromParent in R. rewrite (proj2 (Z.eqb_neq bi 0)) in R by lia.
  pose proof (floor_bounds now bi). pose proof (floor_bounds t bi). pose proof (floor_bounds (h_timestamp parent) bi). rewrite !u64_id, !i64_id in R by lia.
  injection R as <-. assert (t / bi * bi <= now / bi * bi) by (apply Z.mul_le_mono_nonneg_r; [lia|by apply Z.div_le_mono; lia]).
  assert (h_timestamp parent / bi * bi + bi <= now / bi * bi) by (assert (h_timestamp parent / bi + 1 <= now / bi) by (apply Z.div_le_lower_bound; lia); nia).
  change (h_timestamp (setTimestamp ?x _)) with x in *. set (x := if _ <? _ then _ else _) in *. assert (t / bi * bi <= x <= now / bi * bi) by (unfold x; destruct (Z.ltb_spec (h_timestamp parent / bi * bi + bi) (t / bi * bi)); lia).
  destruct Hor as [Hor|(Ha&Hor&Hn')]; [rewrite Hor in *; lia|]. unfold checkPreviousBlock in Hor. rewrite (proj2 (Z.eqb_neq _ _) Ha), (proj2 (Z.eqb_neq bi 0)) in Hor by lia.
  rewrite u64_id, Hsame, i64_id in Hor by lia. injection Hor as Hor. change (h_timestamp (setTimestamp ?x _)) with x in Hor. apply negb_true_iff, Z.ltb_ge in Hor. lia.
Qed.
Lemma validator_listed (bp : BlockChainParams) v now d d' exe sb i c : bp_varlitorInterval bp = vi → 0 < bi → (bi | vi) → 0 < vi < 2 ^ 32 → small_time now → WF (sv_preSeal v) →
  (vote_data SysVarlitorAddress (sv_preSeal v)).1 = Ok exe → (vote_data SysCanlitorAddress (sv_preSeal v)).1 = Ok sb →
  (sv_author v ∉ m_addr <$> exe → bi = vi) → h_author i = sv_author v → h_number i = sv_preSealNumber v → h_extraData i ≠ [] → h_timestamp i = now / bi * bi →
  CheckValidator v now d = (Ok true, d') → check_author bp i (sv_preSeal v) exe sb c = (Ok tt, c).
Proof using.
  unfold small_time. intros Hvi Hb Hdiv Hv Hn Hw He Hsb Hst Ha Hnum Hx Ht R. unfold CheckValidator in R. rewrite He in R. cbv [mbind ST_bind lift modS mret ST_ret] in R.
  case_bool_decide as Hnil; [done|]. rewrite (proj2 (Z.eqb_neq vi 0)) in R by lia. pose proof (floor_bounds now bi Hb ltac:(lia)).
  assert (Z.to_nat ((now / vi) mod len (m_addr <$> exe)) = time_slot (h_timestamp i) (bp_varlitorInterval bp) (length exe)) as Hslot.
  { unfold time_slot. rewrite Ht, Hvi, u64_id, floor_slot, length_fmap by (done || lia). done. }
  unfold check_author, is_miner. rewrite Ha. rewrite Hslot in R. destruct (decide (sv_author v ∈ m_addr <$> exe)) as [Hin|Hin]; [rewrite (bool_decide_eq_true_2 _ Hin) in *|rewrite (bool_decide_eq_false_2 _ Hin) in *].
  - assert (is_Some (last (h_extraData i))) as [z Hz] by (by apply last_is_Some). unfold extra_back. rewrite Hz. cbv [mbind ST_bind lift].
    destruct (_ && _ && _); [done|]. rewrite (proj2 (Z.eqb_neq _ 0)) by lia. by case_bool_decide.
  - case_bool_decide as Hl; [by apply list_elem_of_lookup_2 in Hl|]. destruct (_ <=? u32 _); [done|]. destruct (replaceMinerHeight <=? _); [|done].
    injection R as R _. unfold dpos_verify_standby in R. specialize (Hst Hin). rewrite <-Hst in *.
    assert (i64 (now - now mod bi) = h_timestamp i) as Hti by (rewrite Z.mod_eq, i64_id by lia; lia). rewrite Hti in R. replace (u32 bi) with bi in R by (unfold u32; by rewrite Z.mod_small by lia).
    rewrite bool_decide_eq_true_2 by (by eapply standby_listed). cbn [negb]. rewrite Hvi, Hnum. unfold reads_state, lift, mbind, ST_bind. by rewrite R.
Qed.
End Sealing.

Section Turn.
Context `{CR : Crypto, CF : Config, ST_ : !StorageTrie, RN : Rng, CO : !AccountCodec}.

(** C12: What a node seals, others accept.  A node that [isBlockSeal] lets seal at some time (not in
    the last millisecond of a slot), for a block that was given its time by [populateFromParent]
    at that time or earlier with [checkPreviousBlock] content with it in the same slot, gets
    past the check of the author that the other nodes make, by the state the block was made from:
    both sides find the same slot, for producers whenever the slots of the producers are made
    of whole block intervals, for stand-bys when the two are equal. *)
Theorem own_blocks_are_in_turn cf bp v now t now' d d' exe sb h0 h i c :
  let bi := cf_blockInterval cf in let vi := cf_varlitorInterval cf in
  bp_varlitorInterval bp = vi → 0 < bi < 2 ^ 62 → (bi | vi) → 0 < vi < 2 ^ 32 → small_time now → 0 <= t <= now →
  small_time (h_timestamp (sv_currHeader v)) → sv_currBlockhash v ≠ sv_genesisHash v → (now + 1) mod bi ≠ 0 → WF (sv_preSeal v) →
  (vote_data SysVarlitorAddress (sv_preSeal v)).1 = Ok exe → (vote_data SysCanlitorAddress (sv_preSeal v)).1 = Ok sb →
  (sv_author v ∉ m_addr <$> exe → bi = vi) →
  isBlockSeal cf v now d = (Ok true, d') → dpos_populateFromParent cf t (sv_currHeader v) h0 = Ok h → now' / bi = now / bi →
  (t / bi = now / bi ∨ h_author (sv_currHeader v) ≠ 0 ∧ checkPreviousBlock cf now' h (sv_currHeader v) = Ok true ∧ small_time now') →
  h_timestamp i = h_timestamp h → h_author i = sv_author v → h_number i = sv_preSealNumber v → h_extraData i ≠ [] →
  check_author bp i (sv_preSeal v) exe sb c = (Ok tt, c).
Proof.
  intros bi vi Hvi Hb Hdiv Hv Hn Ht Hp Hg Hlast Hw He Hsb Hst R Hh Hsame Hor Hti Ha Hnum Hx. unfold isBlockSeal in R. apply bind_inv in R as (ok&d1&R1&R). destruct ok; [|done].
  pose proof (deadline_passed cf v now d d1 Hb Hn Hp Hg Hlast R1) as Hd. apply (validator_listed cf bp v now d1 d'); try done; try lia.
  rewrite Hti. by apply (stamped cf t now now' (sv_currHeader v) h0).
Qed.
End Turn.

(** ** Alice and Bob in turn *)
Definition two_producers : State :=
  fresh_state [(SysVarlitorAddress, (Account_ballot 0) <| m_vote_data := [mkPoll alice 3 1; mkPoll bob 2 1] |>)].
Lemma producers_WF : WF two_producers.
Proof. apply WF_fresh; [done|done|]. set_solver. Qed.
Definition header_of (number time : Z) (author : Address) : BlockHeader :=
  mkHeader 0 0 0 0 0 0 number 0 0 [1] time author 0 0 [] 0 0 (mkSig 0 0 0).
Definition head_at (time : Z) : BlockHeader := header_of 7 time carol.
Definition alices_view (time : Z) : SealView := mkView 5 4 (head_at time) alice two_producers 8.
Definition each_second : SHDposConfigParams := mkSHDposConfig 1000 1000.
Definition seal_params : BlockChainParams := mkBCParams [] true 1000 test_params (mkHeaderParams 1 0 0 0 0 0).
Definition alices_block (time : Z) : BlockHeader := header_of 8 time alice.
Definition idle_chain : Chain := mkChain (mkStore 4 [] ∅ ∅ (mkUsage ∅ ∅ []) ∅) ∅ ∅ ∅ ∅ ∅ ∅ ∅ ∅ None None 0 0 [].
(** The head is of second 11; in second 12 it is Alice's turn. *)
Lemma own_blocks_are_in_turn_small :
  check_author seal_params (alices_block 12000) two_producers [mkPoll alice 3 1; mkPoll bob 2 1] [] idle_chain = (Ok tt, idle_chain).
Proof.
  apply (own_blocks_are_in_turn each_second seal_params (alices_view 11000) 12345 11500 12400 (mkSHDpos [] 0 0) (mkSHDpos [alice; bob] 13000 11000)
    [mkPoll alice 3 1; mkPoll bob 2 1] [] header_new (setTimestamp 12000 (populateFromParent (head_at 11000) header_new)) (alices_block 12000) idle_chain).
  - reflexivity.
  - cbn. lia.
  - by exists 1.
  - cbn. lia.
  - unfold small_time. lia.
  - lia.
  - unfold small_time. cbn. lia.
  - discriminate.
  - discriminate.
  - apply producers_WF.
  - vm_compute. reflexivity.
  - vm_compute. reflexivity.
  - reflexivity.
  - vm_compute. reflexivity.
  - vm_compute. reflexivity.
  - reflexivity.
  - right. split; [discriminate|]. split; [vm_compute; reflexivity|]. unfold small_time. lia.
  - reflexivity.
  - reflexivity.
  - reflexivity.
  - discriminate.
Defined.
(** In the last millisecond of a slot the two sides may disagree: the head is of the same
    second already, Alice is asked in her second, and the block carries the next one, which is Bob's. *)
Lemma last_millisecond_is_refused :
  (isBlockSeal each_second (alices_view 12000) 12999 (mkSHDpos [] 0 0)).1 = Ok true ∧
  (∃ h, dpos_populateFromParent each_second 12999 (head_at 12000) header_new = Ok h ∧ h_timestamp h = 13000) ∧
  (check_author seal_params (alices_block 13000) two_producers [mkPoll alice 3 1; mkPoll bob 2 1] [] idle_chain).1 = Throw InvalidMinner.
Proof. split; [by vm_compute|]. split; [eexists; split; [by vm_compute|done]|by vm_compute]. Qed.
(** The index of the producer that may force a block runs past the seventh: after six failures
    and one more timeout the next question throws. *)
Lemma force_index_runs_over :
  let seven := [1; 2; 3; 4; 5; 6; 7] in
  let '(r, f) := isForceBlock (dividendHeight + 1) alice 2000 seven (mkForce 3 1000 6) in
  r = Some true ∧ (isForceBlock (dividendHeight + 1) alice 2001 seven f).1 = None.
Proof. by vm_compute. Qed.
