(* ===== verification/Transactions.v ===== *)
(** * Transactions: atomicity, fees, replay, batches

    The main theorems about a whole transaction: [Executive] initialises, executes and
    finalises it ([transact]) inside [State::executeTransaction].  Each theorem is followed
    by an instance on the small chain of [Scenario]. *)
From stdpp Require Import base gmap list.
From Stdlib Require Import ZArith Lia.
From S2P Require Import Prelude Rlp RlpProofs Config Objects Interfaces Account ChainState StateOps Exdb Operations.
From S2P Require Import Codec Transaction CodecProofs Exchange Vote Income Miner Verify Executive Scenario.
From S2P Require Import Rollback Undoable Commit Atomic Supply StateProofs ExecutiveProofs.
Open Scope Z_scope.

(** A run is determined by its outcome and the state it leaves. *)
Lemma run_eq {S A} (m : ST S A) s r : (m s).1 = r → m s = (r, (m s).2).
Proof. intros <-. by destruct (m s). Qed.
(** ... also when only the shape of the result matters. *)
Definition returns {A} (o : outcome A) : bool := match o with Ok _ => true | _ => false end.
Lemma run_ok {S A} (m : ST S A) s : returns (m s).1 = true → ∃ x, m s = (Ok x, (m s).2).
Proof. destruct (m s) as [[x|e| | |] t]; try done. by exists x. Qed.

(** ** Sample data *)
Definition alice_batch : batch_env := mkBatch alice (at_block 100) 77 10 5 5.
Definition affordable : bytes := batch_data [transfer 60; transfer 40].
Definition overdrawn : bytes := batch_data [transfer 60; transfer 60].

Lemma small_chain_WF : WF small_chain.
Proof. apply WF_fresh; [done|done|]. set_solver. Qed.
Lemma paying_chain_WF : WF paying_chain.
Proof. apply WF_fresh; [done|done|]. set_solver. Qed.

(** The types of the encodings in [data], when it is a list of byte strings. *)
Definition types_of (data : bytes) : list Z :=
  match RLP data ≫= toVector toBytes with Ok vals => get_type <$> vals | _ => [] end.
Lemma data_logged_types data : Forall (λ t, logged_type t = true) (types_of data) → data_logged data.
Proof.
  unfold data_logged, types_of. intros H vals v E Hv. rewrite E, Forall_fmap, Forall_forall in H. by apply H.
Qed.

Section Transactions.
Context `{CR : Crypto, CF : Config, ST_ : !StorageTrie, RN : Rng, CO : !AccountCodec, MA : Machine}.
Context (p : ChainParams).

(** C3: A transaction that throws a [dev::Exception] anywhere, in its checks, in its
    execution or when the fee is taken, leaves a state no reader can tell from the one
    before it, and one from which the next transaction can start.  This holds for calls of
    addresses without code and for batches of operations that log their changes
    (transfers, orders, cancellations, automatic exchanges, gas prices), which offer at least
    the base gas and a gas price with which the fee fits 256 bits ([priced]). *)
Theorem failed_transaction_leaves_no_trace fuel t env enum s ex u :
  WF s → simple p t env s → priced p t env →
  executeTransaction (transact p fuel t env enum) s = (Throw ex, u) → is_dev_exception ex = true →
  u ≡ s ∧ WF u.
Proof. intros Hs Hsm Hpr. apply executeTransaction_failed. intros e v. by eapply transact_throw. Qed.

(** C4: A transaction that succeeds leaves the totals over all accounts, free and frozen
    (matching fees included), as they were, except for its fee: cookies for the base gas
    and the surcharge of the operation, at the transaction's gas price, leave the
    circulation.  The sender's nonce goes up by one, no other account's changes.  (The kinds of
    transactions are those of [failed_transaction_leaves_no_trace], again [priced].  A plain
    call at the height [modifyReciptGasHeight] itself is left out, see
    [plain_call_at_the_fork].) *)
Theorem successful_transaction_pays_its_fee fuel t env enum s ok y u :
  WF s → simple p t env s → priced p t env →
  isVoteTranction t = true ∨ env_number env ≠ modifyReciptGasHeight →
  executeTransaction (transact p fuel t env enum) s = (Ok (ok, y), u) →
  ∃ from, sender t = Ok from ∧ settled from (fee p t env) s u.
Proof.
  intros Hs Hsm Hpr Hn E%executeTransaction_inv.
  destruct (transact_ok p fuel t env enum s ok y u) as (from&Hf&Hst&_); try done. by exists from.
Qed.

(** *** Replay *)

(** Blocks that let nonces be ahead of the account's. *)
Definition grandfathered (env : EnvInfo) : bool :=
  ((env_number env <=? 1740000) && (env_chain_id env =? 0xb)) || ((env_number env <=? 1200157) && (env_chain_id env =? 0x1)).
Lemma checkNonce_strict t env n s u :
  grandfathered env = false → (checkNonce t env executeinitialize n s).1 = Ok u → t_nonce t = n.
Proof.
  unfold grandfathered, checkNonce. intros ->. cbn [orb bool_decide decide_rel].
  destruct (Z.eqb_spec (t_nonce t) n); [done|]. by rewrite bool_decide_eq_false_2.
Qed.
Lemma verifyTransaction_cases t env : verifyTransaction p IR_Everything t env = Ok tt ∨ ∃ e, verifyTransaction p IR_Everything t env = Throw e.
Proof.
  unfold verifyTransaction, checkLowS, checkChainId. cbv zeta. repeat case_match; eauto.
Qed.
(** With another nonce than the account's a transaction is refused before anything is changed. *)
Lemma wrong_nonce_throws fuel t env s from x :
  WF s → hasZeroSignature t = false → sender t = Ok from → view s from = Some x → m_nonce x ≠ t_nonce t →
  grandfathered env = false →
  ∃ e u, transact p fuel t env executeinitialize s = (Throw e, u) ∧ Undo s u ∧ (e = InvalidNonce ∨ e = InvalidSignature).
Proof.
  intros Hs Hz Hf Hx Hn Hg. destruct (account_some from s x Hs Hx) as (s1&E1&Es&Hw1&_).
  assert (∀ y, (if hasZeroSignature t then mret y else from ← lift (sender t); nonceReq ← getNonce from;
    checkNonce t env executeinitialize nonceReq ;; checkGasPrice p t env ;;
    if isVoteTranction t then checkBatch p t env executeinitialize from y else checkCall p t env from y) s
    = (Throw InvalidNonce, s1)) as Hrest.
  { intros y. rewrite Hz, Hf. unfold checkNonce. unfold grandfathered in Hg. rewrite Hg. cbn [orb].
    rewrite (bool_decide_eq_false_2 (executeinitialize = rpcinitialize)) by done.
    unfold getNonce, read, mbind, ST_bind, lift, getS. rewrite E1. unfold mret, ST_ret.
    by rewrite (proj2 (Z.eqb_neq (t_nonce t) (m_nonce x))) by congruence. }
  assert (∃ e u, initialize p t env executeinitialize s = (Throw e, u) ∧ Undo s u ∧ (e = InvalidNonce ∨ e = InvalidSignature))
    as (e&u&E&?&?); [|exists e, u; split; [by apply bind_throw|done]].
  unfold initialize. cbv zeta. destruct (verifyTransaction_cases t env) as [->|[e ->]]; [|case_bool_decide as He].
  - exists InvalidNonce, s1. split_and!; [|by apply Undo_equiv|by left].
    rewrite (bind_ok _ _ _ (Exec_new (base_gas p t env)) s) by done. apply Hrest.
  - exists e, s. split_and!; [done|by apply Undo_refl|by right].
  - exists InvalidNonce, s1. split_and!; [|by apply Undo_equiv|by left].
    rewrite (bind_ok _ _ _ ((Exec_new (base_gas p t env)) <| m_excepted := toTransactionException e |>) s) by done.
    apply Hrest.
Qed.

(** The rules of a batch.  A batch that is read consists of the operations whose
    encodings are in the data, in order, all of the type of the batch; every type but
    transfers comes alone, and there are at most fifty transfers. *)
Theorem batch_rules e data s ty ops t :
  read_batch e data s = (Ok (ty, ops), t) →
  ∃ vals, (RLP data ≫= toVector toBytes) = Ok vals ∧ vals ≠ [] ∧
    Forall2 (λ v o, get_type v = ty ∧ parse_operation ty v = Ok o) vals ops ∧
    (ty ≠ op_brcTranscation → length ops = 1%nat) ∧ (length ops <= 50)%nat.
Proof. apply read_batch_inv. Qed.

(** C32: A batch is read as it was written: from the serialised operations of a transaction
    the node parses the same operations, in the same order. *)
Theorem batch_round_trip ops :
  Forall (λ o, op_wf o ∧ (∀ c, o ≠ OpContract c) ∧ op_field o = op_code o) ops →
  fits (Items ((λ o, rlp_bytes (serialize o)) <$> ops)) →
  (RLP (batch_data ops) ≫= toVector toBytes) = Ok (serialize <$> ops) ∧
  mapO (λ v, parse_operation (get_type v) v) (serialize <$> ops) = Ok ops.
Proof.
  intros Hw Hf. split.
  { apply batch_data_vector; [|done]. eapply Forall_impl; [exact Hw|]. by intros o (?&_). }
  apply mapO_fmap. eapply Forall_impl; [exact Hw|]. intros o (Ho&Hc&Hfc). by apply parse_serialize.
Qed.
(** *** Blocks *)

(** Batches of logged operations, whatever the state they meet. *)
Definition batch_tx (env : EnvInfo) (t : Transaction) : Prop :=
  isVoteTranction t = true ∧ (∀ s, simple p t env s) ∧ priced p t env.
Definition with_gas_used (env : EnvInfo) (used : u256) : EnvInfo :=
  mkEnv (env_number env) (env_timestamp env) (env_chain_id env) (env_author env) used (env_gasLimit env).
Lemma batch_tx_gas_used env used t : batch_tx env t → batch_tx (with_gas_used env used) t.
Proof. intros (Hv&Hs&Hp). split_and!; [done| |done]. intros s. destruct (Hs s). by split. Qed.

Lemma block_step fuel env used t s g u :
  WF s → modifyReciptGasHeight < env_number env → batch_tx env t →
  ('(_, x) ← executeTransaction (transact p fuel t (with_gas_used env used) executeinitialize);
   h ← gasUsed t (with_gas_used env used) x; mret (used [+] h)) s = (Ok g, u) →
  (∃ from, settled from (fee p t env) s u) ∧ g = used [+] (base_gas p t env + surcharge t).
Proof.
  intros Hs Hn (Hv&Hsm&Hpr)%(batch_tx_gas_used _ used) ([ok y]&s1&E%executeTransaction_inv&H)%bind_inv.
  destruct (transact_ok p fuel t (with_gas_used env used) executeinitialize s ok y s1) as (from&_&Hst&Hb); auto.
  apply bind_inv in H as (h&s2&E2&H). injection H as <- <-.
  destruct (gasUsed_billed p _ _ _ _ _ _ Hb Hpr Hn E2) as [-> ->]. split; [by exists from|done].
Qed.

(** C6: Executing the transactions of a block keeps the totals of BRC and takes the sum of
    the fees, and nothing else, from the totals of cookies; the gas the block reports is the
    sum of the base gas and the surcharges (batches after [modifyReciptGasHeight]). *)
Theorem block_takes_the_fees fuel env txs s g u :
  WF s → modifyReciptGasHeight < env_number env → Forall (batch_tx env) txs →
  executeBlockTransactions p fuel env txs s = (Ok g, u) →
  WF u ∧ BRC_supply u = BRC_supply s ∧ cookie_supply u = cookie_supply s [-] sumZ (λ t, fee p t env) txs ∧
  g = w256 (sumZ (λ t, base_gas p t env + surcharge t) txs).
Proof.
  intros Hs Hn Hall. unfold executeBlockTransactions.
  enough (∀ used, foldM _ (w256 used) txs s = (Ok g, u) →
    WF u ∧ BRC_supply u = BRC_supply s ∧ cookie_supply u = cookie_supply s [-] sumZ (λ t, fee p t env) txs ∧
    g = w256 (used + sumZ (λ t, base_gas p t env + surcharge t) txs)) as H by exact (H 0).
  revert s Hs. induction Hall as [|t txs Ht Hall IH]; intros s Hs used E.
  - injection E as <- <-. rewrite !sumZ_nil, Z.sub_0_r, Z.add_0_r, (w256_small (cookie_supply s)) by apply supply_in256. done.
  - apply bind_inv in E as (g1&s1&E1&E). apply (block_step fuel env (w256 used) t) in E1 as [[from Hst] ->]; [|done..].
    rewrite w256_add_l in E. apply IH in E as (Hw&HB&HC&->); [|apply Hst]. destruct Hst as [_ B C _ _].
    rewrite HB, HC, B, C, !sumZ_cons. u256_norm. split_and!; [done|done|f_equal; lia|f_equal; lia].
Qed.
End Transactions.

(** ** No replay *)
Section Replay.
Context `{CR : Crypto, CF : Config, ST_ : !StorageTrie, RN : Rng, MA : Machine}.
Context (p : ChainParams).

(** The state the next block starts from: the accounts are written, the state is opened at the
    new root and given the new heights. *)
Definition next_block (re : bool) (n cn : int64) (s : State) : State :=
  (setRoot (m_state (committed re s)) (committed re s)).2 <| m_block_number := n |> <| m_curr_number := cn |>.
(** An account that is there for it: alive and in range if it has to be written, and if not,
    what is stored of it can be read at the new heights. *)
Record survives (re : bool) (n cn : int64) (a : Address) (s : State) : Prop := {
  sv_written : ∀ x, m_cache s !! a = Some x → isDirty x = true → m_isAlive x = true ∧ writable s x;
  sv_stored : ∀ b x, m_state s !! a = Some b → load s b = Some x → ∃ y, load (next_block re n cn s) b = Some y ∧ m_nonce y = m_nonce x }.
(** What can come after a state, with at most [k] transactions that succeed: transactions of
    the kinds above, executed or refused, ends of blocks, and whatever else leaves the nonce
    of the account. *)
Inductive later (a : Address) (u : State) : nat → State → Prop :=
| later_here : later a u 0 u
| later_executed k v fuel t env enum r w : later a u k v → simple p t env v → priced p t env →
    isVoteTranction t = true ∨ env_number env ≠ modifyReciptGasHeight →
    executeTransaction (transact p fuel t env enum) v = (Ok r, w) → later a u (S k) w
| later_refused k v fuel t env enum e w : later a u k v → simple p t env v → priced p t env →
    executeTransaction (transact p fuel t env enum) v = (Throw e, w) → is_dev_exception e = true → later a u k w
| later_block k v re n cn : later a u k v → survives re n cn a v → later a u k (next_block re n cn v)
| later_other k v w : later a u k v → WF w → (∀ x, view v a = Some x → ∃ y, view w a = Some y ∧ m_nonce y = m_nonce x) → later a u k w.

Lemma next_block_WF re n cn s : WF (next_block re n cn s).
Proof.
  split.
  - intros a Ha. by apply elem_of_empty in Ha.
  - by intros a x Hx.
  - intros c Hc. by apply elem_of_nil in Hc.
  - intros c Hc. by apply elem_of_nil in Hc.
Qed.
Lemma load_next re n cn s x : writable s x →
  ∃ y, load (next_block re n cn s) (encode_account (m_block_number s) (committed_root x) x) = Some y ∧ m_nonce y = m_nonce x.
Proof.
  intros (Hx&Hr&Hf). unfold load, decode_account, encode_account, account_codec, account_encode.
  rewrite decode_encode_ok; [|done|done|by apply good_account]. eexists. split; [reflexivity|]. by case_match.
Qed.
Lemma next_block_nonce re n cn a s x : WF s → survives re n cn a s → view s a = Some x → m_nonce x ≠ 0 →
  ∃ y, view (next_block re n cn s) a = Some y ∧ m_nonce y = m_nonce x.
Proof.
  intros Hw [Hd Hst] Hx Hn. change (view (next_block re n cn s) a) with (commit_trie (pruned re s) !! a ≫= load (next_block re n cn s)).
  rewrite commit_trie_lookup. unfold trie_entry. assert (m_state (pruned re s) = m_state s) as -> by (by destruct re).
  assert (m_block_number (pruned re s) = m_block_number s) as -> by (by destruct re).
  assert (∀ z, trie_view s a = Some z → m_nonce z = m_nonce x → ∃ y, (m_state s !! a ≫= load (next_block re n cn s)) = Some y ∧ m_nonce y = m_nonce x) as Htr.
  { unfold trie_view. intros z Hz Ez. destruct (m_state s !! a) as [b|] eqn:Eb; [|done]. destruct (Hst b z eq_refl Hz) as (y&Hy&En). exists y. split; [done|congruence]. }
  unfold view in Hx. destruct (m_cache s !! a) as [y|] eqn:Ec.
  - injection Hx as ->. assert (m_cache (pruned re s) !! a = Some x) as ->.
    { destruct re; [|done]. cbn. rewrite lookup_fmap, Ec. cbn. unfold isEmpty. by rewrite (proj2 (Z.eqb_neq _ _) Hn), !andb_false_l, andb_false_r. }
    destruct (isDirty x) eqn:Ed.
    + destruct (Hd x eq_refl Ed) as [-> Hwr]. by apply load_next.
    + pose proof (coh_clean s Hw a x Ec Ed) as He. destruct (trie_view s a) as [z|] eqn:Ez; [|by inversion He]. apply (Htr z); [done|]. inversion He as [? ? [He' _]|]. subst. by injection He'.
  - assert (m_cache (pruned re s) !! a = None) as ->; [|by apply (Htr x)]. destruct re; [|done]. cbn. by rewrite lookup_fmap, Ec.
Qed.
Lemma later_nonce a u k v x : WF u → view u a = Some x → 0 < m_nonce x → m_nonce x + Z.of_nat k < M256 → later a u k v →
  WF v ∧ ∃ y, view v a = Some y ∧ m_nonce x <= m_nonce y <= m_nonce x + Z.of_nat k.
Proof.
  intros Hu Hx Hpos Hk Hl. induction Hl as [|k v fuel t env enum [ok e] w _ IH Hsm Hpr Hn E|k v fuel t env enum e w _ IH Hsm Hpr E He|k v re n cn _ IH Hs|k v w _ IH Hw Hsame].
  - split; [done|]. exists x. split; [done|lia].
  - destruct IH as [Hw (y&Hy&Ey)]; [lia|]. apply executeTransaction_inv in E.
    destruct (transact_ok p fuel t env enum v ok e w) as (from&_&[Hw' _ _ Hnon Hoth]&_); try done. split; [done|]. destruct (decide (a = from)) as [->|Hne].
    + destruct (Hnon y Hy) as (z&Hz&Ez). exists z. split; [done|]. rewrite Ez. unfold w256. rewrite Z.mod_small by lia. lia.
    + destruct (Hoth a y Hne Hy) as (z&Hz&Ez). exists z. split; [done|lia].
  - destruct (IH Hk) as [Hw (y&Hy&Ey)]. apply executeTransaction_failed in E as [[_ Hv] Hw']; [|intros e' v'; by eapply transact_throw|done]. split; [done|].
    specialize (Hv a). rewrite Hy in Hv. destruct (view w a) as [z|]; [|by inversion Hv]. exists z. split; [done|]. inversion Hv as [? ? [Hz _]|]. subst. injection Hz as _ Hz. lia.
  - destruct (IH Hk) as [Hw (y&Hy&Ey)]. split; [apply next_block_WF|]. destruct (next_block_nonce re n cn a v y) as (z&Hz&Ez); try done; [lia|]. exists z. split; [done|lia].
  - destruct (IH Hk) as [_ (y&Hy&Ey)]. split; [done|]. destruct (Hsame y Hy) as (z&Hz&Ez). exists z. split; [done|lia].
Qed.
Lemma executed_nonce fuel t env s r u from x : WF s → simple p t env s → priced p t env → isVoteTranction t = true ∨ env_number env ≠ modifyReciptGasHeight →
  grandfathered env = false → sender t = Ok from → view s from = Some x →
  executeTransaction (transact p fuel t env executeinitialize) s = (Ok r, u) →
  WF u ∧ ∃ z, view u from = Some z ∧ m_nonce z = t_nonce t [+] 1.
Proof.
  destruct r as [ok y]. intros Hs Hsm Hpr Hn Hg Hf Hx E%executeTransaction_inv.
  destruct (transact_ok p fuel t env executeinitialize s ok y u) as (from'&Hf'&[Hw _ _ Hnon _]&_); [done..|].
  rewrite Hf in Hf'. injection Hf' as <-. destruct (Hnon x Hx) as (z&Hz&Ez). split; [done|]. exists z. split; [done|]. rewrite Ez. f_equal. symmetry.
  apply bind_inv in E as (x0&s1&E&_). apply initialize_inv in E as (from'&n&s2&Hf'&En&Hc&_); [|apply Hsm].
  rewrite Hf in Hf'. injection Hf' as <-. apply checkNonce_strict in Hc; [|done].
  apply bind_inv in En as (s3&s4&[= <- <-]&En). apply read_view in En; [|done]. rewrite Hx in En. congruence.
Qed.

(** C5: No replay.  Once a transaction has been executed it is refused, with [InvalidNonce] (or
    for its signature, under other rules), by every later state, and the refusal changes
    nothing: after whatever sequence of further transactions (of the kinds of
    [failed_transaction_leaves_no_trace], executed or refused), ends of blocks with commit and
    reload from the trie, and other steps that leave the sender's nonce, as long as the
    sender's account is not destroyed and its nonce stays below 2^256.  (Blocks below the
    heights of [grandfathered] accept nonces that are ahead.) *)
Theorem replayed_transaction_is_refused fuel fuel' t env env' s r u from x k v :
  WF s → simple p t env s → priced p t env →
  isVoteTranction t = true ∨ env_number env ≠ modifyReciptGasHeight →
  grandfathered env = false → grandfathered env' = false → sender t = Ok from → view s from = Some x →
  executeTransaction (transact p fuel t env executeinitialize) s = (Ok r, u) →
  later from u k v → 0 <= t_nonce t → t_nonce t + 1 + Z.of_nat k < M256 →
  ∃ e w, executeTransaction (transact p fuel' t env' executeinitialize) v = (Throw e, w) ∧
         (e = InvalidNonce ∨ e = InvalidSignature) ∧ w ≡ v.
Proof.
  intros Hs Hsm Hpr Hn Hg Hg' Hf Hx E Hl H0 Hk. destruct (executed_nonce fuel t env s r u from x) as [Hu (z&Hz&Ez)]; try done.
  unfold w256 in Ez. rewrite Z.mod_small in Ez by lia. destruct (later_nonce from u k v z) as [Hv (y&Hy&Ey)]; try done; [lia..|].
  destruct (wrong_nonce_throws p fuel' t env' v from y) as (e&w&Ev&Hw&He); try done; [apply Hsm|lia|].
  destruct (Undo_rollback _ _ Hw) as (w'&Hr&Ew&_). exists e, w'. split_and!; [|done|done].
  unfold executeTransaction, savepoint, try_catch, mbind, ST_bind, getS, mret, ST_ret. rewrite Ev.
  assert (is_dev_exception e = true) as -> by by destruct He as [->| ->]. by rewrite Hr.
Qed.
End Replay.

(** ** On the small chain *)
Lemma batch_simple k data n s : data_logged data → n < INT64_MAX →
  simple test_params (mkTx VoteMassage k 0 VoteAddress 2 100000 data (Some (mkSig 1 1 0)) 1 alice) (at_block n) s.
Proof. intros Hd Hn. split; try done. intros from _. by right. Qed.
Lemma alice_batch_simple data n s :
  data_logged data → n < INT64_MAX → simple test_params (alice_sends data) (at_block n) s.
Proof. apply batch_simple. Qed.
Ltac logged := apply data_logged_types; vm_compute; by repeat constructor.
Ltac fee_bounds := split_and!; vm_compute; done.

Lemma failed_transaction_leaves_no_trace_small :
  let t := alice_sends overdrawn in
  (executeTransaction (transact test_params 10 t (at_block 100) executeinitialize) paying_chain).2 ≡ paying_chain
  ∧ WF (executeTransaction (transact test_params 10 t (at_block 100) executeinitialize) paying_chain).2.
Proof.
  apply (failed_transaction_leaves_no_trace test_params 10 (alice_sends overdrawn) (at_block 100) executeinitialize
           paying_chain NotEnoughCash).
  - apply paying_chain_WF.
  - apply alice_batch_simple; [logged|done].
  - fee_bounds.
  - apply run_eq. vm_compute. reflexivity.
  - reflexivity.
Defined.
Lemma successful_transaction_pays_its_fee_small :
  let t := alice_sends affordable in
  ∃ from, sender t = Ok from ∧
    settled from (fee test_params t (at_block 100)) paying_chain
      (executeTransaction (transact test_params 10 t (at_block 100) executeinitialize) paying_chain).2.
Proof.
  eapply (successful_transaction_pays_its_fee test_params 10 (alice_sends affordable) (at_block 100) executeinitialize
           paying_chain).
  - apply paying_chain_WF.
  - apply alice_batch_simple; [logged|done].
  - fee_bounds.
  - by left.
  - apply run_eq. vm_compute. reflexivity.
Defined.

(** Alice's transaction is executed, the block ends, and in the next one she sends another. *)
Definition alices_first : Transaction := alice_sends (batch_data [transfer 60]).
Definition alices_second : Transaction :=
  mkTx VoteMassage 2 0 VoteAddress 2 100000 (batch_data [transfer 20]) (Some (mkSig 1 1 0)) 1 alice.
Definition executes (t : Transaction) (n : int64) (s : State) : State :=
  (executeTransaction (transact test_params 10 t (at_block n) executeinitialize) s).2.
Definition after_first : State := Eval vm_compute in executes alices_first 2000000 paying_chain.
Definition second_block : State := Eval vm_compute in next_block true 101 102 after_first.
Definition after_second : State := Eval vm_compute in executes alices_second 2000001 second_block.
Ltac in_range := vm_compute; split; congruence.
Ltac no_entry := by intros ?? Hm.
Lemma alice_survives : survives true 101 102 alice after_first.
Proof.
  split.
  - intros x Hx _. vm_compute in Hx. injection Hx as <-. split; [done|]. split; [|split; [in_range|by vm_compute]].
    split.
    1-5, 7-9, 12: in_range.
    + constructor.
    + split; [constructor|done].
    + constructor.
    + split_and!; [no_entry|no_entry|no_entry|in_range|in_range].
    + split_and!; [no_entry|no_entry|in_range|in_range|no_entry|split; in_range].
    + no_entry.
    + split_and!; [no_entry|in_range|in_range].
    + split; constructor.
    + split; [constructor|]. apply (bool_decide_eq_true_1 _). by vm_compute.
    + split_and!; [in_range|in_range|done].
    + no_entry.
  - intros b x Hb Hx. vm_compute in Hb. injection Hb as <-. vm_compute in Hx. injection Hx as <-. vm_compute. eexists. split; reflexivity.
Qed.
Lemma replayed_transaction_is_refused_small :
  ∃ e w, executeTransaction (transact test_params 10 alices_first (at_block 2000001) executeinitialize) after_second = (Throw e, w)
         ∧ (e = InvalidNonce ∨ e = InvalidSignature) ∧ w ≡ after_second.
Proof.
  eapply (replayed_transaction_is_refused test_params 10 10 alices_first (at_block 2000000) (at_block 2000001)
           paying_chain _ after_first alice _ 1 after_second).
  - apply paying_chain_WF.
  - apply alice_batch_simple; [logged|done].
  - fee_bounds.
  - by left.
  - reflexivity.
  - reflexivity.
  - reflexivity.
  - vm_compute. reflexivity.
  - vm_compute. reflexivity.
  - eapply (later_executed _ _ _ 0 second_block 10 alices_second (at_block 2000001) executeinitialize).
    + change second_block with (next_block true 101 102 after_first). apply later_block; [apply later_here|apply alice_survives].
    + apply batch_simple; [logged|done].
    + fee_bounds.
    + by left.
    + vm_compute. reflexivity.
  - done.
  - done.
Defined.

Lemma block_takes_the_fees_small :
  let txs := [alice_sends (batch_data [transfer 60])] in
  let r := executeBlockTransactions test_params 10 (at_block 40000000) txs paying_chain in
  WF r.2 ∧ BRC_supply r.2 = BRC_supply paying_chain ∧
  cookie_supply r.2 = cookie_supply paying_chain [-] sumZ (λ t, fee test_params t (at_block 40000000)) txs ∧
  21348 = w256 (sumZ (λ t, base_gas test_params t (at_block 40000000) + surcharge t) txs).
Proof.
  apply (block_takes_the_fees test_params 10 (at_block 40000000) [alice_sends (batch_data [transfer 60])] paying_chain).
  - apply paying_chain_WF.
  - reflexivity.
  - constructor; [|constructor]. split_and!; [done| |fee_bounds].
    intros s. apply alice_batch_simple; [logged|done].
  - apply run_eq. vm_compute. reflexivity.
Defined.

Lemma batch_rules_small :
  ∃ vals, (RLP affordable ≫= toVector toBytes) = Ok vals ∧ vals ≠ [] ∧
    Forall2 (λ v o, get_type v = op_brcTranscation ∧ parse_operation op_brcTranscation v = Ok o) vals
      [transfer 60; transfer 40] ∧
    (op_brcTranscation ≠ op_brcTranscation → length [transfer 60; transfer 40] = 1%nat) ∧
    (length [transfer 60; transfer 40] <= 50)%nat.
Proof.
  apply (batch_rules alice_batch affordable small_chain op_brcTranscation _
           (read_batch alice_batch affordable small_chain).2).
  apply run_eq. vm_compute. reflexivity.
Defined.

Lemma batch_round_trip_small :
  (RLP affordable ≫= toVector toBytes) = Ok (serialize <$> [transfer 60; transfer 40]) ∧
  mapO (λ v, parse_operation (get_type v) v) (serialize <$> [transfer 60; transfer 40]) = Ok [transfer 60; transfer 40].
Proof.
  apply (batch_round_trip [transfer 60; transfer 40]).
  - repeat constructor; done.
  - vm_compute. reflexivity.
Defined.
