(* ===== verification/Market.v ===== *)
(** * The market: theorems about the order book

    [insert_operation] against the reference matching of [BookProofs], the invariant
    of the book, priority and limits of the fills, and cancelling. *)
From stdpp Require Import base gmap list sorting.
From Stdlib Require Import ZArith Lia.
From S2P Require Import Prelude Rlp Config Objects Interfaces Account ChainState StateOps Exdb Operations Codec.
From S2P Require Import Scenario BookProofs Exchange.
Open Scope Z_scope.

Section Market.
Context `{CR : Crypto, CF : Config, ST_ : !StorageTrie, RN : Rng, CO : !AccountCodec}.

Lemma book_at_get s l : book_at s l → getExOrder s = (Ok l, s).
Proof. intros (x&Hx&<-). unfold getExOrder. by rewrite (bind_ok _ _ _ _ _ (account_cached _ x s Hx)). Qed.

(** What a result says about the fill it comes from. *)
Lemma elem_of_results o l r :
  r ∈ results_of o l ↔
  ∃ x n, (x, n) ∈ fills (order_match o l) ∧
    r = if bool_decide (buy_type o = only_price) then limit_result o (price o) (x, n) else market_result o (x, n).
Proof.
  unfold results_of. rewrite list_elem_of_fmap. split.
  - intros ([x n]&->&H). exists x, n. split; [done|]. by case_bool_decide.
  - intros (x&n&H&->). exists (x, n). split; [|done]. by case_bool_decide.
Qed.
Lemma result_fields o x n (b : bool) :
  let r := if b then limit_result o (price o) (x, n) else market_result o (x, n) in
  r_to_trxid r = trxid x ∧ r_acceptor r = sender x ∧ r_amount r = n ∧ r_price r = price x ∧ r_sender r = sender o
  ∧ r_type r = type o.
Proof. by destruct b. Qed.
Lemma sum_results (g : result_order → Z) o l :
  sumZ g (results_of o l) =
  sumZ (λ p, g (if bool_decide (buy_type o = only_price) then limit_result o (price o) p else market_result o p))
    (fills (order_match o l)).
Proof.
  unfold results_of. induction (fills _) as [|p fl IH]; [done|]. cbn [fmap list_fmap]. rewrite !sumZ_cons. f_equal; [|done].
  by case_bool_decide.
Qed.

(** An order that was matched did not end in a part of a resting order. *)
Lemma insert_operation_ok o s l s1 r t :
  getExOrder s = (Ok l, s1) → book_ok l → incoming_ok o → insert_operation o false s = (Ok r, t) →
  buy_type o = only_price ∨ counter_side o l ≠ [] → r = results_of o l ∧ book_at t (book_after o l).
Proof.
  intros Hg [Hn Hl _] Ho E Hc. assert (¬ ends_in_part o l) as Hno.
  { intros Hp. pose proof (insert_operation_part o s l s1 Hg Hn Hl Ho Hp) as Hu. by rewrite E in Hu. }
  destruct (insert_operation_spec o s l s1 Hg Hn Hl Ho Hc Hno) as (t'&E'&Hb). rewrite E in E'. injection E' as -> ->. done.
Qed.


(** Every matched or rested order keeps the book well formed: distinct ids, positive
    amounts, values in range, and no buy order at or above the price of a sell order. *)
Theorem insert_operation_keeps_book o s l s1 :
  getExOrder s = (Ok l, s1) → book_ok l → incoming_ok o →
  buy_type o = only_price ∨ counter_side o l ≠ [] → ¬ ends_in_part o l →
  ∃ r t l', insert_operation o false s = (Ok r, t) ∧ getExOrder t = (Ok l', t) ∧ book_ok l'.
Proof.
  intros Hg Hl Ho Hc Hno. destruct (insert_operation_spec o s l s1 Hg (bk_ids _ Hl) (bk_orders _ Hl) Ho Hc Hno) as (t&E&Hb).
  exists (results_of o l), t, (book_after o l). split_and!; [done|by apply book_at_get|by apply book_after_ok].
Qed.

(** C31: Price-time priority.  Whenever an order is matched (a limit order that ends in a part
    of a resting order is not: that is undefined behaviour) and a resting order is filled, every
    resting order with a better price, or the same price and an earlier time, is filled
    completely by the same operation. *)
Theorem price_time_priority o s l s1 r t :
  getExOrder s = (Ok l, s1) → book_ok l → incoming_ok o →
  insert_operation o false s = (Ok r, t) → buy_type o = only_price ∨ counter_side o l ≠ [] →
  ∀ res, res ∈ r → ∃ x, x ∈ counter_side o l ∧ r_to_trxid res = trxid x ∧
    ∀ y, y ∈ counter_side o l → better o y x →
      ∃ res', res' ∈ r ∧ r_to_trxid res' = trxid y ∧ r_amount res' = token_amount y.
Proof.
  intros Hg Hl Ho E Hc res Hr. destruct (insert_operation_ok o s l s1 r t Hg Hl Ho E Hc) as [-> _]. destruct Hl as [Hn Hf Hu].
  apply elem_of_results in Hr as (x&n&Hx&->). destruct (order_match o l) as [[f q] rm] eqn:Hm. exists x.
  destruct (result_fields o x n (bool_decide (buy_type o = only_price))) as (H1&_). split_and!; [|done|].
  - destruct (order_match_spec o l f q rm Hf Ho Hm) as ([tl Htl]&_). rewrite Htl, !elem_of_app.
    apply elem_of_fills in Hx as [[Hx _]| ->]; [by left|right; left; left].
  - intros y Hy Hb. pose proof (priority o l f q rm x n y Hf Ho Hm Hx Hy Hb) as Hyf.
    eexists. split; [apply elem_of_results; exists y, (token_amount y); split; [rewrite Hm|reflexivity]|].
    + apply elem_of_fills. by left.
    + by destruct (result_fields o y (token_amount y) (bool_decide (buy_type o = only_price))) as (?&_&?&_).
Qed.

(** Limits.  Each fill is with a resting order of the other side, for a positive amount
    not above what that order offers, at that order's price, within the limit of a limit
    order; and the fills add up to no more than was asked for (an amount, or for a market
    buy an amount of BRC to spend). *)
Theorem fills_within_limits o s l s1 r t :
  getExOrder s = (Ok l, s1) → book_ok l → incoming_ok o →
  insert_operation o false s = (Ok r, t) → buy_type o = only_price ∨ counter_side o l ≠ [] →
  (∀ res, res ∈ r → ∃ x, x ∈ l ∧ r_to_trxid res = trxid x ∧ r_acceptor res = sender x ∧ r_price res = price x ∧
     0 < r_amount res <= token_amount x ∧ type x ≠ type o ∧
     (buy_type o = only_price → if bool_decide (type o = buy) then price x <= price o else price o <= price x)) ∧
  (if bool_decide (buy_type o = only_price) then sumZ r_amount r <= source_amount o
   else if bool_decide (type o = buy) then sumZ (λ x, r_amount x * r_price x) r <= price o
   else sumZ r_amount r <= token_amount o).
Proof.
  intros Hg Hl Ho E Hc. destruct (insert_operation_ok o s l s1 r t Hg Hl Ho E Hc) as [-> _]. destruct Hl as [Hn Hf Hu]. split.
  - intros res (x&n&Hx&->)%elem_of_results. exists x.
    destruct (result_fields o x n (bool_decide (buy_type o = only_price))) as (->&->&->&->&_&_).
    destruct (fill_within o l x n Hf Ho Hx) as (Hxl&Hn'&Hbuy&Hsell). split_and!; try (done || lia).
    + destruct Ho as (_&[H|H]&_); rewrite H in *; [destruct (Hbuy eq_refl) as [-> _]|destruct (Hsell eq_refl) as [-> _]]; done.
    + intros Hb. destruct Ho as (_&[H|H]&_); rewrite H in *; [by apply Hbuy|by apply Hsell].
  - destruct (match_conserves o l Hf Ho) as [Hr Hs]. rewrite !sum_results.
    destruct (bool_decide (buy_type o = only_price)); [|destruct (bool_decide (type o = buy))].
    + rewrite Hs. rewrite (sumZ_ext _ snd); [lia|by intros []].
    + rewrite Hs. rewrite (sumZ_ext _ (λ p, p.2 * price p.1)); [lia|by intros []].
    + rewrite Hs. rewrite (sumZ_ext _ snd); [lia|by intros []].
Qed.

(** A market order with nothing to trade against throws, and trying a market buy
    ([reset]) reports the fills the real order would get without touching the book. *)
Theorem market_order_probe o s l s1 :
  getExOrder s = (Ok l, s1) → book_ok l → incoming_ok o → buy_type o = all_price →
  (counter_side o l = [] → insert_operation o false s = (Throw all_price_operation_error, s1)) ∧
  (counter_side o l ≠ [] → type o = buy →
     insert_operation o true s = (Ok (results_of o l), s1) ∧
     ∃ t, insert_operation o false s = (Ok (results_of o l), t)).
Proof.
  intros Hg [Hn Hf _] Ho Hb. split.
  - intros Hc. by apply (insert_operation_empty o s l s1 false).
  - intros Hc Ht. split; [by apply insert_operation_try|].
    destruct (insert_operation_spec o s l s1 Hg Hn Hf Ho (or_intror Hc)) as (t&E&_); [intros [H _]; congruence|]. by exists t.
Qed.
End Market.

(** ** On the small chain *)

(** The book of the small chain as it is read from the trie, and orders that come in: Bob
    bids for 15 or for 7 at 2.5, and Carol spends 35 BRC units at any price. *)
Definition resting : list ex_order := index key_trx_id small_book.
Definition bobs_bid : ex_order := bid 20 bob 250000000 15 9.
Definition carols_order : ex_order := mkExOrder 21 carol 3500000000 0 0 9 buy FUEL all_price.
Definition read_book : State := (getExOrder small_chain).2.

Lemma read_book_eq : getExOrder small_chain = (Ok resting, read_book).
Proof. vm_compute. reflexivity. Qed.
Lemma order_ok_intro o : bool_decide (0 < token_amount o ∧ token_amount o < M256 ∧ 0 < price o ∧ price o < M256
    ∧ token_amount o * price o < M256 ∧ 0 <= create_time o ∧ create_time o <= INT64_MAX
    ∧ (type o = buy ∨ type o = sell) ∧ token_type o = FUEL) = true → order_ok o.
Proof. intros (?&?&?&?&?&?&?&?&?)%bool_decide_eq_true_1. by split. Qed.
Lemma book_ok_intro l :
  bool_decide (NoDup (trxid <$> l)) = true → Forall order_ok l →
  bool_decide (Forall (λ b, Forall (λ s, type b = buy → type s = sell → price b < price s) l) l) = true → book_ok l.
Proof.
  intros H1%bool_decide_eq_true_1 H2 H3%bool_decide_eq_true_1. split; [done..|]. intros b s Hb Hs.
  rewrite Forall_forall in H3. specialize (H3 b Hb). rewrite Forall_forall in H3. by apply H3.
Qed.
Lemma resting_ok : book_ok resting.
Proof.
  apply book_ok_intro; [by vm_compute| |by vm_compute].
  vm_compute. repeat constructor; by apply order_ok_intro; vm_compute.
Qed.
Lemma bobs_bid_ok : incoming_ok bobs_bid.
Proof. split_and!; [done|by left|]. split; [|done]. by apply order_ok_intro; vm_compute. Qed.
Lemma bobs_bid_whole : ¬ ends_in_part bobs_bid resting.
Proof. intros [_ [xn H]]. vm_compute in H. done. Qed.
Lemma carols_order_ok : incoming_ok carols_order.
Proof. split_and!; [done|by left|]. by vm_compute. Qed.

Lemma insert_operation_keeps_book_small :
  ∃ r t l', insert_operation bobs_bid false small_chain = (Ok r, t) ∧ getExOrder t = (Ok l', t) ∧ book_ok l'.
Proof.
  apply (insert_operation_keeps_book bobs_bid small_chain resting read_book);
    [apply read_book_eq|apply resting_ok|apply bobs_bid_ok|by left|apply bobs_bid_whole].
Defined.
Lemma price_time_priority_small :
  length (results_of carols_order resting) = 2%nat ∧
  (∀ res, res ∈ results_of carols_order resting → ∃ x, x ∈ counter_side carols_order resting ∧ r_to_trxid res = trxid x ∧
     ∀ y, y ∈ counter_side carols_order resting → better carols_order y x →
       ∃ res', res' ∈ results_of carols_order resting ∧ r_to_trxid res' = trxid y ∧ r_amount res' = token_amount y).
Proof.
  split; [vm_compute; reflexivity|].
  apply (price_time_priority carols_order small_chain resting read_book _ (insert_operation carols_order false small_chain).2);
    [apply read_book_eq|apply resting_ok|apply carols_order_ok| |by right].
  vm_compute. reflexivity.
Defined.
Lemma fills_within_limits_small :
  let r := results_of bobs_bid resting in
  (∀ res, res ∈ r → ∃ x, x ∈ resting ∧ r_to_trxid res = trxid x ∧ r_acceptor res = sender x ∧ r_price res = price x ∧
     0 < r_amount res <= token_amount x ∧ type x ≠ type bobs_bid ∧
     (buy_type bobs_bid = only_price → if bool_decide (type bobs_bid = buy) then price x <= price bobs_bid
                                       else price bobs_bid <= price x)) ∧
  sumZ r_amount r <= source_amount bobs_bid.
Proof.
  apply (fills_within_limits bobs_bid small_chain resting read_book _ (insert_operation bobs_bid false small_chain).2);
    [apply read_book_eq|apply resting_ok|apply bobs_bid_ok| |by left].
  vm_compute. reflexivity.
Defined.
Lemma market_order_probe_small :
  (counter_side carols_order resting = [] →
     insert_operation carols_order false small_chain = (Throw all_price_operation_error, read_book)) ∧
  (counter_side carols_order resting ≠ [] → type carols_order = buy →
     insert_operation carols_order true small_chain = (Ok (results_of carols_order resting), read_book) ∧
     ∃ t, insert_operation carols_order false small_chain = (Ok (results_of carols_order resting), t)).
Proof.
  apply (market_order_probe carols_order small_chain resting read_book);
    [apply read_book_eq|apply resting_ok|apply carols_order_ok|done].
Defined.
