(* ===== verification/Ledger.v ===== *)
(** * Postings: what an operation does to every account

    [held s h a] is what account [a] holds of [h] (free or frozen BRC, free or frozen
    cookies, ballots).  [posts P m p]: when [m] returns, every holding of every account
    has changed by what the posting [p], a list of entries, adds to it, and by nothing
    else, and the order book is as it was.  The settlement of a fill, a transfer and the release of an order are such
    postings. *)
From stdpp Require Import base gmap list.
From Stdlib Require Import ZArith Lia.
From S2P Require Import Prelude Rlp Config Objects Interfaces Account ChainState StateOps Exdb Operations Exchange.
From S2P Require Import Vote Income Miner Verify Rollback Undoable Atomic Supply BookProofs StateProofs.
Open Scope Z_scope.

Inductive holding := Free_BRC | Frozen_BRC | Free_cookies | Frozen_cookies | Ballots.
#[export] Instance holding_eq_dec : EqDecision holding.
Proof. solve_decision. Defined.

Definition amount (h : holding) (x : Account) : Z :=
  match h with
  | Free_BRC => m_BRC x | Frozen_BRC => m_FBRC x
  | Free_cookies => m_balance x | Frozen_cookies => m_FBalance x
  | Ballots => m_ballot x
  end.

(** ** Postings *)
Definition entry : Type := holding * Address * Z.
Definition net (p : list entry) (h : holding) (a : Address) : Z :=
  sumZ (λ e, if bool_decide (e.1 = (h, a)) then e.2 else 0) p.

Lemma net_app p q h a : net (p ++ q) h a = net p h a + net q h a.
Proof. apply sumZ_app. Qed.
Lemma net_one k b v h a : net [(k, b, v)] h a = if bool_decide (k = h ∧ b = a) then v else 0.
Proof.
  unfold net. rewrite sumZ_cons, sumZ_nil, Z.add_0_r. cbn. repeat case_bool_decide; naive_solver.
Qed.

Lemma if_same_zero (b : bool) : (if b then 0 else 0) = 0.
Proof. by destruct b. Qed.

Section Ledger.
Context `{CR : Crypto, CF : Config, ST_ : !StorageTrie, RN : Rng, CO : !AccountCodec}.

Definition held (s : State) (h : holding) (a : Address) : u256 :=
  match view s a with Some x => w256 (amount h x) | None => 0 end.
Lemma amount_visible h : visible (amount h).
Proof.
  intros x y [E _].
  assert (m_BRC (norm x) = m_BRC (norm y) ∧ m_FBRC (norm x) = m_FBRC (norm y) ∧ m_balance (norm x) = m_balance (norm y)
    ∧ m_FBalance (norm x) = m_FBalance (norm y) ∧ m_ballot (norm x) = m_ballot (norm y)) as H by (by rewrite E).
  by destruct h, x, y; apply H.
Qed.
#[export] Instance held_proper : Proper ((≡) ==> (=) ==> (=) ==> (=)) held.
Proof.
  intros s t [_ E] h ? <- a ? <-. unfold held. specialize (E a).
  destruct (view s a), (view t a); inversion E; [by apply amount_visible|done].
Qed.
Lemma held_in s h a : in256 (held s h a).
Proof. unfold held. case_match; [apply w256_in|]. by vm_compute. Qed.
Lemma held_known s a x h : view s a = Some x → held s h a = w256 (amount h x).
Proof. unfold held. by intros ->. Qed.

(** The order book as readers see it. *)
Definition book_view (s : State) : list ex_order :=
  match view s ExdbSystemAddress with Some x => m_exChangeOrder x | None => [] end.
#[export] Instance book_view_proper : Proper ((≡) ==> (=)) book_view.
Proof.
  intros s t [_ E]. unfold book_view. specialize (E ExdbSystemAddress).
  destruct (view s _), (view t _); inversion E as [x y [Hn _]|]; [|done]. subst. by apply (f_equal m_exChangeOrder) in Hn.
Qed.

Definition posts {A} (P : State → Prop) (m : M A) (p : list entry) : Prop :=
  ∀ s x t, WF s → P s → m s = (Ok x, t) →
    (∀ h a, held t h a = held s h a [+] net p h a) ∧ book_view t = book_view s.

(** *** Rules *)
Lemma posts_same {A} P (m : M A) : (∀ s x t, WF s → P s → m s = (Ok x, t) → s ≡ t) → posts P m [].
Proof.
  intros H s x t Hs Hp E. specialize (H s x t Hs Hp E). split; [|by rewrite <-H].
  intros h a. change (net [] h a) with 0. by rewrite <-H, Z.add_0_r, w256_small by apply held_in.
Qed.
Lemma posts_bind {A B} P (m : M A) R (k : A → M B) p q :
  undoable P m R → posts P m p → (∀ x, posts (R x) (k x) q) → posts P (m ≫= k) (p ++ q).
Proof.
  intros Hu Hm Hk s y t Hs Hp (x&s1&E1&E2)%bind_inv.
  destruct (Hu s Hs Hp) as [Hw%Undo_WF HR]. rewrite E1 in *.
  destruct (Hk x s1 y t Hw (HR x eq_refl) E2) as [H2 ->], (Hm s x s1 Hs Hp E1) as [H1 ->]. split; [|done].
  intros h a. rewrite H2, H1, net_app. u256_norm. f_equal. lia.
Qed.
Lemma posts_then {A B} (m : M A) (k : A → M B) p q :
  undo_ok m → posts (λ _, True) m p → (∀ x, posts (λ _, True) (k x) q) → posts (λ _, True) (m ≫= k) (p ++ q).
Proof. apply (posts_bind _ _ (λ _ _, True)). Qed.
Lemma posts_conseq {A} (P P' : State → Prop) (m : M A) p p' :
  posts P' m p' → (∀ s, P s → P' s) → (∀ h a, w256 (net p h a) = w256 (net p' h a)) → posts P m p.
Proof.
  intros H HP Ep s x t Hs Hp E. destruct (H s x t Hs (HP s Hp) E) as [H1 ->]. split; [|done]. intros h a.
  by rewrite H1, <-(w256_add_r _ (net p h a)), Ep, w256_add_r.
Qed.
Lemma posts_never {A} P (m : M A) p : (∀ s x t, m s ≠ (Ok x, t)) → posts P m p.
Proof. intros H s x t _ _ E. by destruct (H s x t). Qed.
Lemma posts_account P a : posts P (account a) [].
Proof. apply posts_same. intros s x t Hs _ E. pose proof (account_equiv a s Hs) as H. by rewrite E in H. Qed.
Lemma posts_ret {A} P (x : A) : posts P (mret x) [].
Proof. apply posts_same. by intros s y t _ _ [= <- <-]. Qed.
Lemma posts_pure {A} P (m : M A) : (∀ s, (m s).2 = s) → posts P m [].
Proof. intros H. apply posts_same. intros s x t _ _ E. specialize (H s). rewrite E in H. cbn in H. by subst. Qed.
Lemma posts_forM {A} (l : list A) (f : A → M unit) g :
  (∀ x, undo_ok (f x)) → (∀ x, posts (λ _, True) (f x) (g x)) → posts (λ _, True) (forM l f) (concat (g <$> l)).
Proof. intros Hu Hf. induction l as [|x l IH]; [apply posts_ret|]. by apply posts_then. Qed.

(** *** One account *)
Lemma held_edited s s1 a y t p :
  s ≡ s1 → edited a y s1 t →
  (∀ h, w256 (amount h y) = held s1 h a [+] net p h a) → (∀ h b, b ≠ a → net p h b = 0) →
  ∀ h b, held t h b = held s h b [+] net p h b.
Proof.
  intros Es [Hne Hy] Ha Hb h b. rewrite Es.
  destruct (decide (b = a)) as [->|Hba]; [by rewrite (held_known _ _ _ _ Hy)|].
  rewrite (Hb h b Hba), Z.add_0_r, w256_small by apply held_in. unfold held. by rewrite Hne.
Qed.
Lemma book_edited s s1 a y t :
  s ≡ s1 → edited a y s1 t → m_exChangeOrder y = match view s1 a with Some x => m_exChangeOrder x | None => [] end →
  book_view t = book_view s.
Proof.
  intros Es [Hne Hy] Ho. rewrite Es. unfold book_view.
  destruct (decide (ExdbSystemAddress = a)) as [<-|Hxa]; [by rewrite Hy|by rewrite Hne].
Qed.
Lemma posts_edited s s1 a y t p :
  s ≡ s1 → edited a y s1 t →
  (∀ h, w256 (amount h y) = held s1 h a [+] net p h a) → (∀ h b, b ≠ a → net p h b = 0) →
  m_exChangeOrder y = match view s1 a with Some x => m_exChangeOrder x | None => [] end →
  (∀ h b, held t h b = held s h b [+] net p h b) ∧ book_view t = book_view s.
Proof. intros. split; [by eapply held_edited|by eapply book_edited]. Qed.
(** [f] adds [v] to the holding [k] and to no other. *)
Definition adds (f : Account → Account) (k : holding) (v : Z) : Prop :=
  (∀ x h, w256 (amount h (f x)) = amount h x [+] (if bool_decide (k = h) then v else 0))
  ∧ ∀ x, m_exChangeOrder (f x) = m_exChangeOrder x.
Lemma net_at k a v h : net [(k, a, v)] h a = if bool_decide (k = h) then v else 0.
Proof. rewrite net_one. repeat case_bool_decide; naive_solver. Qed.
Lemma net_away k a v h b : b ≠ a → net [(k, a, v)] h b = 0.
Proof. intros Hne. rewrite net_one. case_bool_decide; naive_solver. Qed.

Lemma posts_add P f c k v missing :
  stable P → adds f k v →
  posts (λ s, P s ∧ absent (ch_address c) s) (missing ;; log_amount c v) [(k, ch_address c, v)] →
  posts P
    ((o ← account (ch_address c);
      match o with
      | Some x => log_touch (ch_address c) x ;; write (ch_address c) f
      | None => missing
      end) ;; log_amount c v) [(k, ch_address c, v)].
Proof.
  intros HP [Hf Hbk] Hm s u t Hs Hp E. apply add_inv in E as (s1&Es&Hw&[(x&Hx&He)|[Ha E]]); [..|done].
  - apply (posts_edited s s1 _ _ _ _ Es He); [|by intros; apply net_away|by rewrite (view_cached _ _ _ Hx), Hbk].
    intros h. rewrite Hf, net_at, (held_known _ _ _ _ (view_cached _ _ _ Hx)). by u256_norm.
  - destruct (Hm s1 u t Hw) as [H1 ->]; [split; [by eapply HP|done]|done|]. split; [|by rewrite <-Es].
    intros h a. by rewrite H1, <-Es.
Qed.

Lemma posts_create (mk : u256 → Account) c k v P :
  (∀ n h, w256 (amount h (mk n)) = w256 (if bool_decide (k = h) then v else 0)) →
  (∀ n, m_exChangeOrder (mk n) = []) →
  posts (λ s, P s ∧ absent (ch_address c) s)
    ((n ← requireAccountStartNonce; createAccount (ch_address c) (mk n)) ;; log_amount c v) [(k, ch_address c, v)].
Proof.
  intros Hk Hbk s u t Hs [_ [Hx Hv]] [n He]%create_inv.
  apply (posts_edited s s _ _ _ _ (reflexivity s) He); [|by intros; apply net_away|unfold view; by rewrite Hx, Hv].
  intros h. rewrite Hk, net_at. unfold held, view. by rewrite Hx, Hv.
Qed.

(** *** The primitives *)
Ltac adds_tac := split; [|by intros []]; intros [] []; autounfold with acc_ops; unfold amount; acct_fields; case_bool_decide; try done; u256_norm; f_equal; lia.
Ltac new_tac := intros n []; unfold amount, Account_nb, Account_nbb; acct_fields; by case_bool_decide.

Lemma addBalance_posts a v : posts (λ _, True) (addBalance a v) [(Free_cookies, a, v)].
Proof.
  apply (posts_add _ (acc_addBalance v) (ChBalance a v)); [done|adds_tac|].
  apply (posts_create (λ n, Account_nb n v) (ChBalance a v)); [|done]. new_tac.
Qed.
Lemma addBRC_posts a v : posts (λ _, True) (addBRC a v) [(Free_BRC, a, v)].
Proof.
  apply (posts_add _ (acc_addBRC v) (ChBRC a v)); [done|adds_tac|].
  apply (posts_create (λ n, Account_nbb n 0 v 0) (ChBRC a v)); [|done]. new_tac.
Qed.
Lemma addBallot_posts a v : posts (λ _, True) (addBallot a v) [(Ballots, a, v)].
Proof. apply (posts_add _ (acc_addBallot v) (ChBallot a v)); [done|adds_tac|]. by apply posts_never. Qed.

(** A frozen amount is only added to an account that exists; a missing one stays as it is. *)
Lemma posts_nothing c k v P :
  posts (λ s, (v = 0 ∨ known (ch_address c) s) ∧ absent (ch_address c) s ∧ P s) (mret tt ;; log_amount c v)
    [(k, ch_address c, v)].
Proof.
  intros s u t Hs [[Hv|Hk] [Ha _]] E; [|by destruct (absent_not_known _ _ Ha)].
  rewrite Hv in E. injection E as <- <-. split; [|done]. intros h b. rewrite Hv, net_one, (if_same_zero _), Z.add_0_r.
  by rewrite w256_small by apply held_in.
Qed.
Lemma addFBRC_posts a v : posts (λ s, v = 0 ∨ known a s) (addFBRC a v) [(Frozen_BRC, a, v)].
Proof.
  apply (posts_add _ (acc_addFBRC v) (ChFBRC a v)); [apply stable_or, stable_known|adds_tac|].
  eapply posts_conseq; [apply (posts_nothing (ChFBRC a v) Frozen_BRC v (λ _, True))|tauto|done].
Qed.
Lemma addFBalance_posts a v : posts (λ s, v = 0 ∨ known a s) (addFBalance a v) [(Frozen_cookies, a, v)].
Proof.
  apply (posts_add _ (acc_addFBalance v) (ChFBalance a v)); [apply stable_or, stable_known|adds_tac|].
  eapply posts_conseq; [apply (posts_nothing (ChFBalance a v) Frozen_cookies v (λ _, True))|tauto|done].
Qed.

Lemma net_cong k a v v' h b : w256 v = w256 v' → w256 (net [(k, a, v)] h b) = w256 (net [(k, a, v')] h b).
Proof. intros E. rewrite !net_one. by case_bool_decide. Qed.
Lemma posts_sub a v (f : Account → u256) e k (add none : M unit) :
  (∀ s x t, none s ≠ (Ok x, t)) → posts (known a) add [(k, a, 0 [-] v)] →
  posts (λ _, True)
    (if v =? 0 then mret tt
     else o ← account a;
          match o with Some x => if f x <? v then throw e else add | None => none end) [(k, a, - v)].
Proof.
  intros Hn Ha. destruct (Z.eqb_spec v 0) as [->|Hv].
  - apply (posts_conseq _ (λ _, True) _ _ []); [apply posts_ret|done|]. intros h b. by rewrite net_one, if_same_zero.
  - apply (posts_conseq _ (λ _, True) _ _ ([] ++ [(k, a, 0 [-] v)])); [|done|..].
    + eapply posts_bind; [apply undoable_account|apply posts_account|]. intros [x|]; [|by apply posts_never].
      destruct (f x <? v); [by apply posts_never|].
      eapply posts_conseq; [exact Ha|intros s; apply cached_known|done].
    + intros h b. apply net_cong. u256_norm. f_equal.
Qed.
Lemma subBalance_posts a v : posts (λ _, True) (subBalance a v) [(Free_cookies, a, - v)].
Proof. apply posts_sub; [done|]. by eapply posts_conseq; [apply addBalance_posts|..]. Qed.
Lemma subBRC_posts a v : posts (λ _, True) (subBRC a v) [(Free_BRC, a, - v)].
Proof. apply posts_sub; [done|]. by eapply posts_conseq; [apply addBRC_posts|..]. Qed.
Lemma subBallot_posts a v : posts (λ _, True) (subBallot a v) [(Ballots, a, - v)].
Proof. apply posts_sub; [done|]. by eapply posts_conseq; [apply addBallot_posts|..]. Qed.
Lemma subFBRC_posts a v : posts (λ _, True) (subFBRC a v) [(Frozen_BRC, a, - v)].
Proof. apply posts_sub; [done|]. by eapply posts_conseq; [apply addFBRC_posts|by right|]. Qed.
Lemma subFBalance_posts a v : posts (λ _, True) (subFBalance a v) [(Frozen_cookies, a, - v)].
Proof. apply posts_sub; [done|]. by eapply posts_conseq; [apply addFBalance_posts|by right|]. Qed.

Lemma freeze_BRC_posts a v :
  posts (λ _, True) (subBRC a v ;; addFBRC a v) [(Free_BRC, a, - v); (Frozen_BRC, a, v)].
Proof. eapply (posts_bind _ _ _ _ [_] [_]); [apply subBRC_undoable|apply subBRC_posts|intros u; apply addFBRC_posts]. Qed.
Lemma freeze_balance_posts a v :
  posts (λ _, True) (subBalance a v ;; addFBalance a v) [(Free_cookies, a, - v); (Frozen_cookies, a, v)].
Proof. eapply (posts_bind _ _ _ _ [_] [_]); [apply subBalance_undoable|apply subBalance_posts|intros u; apply addFBalance_posts]. Qed.
End Ledger.

Ltac posts_prim :=
  lazymatch goal with
  | |- posts _ (addBRC _ _) _ => apply addBRC_posts
  | |- posts _ (addBalance _ _) _ => apply addBalance_posts
  | |- posts _ (subBRC _ _) _ => apply subBRC_posts
  | |- posts _ (subBalance _ _) _ => apply subBalance_posts
  | |- posts _ (subFBRC _ _) _ => apply subFBRC_posts
  | |- posts _ (subFBalance _ _) _ => apply subFBalance_posts
  | |- posts _ (addBallot _ _) _ => apply addBallot_posts
  | |- posts _ (subBallot _ _) _ => apply subBallot_posts
  end.
(** A sequence of primitives: the entries in the order of the calls. *)
Ltac posts_seq :=
  repeat (lazymatch goal with |- posts _ (_ ≫= _) (?e :: ?p) => apply (posts_then _ _ [e] p); [solve [auto with undo]|posts_prim|intros ?] end);
  posts_prim.

Section Postings.
Context `{CR : Crypto, CF : Config, ST_ : !StorageTrie, RN : Rng, CO : !AccountCodec}.

Lemma transferBRC_posts a b v : posts (λ _, True) (transferBRC a b v) [(Free_BRC, a, - v); (Free_BRC, b, v)].
Proof. unfold transferBRC. posts_seq. Qed.
Lemma transferBallotBuy_posts a v :
  posts (λ _, True) (transferBallotBuy a v)
    [(Free_BRC, a, - (v [*] BALLOTPRICE)); (Free_BRC, systemAddress, v [*] BALLOTPRICE); (Ballots, a, v)].
Proof. unfold transferBallotBuy. posts_seq. Qed.
Lemma transferBallotSell_posts a v :
  posts (λ _, True) (transferBallotSell a v)
    [(Ballots, a, - v); (Free_BRC, a, v [*] BALLOTPRICE); (Free_BRC, systemAddress, - (v [*] BALLOTPRICE))].
Proof. unfold transferBallotSell. posts_seq. Qed.

(** What the settlement of a fill books: the taker [a] buys from or sells to the maker
    [b], who pays out of the frozen amount; each side pays a fee on what it gets unless
    it is the system. *)
Definition matching_fee (who : Address) (gets : u256) : u256 :=
  if bool_decide (who ≠ systemAddress) then gets / MATCHINGFEERATIO else 0.
Definition settlement (a b : Address) (num p : u256) (ty : order_type) : list entry :=
  let cost := (num [*] p) / PRICEPRECISION in
  match ty with
  | buy => [(Free_BRC, a, - cost); (Free_BRC, b, cost [-] matching_fee b cost);
            (Frozen_cookies, b, - num); (Free_cookies, a, num [-] matching_fee a num);
            (Free_BRC, PdSystemAddress, matching_fee b cost); (Free_cookies, PdSystemAddress, matching_fee a num)]
  | sell => [(Free_cookies, a, - num); (Free_cookies, b, num [-] matching_fee b num);
             (Frozen_BRC, b, - cost); (Free_BRC, a, cost [-] matching_fee a cost);
             (Free_BRC, PdSystemAddress, matching_fee a cost); (Free_cookies, PdSystemAddress, matching_fee b num)]
  | _ => []
  end.
Lemma pendingOrderTransfer_posts a b num p ty bt :
  ty = buy ∨ ty = sell → is_fill_type bt = true →
  posts (λ _, True) (pendingOrderTransfer a b num p ty FUEL bt) (settlement a b num p ty).
Proof.
  intros [-> | ->] Hb; unfold pendingOrderTransfer; cbv zeta;
    rewrite Hb, ?(bool_decide_eq_false_2 (sell = buy)) by done;
    rewrite ?(bool_decide_eq_true_2 (buy = buy)), ?(bool_decide_eq_true_2 (sell = sell)),
      ?(bool_decide_eq_true_2 (FUEL = FUEL)) by done; cbn [andb settlement]; posts_seq.
Qed.

(** What the release of a cancelled order books. *)
Definition release_entries (o : order) : list entry :=
  let cost := ((o_price_token o).2 [*] (o_price_token o).1) / PRICEPRECISION in
  match o_type o with
  | buy => [(Frozen_BRC, o_sender o, - cost); (Free_BRC, o_sender o, cost)]
  | sell => [(Frozen_cookies, o_sender o, - (o_price_token o).2); (Free_cookies, o_sender o, (o_price_token o).2)]
  | _ => []
  end.
Lemma release_posts o : o_type o = buy ∨ o_type o = sell → o_token_type o = FUEL →
  posts (λ _, True) (release o) (release_entries o).
Proof.
  intros [E|E] Ht; unfold release, release_entries; cbv zeta;
    rewrite E, Ht, ?(bool_decide_eq_false_2 (sell = buy)) by done;
    rewrite ?(bool_decide_eq_true_2 (buy = buy)), ?(bool_decide_eq_true_2 (sell = sell)),
      ?(bool_decide_eq_true_2 (FUEL = FUEL)) by done; cbn [andb]; posts_seq.
Qed.

(** ** Taking an order out of the book *)
Lemma getExOrder_posts : posts (λ _, True) getExOrder [].
Proof.
  apply (posts_bind _ _ _ _ [] [] (undoable_account _ _) (posts_account _ _)). intros [x|]; [apply posts_ret|].
  apply (posts_bind _ _ (λ _ _, True) _ [] []).
  - by apply undo_ok_createExdb.
  - intros s u t Hs [Hx Hv] [= <- <-].
    eapply (posts_edited s s); [done|apply edited_created| |done|unfold view; by rewrite Hx, Hv].
    intros h. unfold held, view. rewrite Hx, Hv. by destruct h.
  - intros u. apply (posts_bind _ _ (λ _ _, True) _ [] []); [apply undo_ok_deref| |intros; apply posts_ret].
    apply (posts_bind _ _ _ _ [] [] (undoable_account _ _) (posts_account _ _)).
    intros [x|]; [apply posts_ret|by apply posts_never].
Qed.
Lemma getExOrder_view s l t : WF s → getExOrder s = (Ok l, t) → l = book_view s.
Proof.
  intros Hs E. destruct (getExOrder_posts s l t Hs I E) as [_ <-].
  apply getExOrder_book in E as (x&Hx&<-). unfold book_view. by rewrite (view_cached _ _ _ Hx).
Qed.

Lemma removeExchangeOrder_view id s u t :
  WF s → remove_exchangeOrder id s = (Ok u, t) →
  ∃ x, multi_find id (book_view s) = Some x ∧ book_view t = multi_erase (trxid x) (book_view s)
    ∧ ∀ h a, held t h a = held s h a.
Proof.
  intros Hs (o&s1&E1&E)%bind_inv. pose proof (account_equiv ExdbSystemAddress s Hs) as Es.
  destruct (account_spec ExdbSystemAddress s Hs) as [_ Ho]. rewrite E1 in *. cbn in Es, Ho.
  destruct o as [y|]; [|done]. unfold removeExOrderMulti in E.
  assert (book_view s = m_exChangeOrder y) as Hb by (rewrite Es; unfold book_view; by rewrite (view_cached _ _ _ Ho)).
  rewrite Hb. destruct (multi_find id (m_exChangeOrder y)) as [x|].
  - rewrite (bind_ok _ _ _ _ _ (write_eq _ _ y s1 Ho)) in E.
    set (y' := changed (y <| m_exChangeOrder ::= multi_erase (trxid x) |>)) in E. injection E as _ E.
    assert (edited ExdbSystemAddress y' s1 t) as He by (rewrite <-E; apply edited_logc, edited_put).
    exists x. split; [done|]. split.
    + destruct He as [_ He]. unfold book_view. by rewrite He; destruct y.
    + intros h a. rewrite (held_edited s s1 _ _ _ [] Es He); [|intros k|done].
      * change (net [] h a) with 0. by rewrite Z.add_0_r, w256_small by apply held_in.
      * change (net [] k ExdbSystemAddress) with 0. rewrite (held_known _ _ _ _ (view_cached _ _ _ Ho)), Z.add_0_r, w256_idem.
        by destruct y, k.
  - rewrite (bind_ok _ _ _ _ _ (write_eq _ _ y s1 Ho)) in E. done.
Qed.

(** The order [cancel_order_by_trxid] hands back. *)
Definition cancelled (x : ex_order) : order :=
  mkOrder (trxid x) (sender x) only_price (token_type x) (type x) (price x, token_amount x) (create_time x).
Lemma cancel_view id s o t :
  WF s → cancel_order_by_trxid id s = (Ok o, t) →
  WF t ∧ ∃ x, multi_find id (book_view s) = Some x ∧ o = cancelled x
    ∧ book_view t = multi_erase (trxid x) (book_view s) ∧ ∀ h a, held t h a = held s h a.
Proof.
  intros Hs H. split; [eapply undo_ok_WF; [|exact Hs|exact H]; unfold cancel_order_by_trxid, remove_exchangeOrder; undo_tac|].
  apply bind_inv in H as (l&s1&E1&E). pose proof (getExOrder_view _ _ _ Hs E1) as ->.
  destruct (getExOrder_posts s _ s1 Hs I E1) as [Hh Hb].
  assert (WF s1) as Hs1 by (eapply undo_ok_WF; [apply undo_ok_getExOrder|exact Hs|exact E1]).
  destruct (multi_find id (book_view s)) as [x|] eqn:Hf; [|done].
  apply bind_inv in E as (u&s2&E2&[= <- <-]). exists x. split; [done|]. split; [done|].
  apply removeExchangeOrder_view in E2 as (y&Hy&Hbt&Hht); [|done]. rewrite Hb in *.
  assert (trxid y = trxid x) as Hyx; [|rewrite <-Hyx; split; [done|]].
  - by apply multi_find_Some in Hy as [_ Hy].
  - intros h a. rewrite Hht, Hh. change (net [] h a) with 0. by rewrite Z.add_0_r, w256_small by apply held_in.
Qed.
Lemma release_keeps_book o s t : WF s → release o s = (Ok tt, t) → book_view t = book_view s.
Proof.
  intros Hs E. destruct (decide ((o_type o = buy ∨ o_type o = sell) ∧ o_token_type o = FUEL)) as [[Hty Htk]|Hno].
  - by destruct (release_posts o Hty Htk s tt t Hs I E).
  - unfold release in E. cbv zeta in E. destruct (bool_decide (o_type o = buy)) eqn:E1,
      (bool_decide (o_type o = sell)) eqn:E2, (bool_decide (o_token_type o = FUEL)) eqn:E3; cbn [andb] in E;
      rewrite ?bool_decide_eq_true in *; (by injection E as <-) || naive_solver.
Qed.
Lemma cancel_one_inv c s t :
  cancelPendingOrders [OpCancelPendingOrder c] s = (Ok tt, t) →
  ∃ o s1, cancel_order_by_trxid (m_hash c) s = (Ok o, s1) ∧ release o s1 = (Ok tt, t).
Proof.
  intros (v&s0&[= <- <-]&H)%bind_inv. cbn [forM app] in H. apply bind_inv in H as (u&s2&H&[= <-]).
  apply bind_inv in H as (o&s1&E1&E2). exists o, s1. split; [|by destruct u].
  unfold try_catch in E1. destruct (cancel_order_by_trxid (m_hash c) s) as [[y|e| | |] z]; try done.
  by destruct (is_dev_exception e).
Qed.
End Postings.
