(* ===== verification/Payments.v ===== *)
(** * Payments: what transfers, fills, cancellations and ballots do to every account *)
From stdpp Require Import base gmap list.
From Stdlib Require Import ZArith Lia.
From S2P Require Import Prelude Rlp Config Objects Interfaces Account ChainState StateOps Exdb Operations Codec.
From S2P Require Import Scenario BookProofs Exchange Vote Income Miner Verify Rollback Undoable Atomic Supply StateProofs.
From S2P Require Import Transactions Market Ledger.
Open Scope Z_scope.

Section Payments.
Context `{CR : Crypto, CF : Config, ST_ : !StorageTrie, RN : Rng, CO : !AccountCodec}.

(** C34: The settlement of a fill is double-entry.  When [pendingOrderTransfer] returns, the
    taker has paid the price and got the goods less the matching fee, the maker has been
    paid less the matching fee out of the frozen amount, the fee account has both fees, and
    no other holding of any account has changed; nor has the order book. *)
Theorem settlement_is_double_entry a b num p ty bt s t :
  WF s → ty = buy ∨ ty = sell → is_fill_type bt = true →
  pendingOrderTransfer a b num p ty FUEL bt s = (Ok tt, t) →
  (∀ h c, held t h c = held s h c [+] net (settlement a b num p ty) h c) ∧ book_view t = book_view s.
Proof. intros Hs Hty Hb. by apply pendingOrderTransfer_posts. Qed.

(** A transfer between two accounts on every branch: with enough BRC it returns and moves
    exactly the amount; with too little it throws [NotEnoughCash] and changes nothing a
    reader can see. *)
Theorem transferBRC_branches a b v s x y :
  WF s → a ≠ b → view s a = Some x → view s b = Some y → in256 (m_BRC x) → 0 < v →
  0 <= m_BRC y → m_BRC y + v < M256 →
  (v <= m_BRC x → ∃ t, transferBRC a b v s = (Ok tt, t) ∧ BRC_at t a = m_BRC x - v ∧ BRC_at t b = m_BRC y + v ∧
     ∀ c, c ≠ a → c ≠ b → view t c ≡ view s c) ∧
  (m_BRC x < v → ∃ t, transferBRC a b v s = (Throw NotEnoughCash, t) ∧ s ≡ t).
Proof.
  intros Hs Hab Hx Hy Hr Hv Hy0 Hy1. split; intros Hle.
  - apply (transferBRC_ok a b v s x y); (done || lia).
  - destruct (subBRC_short a v s x Hs Hx Hle) as (t&E&Et); [lia|]. exists t. split; [|done].
    unfold transferBRC, mbind, ST_bind. by rewrite E.
Qed.

(** What a batch of transfers from [a] books. *)
Definition transfer_entries (a : Address) (op : operation) : list entry :=
  match op with
  | OpTranscation p => [(Free_BRC, a, - m_Transcation_numbers p); (Free_BRC, to_to p, m_Transcation_numbers p)]
  | _ => []
  end.
(** A batch of transfers that returns has moved exactly the listed amounts from the sender
    to the recipients, and no other holding has changed. *)
Theorem transfers_move_the_listed_amounts a ops s t :
  WF s → execute_transfer_BRCs a ops s = (Ok tt, t) →
  (∀ h c, held t h c = held s h c [+] net (concat (transfer_entries a <$> ops)) h c) ∧ book_view t = book_view s.
Proof.
  intros Hs. apply (posts_forM ops _ (transfer_entries a)); [|..|done|done].
  - intros op. unfold transferBRC. undo_tac.
  - intros []; try by apply posts_never. exact (transferBRC_posts a (to_to o) (m_Transcation_numbers o)).
Qed.

(** Cancelling an order that is in the book takes exactly that order out and gives its
    escrow back to its sender: the frozen BRC of a buy order (its remaining amount at its
    price) or the frozen cookies of a sell order become free, and nothing else changes.  An
    order that is not in the book is refused. *)
Theorem cancel_returns_the_escrow c s :
  WF s →
  (∀ t, cancelPendingOrders [OpCancelPendingOrder c] s = (Ok tt, t) →
     ∃ x, multi_find (m_hash c) (book_view s) = Some x ∧ book_view t = multi_erase (trxid x) (book_view s) ∧
       (type x = buy ∨ type x = sell → token_type x = FUEL →
        ∀ h a, held t h a = held s h a [+] net (release_entries (cancelled x)) h a)) ∧
  (∀ s1, multi_find (m_hash c) (book_view s) = None → getExOrder s = (Ok (book_view s), s1) →
     cancelPendingOrders [OpCancelPendingOrder c] s = (Throw CancelPendingOrderFiled, s1)).
Proof.
  intros Hs. split.
  - intros t H. destruct (cancel_one_inv c s t H) as (o&s1&E1&E2).
    destruct (cancel_view _ _ _ _ Hs E1) as (Hs1&x&Hf&->&Hb&Hh). exists x. split; [done|].
    rewrite (release_keeps_book (cancelled x) s1 t Hs1 E2). split; [done|].
    intros Hty Htk h a. destruct (release_posts (cancelled x) Hty Htk s1 tt t Hs1 I E2) as [-> _]. by rewrite Hh.
  - intros s1 Hf Hg. assert (cancel_order_by_trxid (m_hash c) s = (Throw find_order_trxid_error, s1)) as E.
    { unfold cancel_order_by_trxid. rewrite (bind_ok _ _ _ _ _ Hg). by rewrite Hf. }
    unfold cancelPendingOrders. rewrite (bind_ok _ _ s [m_hash c] s eq_refl). cbn [forM].
    unfold try_catch, mbind, ST_bind. by rewrite E.
Qed.

(** Buying and selling ballots move BRC between the account and the system account at the
    ballot price (a 256-bit product), and add or remove exactly the ballots. *)
Theorem ballot_trade_is_double_entry a v s t :
  WF s →
  (transferBallotBuy a v s = (Ok tt, t) →
   ∀ h c, held t h c = held s h c [+] net [(Free_BRC, a, - (v [*] BALLOTPRICE));
     (Free_BRC, systemAddress, v [*] BALLOTPRICE); (Ballots, a, v)] h c) ∧
  (transferBallotSell a v s = (Ok tt, t) →
   ∀ h c, held t h c = held s h c [+] net [(Ballots, a, - v); (Free_BRC, a, v [*] BALLOTPRICE);
     (Free_BRC, systemAddress, - (v [*] BALLOTPRICE))] h c).
Proof.
  intros Hs. split; intros E.
  - by apply (transferBallotBuy_posts a v s tt t Hs I E).
  - by apply (transferBallotSell_posts a v s tt t Hs I E).
Qed.
End Payments.

(** ** On the small chain *)
Definition account_in (s : State) (a : Address) : Account := default Account_dead (view s a).

Lemma settlement_is_double_entry_small :
  let t := (pendingOrderTransfer bob carol 10 200000000 buy FUEL only_price small_chain).2 in
  (∀ h c, held t h c = held small_chain h c [+] net (settlement bob carol 10 200000000 buy) h c)
  ∧ book_view t = book_view small_chain.
Proof.
  apply (settlement_is_double_entry bob carol 10 200000000 buy only_price small_chain).
  - apply small_chain_WF.
  - by left.
  - reflexivity.
  - apply run_eq. vm_compute. reflexivity.
Defined.

Lemma transferBRC_branches_small :
  ∃ t, transferBRC alice bob 60 small_chain = (Ok tt, t) ∧ BRC_at t alice = 100 - 60 ∧ BRC_at t bob = 50 + 60 ∧
    ∀ c, c ≠ alice → c ≠ bob → view t c ≡ view small_chain c.
Proof.
  apply (transferBRC_branches alice bob 60 small_chain (account_in small_chain alice) (account_in small_chain bob)).
  - apply small_chain_WF.
  - done.
  - vm_compute. reflexivity.
  - vm_compute. reflexivity.
  - vm_compute. split; congruence.
  - lia.
  - vm_compute. congruence.
  - vm_compute. reflexivity.
  - vm_compute. congruence.
Defined.

Lemma transfers_move_the_listed_amounts_small :
  let ops := [transfer 60; transfer 40] in
  let t := (execute_transfer_BRCs alice ops small_chain).2 in
  (∀ h c, held t h c = held small_chain h c [+] net (concat (transfer_entries alice <$> ops)) h c)
  ∧ book_view t = book_view small_chain.
Proof.
  apply (transfers_move_the_listed_amounts alice [transfer 60; transfer 40] small_chain).
  - apply small_chain_WF.
  - apply run_eq. vm_compute. reflexivity.
Defined.

(** Bob cancels his bid. *)
Definition bobs_cancel : cancelPendingorder_operation := mkCancelOp op_cancelPendingOrder 0 13.
Lemma cancel_returns_the_escrow_small :
  let t := (cancelPendingOrders [OpCancelPendingOrder bobs_cancel] small_chain).2 in
  ∃ x, multi_find 13 (book_view small_chain) = Some x ∧ book_view t = multi_erase (trxid x) (book_view small_chain) ∧
    (type x = buy ∨ type x = sell → token_type x = FUEL →
     ∀ h a, held t h a = held small_chain h a [+] net (release_entries (cancelled x)) h a).
Proof.
  apply (cancel_returns_the_escrow bobs_cancel small_chain small_chain_WF). apply run_eq. vm_compute. reflexivity.
Defined.

Lemma ballot_trade_is_double_entry_small :
  let s := fresh_state [(alice, holder 3000000000 0 0 0); (systemAddress, holder 0 0 0 0)] in
  let t := (transferBallotBuy alice 2 s).2 in
  held t Ballots alice = 2 ∧
  (∀ h c, held t h c = held s h c [+] net [(Free_BRC, alice, - (2 [*] BALLOTPRICE));
     (Free_BRC, systemAddress, 2 [*] BALLOTPRICE); (Ballots, alice, 2)] h c).
Proof.
  split; [vm_compute; reflexivity|].
  apply (ballot_trade_is_double_entry alice 2
           (fresh_state [(alice, holder 3000000000 0 0 0); (systemAddress, holder 0 0 0 0)])).
  - apply WF_fresh; [done|done|]. set_solver.
  - apply run_eq. vm_compute. reflexivity.
Defined.
