(* ===== verification/Persistence.v ===== *)
(** * Persistence: what is written is what is read back

    The RLP format, transactions, the encoding of an account and the commit of the state. *)
From stdpp Require Import base gmap list.
From Stdlib Require Import ZArith Lia.
From S2P Require Import Prelude Rlp RlpProofs Config Objects Interfaces Account ChainState StateOps Operations.
From S2P Require Import Codec Transaction Scenario CodecProofs TransactionProofs Rollback Commit.
Open Scope Z_scope.

(** [RLPStream] writes the RLP format: the calls that append an item (strings with [append],
    lists with [appendList] followed by their items, headers inserted when a list closes) to an
    empty stream leave exactly the item's encoding, and every list is closed. *)
Theorem stream_writes_the_format x :
  item_ok x → (append_item x stream_empty ≫= out) = Ok (encode x).
Proof. apply append_item_out. Qed.

(** [RLP] reads the format back: an encoding is accepted as it is, is recognised as a list
    or a string, a string gives its bytes, a list gives the encodings of its items in order,
    by iteration as by index. *)
Theorem encoding_is_read_back x :
  item_ok x →
  RLP (encode x) = Ok (encode x) ∧ isList (encode x) = is_items x ∧
  match x with
  | Data b => toBytes (encode x) = Ok b
  | Items l => rlp_list (encode x) = Ok (encode <$> l) ∧ itemCount (encode x) = Ok (len l)
               ∧ ∀ i y, l !! i = Some y → item (encode x) i = Ok (encode y)
  end.
Proof.
  intros Hx. split; [by apply RLP_ok|]. split; [by apply isList_ok|]. destruct x as [b|l].
  - by apply toBytes_ok.
  - split; [by apply rlp_list_ok|]. split; [by apply itemCount_ok|]. intros. by apply item_lookup.
Qed.

Section Persistence.
Context `{CR : Crypto, CF : Config, ST_ : !StorageTrie, RN : Rng}.

(** C35: A signed transaction is received as it was sent: from the bytes [streamRLP] writes the
    constructor reads the same type, receiver, nonce, value, gas, gas price, data, chain id
    and signature (the recovery bit and the chain id share one field). *)
Theorem transaction_round_trip t g check :
  tx_wf t g → fits (Items (signed_items t g)) → check ≠ CheckEverything →
  (transaction_streamRLP true false t ≫= transaction_of_rlp check) = Ok t.
Proof.
  intros Hw Hf Hc. rewrite (streamRLP_signed t g Hw). cbn [mbind outcome_bind].
  exact (transaction_read_back t g check Hw Hf Hc).
Qed.

(** Reading ends on every input.  Whatever bytes a peer sends, taking an RLP list apart
    and building a transaction from it (with any of the checks) returns or throws; no loop
    over the items of a list goes on for ever. *)
Theorem reading_terminates check d : total (rlp_list d) ∧ total (transaction_of_rlp check d).
Proof. split; [apply rlp_list_total|apply transaction_of_rlp_total]. Qed.

(** C36: An account is read back as it was written: decoding the encoding [commit] writes at
    height [bn] gives every field back (orders and results in the order of their index, the
    two fields added by forks only at the heights that write and read them), the caches
    empty and the storage root the committed one. *)
Theorem account_round_trip bn n cn root x :
  account_wf x → in256 root → fits (Items (account_items bn root x)) →
  account_decode n cn (account_encode bn root x) = Ok (reloaded bn n cn root x).
Proof. intros Hx Hr Hf. apply decode_encode_ok; [done|done|]. by apply good_account. Qed.

(** C37: [commit] writes the cache to the trie.  Afterwards every address reads as: the
    written account when it was dirty and alive, nothing when it was dirty and dead, what the
    trie had before when it was not dirty or not cached; the storage words of a written
    account are those of its overlay and, below it, of its trie (the storage trie being an
    interface with the law that a committed overlay is read back). *)
Theorem commit_then_read re s a :
  (∀ x, m_cache (pruned re s) !! a = Some x → isDirty x = true → m_isAlive x = true → writable s x) →
  view (committed re s) a =
    match m_cache (pruned re s) !! a with
    | Some x => if isDirty x then if m_isAlive x then Some (reread_after s x) else None else trie_view s a
    | None => trie_view s a
    end ∧
  ∀ x k, (∀ k v, m_storageOriginal x !! k = Some v → v = storage_at (m_storageRoot x) k) →
    sval (reread_after s x) k = sval x k.
Proof.
  intros Hw. split; [|intros x k; apply storage_committed].
  unfold view. destruct (committed_fields re s) as (->&_). rewrite lookup_empty. by apply trie_view_committed.
Qed.
End Persistence.

(** ** Instances *)
Definition sample_item : rlp_item := Items [rlp_int 1024; rlp_bytes [1; 2; 3]; Items [rlp_hash 20 alice; Items []]].

Lemma sample_item_ok : item_ok sample_item.
Proof. split; [|by vm_compute]. vm_compute. repeat split; repeat constructor; congruence. Qed.

Lemma stream_writes_the_format_small : (append_item sample_item stream_empty ≫= out) = Ok (encode sample_item).
Proof. apply (stream_writes_the_format sample_item), sample_item_ok. Defined.
Lemma encoding_is_read_back_small :
  RLP (encode sample_item) = Ok (encode sample_item) ∧ isList (encode sample_item) = true ∧
  rlp_list (encode sample_item) = Ok (encode <$> [rlp_int 1024; rlp_bytes [1; 2; 3]; Items [rlp_hash 20 alice; Items []]])
  ∧ itemCount (encode sample_item) = Ok 3
  ∧ ∀ i y, [rlp_int 1024; rlp_bytes [1; 2; 3]; Items [rlp_hash 20 alice; Items []]] !! i = Some y →
      item (encode sample_item) i = Ok (encode y).
Proof. apply (encoding_is_read_back sample_item), sample_item_ok. Defined.

(** A transfer of Alice, its sender not yet recovered. *)
Definition sent : Transaction := mkTx MessageCall 1 7 bob 2 100000 [1; 200; 0] (Some (mkSig 5 6 1)) 11 0.
Lemma transaction_round_trip_small :
  (transaction_streamRLP true false sent ≫= transaction_of_rlp CheckCheap) = Ok sent.
Proof.
  apply (transaction_round_trip sent (mkSig 5 6 1)).
  - split; try (vm_compute; split; congruence); try done. repeat constructor; vm_compute; congruence.
  - vm_compute. reflexivity.
  - done.
Defined.

(** Alice's account with votes, orders and a storage word of its own. *)
Definition alices_account : Account :=
  (acc_setStorage 1 77 (holder 100 0 1000 10)) <| m_vote_data := [mkPoll bob 5 9] |> <| m_exChangeOrder := small_book |>.

(** Ranges of closed integers, and maps with nothing in them. *)
Ltac in_range := vm_compute; split; congruence.
Ltac empty_map := apply map_Forall_empty.
Lemma order_wf_small : Forall ex_order_wf small_book.
Proof. repeat constructor; (done || in_range). Qed.
Lemma alices_account_wf : account_wf alices_account.
Proof.
  split.
  - in_range.
  - in_range.
  - in_range.
  - in_range.
  - in_range.
  - constructor; [|constructor]. split_and!; in_range.
  - in_range.
  - in_range.
  - in_range.
  - split; [constructor|done].
  - constructor.
  - in_range.
  - split_and!; [empty_map|empty_map|empty_map|in_range|in_range].
  - split_and!; [empty_map|empty_map|in_range|in_range|empty_map|split; in_range].
  - empty_map.
  - split_and!; [empty_map|in_range|in_range].
  - split; constructor.
  - split; [apply order_wf_small|]. apply (bool_decide_eq_true_1 _). by vm_compute.
  - split_and!; [in_range|in_range|done].
  - empty_map.
Qed.

Lemma account_round_trip_small :
  account_decode 100 101 (account_encode 100 EmptyTrie alices_account) = Ok (reloaded 100 100 101 EmptyTrie alices_account).
Proof.
  apply (account_round_trip 100 100 101 EmptyTrie alices_account).
  - apply alices_account_wf.
  - in_range.
  - vm_compute. reflexivity.
Defined.

(** The account above with an empty overlay, dirty in the cache of an empty chain. *)
Definition dirty_chain : State :=
  put alice (alices_account <| m_storageOverlay := ∅ |>) (fresh_state []).
Lemma commit_then_read_small :
  view (committed false dirty_chain) alice = Some (reread_after dirty_chain (alices_account <| m_storageOverlay := ∅ |>)).
Proof.
  apply (commit_then_read false dirty_chain alice).
  intros x [= <-] _ _. split; [|split].
  - destruct alices_account_wf. by split.
  - in_range.
  - vm_compute. reflexivity.
Defined.
