(* ===== verification/Dpos.v ===== *)
(** * Delegated voting: votes, elections, snapshots, shares *)
From stdpp Require Import base gmap list.
From Stdlib Require Import ZArith Lia.
From S2P Require Import Prelude Rlp Config Objects Interfaces Account ChainState StateOps Exdb Operations Codec.
From S2P Require Import BookProofs Scenario Exchange Vote Income Miner Verify VoteProofs Rollback Undoable Atomic Supply StateProofs.
From S2P Require Import Transactions.
Open Scope Z_scope.

(** ** Ballots and votes *)

(** The votes an account has given to [r]. *)
Definition votes_for (r : Address) (x : Account) : u256 := w256 (sumZ (λ p, if m_addr p =? r then m_poll p else 0) (m_vote_data x)).
(** [v] ballots of the voter have become votes for the candidate [r]: [a] and [b] are their
    accounts before, [a'] and [b'] after, [e'] the account that lists the candidates. *)
Record votes_moved (r : Address) (v : u256) (a b a' b' e' : Account) : Prop := {
  mv_ballot : m_ballot a' = m_ballot a [-] v;
  mv_votes : ∀ c, votes_for c a' = if decide (c = r) then votes_for c a [+] v else votes_for c a;
  mv_poll : a_poll b' = a_poll b [+] v;
  mv_listed : ∃ i q, find_addr r (m_vote_data e') = Some (i, q) ∧ m_poll q = a_poll b' }.

Section Dpos.
Context `{CR : Crypto, CF : Config, ST_ : !StorageTrie, RN : Rng, CO : !AccountCodec}.

Lemma addVote_votes r v x y : acc_addVote (r, v) x = Some y →
  ∀ c, votes_for c y = if decide (c = r) then votes_for c x [+] v else votes_for c x.
Proof.
  intros E c. unfold acc_addVote in E. cbn [fst snd] in E. unfold votes_for. set (l := m_vote_data x) in *. set (f := λ p, if m_addr p =? c then m_poll p else 0).
  destruct (find_addr r l) as [[i p]|] eqn:Ef.
  - apply find_addr_Some in Ef as [Hi Ha]. injection E as <-. rewrite vote_data_upd. fold l.
    destruct (Z.ltb_spec 0 (m_poll p [+] v)) as [Hp|Hp].
    + rewrite (sumZ_insert f _ _ _ _ Hi). unfold f at 2 3. change (m_addr (p <| m_poll ::= _ |>)) with (m_addr p). change (m_poll (p <| m_poll ::= _ |>)) with (m_poll p [+] v).
      rewrite Ha. case_decide as Hc; [rewrite (proj2 (Z.eqb_eq _ _)) by done; u256_norm; f_equal; lia|].
      rewrite (proj2 (Z.eqb_neq _ _)) by done. f_equal. lia.
    + rewrite (sumZ_erase f _ _ _ Hi). unfold f at 2. rewrite Ha. pose proof (w256_in (m_poll p + v)) as Hw. unfold in256 in Hw.
      case_decide as Hc; [|rewrite (proj2 (Z.eqb_neq _ _)) by done; f_equal; lia]. rewrite (proj2 (Z.eqb_eq _ _)) by done.
      assert (m_poll p [+] v = 0) as Hz by lia. rewrite w256_add_l. replace (sumZ f l + v) with ((sumZ f l - m_poll p) + (m_poll p + v)) by lia.
      by rewrite <-w256_add_r, Hz, Z.add_0_r.
  - case_bool_decide; [|done]. injection E as <-. rewrite vote_data_upd. fold l. rewrite sumZ_app, sumZ_cons, sumZ_nil. unfold f at 2. cbn [m_addr m_poll].
    case_decide as Hc; [rewrite (proj2 (Z.eqb_eq _ _)) by done; u256_norm; f_equal; lia|]. rewrite (proj2 (Z.eqb_neq _ _)) by done. f_equal. lia.
Qed.
Lemma system_poll_listed q x y : acc_set_system_poll q x = Some y → ∃ i q', find_addr (m_addr q) (m_vote_data y) = Some (i, q') ∧ m_poll q' = m_poll q.
Proof.
  unfold acc_set_system_poll. destruct (find_addr (m_addr q) (m_vote_data x)) as [[i p]|] eqn:Ef; [|done]. intros [= <-]. rewrite vote_data_upd.
  unfold find_addr in *. apply list_find_Some in Ef as (Hi&Ha&Hmin). exists i, (mkPoll (m_addr p) (m_poll q) (m_time q)). split; [|done].
  apply list_find_Some. split; [apply list_lookup_insert_eq; by eapply lookup_lt_Some|]. split; [done|]. intros j y' Hj Hlt.
  rewrite list_lookup_insert_ne in Hj by lia. by eapply Hmin.
Qed.

(** *** Writes to cached accounts *)
Lemma reread_inv a s x t : reread a s = (Ok x, t) → t = s ∧ m_cache s !! a = Some x.
Proof. unfold reread. destruct (m_cache s !! a); [|done]. by intros [= <- <-]. Qed.
Lemma write_inv a f s t : write a f s = (Ok tt, t) → ∃ x, m_cache s !! a = Some x ∧ m_cache t = <[a := f x]> (m_cache s).
Proof. unfold write. destruct (m_cache s !! a) as [x|]; [|done]. intros [= <-]. by exists x. Qed.
Lemma write_opt_inv a f s t : write_opt a f s = (Ok tt, t) → ∃ x y, m_cache s !! a = Some x ∧ f x = Some y ∧ m_cache t = <[a := y]> (m_cache s).
Proof. unfold write_opt. destruct (m_cache s !! a) as [x|]; [|done]. cbn. destruct (f x) as [y|] eqn:E; [|done]. intros [= <-]. by exists x, y. Qed.
Lemma logs_cache (b : bool) c1 c2 c3 c4 s t : when b (log c1 ;; log c2 ;; log c3 ;; log c4) s = (Ok tt, t) → m_cache t = m_cache s.
Proof. destruct b; intros H; [|by injection H as <-]. injection H as <-. by destruct s. Qed.
Lemma evicted n s a x : m_cache (Nat.iter n evict_one s) !! a = Some x → m_cache s !! a = Some x.
Proof.
  induction n as [|n IH]; [done|]. intros H. apply IH. cbn [Nat.iter nat_rect] in H. change (nat_rect _ _ _ n) with (Nat.iter n evict_one s) in H.
  revert H. generalize (Nat.iter n evict_one s). clear. intros s. unfold evict_one. destruct (m_unchangedCacheEntries s !! _) as [z|]; [|done]. destruct (last _); [|done].
  destruct (m_cache s !! z) as [y|]; [|by destruct s]. destruct (isDirty y); [by destruct s|]. intros H.
  assert (delete z (m_cache s) !! a = Some x) as [_ Hd]%lookup_delete_Some by exact H. exact Hd.
Qed.
(** Reading another account may evict this one, but does not change it. *)
Lemma account_stays b s o t a x : account b s = (Ok o, t) → a ≠ b → m_cache t !! a = Some x → m_cache s !! a = Some x.
Proof.
  unfold account. intros E Hne Hx. destruct (m_cache s !! b); [by injection E as <- <-|]. case_bool_decide; [by injection E as <- <-|].
  destruct (m_state s !! b) as [l|]; [|injection E as <- <-; by destruct s]. destruct (load s l) as [y|]; [|done]. injection E as <- <-.
  change (<[b := y]> (m_cache (clearCacheIfTooLarge s)) !! a = Some x) in Hx. rewrite lookup_insert_ne in Hx by done. by eapply evicted.
Qed.
Lemma same_numbers (x y : Account) : x ≡ y → w256 (m_ballot x) = w256 (m_ballot y) ∧ w256 (a_poll x) = w256 (a_poll y) ∧ m_vote_data x = m_vote_data y.
Proof.
  intros [Hn _]. split_and!.
  - exact (f_equal m_ballot Hn).
  - exact (f_equal a_poll Hn).
  - exact (f_equal m_vote_data Hn).
Qed.
(** Two accounts are read, one after the other, and a third; then the first is as it was,
    the second as good as that. *)
Lemma three_reads a b c s oa s1 ob s2 oc s3 x y : WF s → a ≠ c → b ≠ c → account a s = (Ok oa, s1) → account b s1 = (Ok ob, s2) → account c s2 = (Ok oc, s3) →
  m_cache s3 !! a = Some x → m_cache s3 !! b = Some y → view s a = Some x ∧ ∃ y0, view s b = Some y0 ∧ y0 ≡ y.
Proof.
  intros Hs Ha Hb E1 E2 E3 Hx Hy. destruct (account_keeps a s oa s1 Hs E1) as [Q1 W1]. destruct (account_keeps b s1 ob s2 W1 E2) as [Q2 W2]. destruct (account_keeps c s2 oc s3 W2 E3) as [Q3 W3].
  assert (∃ y0, view s b = Some y0 ∧ y0 ≡ y) as Hv.
  { assert (s ≡ s3) as [_ Q] by (by rewrite Q1, Q2). specialize (Q b). rewrite (view_cached _ _ _ Hy) in Q. destruct (view s b) as [y0|]; [|by inversion Q]. exists y0. by inversion Q. }
  split; [|done]. apply (account_stays _ _ _ _ _ _ E3 Ha) in Hx. destruct (decide (a = b)) as [<-|Hne].
  - assert (m_cache s1 !! a = Some x) as Hx1.
    { unfold account in E2. destruct (m_cache s1 !! a) as [z|] eqn:Ez; [by injection E2 as _ <-; rewrite Ez in Hx|].
      pose proof (account_view a s oa s1 Hs E1) as Ho. destruct oa as [z|]; [by rewrite (account_caches _ _ _ _ E1) in Ez|]. exfalso.
      destruct Hv as (y0&Hy0&_). congruence. }
    pose proof (account_view a s oa s1 Hs E1) as Ho. destruct Hv as (y0&Hy0&_). rewrite Hy0 in Ho. subst oa. apply account_caches in E1. congruence.
  - apply (account_stays _ _ _ _ _ _ E2 Hne) in Hx. pose proof (account_view a s oa s1 Hs E1) as Ho. destruct oa as [z|].
    + apply account_caches in E1. congruence.
    + destruct Q1 as [_ Q1]. specialize (Q1 a). rewrite (view_cached _ _ _ Hx) in Q1. rewrite <-Ho in Q1. by inversion Q1.
Qed.

(** The accounts before and after. *)
Definition delegated (id r : Address) (s t : State) (v : Account → Account → u256) (guard : Account → Prop) : Prop :=
  ∃ a b a' b' e', view s id = Some a ∧ view s r = Some b ∧ view t id = Some a' ∧ view t r = Some b' ∧ view t SysElectorAddress = Some e' ∧
    guard a ∧ votes_moved r (v a b) a b a' b' e'.
Lemma addVote_keeps rv x y : acc_addVote rv x = Some y → m_ballot y = m_ballot x ∧ a_poll y = a_poll x.
Proof. unfold acc_addVote. repeat case_match; intros [= <-]; by destruct x. Qed.
Lemma sum_mod x y v : w256 x = w256 y → x [+] v = y [+] v.
Proof. intros E. by rewrite <-(w256_add_l x), E, w256_add_l. Qed.
Lemma add_vote_moves id p s t : WF s → id ≠ SysElectorAddress → m_addr p ≠ SysElectorAddress → add_vote id p s = (Ok tt, t) →
  delegated id (m_addr p) s t (λ _ _, m_poll p) (λ a, m_poll p <= m_ballot a).
Proof.
  intros Hs Hid Hr H. unfold add_vote in H. cbv zeta in H. set (r := m_addr p) in *. set (v := m_poll p) in *.
  apply bind_inv in H as (o&s1&E1&H). apply bind_inv in H as (ro&s2&E2&H). apply bind_inv in H as (so&s3&E3&H).
  destruct o as [oa|]; [|done]. destruct ro as [rb|]; [|done]. destruct so as [se|]; [|done]. apply bind_inv in H as (a&s4&R&H). apply reread_inv in R as [-> Ha].
  destruct (Z.ltb_spec (m_ballot a) v) as [|Hv]; [done|]. apply bind_inv in H as (e0&s4&R&H). apply reread_inv in R as [-> He0].
  apply bind_inv in H as ([]&s4&(a1&Ha1&C4)%write_inv&H). rewrite Ha in Ha1. injection Ha1 as <-.
  apply bind_inv in H as ([]&s5&(x&a2&Hx&Ha2&C5)%write_opt_inv&H). rewrite C4, lookup_insert_eq in Hx. injection Hx as <-. rewrite C4, insert_insert_eq in C5.
  apply bind_inv in H as ([]&s6&(b&Hb&C6)%write_inv&H). rewrite C5 in C6, Hb.
  apply bind_inv in H as (b'&s7&R&H). apply reread_inv in R as [-> Hb']. rewrite C6, lookup_insert_eq in Hb'. injection Hb' as <-.
  apply bind_inv in H as ([]&s7&(e&e'&_&He&C7)%write_opt_inv&H). rewrite C6 in C7. apply logs_cache in H as Ct. rewrite C7 in Ct. clear H C4 C5 C6 C7 s4 s5 s6 s7.
  destruct (system_poll_listed _ _ _ He) as (i&q&Hq&Hp). cbn [m_addr m_poll] in Hq, Hp. destruct (addVote_keeps _ _ _ Ha2) as [Kb Kp].
  assert (∃ b0, m_cache s3 !! r = Some b0 ∧ a_poll b = a_poll b0) as (b0&Hb0&Pb).
  { destruct (decide (id = r)) as [Heq|Hne]; [|rewrite lookup_insert_ne in Hb by done; by exists b]. rewrite Heq, lookup_insert_eq in Hb. injection Hb as <-. exists a. split; [by rewrite <-Heq|by rewrite Kp]. }
  destruct (three_reads id r SysElectorAddress s _ s1 _ s2 _ s3 a b0 Hs Hid Hr E1 E2 E3 Ha Hb0) as [Va (b1&Vb&Eb)]. destruct (same_numbers _ _ Eb) as (_&Ep&_).
  set (a' := if decide (id = r) then acc_addPoll v b else a2). exists a, b1, a', (acc_addPoll v b), e'.
  assert (m_cache t !! id = Some a') as Ca'.
  { rewrite Ct, lookup_insert_ne by done. unfold a'. case_decide as Hc; [by rewrite <-Hc, lookup_insert_eq|]. by rewrite lookup_insert_ne, lookup_insert_eq. }
  split_and!; try done; [by apply view_cached|apply view_cached; by rewrite Ct, lookup_insert_ne, lookup_insert_eq|apply view_cached; by rewrite Ct, lookup_insert_eq|].
  assert (m_ballot a' = m_ballot a2 ∧ m_vote_data a' = m_vote_data a2) as [Fb Fv].
  { unfold a'. case_decide as Hc; [|done]. rewrite <-Hc, lookup_insert_eq in Hb. injection Hb as <-. by destruct a2. }
  split.
  - rewrite Fb, Kb. change (m_ballot (acc_addBallot (0 [-] v) a)) with (m_ballot a [+] (0 [-] v)). by u256_norm.
  - intros c. unfold votes_for at 1. rewrite Fv. exact (addVote_votes r v _ a2 Ha2 c).
  - change (a_poll (acc_addPoll v b)) with (a_poll b [+] v). rewrite Pb. by apply sum_mod.
  - by exists i, q.
Qed.

Lemma sub_vote_moves id p s t : WF s → id ≠ SysElectorAddress → m_addr p ≠ SysElectorAddress → sub_vote id p s = (Ok tt, t) →
  delegated id (m_addr p) s t (λ _ b, 0 [-] Z.min (a_poll b) (m_poll p)) (λ a, m_poll p <= m_poll (acc_poll_data (m_addr p) a)).
Proof.
  intros Hs Hid Hr H. unfold sub_vote in H. cbv zeta in H. set (r := m_addr p) in *.
  apply bind_inv in H as (ro&s1&E1&H). apply bind_inv in H as (o&s2&E2&H). apply bind_inv in H as (so&s3&E3&H).
  destruct o as [oa|]; [|done]. destruct ro as [rb|]; [|done]. destruct so as [se|]; [|done]. apply bind_inv in H as (a&s4&R&H). apply reread_inv in R as [-> Ha].
  destruct (Z.ltb_spec (m_poll (acc_poll_data r a)) (m_poll p)) as [|Hv]; [done|]. apply bind_inv in H as (e0&s4&R&H). apply reread_inv in R as [-> He0].
  apply bind_inv in H as (b&s4&R&H). apply reread_inv in R as [-> Hb]. replace (if a_poll b <? m_poll p then a_poll b else m_poll p) with (Z.min (a_poll b) (m_poll p)) in H by (destruct (Z.ltb_spec (a_poll b) (m_poll p)); lia).
  set (v := Z.min (a_poll b) (m_poll p)) in *.
  apply bind_inv in H as ([]&s4&(x&Hx&C4)%write_inv&H). rewrite Hb in Hx. injection Hx as <-.
  apply bind_inv in H as ([]&s5&(x&a2&Hx&Ha2&C5)%write_opt_inv&H). rewrite C4 in C5, Hx.
  apply bind_inv in H as ([]&s6&(y&Hy&C6)%write_inv&H). rewrite C5, lookup_insert_eq in Hy. injection Hy as <-. rewrite C5, insert_insert_eq in C6.
  apply bind_inv in H as (b'&s7&R&H). apply reread_inv in R as [-> Hb']. rewrite C6 in Hb'.
  apply bind_inv in H as ([]&s7&(e&e'&_&He&C7)%write_opt_inv&H). rewrite C6 in C7. apply logs_cache in H as Ct. rewrite C7 in Ct. clear H C4 C5 C6 C7 s4 s5 s6 s7.
  destruct (system_poll_listed _ _ _ He) as (i&q&Hq&Hp). cbn [m_addr m_poll] in Hq, Hp. destruct (addVote_keeps _ _ _ Ha2) as [Kb Kp].
  destruct (three_reads r id SysElectorAddress s _ s1 _ s2 _ s3 b a Hs Hr Hid E1 E2 E3 Hb Ha) as [Vb (a0&Va&Ea)]. destruct (same_numbers _ _ Ea) as (Eb&_&Ev).
  assert (m_vote_data x = m_vote_data a ∧ m_ballot x = m_ballot a ∧ a_poll b' = a_poll b [+] (0 [-] v)) as (Xv&Xb&Bp).
  { destruct (decide (id = r)) as [Heq|Hne].
    - rewrite Heq, lookup_insert_eq in Hx, Hb'. injection Hx as <-. injection Hb' as <-. assert (a = b) as -> by congruence. split_and!; [by destruct b..|].
      change (a_poll (acc_addBallot v a2)) with (a_poll a2). by rewrite Kp.
    - rewrite lookup_insert_ne in Hx by done. rewrite lookup_insert_ne, lookup_insert_eq in Hb' by done. injection Hb' as <-. assert (x = a) as -> by congruence. done. }
  exists a0, b, (acc_addBallot v a2), b', e'. unfold acc_poll_data. rewrite Ev.
  split_and!; try done; [apply view_cached; by rewrite Ct, lookup_insert_ne, lookup_insert_eq|apply view_cached; by rewrite Ct, lookup_insert_ne|apply view_cached; by rewrite Ct, lookup_insert_eq|].
  split.
  - change (m_ballot (acc_addBallot v a2)) with (m_ballot a2 [+] v). rewrite Kb, Xb, (sum_mod (m_ballot a) (m_ballot a0)) by done. u256_norm. f_equal. lia.
  - intros c. change (votes_for c (acc_addBallot v a2)) with (votes_for c a2). rewrite (addVote_votes r _ x a2 Ha2 c). unfold votes_for. by rewrite Xv, Ev.
  - done.
  - by exists i, q.
Qed.

(** C38: Delegating turns ballots of the voter into votes for the candidate, and undelegating
    turns them back.  [add_vote] succeeds only with enough free ballots; afterwards the voter has
    that many less and has given that many more votes to the candidate, no other candidate's
    share of it is changed, and the candidate has that many more votes, which is what the list of
    candidates shows.  [sub_vote] succeeds only if the voter has given the candidate that many;
    it is the reverse, for no more votes than the candidate has.  (Neither the voter nor the
    candidate is the system account that lists the candidates.) *)
Theorem delegation_moves_votes id p s t :
  WF s → id ≠ SysElectorAddress → m_addr p ≠ SysElectorAddress →
  (add_vote id p s = (Ok tt, t) → delegated id (m_addr p) s t (λ _ _, m_poll p) (λ a, m_poll p <= m_ballot a)) ∧
  (sub_vote id p s = (Ok tt, t) →
     delegated id (m_addr p) s t (λ _ b, 0 [-] Z.min (a_poll b) (m_poll p)) (λ a, m_poll p <= m_poll (acc_poll_data (m_addr p) a))).
Proof. intros Hs Hid Hr. split; [by apply add_vote_moves|by apply sub_vote_moves]. Qed.

(** Who is elected.  Of the candidates in the order [sort_greater] leaves them, the first
    [varlitorNum] become producers and the next [standbyNum] standbys; [sort_greater] leaves
    them in the order of the list, whatever their votes. *)
Theorem elected_by_position l :
  in256 varlitorNum → in256 standbyNum →
  let '(varlitors, standbys, _, _) := foldl elect_step ([], [], varlitorNum, standbyNum) (sort_greater l) in
  varlitors = take (Z.to_nat varlitorNum) l ∧ standbys = take (Z.to_nat standbyNum) (drop (Z.to_nat varlitorNum) l).
Proof. intros Hv Hs. by rewrite sort_greater_id, elect_fold. Qed.

(** A vote snapshot.  Bringing an account's snapshot from its latest recorded round up to
    round [r] records, for every round in between, the votes it gave and the votes it got;
    the running income goes to the first of these rounds and the others get none; earlier
    rounds stay as they were. *)
Theorem snapshot_records_the_missing_rounds r x :
  let s := m_vote_sapshot x in
  let s' := m_vote_sapshot (acc_try_new_snapshot r x) in
  let k := m_latest_round s in
  unrecorded (k + 1) s → k <= r →
  m_latest_round s' = r ∧
  ∀ j, let new := (k <? j) && (j <=? r) in
    m_voteDataHistory s' !! j = (if new then Some (vote_map (m_vote_data x)) else m_voteDataHistory s !! j) ∧
    m_pollNumHistory s' !! j = (if new then Some (a_poll x) else m_pollNumHistory s !! j) ∧
    m_blockSummaryHistory s' !! j =
      (if new then Some (if j =? k + 1 then m_CooikeIncomeNum x else 0) else m_blockSummaryHistory s !! j).
Proof.
  cbv zeta. intros Hu Hk. unfold acc_try_new_snapshot.
  set (s := m_vote_sapshot x) in *. set (k := m_latest_round s) in *.
  destruct (snapshot_fold x (Z.to_nat (r - k)) (k + 1) s (m_CooikeIncomeNum x) Hu) as [_ Hf].
  rewrite Z2Nat.id in Hf by lia.
  destruct (foldl (snapshot_step x) (s, m_CooikeIncomeNum x) (seqZ (k + 1) (r - k))) as [s' c].
  split; [by destruct x, s'|]. intros j. destruct (Hf j) as (H1&H2&H3). cbn [fst] in *.
  replace ((k <? j) && (j <=? r)) with ((k + 1 <=? j) && (j <? k + 1 + (r - k)));
    [|destruct (Z.ltb_spec k j), (Z.leb_spec j r), (Z.leb_spec (k + 1) j), (Z.ltb_spec j (k + 1 + (r - k))); lia || done].
  by destruct x, s'.
Qed.

(** Shares of an income.  A producer with [n] votes shares half of its fee evenly over the
    votes: what its voters get, together with its own part, never exceeds the fee; it is the
    whole fee when all [n] votes are paid out, and the producer keeps at least half. *)
Theorem shares_never_exceed_the_fee fee n vs :
  in256 fee → 0 < n → Forall (λ v, 0 <= v) vs → sumZ id vs <= n →
  node_part fee n + sumZ (vote_part fee n) vs <= fee ∧
  (sumZ id vs = n → node_part fee n + sumZ (vote_part fee n) vs = fee) ∧ fee - fee / 2 <= node_part fee n.
Proof.
  intros Hf Hn Hv Hs. rewrite node_part_exact, shares_sum by done. assert (0 <= fee) by (unfold in256 in Hf; lia).
  assert (0 <= fee / 2 / n) by (repeat apply Z.div_pos; lia).
  assert (fee / 2 / n * n <= fee / 2) by (rewrite Z.mul_comm; by apply Z.mul_div_le).
  split_and!; [nia|intros ->; lia|lia].
Qed.

(** The voting rounds of the configured chain.  Rounds never go back as blocks go on, and
    votes are only open at block 0 and in the month before the first year ends. *)
Theorem voting_rounds_advance n m :
  0 <= n <= m →
  (getVotingCycle n).1 <= (getVotingCycle m).1 ∧
  ((getVotingCycle n).2 = VOTE ↔ n = 0 ∨ one_year - one_month <= n < one_year).
Proof.
  intros Hnm. pose proof one_month_lt_year as Hy.
  destruct (votingCycle_cases n) as [[? ->]|[[? ->]|[(?&?&->)|[? ->]]]],
    (votingCycle_cases m) as [[? ->]|[[? ->]|[(?&?&->)|[? ->]]]]; cbn; (split; [lia|]); (split; [done || lia|]);
    intros; try done; lia.
Qed.

(** *** Gas prices *)
Definition gas_prices (s : State) : gmap Address u256 :=
  match view s GaspriceAddress with Some x => m_minerGasPrice x | None => ∅ end.
#[export] Instance gas_prices_proper : Proper ((≡) ==> (=)) gas_prices.
Proof.
  intros s t [_ E]. unfold gas_prices. specialize (E GaspriceAddress).
  destruct (view s _), (view t _); inversion E as [? ? [Hn _]|]; [|done]. subst. by apply (f_equal m_minerGasPrice) in Hn.
Qed.
Lemma account_some_inv a s x t : WF s → account a s = (Ok (Some x), t) → view s a = Some x ∧ m_cache t !! a = Some x.
Proof.
  intros Hs E. split; [by rewrite <-(account_view a s (Some x) t Hs E)|].
  destruct (account_spec a s Hs) as [_ Ho]. by rewrite E in Ho.
Qed.

(** Gas prices.  A proposal that passes the checks comes from a miner with a listed price,
    after the fork, and is within 20 percent of the average; executing it then sets exactly
    the proposer's price and nobody else's. *)
Theorem gas_price_proposal from number o s t1 t :
  WF s →
  verifyModifyMinerGasPrice from number [OpModifyGasPrice o] s = (Ok tt, t1) →
  modifyGasPrice [OpModifyGasPrice o] t1 = (Ok tt, t) →
  gasPriceHeight < number ∧ from = m_proposer o ∧ is_Some (gas_prices s !! m_proposer o) ∧
  (∃ x, view s GaspriceAddress = Some x ∧
     (getAverageGasPrice x [*] 8) / 10 <= m_proposedAmount o <= (getAverageGasPrice x [*] 12) / 10) ∧
  gas_prices t = <[m_proposer o := m_proposedAmount o]> (gas_prices s).
Proof.
  intros Hs H H'. apply bind_inv in H as (u&s0&[Hn ->]%require_inv&H). cbn [forM] in H.
  apply bind_inv in H as (u1&s1&H&[= <-]). apply bind_inv in H as (o1&s2&[= <- <-]&H).
  apply bind_inv in H as (u2&s3&[Hf ->]%require_inv&H). apply bind_inv in H as (go&s4&E4&H).
  destruct (account_keeps _ s go s4 Hs E4) as [Es Hs4].
  apply bind_inv in H as (a&s5&Ea&H). destruct go as [x|]; [|done]. injection Ea as <- <-.
  apply bind_inv in H as (u6&s6&[Hc ->]%require_inv&H). cbv zeta in H. apply require_inv in H as [Hr ->].
  destruct (account_some_inv _ _ _ _ Hs E4) as [Hx Hx4].
  cbn [forM] in H'. apply bind_inv in H' as (v1&t2&H'&[= <-]). apply bind_inv in H' as (y&t3&Ey&H').
  unfold deref in Ey. apply bind_inv in Ey as (yo&t4&E5&Ey). destruct yo as [y'|]; [|done]. injection Ey as -> ->.
  destruct (account_some_inv _ _ _ _ Hs4 E5) as [Hy Hy3]. rewrite (view_cached _ _ _ Hx4) in Hy. injection Hy as <-.
  apply bind_inv in H' as (o2&t5&[= <- <-]&H'). rewrite (bind_ok _ _ _ _ _ (write_eq _ _ x t3 Hy3)) in H'.
  injection H' as _ <-. unfold gas_prices at 1 3. rewrite Hx.
  apply negb_true_iff, orb_false_iff in Hr as [Hr1%Z.ltb_ge Hr2%Z.ltb_ge].
  apply negb_true_iff, Z.leb_gt in Hn. apply bool_decide_eq_true in Hf. apply bool_decide_eq_true in Hc.
  split_and!; [done|done|done|by exists x|].
  set (z := setMinerGasPrice _ _ x). unfold gas_prices.
  change (view _ GaspriceAddress) with (view (put GaspriceAddress z t3) GaspriceAddress).
  rewrite (view_cached _ _ z) by apply lookup_put. by destruct x.
Qed.
End Dpos.

(** ** Instances *)

(** Alice has ten ballots, Bob is a candidate. *)
Definition voters : State :=
  fresh_state [(alice, acc_addBallot 10 (holder 100 0 1000 10)); (bob, holder 50 5 1000 0);
               (SysElectorAddress, set_vote_data [mkPoll bob 0 3] (Account_ballot 0))].
Lemma voters_WF : WF voters.
Proof. apply WF_fresh; [done|done|]. set_solver. Qed.
(** Alice gives Bob four votes; she has given him four and takes three of them back. *)
Definition after_vote : State := Eval vm_compute in (add_vote alice (mkPoll bob 4 9) voters).2.
Definition voters_given : State :=
  fresh_state [(alice, set_vote_data [mkPoll bob 4 9] (acc_addBallot 6 (holder 100 0 1000 10))); (bob, acc_addPoll 4 (holder 50 5 1000 0));
               (SysElectorAddress, set_vote_data [mkPoll bob 4 3] (Account_ballot 0))].
Lemma voters_given_WF : WF voters_given.
Proof. apply WF_fresh; [done|done|]. set_solver. Qed.
Definition after_return : State := Eval vm_compute in (sub_vote alice (mkPoll bob 3 9) voters_given).2.
Lemma delegation_moves_votes_small :
  (∃ a', view after_vote alice = Some a' ∧ m_ballot a' = 6 ∧ votes_for bob a' = 4) ∧
  (∃ a' b', view after_return alice = Some a' ∧ view after_return bob = Some b' ∧ m_ballot a' = 9 ∧ votes_for bob a' = 1 ∧ a_poll b' = 1).
Proof.
  destruct (delegation_moves_votes alice (mkPoll bob 4 9) voters after_vote voters_WF ltac:(done) ltac:(done)) as [Hadd _].
  destruct (delegation_moves_votes alice (mkPoll bob 3 9) voters_given after_return voters_given_WF ltac:(done) ltac:(done)) as [_ Hsub].
  specialize (Hadd ltac:(vm_compute; reflexivity)). specialize (Hsub ltac:(vm_compute; reflexivity)). split.
  - destruct Hadd as (a&b&a'&b'&e'&Va&_&Va'&_&_&_&[Hb Hv _ _]). exists a'. split; [exact Va'|]. vm_compute in Va. injection Va as <-. split; [exact Hb|]. rewrite (Hv bob). reflexivity.
  - destruct Hsub as (a&b&a'&b'&e'&Va&Vb&Va'&Vb'&_&_&[Hb Hv Hp _]). exists a', b'. split; [exact Va'|]. split; [exact Vb'|].
    vm_compute in Va, Vb. injection Va as <-. injection Vb as <-. split; [exact Hb|]. split; [rewrite (Hv bob); reflexivity|exact Hp].
Defined.

Lemma elected_by_position_small :
  let l := [mkPoll bob 5 1; mkPoll carol 9 2] in
  let '(varlitors, standbys, _, _) := foldl elect_step ([], [], varlitorNum, standbyNum) (sort_greater l) in
  varlitors = take (Z.to_nat varlitorNum) l ∧ standbys = take (Z.to_nat standbyNum) (drop (Z.to_nat varlitorNum) l).
Proof. apply (elected_by_position [mkPoll bob 5 1; mkPoll carol 9 2]); by vm_compute. Defined.

(** Alice's running income is 50 when her snapshot is brought from round 0 to round 2. *)
Definition alice_votes : Account :=
  acc_addCooikeIncome 50 (set_vote_data [mkPoll bob 4 9] (holder 100 0 1000 10)).
Lemma snapshot_records_the_missing_rounds_small :
  let s' := m_vote_sapshot (acc_try_new_snapshot 2 alice_votes) in
  m_latest_round s' = 2 ∧
  ∀ j, let new := (0 <? j) && (j <=? 2) in
    m_voteDataHistory s' !! j = (if new then Some (vote_map (m_vote_data alice_votes)) else (∅ : gmap Z (gmap Z Z)) !! j) ∧
    m_pollNumHistory s' !! j = (if new then Some (a_poll alice_votes) else (∅ : gmap Z Z) !! j) ∧
    m_blockSummaryHistory s' !! j = (if new then Some (if j =? 1 then 50 else 0) else (∅ : gmap Z Z) !! j).
Proof. apply (snapshot_records_the_missing_rounds 2 alice_votes); [by split|by vm_compute]. Defined.

Lemma shares_never_exceed_the_fee_small :
  node_part 1001 7 + sumZ (vote_part 1001 7) [3; 4] <= 1001 ∧
  (sumZ id [3; 4] = 7 → node_part 1001 7 + sumZ (vote_part 1001 7) [3; 4] = 1001) ∧ 1001 - 1001 / 2 <= node_part 1001 7.
Proof.
  apply (shares_never_exceed_the_fee 1001 7 [3; 4]).
  - by vm_compute.
  - lia.
  - repeat constructor; lia.
  - by vm_compute.
Defined.

Lemma voting_rounds_advance_small :
  (getVotingCycle 0).1 <= (getVotingCycle 1000).1 ∧
  ((getVotingCycle 0).2 = VOTE ↔ 0 = 0 ∨ one_year - one_month <= 0 < one_year).
Proof. apply (voting_rounds_advance 0 1000). lia. Defined.

(** After the fork, Alice and Bob have prices 10 and 12; Alice proposes 11. *)
Definition priced : State :=
  let x := setMinerGasPrices {[alice := 10; bob := 12]} (Account_nb 0 0) in
  mkState {[GaspriceAddress := encode_account 30000000 (m_storageRoot x) x]} ∅ ∅ [] ∅ ∅ 0 0 30000000 30000001 [].
Definition proposal : modifyMinerGasPrice_operation := mkGasPriceOp op_modifyMinerGasPrice alice 11.
Lemma gas_price_proposal_small :
  let t1 := (verifyModifyMinerGasPrice alice 30000001 [OpModifyGasPrice proposal] priced).2 in
  let t := (modifyGasPrice [OpModifyGasPrice proposal] t1).2 in
  gasPriceHeight < 30000001 ∧ alice = m_proposer proposal ∧ is_Some (gas_prices priced !! alice) ∧
  (∃ x, view priced GaspriceAddress = Some x ∧
     (getAverageGasPrice x [*] 8) / 10 <= 11 <= (getAverageGasPrice x [*] 12) / 10) ∧
  gas_prices t = <[alice := 11]> (gas_prices priced).
Proof.
  apply (gas_price_proposal alice 30000001 proposal priced
           (verifyModifyMinerGasPrice alice 30000001 [OpModifyGasPrice proposal] priced).2).
  - apply WF_fresh; [done|done|]. set_solver.
  - apply run_eq. vm_compute. reflexivity.
  - apply run_eq. vm_compute. reflexivity.
Defined.
