(* ===== verification/Findings.v ===== *)
(** * Where the code departs from what it is meant to do

    Each theorem states what the code computes; the comment says what was to be
    expected from the name of the function, its other branches or its comments. *)
From stdpp Require Import base gmap list.
From Stdlib Require Import ZArith Lia.
From S2P Require Import Prelude Rlp Config Objects Interfaces Account ChainState StateOps Exdb Operations Codec.
From S2P Require Import Transaction Exchange Vote Income Miner Verify Executive Scenario VoteProofs Rollback Undoable Atomic.
From S2P Require Import Supply StateProofs.
From S2P Require Import Transactions BookProofs Ledger Dpos.
Open Scope Z_scope.

(** ** The pre-decremented counter *)
Lemma take_predec_all n l :
  Z.of_nat (length l) < n → n < 2 ^ 32 → take_predec n l = exchange_order_of <$> l.
Proof.
  revert n. induction l as [|x l IH]; intros n Hl Hn; [done|]. cbn [length] in Hl. cbn [take_predec fmap list_fmap].
  rewrite Z.mod_small by lia. destruct (Z.ltb_spec 0 (n - 1)); [|lia]. f_equal. apply IH; lia.
Qed.
Lemma take_predec_some n l :
  1 <= n < 2 ^ 32 → take_predec n l = exchange_order_of <$> take (Z.to_nat (n - 1)) l.
Proof.
  revert n. induction l as [|x l IH]; intros n Hn; [by rewrite take_nil|]. cbn [take_predec].
  rewrite Z.mod_small by lia. destruct (Z.ltb_spec 0 (n - 1)).
  - replace (Z.to_nat (n - 1)) with (S (Z.to_nat (n - 1 - 1))) by lia. cbn [firstn fmap list_fmap]. f_equal. apply IH. lia.
  - replace (n - 1) with 0 by lia. done.
Qed.

Section Findings.
Context `{CR : Crypto, CF : Config, ST_ : !StorageTrie, RN : Rng, CO : !AccountCodec}.

(** Outside the voting phase every operation on votes is refused, buying and selling
    ballots included: [dType == EDelegate || EUnDelegate] is always true. *)
Theorem votes_closed_for_all_operations from env op ops s :
  (getVotingCycle (env_number env)).2 ≠ VOTE → verifyVote from env (op :: ops) s = (Throw VerifyVoteField, s).
Proof.
  intros H. unfold verifyVote. cbn [forM]. unfold mbind at 1, ST_bind at 1. by rewrite verify_vote_op_closed.
Qed.

(** In the first two rounds a fee snapshot is meant to keep the first seven producers
    ([minner_rank_num]); the unsigned counter wraps around, so it skips only the eighth and
    keeps all the others. *)
Theorem early_snapshot_skips_the_eighth l :
  NoDup (m_addr <$> l) → Z.of_nat (length l) < 2 ^ 32 → record_select true l = take 7 l ++ drop 8 l.
Proof. apply record_select_early. Qed.

(** [get_order_by_address] with a limit of [size] returns at most [size - 1] orders, and
    all of them when [size] is 0 (the pre-decremented counter wraps around). *)
Theorem order_limit_is_off_by_one size l :
  0 <= size < 2 ^ 32 → Z.of_nat (length l) < 2 ^ 32 - 1 →
  take_predec size l = exchange_order_of <$> (if size =? 0 then l else take (Z.to_nat (size - 1)) l).
Proof.
  intros Hs Hl. destruct (Z.eqb_spec size 0) as [->|Hz].
  - destruct l as [|x l]; [done|]. cbn [take_predec fmap list_fmap]. cbn [length] in Hl.
    change ((0 - 1) mod 2 ^ 32) with (2 ^ 32 - 1). cbn [Z.ltb Z.compare]. f_equal.
    apply take_predec_all; lia.
  - by apply take_predec_some; lia.
Qed.

(** [subCookieIncomeNum] is meant to reject an account whose income is too small; it
    rejects every account whose income is not zero. *)
Theorem income_cannot_be_subtracted a v s x :
  WF s → view s a = Some x → m_CooikeIncomeNum x ≠ 0 → v ≠ 0 →
  ∃ t, subCookieIncomeNum a v s = (Throw NotEnoughCash, t) ∧ s ≡ t.
Proof.
  intros Hs Hx Hi Hv. unfold subCookieIncomeNum. rewrite (proj2 (Z.eqb_neq v 0) Hv).
  destruct (account_some a s x Hs Hx) as (t&E&Es&_). exists t. split; [|done].
  rewrite (bind_ok _ _ _ _ _ E). by rewrite (proj2 (Z.eqb_neq _ _) Hi).
Qed.
End Findings.

(** ** Counterexamples: what a rollback does not undo *)
Definition votes_of (s : State) (a : Address) : list PollData := match view s a with Some x => m_vote_data x | None => [] end.
Definition rewards_of (s : State) (a : Address) : list (u256 * u256) :=
  match view s a with Some x => m_BlockReward x | None => [] end.
Definition income_of (s : State) (a : Address) : u256 :=
  match view s a with Some x => m_CooikeIncomeNum x | None => 0 end.

(** Alice has given four of her ten ballots to Bob. *)
Definition voted : State :=
  fresh_state [(alice, set_vote_data [mkPoll bob 4 0] (acc_addBallot 6 (holder 100 0 1000 10)));
               (bob, acc_addPoll 4 (holder 50 5 1000 0));
               (SysElectorAddress, set_vote_data [mkPoll bob 4 3] (Account_ballot 0))].

(** Delegating and undelegating votes are not undone by a rollback.  [add_vote] logs the old
      entry of the candidate list under the voter's address, and [sub_vote] logs its vote with
      the sign of the change instead of its inverse: after the rollback the voter has one vote
      for the candidate instead of four, and after [add_vote] the candidate list still counts
      the votes that were taken back. *)
Theorem delegation_is_not_undone :
  votes_of voted alice = [mkPoll bob 4 0] ∧ votes_of voted SysElectorAddress = [mkPoll bob 4 3] ∧
  (let t := (add_vote alice (mkPoll bob 3 9) voted).2 in
   (rollback 0 t).1 = Ok tt ∧ votes_of (rollback 0 t).2 alice = [mkPoll bob 1 3]
   ∧ votes_of (rollback 0 t).2 SysElectorAddress = [mkPoll bob 7 3]) ∧
  (let t := (sub_vote alice (mkPoll bob 3 9) voted).2 in
   (rollback 0 t).1 = Ok tt ∧ votes_of (rollback 0 t).2 alice = [mkPoll bob 1 3]).
Proof. vm_compute. repeat split. Qed.

(** A block reward is not undone by a rollback but counted twice: the entry of the change log
      adds the logged reward instead of taking it back. *)
Theorem block_reward_is_not_undone :
  let t := (addBlockReward alice 5 7 voted).2 in
  rewards_of voted alice = [] ∧ (rollback 0 t).1 = Ok tt ∧ rewards_of (rollback 0 t).2 alice = [(5, 14)].
Proof. vm_compute. repeat split. Qed.

(** A new vote snapshot moves the running income of 50 into the snapshot and logs that twice:
      a rollback gives the account an income of 100. *)
Theorem income_is_restored_twice :
  let s := fresh_state [(alice, acc_addCooikeIncome 50 (holder 100 0 1000 10))] in
  let t := (try_new_vote_snapshot alice 2 s).2 in
  income_of s alice = 50 ∧ income_of t alice = 0 ∧ (rollback 0 t).1 = Ok tt ∧ income_of (rollback 0 t).2 alice = 100.
Proof. vm_compute. repeat split. Qed.

(** ** Counterexamples: checks and amounts *)

(** Checking an automatic exchange takes orders out of the book.  The check places the market
      order for good (it does not pass [reset]): Carol's sell order is gone from the book, nothing
      was paid for it, and her cookies stay frozen. *)
Theorem checking_consumes_the_book :
  let s := fresh_state [(alice, holder 100000 0 0 0); (carol, holder 0 0 0 50);
                        (ExdbSystemAddress, exchange_account [ask 12 carol 100000000 50 2])] in
  let op := mkAutoExOp op_transferAutoEx Balancededuction 30000 0 alice bob in
  let t := (verifyTransferAutoEx alice [OpTransferAutoEx op] 1 99 (mkEnv 99999999 5 1 carol 0 100000000) s).2 in
  (verifyTransferAutoEx alice [OpTransferAutoEx op] 1 99 (mkEnv 99999999 5 1 carol 0 100000000) s).1 = Ok tt ∧
  length (book_view s) = 1%nat ∧ book_view t = [] ∧
  held t Frozen_cookies carol = 50 ∧ held t Free_BRC carol = 0 ∧ held t Free_BRC alice = 100000.
Proof. vm_compute. repeat split. Qed.

(** The price of ballots is a 256-bit product: 2^248 ballots cost nothing, and an account
      without any BRC can buy them. *)
Theorem ballots_for_nothing :
  let s := fresh_state [(alice, holder 0 0 0 0); (systemAddress, holder 0 0 0 0)] in
  let op := OpVote (mkVoteOp op_vote alice alice EBuyVote (2 ^ 248)) in
  (verifyVote alice (mkEnv 0 5 1 carol 0 100000000) [op] s).1 = Ok tt ∧
  (transferBallotBuy alice (2 ^ 248) s).1 = Ok tt ∧
  held (transferBallotBuy alice (2 ^ 248) s).2 Ballots alice = 2 ^ 248 ∧
  held (transferBallotBuy alice (2 ^ 248) s).2 Free_BRC alice = 0.
Proof. vm_compute. repeat split. Qed.

(** ** Counterexamples: fees *)
Definition alice_pays (env : EnvInfo) : outcome (bool * Exec) * State :=
  executeTransaction (transact test_params 10 (alice_calls bob 10) env executeinitialize) paying_chain.

(** In the block at [modifyReciptGasHeight] itself no plain call that leaves gas over can be paid
      for: [initialize] records the cost of a call only above that height, [finalize] charges by
      the new rule from that height on, and the fee becomes 2^256 minus the gas that is left.
      One block earlier and one block later the same transfer succeeds. *)
Theorem plain_call_at_the_fork :
  (alice_pays (at_block modifyReciptGasHeight)).1 = Throw NotEnoughCash ∧
  returns (alice_pays (at_block (modifyReciptGasHeight - 1))).1 = true ∧
  returns (alice_pays (at_block (modifyReciptGasHeight + 1))).1 = true.
Proof. vm_compute. repeat split. Qed.

(** The gas limit of a block is checked but not enforced: [initialize] catches
      [BlockGasLimitReached] (and [OutOfGasIntrinsic]) and goes on, so a call that does not fit
      into the block is executed, the transfer is made, and only the receipt says it failed. *)
Theorem block_gas_limit_is_not_enforced :
  let env := mkEnv 40000000 5 1 carol 0 0 in
  verifyTransaction test_params IR_Everything (alice_calls bob 10) env = Throw BlockGasLimitReached ∧
  (∃ x, (alice_pays env).1 = Ok (false, x)) ∧
  held paying_chain Free_BRC bob = 50 ∧ held (alice_pays env).2 Free_BRC bob = 60.
Proof. vm_compute. split_and!; [done|by eexists|done|done]. Qed.

(** ** Instances *)
Lemma votes_closed_for_all_operations_small :
  verifyVote alice (mkEnv 1000 5 1 carol 0 100000000) [OpVote (mkVoteOp op_vote alice alice EBuyVote 1)] small_chain
    = (Throw VerifyVoteField, small_chain).
Proof. apply (votes_closed_for_all_operations alice (mkEnv 1000 5 1 carol 0 100000000)). by vm_compute. Defined.

Lemma early_snapshot_skips_the_eighth_small :
  let l := (λ a, mkPoll a 1 0) <$> seqZ 1 9 in record_select true l = take 7 l ++ drop 8 l.
Proof.
  apply (early_snapshot_skips_the_eighth ((λ a, mkPoll a 1 0) <$> seqZ 1 9)).
  - apply (bool_decide_eq_true_1 _). by vm_compute.
  - by vm_compute.
Defined.

Lemma order_limit_is_off_by_one_small : take_predec 2 small_book = exchange_order_of <$> take 1 small_book.
Proof. apply (order_limit_is_off_by_one 2 small_book); by vm_compute. Defined.

Definition earning : State := fresh_state [(alice, acc_addCooikeIncome 50 (holder 100 0 1000 10))].
Lemma income_cannot_be_subtracted_small :
  ∃ t, subCookieIncomeNum alice 20 earning = (Throw NotEnoughCash, t) ∧ earning ≡ t.
Proof.
  apply (income_cannot_be_subtracted alice 20 earning (default Account_dead (view earning alice))).
  - apply WF_fresh; [done|done|]. set_solver.
  - vm_compute. reflexivity.
  - vm_compute. congruence.
  - done.
Defined.
